(* ===== verification/_CoqProject ===== *)
-Q . S2P
Prelude.v
JsString.v
JsValue.v
Json.v
JsPrint.v
StatusCodes.v
ChannelRules.v
MiniApi.v
MiniAuth.v
MiniServices.v
Actions.v
BindingLifecycle.v
TextTestLifecycle.v
AuthSession.v
Flow.v
FlowFacts.v
FlowViews.v
ChatMessages.v
ChatFacts.v
StreamController.v
ChatHandler.v
RegExp.v
JsonQuote.v
JsNumber.v
BillingExpr.v
TierExpr.v
BillingFacts.v
JsonPrint.v
JsInteger.v
StorageSchema.v
ChatStorage.v
ChatStorageFacts.v
JsDynamic.v
AdvancedCustom.v
AdvancedCustomFacts.v
Channels.v
ChannelForm.v
ChannelFormFacts.v
ChannelUtils.v
HttpClient.v
ParamOverride.v
ParamOverrideEditor.v
ParamOverrideFacts.v
ParamEditorFacts.v
RatioSync.v
RatioSyncFacts.v
Navigation.v
NavigationFacts.v
PricingFormat.v
ModelPricing.v
ModelPricingFacts.v
ChannelTest.v
ChannelTestFacts.v
TieredEditor.v
TieredEditorFacts.v
