(* ===== verification/Prelude.v ===== *)
(** * A verified model of the One API front ends

    One API is a gateway to language models: a server (Go, not modelled) and two
    TypeScript front ends, a web console (src/web) and a WeChat mini program
    (src/miniapp).  This library models the logic of the two front ends that
    decides something: what is sent to the server and when, what a reply may
    change, what is shown, and what an administrator's rules mean.  Pure functions
    are functions here; objects with mutable fields are records with one function
    per method; code that waits for the server is a state machine whose events are
    the replies, so that a theorem over its runs holds for every interleaving.

    ** The parts and the files

    The language.
    - Prelude.v: sets and maps in insertion order ([set_of], [jget], [jset] for Set,
      Map and plain objects), [sort] with a comparator ([js_sort]), results that may
      be thrown ([res]), reachability ([reaches]), the tactics and hints.
    - JsString.v: strings as lists of code units, with the methods the code uses.
    - JsValue.v: binary64 numbers and values of type unknown.
    - Json.v, JsPrint.v: JSON.parse and the printing of numbers.
    - JsonQuote.v, JsonPrint.v: JSON.stringify of texts and of values, with or without
      indentation, and its round trip through JSON.parse ([JSON_parse_stringify]).
      JsInteger.v: integers below 2^53 print as digits and read back.
    - JsNumber.v: Number of any value.  JsDynamic.v: reads of values whose type is known
      only at run time, which may throw, and the interface of the URL parser.
    - RegExp.v: regular expressions as a backtracking matcher, with the methods that
      search, replace and split by them.
    - Actions.v: methods of an object with mutable fields, and their runs
      ([machine_step], [run_reaches]).

    Rules of the console.
    - StatusCodes.v: src/web/src/lib/http-status-code-rules.ts.  Accepted rules cover
      exactly the codes they name, in a normal form that parses back and is unique.
    - ChannelRules.v: features/channels/lib (status-code-risk-guard.ts,
      model-mapping-validation.ts, upstream-update-utils.ts).  The warnings shown
      name exactly the offending entries.

    Channels of the console.
    - AdvancedCustom.v (definitions), AdvancedCustomFacts.v: features/channels/lib/
      advanced-custom.ts.  The validator accepts exactly the configurations of a stated
      contract and reports the first route at fault; a configuration survives its text;
      the templates offered are valid.
    - Channels.v: types.ts and constants.ts.  ChannelForm.v (definitions),
      ChannelFormFacts.v: lib/channel-form.ts.  A save gives every setting an
      exact value, and the next form shows what was saved or, where a save leaves a
      setting of another type alone, what was stored before; payloads blank what they must; the checks across fields report exactly what is wrong.
    - ChannelUtils.v: lib/channel-utils.ts.  Rows grouped by tag hold every channel once,
      a masked key shows only its ends, keys are deduplicated exactly.

    - ParamOverride.v, ParamOverrideEditor.v (definitions), ParamOverrideFacts.v,
      ParamEditorFacts.v: components/dialogs/param-override-editor-dialog.tsx, its rules
      and its dialog as a state machine.  A saved override opens again as it was, for
      values that their own text means; the dialog always has a selected rule; the panel of pruning rules changes nothing.
    - ChannelTest.v (definitions), ChannelTestFacts.v: components/dialogs/
      channel-test-dialog.tsx and the test of lib/channel-actions.ts, as a state machine
      whose events are clicks, answers and ends of pauses.  A batch tests each model once
      and at most five at a time, always ends and tells its counts; while the dialog is
      open there is one batch, and a batch that runs when the dialog is closed goes on
      to its end beside one that is started then.

    Prices of the console.
    - BillingExpr.v, TierExpr.v (definitions), BillingFacts.v: features/pricing/lib/
      billing-expr.ts and tier-expr.ts.  Request rules come back from the expression
      built of them, alone and joined to a base expression.
    - RatioSync.v (definitions), RatioSyncFacts.v: features/system-settings/models/
      upstream-ratio-sync-helpers.ts and the two components that use it.  A model is
      priced in one way at a time, bulk selection picks all that can be picked together
      and its undoing is exact, what is saved is what was picked, and a change of the way of pricing is confirmed first.
    - PricingFormat.v, ModelPricing.v (definitions), ModelPricingFacts.v: model-pricing-
      core.ts, -snapshots.ts, -sheet.tsx and model-ratio-visual-editor.tsx of the same
      settings.  Saving or deleting a model changes its row and no other, the ratios of
      the panel are those of the prices shown, and a row is marked as changed exactly
      when it differs; two mistakes of the panel are stated as theorems.
    - TieredEditor.v (definitions), TieredEditorFacts.v: tiered-pricing-editor.tsx of the
      same settings, with its effects as rounds after each handler.  The rounds settle
      (five are enough, [editor_settles]), what is saved is what is shown, the tiers stay
      well formed, every template applies once the editor has read its values again, and
      a template with rules that is the first change after opening a stored expression
      in its normal form loses its prices.

    Sessions of the console.
    - AuthSession.v: lib/auth-session.ts, lib/auth-session-sync.ts and
      stores/auth-store.ts.  A refresh ends, within eight requests; what it
      leaves is a function of the last answer of this run; a rotation never changes the user; tabs hear of
      exactly the recent events of other tabs.
    - HttpClient.v: lib/http-client.ts, server-error-message.ts and the refresh that
      requests share, as a state machine.  Every request settles, is sent at most twice,
      and is never shared across sessions; what each event does to a request that awaits
      the refresh is exact.
    - Navigation.v (definitions), NavigationFacts.v: lib/roles.ts, admin-permissions.ts,
      nav-modules.ts, the hooks of the sidebar and of the header, and the guards of the
      routes.  No guard redirects from a link that is shown (what a route renders is not
      modelled), settings of a user only hide.

    The flow diagram of the console.
    - Flow.v (definitions), FlowFacts.v, FlowViews.v: features/dashboard/lib/flow.ts,
      flow-selection.ts and the types.  Every stage sums to the total; shares, the
      limit on nodes, masking, filters and filter options are exact.

    The playground of the console.
    - ChatMessages.v (definitions), ChatFacts.v: features/playground/lib/message and
      lib/streaming.  How reasoning is told from the answer, what a stream adds up
      to, what a finished message is, what a turn sends.
    - StorageSchema.v: lib/storage/storage-schema.ts, the schemas as instances of an
      interface with its laws: what is written is read again.  ChatStorage.v (definitions),
      ChatStorageFacts.v: lib/storage/storage.ts and lib/state.  The stored conversation
      refines a cell over any saves, loads and clearings: what is kept, within which bounds,
      and how a loaded one is repaired.
    - StreamController.v: hooks/use-stream-request.ts as a state machine.  One source
      at a time, replaced requests are silent, a request ends at most once.
    - ChatHandler.v: hooks/use-chat-handler.ts and the message state of
      use-playground-state.ts, with React's queue of updates.  What is streamed is
      what is shown, in every interleaving; a stop settles the answer.

    The mini program.
    - MiniApi.v: lib/api.ts, lib/session.ts, lib/pending-text-test.ts.
    - MiniAuth.v: features/auth/auth-service.ts.  The session stays well formed, and
      binding pages are opened only on the trusted origin.
    - MiniServices.v: the commerce, token, account and text-test services and
      pages/login/recovery.ts.
    - BindingLifecycle.v: pages/binding/lifecycle.ts as a state machine with its two
      timers and two awaited replies; TextTestLifecycle.v: features/text-test/
      text-test-lifecycle.ts likewise.

    ** How the model relates to the code

    Definitions keep the names of the code.  A method is an [act]: a function from
    the fields to the fields and the calls made, in order.  A function that may
    throw returns a [res].  Promises become events: a handler runs to its [await],
    and the rest is the handler of the event that settles it.  Aliased objects that
    the code finds again by identity (the links of the diagram) are found by the key
    that no other has.

    Parameters stand for what is not in the repository: the network (its replies are
    events or arguments), the clock and drawn identifiers (arguments), storage (may
    throw) and its quota, the URL parser ([UrlParser]), the host's [localeCompare] and number format, the colour
    schemes of the chart library, the translation function.  What is assumed of
    [localeCompare] is [LocaleLaws] of Flow.v: that it is a consistent comparison;
    a host that satisfies it is given beside the theorem that uses it.

    ** Numbers, bounds and fuel

    Numbers that the code computes with as reals (shares, opacities, JSON numbers)
    are binary64; amounts, counts and times are integers, exact in the language
    below 2^53.  JSON_parse and the loop of parseThinkTags recurse on fuel taken from
    the length of the text, and are proved never to run out ([JSON_parse_fuel],
    [think_parse]).  A regular expression is matched by recursion on the pattern, with
    the rest of the text as the bound of a loop, since an iteration that consumes nothing
    is refused; a global search advances at every match.  The refresh runner has fuel for its eight rounds and is proved
    to return within it ([refresh_terminates]).

    ** What is not modelled

    React views and hooks that only wire, declarative chart and table
    specifications, wrappers around single requests, generated routes, the server
    and the desktop shell.  Of the modelled files: the list of time zones and the local
    evaluation of a billing expression by the host's compiler (billing-expr.ts), the
    labels of channel-utils.ts that format money, dates and locales, and the single-field
    combinators of the form's schema.  [toLowerCase] is modelled on ASCII letters, and
    names inherited from the prototype of an object are not looked up.  Within reach of
    the same methods and not there yet: the playground's parameters and options, the
    price filters, workspaces with a sidebar of their own. *)
From Stdlib Require Export ZArith Lia.
From stdpp Require Export base tactics option gmap sorting numbers.
From stdpp Require Export list.

(** ** Tactics *)

(** Case-split the first boolean test or match of the goal, keeping its equation. *)
Ltac case_goal :=
  match goal with
  | |- context [if ?b then _ else _] => destruct b eqn:?
  | |- context [match ?x with _ => _ end] => destruct x eqn:?
  end.

(** Turn boolean hypotheses and goals into propositions. *)
Ltac boolify :=
  repeat match goal with
  | H : _ && _ = true |- _ => apply andb_true_iff in H; destruct H
  | H : _ || _ = false |- _ => apply orb_false_iff in H; destruct H
  | H : negb _ = true |- _ => apply negb_true_iff in H
  | H : negb _ = false |- _ => apply negb_false_iff in H
  | H : bool_decide _ = true |- _ => apply bool_decide_eq_true in H
  | H : bool_decide _ = false |- _ => apply bool_decide_eq_false in H
  | H : (_ <=? _)%Z = true |- _ => apply Z.leb_le in H
  | H : (_ <=? _)%Z = false |- _ => apply Z.leb_gt in H
  | H : (_ <? _)%Z = true |- _ => apply Z.ltb_lt in H
  | H : (_ <? _)%Z = false |- _ => apply Z.ltb_ge in H
  | H : (_ =? _)%Z = true |- _ => apply Z.eqb_eq in H
  | H : (_ =? _)%Z = false |- _ => apply Z.eqb_neq in H
  | H : (_ <=? _)%N = true |- _ => apply N.leb_le in H
  | H : (_ <=? _)%N = false |- _ => apply N.leb_gt in H
  | H : (_ =? _)%N = true |- _ => apply N.eqb_eq in H
  | H : (_ =? _)%N = false |- _ => apply N.eqb_neq in H
  end.

Create HintDb jsdb.

(** ** Thrown errors

    A function that may throw returns [Ok] with its value or [Throw] with the
    error object. *)
Inductive res (E A : Type) : Type :=
| Ok (a : A)
| Throw (e : E).
Arguments Ok {E A} a.
Arguments Throw {E A} e.

#[export] Instance res_ret E : MRet (res E) := λ A a, Ok a.
#[export] Instance res_bind E : MBind (res E) := λ A B f m,
  match m with Ok a => f a | Throw e => Throw e end.

(** [Array.prototype.map] with a callback that may throw: the first error
    escapes. *)
Fixpoint mapM_res {E A B} (f : A → res E B) (l : list A) : res E (list B) :=
  match l with
  | [] => Ok []
  | x :: l =>
      match f x with
      | Throw e => Throw e
      | Ok y => match mapM_res f l with
                | Throw e => Throw e
                | Ok ys => Ok (y :: ys)
                end
      end
  end.

Lemma mapM_res_Forall2 {E A B} (f : A → res E B) l ys :
  mapM_res f l = Ok ys ↔ Forall2 (λ x y, f x = Ok y) l ys.
Proof.
  revert ys; induction l as [|x l IH]; intros ys; simpl.
  - split; [intros [= <-]; constructor | by inversion 1].
  - split.
    + destruct (f x) eqn:Hx; [|done].
      destruct (mapM_res f l) eqn:Hl; [|done].
      intros [= <-]; constructor; [done|by apply IH].
    + inversion 1 as [|??? ? Hx Hl]; subst. rewrite Hx.
      apply IH in Hl. by rewrite Hl.
Qed.

Lemma mapM_res_const_throw {E A B} (f : A → res E B) l e e0 :
  (∀ x e', f x = Throw e' → e' = e0) → mapM_res f l = Throw e → e = e0.
Proof.
  intros Hf; induction l as [|x l IH]; simpl; [done|].
  destruct (f x) eqn:Hx; [|intros [= <-]; eauto].
  destruct (mapM_res f l) eqn:Hl; [done|]. intros [= <-]; auto.
Qed.

(** ** Insertion-ordered sets ([Set])

    A [Set] is the list of its members in insertion order. *)
Section js_set.
Context {A : Type} `{EqDecision A}.
Implicit Types (x y : A) (s l : list A).

Definition set_has (x : A) (s : list A) : bool := bool_decide (x ∈ s).

Definition set_add (x : A) (s : list A) : list A :=
  if set_has x s then s else s ++ [x].

Definition set_delete (x : A) (s : list A) : list A := filter (λ y, y ≠ x) s.

(** [new Set(l)]. *)
Definition set_of (l : list A) : list A := foldl (λ s x, set_add x s) [] l.

Lemma set_has_spec x s : set_has x s = true ↔ x ∈ s.
Proof. apply bool_decide_eq_true. Qed.

Lemma set_has_false x s : set_has x s = false ↔ x ∉ s.
Proof. apply bool_decide_eq_false. Qed.

Lemma elem_of_set_add x y s : y ∈ set_add x s ↔ y = x ∨ y ∈ s.
Proof.
  unfold set_add. destruct (set_has x s) eqn:Hx.
  - apply set_has_spec in Hx. naive_solver.
  - rewrite elem_of_app, list_elem_of_singleton. tauto.
Qed.

Lemma NoDup_set_add x s : NoDup s → NoDup (set_add x s).
Proof.
  intros Hs. unfold set_add. destruct (set_has x s) eqn:Hx; [done|].
  apply set_has_false in Hx. apply NoDup_app. split_and!; [done| |apply NoDup_singleton].
  intros y Hy ->%list_elem_of_singleton. done.
Qed.

Lemma elem_of_set_delete x y s : y ∈ set_delete x s ↔ y ≠ x ∧ y ∈ s.
Proof. unfold set_delete. by rewrite list_elem_of_filter. Qed.

Lemma foldl_set_add_elem y l s :
  y ∈ foldl (λ s x, set_add x s) s l ↔ y ∈ s ∨ y ∈ l.
Proof.
  revert s; induction l as [|x l IH]; intros s; simpl.
  - set_solver.
  - rewrite IH, elem_of_set_add, elem_of_cons. tauto.
Qed.

Lemma foldl_set_add_NoDup l s :
  NoDup s → NoDup (foldl (λ s x, set_add x s) s l).
Proof.
  revert s; induction l as [|x l IH]; intros s Hs; simpl; [done|].
  apply IH, NoDup_set_add, Hs.
Qed.

Lemma elem_of_set_of y l : y ∈ set_of l ↔ y ∈ l.
Proof. unfold set_of. rewrite foldl_set_add_elem. set_solver. Qed.

Lemma NoDup_set_of l : NoDup (set_of l).
Proof. apply foldl_set_add_NoDup, NoDup_nil_2. Qed.

Lemma foldl_set_add_id l s :
  NoDup (s ++ l) → foldl (λ s x, set_add x s) s l = s ++ l.
Proof.
  revert s; induction l as [|x l IH]; intros s Hd; simpl.
  - by rewrite app_nil_r.
  - assert (x ∉ s) as Hx.
    { apply NoDup_app in Hd as (_ & Hd & _). intros Hin. apply (Hd x Hin). left. }
    unfold set_add at 2. apply set_has_false in Hx as ->.
    rewrite IH; rewrite <- app_assoc; done.
Qed.

(** Building a set from a duplicate-free array keeps it as it is. *)
Lemma set_of_NoDup l : NoDup l → set_of l = l.
Proof. intros Hd. unfold set_of. by rewrite foldl_set_add_id. Qed.

Lemma set_of_idemp l : set_of (set_of l) = set_of l.
Proof. apply set_of_NoDup, NoDup_set_of. Qed.

Lemma foldl_set_add_length l s : length (foldl (λ s x, set_add x s) s l) <= length s + length l.
Proof.
  revert s. induction l as [|x l IH]; intros s; simpl; [lia|]. rewrite IH. unfold set_add.
  destruct (set_has x s); [lia|]. rewrite length_app. simpl. lia.
Qed.

Lemma set_of_length l : length (set_of l) <= length l.
Proof. apply (foldl_set_add_length l []). Qed.

Lemma set_of_nil_inv l : set_of l = [] → l = [].
Proof.
  intros H. destruct l as [|x l]; [done|].
  assert (x ∈ set_of (x :: l)) as Hx by (apply elem_of_set_of; left).
  rewrite H in Hx. by apply not_elem_of_nil in Hx.
Qed.
End js_set.
#[export] Hint Resolve NoDup_set_of NoDup_set_add : jsdb.

(** ** Insertion-ordered maps ([Map])

    A [Map] is the list of its entries in insertion order, each key once.
    [jset] on a present key keeps the entry's place, as [Map.prototype.set]
    does. *)
Section js_map.
Context {K V : Type} `{EqDecision K}.
Implicit Types (k : K) (v : V) (m : list (K * V)).

Fixpoint jget (k : K) (m : list (K * V)) : option V :=
  match m with
  | [] => None
  | (k', v) :: m => if decide (k = k') then Some v else jget k m
  end.

Fixpoint jset (k : K) (v : V) (m : list (K * V)) : list (K * V) :=
  match m with
  | [] => [(k, v)]
  | (k', v') :: m => if decide (k = k') then (k, v) :: m else (k', v') :: jset k v m
  end.

Definition jhas (k : K) (m : list (K * V)) : bool :=
  match jget k m with Some _ => true | None => false end.

Definition jkeys (m : list (K * V)) : list K := m.*1.
Definition jvalues (m : list (K * V)) : list V := m.*2.

Lemma jget_jset_eq k v m : jget k (jset k v m) = Some v.
Proof.
  induction m as [|[k' v'] m IH]; simpl.
  - by rewrite decide_True.
  - case_decide; simpl; [by rewrite decide_True|by rewrite decide_False].
Qed.

Lemma jget_jset_ne k k' v m : k ≠ k' → jget k' (jset k v m) = jget k' m.
Proof.
  intros Hne; induction m as [|[k'' v''] m IH]; simpl.
  - by rewrite decide_False.
  - destruct (decide (k = k'')) as [->|Hk]; simpl; [|by rewrite IH].
    by destruct (decide (k' = k'')).
Qed.

Lemma jget_jset k k' v m :
  jget k' (jset k v m) = if decide (k = k') then Some v else jget k' m.
Proof. case_decide; subst; [apply jget_jset_eq|by apply jget_jset_ne]. Qed.

Lemma jset_twice k v w m : jset k w (jset k v m) = jset k w m.
Proof.
  induction m as [|[k' v'] m IH]; cbn [jset]; [by rewrite decide_True|]. case_decide as E; cbn [jset].
  - by rewrite decide_True.
  - rewrite decide_False by done. by rewrite IH.
Qed.

Lemma jset_comm_in k k' v v' m : k ≠ k' → is_Some (jget k m) →
  jset k v (jset k' v' m) = jset k' v' (jset k v m).
Proof.
  intros Hne. induction m as [|[q x] m IH]; intros Hk; [by destruct Hk|]. cbn [jset jget] in *.
  destruct (decide (k' = q)) as [->|Hq']; destruct (decide (k = q)) as [->|Hq]; cbn [jset]; try done;
    repeat first [rewrite (decide_True (P := q = q)) by done | rewrite (decide_False (P := k' = q)) by done
                 | rewrite (decide_False (P := k = q)) by done]; try done. f_equal. by apply IH.
Qed.

Lemma jget_elem_of k v m : jget k m = Some v → (k, v) ∈ m.
Proof.
  induction m as [|[k' v'] m IH]; simpl; [done|].
  case_decide; subst; [intros [= ->]; left|right; auto].
Qed.

Lemma jget_None k m : jget k m = None ↔ k ∉ jkeys m.
Proof.
  unfold jkeys; induction m as [|[k' v'] m IH]; simpl.
  - split; [intros _; apply not_elem_of_nil|done].
  - rewrite not_elem_of_cons. case_decide; subst; naive_solver.
Qed.

Lemma jget_is_Some k m : is_Some (jget k m) ↔ k ∈ jkeys m.
Proof.
  destruct (jget k m) as [v|] eqn:H.
  - split; [|by eauto]. intros _. unfold jkeys.
    apply jget_elem_of in H. by apply (list_elem_of_fmap_2 fst) in H.
  - apply jget_None in H. split; [intros [? [=]]|done].
Qed.

Lemma jhas_spec k m : jhas k m = true ↔ k ∈ jkeys m.
Proof. rewrite <- jget_is_Some. unfold jhas. destruct (jget k m); [by split|]. by split; [|intros [? ?]]. Qed.

Lemma jhas_false k m : jhas k m = false ↔ k ∉ jkeys m.
Proof. rewrite <- jhas_spec. by destruct (jhas k m). Qed.

Lemma elem_of_jget k v m : NoDup (jkeys m) → (k, v) ∈ m → jget k m = Some v.
Proof.
  unfold jkeys; induction m as [|[k' v'] m IH]; simpl; [intros _ []%not_elem_of_nil|].
  intros [Hn Hd]%NoDup_cons [[= -> ->]|Hin]%elem_of_cons; [by rewrite decide_True|].
  rewrite decide_False; [auto|]. intros ->. apply Hn.
  by apply (list_elem_of_fmap_2 fst) in Hin.
Qed.

Lemma jkeys_jset k v m : jkeys (jset k v m) = set_add k (jkeys m).
Proof.
  unfold jkeys, set_add, set_has. induction m as [|[k' v'] m IH]; [done|].
  simpl jset. destruct (decide (k = k')) as [->|Hk]; csimpl.
  - rewrite bool_decide_true; [done|left].
  - rewrite IH. do 2 case_bool_decide; set_solver.
Qed.

Lemma NoDup_jset k v m : NoDup (jkeys m) → NoDup (jkeys (jset k v m)).
Proof. rewrite jkeys_jset. apply NoDup_set_add. Qed.

Lemma elem_of_jkeys_jset k k' v m : k' ∈ jkeys (jset k v m) ↔ k' = k ∨ k' ∈ jkeys m.
Proof. by rewrite jkeys_jset, elem_of_set_add. Qed.

(** The finite map a [Map] denotes, forgetting the order. *)
Definition jdenote `{Countable K} (m : list (K * V)) : gmap K V :=
  list_to_map m.

Lemma lookup_jdenote `{Countable K} k m : jdenote m !! k = jget k m.
Proof.
  unfold jdenote. induction m as [|[k' v'] m IH]; simpl.
  - apply lookup_empty.
  - rewrite lookup_insert. case_decide; case_decide; naive_solver.
Qed.

Lemma jdenote_jset `{Countable K} k v m : jdenote (jset k v m) = <[k:=v]> (jdenote m).
Proof.
  apply map_eq; intros i. rewrite lookup_jdenote, jget_jset, lookup_insert.
  do 2 (case_decide; try done). by rewrite lookup_jdenote.
Qed.
End js_map.
#[export] Hint Resolve NoDup_jset : jsdb.

(** Mapping the values of a [Map] in place (a loop over [values()] that mutates
    each one). *)
Lemma jget_fmap {K V W} `{EqDecision K} (f : V → W) (k : K) (m : list (K * V)) :
  jget k (prod_map id f <$> m) = f <$> jget k m.
Proof. induction m as [|[k' v'] m IH]; simpl; [done|]. by case_decide. Qed.

(** [Map.prototype.delete]. *)
Definition jdel {K V} `{EqDecision K} (k : K) (m : list (K * V)) : list (K * V) := filter (λ p, p.1 ≠ k) m.

Lemma jget_delete {K V} `{EqDecision K} (q k : K) (m : list (K * V)) :
  jget q (filter (λ p, p.1 ≠ k) m) = if decide (k = q) then None else jget q m.
Proof.
  induction m as [|[k' v] m IH]; [by case_decide|]. rewrite filter_cons. cbn [fst].
  destruct (decide (k' ≠ k)) as [Hk|Hk].
  - cbn [jget]. rewrite IH. destruct (decide (q = k')); [|done]. by rewrite decide_False by congruence.
  - rewrite IH. cbn [jget]. case_decide; [done|]. rewrite decide_False; [done|].
    intros ->. apply Hk. congruence.
Qed.

Lemma jget_jdel {K V} `{EqDecision K} (q k : K) (m : list (K * V)) :
  jget q (jdel k m) = if decide (k = q) then None else jget q m.
Proof. apply jget_delete. Qed.

Lemma NoDup_filter_keys {K V} (f : K * V → Prop) `{∀ p, Decision (f p)} (m : list (K * V)) : NoDup (jkeys m) → NoDup (jkeys (filter f m)).
Proof. intros HN. eapply sublist_NoDup; [exact HN|]. unfold jkeys. apply fmap_sublist, sublist_filter. Qed.

Lemma NoDup_jdel {K V} `{EqDecision K} (k : K) (m : list (K * V)) : NoDup (jkeys m) → NoDup (jkeys (jdel k m)).
Proof. apply NoDup_filter_keys. Qed.

(** The order of distinct entries does not matter to a lookup. *)
Lemma jget_perm {K V} `{EqDecision K} (q : K) (m m' : list (K * V)) : NoDup (jkeys m) → m ≡ₚ m' → jget q m = jget q m'.
Proof.
  intros HN Hm. assert (NoDup (jkeys m')) as HN' by (unfold jkeys; by rewrite <- Hm).
  assert (∀ a b : list (K * V), NoDup (jkeys b) → a ≡ₚ b → ∀ v, jget q a = Some v → jget q b = Some v) as Hab.
  { intros a b Hb Hp v Hv. apply jget_elem_of in Hv. rewrite Hp in Hv. by apply elem_of_jget. }
  destruct (jget q m) as [v|] eqn:E; [symmetry; by eapply Hab|]. destruct (jget q m') as [v|] eqn:E'; [|done].
  symmetry in Hm. by rewrite (Hab m' m HN Hm v E') in E.
Qed.

(** Entries chosen by their keys. *)
Lemma jget_filter_key {K V} `{EqDecision K} (f : K → bool) (q : K) (m : list (K * V)) :
  jget q (filter (λ p, f p.1 = true) m) = if f q then jget q m else None.
Proof.
  induction m as [|[k v] m IH]; [by destruct (f q)|]. rewrite filter_cons. cbn [fst].
  destruct (decide (f k = true)) as [Hk|Hk]; cbn [jget].
  - rewrite IH. destruct (decide (q = k)) as [->|]; [by rewrite Hk|done].
  - rewrite IH. destruct (decide (q = k)) as [->|]; [|done]. by destruct (f k).
Qed.

(** Two texts up to the first occurrence of a separator. *)
Lemma prefix_inj {A} (c : A) (x y u v : list A) : c ∉ x → c ∉ y → x ++ c :: u = y ++ c :: v → x = y ∧ u = v.
Proof.
  revert y. induction x as [|a x IH]; intros [|b y] Hx Hy E; simplify_eq/=; try done.
  - by destruct Hy; left.
  - by destruct Hx; left.
  - destruct (IH y) as [-> ->]; [| |done|done]; intros H; [apply Hx|apply Hy]; by right.
Qed.

(** ** [Array.prototype.sort]

    The sort is stable; its comparator returns a number whose sign decides.
    The insertion below puts an earlier element before the later ones it
    compares equal to. *)
Section js_sort.
Context {A : Type} (cmp : A → A → Z).

Fixpoint sort_insert (x : A) (l : list A) : list A :=
  match l with
  | [] => [x]
  | y :: l => if (cmp x y <=? 0)%Z then x :: y :: l else y :: sort_insert x l
  end.

Definition js_sort (l : list A) : list A := foldr sort_insert [] l.

Lemma sort_insert_perm x l : sort_insert x l ≡ₚ x :: l.
Proof.
  induction l as [|y l IH]; simpl; [done|].
  case_match; [done|]. rewrite IH. by constructor.
Qed.

Lemma js_sort_perm l : js_sort l ≡ₚ l.
Proof. induction l as [|x l IH]; simpl; [done|]. by rewrite sort_insert_perm, IH. Qed.

(** What the language asks of a comparator: a total preorder. *)
Class Comparator : Prop := {
  cmp_total x y : (cmp x y <= 0 ∨ cmp y x <= 0)%Z;
  cmp_trans x y z : (cmp x y <= 0 → cmp y z <= 0 → cmp x z <= 0)%Z;
}.

Lemma sort_insert_sorted `{!Comparator} x l :
  StronglySorted (λ a b, (cmp a b <= 0)%Z) l →
  StronglySorted (λ a b, (cmp a b <= 0)%Z) (sort_insert x l).
Proof.
  induction 1 as [|y l Hs IH Hy]; simpl; [repeat constructor|].
  destruct (cmp x y <=? 0)%Z eqn:E; boolify.
  - constructor; [by constructor|]. constructor; [done|].
    eapply Forall_impl; [exact Hy|]. intros z Hz; simpl in *. eapply cmp_trans; eauto.
  - constructor; [done|]. rewrite sort_insert_perm. constructor; [|done].
    destruct (cmp_total x y); lia.
Qed.

Lemma js_sort_sorted `{!Comparator} l :
  StronglySorted (λ a b, (cmp a b <= 0)%Z) (js_sort l).
Proof. induction l as [|x l IH]; simpl; [constructor|]. by apply sort_insert_sorted. Qed.

(** Sorting an already sorted array leaves it alone. *)
Lemma js_sort_id l :
  StronglySorted (λ a b, (cmp a b <= 0)%Z) l → js_sort l = l.
Proof.
  induction 1 as [|y l Hs IH Hy]; simpl; [done|].
  rewrite IH. destruct l as [|z l]; simpl; [done|].
  inversion Hy; subst. by rewrite (proj2 (Z.leb_le _ _)).
Qed.

Lemma elem_of_js_sort x l : x ∈ js_sort l ↔ x ∈ l.
Proof. by rewrite js_sort_perm. Qed.

Lemma length_js_sort l : length (js_sort l) = length l.
Proof. by rewrite js_sort_perm. Qed.
End js_sort.
#[export] Hint Resolve js_sort_perm : jsdb.

(** Sorting does not see what the comparator does not see. *)
Lemma js_sort_map {A B} (c : A → A → Z) (d : B → B → Z) (f : A → B) (l : list A) :
  (∀ x y, d (f x) (f y) = c x y) → js_sort d (f <$> l) = f <$> js_sort c l.
Proof.
  intros Hf. assert (∀ x l, sort_insert d (f x) (f <$> l) = f <$> sort_insert c x l) as Hins.
  { intros x l0. induction l0 as [|y l0 IH]; [done|]. simpl. rewrite Hf. case_match; [done|].
    by rewrite fmap_cons, <- IH. }
  induction l as [|x l IH]; [done|]. rewrite fmap_cons.
  change (sort_insert d (f x) (js_sort d (f <$> l)) = f <$> sort_insert c x (js_sort c l)).
  by rewrite IH, Hins.
Qed.

(** [a || b] on the numbers two comparators return. *)
Definition cmp_or (a b : Z) : Z := if (a =? 0)%Z then b else a.

(** Sums of integer-valued arrays ([reduce] with [+]). *)
Definition Zsum (l : list Z) : Z := foldr Z.add 0%Z l.

Lemma Zsum_app l k : Zsum (l ++ k) = (Zsum l + Zsum k)%Z.
Proof. unfold Zsum. induction l as [|x l IH]; simpl in *; [done|]. rewrite IH. lia. Qed.

Lemma Zsum_perm l k : l ≡ₚ k → Zsum l = Zsum k.
Proof. unfold Zsum. induction 1; simpl in *; lia. Qed.

Lemma Zsum_nonneg l : Forall (λ z, 0 <= z)%Z l → (0 <= Zsum l)%Z.
Proof. unfold Zsum. induction 1; simpl in *; lia. Qed.

#[export] Instance Zsum_proper : Proper ((≡ₚ) ==> eq) Zsum.
Proof. intros l k. apply Zsum_perm. Qed.

(** ** Transition sequences

    Reachability by the steps of a labelled transition system, used for the
    event-driven components. *)
Section steps.
Context {S L : Type} (step : S → L → S → Prop).

Inductive reaches (s : S) : list L → S → Prop :=
| reaches_refl : reaches s [] s
| reaches_snoc ls s1 l s2 : reaches s ls s1 → step s1 l s2 → reaches s (ls ++ [l]) s2.

Lemma reaches_inv (P : S → Prop) s ls s' :
  (∀ s1 l s2, P s1 → step s1 l s2 → P s2) →
  P s → reaches s ls s' → P s'.
Proof. intros Hstep Hs. induction 1; eauto. Qed.

Lemma reaches_cons s l s1 ls s2 : step s l s1 → reaches s1 ls s2 → reaches s (l :: ls) s2.
Proof.
  intros Hl. induction 1 as [|ls s3 l' s4 _ IH Hs].
  - apply (reaches_snoc s [] s); [constructor|done].
  - by apply (reaches_snoc s (l :: ls) s3).
Qed.
End steps.

(** ** Generic list facts *)
Lemma StronglySorted_reverse {A} (R : relation A) l :
  StronglySorted R (reverse l) ↔ StronglySorted (flip R) l.
Proof.
  induction l as [|x l IH]; [split; constructor|].
  rewrite reverse_cons, StronglySorted_app, IH, (StronglySorted_cons (flip R)), Forall_forall.
  setoid_rewrite elem_of_reverse. setoid_rewrite list_elem_of_singleton.
  split.
  - intros (H & Hl & _). split; [|exact Hl]. intros y Hy. by apply H.
  - intros (H & Hl). split_and!; [|done|repeat constructor]. intros y ? Hy ->. by apply H.
Qed.

Lemma filter_all {A} (P : A → Prop) `{∀ x, Decision (P x)} l : Forall P l → filter P l = l.
Proof.
  induction 1 as [|x l Hx Hl IH]; [done|].
  rewrite filter_cons_True by done. by rewrite IH.
Qed.

Lemma filter_same_elems {X} (P Q : X → Prop) `{∀ x, Decision (P x), ∀ x, Decision (Q x)} (l : list X) :
  (∀ x, x ∈ l → P x ↔ Q x) → filter P l = filter Q l.
Proof.
  induction l as [|x l IH]; intros Hpq; [done|]. rewrite !filter_cons.
  rewrite IH by (intros y Hy; apply Hpq; by right).
  specialize (Hpq x ltac:(by left)). repeat case_decide; tauto.
Qed.

Lemma forallb_Forall {A} (f : A → bool) l : forallb f l = true ↔ Forall (λ x, f x = true) l.
Proof.
  induction l as [|x l IH]; simpl; [split; [constructor|done]|].
  rewrite andb_true_iff, IH, Forall_cons. done.
Qed.
