(* ===== verification/JsString.v ===== *)
(** JavaScript strings, as the code under verification uses them.

    A string is the list of its UTF-16 code units.  The operations are those of
    [String.prototype] that the modelled components call: [trim], [split] on a
    one-unit separator, [join] (on arrays of strings), [startsWith],
    [includes], [indexOf], [slice], and the decimal forms of integers that
    template literals and [Number.parseInt(_, 10)] use. *)
From S2P Require Import Prelude.
From stdpp Require Export strings.
From Stdlib Require Import Ascii String.

(** Declared again after the string library, whose lemmas hide the list ones. *)
From stdpp Require Export list.

Abbreviation jsstring := (list N).

Definition js (s : string) : list N := N_of_ascii <$> list_ascii_of_string s.
Arguments js s%_string : simpl never.

#[export] Instance N_of_ascii_inj : Inj (=) (=) N_of_ascii.
Proof. intros a b Hab. by rewrite <- (ascii_N_embedding a), Hab, ascii_N_embedding. Qed.

#[export] Instance js_inj : Inj (=) (=) js.
Proof.
  intros s1 s2 Hm%(inj (fmap (M := list) N_of_ascii)).
  by rewrite <- (string_of_list_ascii_of_string s1), Hm, string_of_list_ascii_of_string.
Qed.

(** ** White space and [trim]

    WhiteSpace and LineTerminator of the language; [\s] in a regular expression
    matches the same units. *)
Definition is_ws (c : N) : bool :=
  bool_decide (c ∈ [9; 10; 11; 12; 13; 32; 160; 5760; 8232; 8233; 8239; 8287; 12288; 65279]%N)
  || ((8192 <=? c)%N && (c <=? 8202)%N).

Fixpoint trim_start (s : jsstring) : jsstring :=
  match s with
  | [] => []
  | c :: s' => if is_ws c then trim_start s' else s
  end.

Definition trim_end (s : jsstring) : jsstring := reverse (trim_start (reverse s)).

Definition trim (s : jsstring) : jsstring := trim_end (trim_start s).

Lemma trim_start_suffix s : trim_start s `suffix_of` s.
Proof.
  induction s as [|c s IH]; simpl; [done|]. case_match; [|done].
  by apply suffix_cons_r.
Qed.

Lemma trim_start_head s c s' : trim_start s = c :: s' → is_ws c = false.
Proof.
  induction s as [|d s IH]; simpl; [done|]. destruct (is_ws d) eqn:Hd; [done|].
  by intros [= <- <-].
Qed.

Lemma trim_start_noop c s : is_ws c = false → trim_start (c :: s) = c :: s.
Proof. simpl. by intros ->. Qed.

Lemma trim_start_idemp s : trim_start (trim_start s) = trim_start s.
Proof.
  destruct (trim_start s) as [|c s'] eqn:H; [done|].
  by apply trim_start_noop, (trim_start_head s c s').
Qed.

Lemma trim_end_prefix s : trim_end s `prefix_of` s.
Proof.
  unfold trim_end. destruct (trim_start_suffix (reverse s)) as [k Hk].
  exists (reverse k). rewrite <- reverse_app, <- Hk. by rewrite reverse_involutive.
Qed.

(** A string whose first and last units are not white space. *)
Definition trimmed (s : jsstring) : Prop :=
  (∀ c, head s = Some c → is_ws c = false) ∧ (∀ c, last s = Some c → is_ws c = false).

Lemma trim_start_trimmed s :
  (∀ c, head s = Some c → is_ws c = false) → trim_start s = s.
Proof. destruct s as [|c s]; [done|]. intros H. by apply trim_start_noop, H. Qed.

Lemma trim_trimmed s : trimmed s → trim s = s.
Proof.
  intros [Hh Hl]. unfold trim, trim_end. rewrite (trim_start_trimmed s) by done.
  rewrite trim_start_trimmed, reverse_involutive; [done|].
  intros c. rewrite head_reverse. apply Hl.
Qed.

Lemma trimmed_trim s : trimmed (trim s).
Proof.
  unfold trim. split.
  - intros c Hc. destruct (trim_end_prefix (trim_start s)) as [k Hk].
    destruct (trim_end (trim_start s)) as [|d t] eqn:Ht; [done|].
    injection Hc as ->. simpl in Hk. by apply (trim_start_head s c (t ++ k)).
  - intros c. unfold trim_end. rewrite last_reverse.
    destruct (trim_start (reverse (trim_start s))) as [|d t] eqn:Ht; [done|].
    intros [= <-]. by apply trim_start_head in Ht.
Qed.

Lemma trim_idemp s : trim (trim s) = trim s.
Proof. apply trim_trimmed, trimmed_trim. Qed.

Lemma elem_of_trim c s : c ∈ trim s → c ∈ s.
Proof.
  unfold trim. intros H.
  destruct (trim_end_prefix (trim_start s)) as [k Hk].
  destruct (trim_start_suffix s) as [k' Hk']. rewrite Hk', Hk. set_solver.
Qed.

(** Removing every white-space unit makes trimming redundant. *)
Lemma filter_trim s :
  filter (λ c, is_ws c = false) (trim s) = filter (λ c, is_ws c = false) s.
Proof.
  assert (∀ t, filter (λ c, is_ws c = false) (trim_start t)
    = filter (λ c, is_ws c = false) t) as H.
  { induction t as [|c t IH]; simpl; [done|]. destruct (is_ws c) eqn:Hc; [|done].
    rewrite filter_cons_False; [done|]. by rewrite Hc. }
  unfold trim, trim_end. by rewrite filter_reverse, H, filter_reverse, reverse_involutive, H.
Qed.

(** Strings without white space at all. *)
Lemma trim_no_ws s : Forall (λ c, is_ws c = false) s → trim s = s.
Proof.
  intros H. apply trim_trimmed. rewrite Forall_forall in H.
  split; intros c Hc; apply H; [by apply head_Some_elem_of|by apply last_Some_elem_of].
Qed.

(** ** [split] and [join] *)
Fixpoint split_on (sep : N) (s : jsstring) : list jsstring :=
  match s with
  | [] => [[]]
  | c :: s =>
      if (c =? sep)%N then [] :: split_on sep s
      else match split_on sep s with
           | [] => [[c]]
           | h :: t => (c :: h) :: t
           end
  end.

Fixpoint join (sep : jsstring) (l : list jsstring) : jsstring :=
  match l with
  | [] => []
  | [s] => s
  | s :: l => s ++ sep ++ join sep l
  end.

Lemma split_on_not_nil sep s : split_on sep s ≠ [].
Proof. destruct s as [|c s]; simpl; [done|]. case_match; [done|]. by case_match. Qed.

Lemma split_on_no_sep sep s : sep ∉ s → split_on sep s = [s].
Proof.
  induction s as [|c s IH]; simpl; [done|]. intros [Hc Hs]%not_elem_of_cons.
  rewrite (proj2 (N.eqb_neq c sep)) by done. by rewrite IH.
Qed.

Lemma split_on_app sep s t :
  sep ∉ s → split_on sep (s ++ sep :: t) = s :: split_on sep t.
Proof.
  induction s as [|c s IH]; simpl.
  - by rewrite N.eqb_refl.
  - intros [Hc Hs]%not_elem_of_cons. rewrite (proj2 (N.eqb_neq c sep)) by done.
    by rewrite IH.
Qed.

(** Splitting what was joined gives the pieces back. *)
Lemma split_join sep l :
  l ≠ [] → Forall (λ s, sep ∉ s) l → split_on sep (join [sep] l) = l.
Proof.
  intros Hne Hl. induction Hl as [|s l Hs Hl IH]; [done|].
  destruct l as [|s' l]; [by apply split_on_no_sep|].
  change (join [sep] (s :: s' :: l)) with (s ++ sep :: join [sep] (s' :: l)).
  rewrite split_on_app by done. by rewrite IH.
Qed.

Lemma split_on_pieces sep s x : x ∈ split_on sep s → sep ∉ x.
Proof.
  revert x. induction s as [|c s IH]; simpl; intros x.
  - intros ->%list_elem_of_singleton. apply not_elem_of_nil.
  - destruct (c =? sep)%N eqn:Hc; boolify.
    + intros [->|Hx]%elem_of_cons; [apply not_elem_of_nil|auto].
    + destruct (split_on sep s) as [|h t] eqn:Hs.
      * by apply split_on_not_nil in Hs.
      * intros [->|Hx]%elem_of_cons.
        -- apply not_elem_of_cons; split; [done|]. apply IH. left.
        -- apply IH. by right.
Qed.

Lemma split_on_sub sep s x c : x ∈ split_on sep s → c ∈ x → c ∈ s.
Proof.
  revert x. induction s as [|d s IH]; intros x; cbn [split_on].
  { by intros ->%list_elem_of_singleton. }
  destruct (d =? sep)%N.
  - intros [->|Hx]%elem_of_cons Hc; [by apply elem_of_nil in Hc|]. right. by eapply IH.
  - destruct (split_on sep s) as [|y l] eqn:E; [by apply split_on_not_nil in E|].
    intros [->|Hx]%elem_of_cons Hc; [|right; eapply IH; [by right|done]].
    apply elem_of_cons in Hc as [->|Hc]; [by left|]. right. eapply IH; [by left|done].
Qed.

Lemma join_split sep s : join [sep] (split_on sep s) = s.
Proof.
  induction s as [|c s IH]; simpl; [done|].
  destruct (c =? sep)%N eqn:Hc; boolify; subst.
  - destruct (split_on sep s) as [|h t] eqn:Hs; [by apply split_on_not_nil in Hs|].
    simpl. simpl in IH. by rewrite IH.
  - destruct (split_on sep s) as [|h t] eqn:Hs; [by apply split_on_not_nil in Hs|].
    destruct t as [|h' t]; simpl in *; by rewrite <- IH.
Qed.

(** ** Searching *)
Definition starts_with (p s : jsstring) : bool := bool_decide (p `prefix_of` s).

(** [indexOf]: the first position at which [p] occurs. *)
Fixpoint index_of (p s : jsstring) : option nat :=
  if starts_with p s then Some 0
  else match s with
       | [] => None
       | _ :: s => S <$> index_of p s
       end.

Definition includes (p s : jsstring) : bool :=
  match index_of p s with Some _ => true | None => false end.

(** [indexOf(p, from)]. *)
Definition index_from (p s : jsstring) (from : nat) : option nat :=
  (λ i, from + i) <$> index_of p (drop from s).

Lemma index_of_Some p s i : index_of p s = Some i → p `prefix_of` drop i s.
Proof.
  revert i. induction s as [|c s IH]; intros i; simpl; unfold starts_with.
  - case_bool_decide; [by intros [= <-]|done].
  - case_bool_decide; [by intros [= <-]|].
    intros (j & Hj & ->)%fmap_Some. simpl. auto.
Qed.

Lemma index_of_None p s : index_of p s = None ↔ ∀ i, ¬ p `prefix_of` drop i s.
Proof.
  split.
  - induction s as [|c s IH]; simpl; unfold starts_with; case_bool_decide as Hp; try done.
    + intros _ i. by rewrite drop_nil.
    + intros Hn%fmap_None i. destruct i as [|i]; [done|]. by apply IH.
  - intros H. destruct (index_of p s) as [i|] eqn:Hi; [|done].
    by apply index_of_Some, H in Hi.
Qed.

Lemma index_of_bound p s i : index_of p s = Some i → i + length p <= length s.
Proof.
  intros H. destruct (decide (i <= length s)).
  - apply index_of_Some, prefix_length in H. rewrite length_drop in H. lia.
  - revert i H n. induction s as [|c s IH]; intros i; simpl; unfold starts_with.
    + case_bool_decide; [intros [= <-]; lia|done].
    + case_bool_decide; [intros [= <-]; lia|].
      intros (j & Hj & ->)%fmap_Some Hn. specialize (IH j Hj). simpl in *. lia.
Qed.

(** ** Decimal integers *)
Definition is_digit (c : N) : bool := (48 <=? c)%N && (c <=? 57)%N.

Definition dec_step (acc : N) (c : N) : N := (acc * 10 + (c - 48))%N.

(** The value of a string of digits ([Number.parseInt(s, 10)]). *)
Definition parse_dec (s : jsstring) : N := foldl dec_step 0%N s.

Fixpoint show_digits (fuel : nat) (n : N) (acc : jsstring) : jsstring :=
  match fuel with
  | O => acc
  | S fuel =>
      let acc := (48 + n mod 10)%N :: acc in
      if (n / 10 =? 0)%N then acc else show_digits fuel (n / 10) acc
  end.

Definition show_N (n : N) : jsstring := show_digits (S (N.to_nat (N.log2 n))) n [].

(** An integer in a template literal. *)
Definition show_Z (z : Z) : jsstring :=
  match z with
  | Z.neg p => js "-" ++ show_N (N.pos p)
  | _ => show_N (Z.to_N z)
  end.

Lemma foldl_dec_step a s :
  foldl dec_step a s = (a * 10 ^ N.of_nat (length s) + parse_dec s)%N.
Proof.
  unfold parse_dec. revert a. induction s as [|c s IH]; intros a; cbn [foldl length].
  - rewrite N.pow_0_r. lia.
  - rewrite IH, (IH (dec_step 0 c)). unfold dec_step.
    rewrite Nat2N.inj_succ, N.pow_succ_r'. lia.
Qed.

Lemma show_digits_value fuel n acc :
  (n < 2 ^ N.of_nat fuel)%N →
  parse_dec (show_digits fuel n acc) = (n * 10 ^ N.of_nat (length acc) + parse_dec acc)%N.
Proof.
  revert n acc. induction fuel as [|fuel IH]; intros n acc Hn; cbn [show_digits].
  - rewrite N.pow_0_r in Hn. assert (n = 0%N) as -> by lia. lia.
  - assert (parse_dec ((48 + n mod 10)%N :: acc)
      = (n mod 10 * 10 ^ N.of_nat (length acc) + parse_dec acc)%N) as Hc.
    { change (parse_dec ((48 + n mod 10)%N :: acc))
        with (foldl dec_step (dec_step 0 (48 + n mod 10)) acc).
      rewrite foldl_dec_step. f_equal. f_equal. unfold dec_step.
      generalize (n mod 10)%N. intros d. lia. }
    pose proof (N.div_mod n 10 ltac:(lia)) as Hdm.
    destruct (n / 10 =? 0)%N eqn:E; boolify.
    + rewrite Hc. rewrite E in Hdm. replace (n mod 10)%N with n by lia. done.
    + rewrite IH.
      * rewrite Hc. cbn [length]. rewrite Nat2N.inj_succ, N.pow_succ_r'. nia.
      * rewrite Nat2N.inj_succ, N.pow_succ_r' in Hn.
        apply N.Div0.div_lt_upper_bound. lia.
Qed.

Lemma parse_show_N n : parse_dec (show_N n) = n.
Proof.
  unfold show_N. rewrite show_digits_value.
  - change (length []) with 0. change (parse_dec []) with 0%N. rewrite N.pow_0_r. lia.
  - rewrite Nat2N.inj_succ, N2Nat.id. destruct (decide (n = 0%N)) as [->|Hn].
    + by rewrite <- N.ltb_lt.
    + apply N.log2_spec. lia.
Qed.

Lemma show_N_inj n m : show_N n = show_N m → n = m.
Proof. intros E. by rewrite <- (parse_show_N n), <- (parse_show_N m), E. Qed.

Lemma show_digits_digits fuel n acc :
  Forall (λ c, is_digit c = true) acc →
  Forall (λ c, is_digit c = true) (show_digits fuel n acc).
Proof.
  revert n acc. induction fuel as [|fuel IH]; intros n acc H; cbn [show_digits]; [done|].
  assert (Forall (λ c, is_digit c = true) ((48 + n mod 10)%N :: acc)) as H'.
  { constructor; [|done]. unfold is_digit. pose proof (N.mod_lt n 10 ltac:(lia)) as Hm.
    revert Hm. generalize (n mod 10)%N. intros d Hd.
    apply andb_true_iff; split; apply N.leb_le; lia. }
  case_match; auto.
Qed.

Lemma show_N_digits n : Forall (λ c, is_digit c = true) (show_N n).
Proof. apply show_digits_digits. constructor. Qed.

Lemma show_digits_not_nil fuel n c acc : show_digits fuel n (c :: acc) ≠ [].
Proof.
  revert n c acc. induction fuel as [|fuel IH]; intros n c acc; cbn [show_digits]; [done|].
  case_match; [done|]. apply IH.
Qed.

Lemma show_N_not_nil n : show_N n ≠ [].
Proof.
  unfold show_N. cbn [show_digits]. case_match; [done|]. apply show_digits_not_nil.
Qed.

Lemma is_digit_not_ws c : is_digit c = true → is_ws c = false.
Proof.
  unfold is_digit, is_ws. intros H; boolify. apply orb_false_iff; split.
  - apply bool_decide_eq_false. repeat (rewrite elem_of_cons). rewrite elem_of_nil. lia.
  - apply andb_false_iff. left. apply N.leb_gt. lia.
Qed.
#[export] Hint Resolve show_N_digits show_N_not_nil is_digit_not_ws : jsdb.

(** ** Order on strings

    The default [sort()] compares code units lexicographically. *)
Fixpoint str_cmp (a b : jsstring) : Z :=
  match a, b with
  | [], [] => 0%Z
  | [], _ :: _ => (-1)%Z
  | _ :: _, [] => 1%Z
  | x :: a, y :: b => if (x =? y)%N then str_cmp a b else (Z.of_N x - Z.of_N y)%Z
  end.

#[export] Instance str_cmp_comparator : Comparator str_cmp.
Proof.
  split.
  - induction x as [|x a IH]; intros [|y b]; simpl; try lia.
    rewrite (N.eqb_sym y x). case_match; [apply IH|]. lia.
  - induction x as [|x a IH]; intros [|y b] [|z c]; simpl; try lia.
    repeat case_match; boolify; subst; try lia. apply IH.
Qed.

Lemma str_cmp_antisym a b : (str_cmp a b <= 0)%Z → (str_cmp b a <= 0)%Z → a = b.
Proof.
  revert b. induction a as [|x a IH]; intros [|y b]; simpl; try done; try lia.
  rewrite (N.eqb_sym y x). case_match; boolify; subst; [|lia].
  intros. f_equal. auto.
Qed.

(** ** [encodeURIComponent] *)
Definition in_range (lo c hi : N) : bool := (lo <=? c)%N && (c <=? hi)%N.

Definition uri_unreserved (c : N) : bool :=
  in_range 48 c 57 || in_range 65 c 90 || in_range 97 c 122
  || bool_decide (c ∈ [45; 95; 46; 33; 126; 42; 39; 40; 41]%N).

Definition hex_digit (d : N) : N := if (d <? 10)%N then (48 + d)%N else (55 + d)%N.

Definition percent (b : N) : jsstring := [37%N; hex_digit (b / 16); hex_digit (b mod 16)].

(** The bytes of a code point in UTF-8. *)
Definition utf8 (c : N) : list N :=
  if (c <? 128)%N then [c]
  else if (c <? 2048)%N then [192 + c / 64; 128 + c mod 64]%N
  else if (c <? 65536)%N then [224 + c / 4096; 128 + (c / 64) mod 64; 128 + c mod 64]%N
  else [240 + c / 262144; 128 + (c / 4096) mod 64; 128 + (c / 64) mod 64; 128 + c mod 64]%N.

Definition percent_all (c : N) : jsstring := utf8 c ≫= percent.

(** [None] is the URIError of an unpaired surrogate. *)
Fixpoint encode_uri (s : jsstring) : option jsstring :=
  match s with
  | [] => Some []
  | c :: s1 =>
      if uri_unreserved c then r ← encode_uri s1; Some (c :: r)
      else if in_range 56320 c 57343 then None
      else if in_range 55296 c 56319 then
        match s1 with
        | [] => None
        | d :: s2 =>
            if in_range 56320 d 57343 then
              r ← encode_uri s2;
              Some (percent_all (65536 + (c - 55296) * 1024 + (d - 56320)) ++ r)
            else None
        end
      else r ← encode_uri s1; Some (percent_all c ++ r)
  end.

(** [toLowerCase] and [toUpperCase] on the ASCII letters. *)
Definition lower_unit (c : N) : N := if in_range 65 c 90 then (c + 32)%N else c.
Definition to_lower (s : jsstring) : jsstring := lower_unit <$> s.
Definition upper_unit (c : N) : N := if in_range 97 c 122 then (c - 32)%N else c.
Definition to_upper (s : jsstring) : jsstring := upper_unit <$> s.

(** ** Code points ([Array.from(s)]) *)
Fixpoint code_points (s : jsstring) : list N :=
  match s with
  | [] => []
  | c :: s1 =>
      if in_range 55296 c 56319 then
        match s1 with
        | [] => [c]
        | d :: s2 =>
            if in_range 56320 d 57343
            then (65536 + (c - 55296) * 1024 + (d - 56320))%N :: code_points s2
            else c :: code_points s1
        end
      else c :: code_points s1
  end.

Lemma code_points_length s : length (code_points s) <= length s.
Proof.
  induction s as [s IH] using (Wf_nat.induction_ltof1 _ (@length N)). unfold Wf_nat.ltof in IH.
  destruct s as [|c s]; [done|]. cbn [code_points].
  destruct (in_range 55296 c 56319).
  - destruct s as [|d s]; [done|]. destruct (in_range 56320 d 57343).
    + simpl. specialize (IH s ltac:(simpl; lia)). lia.
    + cbn [length]. specialize (IH (d :: s) ltac:(simpl; lia)). simpl in *. lia.
  - cbn [length]. specialize (IH s ltac:(simpl; lia)). lia.
Qed.
