(* ===== verification/JsValue.v ===== *)
(** JavaScript numbers and values of type [unknown].

    A number is a binary64 value ([spec_float] of the Standard Library, which is
    the IEEE 754 datum with its exact comparison); [unknown] data, such as a
    parsed response body, is a tree of undefined, null, booleans, numbers,
    strings, arrays and plain objects with their properties in order.  The
    operations are the tests the modelled validators write: [typeof],
    [Array.isArray], [Number.isInteger], [Number.isFinite],
    [Number.isSafeInteger], comparisons, truthiness and property reads. *)
From S2P Require Import Prelude JsString.
From Stdlib Require Export SpecFloat.

(** ** Numbers *)
Abbreviation jsnum := spec_float.

Definition num_of_Z (z : Z) : jsnum := binary_normalize 53 1024 z 0 false.

Definition is_finite (x : jsnum) : bool :=
  match x with
  | S754_zero _ | S754_finite _ _ _ => true
  | S754_infinity _ | S754_nan => false
  end.

Definition is_nan (x : jsnum) : bool :=
  match x with S754_nan => true | _ => false end.

(** [Number.isInteger]. *)
Definition is_integer (x : jsnum) : bool :=
  match x with
  | S754_zero _ => true
  | S754_finite _ m e => (0 <=? e)%Z || (Z.pos m mod 2 ^ (- e) =? 0)%Z
  | _ => false
  end.

(** The integer part, exact on integers. *)
Definition num_to_Z (x : jsnum) : Z :=
  match x with
  | S754_finite s m e =>
      let a := if (0 <=? e)%Z then (Z.pos m * 2 ^ e)%Z else (Z.pos m / 2 ^ (- e))%Z in
      if s then (- a)%Z else a
  | _ => 0%Z
  end.

(** [Number.isSafeInteger]. *)
Definition is_safe_integer (x : jsnum) : bool :=
  is_integer x && (Z.abs (num_to_Z x) <=? 2 ^ 53 - 1)%Z.

Definition num_eqb (x y : jsnum) : bool := SFeqb x y.
Definition num_ltb (x y : jsnum) : bool := SFltb x y.
Definition num_leb (x y : jsnum) : bool := SFleb x y.

Definition num0 : jsnum := S754_zero false.

(** A positive integer number denotes an integer of at least one. *)
Lemma integer_pos x : is_integer x = true → num_leb x num0 = false → (1 <= num_to_Z x)%Z.
Proof.
  destruct x as [s|s| |s m e]; try done.
  intros Hi Hp. destruct s; [done|]. simpl in *.
  destruct (0 <=? e)%Z eqn:He; boolify; simpl in Hi.
  - pose proof (Z.pow_pos_nonneg 2 e ltac:(lia) ltac:(lia)). nia.
  - boolify. pose proof (Z.pow_pos_nonneg 2 (- e) ltac:(lia) ltac:(lia)) as Hpow.
    apply Z.div_le_lower_bound; [lia|]. rewrite Z.mul_1_r.
    apply Z.mod_divide in Hi; [|lia]. destruct Hi as [k Hk].
    assert (0 < k)%Z by nia. nia.
Qed.

Lemma integer_nonneg x :
  is_integer x = true → num_ltb x num0 = false → (0 <= num_to_Z x)%Z.
Proof.
  destruct x as [s|s| |s m e]; try done. intros Hi Hp. destruct s; [done|]. simpl.
  destruct (0 <=? e)%Z eqn:He; boolify.
  - pose proof (Z.pow_nonneg 2 e). nia.
  - apply Z.div_pos; [lia|]. apply Z.pow_pos_nonneg; lia.
Qed.

Lemma num_leb_nan_l x : is_nan x = true → num_leb x num0 = false.
Proof. by destruct x. Qed.

(** ** Values *)
Inductive jsval : Type :=
| JUndef
| JNull
| JBool (b : bool)
| JNum (x : jsnum)
| JStr (s : jsstring)
| JArr (l : list jsval)
| JObj (props : list (jsstring * jsval)).

(** [Boolean(v)]. *)
Definition truthy (v : jsval) : bool :=
  match v with
  | JUndef | JNull => false
  | JBool b => b
  | JNum x => match x with S754_zero _ | S754_nan => false | _ => true end
  | JStr s => match s with [] => false | _ => true end
  | JArr _ | JObj _ => true
  end.

(** [v !== null && typeof v === 'object']: arrays count. *)
Definition is_object (v : jsval) : bool :=
  match v with JArr _ | JObj _ => true | _ => false end.

(** [v && typeof v === 'object' && !Array.isArray(v)]. *)
Definition is_plain_object (v : jsval) : bool :=
  match v with JObj _ => true | _ => false end.

Definition is_undef (v : jsval) : bool := match v with JUndef => true | _ => false end.

(** The property read [v.k] on an object. *)
Definition prop (k : string) (v : jsval) : jsval :=
  match v with
  | JObj ps => default JUndef (jget (js k) ps)
  | JArr l => if decide (k = "length"%string) then JNum (num_of_Z (Z.of_nat (length l))) else JUndef
  | _ => JUndef
  end.

(** [typeof v === 'string'] and the string it is, and the like. *)
Definition as_string (v : jsval) : option jsstring :=
  match v with JStr s => Some s | _ => None end.
Definition as_number (v : jsval) : option jsnum :=
  match v with JNum x => Some x | _ => None end.
Definition as_bool (v : jsval) : option bool :=
  match v with JBool b => Some b | _ => None end.
Definition as_array (v : jsval) : option (list jsval) :=
  match v with JArr l => Some l | _ => None end.

Definition is_string (v : jsval) : bool :=
  match v with JStr _ => true | _ => false end.

(** [v === 'lit']. *)
Definition is_lit (v : jsval) (s : string) : bool :=
  match v with JStr t => bool_decide (t = js s) | _ => false end.

(** [v === n] for an integer literal [n]. *)
Definition is_num_lit (v : jsval) (z : Z) : bool :=
  match v with JNum x => num_eqb x (num_of_Z z) | _ => false end.

Lemma is_lit_spec v s : is_lit v s = true ↔ v = JStr (js s).
Proof.
  destruct v; simpl; split; try done.
  - intros ->%bool_decide_eq_true. done.
  - intros [= ->]. by apply bool_decide_eq_true.
Qed.

(** ** Errors of the language: [JSON.parse] of a text that is not JSON; a property of null
    or undefined, or a call of what is no function. *)
Inductive js_error := SyntaxError | TypeError.
