(* ===== verification/Json.v ===== *)
(** [JSON.parse], as an executable parser from code units to values.

    The grammar is that of ECMA-404; a number is rounded to binary64 to nearest,
    ties to even; a repeated member keeps the first place and the last value;
    members whose name is an array index come first, in increasing order, which
    is the order [Object.entries], [Object.keys] and [Object.values] use.
    [JSON_parse] returns [None] where the language throws a SyntaxError.  The
    recursion is bounded by fuel; twice the length of the text and two more is always
    enough, because two recursive calls in a row consume a unit. *)
From S2P Require Import Prelude JsString JsValue.

Definition is_json_ws (c : N) : bool := bool_decide (c ∈ [9; 10; 13; 32]%N).

Fixpoint skip_ws (s : jsstring) : jsstring :=
  match s with
  | [] => []
  | c :: s' => if is_json_ws c then skip_ws s' else s
  end.

(** ** Numbers *)

(** The binary64 number nearest to [(-1)^neg * m * 10^e]. *)
Definition dec_to_num (neg : bool) (m : N) (e : Z) : jsnum :=
  match m with
  | N0 => S754_zero neg
  | N.pos p =>
      if (0 <=? e)%Z then
        match (Z.pos p * 10 ^ e)%Z with
        | Z.pos q => binary_round 53 1024 neg q 0
        | _ => S754_nan
        end
      else
        match (10 ^ (- e))%Z with
        | Z.pos d =>
            let '(q, e', l) := SFdiv_core_binary 53 1024 (Z.pos p) 0 (Z.pos d) 0 in
            binary_round_aux 53 1024 neg q e' l
        | _ => S754_nan
        end
  end.

(** The longest prefix of digits, and the rest. *)
Fixpoint span_digits (s : jsstring) : jsstring * jsstring :=
  match s with
  | c :: s' => if is_digit c then let '(d, r) := span_digits s' in (c :: d, r) else ([], s)
  | [] => ([], [])
  end.

Definition parse_fraction (s : jsstring) : option (jsstring * jsstring) :=
  match s with
  | c :: s' =>
      if (c =? 46)%N then
        match span_digits s' with
        | ([], _) => None
        | (d, r) => Some (d, r)
        end
      else Some ([], s)
  | [] => Some ([], s)
  end.

(** An optional sign: whether it is a minus, and the rest. *)
Definition parse_sign (plus : bool) (s : jsstring) : bool * jsstring :=
  match s with
  | c :: t =>
      if (c =? 45)%N then (true, t)
      else if plus && (c =? 43)%N then (false, t)
      else (false, s)
  | [] => (false, s)
  end.

Definition parse_exponent (s : jsstring) : option (Z * jsstring) :=
  match s with
  | c :: s' =>
      if (c =? 69)%N || (c =? 101)%N then
        let '(neg, s'') := parse_sign true s' in
        match span_digits s'' with
        | ([], _) => None
        | (d, r) =>
            let e := Z.of_N (parse_dec d) in
            Some (if neg then (- e)%Z else e, r)
        end
      else Some (0%Z, s)
  | [] => Some (0%Z, [])
  end.

Definition parse_number (s : jsstring) : option (jsnum * jsstring) :=
  let '(neg, s1) := parse_sign false s in
  let '(ip, s2) := span_digits s1 in
  if bool_decide (ip = []) || (bool_decide (head ip = Some 48%N) && (1 <? length ip)) then None
  else
      match parse_fraction s2 with
      | None => None
      | Some (fp, s3) =>
          match parse_exponent s3 with
          | None => None
          | Some (e, s4) =>
              Some (dec_to_num neg (parse_dec (ip ++ fp)) (e - Z.of_nat (length fp)), s4)
          end
      end.

(** ** Strings *)
Definition hex_value (c : N) : option N :=
  if is_digit c then Some (c - 48)%N
  else if (65 <=? c)%N && (c <=? 70)%N then Some (c - 55)%N
  else if (97 <=? c)%N && (c <=? 102)%N then Some (c - 87)%N
  else None.

Definition escape_unit (c : N) : option N :=
  if (c =? 34)%N || (c =? 92)%N || (c =? 47)%N then Some c
  else if (c =? 98)%N then Some 8%N
  else if (c =? 102)%N then Some 12%N
  else if (c =? 110)%N then Some 10%N
  else if (c =? 114)%N then Some 13%N
  else if (c =? 116)%N then Some 9%N
  else None.

(** Four hexadecimal digits as a code unit. *)
Definition hex4 (a b c d : N) : option N :=
  a ← hex_value a; b ← hex_value b; c ← hex_value c; d ← hex_value d;
  Some (((a * 16 + b) * 16 + c) * 16 + d)%N.

(** The units up to the closing quote, and what follows it. *)
Fixpoint parse_string_body (s : jsstring) : option (jsstring * jsstring) :=
  match s with
  | [] => None
  | c :: s1 =>
      if (c =? 34)%N then Some ([], s1)
      else if (c =? 92)%N then
        match s1 with
        | [] => None
        | e :: s2 =>
            if (e =? 117)%N then
              match s2 with
              | a :: b :: c :: d :: s3 =>
                  match hex4 a b c d, parse_string_body s3 with
                  | Some u, Some (t, r) => Some (u :: t, r)
                  | _, _ => None
                  end
              | _ => None
              end
            else
              match escape_unit e, parse_string_body s2 with
              | Some u, Some (t, r) => Some (u :: t, r)
              | _, _ => None
              end
        end
      else if (c <? 32)%N then None
      else
        match parse_string_body s1 with
        | Some (t, r) => Some (c :: t, r)
        | None => None
        end
  end.

(** ** Property order *)

(** An array index: the decimal form of an integer below 2^32 - 1. *)
Definition array_index (k : jsstring) : option N :=
  let n := parse_dec k in
  if forallb is_digit k && bool_decide (show_N n = k) && (n <? 2 ^ 32 - 1)%N
  then Some n else None.

Definition order_props (ps : list (jsstring * jsval)) : list (jsstring * jsval) :=
  let idx := omap (λ p, n ← array_index p.1; Some (n, p)) ps in
  let rest := filter (λ p, array_index p.1 = None) ps in
  (js_sort (λ a b, (Z.of_N a.1 - Z.of_N b.1)%Z) idx).*2 ++ rest.

Definition make_obj (ps : list (jsstring * jsval)) : jsval :=
  JObj (order_props (foldl (λ m p, jset p.1 p.2 m) [] ps)).

(** ** Values *)

(** The unit after white space, and what follows it. *)
Definition next_unit (s : jsstring) : option (N * jsstring) :=
  match skip_ws s with [] => None | c :: r => Some (c, r) end.

Definition next_is (c : N) (s : jsstring) : bool :=
  match next_unit s with Some (d, _) => (d =? c)%N | None => false end.

Definition after_next (s : jsstring) : jsstring :=
  match next_unit s with Some (_, r) => r | None => [] end.

(** The literals [true], [false], [null] and numbers. *)
Definition parse_atom (s : jsstring) : option (jsval * jsstring) :=
  if starts_with (js "true") s then Some (JBool true, drop 4 s)
  else if starts_with (js "false") s then Some (JBool false, drop 5 s)
  else if starts_with (js "null") s then Some (JNull, drop 4 s)
  else '(x, r) ← parse_number s; Some (JNum x, r).

Fixpoint parse_value (fuel : nat) (s : jsstring) : option (jsval * jsstring) :=
  match fuel with
  | O => None
  | S fuel =>
      match next_unit s with
      | None => None
      | Some (c, s1) =>
          if (c =? 34)%N then
            match parse_string_body s1 with
            | Some (t, r) => Some (JStr t, r)
            | None => None
            end
          else if (c =? 91)%N then
            if next_is 93 s1 then Some (JArr [], after_next s1)
            else match parse_elements fuel s1 with
                 | Some (l, r) => Some (JArr l, r)
                 | None => None
                 end
          else if (c =? 123)%N then
            if next_is 125 s1 then Some (JObj [], after_next s1)
            else match parse_members fuel s1 with
                 | Some (l, r) => Some (make_obj l, r)
                 | None => None
                 end
          else parse_atom (c :: s1)
      end
  end
with parse_elements (fuel : nat) (s : jsstring) : option (list jsval * jsstring) :=
  match fuel with
  | O => None
  | S fuel =>
      match parse_value fuel s with
      | None => None
      | Some (v, r) =>
          match next_unit r with
          | None => None
          | Some (c, r) =>
              if (c =? 93)%N then Some ([v], r)
              else if (c =? 44)%N then
                match parse_elements fuel r with
                | Some (l, r) => Some (v :: l, r)
                | None => None
                end
              else None
          end
      end
  end
with parse_members (fuel : nat) (s : jsstring) : option (list (jsstring * jsval) * jsstring) :=
  match fuel with
  | O => None
  | S fuel =>
      if negb (next_is 34 s) then None
      else
        match parse_string_body (after_next s) with
        | None => None
        | Some (k, r) =>
            if negb (next_is 58 r) then None
            else
              match parse_value fuel (after_next r) with
              | None => None
              | Some (v, r) =>
                  match next_unit r with
                  | None => None
                  | Some (c, r) =>
                      if (c =? 125)%N then Some ([(k, v)], r)
                      else if (c =? 44)%N then
                        match parse_members fuel r with
                        | Some (l, r) => Some ((k, v) :: l, r)
                        | None => None
                        end
                      else None
                  end
              end
        end
  end.

(** Two units of fuel per unit of text cover the alternation of values and
    elements. *)
Definition JSON_parse (s : jsstring) : option jsval :=
  match parse_value (2 * length s + 2) s with
  | Some (v, r) => match skip_ws r with [] => Some v | _ => None end
  | None => None
  end.

(** ** The fuel is enough *)
Lemma skip_ws_length s : length (skip_ws s) <= length s.
Proof. induction s as [|c s IH]; simpl; [done|]. case_match; simpl; lia. Qed.

Lemma next_unit_length s c r : next_unit s = Some (c, r) → length r < length s.
Proof.
  unfold next_unit. pose proof (skip_ws_length s) as H.
  destruct (skip_ws s); [done|]. intros [= <- <-]. simpl in H. lia.
Qed.

Lemma after_next_length c s : next_is c s = true → length (after_next s) < length s.
Proof.
  unfold next_is, after_next. destruct (next_unit s) as [[d r]|] eqn:E; [|done].
  intros _. by apply next_unit_length in E.
Qed.

Lemma span_digits_length s d r : span_digits s = (d, r) → length r <= length s.
Proof.
  revert d r. induction s as [|c s IH]; simpl; intros d r; [by intros [= <- <-]|].
  case_match; [|by intros [= <- <-]].
  destruct (span_digits s) as [d' r'] eqn:E. intros [= <- <-].
  specialize (IH _ _ eq_refl). lia.
Qed.

Lemma parse_sign_length b s n r : parse_sign b s = (n, r) → length r <= length s.
Proof.
  unfold parse_sign. intros H. repeat case_match; simplify_eq; simpl; lia.
Qed.

Lemma parse_fraction_length s d r : parse_fraction s = Some (d, r) → length r <= length s.
Proof.
  unfold parse_fraction. destruct s as [|c s]; [by intros [= <- <-]|].
  case_match; [|by intros [= <- <-]].
  destruct (span_digits s) as [d' r'] eqn:E. apply span_digits_length in E.
  destruct d'; [done|]. intros [= <- <-]. simpl. lia.
Qed.

Lemma parse_exponent_length s d r : parse_exponent s = Some (d, r) → length r <= length s.
Proof.
  unfold parse_exponent. destruct s as [|c s]; [by intros [= <- <-]|].
  case_match; [|by intros [= <- <-]].
  destruct (parse_sign true s) as [n s'] eqn:E'. apply parse_sign_length in E'.
  destruct (span_digits s') as [d' r'] eqn:E. apply span_digits_length in E.
  destruct d'; [done|]. intros [= <- <-]. simpl. lia.
Qed.

Lemma parse_number_length s x r : parse_number s = Some (x, r) → length r <= length s.
Proof.
  unfold parse_number.
  destruct (parse_sign false s) as [neg s1] eqn:E1. apply parse_sign_length in E1.
  destruct (span_digits s1) as [ip s2] eqn:E2. apply span_digits_length in E2.
  case_match; [done|].
  destruct (parse_fraction s2) as [[fp s3]|] eqn:E3; [|done]. apply parse_fraction_length in E3.
  destruct (parse_exponent s3) as [[e s4]|] eqn:E4; [|done]. apply parse_exponent_length in E4.
  intros [= <- <-]. lia.
Qed.

Lemma parse_atom_length s v r : parse_atom s = Some (v, r) → length r <= length s.
Proof.
  unfold parse_atom. repeat (case_match; [intros [= <- <-]; rewrite length_drop; lia|]).
  destruct (parse_number s) as [[x r']|] eqn:E; [|done]. simpl. intros [= <- <-].
  by apply parse_number_length in E.
Qed.

Lemma parse_string_body_length s t r :
  parse_string_body s = Some (t, r) → length r < length s.
Proof.
  revert t r. induction s as [s IH] using (induction_ltof1 _ (@length N)). unfold ltof in IH.
  intros t r H. destruct s as [|c s]; [done|]. cbn [parse_string_body] in H.
  repeat (case_match; simplify_eq; try done); simpl in *; try lia;
    match goal with
    | E : parse_string_body ?s' = Some (_, r) |- _ =>
        apply IH in E; [simpl in *; lia|simpl; lia]
    end.
Qed.

(** Use the length facts of everything a parsing step called. *)
#[local] Ltac lengths :=
  repeat match goal with
  | E : parse_string_body _ = Some _ |- _ => apply parse_string_body_length in E
  | E : parse_atom _ = Some _ |- _ => apply parse_atom_length in E
  | E : next_unit _ = Some _ |- _ => apply next_unit_length in E
  | E : next_is _ _ = true |- _ => apply after_next_length in E
  | E : negb (next_is _ _) = false |- _ => apply negb_false_iff, after_next_length in E
  end; simpl in *.

Lemma parse_length fuel :
  (∀ s v r, parse_value fuel s = Some (v, r) → length r <= length s) ∧
  (∀ s l r, parse_elements fuel s = Some (l, r) → length r <= length s) ∧
  (∀ s l r, parse_members fuel s = Some (l, r) → length r <= length s).
Proof.
  induction fuel as [|fuel (IHv & IHe & IHm)]; [by split_and!|].
  split_and!; intros s v r H;
    [cbn [parse_value] in H|cbn [parse_elements] in H|cbn [parse_members] in H];
    repeat (case_match; simplify_eq; try done);
    repeat match goal with
    | E : parse_value _ _ = Some _ |- _ => apply IHv in E
    | E : parse_elements _ _ = Some _ |- _ => apply IHe in E
    | E : parse_members _ _ = Some _ |- _ => apply IHm in E
    end; lengths; lia.
Qed.

(** Beyond twice the length of the text, more fuel changes nothing. *)
Lemma parse_fuel f1 f2 :
  (∀ s, 2 * length s + 1 <= f1 → 2 * length s + 1 <= f2 → parse_value f1 s = parse_value f2 s) ∧
  (∀ s, 2 * length s + 2 <= f1 → 2 * length s + 2 <= f2 → parse_elements f1 s = parse_elements f2 s) ∧
  (∀ s, 2 * length s + 2 <= f1 → 2 * length s + 2 <= f2 → parse_members f1 s = parse_members f2 s).
Proof.
  revert f2. induction f1 as [|f1 IH]; intros f2; [split_and!; lia|].
  destruct f2 as [|f2]; [split_and!; lia|].
  destruct (IH f2) as (IHv & IHe & IHm). split_and!; intros s H1 H2.
  - cbn [parse_value]. destruct (next_unit s) as [[c s1]|] eqn:E; [|done]. lengths.
    rewrite (IHe s1), (IHm s1) by lia. done.
  - cbn [parse_elements]. rewrite (IHv s) by lia.
    destruct (parse_value f2 s) as [[v r]|] eqn:Ev; [|done]. apply parse_length in Ev.
    destruct (next_unit r) as [[c r1]|] eqn:E; [|done]. lengths.
    rewrite (IHe r1) by lia. done.
  - cbn [parse_members]. destruct (next_is 34 s) eqn:E1; [|done]. simpl negb. cbv iota.
    destruct (parse_string_body (after_next s)) as [[k r]|] eqn:E2; [|done].
    destruct (next_is 58 r) eqn:E3; [|done]. simpl negb. cbv iota. lengths.
    rewrite (IHv (after_next r)) by lia.
    destruct (parse_value f2 (after_next r)) as [[v r1]|] eqn:Ev; [|done].
    apply parse_length in Ev.
    destruct (next_unit r1) as [[c r2]|] eqn:E; [|done]. lengths.
    rewrite (IHm r2) by lia. done.
Qed.

(** So [JSON_parse] fails only on text that no amount of fuel would parse. *)
Lemma JSON_parse_fuel s fuel :
  2 * length s + 2 <= fuel → parse_value fuel s = parse_value (2 * length s + 2) s.
Proof. intros H. apply parse_fuel; lia. Qed.
