(* ===== verification/JsPrint.v ===== *)
(** [String(v)]: the text a value has inside a template literal.

    A number is printed by the shortest decimal digits that read back as the
    same binary64 value, in the notation the language prescribes; an array joins
    its elements with commas; a plain object prints as ["[object Object]"]. *)
From S2P Require Import Prelude JsString JsValue Json.
Open Scope Z_scope.

(** [num / den < 10^n]. *)
Definition below_pow10 (num den n : Z) : bool :=
  if 0 <=? n then num <? den * 10 ^ n else num * 10 ^ (- n) <? den.

(** The number of digits before the decimal point: the least [n] of a window
    around the estimate from the binary exponent with [num / den < 10^n]. *)
Definition decimal_point (num den : Z) : Z :=
  let est := (Z.log2 num - Z.log2 den) * 30103 / 100000 in
  if below_pow10 num den (est - 1) then est - 1
  else if below_pow10 num den est then est
  else if below_pow10 num den (est + 1) then est + 1
  else if below_pow10 num den (est + 2) then est + 2
  else est + 3.

(** [floor (num / den * 10^p)]. *)
Definition scaled (num den p : Z) : Z :=
  if 0 <=? p then num * 10 ^ p / den else num / (den * 10 ^ (- p)).

(** Try [k] = 1, 2, ... digits; the result is the digits as an integer, their
    number and the position of the point. *)
Fixpoint shortest (fuel : nat) (x : jsnum) (num den n k : Z) : Z * Z * Z :=
  let lo := scaled num den (k - n) in
  let fits s := SFeqb (dec_to_num false (Z.to_N s) (n - k)) x in
  let pick :=
    match fits lo, fits (lo + 1) with
    | true, true => if scaled (2 * num) den (k - n) <? 2 * lo + 1 then Some lo else Some (lo + 1)
    | true, false => Some lo
    | false, true => Some (lo + 1)
    | false, false => None
    end in
  match pick, fuel with
  | Some s, _ => if s =? 10 ^ k then (1, 1, n + 1) else (s, k, n)
  | None, O => (lo, k, n)
  | None, S fuel => shortest fuel x num den n (k + 1)
  end.

Definition zeros (n : Z) : jsstring := replicate (Z.to_nat n) 48%N.

(** Layout of the digits [s] ([k] of them) with the point after [n] digits. *)
Definition layout (s k n : Z) : jsstring :=
  let ds := show_N (Z.to_N s) in
  if (k <=? n) && (n <=? 21) then ds ++ zeros (n - k)
  else if (0 <? n) && (n <=? 21) then take (Z.to_nat n) ds ++ js "." ++ drop (Z.to_nat n) ds
  else if (-6 <? n) && (n <=? 0) then js "0." ++ zeros (- n) ++ ds
  else
    let e := n - 1 in
    let sign := if 0 <? e then js "+" else js "-" in
    let mant := if k =? 1 then ds else take 1 ds ++ js "." ++ drop 1 ds in
    mant ++ js "e" ++ sign ++ show_N (Z.to_N (Z.abs e)).

Definition show_num (x : jsnum) : jsstring :=
  match x with
  | S754_nan => js "NaN"
  | S754_zero _ => js "0"
  | S754_infinity neg => if neg then js "-Infinity" else js "Infinity"
  | S754_finite neg m e =>
      let num := Z.pos m * 2 ^ Z.max 0 e in
      let den := 2 ^ Z.max 0 (- e) in
      let '(s, k, n) := shortest 20 (S754_finite false m e) num den (decimal_point num den) 1 in
      (if neg then js "-" else []) ++ layout s k n
  end.

Fixpoint to_string (v : jsval) : jsstring :=
  match v with
  | JUndef => js "undefined"
  | JNull => js "null"
  | JBool b => if b then js "true" else js "false"
  | JNum x => show_num x
  | JStr s => s
  | JArr l =>
      join (js ",") (List.map (λ x, match x with JUndef | JNull => [] | _ => to_string x end) l)
  | JObj _ => js "[object Object]"
  end.
