(* ===== verification/StatusCodes.v ===== *)
(** HTTP status-code rules (web/src/lib/http-status-code-rules.ts).

    An administrator writes the codes that disable a channel or trigger a retry
    as a comma-separated list of codes and ranges.  [parseHttpStatusCodeRules]
    parses that text and merges it into a normal form.  The theorems say that
    the merge keeps exactly the codes of the tokens, that its result is a sorted
    list of separated ranges inside 100..599, that two inputs naming the same
    codes normalise to the same text, and that the normal form parses back to
    itself. *)
From S2P Require Import Prelude JsString.
Open Scope Z_scope.

Record StatusCodeRange := mkRange { start : Z; end_ : Z }.

#[export] Instance StatusCodeRange_eq_dec : EqDecision StatusCodeRange.
Proof. solve_decision. Defined.

Record ParsedHttpStatusCodeRules := {
  ok : bool;
  ranges : list StatusCodeRange;
  tokens : list jsstring;
  normalized : jsstring;
  invalidTokens : list jsstring;
}.

(** Code units of [','], ['-'] and the full-width comma. *)
Definition comma : N := 44.
Definition dash : N := 45.
Definition fullwidth_comma : N := 65292.

Definition isNumber (s : jsstring) : bool :=
  match s with [] => false | _ => forallb is_digit s end.

Definition isValidCode (code : Z) : bool := (100 <=? code) && (code <=? 599).

Definition parseInt (s : jsstring) : Z := Z.of_N (parse_dec s).

Definition parseToken (token : jsstring) : option StatusCodeRange :=
  let cleaned := filter (λ c, is_ws c = false) (trim token) in
  match cleaned with
  | [] => None
  | _ =>
      if bool_decide (dash ∈ cleaned) then
        match split_on dash cleaned with
        | a :: b :: _ =>
            if negb (isNumber a) || negb (isNumber b) then None
            else
              let s := parseInt a in
              let e := parseInt b in
              if negb (isValidCode s) || negb (isValidCode e) || (e <? s) then None
              else Some (mkRange s e)
        | _ => None
        end
      else if negb (isNumber cleaned) then None
      else
        let code := parseInt cleaned in
        if negb (isValidCode code) then None else Some (mkRange code code)
  end.

(** The comparator of the sort: by start, then by end. *)
Definition cmpRange (a b : StatusCodeRange) : Z :=
  if negb (start a =? start b) then start a - start b else end_ a - end_ b.

(** One step of the [reduce]; [merged] is kept last element first. *)
Definition mergeStep (merged : list StatusCodeRange) (current : StatusCodeRange) :
    list StatusCodeRange :=
  match merged with
  | [] => [current]
  | last :: rest =>
      if end_ last + 1 <? start current then current :: merged
      else mkRange (start last) (Z.max (end_ last) (end_ current)) :: rest
  end.

Definition mergeRanges (rs : list StatusCodeRange) : list StatusCodeRange :=
  match rs with
  | [] => []
  | _ => reverse (foldl mergeStep [] (js_sort cmpRange rs))
  end.

Definition showRange (r : StatusCodeRange) : jsstring :=
  if start r =? end_ r then show_Z (start r)
  else show_Z (start r) ++ [dash] ++ show_Z (end_ r).

(** The non-empty trimmed segments between the commas. *)
Definition segments (raw : jsstring) : list jsstring :=
  filter (λ s, s ≠ [])
    (trim <$> split_on comma ((λ c, if (c =? fullwidth_comma)%N then comma else c) <$> raw)).

(** The loop over the segments: parsed ranges and rejected segments, in order. *)
Definition parsedRanges (segs : list jsstring) : list StatusCodeRange := omap parseToken segs.
Definition rejected (segs : list jsstring) : list jsstring :=
  filter (λ s, parseToken s = None) segs.

(** [input ?? ''] is [None] for undefined and null; the callers pass strings. *)
Definition parseHttpStatusCodeRules (input : option jsstring) : ParsedHttpStatusCodeRules :=
  let raw := trim (default [] input) in
  match raw with
  | [] => {| ok := true; ranges := []; tokens := []; normalized := []; invalidTokens := [] |}
  | _ =>
      let segs := segments raw in
      let invalid := rejected segs in
      if negb (bool_decide (invalid = [])) then
        {| ok := false; ranges := []; tokens := []; normalized := raw; invalidTokens := invalid |}
      else
        let merged := mergeRanges (parsedRanges segs) in
        let toks := showRange <$> merged in
        {| ok := true; ranges := merged; tokens := toks;
           normalized := join [comma] toks; invalidTokens := [] |}
  end.

(** ** Specification *)

(** The set of codes a list of ranges stands for. *)
Definition inRange (n : Z) (r : StatusCodeRange) : Prop := start r <= n <= end_ r.
Definition covers (rs : list StatusCodeRange) (n : Z) : Prop := Exists (inRange n) rs.

Definition validRange (r : StatusCodeRange) : Prop :=
  100 <= start r /\ start r <= end_ r /\ end_ r <= 599.

(** Normal form: valid ranges in increasing order with a gap between them. *)
Definition canonical (rs : list StatusCodeRange) : Prop :=
  Forall validRange rs /\ StronglySorted (λ a b, end_ a + 1 < start b) rs.

(** ** Merging *)
Lemma covers_cons r rs n : covers (r :: rs) n <-> inRange n r \/ covers rs n.
Proof. unfold covers. by rewrite Exists_cons. Qed.

Lemma covers_perm rs rs' n : rs ≡ₚ rs' → covers rs n <-> covers rs' n.
Proof. intros H. unfold covers. by rewrite H. Qed.

#[local] Instance cmpRange_comparator : Comparator cmpRange.
Proof.
  split; intros; unfold cmpRange in *;
    repeat (case_match; boolify); try lia.
Qed.

Lemma sorted_by_start rs :
  StronglySorted (λ a b, start a <= start b) (js_sort cmpRange rs).
Proof.
  pose proof (js_sort_sorted cmpRange rs) as H.
  induction H as [|r l Hl IH Hr]; constructor; [done|].
  eapply Forall_impl; [exact Hr|]. intros x. simpl. unfold cmpRange.
  case_match; boolify; lia.
Qed.

(** The accumulator, last element first, stays in normal form, and no code is
    lost or invented. *)
Definition accCanonical (acc : list StatusCodeRange) : Prop :=
  Forall validRange acc /\ StronglySorted (λ a b, end_ b + 1 < start a) acc.

Lemma mergeStep_ok acc r :
  accCanonical acc → validRange r →
  (∀ h, head acc = Some h → start h <= start r) →
  accCanonical (mergeStep acc r) /\
  (∀ n, covers (mergeStep acc r) n <-> covers acc n \/ inRange n r) /\
  (∀ h, head (mergeStep acc r) = Some h → start h <= start r).
Proof.
  intros [Hv Hs] Hr Hh. destruct acc as [|l acc]; simpl.
  - split; [split; constructor; auto; constructor|split; [|by intros h [= <-]]].
    intros n. rewrite covers_cons. unfold covers. rewrite !Exists_nil. tauto.
  - specialize (Hh l eq_refl).
    apply Forall_cons in Hv as [Hvl Hv]. apply StronglySorted_cons in Hs as [Hl Hs].
    destruct Hr as (H1 & H2 & H3). destruct Hvl as (H4 & H5 & H6).
    destruct (end_ l + 1 <? start r) eqn:E; boolify.
    + split; [|split].
      * split; [by repeat (constructor; [done|])|]. constructor; [by constructor|].
        constructor; [done|]. eapply Forall_impl; [exact Hl|]. simpl. intros; lia.
      * intros n. rewrite !covers_cons. tauto.
      * intros h [= <-]. lia.
    + split; [|split].
      * split; [constructor; [|done]; split_and!; simpl; lia|].
        constructor; [done|]. done.
      * intros n. rewrite !covers_cons. unfold inRange. simpl.
        split; [intros [?|?]; [|tauto]|intros [[?|?]|?]; [left|tauto|left]]; try lia.
      * by intros h [= <-].
Qed.

Lemma foldl_merge_ok acc l :
  accCanonical acc → Forall validRange l →
  StronglySorted (λ a b, start a <= start b) l →
  (∀ h r, head acc = Some h → r ∈ l → start h <= start r) →
  accCanonical (foldl mergeStep acc l) /\
  ∀ n, covers (foldl mergeStep acc l) n <-> covers acc n \/ covers l n.
Proof.
  revert acc; induction l as [|r l IH]; intros acc Ha Hv Hs Hh; simpl.
  - split; [done|]. intros n. unfold covers at 3. rewrite Exists_nil. tauto.
  - apply Forall_cons in Hv as [Hr Hv]. apply StronglySorted_cons in Hs as [Hrl Hs].
    destruct (mergeStep_ok acc r) as (Ha' & Hc & Hh'); [done..| |].
    { intros h Hhd. apply (Hh h r Hhd). left. }
    destruct (IH (mergeStep acc r)) as [Hc1 Hc2]; [done..| |].
    { intros h x Hhd Hx. specialize (Hh' h Hhd). rewrite Forall_forall in Hrl.
      specialize (Hrl x Hx). simpl in Hrl. lia. }
    split; [done|]. intros n. rewrite Hc2, Hc, covers_cons. tauto.
Qed.

Lemma mergeRanges_ok rs :
  Forall validRange rs →
  canonical (mergeRanges rs) /\ ∀ n, covers (mergeRanges rs) n <-> covers rs n.
Proof.
  intros Hv. unfold mergeRanges. destruct rs as [|r rs].
  { split; [|done]. split; constructor. }
  destruct (foldl_merge_ok [] (js_sort cmpRange (r :: rs))) as [[Hc1 Hc2] Hcov].
  - split; constructor.
  - by rewrite js_sort_perm.
  - apply sorted_by_start.
  - done.
  - split.
    + split; [by rewrite Forall_reverse|]. by apply StronglySorted_reverse.
    + intros n. rewrite (covers_perm _ _ n (reverse_Permutation _)), Hcov.
      rewrite (covers_perm _ _ n (js_sort_perm _ _)). unfold covers at 1.
      rewrite Exists_nil. tauto.
Qed.

Lemma foldl_merge_canonical acc l :
  canonical (reverse acc ++ l) → foldl mergeStep acc l = reverse l ++ acc.
Proof.
  revert acc; induction l as [|r l IH]; intros acc Hc; simpl; [done|].
  rewrite reverse_cons, <- app_assoc. simpl.
  assert (mergeStep acc r = r :: acc) as ->.
  { destruct acc as [|h acc]; simpl; [done|].
    destruct Hc as [_ Hs]. rewrite reverse_cons in Hs.
    assert (end_ h + 1 < start r) as Hlt.
    { apply (StronglySorted_app_1_elem_of (λ a b, end_ a + 1 < start b) _ _ h r Hs);
        set_solver. }
    rewrite (proj2 (Z.ltb_lt _ _)) by done. done. }
  apply IH. by rewrite reverse_cons, <- app_assoc.
Qed.

(** A list in normal form is left as it is. *)
Lemma mergeRanges_canonical rs : canonical rs → mergeRanges rs = rs.
Proof.
  intros Hc. destruct rs as [|r rs]; [done|]. unfold mergeRanges.
  rewrite js_sort_id.
  - rewrite foldl_merge_canonical by done. by rewrite app_nil_r, reverse_involutive.
  - destruct Hc as [Hv Hs]. clear -Hv Hs. induction Hs as [|x l Hl IH Hx]; [constructor|].
    apply Forall_cons in Hv as [Hvx Hv]. constructor; [auto|].
    apply Forall_forall. intros y Hy. rewrite Forall_forall in Hx, Hv.
    specialize (Hx y Hy). destruct (Hv y Hy), Hvx. simpl in *. unfold cmpRange.
    case_match; boolify; lia.
Qed.

Lemma canonical_tail r rs : canonical (r :: rs) → canonical rs.
Proof. intros [Hv Hs]. apply Forall_cons in Hv as []. apply StronglySorted_cons in Hs as []. done. Qed.

Lemma canonical_head_end r rs :
  canonical (r :: rs) → ~ covers (r :: rs) (end_ r + 1) /\
  (∀ n, covers rs n → end_ r + 1 < n) /\ validRange r.
Proof.
  intros [Hv Hs]. apply Forall_cons in Hv as [Hr Hv]. apply StronglySorted_cons in Hs as [Hx Hs].
  assert (∀ n, covers rs n → end_ r + 1 < n) as H.
  { intros n (y & Hy & Hn)%Exists_exists. rewrite Forall_forall in Hx.
    specialize (Hx y Hy). unfold inRange in Hn. simpl in Hx. lia. }
  split_and!; [|done|done]. rewrite covers_cons. unfold inRange.
  intros [?|Hc]; [lia|]. specialize (H _ Hc). lia.
Qed.

(** Lists in normal form are determined by the codes they cover. *)
Lemma canonical_unique rs rs' :
  canonical rs → canonical rs' → (∀ n, covers rs n <-> covers rs' n) → rs = rs'.
Proof.
  revert rs'. induction rs as [|r rs IH]; intros rs' Hc Hc' Heq.
  - destruct rs' as [|r' rs']; [done|]. exfalso.
    destruct (canonical_head_end r' rs' Hc') as (_ & _ & Hv').
    assert (covers [] (start r')) as Hn.
    { apply Heq, covers_cons. left. unfold inRange. destruct Hv' as (?&?&?). lia. }
    by apply Exists_nil in Hn.
  - destruct rs' as [|r' rs'].
    { exfalso. destruct (canonical_head_end r rs Hc) as (_ & _ & Hv).
      assert (covers [] (start r)) as Hn.
      { apply Heq, covers_cons. left. unfold inRange. destruct Hv as (?&?&?). lia. }
      by apply Exists_nil in Hn. }
    destruct (canonical_head_end r rs Hc) as (He & Ht & Hv).
    destruct (canonical_head_end r' rs' Hc') as (He' & Ht' & Hv').
    setoid_rewrite covers_cons in Heq. unfold inRange in Heq.
    rewrite covers_cons in He, He'. unfold inRange in He, He'.
    destruct Hv as (_ & Hv & _), Hv' as (_ & Hv' & _).
    assert (start r = start r') as Hst.
    { destruct (proj1 (Heq (start r)) ltac:(left; lia)) as [|C1%Ht'];
      destruct (proj2 (Heq (start r')) ltac:(left; lia)) as [|C2%Ht]; lia. }
    assert (end_ r = end_ r') as Hen.
    { destruct (decide (end_ r < end_ r')) as [Hlt|].
      - destruct (proj2 (Heq (end_ r + 1)) ltac:(left; lia)) as [|C%Ht]; lia.
      - destruct (decide (end_ r' < end_ r)) as [Hlt|]; [|lia].
        destruct (proj1 (Heq (end_ r' + 1)) ltac:(left; lia)) as [|C%Ht']; lia. }
    f_equal; [destruct r, r'; simpl in *; by subst|].
    apply IH; [by eapply canonical_tail..|]. intros n.
    specialize (Heq n). rewrite Hst, Hen in Heq. split; intros Hn.
    + destruct (proj1 Heq (or_intror Hn)) as [|]; [|done]. apply Ht in Hn. lia.
    + destruct (proj2 Heq (or_intror Hn)) as [|]; [|done]. apply Ht' in Hn. lia.
Qed.

(** ** Printing and parsing back *)
Lemma parseInt_show z : 0 <= z → parseInt (show_Z z) = z.
Proof.
  intros Hz. unfold parseInt, show_Z.
  destruct z as [|p|p]; [done| |lia]. by rewrite parse_show_N.
Qed.

Lemma show_Z_digits z : 0 <= z → Forall (λ c, is_digit c = true) (show_Z z) /\ show_Z z ≠ [].
Proof.
  intros Hz. unfold show_Z. destruct z; [|split; [apply show_N_digits|apply show_N_not_nil]|lia].
  split; [apply show_N_digits|apply show_N_not_nil].
Qed.

Lemma isNumber_show z : 0 <= z → isNumber (show_Z z) = true.
Proof.
  intros [Hd Hne]%show_Z_digits. unfold isNumber. destruct (show_Z z) eqn:E; [done|].
  by apply forallb_Forall.
Qed.

Lemma digits_no_dash s : Forall (λ c, is_digit c = true) s → dash ∉ s.
Proof. intros Hs Hin. rewrite Forall_forall in Hs. by specialize (Hs _ Hin). Qed.

(** Units a printed token is made of. *)
Definition token_unit (c : N) : Prop := is_digit c = true \/ c = dash.

Lemma showRange_units r :
  validRange r → Forall token_unit (showRange r) /\ showRange r ≠ [].
Proof.
  intros (H1 & H2 & H3). unfold showRange.
  destruct (show_Z_digits (start r)) as [Hs Hs'], (show_Z_digits (end_ r)) as [He He']; [lia..|].
  assert (∀ s, Forall (λ c, is_digit c = true) s → Forall token_unit s) as Hw.
  { intros s Hd. eapply Forall_impl; [exact Hd|]. by left. }
  case_match; [by auto|]. split; [|by destruct (show_Z (start r))].
  apply Forall_app; split; [by auto|]. apply Forall_app; split; [|by auto].
  constructor; [by right|constructor].
Qed.

Lemma token_unit_not_ws c : token_unit c → is_ws c = false.
Proof. intros [H| ->]; [by apply is_digit_not_ws|done]. Qed.

Lemma token_unit_not_comma s : Forall token_unit s → (comma ∉ s) /\ (fullwidth_comma ∉ s).
Proof.
  rewrite Forall_forall. intros Hs.
  split; intros Hin; destruct (Hs _ Hin) as [|]; done.
Qed.

Lemma no_ws_cleaned s :
  Forall (λ c, is_ws c = false) s → filter (λ c, is_ws c = false) (trim s) = s.
Proof. intros Hs. rewrite trim_no_ws by done. by apply filter_all. Qed.

Lemma parseToken_show r : validRange r → parseToken (showRange r) = Some r.
Proof.
  intros Hv. destruct (showRange_units r Hv) as [Hu Hne].
  unfold parseToken. rewrite no_ws_cleaned.
  2:{ eapply Forall_impl; [exact Hu|]. apply token_unit_not_ws. }
  destruct (showRange r) as [|c s] eqn:Hshow; [done|]. rewrite <- Hshow. clear Hne.
  destruct Hv as (H1 & H2 & H3). unfold showRange in Hshow |- *.
  destruct (show_Z_digits (start r)) as [Hs _], (show_Z_digits (end_ r)) as [He _]; [lia..|].
  destruct (start r =? end_ r) eqn:E; boolify.
  - rewrite bool_decide_false by by apply digits_no_dash.
    rewrite isNumber_show, parseInt_show by lia. simpl.
    unfold isValidCode. rewrite (proj2 (Z.leb_le _ _)), (proj2 (Z.leb_le _ _)) by lia.
    simpl. destruct r; simpl in *; by subst.
  - rewrite bool_decide_true by set_solver.
    change (show_Z (start r) ++ [dash] ++ show_Z (end_ r))
      with (show_Z (start r) ++ dash :: show_Z (end_ r)).
    rewrite split_on_app by by apply digits_no_dash.
    rewrite split_on_no_sep by by apply digits_no_dash.
    rewrite !isNumber_show, !parseInt_show by lia. simpl.
    unfold isValidCode. rewrite !(proj2 (Z.leb_le _ _)) by lia.
    rewrite (proj2 (Z.ltb_ge _ _)) by lia. simpl. by destruct r.
Qed.

Lemma parseToken_valid s r : parseToken s = Some r → validRange r.
Proof.
  unfold parseToken, isValidCode. intros H.
  repeat (case_match; try done); boolify; simplify_eq; split_and!; simpl; try lia.
Qed.

Lemma parsedRanges_valid segs : Forall validRange (parsedRanges segs).
Proof.
  apply Forall_forall. intros r (s & _ & Hs)%list_elem_of_omap. by apply parseToken_valid in Hs.
Qed.

(** The segments of printed tokens are the tokens. *)
Lemma segments_join toks :
  toks ≠ [] → Forall (λ t, Forall token_unit t /\ t ≠ []) toks →
  segments (join [comma] toks) = toks.
Proof.
  intros Hne Ht. unfold segments.
  assert (∀ s : jsstring, fullwidth_comma ∉ s →
    ((λ c, if (c =? fullwidth_comma)%N then comma else c) <$> s) = s) as Hid.
  { induction s as [|c s IH]; [done|]. intros [Hc Hs]%not_elem_of_cons. csimpl.
    rewrite (proj2 (N.eqb_neq _ _)) by done. by rewrite IH. }
  rewrite Hid.
  - rewrite split_join; [|done|].
    2:{ eapply Forall_impl; [exact Ht|]. intros t [Hu _]. by apply token_unit_not_comma. }
    assert ((trim <$> toks) = toks) as ->.
    { clear Hne. induction Ht as [|t toks [Hu _] Ht IH]; [done|]. csimpl. rewrite IH. f_equal.
      apply trim_no_ws. eapply Forall_impl; [exact Hu|]. apply token_unit_not_ws. }
    apply filter_all. eapply Forall_impl; [exact Ht|]. by intros t [].
  - clear Hid. induction Ht as [|t toks [Hu Hn] Ht IH]; [apply not_elem_of_nil|].
    destruct toks as [|t' toks]; [by apply token_unit_not_comma|].
    change (join [comma] (t :: t' :: toks)) with (t ++ comma :: join [comma] (t' :: toks)).
    rewrite elem_of_app, elem_of_cons. intros [H|[H|H]]; [|done|by apply IH in H].
    by apply token_unit_not_comma in Hu as [].
Qed.

Lemma join_trimmed toks :
  Forall (λ t, Forall token_unit t /\ t ≠ []) toks → trim (join [comma] toks) = join [comma] toks.
Proof.
  intros Ht. apply trim_no_ws.
  induction Ht as [|t toks [Hu Hn] Ht IH]; [constructor|].
  assert (Forall (λ c, is_ws c = false) t) as Hw.
  { eapply Forall_impl; [exact Hu|]. apply token_unit_not_ws. }
  destruct toks as [|t' toks]; [done|].
  change (join [comma] (t :: t' :: toks)) with (t ++ comma :: join [comma] (t' :: toks)).
  apply Forall_app; split; [done|]. constructor; done.
Qed.

Lemma join_not_nil toks :
  toks ≠ [] → Forall (λ t, Forall token_unit t /\ t ≠ []) toks → join [comma] toks ≠ [].
Proof.
  intros Hne Ht. destruct Ht as [|t toks [_ Hn] Ht]; [done|].
  destruct toks as [|t' toks]; simpl; [done|]. by destruct t.
Qed.

(** ** What a result of the parser looks like *)
Lemma parse_cases input :
  let raw := trim (default [] input) in
  let p := parseHttpStatusCodeRules input in
  (rejected (segments raw) = [] /\ ok p = true /\ invalidTokens p = [] /\
   ranges p = mergeRanges (parsedRanges (segments raw)) /\
   tokens p = showRange <$> ranges p /\ normalized p = join [comma] (tokens p)) \/
  (rejected (segments raw) ≠ [] /\ ok p = false /\ invalidTokens p = rejected (segments raw) /\
   ranges p = [] /\ tokens p = [] /\ normalized p = raw).
Proof.
  unfold parseHttpStatusCodeRules.
  destruct (trim (default [] input)) as [|c raw] eqn:E; simpl; [left; done|].
  case_bool_decide; simpl; [left|right]; done.
Qed.

(** The merged ranges are always in normal form: valid codes between 100 and
    599, in increasing order, with at least one code missing between two
    neighbouring ranges. *)
Theorem parse_ranges_canonical (input : option jsstring) :
  canonical (ranges (parseHttpStatusCodeRules input)).
Proof.
  destruct (parse_cases input) as [(_ & _ & _ & -> & _)|(_ & _ & _ & -> & _)].
  - apply mergeRanges_ok, parsedRanges_valid.
  - split; constructor.
Qed.

(** C34: merging neither loses nor invents a code: when the input is accepted, a
    code is covered by the result exactly when one of the comma-separated tokens
    names it; and the input is rejected exactly when some token does not parse,
    in which case the offending tokens are reported and nothing is covered. *)
Theorem parse_ranges_exact (input : option jsstring) :
  let p := parseHttpStatusCodeRules input in
  let segs := segments (trim (default [] input)) in
  (ok p = true <-> ∀ s, s ∈ segs → is_Some (parseToken s)) /\
  (ok p = true → ∀ n, covers (ranges p) n <->
     exists s r, s ∈ segs /\ parseToken s = Some r /\ inRange n r) /\
  (ok p = false → (∀ s, s ∈ invalidTokens p <-> s ∈ segs /\ parseToken s = None) /\
     ∀ n, ~ covers (ranges p) n).
Proof.
  cbv zeta. set (segs := segments _).
  assert (∀ s, s ∈ rejected segs <-> s ∈ segs /\ parseToken s = None) as Hrej.
  { intros s. unfold rejected. rewrite list_elem_of_filter. tauto. }
  destruct (parse_cases input) as [(Hr & -> & _ & -> & _)|(Hr & -> & -> & -> & _)];
    fold segs in Hr |- *.
  - split; [|split; [|done]].
    + split; [|done]. intros _ s Hs. destruct (parseToken s) eqn:E; [done|].
      assert (s ∈ rejected segs) as Hin by by apply Hrej. rewrite Hr in Hin.
      by apply not_elem_of_nil in Hin.
    + intros _ n. rewrite (proj2 (mergeRanges_ok _ (parsedRanges_valid segs)) n).
      unfold covers, parsedRanges. rewrite Exists_exists.
      setoid_rewrite list_elem_of_omap. naive_solver.
  - split; [|split; [done|]].
    + split; [done|]. intros H. destruct (rejected segs) as [|s l] eqn:E; [done|].
      assert (s ∈ segs /\ parseToken s = None) as [Hs Hn] by (apply Hrej; left).
      destruct (H s Hs) as [r Hr']. congruence.
    + intros _. split; [done|]. intros n Hn. by apply Exists_nil in Hn.
Qed.

(** The normal form is canonical: two accepted inputs that cover the same
    codes get the same result (ranges, tokens and normalised text), however they
    were written. *)
Theorem parse_normalized_unique (a b : option jsstring)
    (Ha : ok (parseHttpStatusCodeRules a) = true)
    (Hb : ok (parseHttpStatusCodeRules b) = true)
    (Heq : ∀ n, covers (ranges (parseHttpStatusCodeRules a)) n <->
                covers (ranges (parseHttpStatusCodeRules b)) n) :
  parseHttpStatusCodeRules a = parseHttpStatusCodeRules b.
Proof.
  destruct (parse_cases a) as [(_ & Ha1 & Ha2 & Ha3 & Ha4 & Ha5)|(_ & Ha' & _)]; [|congruence].
  destruct (parse_cases b) as [(_ & Hb1 & Hb2 & Hb3 & Hb4 & Hb5)|(_ & Hb' & _)]; [|congruence].
  assert (ranges (parseHttpStatusCodeRules a) = ranges (parseHttpStatusCodeRules b)) as Hr.
  { apply canonical_unique; [| |done]; rewrite ?Ha3, ?Hb3;
      apply mergeRanges_ok, parsedRanges_valid. }
  clear Ha3 Hb3 Heq.
  destruct (parseHttpStatusCodeRules a), (parseHttpStatusCodeRules b). simpl in *. congruence.
Qed.

Lemma parse_normalized_unique_witness :
  parseHttpStatusCodeRules (Some (js "500-505, 504,401,403,402")) =
  parseHttpStatusCodeRules (Some (js "401-403,500-505")).
Proof.
  apply (parse_normalized_unique (Some (js "500-505, 504,401,403,402"))
           (Some (js "401-403,500-505"))).
  - vm_compute; reflexivity.
  - vm_compute; reflexivity.
  - intros n.
    replace (ranges (parseHttpStatusCodeRules (Some (js "500-505, 504,401,403,402"))))
      with (ranges (parseHttpStatusCodeRules (Some (js "401-403,500-505"))))
      by (vm_compute; reflexivity).
    reflexivity.
Defined.

(** The normalised text is a fixed point: parsing it again accepts it and
    gives the same ranges, tokens and text. *)
Theorem parse_normalized_roundtrip (input : option jsstring)
    (Hok : ok (parseHttpStatusCodeRules input) = true) :
  parseHttpStatusCodeRules (Some (normalized (parseHttpStatusCodeRules input))) =
  parseHttpStatusCodeRules input.
Proof.
  destruct (parse_cases input) as [(_ & H1 & H2 & H3 & H4 & H5)|(_ & H' & _)]; [|congruence].
  assert (canonical (ranges (parseHttpStatusCodeRules input))) as Hc.
  { rewrite H3. apply mergeRanges_ok, parsedRanges_valid. }
  clear H3. destruct (parseHttpStatusCodeRules input) as [k rs ts nm inv].
  simpl in *. subst k inv ts nm.
  assert (Forall (λ t, Forall token_unit t /\ t ≠ []) (showRange <$> rs)) as Hu.
  { apply Forall_fmap. eapply Forall_impl; [apply Hc|]. apply showRange_units. }
  unfold parseHttpStatusCodeRules. change (default [] (Some ?x)) with x. cbv beta.
  rewrite join_trimmed by done.
  destruct (decide (rs = [])) as [->|Hne]; [done|].
  destruct (join [comma] (showRange <$> rs)) as [|c s] eqn:Hj.
  { by apply join_not_nil in Hj; [|destruct rs|]. }
  rewrite <- Hj. rewrite segments_join by (done || by destruct rs).
  assert (parsedRanges (showRange <$> rs) = rs) as Hp.
  { destruct Hc as [Hv _]. clear -Hv. unfold parsedRanges.
    induction Hv as [|r rs Hr Hv IH]; [done|]. csimpl. by rewrite parseToken_show, IH. }
  assert (rejected (showRange <$> rs) = []) as ->.
  { unfold rejected. destruct Hc as [Hv _]. clear -Hv. induction Hv as [|r rs Hr Hv IH]; [done|].
    csimpl. rewrite filter_cons_False; [done|]. by rewrite parseToken_show. }
  rewrite bool_decide_true by done. simpl. by rewrite Hp, mergeRanges_canonical.
Qed.

Lemma parse_normalized_roundtrip_witness :
  parseHttpStatusCodeRules
    (Some (normalized (parseHttpStatusCodeRules (Some (js "502,500 - 501, 404"))))) =
  parseHttpStatusCodeRules (Some (js "502,500 - 501, 404")).
Proof.
  apply (parse_normalized_roundtrip (Some (js "502,500 - 501, 404"))).
  vm_compute; reflexivity.
Defined.


Lemma isNumber_digits s : isNumber s = true → Forall (λ c, is_digit c = true) s.
Proof. unfold isNumber. destruct s; [done|]. apply forallb_Forall. Qed.

(** A token with three or more dash-separated parts is not rejected: the
    parts after the second are dropped, so "100-200-300" is accepted and stored
    as "100-200" (the server's own parser refuses such a token). *)
Theorem parseToken_extra_parts (a b rest : jsstring)
    (Ha : isNumber a = true) (Hb : isNumber b = true) :
  parseToken (a ++ dash :: b ++ dash :: rest) = parseToken (a ++ dash :: b).
Proof.
  apply isNumber_digits in Ha, Hb.
  assert (∀ s, Forall (λ c, is_digit c = true) s → filter (λ c, is_ws c = false) s = s) as Hf.
  { intros s Hs. apply filter_all. eapply Forall_impl; [exact Hs|]. apply is_digit_not_ws. }
  unfold parseToken. rewrite !filter_trim, !filter_app, !filter_cons_True, !filter_app by done.
  rewrite !filter_cons_True by done. rewrite (Hf a), (Hf b) by done.
  set (r := filter _ rest).
  rewrite !bool_decide_true by set_solver.
  rewrite !split_on_app by by apply digits_no_dash.
  rewrite (split_on_no_sep dash b) by by apply digits_no_dash.
  by destruct a.
Qed.

Lemma parseToken_extra_parts_witness :
  parseToken (js "100-200-300") = Some (mkRange 100 200).
Proof.
  change (js "100-200-300") with (js "100" ++ dash :: js "200" ++ dash :: js "300").
  rewrite (parseToken_extra_parts (js "100") (js "200") (js "300"));
    vm_compute; reflexivity.
Defined.
