(* ===== verification/ChannelRules.v ===== *)
(** Channel editor checks: risky status-code redirects and model mappings.

    - web/src/features/channels/lib/status-code-risk-guard.ts: the entries of a
      channel's status-code mapping that are malformed, the ones that redirect a
      gateway time-out (504, 524), and the ones an edit newly introduces.
    - web/src/features/channels/lib/model-mapping-validation.ts: the models a
      channel serves against its model mapping.
    - web/src/features/channels/lib/upstream-update-utils.ts: the pending model
      changes recorded in a channel's settings.

    A [try { JSON.parse } catch { return d }] followed by the test for a plain
    object is [parse_object]. *)
From S2P Require Import Prelude JsString JsValue Json JsPrint.
Open Scope Z_scope.

(** The members of the JSON object a text holds, in [Object.entries] order. *)
Definition parse_object (s : jsstring) : option (list (jsstring * jsval)) :=
  match JSON_parse s with
  | Some (JObj ps) => Some ps
  | _ => None
  end.

(** ** Status-code redirects *)
Module RiskGuard.

Definition NON_REDIRECTABLE_STATUS_CODES : list Z := [504; 524].

(** [/^[1-5]\d{2}$/]. *)
Definition is_code_text (s : jsstring) : bool :=
  match s with
  | [a; b; c] => (49 <=? a)%N && (a <=? 53)%N && is_digit b && is_digit c
  | _ => false
  end.

Definition parseStatusCodeKey (rawKey : jsstring) : option Z :=
  let normalized := trim rawKey in
  if is_code_text normalized then Some (Z.of_N (parse_dec normalized)) else None.

Definition in_code_range (z : Z) : bool := (100 <=? z) && (z <=? 599).

Definition parseStatusCodeMappingTarget (rawValue : jsval) : option Z :=
  match rawValue with
  | JNum x =>
      if is_integer x then
        if num_leb (num_of_Z 100) x && num_leb x (num_of_Z 599) then Some (num_to_Z x) else None
      else None
  | JStr s =>
      let normalized := trim s in
      if negb (is_code_text normalized) then None
      else
        let code := Z.of_N (parse_dec normalized) in
        if in_code_range code then Some code else None
  | _ => None
  end.

(** An arrow with spaces around it, as code units. *)
Definition arrow_text : jsstring := [32; 8594; 32]%N.

Definition collectInvalidStatusCodeEntries (statusCodeMappingStr : jsstring) : list jsstring :=
  match trim statusCodeMappingStr with
  | [] => []
  | _ =>
      match parse_object statusCodeMappingStr with
      | None => []
      | Some entries =>
          omap (λ '(rawKey, rawValue),
            match parseStatusCodeKey rawKey, parseStatusCodeMappingTarget rawValue with
            | Some _, Some _ => None
            | _, _ => Some (rawKey ++ arrow_text ++ to_string rawValue)
            end) entries
      end
  end.

Definition redirect_text (fromCode toCode : Z) : jsstring :=
  show_Z fromCode ++ js " -> " ++ show_Z toCode.

Definition riskyMappings (entries : list (jsstring * jsval)) : list jsstring :=
  omap (λ '(rawFrom, rawTo),
    match parseStatusCodeKey rawFrom, parseStatusCodeMappingTarget rawTo with
    | Some fromCode, Some toCode =>
        if negb (set_has fromCode NON_REDIRECTABLE_STATUS_CODES) then None
        else if fromCode =? toCode then None
        else Some (redirect_text fromCode toCode)
    | _, _ => None
    end) entries.

Definition collectDisallowedStatusCodeRedirects (statusCodeMappingStr : jsstring) :
    list jsstring :=
  match trim statusCodeMappingStr with
  | [] => []
  | _ =>
      match parse_object statusCodeMappingStr with
      | None => []
      | Some entries => js_sort str_cmp (set_of (riskyMappings entries))
      end
  end.

Definition collectNewDisallowedStatusCodeRedirects (originalStr currentStr : jsstring) :
    list jsstring :=
  let currentRisky := collectDisallowedStatusCodeRedirects currentStr in
  match currentRisky with
  | [] => []
  | _ =>
      let originalRiskySet := set_of (collectDisallowedStatusCodeRedirects originalStr) in
      filter (λ mapping, set_has mapping originalRiskySet = false) currentRisky
  end.

(** ** Specification *)

(** The entry of a mapping redirects one of the protected codes elsewhere. *)
Definition redirects (entries : list (jsstring * jsval)) (from to : Z) : Prop :=
  ∃ rawFrom rawTo, (rawFrom, rawTo) ∈ entries ∧
    parseStatusCodeKey rawFrom = Some from ∧
    parseStatusCodeMappingTarget rawTo = Some to ∧
    from ∈ NON_REDIRECTABLE_STATUS_CODES ∧ from ≠ to.

Lemma elem_of_riskyMappings entries m :
  m ∈ riskyMappings entries ↔ ∃ from to, redirects entries from to ∧ m = redirect_text from to.
Proof.
  unfold riskyMappings, redirects. rewrite list_elem_of_omap. split.
  - intros ([rf rt] & Hin & H).
    repeat (case_match; try done); boolify; simplify_eq.
    match goal with H : set_has _ _ = true |- _ => apply set_has_spec in H end.
    naive_solver.
  - intros (from & to & (rf & rt & Hin & Hf & Ht & Hp & Hne) & ->).
    exists (rf, rt). split; [done|]. rewrite Hf, Ht.
    apply set_has_spec in Hp as ->. simpl. by rewrite (proj2 (Z.eqb_neq _ _)).
Qed.

Lemma num_range_lit (x : jsnum) :
  is_integer x = true → num_leb (num_of_Z 100) x && num_leb x (num_of_Z 599) = true →
  0 <= num_to_Z x.
Proof.
  intros Hi Hr. boolify. apply integer_nonneg; [done|].
  destruct x as [s|s| |s m e]; try done. by destruct s.
Qed.

Lemma target_nonneg v z : parseStatusCodeMappingTarget v = Some z → 0 <= z.
Proof.
  destruct v; simpl; try done.
  - destruct (is_integer x) eqn:Hi; [|done]. destruct (_ && _) eqn:Hr; [|done].
    intros [= <-]. by apply num_range_lit.
  - repeat (case_match; try done). intros [= <-]. lia.
Qed.

Lemma key_nonneg k z : parseStatusCodeKey k = Some z → 0 <= z.
Proof. unfold parseStatusCodeKey. case_match; [|done]. intros [= <-]. lia. Qed.

Lemma show_Z_nonneg z : 0 <= z → show_Z z = show_N (Z.to_N z).
Proof. by destruct z. Qed.

(** Digits stop at the first non-digit, so the two codes can be read back. *)
Lemma digits_app_inj (a b : jsstring) c s t :
  Forall (λ c, is_digit c = true) a → Forall (λ c, is_digit c = true) b →
  is_digit c = false → a ++ c :: s = b ++ c :: t → a = b ∧ s = t.
Proof.
  intros Ha Hb Hc. revert b Hb. induction Ha as [|x a Hx Ha IH]; intros b Hb; simpl.
  - destruct Hb as [|y b Hy Hb]; simpl; [by intros [= ->]|]. intros [= <- _]. congruence.
  - destruct Hb as [|y b Hy Hb]; simpl; [intros [= -> _]; congruence|].
    intros [= -> H]. destruct (IH b Hb H). by subst.
Qed.

Lemma redirect_text_inj f t f' t' :
  0 <= f → 0 <= t → 0 <= f' → 0 <= t' →
  redirect_text f t = redirect_text f' t' → f = f' ∧ t = t'.
Proof.
  intros Hf Ht Hf' Ht'. unfold redirect_text. rewrite !show_Z_nonneg by done.
  intros H. change (js " -> ") with (32%N :: js "-> ") in H.
  cbn [app] in H.
  apply digits_app_inj in H as [H1 H2]; [|apply show_N_digits..|done].
  apply show_N_inj in H1. apply app_inv_head in H2. apply show_N_inj in H2. lia.
Qed.

(** The redirects reported as disallowed are exactly those of the mapping
    that send 504 or 524 to a different code: each reported text names one
    (from, to) pair of the mapping, each such pair is reported, once, and the
    list is sorted. *)
Theorem disallowed_redirects_exact (s : jsstring) (entries : list (jsstring * jsval))
    (Htext : trim s ≠ []) (Hparse : parse_object s = Some entries) :
  let out := collectDisallowedStatusCodeRedirects s in
  (∀ m, m ∈ out ↔ ∃ from to, redirects entries from to ∧ m = redirect_text from to) ∧
  (∀ from to, redirect_text from to ∈ out → 0 <= from → 0 <= to → redirects entries from to) ∧
  NoDup out ∧ StronglySorted (λ a b, str_cmp a b <= 0) out.
Proof.
  unfold collectDisallowedStatusCodeRedirects.
  destruct (trim s) as [|c t]; [done|]. rewrite Hparse. cbv zeta.
  assert (∀ m, m ∈ js_sort str_cmp (set_of (riskyMappings entries)) ↔
    ∃ from to, redirects entries from to ∧ m = redirect_text from to) as Hm.
  { intros m. by rewrite elem_of_js_sort, elem_of_set_of, elem_of_riskyMappings. }
  split; [done|]. split; [|split].
  - intros from to (f & t' & Hr & Heq)%Hm Hf Ht.
    pose proof Hr as (rf & rt & _ & Hk & Hv & _).
    apply redirect_text_inj in Heq as [-> ->]; eauto using key_nonneg, target_nonneg.
  - rewrite js_sort_perm. apply NoDup_set_of.
  - apply js_sort_sorted, _.
Qed.

(** A mapping text used by the witnesses: 504 and 524 redirected, 500 as well. *)
Definition sample_mapping : jsstring :=
  [123; 34; 53; 48; 52; 34; 58; 34; 50; 48; 48; 34; 44;
   34; 53; 50; 52; 34; 58; 53; 50; 52; 44; 34; 53; 48; 48; 34; 58; 50; 48; 48; 125]%N.

Lemma disallowed_redirects_exact_witness :
  collectDisallowedStatusCodeRedirects sample_mapping = [js "504 -> 200"] ∧
  NoDup (collectDisallowedStatusCodeRedirects sample_mapping).
Proof.
  split; [vm_compute; reflexivity|].
  apply (disallowed_redirects_exact sample_mapping
    [(js "500", JNum (num_of_Z 200)); (js "504", JStr (js "200")); (js "524", JNum (num_of_Z 524))]).
  - vm_compute; discriminate.
  - vm_compute; reflexivity.
Defined.

(** The confirmation dialog is asked for exactly the disallowed redirects
    the edit introduces: those of the current mapping that the original one did
    not already have. *)
Theorem new_redirects_exact (originalStr currentStr m : jsstring) :
  m ∈ collectNewDisallowedStatusCodeRedirects originalStr currentStr ↔
  m ∈ collectDisallowedStatusCodeRedirects currentStr ∧
  m ∉ collectDisallowedStatusCodeRedirects originalStr.
Proof.
  unfold collectNewDisallowedStatusCodeRedirects.
  set (cur := collectDisallowedStatusCodeRedirects currentStr).
  assert (m ∈ filter (λ mapping, set_has mapping
     (set_of (collectDisallowedStatusCodeRedirects originalStr)) = false) cur ↔
    m ∈ cur ∧ m ∉ collectDisallowedStatusCodeRedirects originalStr) as H.
  { rewrite list_elem_of_filter, set_has_false, elem_of_set_of. tauto. }
  destruct cur; [|done]. rewrite elem_of_nil. tauto.
Qed.

(** No invalid entry is reported exactly when every entry of the mapping has
    a three-digit code 1xx-5xx as its key and a code between 100 and 599 as its
    value. *)
Theorem invalid_entries_none (s : jsstring) (entries : list (jsstring * jsval))
    (Htext : trim s ≠ []) (Hparse : parse_object s = Some entries) :
  collectInvalidStatusCodeEntries s = [] ↔
  ∀ k v, (k, v) ∈ entries →
    is_Some (parseStatusCodeKey k) ∧ is_Some (parseStatusCodeMappingTarget v).
Proof.
  unfold collectInvalidStatusCodeEntries.
  destruct (trim s) as [|c t]; [done|]. rewrite Hparse. clear Hparse Htext.
  induction entries as [|[k v] entries IH]; csimpl.
  { split; [|done]. intros _ k v ?%elem_of_nil. done. }
  destruct (parseStatusCodeKey k) eqn:Hk, (parseStatusCodeMappingTarget v) eqn:Hv.
  2-4: split; [done|]; intros H; destruct (H k v ltac:(left)) as [[??] [??]]; congruence.
  rewrite IH. split.
  - intros H k' v' [[= -> ->]|Hin]%elem_of_cons; [rewrite Hk, Hv; eauto|by apply H].
  - intros H k' v' Hin. apply H. by right.
Qed.

Lemma invalid_entries_none_witness :
  collectInvalidStatusCodeEntries sample_mapping = [].
Proof.
  apply (invalid_entries_none sample_mapping
    [(js "500", JNum (num_of_Z 200)); (js "504", JStr (js "200")); (js "524", JNum (num_of_Z 524))]).
  - vm_compute; discriminate.
  - vm_compute; reflexivity.
  - intros k v H.
    repeat (apply elem_of_cons in H as [[= -> ->]|H]; [split; vm_compute; eexists; reflexivity|]).
    by apply elem_of_nil in H.
Defined.

End RiskGuard.

(** ** Model lists and model mappings *)
Module ModelMapping.

Definition comma : N := 44.

Definition parseModelsString (modelsStr : jsstring) : list jsstring :=
  match modelsStr with
  | [] => []
  | _ => filter (λ m, m ≠ []) (trim <$> split_on comma modelsStr)
  end.

Definition formatModelsArray (models : list jsstring) : jsstring :=
  join [comma] (set_of models).

(** The parameter is typed as a string, so the [typeof] test is true. *)
Definition normalizeModelName (model : jsstring) : jsstring := trim model.

Definition extractMappingSourceModels (modelMapping : jsstring) : list jsstring :=
  match trim modelMapping with
  | [] => []
  | trimmed =>
      match parse_object trimmed with
      | None => []
      | Some parsed => set_of (filter (λ k, k ≠ []) (trim <$> parsed.*1))
      end
  end.

Definition extractRedirectModels (modelMapping : jsstring) : list jsstring :=
  match trim modelMapping with
  | [] => []
  | trimmed =>
      match parse_object trimmed with
      | None => []
      | Some parsed =>
          set_of (filter (λ v, v ≠ []) (omap (λ v, trim <$> as_string v) parsed.*2))
      end
  end.

Definition hasModelConfigChanged (currentModels : list jsstring) (currentModelMapping : jsstring)
    (initialModels : list jsstring) (initialModelMapping : jsstring) : bool :=
  if bool_decide (initialModels = []) && bool_decide (initialModelMapping = []) then true
  else if negb (length currentModels =? length initialModels)%nat then true
  else if negb (forallb (λ '(a, b), bool_decide (a = b)) (zip currentModels initialModels)) then true
  else negb (bool_decide (trim currentModelMapping = trim initialModelMapping)).

Definition findMissingModelsInMapping (modelMapping : jsstring) (currentModels : list jsstring) :
    list jsstring :=
  match trim modelMapping with
  | [] => []
  | _ =>
      match parse_object modelMapping with
      | None => []
      | Some parsedMapping =>
          let modelSet := set_of (normalizeModelName <$> currentModels) in
          set_of (filter (λ key, key ≠ [] ∧ set_has key modelSet = false)
            (normalizeModelName <$> parsedMapping.*1))
      end
  end.

(** [{ valid, error? }]. *)
Record Validation := { valid : bool; error : option jsstring }.

Definition validateModelMappingJson (modelMapping : jsstring) : Validation :=
  match trim modelMapping with
  | [] => {| valid := true; error := None |}
  | _ =>
      match JSON_parse modelMapping with
      | None =>
          {| valid := false; error := Some (js "Model mapping must be valid JSON format") |}
      | Some (JObj parsed) =>
          if existsb (λ v, negb (is_string v)) parsed.*2 then
            {| valid := false; error := Some (js "Model mapping values must be strings") |}
          else {| valid := true; error := None |}
      | Some _ =>
          {| valid := false; error := Some (js "Model mapping must be a valid JSON object") |}
      end
  end.

Definition findExposedTargetModels (modelMapping : jsstring) (currentModels : list jsstring) :
    list jsstring :=
  match extractRedirectModels modelMapping with
  | [] => []
  | redirectModels =>
      let modelSet := set_of (normalizeModelName <$> currentModels) in
      filter (λ model, set_has (normalizeModelName model) modelSet = true) redirectModels
  end.

Record Categories := {
  normalizedCurrentModels : list jsstring;
  normalizedRedirectModels : list jsstring;
  classificationSet : list jsstring;
  redirectOnlySet : list jsstring;
}.

Definition categorizeModelsWithRedirect (currentModels redirectModels : list jsstring) :
    Categories :=
  let cur := set_of (filter (λ m, m ≠ []) (normalizeModelName <$> currentModels)) in
  let red := set_of (filter (λ m, m ≠ []) (normalizeModelName <$> redirectModels)) in
  {| normalizedCurrentModels := cur;
     normalizedRedirectModels := red;
     classificationSet := set_of (cur ++ red);
     redirectOnlySet := set_of (filter (λ m, set_has m cur = false) red) |}.

(** *** Specification *)

(** A model name as the editor stores it: no surrounding white space, not
    empty, no comma inside. *)
Definition model_name (m : jsstring) : Prop := trim m = m ∧ m ≠ [] ∧ comma ∉ m.

#[export] Instance model_name_dec m : Decision (model_name m).
Proof. unfold model_name. apply _. Defined.

Lemma parseModelsString_names s : Forall model_name (parseModelsString s).
Proof.
  unfold parseModelsString. destruct s as [|c s]; [constructor|].
  apply Forall_forall. intros m [Hne (x & -> & Hx)%list_elem_of_fmap]%list_elem_of_filter.
  split_and!; [apply trim_idemp|done|]. intros Hc%elem_of_trim.
  by apply split_on_pieces in Hx.
Qed.

Lemma join_model_names ms : ms ≠ [] → Forall model_name ms → join [comma] ms ≠ [].
Proof.
  intros Hne Hf. destruct Hf as [|m ms (_ & Hm & _) Hf]; [done|].
  destruct ms; simpl; [done|]. by destruct m.
Qed.

Lemma parse_join_models ms : Forall model_name ms → parseModelsString (join [comma] ms) = ms.
Proof.
  intros Hf. destruct (decide (ms = [])) as [->|Hne]; [done|].
  unfold parseModelsString.
  destruct (join [comma] ms) as [|c s] eqn:E; [by apply join_model_names in E|].
  rewrite <- E, split_join; [|done|by eapply Forall_impl; [exact Hf|]; intros m (_ & _ & ?)].
  assert ((trim <$> ms) = ms) as ->.
  { clear -Hf. induction Hf as [|m ms (Hm & _) Hf IH]; csimpl; congruence. }
  apply filter_all. eapply Forall_impl; [exact Hf|]. by intros m (_ & ? & _).
Qed.

Lemma set_of_Forall {A} `{EqDecision A} (P : A → Prop) l : Forall P l → Forall P (set_of l).
Proof. rewrite !Forall_forall. setoid_rewrite elem_of_set_of. done. Qed.

(** Storing a list of model names and reading it back gives the same names,
    each once, in order of first occurrence; and a stored text re-saved is
    stable from the first save on. *)
Theorem models_roundtrip (models : list jsstring) (Hnames : Forall model_name models) :
  parseModelsString (formatModelsArray models) = set_of models ∧
  ∀ text, let saved := formatModelsArray (parseModelsString text) in
          formatModelsArray (parseModelsString saved) = saved.
Proof.
  split.
  - unfold formatModelsArray. by apply parse_join_models, set_of_Forall.
  - intros text. unfold formatModelsArray. cbv zeta.
    rewrite parse_join_models by (apply set_of_Forall, parseModelsString_names).
    by rewrite set_of_idemp.
Qed.

Lemma models_roundtrip_witness :
  parseModelsString (formatModelsArray [js "gpt-4o"; js "o3 mini"; js "gpt-4o"]) =
  [js "gpt-4o"; js "o3 mini"].
Proof.
  assert (Forall model_name [js "gpt-4o"; js "o3 mini"; js "gpt-4o"]) as H.
  { apply (bool_decide_unpack _). vm_compute. exact I. }
  destruct (models_roundtrip _ H) as [-> _]. vm_compute; reflexivity.
Defined.

Lemma elem_of_missing mapping models parsed m :
  trim mapping ≠ [] → parse_object mapping = Some parsed →
  m ∈ findMissingModelsInMapping mapping models ↔
  m ≠ [] ∧ (∃ key, key ∈ parsed.*1 ∧ m = trim key) ∧ m ∉ (trim <$> models).
Proof.
  intros Hne Hp. unfold findMissingModelsInMapping, normalizeModelName.
  destruct (trim mapping); [done|]. rewrite Hp, elem_of_set_of, list_elem_of_filter.
  rewrite set_has_false, elem_of_set_of. split.
  - intros [[Hm Hn] (k & -> & Hk)%list_elem_of_fmap]. split_and!; eauto.
  - intros (Hm & (k & Hk & ->) & Hn). split_and!; [done..|]. by apply list_elem_of_fmap_2.
Qed.

(** The models reported missing are exactly the non-empty (trimmed) keys of
    the mapping that are not in the channel's model list, each once; and adding
    them to the list leaves nothing missing. *)
Theorem missing_models_exact (mapping : jsstring) (models : list jsstring)
    (parsed : list (jsstring * jsval))
    (Htext : trim mapping ≠ []) (Hparse : parse_object mapping = Some parsed) :
  let missing := findMissingModelsInMapping mapping models in
  NoDup missing ∧
  (∀ m, m ∈ missing ↔ m ≠ [] ∧ (∃ key, key ∈ parsed.*1 ∧ m = trim key) ∧ m ∉ (trim <$> models)) ∧
  findMissingModelsInMapping mapping (models ++ missing) = [].
Proof.
  cbv zeta. split; [|split].
  - unfold findMissingModelsInMapping. destruct (trim mapping); [constructor|].
    rewrite Hparse. apply NoDup_set_of.
  - intros m. by apply elem_of_missing.
  - destruct (findMissingModelsInMapping mapping (models ++ _)) as [|m l] eqn:E; [done|].
    assert (m ∈ findMissingModelsInMapping mapping
      (models ++ findMissingModelsInMapping mapping models)) as Hm by (rewrite E; left).
    apply (elem_of_missing _ _ parsed) in Hm as (Hne & Hk & Hn); [|done..].
    rewrite fmap_app, not_elem_of_app in Hn. destruct Hn as [Hn1 Hn2].
    exfalso. apply Hn2, list_elem_of_fmap. exists m. split.
    + destruct Hk as (key & _ & ->). by rewrite trim_idemp.
    + by apply (elem_of_missing _ _ parsed).
Qed.

(** A mapping text for the witnesses: two sources, one target in the list. *)
Definition sample_mapping : jsstring :=
  [123; 34; 97; 34; 58; 34; 98; 34; 44; 34; 99; 34; 58; 34; 100; 34; 125]%N.

Lemma missing_models_exact_witness :
  findMissingModelsInMapping sample_mapping [js "a "; js "b"] = [js "c"] ∧
  findMissingModelsInMapping sample_mapping
    ([js "a "; js "b"] ++ findMissingModelsInMapping sample_mapping [js "a "; js "b"]) = [].
Proof.
  split; [vm_compute; reflexivity|].
  apply (missing_models_exact sample_mapping [js "a "; js "b"]
    [(js "a", JStr (js "b")); (js "c", JStr (js "d"))]).
  - vm_compute; discriminate.
  - vm_compute; reflexivity.
Defined.

Lemma redirect_models_trimmed mapping m : m ∈ extractRedirectModels mapping → trim m = m.
Proof.
  unfold extractRedirectModels. destruct (trim mapping); [by intros ?%elem_of_nil|].
  destruct (parse_object _); [|by intros ?%elem_of_nil].
  rewrite elem_of_set_of, list_elem_of_filter, list_elem_of_omap.
  intros (_ & v & _ & (t & _ & ->)%fmap_Some). apply trim_idemp.
Qed.

(** The exposed targets are exactly the mapping's redirect targets that the
    model list also contains, and removing them from the list leaves none
    exposed. *)
Theorem exposed_targets_exact (mapping : jsstring) (models : list jsstring) :
  let exposed := findExposedTargetModels mapping models in
  (∀ m, m ∈ exposed ↔ m ∈ extractRedirectModels mapping ∧ m ∈ (trim <$> models)) ∧
  findExposedTargetModels mapping (filter (λ m, trim m ∉ exposed) models) = [].
Proof.
  assert (∀ ms m, m ∈ findExposedTargetModels mapping ms ↔
    m ∈ extractRedirectModels mapping ∧ m ∈ (trim <$> ms)) as H.
  { intros ms m. unfold findExposedTargetModels, normalizeModelName.
    pose proof (redirect_models_trimmed mapping m) as Ht.
    destruct (extractRedirectModels mapping) as [|r rs] eqn:E.
    - rewrite elem_of_nil. tauto.
    - rewrite list_elem_of_filter, set_has_spec, elem_of_set_of. split.
      + intros [Hm Hin]. split; [done|]. by rewrite Ht in Hm.
      + intros [Hin Hm]. split; [|done]. by rewrite Ht. }
  cbv zeta. split; [apply H|].
  destruct (findExposedTargetModels mapping (filter _ models)) as [|m l] eqn:E; [done|].
  assert (m ∈ findExposedTargetModels mapping
    (filter (λ m, trim m ∉ findExposedTargetModels mapping models) models)) as Hm
    by (rewrite E; left).
  apply H in Hm as [Hr (x & -> & Hx)%list_elem_of_fmap].
  apply list_elem_of_filter in Hx as [Hn Hx]. exfalso. apply Hn, H.
  split; [done|]. by apply list_elem_of_fmap_2.
Qed.

(** The categories shown by the model picker split the known models: the
    classification holds the current and the redirect models, the redirect-only
    part is what the current part lacks, the two are disjoint and together they
    are the classification; no category repeats a model. *)
Theorem categories_partition (currentModels redirectModels : list jsstring) :
  let c := categorizeModelsWithRedirect currentModels redirectModels in
  (∀ m, m ∈ classificationSet c ↔
        m ∈ normalizedCurrentModels c ∨ m ∈ redirectOnlySet c) ∧
  (∀ m, m ∈ redirectOnlySet c ↔
        m ∈ normalizedRedirectModels c ∧ m ∉ normalizedCurrentModels c) ∧
  NoDup (normalizedCurrentModels c) ∧ NoDup (normalizedRedirectModels c) ∧
  NoDup (classificationSet c) ∧ NoDup (redirectOnlySet c) ∧ [] ∉ classificationSet c.
Proof.
  unfold categorizeModelsWithRedirect. cbn [normalizedCurrentModels normalizedRedirectModels
    classificationSet redirectOnlySet].
  set (cur := set_of (filter _ (_ <$> currentModels))). set (red := set_of (filter _ (_ <$> redirectModels))).
  assert (∀ m, m ∈ set_of (filter (λ m, set_has m cur = false) red) ↔ m ∈ red ∧ m ∉ cur) as Ho.
  { intros m. rewrite elem_of_set_of, list_elem_of_filter, set_has_false. tauto. }
  split_and!; try apply NoDup_set_of; [|exact Ho|].
  - intros m. rewrite Ho, elem_of_set_of, elem_of_app.
    destruct (decide (m ∈ cur)); tauto.
  - unfold cur, red. rewrite elem_of_set_of, elem_of_app, !elem_of_set_of, !list_elem_of_filter.
    tauto.
Qed.

(** An edit counts as a change unless the channel existed before, its model
    list is the same list and its mapping text is the same up to surrounding
    white space. *)
Theorem config_unchanged_iff (cur ini : list jsstring) (curMap iniMap : jsstring) :
  hasModelConfigChanged cur curMap ini iniMap = false ↔
  (ini ≠ [] ∨ iniMap ≠ []) ∧ cur = ini ∧ trim curMap = trim iniMap.
Proof.
  assert (∀ a b : list jsstring, length a = length b →
    forallb (λ '(a, b), bool_decide (a = b)) (zip a b) = true ↔ a = b) as Hz.
  { induction a as [|x a IH]; intros [|y b]; simpl; try done. intros Hl.
    rewrite andb_true_iff, bool_decide_eq_true, IH by lia. naive_solver. }
  unfold hasModelConfigChanged.
  destruct (bool_decide (ini = []) && bool_decide (iniMap = [])) eqn:E1.
  { boolify. split; [done|]. naive_solver. }
  apply andb_false_iff in E1. rewrite !bool_decide_eq_false in E1.
  destruct (length cur =? length ini)%nat eqn:E2; simpl.
  2:{ apply Nat.eqb_neq in E2. split; [done|]. naive_solver. }
  apply Nat.eqb_eq in E2. specialize (Hz cur ini E2).
  destruct (forallb _ _) eqn:E3; simpl.
  - rewrite negb_false_iff, bool_decide_eq_true. naive_solver.
  - split; [done|]. naive_solver.
Qed.

(** A mapping text is accepted exactly when it is blank or a JSON object
    whose values are all strings; a rejection always carries its message, and
    for an accepted object the redirect targets are all its non-blank values. *)
Theorem validate_mapping_iff (mapping : jsstring) :
  let v := validateModelMappingJson mapping in
  (valid v = true ↔ trim mapping = [] ∨
     ∃ parsed, parse_object mapping = Some parsed ∧
               ∀ k x, (k, x) ∈ parsed → ∃ s, x = JStr s) ∧
  (valid v = false ↔ is_Some (error v)).
Proof.
  unfold validateModelMappingJson, parse_object.
  destruct (trim mapping) as [|c t]; [split; [naive_solver|]; split; [done|by intros []]|].
  destruct (JSON_parse mapping) as [[| | | | | |ps]|]; simpl;
    try (split; [split; [done|intros [?|(? & ? & _)]; done]|split; [eauto|done]]).
  assert (existsb (λ v, negb (is_string v)) ps.*2 = false ↔
    ∀ k x, (k, x) ∈ ps → ∃ s, x = JStr s) as H.
  { induction ps as [|[k x] ps IH]; csimpl.
    - split; [|done]. intros _ k x ?%elem_of_nil. done.
    - rewrite orb_false_iff, IH, negb_false_iff. split.
      + intros [Hx H] k' x' [[= -> ->]|Hin]%elem_of_cons; [|eauto].
        destruct x; try done. eauto.
      + intros H. split; [destruct (H k x ltac:(left)) as [s ->]; done|].
        intros k' x' Hin. apply (H k'). by right. }
  destruct (existsb _ _) eqn:E; simpl.
  - split; [|split; [eauto|done]]. split; [done|].
    intros [?|(ps' & [= <-] & H')]; [done|]. apply H in H'. congruence.
  - split; [|split; [done|by intros []]]. split; [|done]. intros _. right. exists ps.
    split; [done|]. by apply H.
Qed.

End ModelMapping.

(** ** Pending upstream model changes *)
Module UpstreamUpdate.

(** The error of calling [.map] on something that is not an array. *)
Inductive error := TypeError.

(** [(models || []).map(String(model || '').trim()).filter(Boolean)] through a
    [Set]; a truthy argument that is not an array has no [map] method. *)
Definition normalizeModelList (models : jsval) : res error (list jsstring) :=
  if negb (truthy models) then Ok []
  else
    match models with
    | JArr l =>
        Ok (set_of (filter (λ m, m ≠ [])
          ((λ model, trim (if truthy model then to_string model else [])) <$> l)))
    | _ => Throw TypeError
    end.

Record UpstreamUpdateMeta := {
  enabled : bool;
  pendingAddModels : list jsstring;
  pendingRemoveModels : list jsstring;
}.

Definition parseUpstreamUpdateMeta (settings : jsval) : res error UpstreamUpdateMeta :=
  let parsed :=
    match settings with
    | JObj _ => settings
    | JStr s => default JNull (JSON_parse s)
    | _ => JNull
    end in
  if negb (is_object parsed) then
    Ok {| enabled := false; pendingAddModels := []; pendingRemoveModels := [] |}
  else
    add ← normalizeModelList (prop "upstream_model_update_last_detected_models" parsed);
    remove ← normalizeModelList (prop "upstream_model_update_last_removed_models" parsed);
    Ok {| enabled := match prop "upstream_model_update_check_enabled" parsed with
                     | JBool b => b | _ => false end;
          pendingAddModels := add;
          pendingRemoveModels := remove |}.

Lemma normalizeModelList_Ok v l :
  normalizeModelList v = Ok l → NoDup l ∧ ∀ m, m ∈ l → m ≠ [] ∧ trim m = m.
Proof.
  unfold normalizeModelList. case_match.
  - intros [= <-]. split; [constructor|by intros m ?%elem_of_nil].
  - destruct v; try done. intros [= <-]. split; [apply NoDup_set_of|]. intros m.
    rewrite elem_of_set_of, list_elem_of_filter, list_elem_of_fmap.
    intros (Hne & x & -> & _). split; [done|apply trim_idemp].
Qed.

(** The pending lists read from a channel's settings hold distinct,
    non-empty, trimmed model names, and reading settings text that is not a JSON
    object reports no pending change. *)
Theorem upstream_meta_clean (settings : jsval) (meta : UpstreamUpdateMeta)
    (Hmeta : parseUpstreamUpdateMeta settings = Ok meta) :
  (∀ m, m ∈ pendingAddModels meta ∨ m ∈ pendingRemoveModels meta → m ≠ [] ∧ trim m = m) ∧
  NoDup (pendingAddModels meta) ∧ NoDup (pendingRemoveModels meta) ∧
  (∀ s, settings = JStr s → JSON_parse s = None →
        enabled meta = false ∧ pendingAddModels meta = [] ∧ pendingRemoveModels meta = []).
Proof.
  unfold parseUpstreamUpdateMeta in Hmeta.
  set (parsed := match settings with JObj _ => _ | _ => _ end) in Hmeta.
  destruct (is_object parsed) eqn:Ho; simpl in Hmeta; unfold mbind, res_bind in Hmeta.
  - destruct (normalizeModelList (prop _ parsed)) as [add|] eqn:Ea in Hmeta; [|done].
    destruct (normalizeModelList (prop _ parsed)) as [rem|] eqn:Er in Hmeta; [|done].
    injection Hmeta as <-. apply normalizeModelList_Ok in Ea as [? Ha], Er as [? Hr].
    simpl. split_and!; [naive_solver|done|done|].
    intros s -> Hs. subst parsed. by rewrite Hs in Ho.
  - injection Hmeta as <-. simpl.
    split; [intros m [?%elem_of_nil|?%elem_of_nil]; done|].
    split; [constructor|split; [constructor|done]].
Qed.

Lemma upstream_meta_clean_witness :
  NoDup (pendingAddModels {| enabled := true;
    pendingAddModels := [js "x"; js "y"]; pendingRemoveModels := [] |}).
Proof.
  apply (upstream_meta_clean
    (JObj [(js "upstream_model_update_check_enabled", JBool true);
           (js "upstream_model_update_last_detected_models",
            JArr [JStr (js " x"); JNull; JStr (js "y"); JStr (js "x ")])])).
  vm_compute; reflexivity.
Defined.

End UpstreamUpdate.
