(* ===== verification/MiniApi.v ===== *)
(** The mini program's API client
    (miniapp/src/lib/api.ts, session.ts, pending-text-test.ts).

    State: the clock, the module variable [currentSession] of session.ts, the
    module variable [pendingIdentityTicket] of auth-service.ts and
    [checkoutWebURL] of commerce-service.ts (their files share this state), and
    the platform's storage.  An operation is a function from the state to its
    value or thrown error, the state it leaves and the calls it made to the
    platform.

    Parameters, for code outside the repository: the platform's storage
    ([TaroStorage]), its network and login ([TaroIO]), the URL parser of the
    host ([UrlHost]) and the two build-time constants.  While an operation
    awaits the platform, other code may run: the platform's answer comes with
    the state it leaves, and nothing is assumed of that state. *)
From S2P Require Import Prelude JsString JsValue.
Open Scope Z_scope.

(** ** Parameters of the platform *)

(** A parsed URL, with the fields the code reads. *)
Record URL := {
  url_href : jsstring;
  url_protocol : jsstring;
  url_origin : jsstring;
  url_username : jsstring;
  url_password : jsstring;
  url_hostname : jsstring;
  url_pathname : jsstring;
  url_search : jsstring;
  url_hash : jsstring;
}.

(** [new URL(s)] ([None] when it throws) and the pairs of
    [new URLSearchParams(s)]. *)
Class UrlHost := {
  parse_url : jsstring → option URL;
  search_params : jsstring → list (jsstring * jsstring);
}.

(** Synchronous storage; each call may throw. *)
Class TaroStorage (ST : Type) := {
  getStorageSync : string → ST → option jsval;
  setStorageSync : string → jsstring → ST → option ST;
  removeStorageSync : string → ST → option ST;
}.

(** What the documentation promises: a value set is read back, a removed key
    reads as no string at all that the code accepts. *)
Class TaroStorageLaws (ST : Type) `{!TaroStorage ST} : Prop := {
  storage_get_set k v st st' :
    setStorageSync k v st = Some st' → getStorageSync k st' = Some (JStr v);
  storage_get_removed k st st' :
    removeStorageSync k st = Some st' → getStorageSync k st' = Some (JStr []);
}.

Inductive ApiMethod := GET | POST | PUT | PATCH | DELETE.
#[export] Instance ApiMethod_eq_dec : EqDecision ApiMethod.
Proof. solve_decision. Defined.

(** What is handed to [Taro.request]. *)
Record TaroRequest := {
  req_url : jsstring;
  req_method : ApiMethod;
  req_data : jsval;
  req_header : list (jsstring * jsstring);
  req_timeout : Z;
}.

Record TaroResponse := {
  statusCode : Z;
  resp_header : jsval;
  resp_data : jsval;
}.

(** Calls an operation makes to the platform, in order. *)
Inductive Call :=
| CallRequest (r : TaroRequest)
| CallLogin
| CallRandom (n : Z).

Record MiniAppSession := {
  accessToken : jsstring;
  accessExpiresAt : jsnum;
  sid : jsstring;
}.

Record MiniState (ST : Type) := mkState {
  now_ms : Z;
  currentSession : option MiniAppSession;
  pendingIdentityTicket : option jsstring;
  checkoutWebURL : option jsstring;
  storage : ST;
}.
Arguments mkState {ST}.
Arguments now_ms {ST}.
Arguments currentSession {ST}.
Arguments pendingIdentityTicket {ST}.
Arguments checkoutWebURL {ST}.
Arguments storage {ST}.

(** The network, the platform login and its random source: an answer, or a
    rejection, with the state left by whatever ran meanwhile. *)
Class TaroIO (ST : Type) := {
  taro_request : TaroRequest → MiniState ST → option TaroResponse * MiniState ST;
  taro_login : MiniState ST → option jsval * MiniState ST;
  taro_random : MiniState ST → option (list N) * MiniState ST;
  fresh_request_id : MiniState ST → jsstring;
}.

(** Build-time constants, [None] when they are not strings. *)
Class MiniConfig := {
  MINIAPP_API_BASE_URL : option jsstring;
  MINIAPP_BINDING_ORIGIN : option jsstring;
}.

(** ** Errors *)

(** [code] is copied from the response body without a check, so it is any value. *)
Record MiniAppApiError := {
  code : jsval;
  message : jsstring;
  status : Z;
  requestId : option jsstring;
}.

Inductive MiniError :=
| ApiError (e : MiniAppApiError)
| AuthError (code message : string)
| TypeError
| URIError
| PlatformError.

Definition apiError (c m : string) (st : Z) (rid : option jsstring) : MiniError :=
  ApiError {| code := JStr (js c); message := js m; status := st; requestId := rid |}.

(** ** Operations on the state *)
Definition M (ST A : Type) : Type :=
  MiniState ST → res MiniError A * MiniState ST * list Call.

Section ops.
Context {ST : Type}.

#[export] Instance M_ret : MRet (M ST) := λ A a s, (Ok a, s, []).
#[export] Instance M_bind : MBind (M ST) := λ A B f m s,
  match m s with
  | (Ok a, s', t) => let '(r, s'', t') := f a s' in (r, s'', t ++ t')
  | (Throw e, s', t) => (Throw e, s', t)
  end.

Definition throw {A} (e : MiniError) : M ST A := λ s, (Throw e, s, []).
Definition get : M ST (MiniState ST) := λ s, (Ok s, s, []).
Definition put (s' : MiniState ST) : M ST () := λ s, (Ok tt, s', []).
Definition lift {A} (r : res MiniError A) : M ST A := λ s, (r, s, []).

Definition set_session (x : option MiniAppSession) (s : MiniState ST) : MiniState ST :=
  mkState (now_ms s) x (pendingIdentityTicket s) (checkoutWebURL s) (storage s).
Definition set_ticket (x : option jsstring) (s : MiniState ST) : MiniState ST :=
  mkState (now_ms s) (currentSession s) x (checkoutWebURL s) (storage s).
Definition set_checkout (x : option jsstring) (s : MiniState ST) : MiniState ST :=
  mkState (now_ms s) (currentSession s) (pendingIdentityTicket s) x (storage s).
Definition set_storage (x : ST) (s : MiniState ST) : MiniState ST :=
  mkState (now_ms s) (currentSession s) (pendingIdentityTicket s) (checkoutWebURL s) x.

Context `{!TaroStorage ST}.

(** *** pending-text-test.ts *)
Definition pendingTextTestRequestIDStorageKey : string :=
  "miniapp.pending-text-test-request-id.v1".

Definition is_hex (c : N) : bool :=
  is_digit c || in_range 65 c 70 || in_range 97 c 102.

(** The positions of the dashes in a UUID. *)
Definition uuid_dash (i : nat) : bool := bool_decide (i ∈ [8; 13; 18; 23]%nat).

Definition is_variant (c : N) : bool := bool_decide (c ∈ [56; 57; 97; 98; 65; 66]%N).

(** One position of the pattern: a dash, the version, the variant, or any
    hexadecimal digit; the [i] flag admits both cases. *)
Definition uuid_unit (i : nat) (c : N) : bool :=
  if uuid_dash i then (c =? 45)%N
  else if (i =? 14)%nat then (c =? 52)%N
  else if (i =? 19)%nat then is_variant c
  else is_hex c.

Definition uuidV4Pattern (s : jsstring) : bool :=
  (length s =? 36)%nat && forallb (λ '(i, c), uuid_unit i c) (imap pair s).

Definition isTextTestRequestID (v : jsval) : option jsstring :=
  match v with
  | JStr s => if uuidV4Pattern s then Some s else None
  | _ => None
  end.

Definition clearPendingTextTestRequestID (s : MiniState ST) : MiniState ST :=
  match removeStorageSync pendingTextTestRequestIDStorageKey (storage s) with
  | Some st => set_storage st s
  | None => s
  end.

Definition getPendingTextTestRequestID (s : MiniState ST) : option jsstring * MiniState ST :=
  match getStorageSync pendingTextTestRequestIDStorageKey (storage s) with
  | None => (None, s)
  | Some v =>
      match isTextTestRequestID v with
      | Some id => (Some id, s)
      | None => (None, clearPendingTextTestRequestID s)
      end
  end.

Definition setPendingTextTestRequestID (requestID : option jsstring) (s : MiniState ST) :
    MiniState ST :=
  match requestID with
  | None => clearPendingTextTestRequestID s
  | Some id =>
      if negb (uuidV4Pattern id) then clearPendingTextTestRequestID s
      else
        match setStorageSync pendingTextTestRequestIDStorageKey id (storage s) with
        | Some st => set_storage st s
        | None => s
        end
  end.

(** *** session.ts *)
Definition now_seconds (s : MiniState ST) : Z := now_ms s / 1000.

Definition setMiniAppSession (session : MiniAppSession) (s : MiniState ST) : MiniState ST :=
  set_session (Some {| accessToken := trim (accessToken session);
                       accessExpiresAt := accessExpiresAt session;
                       sid := trim (sid session) |}) s.

Definition clearMiniAppSession (s : MiniState ST) : MiniState ST :=
  clearPendingTextTestRequestID (set_session None s).

Definition getMiniAppSession (s : MiniState ST) : option MiniAppSession * MiniState ST :=
  match currentSession s with
  | None => (None, s)
  | Some x =>
      if num_leb (accessExpiresAt x) (num_of_Z (now_seconds s))
      then (None, clearMiniAppSession s)
      else (Some x, s)
  end.

Definition getMiniAppSessionM : M ST (option MiniAppSession) :=
  λ s, let '(r, s') := getMiniAppSession s in (Ok r, s', []).
Definition modify (f : MiniState ST → MiniState ST) : M ST () := λ s, (Ok tt, f s, []).

(** *** api.ts *)
Definition requestTimeout : Z := 10000.
Definition maximumRequestTimeout : Z := 20000.
Definition miniAppApiPath : jsstring := js "/api/miniapp/v1".

Inductive RequestAuth :=
| AuthSession
| AuthBearer (bearerToken : jsstring).

Record ApiRequestOptions := {
  opt_path : jsstring;
  opt_method : ApiMethod;
  opt_data : jsval;
  opt_auth : option RequestAuth;
  opt_timeout : option Z;
}.

Definition config_error (m : string) : MiniError := apiError "MINIAPP_CONFIG_ERROR" m 0 None.

(** [s.replace(/\/$/, '')]. *)
Definition strip_slash (s : jsstring) : jsstring :=
  if bool_decide (last s = Some 47%N) then take (pred (length s)) s else s.

Definition getBaseUrl `{!UrlHost, !MiniConfig} : res MiniError jsstring :=
  let baseUrl := trim (default [] MINIAPP_API_BASE_URL) in
  match baseUrl with
  | [] => Throw (config_error "Mini Program API is not configured")
  | _ =>
      match parse_url baseUrl with
      | None => Throw (config_error "Mini Program API URL is invalid")
      | Some u =>
          if negb (bool_decide (url_protocol u = js "https:")) || bool_decide (url_hostname u = [])
             || negb (bool_decide (url_search u = [])) || negb (bool_decide (url_hash u = []))
          then Throw (config_error "Mini Program API URL must be an HTTPS origin")
          else Ok (strip_slash (url_href u))
      end
  end.

Definition getRequestUrl `{!UrlHost, !MiniConfig} (path : jsstring) : res MiniError jsstring :=
  if negb (starts_with (js "/") path)
  then Throw (config_error "Mini Program API path is invalid")
  else base ← getBaseUrl; Ok (base ++ miniAppApiPath ++ path).

(** Header names are compared without regard to case; an array's entries have
    index names, which match no header. *)
Definition getHeaderValue (headers : jsval) (name : string) : option jsstring :=
  match headers with
  | JObj ps =>
      head (omap (λ '(key, value),
        if bool_decide (to_lower key = to_lower (js name)) then as_string value else None) ps)
  | _ => None
  end.

Definition sessionError (c : jsval) (st : Z) : bool :=
  (st =? 401) || is_lit c "MINIAPP_SESSION_INVALID" || is_lit c "AUTH_UNAUTHORIZED".

(** A body with a boolean [success]; [None] is null. *)
Definition asEnvelope (v : jsval) : option jsval :=
  match v with
  | JArr _ | JObj _ => match prop "success" v with JBool _ => Some v | _ => None end
  | _ => None
  end.

(** [x ?? y]. *)
Definition nullish (x y : jsval) : jsval :=
  match x with JUndef | JNull => y | _ => x end.

(** [envelope.message?.trim()] throws when the message is there and is no string. *)
Definition toApiError (st : Z) (envelope : option jsval) (rid : option jsstring) :
    res MiniError MiniAppApiError :=
  match envelope with
  | None =>
      Ok {| code := JStr (js "MINIAPP_INVALID_RESPONSE");
            message := js "Mini Program API returned an invalid response";
            status := st; requestId := rid |}
  | Some e =>
      match prop "message" e with
      | JUndef | JNull | JStr _ =>
          let m := match prop "message" e with JStr t => trim t | _ => [] end in
          Ok {| code := nullish (prop "code" e) (JStr (js "MINIAPP_REQUEST_FAILED"));
                message := match m with [] => js "Mini Program request failed" | _ => m end;
                status := st; requestId := rid |}
      | _ => Throw TypeError
      end
  end.

(** Body of the [try] of one attempt, after the response arrived: retry with an
    error kept, throw, or return. *)
Inductive Attempt :=
| Retry (e : MiniAppApiError)
| Fail (e : MiniAppApiError)
| Done (data : jsval)
| Crash.

Definition judge (options : ApiRequestOptions) (rid : jsstring) (more : bool)
    (response : TaroResponse) : Attempt :=
  let responseRequestId :=
    default rid (getHeaderValue (resp_header response) "x-oneapi-request-id") in
  let envelope := asEnvelope (resp_data response) in
  if (500 <=? statusCode response) && bool_decide (opt_method options = GET) && more then
    match toApiError (statusCode response) envelope (Some responseRequestId) with
    | Ok e => Retry e
    | Throw _ => Crash
    end
  else
    let success := match envelope with
                   | Some e => match prop "success" e with JBool b => b | _ => false end
                   | None => false
                   end in
    if (statusCode response <? 200) || (300 <=? statusCode response) || negb success then
      match toApiError (statusCode response) envelope (Some responseRequestId) with
      | Ok e => Fail e
      | Throw _ => Crash
      end
    else Done (match envelope with Some e => prop "data" e | None => JUndef end).

Definition network_error (rid : jsstring) : MiniAppApiError :=
  {| code := JStr (js "MINIAPP_NETWORK_ERROR");
     message := js "Mini Program network request failed"; status := 0; requestId := Some rid |}.

(** The [for] loop: [remaining] attempts are left, this one included. *)
Fixpoint attempts `{!TaroIO ST} (remaining : nat) (options : ApiRequestOptions)
    (req : TaroRequest) (rid : jsstring) (lastError : option MiniAppApiError) : M ST jsval :=
  match remaining with
  | O => throw (ApiError (default (network_error rid) lastError))
  | S remaining => λ s,
      let more := (0 <? remaining)%nat in
      let '(answer, s1) := taro_request req s in
      let caught : M ST jsval :=
        if negb (bool_decide (opt_method options = GET)) || negb more
        then throw (ApiError (network_error rid))
        else attempts remaining options req rid (Some (network_error rid)) in
      let '(r, s2, t) :=
        match answer with
        | None => caught s1
        | Some response =>
            match judge options rid more response with
            | Retry e => attempts remaining options req rid (Some e) s1
            | Fail e =>
                let s1' := match opt_auth options with
                           | Some AuthSession =>
                               if sessionError (code e) (status e) then clearMiniAppSession s1 else s1
                           | _ => s1
                           end in
                (Throw (ApiError e), s1', [])
            | Done data => (Ok data, s1, [])
            | Crash => caught s1
            end
        end in
      (r, s2, CallRequest req :: t)
  end.

Definition content_type : jsstring * jsstring := (js "content-type", js "application/json").

Definition authorization (token : jsstring) : jsstring * jsstring :=
  (js "Authorization", js "Bearer " ++ token).

(** The headers an authorisation mode adds. *)
Definition auth_header (auth : option RequestAuth) : M ST (list (jsstring * jsstring)) :=
  match auth with
  | None => mret [content_type]
  | Some AuthSession =>
      session ← getMiniAppSessionM;
      match session with
      | None => throw (apiError "MINIAPP_SESSION_UNAVAILABLE" "Mini Program session is unavailable" 0 None)
      | Some x => mret [content_type; authorization (accessToken x)]
      end
  | Some (AuthBearer bearerToken) =>
      match trim bearerToken with
      | [] => throw (apiError "MINIAPP_AUTH_UNAVAILABLE" "Mini Program authorization is unavailable" 0 None)
      | token => mret [content_type; authorization token]
      end
  end.

Definition attemptLimit (m : ApiMethod) : nat := if decide (m = GET) then 2 else 1.

(** The part of [request] before the loop: the request to send and its id. *)
Definition prepare `{!UrlHost, !MiniConfig, !TaroIO ST} (options : ApiRequestOptions) :
    M ST (TaroRequest * jsstring) :=
  url ← lift (getRequestUrl (opt_path options));
  let timeout := default requestTimeout (opt_timeout options) in
  if (timeout <=? 0) || (maximumRequestTimeout <? timeout)
  then throw (config_error "Mini Program API timeout is invalid")
  else
    s0 ← get;
    let rid := fresh_request_id s0 in
    header ← auth_header (opt_auth options);
    mret ({| req_url := url; req_method := opt_method options; req_data := opt_data options;
             req_header := header; req_timeout := timeout |}, rid).

Definition request `{!UrlHost, !MiniConfig, !TaroIO ST} (options : ApiRequestOptions) : M ST jsval :=
  '(req, rid) ← prepare options;
  attempts (attemptLimit (opt_method options)) options req rid None.
End ops.

(** ** Properties of the client *)
Section facts.
Context {ST : Type} `{!TaroStorage ST, !UrlHost, !MiniConfig, !TaroIO ST}.
Implicit Types (s : MiniState ST) (options : ApiRequestOptions).

Lemma bind_inv {A B} (m : M ST A) (f : A → M ST B) s r s' t :
  (m ≫= f) s = (r, s', t) →
  (∃ e t1, m s = (Throw e, s', t) ∧ r = Throw e ∧ t1 = t) ∨
  (∃ a s1 t1 t2, m s = (Ok a, s1, t1) ∧ f a s1 = (r, s', t2) ∧ t = t1 ++ t2).
Proof.
  unfold mbind, M_bind. destruct (m s) as [[[a|e] s1] t1].
  - destruct (f a s1) as [[r2 s2] t2] eqn:E. intros [= <- <- <-]. right. eauto 10.
  - intros [= <- <- <-]. left. eauto.
Qed.

Lemma currentSession_clear s : currentSession (clearMiniAppSession s) = None.
Proof. unfold clearMiniAppSession, clearPendingTextTestRequestID. by case_match. Qed.

Lemma pendingTicket_clear s :
  pendingIdentityTicket (clearMiniAppSession s) = pendingIdentityTicket s.
Proof. unfold clearMiniAppSession, clearPendingTextTestRequestID. by case_match. Qed.

(** What [attempts] does, whatever the platform answers. *)
Record attempts_post (options : ApiRequestOptions) (req : TaroRequest) (remaining : nat)
    (r : res MiniError jsval) (s' : MiniState ST) (t : list Call) : Prop := {
  ap_calls : ∃ n, t = replicate n (CallRequest req) ∧ (1 <= n <= remaining)%nat ∧
    (opt_method options ≠ GET → n = 1%nat);
  ap_throw : ∀ e, r = Throw e → ∃ a, e = ApiError a ∧
    (opt_auth options = Some AuthSession → sessionError (code a) (status a) = true →
     currentSession s' = None);
  ap_ok : ∀ d, r = Ok d → ∃ s1 resp, taro_request req s1 = (Some resp, s') ∧
    200 <= statusCode resp < 300 ∧ prop "success" (resp_data resp) = JBool true ∧
    d = prop "data" (resp_data resp);
}.

Lemma judge_Done options rid more resp d :
  judge options rid more resp = Done d →
  200 <= statusCode resp < 300 ∧ prop "success" (resp_data resp) = JBool true ∧
  d = prop "data" (resp_data resp).
Proof.
  unfold judge. destruct (_ && _ && _).
  { by destruct (toApiError _ _ _). }
  destruct (asEnvelope (resp_data resp)) as [e|] eqn:He.
  2:{ simpl negb. by rewrite orb_true_r. }
  assert (e = resp_data resp) as ->.
  { unfold asEnvelope in He. destruct (resp_data resp); try done; case_match; congruence. }
  destruct (_ || _ || _) eqn:E; [by destruct (toApiError _ _ _)|]. intros [= <-].
  boolify. by case_match; simplify_eq.
Qed.

Lemma judge_Retry options rid resp e :
  judge options rid false resp = Retry e → False.
Proof. unfold judge. rewrite andb_false_r. repeat case_match; done. Qed.

Lemma judge_Retry_GET options rid more resp e :
  judge options rid more resp = Retry e → opt_method options = GET.
Proof.
  unfold judge. destruct (bool_decide (opt_method options = GET)) eqn:E; [by boolify|].
  rewrite andb_false_r. simpl. repeat case_match; done.
Qed.

Lemma network_not_session rid :
  sessionError (code (network_error rid)) (status (network_error rid)) = false.
Proof. reflexivity. Qed.

Lemma attempts_spec remaining options req rid le s r s' t :
  (0 < remaining)%nat →
  attempts remaining options req rid le s = (r, s', t) →
  attempts_post options req remaining r s' t.
Proof.
  revert le s r s' t. induction remaining as [|n IH]; intros le s r s' t Hpos; [lia|].
  cbn [attempts]. destruct (taro_request req s) as [answer s1] eqn:Hreq.
  set (more := (0 <? n)%nat).
  set (caught := if negb _ || negb more then _ else _).
  assert (∀ r2 s2 t2, caught s1 = (r2, s2, t2) →
    attempts_post options req (S n) r2 s2 (CallRequest req :: t2)) as Hcaught.
  { intros r2 s2 t2. unfold caught.
    destruct (negb (bool_decide (opt_method options = GET)) || negb more) eqn:Em.
    - intros [= <- <- <-]. split; [exists 1%nat; split_and!; [done|lia|lia|done]| |done].
      intros e [= <-]. eexists. split; [done|]. by rewrite network_not_session.
    - apply orb_false_iff in Em as [Hg Hm]. boolify. intros Hrun.
      apply Nat.ltb_lt in Hm. destruct (IH _ _ _ _ _ Hm Hrun) as [(k & -> & Hk & _) Ht Ho].
      split; [|done|done]. exists (S k). split_and!; [done|lia|lia|done]. }
  assert (∀ e le' r2 s2 t2, (∃ resp, judge options rid more resp = Retry e) →
    attempts n options req rid le' s1 = (r2, s2, t2) →
    attempts_post options req (S n) r2 s2 (CallRequest req :: t2)) as Hretry.
  { intros e le' r2 s2 t2 [resp Hj] Hrun. assert (0 < n)%nat as Hn.
    { destruct n; [|lia]. by apply judge_Retry in Hj. }
    pose proof (judge_Retry_GET _ _ _ _ _ Hj) as Hg.
    destruct (IH _ _ _ _ _ Hn Hrun) as [(k & -> & Hk & _) Ht Ho].
    split; [|done|done]. exists (S k). split_and!; [done|lia|lia|done]. }
  destruct answer as [resp|].
  2:{ destruct (caught s1) as [[r2 s2] t2] eqn:E. intros [= <- <- <-]. by apply Hcaught. }
  destruct (judge options rid more resp) as [e|e|d|] eqn:Hj.
  - destruct (attempts n options req rid (Some e) s1) as [[r2 s2] t2] eqn:E.
    intros [= <- <- <-]. eapply Hretry; eauto.
  - intros [= <- <- <-]. split; [exists 1%nat; split_and!; [done|lia|lia|done]| |done].
    intros ? [= <-]. exists e. split; [done|]. intros -> ->. apply currentSession_clear.
  - intros [= <- <- <-]. split; [exists 1%nat; split_and!; [done|lia|lia|done]|done|].
    intros ? [= <-]. exists s, resp. split; [done|]. by apply judge_Done in Hj.
  - destruct (caught s1) as [[r2 s2] t2] eqn:E. intros [= <- <- <-]. by apply Hcaught.
Qed.

Lemma getMiniAppSession_live s x s' :
  getMiniAppSession s = (Some x, s') →
  s' = s ∧ currentSession s = Some x ∧
  num_leb (accessExpiresAt x) (num_of_Z (now_seconds s)) = false.
Proof.
  unfold getMiniAppSession. destruct (currentSession s) as [y|]; [|done].
  case_match; [done|]. by intros [= <- <-].
Qed.

Lemma getMiniAppSession_dead s s' :
  getMiniAppSession s = (None, s') → currentSession s' = None.
Proof.
  unfold getMiniAppSession. destruct (currentSession s) as [y|] eqn:E; [|by intros [= <-]].
  case_match; [|done]. intros [= <-]. apply currentSession_clear.
Qed.

(** The headers a request carries for its authorisation mode. *)
Definition header_ok (auth : option RequestAuth) s (h : list (jsstring * jsstring)) : Prop :=
  match auth with
  | None => h = [content_type]
  | Some AuthSession => ∃ x, currentSession s = Some x ∧
      num_leb (accessExpiresAt x) (num_of_Z (now_seconds s)) = false ∧
      h = [content_type; authorization (accessToken x)]
  | Some (AuthBearer b) => trim b ≠ [] ∧ h = [content_type; authorization (trim b)]
  end.

Definition not_session_error (e : MiniError) : Prop :=
  match e with ApiError a => sessionError (code a) (status a) = false | _ => False end.

Lemma auth_header_cases auth s r s' t :
  auth_header auth s = (r, s', t) →
  t = [] ∧
  ((∃ h, r = Ok h ∧ s' = s ∧ header_ok auth s h) ∨
   (∃ e, r = Throw e ∧ not_session_error e ∧ (auth = Some AuthSession → currentSession s' = None))).
Proof.
  unfold auth_header. destruct auth as [[|b]|].
  - unfold getMiniAppSessionM, mbind, M_bind.
    destruct (getMiniAppSession s) as [[x|] s1] eqn:E; intros [= <- <- <-]; (split; [done|]).
    + left. apply getMiniAppSession_live in E as (-> & E1 & E2). eexists.
      split; [done|]. split; [done|]. exists x. done.
    + right. eexists. split; [done|]. split; [done|]. intros _. by apply getMiniAppSession_dead in E.
  - destruct (trim b) as [|c tk] eqn:E; intros [= <- <- <-]; (split; [done|]).
    + right. eexists. by split; [|split].
    + left. eexists. split; [done|]. split; [done|]. simpl. by rewrite E.
  - intros [= <- <- <-]. split; [done|]. left. simpl. eauto.
Qed.

Lemma getRequestUrl_throw path e : getRequestUrl path = Throw e → not_session_error e.
Proof.
  unfold getRequestUrl. case_match; [by intros [= <-]|].
  unfold mbind, res_bind. destruct getBaseUrl as [b|e'] eqn:E; [done|]. intros [= <-].
  unfold getBaseUrl in E. repeat case_match; simplify_eq; done.
Qed.

(** What a prepared request looks like. *)
Definition prepared options s (req : TaroRequest) : Prop :=
  req_method req = opt_method options ∧ req_data req = opt_data options ∧
  getRequestUrl (opt_path options) = Ok (req_url req) ∧
  0 < req_timeout req <= maximumRequestTimeout ∧ header_ok (opt_auth options) s (req_header req).

Lemma prepare_cases options s r s' t :
  prepare options s = (r, s', t) →
  t = [] ∧ ((∃ e, r = Throw e ∧ not_session_error e) ∨
            (∃ req rid, r = Ok (req, rid) ∧ s' = s ∧ prepared options s req)).
Proof.
  unfold prepare. intros [(e & t1 & Hl & -> & ->)|(url & s1 & t1 & t2 & Hl & Hrun & ->)]%bind_inv.
  { unfold lift in Hl. injection Hl as Hl <- <-. split; [done|]. left.
    exists e. split; [done|]. by apply getRequestUrl_throw in Hl. }
  unfold lift in Hl. injection Hl as Hl <- <-.
  destruct (_ || _) eqn:Et in Hrun.
  { injection Hrun as <- <- <-. split; [done|]. left. eexists. by split. }
  apply orb_false_iff in Et as [Ht1 Ht2]. boolify.
  apply bind_inv in Hrun as [(e & ? & [=] & _)|(s0 & ? & t3 & t4 & [= <- <- <-] & Hrun & ->)].
  apply bind_inv in Hrun
    as [(e & ? & Hh & -> & ->)|(h & s2 & t5 & t6 & Hh & Hrun & ->)].
  - apply auth_header_cases in Hh as [-> [(h & [=] & _)|(e' & [= <-] & He & _)]].
    split; [done|]. left. by exists e.
  - apply auth_header_cases in Hh as [-> [(h' & [= <-] & -> & Hok)|(e' & [=] & _)]].
    injection Hrun as <- <- <-. split; [done|]. right. eexists _, _. split; [done|].
    split; [done|]. split_and!; simpl; try done; lia.
Qed.

(** Either nothing is sent and the error is not a session error, or the request
    goes out as [attempts_post] says, built from the options and the session. *)
Lemma request_cases options s r s' t :
  request options s = (r, s', t) →
  (t = [] ∧ ∃ e, r = Throw e ∧ not_session_error e) ∨
  (∃ req, attempts_post options req (attemptLimit (opt_method options)) r s' t ∧
     prepared options s req).
Proof.
  unfold request.
  intros [(e & t1 & Hp & -> & ->)|([req rid] & s1 & t1 & t2 & Hp & Hrun & ->)]%bind_inv;
    apply prepare_cases in Hp as [-> [(e' & [= ->] & He)|(rq & rd & [= -> ->] & -> & Hreq)]].
  - left. eauto.
  - right. exists rq. split; [|done]. apply attempts_spec in Hrun; [done|].
    unfold attemptLimit. case_decide; lia.
Qed.

(** A request reaches the network at most once, or at most twice when it is a
    GET; a second attempt repeats the same request; what is sent carries the
    caller's method and data and a time-out between 1 and 20000 ms, and it is
    authorised with the unexpired session's token, with the given bearer token,
    or not at all, as the options say.  Without a live session a
    session-authorised request sends nothing. *)
Theorem request_sends options s r s' t (Hrun : request options s = (r, s', t)) :
  ∃ n req, t = replicate n (CallRequest req) ∧
    (n <= 2)%nat ∧ (opt_method options ≠ GET → (n <= 1)%nat) ∧
    ((0 < n)%nat →
      req_method req = opt_method options ∧ req_data req = opt_data options ∧
      0 < req_timeout req <= 20000 ∧ header_ok (opt_auth options) s (req_header req)).
Proof.
  apply request_cases in Hrun as [[-> _]|(req & Hp & Hm & Hd & _ & Ht & Hh)].
  - exists 0%nat, {| req_url := []; req_method := GET; req_data := JUndef;
                     req_header := []; req_timeout := 0 |}.
    split_and!; [done|lia|lia|lia].
  - destruct (ap_calls _ _ _ _ _ _ Hp) as (n & -> & Hn & Hg). exists n, req.
    assert (attemptLimit (opt_method options) <= 2)%nat
      by (unfold attemptLimit; case_decide; lia).
    split_and!; [done|lia|by intros ->%Hg|done].
Qed.

(** A successful request returns the [data] of a 2xx response whose body says
    success, in the state the platform left; and when a session-authorised
    request fails because the session is not accepted (status 401 or one of the
    two session codes), the session is cleared. *)
Theorem request_outcome options s r s' t (Hrun : request options s = (r, s', t)) :
  (∀ d, r = Ok d → ∃ req s1 resp, taro_request req s1 = (Some resp, s') ∧
     200 <= statusCode resp < 300 ∧ prop "success" (resp_data resp) = JBool true ∧
     d = prop "data" (resp_data resp)) ∧
  (∀ e, r = Throw (ApiError e) → opt_auth options = Some AuthSession →
     sessionError (code e) (status e) = true → currentSession s' = None) ∧
  (∀ e, r = Throw e → ∃ a, e = ApiError a).
Proof.
  apply request_cases in Hrun as [[-> (e & -> & He)]|(req & Hp & _)].
  - split_and!; [done| |].
    + intros e' [= ->] _ Hs. simpl in He. congruence.
    + intros e' [= <-]. destruct e; try done. eauto.
  - split_and!.
    + intros d Hd. destruct (ap_ok _ _ _ _ _ _ Hp d Hd) as (s1 & resp & H4). eauto.
    + intros e He Ha Hs. destruct (ap_throw _ _ _ _ _ _ Hp _ He) as (a & [= <-] & Hc). auto.
    + intros e He. destruct (ap_throw _ _ _ _ _ _ Hp _ He) as (a & -> & _). eauto.
Qed.
End facts.

(** ** Invariants of operations

    [preserves P m]: the operation [m] keeps [P], whatever it returns or throws.
    [Keeps P] is what the platform's interference has to satisfy. *)
Create HintDb preserves.

Section preserves.
Context {ST : Type} `{!TaroStorage ST, !UrlHost, !MiniConfig, !TaroIO ST}.
Context (P : MiniState ST → Prop).

Definition preserves {A} (m : M ST A) : Prop :=
  ∀ s r s' t, P s → m s = (r, s', t) → P s'.

Class Keeps : Prop := {
  keeps_request req s o s' : P s → taro_request req s = (o, s') → P s';
  keeps_login s o s' : P s → taro_login s = (o, s') → P s';
  keeps_random s o s' : P s → taro_random s = (o, s') → P s';
}.

Lemma preserves_bind {A B} (m : M ST A) (f : A → M ST B) :
  preserves m → (∀ a, preserves (f a)) → preserves (m ≫= f).
Proof.
  intros Hm Hf s r s' t Hs [(e & _ & Hr & _)|(a & s1 & t1 & t2 & Hr & Hk & _)]%bind_inv.
  - eapply Hm; eauto.
  - eapply Hf; [|exact Hk]. eapply Hm; eauto.
Qed.

Lemma preserves_ret {A} (a : A) : preserves (mret a).
Proof. by intros s r s' t Hs [= _ <- _]. Qed.
Lemma preserves_throw {A} e : preserves (throw (A := A) e).
Proof. by intros s r s' t Hs [= _ <- _]. Qed.
Lemma preserves_lift {A} (x : res MiniError A) : preserves (lift x).
Proof. by intros s r s' t Hs [= _ <- _]. Qed.
Lemma preserves_get : preserves get.
Proof. by intros s r s' t Hs [= _ <- _]. Qed.
Lemma preserves_modify f : (∀ s, P s → P (f s)) → preserves (modify f).
Proof. intros Hf s r s' t Hs [= _ <- _]. auto. Qed.
End preserves.
#[export] Hint Resolve preserves_bind preserves_ret preserves_throw preserves_lift
  preserves_get preserves_modify : preserves.

Section preserves_request.
Context {ST : Type} `{!TaroStorage ST, !UrlHost, !MiniConfig, !TaroIO ST}.
Context (P : MiniState ST → Prop) `{!Keeps P} (Hclear : ∀ s, P s → P (clearMiniAppSession s)).

Lemma preserves_attempts n options req rid le : preserves P (attempts n options req rid le).
Proof using All.
  revert le. induction n as [|n IH]; intros le; [apply preserves_throw|].
  intros s r s' t Hs. cbn [attempts].
  destruct (taro_request req s) as [answer s1] eqn:E.
  assert (P s1) as H1 by (eapply keeps_request; eauto).
  set (caught := if negb _ || negb _ then _ else _).
  assert (preserves P caught) as Hc by (unfold caught; case_match; auto using preserves_throw).
  destruct answer as [resp|].
  - destruct (judge _ _ _ resp) as [e|e|d|].
    + destruct (attempts n options req rid (Some e) s1) as [[r2 s2] t2] eqn:E2.
      intros [= _ <- _]. eapply IH; eauto.
    + intros [= _ <- _]. repeat case_match; auto.
    + by intros [= _ <- _].
    + destruct (caught s1) as [[r2 s2] t2] eqn:E2. intros [= _ <- _]. eapply Hc; eauto.
  - destruct (caught s1) as [[r2 s2] t2] eqn:E2. intros [= _ <- _]. eapply Hc; eauto.
Qed.

Lemma preserves_getSession : preserves P getMiniAppSessionM.
Proof using Hclear.
  intros s r s' t Hs. unfold getMiniAppSessionM, getMiniAppSession.
  repeat case_match; intros [= _ <- _]; simplify_eq; auto.
Qed.

Lemma preserves_auth_header auth : preserves P (auth_header auth).
Proof using Hclear.
  unfold auth_header. destruct auth as [[|b]|]; [|destruct (trim b)|]; auto with preserves.
  apply preserves_bind; [apply preserves_getSession|]. intros [x|]; auto with preserves.
Qed.

Lemma preserves_prepare options : preserves P (prepare options).
Proof using Hclear.
  unfold prepare. apply preserves_bind; [auto with preserves|]. intros url. case_match.
  - apply preserves_throw.
  - apply preserves_bind; [auto with preserves|]. intros s0.
    apply preserves_bind; [apply preserves_auth_header|]. intros h. apply preserves_ret.
Qed.

Lemma preserves_api_request options : preserves P (request options).
Proof using All.
  unfold request. apply preserves_bind; [apply preserves_prepare|].
  intros [req rid]. apply preserves_attempts.
Qed.
End preserves_request.

(** ** A concrete platform, for the witnesses *)
Module Sample.

(** Storage holding at most one value under any key. *)
#[export] Instance cell_storage : TaroStorage (option jsstring) := {|
  getStorageSync _ st := Some (JStr (default [] st));
  setStorageSync _ v _ := Some (Some v);
  removeStorageSync _ _ := Some None;
|}.

#[export] Instance cell_storage_laws : TaroStorageLaws (option jsstring).
Proof. split; cbn; intros; by simplify_eq/=. Qed.

(** A URL host that knows two URLs. *)
Definition plain_url (origin path hash : string) : URL :=
  {| url_href := js origin ++ js path ++ js hash; url_protocol := js "https:";
     url_origin := js origin; url_username := []; url_password := [];
     url_hostname := js "one.example"; url_pathname := js path; url_search := [];
     url_hash := js hash |}.

#[export] Instance sample_host : UrlHost := {|
  parse_url s :=
    if decide (s = js "https://one.example") then Some (plain_url "https://one.example" "/" "")
    else if decide (s = js "https://one.example/miniapp-checkout#checkout_ticket=t1")
    then Some (plain_url "https://one.example" "/miniapp-checkout" "#checkout_ticket=t1")
    else if decide (s = js "https://one.example/miniapp-bind#t")
    then Some (plain_url "https://one.example" "/miniapp-bind" "#t")
    else None;
  search_params s :=
    if decide (s = js "checkout_ticket=t1") then [(js "checkout_ticket", js "t1")] else [];
|}.

#[export] Instance sample_config : MiniConfig := {|
  MINIAPP_API_BASE_URL := Some (js "https://one.example");
  MINIAPP_BINDING_ORIGIN := Some (js "https://one.example");
|}.

(** A server that gives every request the same answer. *)
Definition answering (resp : option TaroResponse) : TaroIO (option jsstring) := {|
  taro_request _ s := (resp, s);
  taro_login s := (Some (JObj [(js "code", JStr (js " c0 "))]), s);
  taro_random s := (Some (repeat 255%N 16), s);
  fresh_request_id _ := js "miniapp-0-0";
|}.

Definition ok_body (data : jsval) : jsval :=
  JObj [(js "success", JBool true); (js "data", data)].
Definition ok_response (data : jsval) : TaroResponse :=
  {| statusCode := 200; resp_header := JObj []; resp_data := ok_body data |}.
Definition unauthorized : TaroResponse :=
  {| statusCode := 401; resp_header := JObj []; resp_data := JObj [(js "success", JBool false)] |}.

Definition live_session : MiniAppSession :=
  {| accessToken := js "tok"; accessExpiresAt := num_of_Z 2000; sid := js "s1" |}.
Definition signed_in : MiniState (option jsstring) :=
  mkState 1000000 (Some live_session) None None None.

Definition me_options : ApiRequestOptions :=
  {| opt_path := js "/me"; opt_method := GET; opt_data := JUndef;
     opt_auth := Some AuthSession; opt_timeout := None |}.
End Sample.

Import Sample.

Lemma request_sends_witness :
  ∃ n req, (request (TaroIO0 := answering None) me_options signed_in).2 =
    replicate n (CallRequest req) ∧ (n <= 2)%nat.
Proof.
  destruct (request (TaroIO0 := answering None) me_options signed_in) as [[r s'] t] eqn:E.
  destruct (request_sends (TaroIO0 := answering None) me_options signed_in r s' t E)
    as (n & req & Ht & Hn & _).
  exists n, req. split; [exact Ht|exact Hn].
Defined.

Lemma request_outcome_witness :
  currentSession (request (TaroIO0 := answering (Some unauthorized)) me_options signed_in).1.2 = None.
Proof.
  destruct (request (TaroIO0 := answering (Some unauthorized)) me_options signed_in)
    as [[r s'] t] eqn:E.
  destruct (request_outcome (TaroIO0 := answering (Some unauthorized)) me_options signed_in r s' t E)
    as (_ & H & _).
  vm_compute in E. injection E as Hr _ _. symmetry in Hr.
  apply (H _ Hr); vm_compute; reflexivity.
Defined.
