(* ===== verification/MiniAuth.v ===== *)
(** Mini program sign-in (miniapp/src/features/auth/auth-service.ts).

    The operations exchange a WeChat code for a session, hold the pending
    identity ticket between sign-in and registration or binding, and create and
    poll an account binding.  They run on the state of MiniApi and call its
    [request]. *)
From S2P Require Import Prelude JsString JsValue MiniApi.
Open Scope Z_scope.

Definition invalidAuthResponse : MiniError :=
  AuthError "MINIAPP_INVALID_AUTH_RESPONSE" "Mini Program authentication response is invalid".
Definition invalidBindingResponse : MiniError :=
  AuthError "MINIAPP_INVALID_BINDING_RESPONSE" "Mini Program binding response is invalid".
Definition bindingConfigurationError : MiniError :=
  AuthError "MINIAPP_BINDING_CONFIGURATION_ERROR" "Mini Program binding origin is unavailable".

Inductive LoginKind := authenticated | pending.
Inductive BindingStatus := status_pending | status_bound | status_expired.

Section auth.
Context {ST : Type} `{!TaroStorage ST, !UrlHost, !MiniConfig, !TaroIO ST}.
Implicit Types (s : MiniState ST).

(** The session a response bundle describes, if it passes the checks. *)
Definition readSession (bundle : jsval) (now : Z) : option MiniAppSession :=
  if negb (is_object bundle) || negb (is_object (prop "session" bundle)) then None
  else
    match prop "access_token" bundle, prop "sid" (prop "session" bundle),
          prop "access_expires_at" bundle with
    | JStr token, JStr sid, JNum expires =>
        if bool_decide (trim token = []) || bool_decide (trim sid = [])
           || negb (is_finite expires) || num_leb expires (num_of_Z now)
        then None
        else Some {| accessToken := token; accessExpiresAt := expires; sid := sid |}
    | _, _, _ => None
    end.

Definition storeSession (bundle : jsval) : M ST () :=
  s ← get;
  match readSession bundle (now_seconds s) with
  | None => throw invalidAuthResponse
  | Some session => modify (setMiniAppSession session)
  end.

Definition loginUnavailable (m : string) : MiniError :=
  AuthError "MINIAPP_WECHAT_LOGIN_UNAVAILABLE" m.

Definition getWechatCode : M ST jsstring := λ s,
  let '(answer, s1) := taro_login s in
  let r :=
    match answer with
    | None | Some JUndef | Some JNull => Throw (loginUnavailable "WeChat login is unavailable")
    | Some result =>
        match (match prop "code" result with JStr c => trim c | _ => [] end) with
        | [] => Throw (loginUnavailable "WeChat login code is unavailable")
        | code => Ok code
        end
    end in
  (r, s1, [CallLogin]).

Definition requirePendingTicket : M ST jsstring :=
  s ← get;
  match pendingIdentityTicket s with
  | None => throw (AuthError "MINIAPP_PENDING_IDENTITY_UNAVAILABLE"
                     "Mini Program identity verification has expired")
  | Some t => mret t
  end.

Definition getTrustedBindingOrigin : res MiniError URL :=
  match trim (default [] MINIAPP_BINDING_ORIGIN) with
  | [] => Throw bindingConfigurationError
  | rawOrigin =>
      match parse_url rawOrigin with
      | None => Throw bindingConfigurationError
      | Some origin =>
          if negb (bool_decide (url_protocol origin = js "https:"))
             || bool_decide (url_hostname origin = [])
             || negb (bool_decide (url_username origin = []))
             || negb (bool_decide (url_password origin = []))
             || negb (bool_decide (url_pathname origin = js "/"))
             || negb (bool_decide (url_search origin = []))
             || negb (bool_decide (url_hash origin = []))
          then Throw bindingConfigurationError
          else Ok origin
      end
  end.

Definition getPendingIdentityTicket : M ST (option jsstring) :=
  s ← get; mret (pendingIdentityTicket s).

Definition setPendingIdentityTicket (ticket : jsstring) : M ST () :=
  let normalizedTicket := trim ticket in
  modify (set_ticket (match normalizedTicket with [] => None | _ => Some normalizedTicket end)).

Definition clearPendingIdentityTicket : M ST () := modify (set_ticket None).

Definition post (path : string) (data : jsval) (auth : option RequestAuth) : ApiRequestOptions :=
  {| opt_path := js path; opt_method := POST; opt_data := data; opt_auth := auth;
     opt_timeout := None |}.

Definition loginWithWechat : M ST LoginKind :=
  code ← getWechatCode;
  result ← request (post "/auth/wechat" (JObj [(js "code", JStr code)]) None);
  if negb (is_object result) || negb (is_string (prop "state" result))
  then throw invalidAuthResponse
  else if is_lit (prop "state" result) "authenticated" then
    _ ← storeSession (prop "session" result);
    _ ← clearPendingIdentityTicket;
    mret authenticated
  else
    match prop "pending_ticket" result with
    | JStr ticket =>
        if is_lit (prop "state" result) "pending" && negb (bool_decide (trim ticket = [])) then
          _ ← setPendingIdentityTicket ticket;
          _ ← modify clearMiniAppSession;
          mret pending
        else throw invalidAuthResponse
    | _ => throw invalidAuthResponse
    end.

Definition renewMiniAppSession : M ST () :=
  session ← getMiniAppSessionM;
  match session with
  | None => throw (AuthError "MINIAPP_SESSION_UNAVAILABLE" "Mini Program session is unavailable")
  | Some x =>
      code ← getWechatCode;
      bundle ← request (post "/auth/renew"
                 (JObj [(js "code", JStr code); (js "sid", JStr (sid x))]) None);
      storeSession bundle
  end.

Definition logoutMiniApp : M ST () :=
  _ ← request (post "/auth/logout" JUndef (Some AuthSession));
  modify clearMiniAppSession.

Definition registerWithPendingIdentity (username password : jsstring) : M ST () :=
  ticket ← requirePendingTicket;
  bundle ← request (post "/auth/register"
             (JObj [(js "pending_identity_ticket", JStr ticket);
                    (js "username", JStr (trim username));
                    (js "password", JStr password)]) None);
  _ ← storeSession bundle;
  clearPendingIdentityTicket.

(** The text of a string field, trimmed. *)
Definition trimmedField (name : string) (v : jsval) : option jsstring :=
  trim <$> as_string (prop name v).

Definition checkBindingUrl (webUrl : jsstring) : res MiniError () :=
  trustedOrigin ← getTrustedBindingOrigin;
  match parse_url webUrl with
  | None => Throw invalidBindingResponse
  | Some parsedUrl =>
      if negb (bool_decide (url_origin parsedUrl = url_origin trustedOrigin))
         || negb (bool_decide (url_username parsedUrl = []))
         || negb (bool_decide (url_password parsedUrl = []))
         || negb (bool_decide (url_pathname parsedUrl = js "/miniapp-bind"))
         || negb (bool_decide (url_search parsedUrl = []))
      then Throw invalidBindingResponse
      else Ok tt
  end.

(** [bindingId] and [webUrl]. *)
Definition createBinding : M ST (jsstring * jsstring) :=
  ticket ← requirePendingTicket;
  result ← request (post "/bindings" (JObj [(js "pending_identity_ticket", JStr ticket)]) None);
  if negb (is_object result) then throw invalidBindingResponse
  else
    let bindingId := default [] (trimmedField "binding_id" result) in
    let webUrl := match trimmedField "web_url" result with
                  | Some u => u
                  | None => default [] (trimmedField "bind_url" result)
                  end in
    if bool_decide (bindingId = []) || bool_decide (webUrl = [])
    then throw invalidBindingResponse
    else
      _ ← lift (checkBindingUrl webUrl);
      mret (bindingId, webUrl).

Definition getBindingStatus (bindingId : jsstring) : M ST BindingStatus :=
  encoded ← lift (match encode_uri bindingId with Some x => Ok x | None => Throw URIError end);
  ticket ← requirePendingTicket;
  result ← request {| opt_path := js "/bindings/" ++ encoded; opt_method := GET;
                      opt_data := JUndef; opt_auth := Some (AuthBearer ticket);
                      opt_timeout := None |};
  if negb (is_object result) then throw invalidBindingResponse
  else if is_lit (prop "status" result) "pending" then mret status_pending
  else if is_lit (prop "status" result) "bound" then mret status_bound
  else if is_lit (prop "status" result) "expired" then mret status_expired
  else throw invalidBindingResponse.
End auth.

(** ** The session invariant *)
Section invariant.
Context {ST : Type} `{!TaroStorage ST, !UrlHost, !MiniConfig, !TaroIO ST}.
Implicit Types (s : MiniState ST).

Definition wf_text (x : jsstring) : Prop := trim x = x ∧ x ≠ [].

(** A stored session has a trimmed, non-empty token and id and a finite expiry;
    a stored identity ticket is trimmed and non-empty. *)
Definition session_wf s : Prop :=
  (∀ x, currentSession s = Some x →
     wf_text (accessToken x) ∧ wf_text (sid x) ∧ is_finite (accessExpiresAt x) = true) ∧
  (∀ t, pendingIdentityTicket s = Some t → wf_text t).

Lemma wf_text_trim x : trim x ≠ [] → wf_text (trim x).
Proof. split; [apply trim_idemp|done]. Qed.

Lemma session_wf_clear s : session_wf s → session_wf (clearMiniAppSession s).
Proof.
  intros [_ Ht]. split.
  - intros x. by rewrite currentSession_clear.
  - intros t. rewrite pendingTicket_clear. apply Ht.
Qed.

Lemma readSession_ok bundle now x :
  readSession bundle now = Some x →
  trim (accessToken x) ≠ [] ∧ trim (sid x) ≠ [] ∧
  is_finite (accessExpiresAt x) = true ∧ num_leb (accessExpiresAt x) (num_of_Z now) = false.
Proof.
  unfold readSession. intros Hrd. repeat (case_match; try done). simplify_eq. simpl.
  boolify. done.
Qed.

Lemma session_wf_store x s :
  trim (accessToken x) ≠ [] → trim (sid x) ≠ [] → is_finite (accessExpiresAt x) = true →
  session_wf s → session_wf (setMiniAppSession x s).
Proof.
  intros Ha Hs He [_ Ht]. split; [|done]. intros y [= <-]. simpl.
  split_and!; auto using wf_text_trim; by apply wf_text_trim.
Qed.

Lemma session_wf_ticket o s :
  (∀ t, o = Some t → wf_text t) → session_wf s → session_wf (set_ticket o s).
Proof. intros Ho [Hx _]. by split. Qed.

(** The operations of the file, as the pages call them. *)
Inductive AuthOp :=
| OpLogin | OpRenew | OpLogout | OpRegister (username password : jsstring)
| OpCreateBinding | OpBindingStatus (bindingId : jsstring)
| OpSetTicket (ticket : jsstring) | OpClearTicket | OpRequest (options : ApiRequestOptions).

Definition run_op (op : AuthOp) : M ST () :=
  match op with
  | OpLogin => _ ← loginWithWechat; mret tt
  | OpRenew => renewMiniAppSession
  | OpLogout => logoutMiniApp
  | OpRegister u p => registerWithPendingIdentity u p
  | OpCreateBinding => _ ← createBinding; mret tt
  | OpBindingStatus id => _ ← getBindingStatus id; mret tt
  | OpSetTicket t => setPendingIdentityTicket t
  | OpClearTicket => clearPendingIdentityTicket
  | OpRequest o => _ ← request o; mret tt
  end.

(** Run operations one after the other; a thrown error ends one operation. *)
Definition run_ops (ops : list AuthOp) s : MiniState ST :=
  foldl (λ s op, (run_op op s).1.2) s ops.

Context `{!Keeps session_wf}.

Lemma preserves_request_wf options : preserves session_wf (request options).
Proof. apply preserves_api_request; [done|apply session_wf_clear]. Qed.

Lemma preserves_storeSession bundle : preserves session_wf (storeSession bundle).
Proof.
  unfold storeSession. intros s r s' t Hs
    [(e & ? & [=] & _)|(s0 & s1 & ? & ? & [= <- <- <-] & Hk & _)]%bind_inv.
  destruct (readSession bundle (now_seconds s)) as [x|] eqn:E.
  - injection Hk as _ <- _. apply readSession_ok in E as (?&?&?&_). by apply session_wf_store.
  - by injection Hk as _ <- _.
Qed.

Lemma preserves_code : preserves session_wf getWechatCode.
Proof.
  intros s r s' t Hs. unfold getWechatCode. destruct (taro_login s) as [a s1] eqn:E.
  intros [= _ <- _]. eapply keeps_login; eauto.
Qed.

Lemma preserves_require : preserves session_wf requirePendingTicket.
Proof.
  unfold requirePendingTicket. apply preserves_bind; [auto with preserves|].
  intros s0. case_match; auto with preserves.
Qed.

Lemma preserves_ticket o :
  (∀ t, o = Some t → wf_text t) → preserves session_wf (modify (set_ticket o)).
Proof. intros Ho. apply preserves_modify. intros s. by apply session_wf_ticket. Qed.

Lemma preserves_setTicket t : preserves session_wf (setPendingIdentityTicket t).
Proof.
  unfold setPendingIdentityTicket. apply preserves_ticket. intros x.
  destruct (trim t) eqn:E; [done|]. intros [= <-]. rewrite <- E. apply wf_text_trim.
  by rewrite E.
Qed.

Hint Resolve preserves_request_wf preserves_storeSession preserves_code preserves_require
  preserves_setTicket : preserves.

Lemma preserves_clearTicket : preserves session_wf clearPendingIdentityTicket.
Proof. by apply preserves_ticket. Qed.
Lemma preserves_clearSession : preserves session_wf (modify clearMiniAppSession).
Proof. apply preserves_modify, session_wf_clear. Qed.
Lemma preserves_sessionM : preserves session_wf getMiniAppSessionM.
Proof. apply preserves_getSession, session_wf_clear. Qed.
Hint Resolve preserves_clearTicket preserves_clearSession preserves_sessionM : preserves.

#[local] Ltac keep :=
  repeat first [ progress auto with preserves nocore
               | apply preserves_bind; [|intros ?]
               | case_match ].

Lemma run_op_wf op : preserves session_wf (run_op op).
Proof.
  destruct op; simpl; unfold loginWithWechat, renewMiniAppSession, logoutMiniApp,
    registerWithPendingIdentity, createBinding, getBindingStatus; keep.
Qed.

(** Whatever sequence of sign-in operations runs, whatever the server and the
    platform answer and whichever operations throw, a stored session always has
    a trimmed non-empty token and id and a finite expiry, and a stored identity
    ticket is trimmed and non-empty. *)
Theorem sessions_stay_wf (ops : list AuthOp) s (Hs : session_wf s) : session_wf (run_ops ops s).
Proof.
  unfold run_ops. revert s Hs. induction ops as [|op ops IH]; intros s Hs; simpl; [done|].
  apply IH. destruct (run_op op s) as [[r s'] t] eqn:E. simpl. eapply run_op_wf; eauto.
Qed.
End invariant.

(** ** Outcomes *)
Section outcomes.
Context {ST : Type} `{!TaroStorage ST, !UrlHost, !MiniConfig, !TaroIO ST}.
Implicit Types (s : MiniState ST).

Lemma storeSession_ok bundle s s' t :
  storeSession bundle s = (Ok tt, s', t) →
  t = [] ∧ ∃ x, currentSession s' = Some x ∧ wf_text (accessToken x) ∧ wf_text (sid x) ∧
    num_leb (accessExpiresAt x) (num_of_Z (now_seconds s')) = false.
Proof.
  unfold storeSession. intros [(e & ? & [=] & _)|(s0 & s1 & ? & ? & [= <- <- <-] & Hk & ->)]%bind_inv.
  destruct (readSession bundle (now_seconds s)) as [x|] eqn:E; [|done].
  injection Hk as <- <-. apply readSession_ok in E as (?&?&_&?).
  split; [done|]. eexists. split; [done|]. simpl. by split_and!; try apply wf_text_trim.
Qed.

Lemma getWechatCode_ok c s s' t :
  getWechatCode s = (Ok c, s', t) → t = [CallLogin] ∧ wf_text c.
Proof.
  unfold getWechatCode. destruct (taro_login s) as [[v|] s1]; [|done].
  intros [= Hc _ <-]. split; [done|].
  destruct v; try done; destruct (prop "code" _) as [| | | |w| |]; try done;
    destruct (trim w) eqn:E; simplify_eq; rewrite <- E; apply wf_text_trim; congruence.
Qed.

(** A POST without authorisation that succeeded was sent once, as it is. *)
Lemma post_ok path data s d s' t :
  request (post path data None) s = (Ok d, s', t) →
  ∃ req, t = [CallRequest req] ∧ req_method req = POST ∧ req_data req = data ∧
    req_header req = [content_type].
Proof.
  intros [[_ (e & [=] & _)]|(req & Hp & Hm & Hd & _ & _ & Hh)]%request_cases.
  destruct (ap_calls _ _ _ _ _ _ Hp) as (n & -> & Hn & Hg).
  exists req. split; [|done]. simpl in *. destruct n as [|[|n]]; [lia|done|].
  specialize (Hg ltac:(done)). lia.
Qed.

(** What a finished sign-in leaves, by its result. *)
Definition login_result (kind : LoginKind) s : Prop :=
  match kind with
  | authenticated => pendingIdentityTicket s = None ∧
      ∃ x, currentSession s = Some x ∧ wf_text (accessToken x) ∧ wf_text (sid x) ∧
        num_leb (accessExpiresAt x) (num_of_Z (now_seconds s)) = false
  | pending => currentSession s = None ∧ ∃ t, pendingIdentityTicket s = Some t ∧ wf_text t
  end.

(** A sign-in that returns asked the platform for a code once and posted it,
    trimmed and without an authorisation header, in one request; when it says
    authenticated there is an unexpired session and no identity ticket is left,
    and when it says pending there is an identity ticket and no session. *)
Theorem login_outcome s kind s' t (Hrun : loginWithWechat s = (Ok kind, s', t)) :
  login_result kind s' ∧
  ∃ code req, wf_text code ∧ t = [CallLogin; CallRequest req] ∧ req_method req = POST ∧
    req_data req = JObj [(js "code", JStr code)] ∧ req_header req = [content_type].
Proof.
  unfold loginWithWechat in Hrun.
  apply bind_inv in Hrun as [(e & ? & _ & [=] & _)|(c & s1 & t1 & t2 & Hc & Hrun & ->)].
  apply getWechatCode_ok in Hc as [-> Hwf].
  apply bind_inv in Hrun as [(e & ? & _ & [=] & _)|(d & s2 & t3 & t4 & Hd & Hrun & ->)].
  apply post_ok in Hd as (req & -> & Hm & Hdata & Hh).
  assert (t4 = [] ∧ login_result kind s') as [-> Hres]; [|split; [done|]; eauto 10].
  destruct (_ || _); [done|].
  destruct (is_lit _ "authenticated").
  - apply bind_inv in Hrun as [(e & ? & _ & [=] & _)|([] & s3 & t5 & t6 & Hs & Hrun & ->)].
    apply storeSession_ok in Hs as [-> (x & Hx & Hwa & Hws & He)].
    injection Hrun as <- <- <-. split; [done|]. simpl. split; [done|]. by exists x.
  - destruct (prop "pending_ticket" d) as [| | | |tk| |]; try done.
    destruct (is_lit _ "pending" && _) eqn:E; [|done].
    apply andb_true_iff in E as [_ Htk%negb_true_iff%bool_decide_eq_false].
    injection Hrun as <- <- <-. split; [done|]. simpl. rewrite currentSession_clear.
    split; [done|]. exists (trim tk). rewrite pendingTicket_clear. simpl.
    destruct (trim tk) eqn:E; [done|]. split; [done|]. rewrite <- E. by apply wf_text_trim; rewrite E.
Qed.

Lemma getTrustedBindingOrigin_ok o :
  getTrustedBindingOrigin = Ok o →
  url_protocol o = js "https:" ∧ url_hostname o ≠ [] ∧ url_username o = [] ∧ url_password o = [].
Proof.
  unfold getTrustedBindingOrigin. repeat (case_match; try done). intros [= <-]. by boolify.
Qed.

(** An address createBinding hands to the page parses to the binding page of
    the configured HTTPS origin, with no user name, password or query, and the
    binding id is trimmed and not empty, whatever the server answers. *)
Theorem binding_url_trusted s id webUrl s' t (Hrun : createBinding s = (Ok (id, webUrl), s', t)) :
  wf_text id ∧ ∃ u o, parse_url webUrl = Some u ∧ getTrustedBindingOrigin = Ok o ∧
    url_protocol o = js "https:" ∧ url_hostname o ≠ [] ∧ url_origin u = url_origin o ∧
    url_username u = [] ∧ url_password u = [] ∧ url_pathname u = js "/miniapp-bind" ∧
    url_search u = [].
Proof.
  unfold createBinding in Hrun.
  apply bind_inv in Hrun as [(e & ? & _ & [=] & _)|(tk & s1 & t1 & t2 & _ & Hrun & ->)].
  apply bind_inv in Hrun as [(e & ? & _ & [=] & _)|(d & s2 & t3 & t4 & _ & Hrun & ->)].
  destruct (negb (is_object d)); [done|]. cbv zeta in Hrun.
  destruct (_ || _) eqn:E in Hrun; [done|].
  apply bind_inv in Hrun as [(e & ? & _ & [=] & _)|(u0 & s3 & t5 & t6 & Hck & Hrun & ->)].
  injection Hrun as <- <- _ _. unfold lift in Hck. injection Hck as Hck _ _.
  apply orb_false_iff in E as [E _]. boolify. split.
  { revert E. unfold trimmedField. destruct (as_string _); simpl; [apply wf_text_trim|done]. }
  unfold checkBindingUrl, mbind, res_bind in Hck.
  destruct getTrustedBindingOrigin as [o|] eqn:Eo; [|done].
  destruct (parse_url _) as [u|]; [|done]. destruct (_ || _) eqn:Eu in Hck; [done|].
  apply getTrustedBindingOrigin_ok in Eo as (?&?&_). boolify. exists u, o. by split_and!.
Qed.
End outcomes.

Import Sample.

#[local] Instance sample_keeps resp P : Keeps (TaroIO0 := answering resp) P.
Proof. split; intros; simpl in *; by simplify_eq. Qed.

(** A server that signs the user in. *)
Definition login_body (expires : Z) : jsval :=
  JObj [(js "state", JStr (js "authenticated"));
        (js "session", JObj [(js "access_token", JStr (js " tok "));
                             (js "access_expires_at", JNum (num_of_Z expires));
                             (js "session", JObj [(js "sid", JStr (js "s1"))])])].
Definition signed_out : MiniState (option jsstring) :=
  mkState 1000000 None (Some (js "old")) None None.

Lemma sessions_stay_wf_witness :
  session_wf (run_ops (TaroIO0 := answering (Some (ok_response (login_body 2000))))
                [OpLogin; OpSetTicket (js " x "); OpRenew; OpLogout] signed_in).
Proof.
  apply (sessions_stay_wf (TaroIO0 := answering (Some (ok_response (login_body 2000))))).
  split; [|discriminate]. intros x [= <-]. repeat split; vm_compute; congruence.
Defined.

Lemma login_outcome_witness :
  login_result authenticated
    (loginWithWechat (TaroIO0 := answering (Some (ok_response (login_body 2000)))) signed_out).1.2.
Proof.
  destruct (loginWithWechat (TaroIO0 := answering (Some (ok_response (login_body 2000)))) signed_out)
    as [[r s'] t] eqn:E.
  assert (r = Ok authenticated) as -> by (vm_compute in E; congruence).
  exact (proj1 (login_outcome (TaroIO0 := answering (Some (ok_response (login_body 2000))))
                  signed_out authenticated s' t E)).
Defined.

Definition binding_body : jsval :=
  JObj [(js "binding_id", JStr (js "b1 "));
        (js "web_url", JStr (js " https://one.example/miniapp-bind#t"))].

Lemma binding_url_trusted_witness :
  ∃ u, parse_url (js "https://one.example/miniapp-bind#t") = Some u ∧ url_search u = [].
Proof.
  destruct (createBinding (TaroIO0 := answering (Some (ok_response binding_body))) signed_out)
    as [[r s'] t] eqn:E.
  assert (r = Ok (js "b1", js "https://one.example/miniapp-bind#t")) as -> by (vm_compute in E |- *; congruence).
  destruct (binding_url_trusted (TaroIO0 := answering (Some (ok_response binding_body)))
              signed_out _ _ s' t E) as (_ & u & o & Hu & _ & _ & _ & _ & _ & _ & _ & Hs).
  exists u. split; [exact Hu|exact Hs].
Defined.
