(* ===== verification/MiniServices.v ===== *)
(** The mini program's service layer (miniapp/src/features: account, commerce,
    tokens and text-test services, and pages/login/recovery.ts).

    Each service sends requests through MiniApi and checks every response field
    before it builds a typed value.  The readers are functions into [res]; the
    encoders ([plan_json], ...) describe the response bodies the API documents
    and serve the statements only. *)
From S2P Require Import Prelude JsString JsValue JsPrint MiniApi.
Open Scope Z_scope.

(** ** Readers shared by the services *)
Definition check (b : bool) (e : MiniError) : res MiniError () :=
  if b then Ok tt else Throw e.
Definition expect {A} (o : option A) (e : MiniError) : res MiniError A :=
  match o with Some a => Ok a | None => Throw e end.

(** [Array.isArray(v) && v.every((x) => typeof x === 'string')]. *)
Definition as_strings (v : jsval) : option (list jsstring) :=
  l ← as_array v; mapM as_string l.

(** A number that passes a test. *)
Definition number_if (test : jsnum → bool) (v : jsval) : option jsnum :=
  x ← as_number v; if test x then Some x else None.
Definition positive_integer (x : jsnum) : bool := is_integer x && negb (num_leb x num0).
Definition safe_nonneg (x : jsnum) : bool := is_safe_integer x && negb (num_ltb x num0).

Definition session_options (m : ApiMethod) (path : jsstring) (data : jsval) (timeout : option Z) :
    ApiRequestOptions :=
  {| opt_path := path; opt_method := m; opt_data := data; opt_auth := Some AuthSession;
     opt_timeout := timeout |}.

(** ** commerce-service.ts *)
Module Commerce.

Record MiniAppPlan := mkPlan {
  plan_id : jsnum; title : jsstring; subtitle : jsstring; priceAmount : jsnum;
  currency : jsstring; durationUnit : jsstring; durationValue : jsnum }.

Inductive ProductType := manual | subscription.

Record MiniAppProduct := mkProduct {
  product_id : jsnum; name : jsstring; summary : jsstring; description : jsstring;
  imageUrl : jsstring; priceCents : jsnum; productType : ProductType }.

Record MiniAppOrder := mkOrder {
  order_id : jsnum; productName : jsstring; order_priceCents : jsnum; paymentStatus : jsstring;
  fulfillmentStatus : jsstring; createdAt : jsnum }.

Record MiniAppCommerce := mkCommerce {
  plans : list MiniAppPlan; products : list MiniAppProduct; orders : list MiniAppOrder }.

Inductive CheckoutTargetType := target_plan | target_product.

Definition invalidCommerceResponse : MiniError :=
  apiError "MINIAPP_INVALID_COMMERCE_RESPONSE" "Mini Program commerce response is invalid" 0 None.

Definition readPositiveInteger (v : jsval) : res MiniError jsnum :=
  expect (number_if positive_integer v) invalidCommerceResponse.
Definition readFiniteNumber (v : jsval) : res MiniError jsnum :=
  expect (number_if is_finite v) invalidCommerceResponse.
Definition readString (v : jsval) : res MiniError jsstring :=
  expect (as_string v) invalidCommerceResponse.

Definition readPlan (v : jsval) : res MiniError MiniAppPlan :=
  _ ← check (is_object v) invalidCommerceResponse;
  id ← readPositiveInteger (prop "id" v);
  title ← readString (prop "title" v);
  subtitle ← readString (prop "subtitle" v);
  priceAmount ← readFiniteNumber (prop "price_amount" v);
  currency ← readString (prop "currency" v);
  durationUnit ← readString (prop "duration_unit" v);
  durationValue ← readPositiveInteger (prop "duration_value" v);
  Ok (mkPlan id title subtitle priceAmount currency durationUnit durationValue).

Definition readProductType (v : jsval) : option ProductType :=
  if is_lit v "manual" then Some manual
  else if is_lit v "subscription" then Some subscription
  else None.

Definition readProduct (v : jsval) : res MiniError MiniAppProduct :=
  _ ← check (is_object v) invalidCommerceResponse;
  productType ← expect (readProductType (prop "product_type" v)) invalidCommerceResponse;
  id ← readPositiveInteger (prop "id" v);
  name ← readString (prop "name" v);
  summary ← readString (prop "summary" v);
  description ← readString (prop "description" v);
  imageUrl ← readString (prop "image_url" v);
  priceCents ← readPositiveInteger (prop "price_cents" v);
  Ok (mkProduct id name summary description imageUrl priceCents productType).

Definition readOrder (v : jsval) : res MiniError MiniAppOrder :=
  _ ← check (is_object v) invalidCommerceResponse;
  id ← readPositiveInteger (prop "id" v);
  productName ← readString (prop "product_name" v);
  priceCents ← readPositiveInteger (prop "price_cents" v);
  paymentStatus ← readString (prop "payment_status" v);
  fulfillmentStatus ← readString (prop "fulfillment_status" v);
  createdAt ← readFiniteNumber (prop "created_at" v);
  Ok (mkOrder id productName priceCents paymentStatus fulfillmentStatus createdAt).

Definition readList {T} (v : jsval) (itemReader : jsval → res MiniError T) : res MiniError (list T) :=
  l ← expect (as_array v) invalidCommerceResponse; mapM_res itemReader l.

Definition trustedBusinessOrigin `{!UrlHost, !MiniConfig} : res MiniError URL :=
  origin ← expect (parse_url (trim (default [] MINIAPP_BINDING_ORIGIN))) invalidCommerceResponse;
  _ ← check (bool_decide (url_protocol origin = js "https:")
             && negb (bool_decide (url_hostname origin = []))
             && bool_decide (url_username origin = [])
             && bool_decide (url_password origin = [])
             && bool_decide (url_pathname origin = js "/")
             && bool_decide (url_search origin = [])
             && bool_decide (url_hash origin = [])) invalidCommerceResponse;
  Ok origin.

(** [fragment.getAll(name)]. *)
Definition getAll (name : string) (ps : list (jsstring * jsstring)) : list jsstring :=
  omap (λ '(k, v), if bool_decide (k = js name) then Some v else None) ps.

Definition readCheckoutURL `{!UrlHost, !MiniConfig} (v : jsval) : res MiniError jsstring :=
  _ ← check (is_object v) invalidCommerceResponse;
  checkout_url ← expect (as_string (prop "checkout_url" v)) invalidCommerceResponse;
  trustedOrigin ← trustedBusinessOrigin;
  checkoutURL ← expect (parse_url checkout_url) invalidCommerceResponse;
  let fragment := search_params (drop 1 (url_hash checkoutURL)) in
  let tickets := getAll "checkout_ticket" fragment in
  let ticket0 := default [] (head tickets) in
  _ ← check (bool_decide (url_origin checkoutURL = url_origin trustedOrigin)
             && bool_decide (url_username checkoutURL = [])
             && bool_decide (url_password checkoutURL = [])
             && bool_decide (url_pathname checkoutURL = js "/miniapp-checkout")
             && bool_decide (url_search checkoutURL = [])
             && (length tickets =? 1)%nat
             && (length fragment =? 1)%nat
             && negb (bool_decide (trim ticket0 = []))
             && (length ticket0 <=? 512)%nat) invalidCommerceResponse;
  Ok (url_href checkoutURL).

Section service.
Context {ST : Type} `{!TaroStorage ST, !UrlHost, !MiniConfig, !TaroIO ST}.

(** Run an operation and keep its error as a value: a promise that is not awaited yet. *)
Definition try {A} (m : M ST A) : M ST (res MiniError A) :=
  λ s, let '(r, s', t) := m s in (Ok r, s', t).

(** The loop of a request that was prepared, or its error. *)
Definition settle (options : ApiRequestOptions) (p : res MiniError (TaroRequest * jsstring)) :
    M ST jsval :=
  match p with
  | Throw e => throw e
  | Ok (req, rid) => attempts (attemptLimit (opt_method options)) options req rid None
  end.

Definition errors_of (l : list (res MiniError jsval)) : list MiniError :=
  omap (λ r, match r with Throw e => Some e | Ok _ => None end) l.

(** The three requests start together: each is prepared before any answer
    arrives, and each runs to its end.  [first] says which of the rejections is
    the first in time, the one [Promise.all] rejects with. *)
Definition getMiniAppCommerce (first : nat) : M ST MiniAppCommerce :=
  let o1 := session_options GET (js "/plans") JUndef None in
  let o2 := session_options GET (js "/products") JUndef None in
  let o3 := session_options GET (js "/orders") JUndef None in
  p1 ← try (prepare o1); p2 ← try (prepare o2); p3 ← try (prepare o3);
  r1 ← try (settle o1 p1); r2 ← try (settle o2 p2); r3 ← try (settle o3 p3);
  match r1, r2, r3 with
  | Ok plans, Ok products, Ok orders =>
      lift (plans ← readList plans readPlan;
            products ← readList products readProduct;
            orders ← readList orders readOrder;
            Ok (mkCommerce plans products orders))
  | _, _, _ =>
      let es := errors_of [r1; r2; r3] in
      throw (default PlatformError (match es !! first with Some e => Some e | None => head es end))
  end.

Definition target_lit (t : CheckoutTargetType) : jsval :=
  JStr (match t with target_plan => js "plan" | target_product => js "product" end).

Definition startMiniAppCheckout (targetType : CheckoutTargetType) (targetID : jsnum) : M ST jsstring :=
  if negb (is_integer targetID) || num_leb targetID num0 then throw invalidCommerceResponse
  else
    response ← request (session_options POST (js "/checkout")
      (JObj [(js "target_type", target_lit targetType); (js "target_id", JNum targetID)]) None);
    lift (readCheckoutURL response).

Definition setMiniAppCheckoutWebURL (url : jsstring) : M ST () := modify (set_checkout (Some url)).
Definition getMiniAppCheckoutWebURL : M ST (option jsstring) := s ← get; mret (checkoutWebURL s).
Definition clearMiniAppCheckoutWebURL : M ST () := modify (set_checkout None).
End service.
End Commerce.

(** ** token-service.ts *)
Module Tokens.

Record MiniAppTokenSummary := mkTokenSummary {
  token_id : jsnum; token_name : jsstring; keyHint : jsstring; token_status : Z;
  token_createdAt : jsnum; accessedAt : jsnum; expiresAt : jsnum; group : jsstring;
  modelLimits : list jsstring }.

Record MiniAppCreatedToken := mkCreatedToken {
  token : MiniAppTokenSummary; tokenKey : jsstring }.

Record MiniAppTokenCreateInput := mkTokenInput {
  input_name : jsstring; input_group : jsstring; input_models : list jsstring;
  expiresInDays : Z }.

Definition invalidTokenResponse : MiniError :=
  apiError "MINIAPP_INVALID_TOKEN_RESPONSE" "Mini Program token response is invalid" 0 None.

Definition readStatus (v : jsval) : option Z := find (is_num_lit v) [1; 2; 3; 4].

(** All tests come before the value is built; every failure throws the same error. *)
Definition tokenSummary (v : jsval) : option MiniAppTokenSummary :=
  _ ← guard (is_object v);
  id ← number_if positive_integer (prop "id" v);
  name ← as_string (prop "name" v);
  keyHint ← as_string (prop "key_hint" v);
  status ← readStatus (prop "status" v);
  createdAt ← number_if is_finite (prop "created_at" v);
  accessedAt ← number_if is_finite (prop "accessed_at" v);
  expiresAt ← number_if is_finite (prop "expires_at" v);
  group ← as_string (prop "group" v);
  modelLimits ← as_strings (prop "model_limits" v);
  Some (mkTokenSummary id name keyHint status createdAt accessedAt expiresAt group modelLimits).

Definition readTokenSummary (v : jsval) : res MiniError MiniAppTokenSummary :=
  expect (tokenSummary v) invalidTokenResponse.

Section service.
Context {ST : Type} `{!TaroStorage ST, !UrlHost, !MiniConfig, !TaroIO ST}.

Definition getMiniAppTokens : M ST (list MiniAppTokenSummary) :=
  response ← request (session_options GET (js "/tokens") JUndef None);
  lift (_ ← check (is_object response) invalidTokenResponse;
        items ← expect (as_array (prop "items" response)) invalidTokenResponse;
        mapM_res readTokenSummary items).

Definition createMiniAppToken (input : MiniAppTokenCreateInput) : M ST MiniAppCreatedToken :=
  response ← request (session_options POST (js "/tokens")
    (JObj [(js "name", JStr (trim (input_name input)));
           (js "group", JStr (trim (input_group input)));
           (js "models", JArr (JStr ∘ trim <$> input_models input));
           (js "expires_in_days", JNum (num_of_Z (expiresInDays input)))]) None);
  lift (_ ← check (is_object response) invalidTokenResponse;
        key ← expect (as_string (prop "token_key" response)) invalidTokenResponse;
        _ ← check (negb (bool_decide (trim key = []))) invalidTokenResponse;
        t ← readTokenSummary (prop "token" response);
        Ok (mkCreatedToken t key)).

Definition updateMiniAppTokenStatus (id : jsnum) (status : Z) : M ST MiniAppTokenSummary :=
  response ← request (session_options PATCH (js "/tokens/" ++ show_num id ++ js "/status")
    (JObj [(js "status", JNum (num_of_Z status))]) None);
  lift (readTokenSummary response).

Definition revokeMiniAppToken (id : jsnum) : M ST () :=
  _ ← request (session_options DELETE (js "/tokens/" ++ show_num id) JUndef None);
  mret tt.
End service.
End Tokens.

(** ** account-service.ts *)
Module Account.

Record AccountSubscriptionQuota := mkSubQuota { remaining : jsnum; unlimited : bool }.
Record AccountSubscription := mkSubscription {
  planTitle : jsstring; sub_status : jsstring; endsAt : jsnum; sub_quota : AccountSubscriptionQuota }.
Record AccountOverview := mkOverview {
  username : jsstring; displayName : jsstring; email : option jsstring; balance : jsnum;
  enabledGroups : list jsstring; subscriptions : list AccountSubscription }.

Definition invalidAccountOverview : MiniError :=
  apiError "MINIAPP_INVALID_ACCOUNT_RESPONSE" "Mini Program account response is invalid" 0 None.

(** The balance; the unit is always [quota]. *)
Definition readQuota (v : jsval) : res MiniError jsnum :=
  expect (_ ← guard (is_object v);
          balance ← number_if is_finite (prop "balance" v);
          _ ← guard (is_lit (prop "unit" v) "quota");
          Some balance) invalidAccountOverview.

Definition readSubscriptionQuota (v : jsval) : res MiniError AccountSubscriptionQuota :=
  expect (_ ← guard (is_object v);
          remaining ← number_if is_finite (prop "remaining" v);
          unlimited ← as_bool (prop "unlimited" v);
          _ ← guard (is_lit (prop "unit" v) "quota");
          Some (mkSubQuota remaining unlimited)) invalidAccountOverview.

Definition readSubscription (v : jsval) : res MiniError AccountSubscription :=
  '(t, st, e) ← expect (_ ← guard (is_object v);
          planTitle ← as_string (prop "plan_title" v);
          status ← as_string (prop "status" v);
          endsAt ← number_if is_finite (prop "ends_at" v);
          Some (planTitle, status, endsAt)) invalidAccountOverview;
  quota ← readSubscriptionQuota (prop "quota" v);
  Ok (mkSubscription t st e quota).

(** An optional string: absent, or a string. *)
Definition optional_string (v : jsval) : option (option jsstring) :=
  match v with JUndef => Some None | JStr x => Some (Some x) | _ => None end.

Definition readAccountOverview (v : jsval) : res MiniError AccountOverview :=
  '(u, d, em, groups, subs) ← expect (_ ← guard (is_object v);
          username ← as_string (prop "username" v);
          displayName ← as_string (prop "display_name" v);
          email ← optional_string (prop "email" v);
          groups ← as_strings (prop "enabled_groups" v);
          subs ← as_array (prop "subscriptions" v);
          Some (username, displayName, email, groups, subs)) invalidAccountOverview;
  subscriptions ← mapM_res readSubscription subs;
  quota ← readQuota (prop "quota" v);
  Ok (mkOverview u d em quota groups subscriptions).

Definition getAccountOverview {ST} `{!TaroStorage ST, !UrlHost, !MiniConfig, !TaroIO ST} :
    M ST AccountOverview :=
  response ← request (session_options GET (js "/me/overview") JUndef None);
  lift (readAccountOverview response).
End Account.

(** ** text-test-service.ts *)
Module TextTest.

Definition miniTextTestMaxInputCodePoints : nat := 4000.

Inductive MiniTextTestState := running | succeeded | failed | timed_out.

Record MiniTextTestStatus := mkStatus {
  requestID : jsstring; model : jsstring; state : MiniTextTestState; chargeReference : jsstring;
  chargedQuota : jsnum; errorCode : jsstring; st_createdAt : jsnum; startedAt : jsnum;
  completedAt : jsnum }.

Record StartMiniTextTestInput := mkStart {
  clientRequestID : jsstring; start_model : jsstring; start_input : jsstring }.

Definition invalidTextTestResponse : MiniError :=
  apiError "MINIAPP_INVALID_TEXT_TEST_RESPONSE" "Mini Program text-test response is invalid" 0 None.

Definition readTextTestState (v : jsval) : option MiniTextTestState :=
  if is_lit v "running" then Some running
  else if is_lit v "succeeded" then Some succeeded
  else if is_lit v "failed" then Some failed
  else if is_lit v "timed_out" then Some timed_out
  else None.

(** A string that is not blank. *)
Definition nonblank (v : jsval) : option jsstring :=
  x ← as_string v; if bool_decide (trim x = []) then None else Some x.

(** [v === undefined || test v], with [v ?? d]. *)
Definition optional_or {A} (read : jsval → option A) (d : A) (v : jsval) : option A :=
  match v with JUndef => Some d | _ => read v end.

Definition textTestStatus (v : jsval) : option MiniTextTestStatus :=
  _ ← guard (is_object v);
  request_id ← nonblank (prop "request_id" v);
  model ← nonblank (prop "model" v);
  state ← readTextTestState (prop "state" v);
  charge_ref ← optional_or as_string [] (prop "charge_ref" v);
  charged ← number_if safe_nonneg (prop "charged_quota" v);
  error_code ← optional_or as_string [] (prop "error_code" v);
  created ← number_if safe_nonneg (prop "created_at" v);
  started ← number_if safe_nonneg (prop "started_at" v);
  completed ← optional_or (number_if safe_nonneg) num0 (prop "completed_at" v);
  Some (mkStatus request_id model state charge_ref charged error_code created started completed).

Definition readTextTestStatus (v : jsval) : res MiniError MiniTextTestStatus :=
  expect (textTestStatus v) invalidTextTestResponse.

Definition isMiniTextTestInputValid (input : jsstring) : bool :=
  negb (bool_decide (trim input = []))
  && (length (code_points input) <=? miniTextTestMaxInputCodePoints)%nat.

Definition hex_digit (n : N) : N := if (n <? 10)%N then (48 + n)%N else (87 + n)%N.

(** [value.toString(16).padStart(2, '0')] of a byte. *)
Definition byte_hex (b : N) : jsstring := [hex_digit (b / 16)%N; hex_digit (b mod 16)%N].

(** The version and variant bits. *)
Definition mark_bytes (bytes : list N) : list N :=
  let bytes := alter (λ b, N.lor (N.land b 15) 64) 6%nat bytes in
  alter (λ b, N.lor (N.land b 63) 128) 8%nat bytes.

Definition format_request_id (bytes : list N) : jsstring :=
  let hex := concat (byte_hex <$> mark_bytes bytes) in
  take 8 hex ++ js "-" ++ take 4 (drop 8 hex) ++ js "-" ++ take 4 (drop 12 hex) ++ js "-"
  ++ take 4 (drop 16 hex) ++ js "-" ++ drop 20 hex.

Section service.
Context {ST : Type} `{!TaroStorage ST, !UrlHost, !MiniConfig, !TaroIO ST}.

Definition createMiniTextTestRequestID : M ST jsstring := λ s,
  let '(answer, s1) := taro_random s in
  let r :=
    match answer with
    | None => Throw PlatformError
    | Some bytes =>
        if negb (length bytes =? 16)%nat
        then Throw (apiError "MINIAPP_RANDOM_UNAVAILABLE"
                      "Mini Program secure random values are unavailable" 0 None)
        else Ok (format_request_id bytes)
    end in
  (r, s1, [CallRandom 16]).

Definition getMiniTextTestModels : M ST (list jsstring) :=
  response ← request (session_options GET (js "/text-test/models") JUndef None);
  lift (_ ← check (is_object response) invalidTextTestResponse;
        models ← expect (as_array (prop "models" response)) invalidTextTestResponse;
        expect (mapM nonblank models) invalidTextTestResponse).

Definition startMiniTextTest (input : StartMiniTextTestInput) : M ST MiniTextTestStatus :=
  response ← request (session_options POST (js "/text-tests")
    (JObj [(js "client_request_id", JStr (clientRequestID input));
           (js "model", JStr (start_model input));
           (js "input", JStr (start_input input))]) (Some 20000));
  lift (readTextTestStatus response).

Definition getMiniTextTestStatus (id : jsstring) : M ST MiniTextTestStatus :=
  encoded ← lift (expect (encode_uri id) URIError);
  response ← request (session_options GET (js "/text-tests/" ++ encoded) JUndef None);
  lift (readTextTestStatus response).
End service.
End TextTest.

(** ** pages/login/recovery.ts *)
Module Recovery.

Inductive Action := bind_existing_account | restart_login | restart_verification.
Inductive MessageKey :=
  registrationDisabled | registrationTicketInvalid | registrationVerificationRequired.

(** The [code] an error carries; the platform's own errors carry none. *)
Definition getErrorCode (error : MiniError) : option jsstring :=
  match error with
  | ApiError e => as_string (code e)
  | AuthError c _ => Some (js c)
  | _ => None
  end.

Definition one_of (c : jsstring) (l : list string) : bool := bool_decide (c ∈ js <$> l).

Definition getRegistrationRecovery (error : MiniError) : option (Action * MessageKey) :=
  c ← getErrorCode error;
  if one_of c ["MINIAPP_REGISTRATION_DISABLED"%string]
  then Some (bind_existing_account, registrationDisabled)
  else if one_of c ["MINIAPP_TICKET_EXPIRED"; "MINIAPP_TICKET_CONSUMED";
                    "MINIAPP_PENDING_IDENTITY_UNAVAILABLE"]%string
  then Some (restart_login, registrationTicketInvalid)
  else if one_of c ["MINIAPP_EMAIL_VERIFICATION_REQUIRED"; "MINIAPP_REGISTRATION_INVALID"]%string
  then Some (restart_verification, registrationVerificationRequired)
  else None.
End Recovery.
Import Commerce Tokens Account TextTest.

(** ** Checkout addresses *)
Section checkout.
Context {ST : Type} `{!TaroStorage ST, !UrlHost, !MiniConfig, !TaroIO ST}.
Implicit Types (s : MiniState ST).

Lemma bind_Ok {E A B} (r : res E A) (f : A → res E B) b :
  (r ≫= f) = Ok b ↔ ∃ a, r = Ok a ∧ f a = Ok b.
Proof. destruct r as [a|e]; unfold mbind, res_bind; split; [eauto|by intros (? & [= <-] & ?)|done|by intros (? & [=] & _)]. Qed.

Lemma expect_Ok {A} (o : option A) e a : expect o e = Ok a ↔ o = Some a.
Proof. destruct o; simpl; split; congruence. Qed.

Lemma check_Ok b e u : check b e = Ok u ↔ b = true.
Proof. destruct b, u; simpl; split; congruence. Qed.

Lemma trustedBusinessOrigin_ok o :
  trustedBusinessOrigin = Ok o →
  parse_url (trim (default [] MINIAPP_BINDING_ORIGIN)) = Some o ∧
  url_protocol o = js "https:" ∧ url_hostname o ≠ [].
Proof.
  unfold trustedBusinessOrigin.
  intros (o' & Ho%expect_Ok & (u & Hc%check_Ok & [= <-])%bind_Ok)%bind_Ok. by boolify.
Qed.

(** What the page may open. *)
Record safe_checkout (o u : URL) : Prop := {
  sc_origin : url_origin u = url_origin o;
  sc_user : url_username u = [] ∧ url_password u = [];
  sc_path : url_pathname u = js "/miniapp-checkout" ∧ url_search u = [];
  sc_ticket : ∃ ticket, search_params (drop 1 (url_hash u)) = [(js "checkout_ticket", ticket)] ∧
    trim ticket ≠ [] ∧ (length ticket <= 512)%nat;
}.

Lemma single_ticket (ps : list (jsstring * jsstring)) :
  length ps = 1%nat → length (getAll "checkout_ticket" ps) = 1%nat →
  ∃ t, ps = [(js "checkout_ticket", t)] ∧ getAll "checkout_ticket" ps = [t].
Proof.
  destruct ps as [|[k v] [|? ?]]; try done. intros _. unfold getAll. simpl.
  destruct (bool_decide (k = _)) eqn:E; [|done]. boolify. subst. eauto.
Qed.

Lemma readCheckoutURL_ok v href :
  readCheckoutURL v = Ok href →
  ∃ o raw u, trustedBusinessOrigin = Ok o ∧ prop "checkout_url" v = JStr raw ∧
    parse_url raw = Some u ∧ href = url_href u ∧ safe_checkout o u.
Proof.
  unfold readCheckoutURL. intros (? & _ & (raw & Hraw%expect_Ok & (o & Ho &
    (u & Hu%expect_Ok & (? & Hc%check_Ok & [= <-])%bind_Ok)%bind_Ok)%bind_Ok)%bind_Ok)%bind_Ok.
  exists o, raw, u. split_and!; try done. { by destruct (prop _ v); simplify_eq/=. }
  boolify. repeat match goal with H : (_ =? _)%nat = true |- _ => apply Nat.eqb_eq in H
                             | H : (_ <=? _)%nat = true |- _ => apply Nat.leb_le in H end.
  edestruct single_ticket as (tk & Hps & Htk); [eassumption..|].
  split; [done|done|done|]. exists tk. rewrite Htk in *. done.
Qed.

(** The address a checkout returns is that of a page at /miniapp-checkout of
    the configured HTTPS origin, without user name, password or query, whose
    fragment holds exactly one entry, a checkout ticket that is not blank and
    has at most 512 units; it was asked for with one POST under the session, and
    only for a positive integer target. *)
Theorem checkout_url_trusted targetType targetID s href s' t
    (Hrun : startMiniAppCheckout targetType targetID s = (Ok href, s', t)) :
  (1 <= num_to_Z targetID)%Z ∧
  (∃ req x, t = [CallRequest req] ∧ req_method req = POST ∧ currentSession s = Some x ∧
     req_header req = [content_type; authorization (accessToken x)]) ∧
  ∃ o u, trustedBusinessOrigin = Ok o ∧ url_protocol o = js "https:" ∧
    href = url_href u ∧ safe_checkout o u.
Proof.
  unfold startMiniAppCheckout in Hrun. destruct (_ || _) eqn:Ei in Hrun; [done|].
  apply orb_false_iff in Ei as [Ei Ep]. boolify.
  apply bind_inv in Hrun as [(e & ? & _ & [=] & _)|(d & s1 & t1 & t2 & Hd & Hrun & ->)].
  unfold lift in Hrun. injection Hrun as Hrun _ <-. rewrite app_nil_r.
  split; [by apply integer_pos|]. split.
  - apply request_cases in Hd as [[_ (e & [=] & _)]|(req & Hp & Hm & _ & _ & _ & x & Hx & _ & Hh)].
    destruct (ap_calls _ _ _ _ _ _ Hp) as (n & -> & Hn & Hg). simpl in Hg, Hm.
    rewrite (Hg ltac:(done)). exists req, x. done.
  - apply readCheckoutURL_ok in Hrun as (o & raw & u & Ho & _ & _ & -> & Hs).
    exists o, u. split_and!; try done. by apply trustedBusinessOrigin_ok in Ho as (_ & ? & _).
Qed.
End checkout.

(** ** Request ids *)

(** A property of bytes is checked by trying the 256 of them. *)
Lemma byte_cases (P : N → bool) b :
  (b < 256)%N → forallb P (N.of_nat <$> seq 0 256) = true → P b = true.
Proof.
  intros Hb Hall. rewrite forallb_forall in Hall. apply Hall.
  apply list_elem_of_In, list_elem_of_fmap. exists (N.to_nat b).
  split; [lia|]. apply elem_of_seq. lia.
Qed.

Definition hex_pair (l : jsstring) : bool :=
  match l with [a; b] => is_hex a && is_hex b | _ => false end.

Lemma byte_hex_ok b : (b < 256)%N →
  is_hex (hex_digit (b / 16)) = true ∧ is_hex (hex_digit (b mod 16)) = true.
Proof.
  intros Hb. apply andb_true_iff.
  by apply (byte_cases (λ b, is_hex (hex_digit (b / 16)%N) && is_hex (hex_digit (b mod 16)%N))).
Qed.

Definition version_byte (b : N) : N := N.lor (N.land b 15) 64.
Definition variant_byte (b : N) : N := N.lor (N.land b 63) 128.

Lemma version_byte_hex b : (b < 256)%N →
  hex_digit (version_byte b / 16) = 52%N ∧ is_hex (hex_digit (version_byte b mod 16)) = true.
Proof.
  intros Hb. rewrite <- N.eqb_eq. apply andb_true_iff.
  by apply (byte_cases (λ b, (hex_digit (version_byte b / 16) =? 52)%N
                             && is_hex (hex_digit (version_byte b mod 16)))).
Qed.

Lemma variant_byte_hex b : (b < 256)%N →
  is_variant (hex_digit (variant_byte b / 16)) = true ∧
  is_hex (hex_digit (variant_byte b mod 16)) = true.
Proof.
  intros Hb. apply andb_true_iff.
  by apply (byte_cases (λ b, is_variant (hex_digit (variant_byte b / 16))
                             && is_hex (hex_digit (variant_byte b mod 16)))).
Qed.

Lemma format_request_id_ok bytes :
  length bytes = 16%nat → Forall (λ b, b < 256)%N bytes →
  uuidV4Pattern (format_request_id bytes) = true.
Proof.
  intros Hlen Hb. do 17 (destruct bytes as [|? bytes]; try discriminate Hlen).
  clear Hlen. rewrite !Forall_cons in Hb. destruct_and! Hb.
  unfold uuidV4Pattern, format_request_id, mark_bytes. cbn [alter list_alter].
  cbn [fmap list_fmap].
  repeat match goal with |- context [N.lor (N.land ?b 15) 64] =>
    change (N.lor (N.land b 15) 64) with (version_byte b) end.
  repeat match goal with |- context [N.lor (N.land ?b 63) 128] =>
    change (N.lor (N.land b 63) 128) with (variant_byte b) end.
  repeat match goal with H : (?b < 256)%N |- _ => first
    [ match goal with |- context [version_byte b] =>
        destruct (version_byte_hex b H) as [? ?]; clear H end
    | match goal with |- context [variant_byte b] =>
        destruct (variant_byte_hex b H) as [? ?]; clear H end
    | destruct (byte_hex_ok b H) as [? ?]; clear H ] end.
  change (js "-") with [45%N].
  unfold byte_hex. cbn -[hex_digit is_hex N.div N.modulo is_variant uuid_unit].
  repeat (apply andb_true_intro; split); try reflexivity; try assumption.
  all: match goal with Hd : ?c = 52%N |- uuid_unit _ ?c = true => rewrite Hd; reflexivity end.
Qed.

(** Sixteen random bytes always give a text the id check accepts, and
    such an id, once written to the platform's storage, is the id read back,
    with the state unchanged by the read. *)
Theorem request_id_roundtrip {ST} `{!TaroStorage ST, !TaroStorageLaws ST, !TaroIO ST}
    (s : MiniState ST) bytes s1 st'
    (Hr : taro_random s = (Some bytes, s1)) (Hlen : length bytes = 16%nat)
    (Hb : Forall (λ b, b < 256)%N bytes)
    (Hw : setStorageSync pendingTextTestRequestIDStorageKey (format_request_id bytes) (storage s1)
          = Some st') :
  ∃ id, createMiniTextTestRequestID s = (Ok id, s1, [CallRandom 16]) ∧
    uuidV4Pattern id = true ∧ length id = 36%nat ∧
    getPendingTextTestRequestID (setPendingTextTestRequestID (Some id) s1)
    = (Some id, set_storage st' s1).
Proof.
  pose proof (format_request_id_ok bytes Hlen Hb) as Hok. exists (format_request_id bytes).
  split_and!; [|done| |].
  - unfold createMiniTextTestRequestID. by rewrite Hr, Hlen.
  - unfold uuidV4Pattern in Hok. by apply andb_true_iff in Hok as [Hl%Nat.eqb_eq _].
  - unfold setPendingTextTestRequestID. rewrite Hok. cbn [negb]. rewrite Hw.
    unfold getPendingTextTestRequestID. cbn [storage set_storage].
    rewrite (storage_get_set _ _ _ _ Hw). simpl. by rewrite Hok.
Qed.

(** ** What the readers accept

    The encoders write a value the way the API documents it. *)
Definition jfield (k : string) (v : jsval) : jsstring * jsval := (js k, v).

Definition plan_json (p : MiniAppPlan) : jsval := JObj [
  jfield "id" (JNum (plan_id p)); jfield "title" (JStr (title p));
  jfield "subtitle" (JStr (subtitle p)); jfield "price_amount" (JNum (priceAmount p));
  jfield "currency" (JStr (currency p)); jfield "duration_unit" (JStr (durationUnit p));
  jfield "duration_value" (JNum (durationValue p))].
Definition product_json (p : MiniAppProduct) : jsval := JObj [
  jfield "id" (JNum (product_id p)); jfield "name" (JStr (name p));
  jfield "summary" (JStr (summary p)); jfield "description" (JStr (description p));
  jfield "image_url" (JStr (imageUrl p)); jfield "price_cents" (JNum (priceCents p));
  jfield "product_type" (JStr (match productType p with
                               | manual => js "manual" | subscription => js "subscription" end))].
Definition order_json (o : MiniAppOrder) : jsval := JObj [
  jfield "id" (JNum (order_id o)); jfield "product_name" (JStr (productName o));
  jfield "price_cents" (JNum (order_priceCents o));
  jfield "payment_status" (JStr (paymentStatus o));
  jfield "fulfillment_status" (JStr (fulfillmentStatus o));
  jfield "created_at" (JNum (createdAt o))].

Definition plan_ok (p : MiniAppPlan) : Prop :=
  positive_integer (plan_id p) = true ∧ is_finite (priceAmount p) = true ∧
  positive_integer (durationValue p) = true.
Definition product_ok (p : MiniAppProduct) : Prop :=
  positive_integer (product_id p) = true ∧ positive_integer (priceCents p) = true.
Definition order_ok (o : MiniAppOrder) : Prop :=
  positive_integer (order_id o) = true ∧ positive_integer (order_priceCents o) = true ∧
  is_finite (createdAt o) = true.
Definition token_json (t : MiniAppTokenSummary) : jsval := JObj [
  jfield "id" (JNum (token_id t)); jfield "name" (JStr (token_name t));
  jfield "key_hint" (JStr (keyHint t)); jfield "status" (JNum (num_of_Z (token_status t)));
  jfield "created_at" (JNum (token_createdAt t)); jfield "accessed_at" (JNum (accessedAt t));
  jfield "expires_at" (JNum (expiresAt t)); jfield "group" (JStr (group t));
  jfield "model_limits" (JArr (JStr <$> modelLimits t))].
Definition status_json (t : MiniTextTestStatus) : jsval := JObj [
  jfield "request_id" (JStr (requestID t)); jfield "model" (JStr (model t));
  jfield "state" (JStr (match state t with running => js "running" | succeeded => js "succeeded"
                        | failed => js "failed" | timed_out => js "timed_out" end));
  jfield "charge_ref" (JStr (chargeReference t)); jfield "charged_quota" (JNum (chargedQuota t));
  jfield "error_code" (JStr (errorCode t)); jfield "created_at" (JNum (st_createdAt t));
  jfield "started_at" (JNum (startedAt t)); jfield "completed_at" (JNum (completedAt t))].
Definition subscription_json (x : AccountSubscription) : jsval := JObj [
  jfield "plan_title" (JStr (planTitle x)); jfield "status" (JStr (sub_status x));
  jfield "ends_at" (JNum (endsAt x));
  jfield "quota" (JObj [jfield "remaining" (JNum (remaining (sub_quota x)));
                        jfield "unlimited" (JBool (unlimited (sub_quota x)));
                        jfield "unit" (JStr (js "quota"))])].

Definition token_ok (t : MiniAppTokenSummary) : Prop :=
  positive_integer (token_id t) = true ∧ token_status t ∈ [1; 2; 3; 4] ∧
  is_finite (token_createdAt t) = true ∧ is_finite (accessedAt t) = true ∧
  is_finite (expiresAt t) = true.
Definition status_ok (t : MiniTextTestStatus) : Prop :=
  trim (requestID t) ≠ [] ∧ trim (model t) ≠ [] ∧ safe_nonneg (chargedQuota t) = true ∧
  safe_nonneg (st_createdAt t) = true ∧ safe_nonneg (startedAt t) = true ∧
  safe_nonneg (completedAt t) = true.
Definition subscription_ok (x : AccountSubscription) : Prop :=
  is_finite (endsAt x) = true ∧ is_finite (remaining (sub_quota x)) = true.

(** A reader, the encoding of its values, the values it may produce and the one
    error it throws. *)
Class ReaderSpec {T} (read : jsval → res MiniError T) (encode : T → jsval) (ok : T → Prop)
    (err : MiniError) : Prop := {
  reader_complete x : ok x → read (encode x) = Ok x;
  reader_sound v x : read v = Ok x → ok x;
  reader_error v e : read v = Throw e → e = err;
}.

Lemma prop_field k k' v l :
  prop k (JObj (jfield k' v :: l)) = if String.eqb k k' then v else prop k (JObj l).
Proof.
  simpl. destruct (String.eqb_spec k k') as [->|Hne]; [by rewrite decide_True|].
  rewrite decide_False; [done|]. by intros ?%(inj js).
Qed.

Lemma number_if_Some test v x : number_if test v = Some x ↔ v = JNum x ∧ test x = true.
Proof.
  unfold number_if. destruct v as [| | |y| | |]; simpl; try (split; [done|by intros [? _]]).
  destruct (test y) eqn:E; split; try done.
  - by intros [= <-].
  - by intros [[= ->] _].
  - intros [[= ->] ?]. congruence.
Qed.
Lemma number_if_num test x : test x = true → number_if test (JNum x) = Some x.
Proof. intros Hx. by apply number_if_Some. Qed.
Lemma as_string_Some v x : as_string v = Some x ↔ v = JStr x.
Proof. destruct v; naive_solver. Qed.
Lemma nonblank_Some v x : nonblank v = Some x ↔ v = JStr x ∧ trim x ≠ [].
Proof. unfold nonblank. destruct v; simpl; try naive_solver. case_bool_decide; naive_solver. Qed.
Lemma as_strings_strs l : as_strings (JArr (JStr <$> l)) = Some l.
Proof.
  unfold as_strings. simpl. apply mapM_Some_2, Forall2_fmap_l.
  induction l; by constructor.
Qed.
Lemma is_lit_js x : is_lit (JStr (js x)) x = true.
Proof. by apply is_lit_spec. Qed.

(** Evaluate the property reads of a body written with [jfield], and the tests
    its hypotheses decide. *)
#[local] Ltac read_fields :=
  repeat rewrite prop_field; cbn [String.eqb Ascii.eqb Bool.eqb];
  repeat match goal with Hx : ?f ?x = true |- context [number_if ?f (JNum ?x)] =>
    rewrite (number_if_num f x Hx) end.
#[local] Ltac read_inv :=
  repeat match goal with
  | Hx : (_ ≫= _) = Ok _ |- _ => apply bind_Ok in Hx as (?&?&?)
  | Hx : expect _ _ = Ok _ |- _ => apply expect_Ok in Hx
  | Hx : number_if _ _ = Some _ |- _ => apply number_if_Some in Hx as [? ?]
  | Hx : nonblank _ = Some _ |- _ => apply nonblank_Some in Hx as [? ?]
  end; simplify_eq/=.
#[local] Ltac read_throw :=
  repeat match goal with
  | |- (?r ≫= _) = Throw _ → _ => let E := fresh "E" in
      destruct r eqn:E; unfold mbind, res_bind; [|clear -E; intros [= <-]; revert E]
  end; unfold check, expect; repeat case_match; congruence.

#[export] Instance plan_reader : ReaderSpec readPlan plan_json plan_ok invalidCommerceResponse.
Proof.
  split.
  - intros [] (?&?&?). unfold readPlan, readPositiveInteger, readFiniteNumber, readString, plan_json.
    simpl in *. read_fields. done.
  - intros v x. unfold readPlan, readPositiveInteger, readFiniteNumber. intros Hv.
    read_inv. done.
  - intros v e. unfold readPlan, readPositiveInteger, readFiniteNumber, readString. read_throw.
Qed.

#[export] Instance product_reader :
  ReaderSpec readProduct product_json product_ok invalidCommerceResponse.
Proof.
  split.
  - intros [? ? ? ? ? ? ty] (?&?).
    unfold readProduct, readPositiveInteger, readString, product_json.
    simpl in *. read_fields. by destruct ty.
  - intros v x. unfold readProduct, readPositiveInteger. intros Hv. read_inv. done.
  - intros v e. unfold readProduct, readPositiveInteger, readString. read_throw.
Qed.

#[export] Instance order_reader : ReaderSpec readOrder order_json order_ok invalidCommerceResponse.
Proof.
  split.
  - intros [] (?&?&?). unfold readOrder, readPositiveInteger, readFiniteNumber, readString, order_json.
    simpl in *. read_fields. done.
  - intros v x. unfold readOrder, readPositiveInteger, readFiniteNumber. intros Hv. read_inv. done.
  - intros v e. unfold readOrder, readPositiveInteger, readFiniteNumber, readString. read_throw.
Qed.

Lemma readStatus_Some v z : readStatus v = Some z → z ∈ [1; 2; 3; 4].
Proof. intros Hz%find_some. apply list_elem_of_In. tauto. Qed.
Lemma readStatus_num z : z ∈ [1; 2; 3; 4] → readStatus (JNum (num_of_Z z)) = Some z.
Proof. rewrite !elem_of_cons, elem_of_nil. by intros [->|[->|[->|[->|[]]]]]. Qed.

#[export] Instance token_reader :
  ReaderSpec readTokenSummary token_json token_ok invalidTokenResponse.
Proof.
  split.
  - intros [] (?&Hst&?&?&?). unfold readTokenSummary, tokenSummary, token_json.
    simpl in *. read_fields. by rewrite (readStatus_num _ Hst), as_strings_strs.
  - intros v x. unfold readTokenSummary, tokenSummary. intros Hv%expect_Ok.
    simplify_option_eq. read_inv. split_and!; try done. by eapply readStatus_Some.
  - intros v e. unfold readTokenSummary. read_throw.
Qed.

#[export] Instance subscription_reader :
  ReaderSpec readSubscription subscription_json subscription_ok invalidAccountOverview.
Proof.
  split.
  - intros [? ? ? []] (?&?).
    unfold readSubscription, readSubscriptionQuota, subscription_json. simpl in *.
    read_fields. simpl. read_fields. done.
  - intros v x. unfold readSubscription, readSubscriptionQuota. intros Hv.
    apply bind_Ok in Hv as ([[? ?] ?] & Hh%expect_Ok & (? & Hq%expect_Ok & [= <-])%bind_Ok).
    simplify_option_eq. read_inv. done.
  - intros v e. unfold readSubscription, readSubscriptionQuota.
    match goal with |- (?r ≫= _) = _ → _ => destruct r as [[[? ?] ?]|] eqn:E end;
      unfold mbind at 1, res_bind at 1; cbn beta iota.
    + match goal with |- (?r ≫= _) = _ → _ => destruct r eqn:E2 end;
        unfold mbind at 1, res_bind at 1; [done|].
      intros [= <-]. revert E2. unfold expect. case_match; congruence.
    + intros [= <-]. revert E. unfold expect. case_match; congruence.
Qed.

Lemma optional_or_Some {A} (f : jsval → option A) d v x :
  optional_or f d v = Some x → x = d ∨ f v = Some x.
Proof. destruct v; simpl; naive_solver. Qed.

#[export] Instance status_reader :
  ReaderSpec readTextTestStatus status_json status_ok invalidTextTestResponse.
Proof.
  split.
  - intros [? ? st ? ? ? ? ? ?] (?&?&?&?&?&?).
    unfold readTextTestStatus, textTestStatus, status_json. simpl in *. read_fields.
    unfold nonblank. simpl. rewrite !bool_decide_eq_false_2 by done. simpl.
    unfold optional_or. read_fields. by destruct st.
  - intros v x. unfold readTextTestStatus, textTestStatus. intros Hv%expect_Ok.
    simplify_option_eq. read_inv. split_and!; try done.
    match goal with Hc : optional_or (number_if _) _ _ = Some _ |- _ =>
      apply optional_or_Some in Hc as [->|[_ Hn]%number_if_Some] end; done.
  - intros v e. unfold readTextTestStatus. read_throw.
Qed.

(** A list is read when each of its items is. *)
#[export] Instance list_reader {T} (read : jsval → res MiniError T) encode ok
    `{!ReaderSpec read encode ok invalidCommerceResponse} :
  ReaderSpec (λ v, readList v read) (λ xs, JArr (encode <$> xs)) (Forall ok) invalidCommerceResponse.
Proof.
  split.
  - intros xs Hok. unfold readList. simpl. apply mapM_res_Forall2, Forall2_fmap_l.
    induction Hok; constructor; [by apply reader_complete|done].
  - intros v xs. unfold readList. intros (l & _ & Hm%mapM_res_Forall2)%bind_Ok.
    induction Hm; constructor; [by eapply reader_sound|done].
  - intros v e. unfold readList.
    destruct (as_array v) as [l|]; simpl; unfold mbind, res_bind; [|congruence].
    apply mapM_res_const_throw. intros x e' He. by eapply reader_error.
Qed.

(** The readers of server answers are exact: a plan, product, order, token,
    subscription or text-test status written as the API documents it is read
    back as it was; what a reader returns, from any value whatever, has positive
    integer ids and prices, finite or safe non-negative numbers and non-blank
    ids as its type promises; any other answer is refused with the service's own
    error, a list as a whole when one of its items is. *)
Theorem service_readers :
  ReaderSpec (λ v, readList v readPlan) (λ l, JArr (plan_json <$> l)) (Forall plan_ok)
    invalidCommerceResponse ∧
  ReaderSpec (λ v, readList v readProduct) (λ l, JArr (product_json <$> l)) (Forall product_ok)
    invalidCommerceResponse ∧
  ReaderSpec (λ v, readList v readOrder) (λ l, JArr (order_json <$> l)) (Forall order_ok)
    invalidCommerceResponse ∧
  ReaderSpec readTokenSummary token_json token_ok invalidTokenResponse ∧
  ReaderSpec readSubscription subscription_json subscription_ok invalidAccountOverview ∧
  ReaderSpec readTextTestStatus status_json status_ok invalidTextTestResponse.
Proof. split_and!; apply _. Qed.

Import Sample.

Definition checkout_body : jsval :=
  JObj [(js "checkout_url", JStr (js "https://one.example/miniapp-checkout#checkout_ticket=t1"))].

Lemma checkout_url_trusted_witness :
  ∃ o u, trustedBusinessOrigin = Ok o ∧ url_protocol o = js "https:" ∧
    js "https://one.example/miniapp-checkout#checkout_ticket=t1" = url_href u ∧ safe_checkout o u.
Proof.
  destruct (startMiniAppCheckout (TaroIO0 := answering (Some (ok_response checkout_body)))
              target_plan (num_of_Z 7) signed_in) as [[r s'] t] eqn:E.
  assert (r = Ok (js "https://one.example/miniapp-checkout#checkout_ticket=t1")) as ->
    by (vm_compute in E |- *; congruence).
  exact (proj2 (proj2 (checkout_url_trusted
    (TaroIO0 := answering (Some (ok_response checkout_body))) target_plan (num_of_Z 7) signed_in _ s' t E))).
Defined.

Lemma request_id_roundtrip_witness :
  ∃ id, createMiniTextTestRequestID (TaroIO0 := answering None) signed_in
        = (Ok id, signed_in, [CallRandom 16]) ∧ uuidV4Pattern id = true.
Proof.
  destruct (request_id_roundtrip (TaroIO0 := answering None) signed_in (repeat 255%N 16) signed_in
              (Some (format_request_id (repeat 255%N 16))) eq_refl eq_refl
              ltac:(repeat constructor) eq_refl) as (id & H1 & H2 & _).
  exists id. split; [exact H1|exact H2].
Defined.
