(* ===== verification/Actions.v ===== *)
(** Event handlers of an object with mutable fields.

    A handler changes the fields and calls back into the page; it is a function
    from the state to the state it leaves and the calls it made, in order.
    Handlers are sequenced with [;;].  The lifecycle classes of the mini program
    are written with these combinators. *)
From S2P Require Import Prelude.

Section actions.
Context {S O : Type}.

Definition act : Type := S → S * list O.

Definition skip : act := λ s, (s, []).
Definition emit (o : O) : act := λ s, (s, [o]).
Definition upd (f : S → S) : act := λ s, (f s, []).
Definition seq_act (a b : act) : act := λ s,
  let '(s1, o1) := a s in let '(s2, o2) := b s1 in (s2, o1 ++ o2).
(** A conditional on the state at the time it is reached. *)
Definition ite (c : S → bool) (a b : act) : act := λ s, if c s then a s else b s.
Definition when (c : S → bool) (a : act) : act := ite c a skip.
(** Read the state, then go on. *)
Definition reading {A} (f : S → A) (k : A → act) : act := λ s, k (f s) s.
End actions.
Arguments act : clear implicits.

Declare Scope act_scope.
Delimit Scope act_scope with act.
Bind Scope act_scope with act.
Notation "a ;; b" := (seq_act a b) : act_scope.

(** The state and the calls of handlers in sequence. *)
Lemma seq_fst {S O} (a b : act S O) s : (seq_act a b s).1 = (b (a s).1).1.
Proof. unfold seq_act. destruct (a s) as [s1 o1]. cbn. by destruct (b s1). Qed.
Lemma seq_snd {S O} (a b : act S O) s : (seq_act a b s).2 = (a s).2 ++ (b (a s).1).2.
Proof. unfold seq_act. destruct (a s) as [s1 o1]. cbn. by destruct (b s1). Qed.

(** ** Reasoning about handlers *)
Section triples.
Context {S O : Type}.
Implicit Types (a b : act S O) (P Q : S → Prop).

(** [a] takes states of [P] to states of [Q], and every call it makes is allowed. *)
Definition triple P (a : act S O) (Q : S → Prop) (allowed : O → Prop) : Prop :=
  ∀ s, P s → Q (a s).1 ∧ Forall allowed (a s).2.

Lemma triple_seq P Q R allowed a b :
  triple P a Q allowed → triple Q b R allowed → triple P (seq_act a b) R allowed.
Proof.
  intros Ha Hb s Hs. unfold seq_act. destruct (Ha s Hs) as [H1 H2].
  destruct (a s) as [s1 o1]. destruct (Hb s1 H1) as [H3 H4].
  destruct (b s1) as [s2 o2]. simpl in *. by rewrite Forall_app.
Qed.

Lemma triple_skip P allowed : triple P (skip (O := O)) P allowed.
Proof. intros s Hs. by split. Qed.

Lemma triple_emit P (allowed : O → Prop) o : allowed o → triple P (emit o) P allowed.
Proof. intros Ho s Hs. split; [done|]. by repeat constructor. Qed.

Lemma triple_upd P Q allowed f : (∀ s, P s → Q (f s)) → triple P (upd (O := O) f) Q allowed.
Proof. intros Hf s Hs. split; [by apply Hf|constructor]. Qed.

Lemma triple_ite P Q allowed c a b :
  triple (λ s, P s ∧ c s = true) a Q allowed → triple (λ s, P s ∧ c s = false) b Q allowed →
  triple P (ite c a b) Q allowed.
Proof. intros Ha Hb s Hs. unfold ite. destruct (c s) eqn:E; [apply Ha|apply Hb]; done. Qed.

Lemma triple_conseq P P' Q Q' (al al' : O → Prop) a :
  triple P' a Q' al' → (∀ s, P s → P' s) → (∀ s, Q' s → Q s) → (∀ o, al' o → al o) →
  triple P a Q al.
Proof.
  intros Ht HP HQ Hal s Hs. destruct (Ht s (HP s Hs)) as [H1 H2].
  split; [by apply HQ|]. eapply Forall_impl; [exact H2|done].
Qed.
End triples.

(** ** Runs of a machine *)
Section runs.
Context {S E O : Type} (enabled : E → S → Prop) (handle : E → act S O).

(** A step handles an event that may happen. *)
Definition machine_step (s : S) (l : E * list O) (s' : S) : Prop :=
  enabled l.1 s ∧ handle l.1 s = (s', l.2).

(** Running events in order: the state after them, and the events with their calls. *)
Fixpoint run_after (es : list E) (s : S) : S :=
  match es with [] => s | e :: es => run_after es (handle e s).1 end.
Fixpoint run_trace (es : list E) (s : S) : list (E * list O) :=
  match es with [] => [] | e :: es => (e, (handle e s).2) :: run_trace es (handle e s).1 end.
Fixpoint enabled_all (es : list E) (s : S) : Prop :=
  match es with [] => True | e :: es => enabled e s ∧ enabled_all es (handle e s).1 end.

Lemma run_reaches es s : enabled_all es s → reaches machine_step s (run_trace es s) (run_after es s).
Proof.
  revert s. induction es as [|e es IH]; intros s; simpl; [constructor|].
  intros [He Hes]. eapply reaches_cons; [|by apply IH]. split; [done|]. simpl. by destruct (handle e s).
Qed.
End runs.

(** The calls made along a run. *)
Definition outs {E O} (ls : list (E * list O)) : list O := concat (snd <$> ls).

Lemma outs_snoc {E O} (ls : list (E * list O)) l : outs (ls ++ [l]) = outs ls ++ l.2.
Proof. unfold outs. rewrite fmap_app, concat_app. simpl. by rewrite app_nil_r. Qed.
