(* ===== verification/BindingLifecycle.v ===== *)
(** The account-binding page's controller (miniapp/src/pages/binding/lifecycle.ts).

    [BindingLifecycle] asks the server for a binding, opens its page, and polls
    until the binding is made, fails or expires.  Its fields are the first part
    of the state; the second part is the world it runs in: the clock, the
    platform's live timers, and the promises it awaits ([creates] calls of
    [createBinding] and one entry of [checks] per call of [getStatus]).

    A step is one run of code between two awaits: a method called by the page, a
    timer that fires, a promise that settles, or time passing.  Promises settle
    in any order and at any time.  The callbacks return and do not call back
    into the object, as in pages/binding/index.tsx. *)
From S2P Require Import Prelude JsString Actions.
Open Scope Z_scope.
Open Scope act_scope.

Module Binding.

Definition bindingPollIntervalMs : Z := 3000.
Definition bindingTimeoutMs : Z := 5 * 60 * 1000.

Inductive BindingFailureKey := bindingExpired | bindingFailed | bindingWebViewFailed.
Inductive Status := pending | bound | expired.

Record State := mkState {
  bindingId : option jsstring;
  deadline : Z;
  deadlineTimer : option nat;
  foreground : bool;
  intervalTimer : option nat;
  polling : bool;
  starting : bool;
  stopped : bool;
  now : Z;
  nextTimer : nat;
  intervals : list nat;
  timeouts : list (nat * Z);
  creates : nat;
  checks : list jsstring;
}.

Definition set_bindingId (x : option jsstring) (s : State) : State :=
  mkState x (deadline s) (deadlineTimer s) (foreground s) (intervalTimer s) (polling s)
    (starting s) (stopped s) (now s) (nextTimer s) (intervals s) (timeouts s) (creates s)
    (checks s).
Definition set_deadline (x : Z) (s : State) : State :=
  mkState (bindingId s) x (deadlineTimer s) (foreground s) (intervalTimer s) (polling s)
    (starting s) (stopped s) (now s) (nextTimer s) (intervals s) (timeouts s) (creates s)
    (checks s).
Definition set_deadlineTimer (x : option nat) (s : State) : State :=
  mkState (bindingId s) (deadline s) x (foreground s) (intervalTimer s) (polling s) (starting s)
    (stopped s) (now s) (nextTimer s) (intervals s) (timeouts s) (creates s) (checks s).
Definition set_foreground (x : bool) (s : State) : State :=
  mkState (bindingId s) (deadline s) (deadlineTimer s) x (intervalTimer s) (polling s)
    (starting s) (stopped s) (now s) (nextTimer s) (intervals s) (timeouts s) (creates s)
    (checks s).
Definition set_intervalTimer (x : option nat) (s : State) : State :=
  mkState (bindingId s) (deadline s) (deadlineTimer s) (foreground s) x (polling s) (starting s)
    (stopped s) (now s) (nextTimer s) (intervals s) (timeouts s) (creates s) (checks s).
Definition set_polling (x : bool) (s : State) : State :=
  mkState (bindingId s) (deadline s) (deadlineTimer s) (foreground s) (intervalTimer s) x
    (starting s) (stopped s) (now s) (nextTimer s) (intervals s) (timeouts s) (creates s)
    (checks s).
Definition set_starting (x : bool) (s : State) : State :=
  mkState (bindingId s) (deadline s) (deadlineTimer s) (foreground s) (intervalTimer s)
    (polling s) x (stopped s) (now s) (nextTimer s) (intervals s) (timeouts s) (creates s)
    (checks s).
Definition set_stopped (x : bool) (s : State) : State :=
  mkState (bindingId s) (deadline s) (deadlineTimer s) (foreground s) (intervalTimer s)
    (polling s) (starting s) x (now s) (nextTimer s) (intervals s) (timeouts s) (creates s)
    (checks s).
Definition set_now (x : Z) (s : State) : State :=
  mkState (bindingId s) (deadline s) (deadlineTimer s) (foreground s) (intervalTimer s)
    (polling s) (starting s) (stopped s) x (nextTimer s) (intervals s) (timeouts s) (creates s)
    (checks s).
Definition set_nextTimer (x : nat) (s : State) : State :=
  mkState (bindingId s) (deadline s) (deadlineTimer s) (foreground s) (intervalTimer s)
    (polling s) (starting s) (stopped s) (now s) x (intervals s) (timeouts s) (creates s)
    (checks s).
Definition set_intervals (x : list nat) (s : State) : State :=
  mkState (bindingId s) (deadline s) (deadlineTimer s) (foreground s) (intervalTimer s)
    (polling s) (starting s) (stopped s) (now s) (nextTimer s) x (timeouts s) (creates s)
    (checks s).
Definition set_timeouts (x : list (nat * Z)) (s : State) : State :=
  mkState (bindingId s) (deadline s) (deadlineTimer s) (foreground s) (intervalTimer s)
    (polling s) (starting s) (stopped s) (now s) (nextTimer s) (intervals s) x (creates s)
    (checks s).
Definition set_creates (x : nat) (s : State) : State :=
  mkState (bindingId s) (deadline s) (deadlineTimer s) (foreground s) (intervalTimer s)
    (polling s) (starting s) (stopped s) (now s) (nextTimer s) (intervals s) (timeouts s) x
    (checks s).
Definition set_checks (x : list jsstring) (s : State) : State :=
  mkState (bindingId s) (deadline s) (deadlineTimer s) (foreground s) (intervalTimer s)
    (polling s) (starting s) (stopped s) (now s) (nextTimer s) (intervals s) (timeouts s)
    (creates s) x.

Definition is_some {X} (o : option X) : bool := match o with Some _ => true | None => false end.

(** Calls to the dependencies. *)
Inductive Out :=
| onLoading
| createBinding
| onReady (webUrl : jsstring)
| getStatus (bindingId : jsstring)
| onBound
| onError (key : BindingFailureKey).

Abbreviation A := (act State Out).

Definition isActive (s : State) : bool := negb (stopped s) && foreground s.

Definition clearInterval (t : nat) (s : State) : State :=
  set_intervals (filter (λ x, x ≠ t) (intervals s)) s.
Definition clearTimeout (t : nat) (s : State) : State :=
  set_timeouts (filter (λ x, x.1 ≠ t) (timeouts s)) s.

(** A new timer and the field that keeps it. *)
Definition startInterval (s : State) : State :=
  let t := nextTimer s in
  set_nextTimer (S t) (set_intervals (t :: intervals s) (set_intervalTimer (Some t) s)).
Definition startDeadline (s : State) : State :=
  let t := nextTimer s in
  set_nextTimer (S t)
    (set_timeouts ((t, now s + bindingTimeoutMs) :: timeouts s) (set_deadlineTimer (Some t) s)).

Definition stopPolling : A := upd (λ s,
  match intervalTimer s with
  | None => s
  | Some t => set_intervalTimer None (clearInterval t s)
  end).

Definition stop : A :=
  upd (set_stopped true) ;;
  stopPolling ;;
  upd (λ s, match deadlineTimer s with
            | None => s
            | Some t => set_deadlineTimer None (clearTimeout t s)
            end).

Definition fail (key : BindingFailureKey) : A := stop ;; emit (onError key).

Definition expire : A := when (λ s, negb (stopped s)) (stop ;; emit (onError bindingExpired)).

Definition pastDeadline (s : State) : bool := deadline s <=? now s.

(** Up to the await of [getStatus]. *)
Definition poll : A := λ s,
  match bindingId s with
  | None => skip s
  | Some id =>
      (if negb (isActive s) || polling s then skip
       else
         upd (set_polling true) ;;
         ite pastDeadline
           (expire ;; upd (set_polling false))
           (emit (getStatus id) ;; upd (λ s, set_checks (id :: checks s) s))) s
  end.

Definition startPolling : A :=
  when (λ s, isActive s && is_some (bindingId s) && negb (is_some (intervalTimer s)))
    (upd startInterval ;; poll).

(** Up to the await of [createBinding]. *)
Definition show : A :=
  when (λ s, negb (stopped s))
    (upd (set_foreground true) ;;
     ite (λ s, is_some (bindingId s)) startPolling
       (when (λ s, negb (starting s))
          (upd (set_starting true) ;; emit onLoading ;; emit createBinding ;;
           upd (λ s, set_creates (S (creates s)) s)))).

Definition hide : A := upd (set_foreground false) ;; stopPolling.
Definition unload : A := upd (set_foreground false) ;; stop.
Definition cancel : A := stop.
Definition webViewFailed : A := when (λ s, negb (stopped s)) (fail bindingWebViewFailed).

(** The rest of [show] once [createBinding] settled: the binding, or [None] when it
    was rejected. *)
Definition created (binding : option (jsstring * jsstring)) : A :=
  match binding with
  | Some (id, webUrl) =>
      when isActive
        (upd (set_bindingId (Some id)) ;;
         upd (λ s, set_deadline (now s + bindingTimeoutMs) s) ;;
         upd startDeadline ;;
         emit (onReady webUrl) ;;
         startPolling)
  | None => when isActive (fail bindingFailed)
  end ;; upd (set_starting false).

(** The rest of [poll] once [getStatus] settled. *)
Definition checked (status : option Status) : A :=
  match status with
  | Some st =>
      when isActive
        (ite (λ s, pastDeadline s || match st with expired => true | _ => false end)
           expire
           match st with bound => stop ;; emit onBound | _ => skip end)
  | None => when isActive (fail bindingFailed)
  end ;; upd (set_polling false).

(** ** Steps *)
Inductive Event :=
| Show | Hide | Unload | Cancel | WebViewFailed
| Created (binding : option (jsstring * jsstring))
| Checked (bindingId : jsstring) (status : option Status)
| IntervalFires (timer : nat)
| DeadlineFires (timer : nat)
| Elapse (d : Z).

(** Remove one occurrence. *)
Fixpoint remove_one (x : jsstring) (l : list jsstring) : list jsstring :=
  match l with
  | [] => []
  | y :: l => if decide (x = y) then l else y :: remove_one x l
  end.

(** When an event can happen: a promise settles only if it is awaited, a timer
    fires only while it is live and, for the deadline, not before it is due. *)
Definition enabled (e : Event) (s : State) : Prop :=
  match e with
  | Created _ => (0 < creates s)%nat
  | Checked id _ => id ∈ checks s
  | IntervalFires t => t ∈ intervals s
  | DeadlineFires t => ∃ due, (t, due) ∈ timeouts s ∧ due <= now s
  | Elapse d => 0 <= d
  | _ => True
  end.

Definition handle (e : Event) : A :=
  match e with
  | Show => show
  | Hide => hide
  | Unload => unload
  | Cancel => cancel
  | WebViewFailed => webViewFailed
  | Created b => upd (λ s, set_creates (pred (creates s)) s) ;; created b
  | Checked id st => upd (λ s, set_checks (remove_one id (checks s)) s) ;; checked st
  | IntervalFires _ => poll
  | DeadlineFires t => upd (clearTimeout t) ;; expire
  | Elapse d => upd (λ s, set_now (now s + d) s)
  end.

Definition step : State → Event * list Out → State → Prop := machine_step enabled handle.

(** The object as the constructor leaves it. *)
Definition init (t0 : Z) : State :=
  mkState None 0 None false None false false false t0 0 [] [] 0 [].

(** ** The invariant *)
Record inv (s : State) : Prop := {
  (** at most one status request and one creation are in flight *)
  inv_checks : length (checks s) = if polling s then 1%nat else 0%nat;
  inv_creates : creates s = if starting s then 1%nat else 0%nat;
  (** a binding is asked for only while there is none *)
  inv_starting : starting s && is_some (bindingId s) = false;
  (** the live timers are the ones the object holds *)
  inv_intervals : intervals s = option_list (intervalTimer s);
  inv_timeouts : timeouts s = (λ t, (t, deadline s)) <$> option_list (deadlineTimer s);
  (** it polls exactly while it is active and has a binding *)
  inv_interval : is_some (intervalTimer s) = isActive s && is_some (bindingId s);
  (** the deadline timer lives exactly as long as a binding that is not over *)
  inv_deadline : is_some (deadlineTimer s) = negb (stopped s) && is_some (bindingId s);
}.

Lemma inv_init t0 : inv (init t0).
Proof. by split. Qed.

Lemma length_remove_one x l : x ∈ l → length (remove_one x l) = pred (length l).
Proof.
  induction l as [|y l IH]; [by intros ?%elem_of_nil|].
  rewrite elem_of_cons. simpl. case_decide; [done|]. intros [->|Hl]; [done|]. simpl.
  rewrite IH by done. destruct l; [by apply elem_of_nil in Hl|done].
Qed.

(** The live timers are held in the fields. *)
Definition tidy (s : State) : Prop :=
  (∀ t, t ∈ intervals s → intervalTimer s = Some t) ∧
  (∀ t d, (t, d) ∈ timeouts s → deadlineTimer s = Some t).

Lemma inv_tidy s : inv s → tidy s.
Proof.
  intros Hi. unfold tidy. rewrite (inv_intervals _ Hi), (inv_timeouts _ Hi). split.
  - intros t. destruct (intervalTimer s); simpl; rewrite ?list_elem_of_singleton, ?elem_of_nil; naive_solver.
  - intros t d. destruct (deadlineTimer s); simpl; rewrite ?list_elem_of_singleton, ?elem_of_nil; naive_solver.
Qed.

(** The state once stopped. *)
Definition halted (s : State) : State :=
  mkState (bindingId s) (deadline s) None (foreground s) None (polling s) (starting s) true
    (now s) (nextTimer s) [] [] (creates s) (checks s).

Lemma filter_none {X} (P : X → Prop) `{∀ x, Decision (P x)} l :
  (∀ x, x ∈ l → ¬ P x) → filter P l = [].
Proof.
  intros Hl. apply list_nil_subseteq. intros x [Hp Hx]%list_elem_of_filter. by apply Hl in Hx.
Qed.

Lemma no_timers {X} (l : list X) : (∀ x, x ∉ l) → l = [].
Proof. destruct l as [|x l]; [done|]. intros Hl. destruct (Hl x). by left. Qed.

Lemma stop_eq s : tidy s → stop s = (halted s, []).
Proof.
  intros [Hi Ht]. destruct s as [bid dl dt fg it po st sp nw nt ints tos cr ck].
  assert (match it with Some i => filter (λ x, x ≠ i) ints | None => ints end = []) as Ei.
  { destruct it; [apply filter_none|apply no_timers]; intros x Hx; apply Hi in Hx; naive_solver. }
  assert (match dt with Some d => filter (λ x, x.1 ≠ d) tos | None => tos end = []) as Et.
  { destruct dt; [apply filter_none|apply no_timers]; intros [x y] Hx; apply Ht in Hx; naive_solver. }
  unfold stop, stopPolling, seq_act, upd, clearInterval, clearTimeout, halted.
  destruct it, dt; cbn -[filter] in *; by rewrite ?Ei, ?Et.
Qed.

Lemma fail_eq key s : tidy s → fail key s = (halted s, [onError key]).
Proof. intros Hs. unfold fail, seq_act. by rewrite (stop_eq s Hs). Qed.

Lemma expire_eq s : tidy s →
  expire s = if stopped s then (s, []) else (halted s, [onError bindingExpired]).
Proof.
  intros Hs. unfold expire, when, ite, seq_act, skip. destruct (stopped s); [done|]. cbn [negb].
  by rewrite (stop_eq s Hs).
Qed.

Lemma poll_eq s : tidy s → poll s =
  match bindingId s with
  | None => (s, [])
  | Some id =>
      if negb (isActive s) || polling s then (s, [])
      else if pastDeadline s then (halted s, [onError bindingExpired])
      else (set_checks (id :: checks s) (set_polling true s), [getStatus id])
  end.
Proof.
  intros Hs. unfold poll. destruct (bindingId s) as [id|] eqn:Eb; [|done].
  destruct (negb (isActive s) || polling s) eqn:Ea; [done|].
  apply orb_false_iff in Ea as [Ea Ep]. unfold isActive in Ea. boolify.
  unfold seq_act, ite, upd at 1, emit. change (pastDeadline (set_polling true s)) with (pastDeadline s).
  destruct (pastDeadline s); [|done].
  rewrite expire_eq by done. change (stopped (set_polling true s)) with (stopped s).
  match goal with Hst : stopped s = false |- _ => rewrite Hst end.
  unfold upd. simpl. f_equal. unfold halted, set_polling. simpl. by rewrite Ep.
Qed.

(** The state once polling is stopped. *)
Definition paused (s : State) : State := set_intervals [] (set_intervalTimer None s).

Lemma stopPolling_eq s : tidy s → stopPolling s = (paused s, []).
Proof.
  intros [Hi _]. destruct s as [bid dl dt fg it po st sp nw nt ints tos cr ck].
  assert (match it with Some i => filter (λ x, x ≠ i) ints | None => ints end = []) as Ei.
  { destruct it; [apply filter_none|apply no_timers]; intros x Hx; apply Hi in Hx; naive_solver. }
  unfold stopPolling, upd, clearInterval, paused.
  destruct it; cbn -[filter] in *; by rewrite ?Ei.
Qed.

(** The flags that count the awaited promises. *)
Definition counted (s : State) : Prop :=
  length (checks s) = (if polling s then 1%nat else 0%nat) ∧
  creates s = (if starting s then 1%nat else 0%nat) ∧
  starting s && is_some (bindingId s) = false.

(** Close the fields of the invariant: evaluate the booleans the hypotheses know. *)
Ltac known :=
  repeat match goal with
  | Hx : ?b = true |- context [?b] => rewrite Hx
  | Hx : ?b = false |- context [?b] => rewrite Hx
  end.
Ltac fields :=
  split; unfold isActive in *; simpl in *; known; rewrite ?andb_false_r, ?andb_true_r;
  simpl; first [done | congruence |
    match goal with Hx : ?a = _ |- ?a = _ => rewrite Hx; known; by rewrite ?andb_false_r end].

Lemma halted_inv s : counted s → inv (halted s).
Proof. intros (? & ? & ?). fields. Qed.

Lemma inv_counted s : inv s → counted s.
Proof. intros Hi. split_and!; apply Hi. Qed.

(** While polling is about to start. *)
Record ready_to_poll (s : State) : Prop := {
  rp_counted : counted s;
  rp_tidy : tidy s;
  rp_intervals : intervals s = option_list (intervalTimer s);
  rp_timeouts : timeouts s = (λ t, (t, deadline s)) <$> option_list (deadlineTimer s);
  rp_active : isActive s = true;
  rp_binding : is_some (bindingId s) = true;
  rp_deadline : is_some (deadlineTimer s) = true;
}.

Lemma isActive_true s : isActive s = true → stopped s = false ∧ foreground s = true.
Proof. unfold isActive. intros. by boolify. Qed.

Lemma tidy_startInterval s : tidy s → intervalTimer s = None → tidy (startInterval s).
Proof.
  intros [Hi Hd] Hn. split; [|exact Hd]. simpl. intros t.
  rewrite elem_of_cons. intros [->|Hin%Hi]; [done|congruence].
Qed.

Lemma startPolling_inv s : ready_to_poll s → inv (startPolling s).1.
Proof.
  intros [(Hck & Hcr & Hsb) Ht Hi Hto Ha Hb Hd].
  unfold startPolling, when, ite. rewrite Ha, Hb. cbn [andb].
  apply isActive_true in Ha as [Hst Hfg].
  destruct (intervalTimer s) as [i|] eqn:Hit; simpl.
  { split; try done; unfold isActive; by rewrite ?Hst, ?Hfg, ?Hit, ?Hb, ?Hd. }
  unfold seq_act, upd. rewrite (poll_eq _ (tidy_startInterval _ Ht Hit)). simpl.
  destruct (bindingId s) as [id|] eqn:Eb; [|done].
  unfold isActive, pastDeadline. simpl. rewrite Hst, Hfg. simpl.
  destruct (polling s) eqn:Ep; [|destruct (deadline s <=? now s)].
  - split; unfold isActive; simpl; by rewrite ?Hst, ?Hfg, ?Hit, ?Eb, ?Hd, ?Ep, ?Hi.
  - apply halted_inv. split_and!; simpl; by rewrite ?Ep, ?Eb.
  - split; unfold isActive; simpl; by rewrite ?Hst, ?Hfg, ?Hit, ?Eb, ?Hd, ?Ep, ?Hi, ?Hck.
Qed.

(** [startPolling] neither reads nor writes [starting]. *)
Lemma startPolling_frame x s : tidy s →
  startPolling (set_starting x s) = (set_starting x (startPolling s).1, (startPolling s).2).
Proof.
  intros Ht. unfold startPolling, when, ite. simpl.
  change (isActive (set_starting x s)) with (isActive s).
  destruct (_ && _) eqn:Ec; [|done]. boolify.
  assert (intervalTimer s = None) as Hn by (by destruct (intervalTimer s)).
  unfold seq_act, upd.
  assert (tidy (startInterval (set_starting x s))) as Ht' by (by apply tidy_startInterval).
  rewrite (poll_eq _ Ht'), (poll_eq _ (tidy_startInterval _ Ht Hn)). simpl.
  destruct (bindingId s) as [id|]; [|done].
  change (isActive (startInterval (set_starting x s))) with (isActive (startInterval s)).
  change (pastDeadline (startInterval (set_starting x s))) with (pastDeadline (startInterval s)).
  destruct (_ || _); [done|]. by destruct (pastDeadline (startInterval s)).
Qed.

Lemma show_inv s : inv s → inv (show s).1.
Proof.
  intros Hi. unfold show, when, ite. destruct (stopped s) eqn:Es; [done|]. cbn [negb].
  unfold seq_act, upd at 1. cbn [bindingId set_foreground].
  destruct (is_some (bindingId s)) eqn:Hb.
  - destruct (startPolling _) as [s2 o2] eqn:E. simpl. change s2 with (s2, o2).1. rewrite <- E.
    apply startPolling_inv. split; try done; try apply Hi.
    + by apply inv_counted in Hi.
    + by apply inv_tidy in Hi.
    + unfold isActive. simpl. by rewrite Es.
    + simpl. by rewrite (inv_deadline _ Hi), Es, Hb.
  - destruct Hi as [? Hcr ? ? ? Hit ?]. simpl. rewrite Hb, andb_false_r in Hit.
    destruct (starting s) eqn:Est; fields.
Qed.

Lemma hide_inv s : inv s → inv (hide s).1.
Proof.
  intros Hi. unfold hide, seq_act, upd. rewrite stopPolling_eq by (by apply inv_tidy in Hi).
  destruct Hi. fields.
Qed.

Lemma stop_inv s : inv s → inv (stop s).1.
Proof.
  intros Hi. rewrite stop_eq by (by apply inv_tidy). by apply halted_inv, inv_counted.
Qed.

Lemma unload_inv s : inv s → inv (unload s).1.
Proof.
  intros Hi. unfold unload, seq_act, upd. rewrite stop_eq by (by apply inv_tidy in Hi).
  apply (halted_inv (set_foreground false s)). by apply inv_counted in Hi.
Qed.

Lemma webViewFailed_inv s : inv s → inv (webViewFailed s).1.
Proof.
  intros Hi. unfold webViewFailed, when, ite. destruct (stopped s); [done|]. cbn [negb].
  rewrite fail_eq by (by apply inv_tidy). by apply halted_inv, inv_counted.
Qed.

Lemma poll_inv s : inv s → inv (poll s).1.
Proof.
  intros Hi. rewrite poll_eq by (by apply inv_tidy).
  destruct (bindingId s) as [id|] eqn:Eb; [|done].
  destruct (_ || _) eqn:Ec; [done|]. apply orb_false_iff in Ec as [_ Ep].
  destruct (pastDeadline s); simpl; [by apply halted_inv, inv_counted|].
  destruct Hi as [Hck ? ? ? ? Hii ?]. rewrite Ep in Hck. fields.
Qed.

(** A binding that arrives at an active object. *)
Definition opened (id : jsstring) (s : State) : State :=
  startDeadline (set_deadline (now s + bindingTimeoutMs) (set_bindingId (Some id) s)).

Lemma created_active id url s : isActive s = true → created (Some (id, url)) s =
  (set_starting false (startPolling (opened id s)).1, onReady url :: (startPolling (opened id s)).2).
Proof.
  intros Ha. unfold created, when, ite, seq_act, upd, emit. rewrite Ha.
  change (startDeadline _) with (opened id s).
  destruct (startPolling (opened id s)) as [s2 o2]. simpl. by rewrite app_nil_r.
Qed.

Lemma opened_ready id s :
  isActive s = true → bindingId s = None → creates s = 0%nat → inv (set_creates 1 s) →
  starting s = true → ready_to_poll (opened id (set_starting false s)) ∧ tidy (opened id s).
Proof.
  intros Ha Hb Hc Hi Hs. pose proof (inv_tidy _ Hi) as [Ht _].
  pose proof (inv_deadline _ Hi) as Hd. simpl in Hd. rewrite Hb, andb_false_r in Hd.
  pose proof (inv_timeouts _ Hi) as Hto. simpl in Hto.
  destruct (deadlineTimer s) eqn:Ed; [done|]. simpl in Hto.
  assert (∀ x, tidy (opened id (set_starting x s))) as Htidy.
  { intros x. split; [exact Ht|]. simpl. rewrite Hto. intros t d.
    rewrite list_elem_of_singleton. by intros [= ->]. }
  split; [|apply (Htidy (starting s))]. split; try done; simpl.
  - split_and!; simpl; [apply Hi|done|done].
  - apply Hi.
  - by rewrite Hto.
Qed.

Lemma created_inv b s : inv s → (0 < creates s)%nat → inv (handle (Created b) s).1.
Proof.
  intros Hi Hc. assert (starting s = true ∧ creates s = 1%nat) as [Est Ecr].
  { pose proof (inv_creates _ Hi) as Hx. destruct (starting s); [done|lia]. }
  pose proof (inv_starting _ Hi) as Hsb. rewrite Est in Hsb. simpl in Hsb.
  cbn [handle]. unfold seq_act at 1, upd at 1. set (s1 := set_creates _ s).
  assert (tidy s1) as Ht by (by apply inv_tidy in Hi).
  assert (counted (set_starting false s1)) as Hc1.
  { split_and!; simpl; [apply Hi|by rewrite Ecr|done]. }
  assert (isActive s1 = false → inv (set_starting false s1)) as Hoff.
  { intros _. split; simpl; try apply Hi; [by rewrite Ecr|done]. }
  destruct (isActive s1) eqn:Ea; destruct b as [[id url]|].
  - rewrite (created_active _ _ _ Ea).
    destruct (opened_ready id s1) as [Hr Ht2]; try done.
    { simpl. by destruct (bindingId s). } { simpl. by rewrite Ecr. }
    { destruct s; simpl in *; subst. exact Hi. }
    pose proof (startPolling_frame false _ Ht2) as Hf. 
    assert (inv (startPolling (set_starting false (opened id s1))).1) as Hinv
      by (exact (startPolling_inv _ Hr)).
    rewrite Hf in Hinv. exact Hinv.
  - unfold created, when, ite, seq_act. rewrite Ea, (fail_eq _ _ Ht). exact (halted_inv _ Hc1).
  - unfold created, when, ite, seq_act. rewrite Ea. by apply Hoff.
  - unfold created, when, ite, seq_act. rewrite Ea. by apply Hoff.
Qed.

Lemma checked_inv id st s : inv s → id ∈ checks s → inv (handle (Checked id st) s).1.
Proof.
  intros Hi Hin. assert (polling s = true ∧ checks s = [id]) as [Ep Eck].
  { pose proof (inv_checks _ Hi) as Hx. destruct (polling s), (checks s) as [|x [|y l]]; try done.
    - split; [done|]. apply list_elem_of_singleton in Hin. by subst.
    - by apply elem_of_nil in Hin. }
  cbn [handle]. unfold seq_act at 1, upd at 1. rewrite Eck. simpl remove_one.
  rewrite decide_True by done. set (s1 := set_checks [] s).
  assert (tidy s1) as Ht by (by apply inv_tidy in Hi).
  assert (inv (set_polling false s1)) as Hoff by (split; simpl; try apply Hi; done).
  assert (inv (set_polling false (halted s1))) as Hon.
  { apply (halted_inv (set_polling false s1)). by apply inv_counted in Hoff. }
  unfold checked, when, ite, seq_act. destruct st as [st|], (isActive s1) eqn:Ea; try exact Hoff.
  - destruct (_ || _).
    + rewrite (expire_eq _ Ht). by destruct (stopped s1).
    + destruct st; try exact Hoff. by rewrite (stop_eq _ Ht).
  - by rewrite (fail_eq _ _ Ht).
Qed.

Lemma deadline_inv t s : inv s → (∃ due, (t, due) ∈ timeouts s ∧ due <= now s) →
  inv (handle (DeadlineFires t) s).1.
Proof.
  intros Hi (due & Hin & _). cbn [handle]. unfold seq_act, upd.
  pose proof (inv_tidy _ Hi) as [Ht1 Ht2]. pose proof (Ht2 _ _ Hin) as Hd.
  assert (tidy (clearTimeout t s)) as Ht.
  { split; [done|]. simpl. intros t' d [_ Hx]%list_elem_of_filter. by eapply Ht2. }
  rewrite (expire_eq _ Ht). simpl.
  pose proof (inv_deadline _ Hi) as Hdl. rewrite Hd in Hdl. simpl in Hdl.
  destruct (stopped s); [done|]. apply halted_inv. by apply inv_counted in Hi.
Qed.

Lemma step_inv s l s' : inv s → step s l s' → inv s'.
Proof.
  intros Hi [Hen Hh]. change s' with (s', l.2).1. rewrite <- Hh. destruct l as [e o]. simpl in *.
  destruct e; simpl in Hen.
  - by apply show_inv.
  - by apply hide_inv.
  - by apply unload_inv.
  - by apply stop_inv.
  - by apply webViewFailed_inv.
  - by apply created_inv.
  - by apply checked_inv.
  - by apply poll_inv.
  - by apply deadline_inv.
  - by destruct Hi.
Qed.

(** ** The calls a run makes *)
Definition terminal (o : Out) : bool :=
  match o with onBound | onError _ => true | _ => false end.

(** Calls of a step: none is terminal, or the last one only and the object is
    stopped then. *)
Definition ends_run (o : list Out) (s' : State) : Prop :=
  ∃ o1 x, o = o1 ++ [x] ∧ forallb (negb ∘ terminal) o1 = true ∧ stopped s' = true.
Definition quiet_or_over (r : State * list Out) : Prop :=
  forallb (negb ∘ terminal) r.2 = true ∨ ends_run r.2 r.1.

Lemma qo_quiet s o : forallb (negb ∘ terminal) o = true → quiet_or_over (s, o).
Proof. by left. Qed.
Lemma qo_over s x : stopped s = true → quiet_or_over (s, [x]).
Proof. right. by exists [], x. Qed.
Lemma qo_app s o1 o2 s' :
  forallb (negb ∘ terminal) o1 = true → quiet_or_over (s, o2) → stopped s' = stopped s →
  quiet_or_over (s', o1 ++ o2).
Proof.
  intros H1 [H2|(o3 & x & Ho & H3 & Hs)] Hs'; unfold quiet_or_over; simpl in *; subst.
  - left. by rewrite forallb_app, H1, H2.
  - right. exists (o1 ++ o3), x. rewrite forallb_app, H1, H3, app_assoc. split_and!; try done.
    by rewrite Hs'.
Qed.

Lemma poll_qo s : tidy s → quiet_or_over (poll s).
Proof.
  intros Ht. rewrite (poll_eq _ Ht). repeat case_match; try (by apply qo_quiet). by apply qo_over.
Qed.

Lemma startPolling_qo s : tidy s → quiet_or_over (startPolling s).
Proof.
  intros Ht. unfold startPolling, when, ite. destruct (_ && _) eqn:E; [|by apply qo_quiet].
  boolify. unfold seq_act, upd. assert (intervalTimer s = None) as Hn by (by destruct (intervalTimer s)).
  pose proof (poll_qo _ (tidy_startInterval _ Ht Hn)) as Hq.
  by destruct (poll (startInterval s)).
Qed.

Lemma created_qo b s : inv s → (0 < creates s)%nat → quiet_or_over (handle (Created b) s).
Proof.
  intros Hi Hc. assert (starting s = true ∧ creates s = 1%nat) as [Est Ecr].
  { pose proof (inv_creates _ Hi) as Hx. destruct (starting s); [done|lia]. }
  pose proof (inv_starting _ Hi) as Hsb. rewrite Est in Hsb. simpl in Hsb.
  cbn [handle]. unfold seq_act at 1, upd at 1. set (s1 := set_creates _ s).
  assert (tidy s1) as Ht by (by apply inv_tidy in Hi).
  destruct (isActive s1) eqn:Ea; destruct b as [[id url]|];
    try (unfold created, when, ite, seq_act; rewrite Ea; by apply qo_quiet).
  - rewrite (created_active _ _ _ Ea). cbn [app].
    destruct (opened_ready id s1) as [_ Ht2]; try done.
    { simpl. by destruct (bindingId s). } { simpl. by rewrite Ecr. }
    { destruct s; simpl in *; subst. exact Hi. }
    pose proof (startPolling_qo _ Ht2) as Hq. destruct (startPolling (opened id s1)) as [s2 o2].
    by apply (qo_app s2 [onReady url] o2).
  - unfold created, when, ite, seq_act. rewrite Ea, (fail_eq _ _ Ht). by apply qo_over.
Qed.

Lemma checked_qo id st s : inv s → quiet_or_over (handle (Checked id st) s).
Proof.
  intros Hi. cbn [handle]. unfold seq_act at 1, upd at 1. set (s1 := set_checks _ s).
  assert (tidy s1) as Ht by (by apply inv_tidy in Hi).
  unfold checked, when, ite, seq_act. destruct st as [st|], (isActive s1); try by apply qo_quiet.
  - destruct (_ || _).
    + rewrite (expire_eq _ Ht). destruct (stopped s1); [by apply qo_quiet|by apply qo_over].
    + destruct st; try by apply qo_quiet. rewrite (stop_eq _ Ht). by apply qo_over.
  - rewrite (fail_eq _ _ Ht). by apply qo_over.
Qed.

Lemma step_qo s l s' : inv s → step s l s' → quiet_or_over (s', l.2).
Proof.
  intros Hi [Hen Hh]. rewrite <- Hh. destruct l as [e o]. simpl in *. pose proof (inv_tidy _ Hi) as Ht.
  destruct e; simpl in Hen.
  - cbn [handle]. unfold show, when, ite. destruct (stopped s); [by apply qo_quiet|]. cbn [negb].
    unfold seq_act at 1, upd at 1. cbn [bindingId set_foreground].
    destruct (is_some (bindingId s)).
    + assert (quiet_or_over (startPolling (set_foreground true s))) as Hq by (by apply startPolling_qo).
      by destruct (startPolling _).
    + cbn [starting set_foreground]. destruct (starting s); by apply qo_quiet.
  - cbn [handle]. unfold hide, seq_act, upd. rewrite stopPolling_eq by done. by apply qo_quiet.
  - cbn [handle]. unfold unload, seq_act, upd. rewrite stop_eq by done. by apply qo_quiet.
  - cbn [handle]. unfold cancel. rewrite stop_eq by done. by apply qo_quiet.
  - cbn [handle]. unfold webViewFailed, when, ite. destruct (stopped s); [by apply qo_quiet|].
    cbn [negb]. rewrite fail_eq by done. by apply qo_over.
  - by apply created_qo.
  - by apply checked_qo.
  - by apply poll_qo.
  - destruct Hen as (due & Hin & _). cbn [handle]. unfold seq_act, upd.
    assert (tidy (clearTimeout timer s)) as Ht1.
    { split; [apply Ht|]. simpl. intros t' d [_ Hx]%list_elem_of_filter. by eapply Ht. }
    rewrite (expire_eq _ Ht1). simpl. destruct (stopped s); [by apply qo_quiet|by apply qo_over].
  - by apply qo_quiet.
Qed.

(** A stopped object calls nobody and stays stopped. *)
Lemma step_stopped s l s' : inv s → stopped s = true → step s l s' → l.2 = [] ∧ stopped s' = true.
Proof.
  intros Hi Hs [Hen Hh]. destruct l as [e o]. simpl in *. pose proof (inv_tidy _ Hi) as Ht.
  assert (∀ s1, stopped s1 = true → isActive s1 = false) as Hoff.
  { intros s1 H1. unfold isActive. by rewrite H1. }
  assert (∀ (a : A) s1, (a s1).2 = [] → stopped (a s1).1 = true → a s1 = (s', o) →
            o = [] ∧ stopped s' = true) as Hfin.
  { intros a s1 H1 H2 H3. rewrite H3 in H1, H2. done. }
  revert Hh. destruct e; apply Hfin; cbn [handle].
  all: unfold show, hide, unload, cancel, webViewFailed, created, checked, expire, when, ite,
    seq_act, upd, skip; cbn [fst snd app]; rewrite ?Hs; try done.
  all: rewrite ?stopPolling_eq, ?stop_eq, ?poll_eq by done; try done.
  all: try (destruct binding as [[id url]|] || destruct status as [st|];
            rewrite Hoff by done; done).
  all: try (rewrite Hoff by done; by destruct (bindingId s)).
  all: cbn [stopped clearTimeout set_timeouts]; by rewrite Hs.
Qed.

Lemma reaches_inv_binding t0 ls s : reaches step (init t0) ls s → inv s.
Proof. apply reaches_inv; [apply step_inv|apply inv_init]. Qed.

Lemma stopped_silent s ls s' :
  inv s → stopped s = true → reaches step s ls s' → outs ls = [] ∧ stopped s' = true ∧ inv s'.
Proof.
  intros Hi Hs. induction 1 as [|ls s1 l s2 _ (IH1 & IH2 & IH3) Hst]; [done|].
  pose proof (step_stopped _ _ _ IH3 IH2 Hst) as [Hl ?].
  rewrite outs_snoc, IH1, Hl. split_and!; try done. by eapply step_inv.
Qed.

Lemma run_qo t0 ls s : reaches step (init t0) ls s → quiet_or_over (s, outs ls).
Proof.
  intros Hr. assert (inv s ∧ quiet_or_over (s, outs ls)) as [_ ?]; [|done].
  induction Hr as [|ls s1 l s2 Hr [IHi IHq] Hst]; [split; [apply inv_init|by left]|].
  split; [by eapply step_inv|]. rewrite outs_snoc.
  destruct IHq as [Hq|(o1 & x & Ho & Hq & Hs)]; cbn [fst snd] in *.
  - eapply qo_app; [done|by eapply step_qo|done].
  - pose proof (step_stopped _ _ _ IHi Hs Hst) as [-> ?]. rewrite app_nil_r. right. by exists o1, x.
Qed.

(** What a callback of the end of a run says of the step that made it. *)
Definition justified (e : Event) (s : State) (o : Out) : Prop :=
  match o with
  | onBound => isActive s = true ∧ now s < deadline s ∧ ∃ id, e = Checked id (Some bound)
  | onError bindingExpired => deadline s <= now s ∨ ∃ id, e = Checked id (Some expired)
  | onError bindingWebViewFailed => e = WebViewFailed
  | onError bindingFailed =>
      isActive s = true ∧ (e = Created None ∨ ∃ id, e = Checked id None)
  | getStatus id => now s < deadline s ∨ ∃ url, e = Created (Some (id, url))
  | _ => True
  end.

Lemma poll_justified e s : tidy s → Forall (justified e s) (poll s).2.
Proof.
  intros Ht. rewrite (poll_eq _ Ht). destruct (bindingId s); [|constructor].
  destruct (_ || _); [constructor|]. unfold pastDeadline. destruct (_ <=? _) eqn:E; boolify;
    (constructor; [|constructor]; by left).
Qed.

Lemma startPolling_justified e s : tidy s → Forall (justified e s) (startPolling s).2.
Proof.
  intros Ht. unfold startPolling, when, ite. destruct (_ && _) eqn:E; [|constructor].
  boolify. unfold seq_act, upd. assert (intervalTimer s = None) as Hn by (by destruct (intervalTimer s)).
  pose proof (poll_justified e _ (tidy_startInterval _ Ht Hn)) as Hq.
  by destruct (poll (startInterval s)).
Qed.

Lemma created_justified b s :
  inv s → (0 < creates s)%nat →
  Forall (justified (Created b) s) (handle (Created b) s).2.
Proof.
  intros Hi Hc. assert (starting s = true ∧ creates s = 1%nat) as [Est Ecr].
  { pose proof (inv_creates _ Hi) as Hx. destruct (starting s); [done|lia]. }
  pose proof (inv_starting _ Hi) as Hsb. rewrite Est in Hsb. simpl in Hsb.
  cbn [handle]. unfold seq_act at 1, upd at 1. set (s1 := set_creates _ s).
  assert (tidy s1) as Ht by (by apply inv_tidy in Hi).
  destruct (isActive s1) eqn:Ea; destruct b as [[id url]|];
    try (unfold created, when, ite, seq_act; rewrite Ea; by constructor).
  - rewrite (created_active _ _ _ Ea). cbn [app snd]. constructor; [done|].
    destruct (opened_ready id s1) as [_ Ht2]; try done.
    { simpl. by destruct (bindingId s). } { simpl. by rewrite Ecr. }
    { destruct s; simpl in *; subst. exact Hi. }
    unfold startPolling, when, ite. destruct (_ && _) eqn:E; [|constructor].
    boolify. unfold seq_act, upd.
    rewrite poll_eq.
    2:{ apply tidy_startInterval; [done|]. by destruct (intervalTimer (opened id s1)). }
    cbn [bindingId startInterval opened startDeadline set_deadline set_bindingId set_nextTimer
         set_intervals set_intervalTimer set_timeouts set_deadlineTimer].
    destruct (_ || _); [constructor|].
    unfold pastDeadline. simpl. unfold bindingTimeoutMs.
    destruct (_ <=? _) eqn:El; boolify; [lia|].
    constructor; [|constructor]. right. eauto.
  - unfold created, when, ite, seq_act. rewrite Ea, (fail_eq _ _ Ht).
    constructor; [|constructor]. split; [done|by left].
Qed.

Lemma checked_justified id st s :
  inv s → Forall (justified (Checked id st) s) (handle (Checked id st) s).2.
Proof.
  intros Hi. cbn [handle]. unfold seq_act at 1, upd at 1. set (s1 := set_checks _ s).
  assert (tidy s1) as Ht by (by apply inv_tidy in Hi).
  unfold checked, when, ite, seq_act.
  destruct st as [st|], (isActive s1) eqn:Ea; try by constructor.
  - destruct (_ || _) eqn:Eo.
    + rewrite (expire_eq _ Ht). destruct (stopped s1); [constructor|].
      constructor; [|constructor]. apply orb_true_iff in Eo as [El|Ex].
      * unfold pastDeadline in El. boolify. by left.
      * right. destruct st; eauto; done.
    + destruct st; try by constructor. rewrite (stop_eq _ Ht).
      apply orb_false_iff in Eo as [El _]. unfold pastDeadline in El. boolify.
      repeat constructor; eauto.
  - rewrite (fail_eq _ _ Ht). constructor; [|constructor]. split; [done|right; eauto].
Qed.

Lemma step_justified s e o s' : inv s → step s (e, o) s' → Forall (justified e s) o.
Proof.
  intros Hi [Hen Hh]. simpl in *. change o with (s', o).2. rewrite <- Hh.
  pose proof (inv_tidy _ Hi) as Ht. destruct e; simpl in Hen.
  - cbn [handle]. unfold show, when, ite. destruct (stopped s); [constructor|]. cbn [negb].
    unfold seq_act at 1, upd at 1. cbn [bindingId set_foreground].
    destruct (is_some (bindingId s)).
    + assert (Forall (justified Show s) (startPolling (set_foreground true s)).2) as Hq.
      { eapply Forall_impl; [by apply (startPolling_justified Show)|]. intros [| | | | |[]]; simpl; naive_solver. }
      by destruct (startPolling _).
    + cbn [starting set_foreground]. destruct (starting s); repeat constructor.
  - cbn [handle]. unfold hide, seq_act, upd. rewrite stopPolling_eq by done. constructor.
  - cbn [handle]. unfold unload, seq_act, upd. rewrite stop_eq by done. constructor.
  - cbn [handle]. unfold cancel. rewrite stop_eq by done. constructor.
  - cbn [handle]. unfold webViewFailed, when, ite. destruct (stopped s); [constructor|].
    cbn [negb]. rewrite fail_eq by done. by repeat constructor.
  - by apply created_justified.
  - by apply checked_justified.
  - by apply poll_justified.
  - destruct Hen as (due & Hin & Hdue). cbn [handle]. unfold seq_act, upd.
    assert (tidy (clearTimeout timer s)) as Ht1.
    { split; [apply Ht|]. simpl. intros t' d [_ Hx]%list_elem_of_filter. by eapply Ht. }
    rewrite (expire_eq _ Ht1). simpl. destruct (stopped s); [constructor|].
    constructor; [|constructor]. rewrite (inv_timeouts _ Hi) in Hin.
    destruct (deadlineTimer s); simpl in Hin; [|by apply elem_of_nil in Hin].
    apply list_elem_of_singleton in Hin as [= -> ->]. by left.
  - constructor.
Qed.

(** However the page, the timers and the server behave, the controller has at
    most one creation and one status request in flight and asks for a binding
    only while it has none; the live timers are exactly those it holds; it has a
    poll timer exactly while it is visible with a binding and not over, and a
    deadline timer as long as its binding is not over, so it can neither poll in
    the background nor wait for ever. *)
Theorem binding_invariant t0 ls s (Hrun : reaches step (init t0) ls s) : inv s.
Proof. by apply reaches_inv_binding in Hrun. Qed.

(** C27: in any run, the page hears of the end (bound or an error) at most once and
    nothing after it; once the object is stopped, by such an end, by unload or by
    cancel, no continuation, timer or method calls a dependency again. *)
Theorem binding_ends_once t0 ls s ls' s'
    (Hrun : reaches step (init t0) ls s) (Hrest : reaches step s ls' s') :
  (∀ pre o post, outs ls = pre ++ o :: post → terminal o = true → post = [] ∧ stopped s = true) ∧
  (stopped s = true → outs ls' = [] ∧ stopped s' = true).
Proof.
  split.
  - intros pre o post Ho Ht. destruct (run_qo _ _ _ Hrun) as [Hq|(o1 & x & Hx & Hq & Hs)]; simpl in *.
    + rewrite Ho, forallb_app in Hq. simpl in Hq. rewrite Ht, andb_false_r in Hq. done.
    + split; [|done]. destruct post as [|y post _] using rev_ind; [done|]. exfalso.
      rewrite Ho, app_comm_cons, app_assoc in Hx. apply app_inj_tail in Hx as [<- _].
      rewrite forallb_app in Hq. simpl in Hq. by rewrite Ht, andb_false_r in Hq.
  - intros Hs. pose proof (reaches_inv_binding _ _ _ Hrun) as Hi.
    destruct (stopped_silent _ _ _ Hi Hs Hrest) as (?&?&_). done.
Qed.

(** Every callback of the end is justified: success is reported only for a
    bound answer that arrives while the page is visible and before the deadline;
    expiry only at or after the deadline or for an expired answer; a failure only
    for a rejected request of a visible page or for the web view's error; and a
    status is asked for only before the deadline. *)
Theorem binding_outcomes_justified t0 ls s e o s'
    (Hrun : reaches step (init t0) ls s) (Hstep : step s (e, o) s') :
  Forall (justified e s) o.
Proof. eapply step_justified; [by eapply reaches_inv_binding|exact Hstep]. Qed.

(** ** A sample run: the page is shown, a binding arrives, and is bound. *)
Definition sample_run : list (Event * list Out) := [
  (Show, [onLoading; createBinding]);
  (Created (Some (js "b1", js "u")), [onReady (js "u"); getStatus (js "b1")]);
  (Elapse 3000, []);
  (Checked (js "b1") (Some bound), [onBound])].

Abbreviation after := (run_after handle).
Abbreviation trace := (run_trace handle).

Lemma sample_reaches : reaches step (init 0) sample_run (after (fst <$> sample_run) (init 0)).
Proof.
  assert (sample_run = trace (fst <$> sample_run) (init 0)) as E by (vm_compute; reflexivity).
  rewrite E at 1. apply run_reaches. vm_compute.
  repeat split; first [discriminate | left | repeat constructor].
Qed.

Lemma binding_invariant_witness : inv (after (fst <$> sample_run) (init 0)).
Proof. exact (binding_invariant 0 _ _ sample_reaches). Defined.

Lemma binding_ends_once_witness :
  stopped (after (fst <$> sample_run) (init 0)) = true ∧
  outs (trace [Show; Hide; Cancel] (after (fst <$> sample_run) (init 0))) = [].
Proof.
  split; [vm_compute; reflexivity|].
  assert (reaches step (after (fst <$> sample_run) (init 0))
            (trace [Show; Hide; Cancel] (after (fst <$> sample_run) (init 0)))
            (after [Show; Hide; Cancel] (after (fst <$> sample_run) (init 0)))) as Hr
    by (apply run_reaches; repeat split).
  refine (proj1 (proj2 (binding_ends_once 0 _ _ _ _ sample_reaches Hr) _)).
  vm_compute. reflexivity.
Defined.

Lemma binding_outcomes_justified_witness :
  let s := after (take 3 (fst <$> sample_run)) (init 0) in
  Forall (justified (Checked (js "b1") (Some bound)) s) [onBound].
Proof.
  intros s.
  assert (reaches step (init 0) (trace (take 3 (fst <$> sample_run)) (init 0)) s) as Hr
    by (apply (run_reaches enabled handle (take 3 (fst <$> sample_run)) (init 0)); vm_compute;
        repeat split; first [discriminate | repeat constructor]).
  refine (binding_outcomes_justified 0 _ s _ _ (handle (Checked (js "b1") (Some bound)) s).1 Hr _).
  split; [vm_compute; by left|vm_compute; reflexivity].
Defined.
End Binding.
