(* ===== verification/TextTestLifecycle.v ===== *)
(** The text-test page's controller
    (miniapp/src/features/text-test/text-test-lifecycle.ts).

    [TextTestLifecycle] submits one test at a time, remembers its request id
    across page visits, and polls its status while the page is visible, for at
    most twenty seconds after the last visit or submission.  The first part of
    the state is its fields; then come the module's set of ids whose start is in
    flight (shared with other instances), the stored id, the clock, the live
    timers and the awaited promises ([conts], each with the value of [operation]
    it was started under).

    A step is one run of code between two awaits.  A rejected promise carries
    the two things the page decides from the error: whether it is retryable
    and whether its [onError] resets the session, which it does by calling
    [resetSession] from inside the callback (pages/text-test/index.tsx). *)
From S2P Require Import Prelude JsString Actions MiniServices.
Open Scope Z_scope.
Open Scope act_scope.

Module TextTestPage.
Import TextTest.

Definition pollDelayMilliseconds : Z := 1500.
Definition foregroundPollLimitMilliseconds : Z := 20000.

(** An awaited promise: the id of a new request, the answer to a start, or the
    answer to a status request. *)
Inductive Cont :=
| KCreate (operation : nat) (model input : jsstring)
| KStart (operation : nat) (requestID : jsstring)
| KCheck (operation : nat) (requestID : jsstring).

#[export] Instance Cont_eq_dec : EqDecision Cont.
Proof. solve_decision. Defined.

Record Failure := mkFailure { retryable : bool; resets : bool }.

Record State := mkState {
  active : bool;
  foreground : bool;
  foregroundDeadline : Z;
  operation : nat;
  pendingRequestID : option jsstring;
  starting : bool;
  pollTimer : option nat;
  inFlight : list jsstring;
  persisted : option jsstring;
  now : Z;
  nextTimer : nat;
  timers : list nat;
  conts : list Cont;
}.

Definition set_active (x : bool) (s : State) : State :=
  mkState x (foreground s) (foregroundDeadline s) (operation s) (pendingRequestID s)
    (starting s) (pollTimer s) (inFlight s) (persisted s) (now s) (nextTimer s) (timers s)
    (conts s).
Definition set_foreground (x : bool) (s : State) : State :=
  mkState (active s) x (foregroundDeadline s) (operation s) (pendingRequestID s) (starting s)
    (pollTimer s) (inFlight s) (persisted s) (now s) (nextTimer s) (timers s) (conts s).
Definition set_foregroundDeadline (x : Z) (s : State) : State :=
  mkState (active s) (foreground s) x (operation s) (pendingRequestID s) (starting s)
    (pollTimer s) (inFlight s) (persisted s) (now s) (nextTimer s) (timers s) (conts s).
Definition set_operation (x : nat) (s : State) : State :=
  mkState (active s) (foreground s) (foregroundDeadline s) x (pendingRequestID s) (starting s)
    (pollTimer s) (inFlight s) (persisted s) (now s) (nextTimer s) (timers s) (conts s).
Definition set_pendingRequestID (x : option jsstring) (s : State) : State :=
  mkState (active s) (foreground s) (foregroundDeadline s) (operation s) x (starting s)
    (pollTimer s) (inFlight s) (persisted s) (now s) (nextTimer s) (timers s) (conts s).
Definition set_starting (x : bool) (s : State) : State :=
  mkState (active s) (foreground s) (foregroundDeadline s) (operation s) (pendingRequestID s) x
    (pollTimer s) (inFlight s) (persisted s) (now s) (nextTimer s) (timers s) (conts s).
Definition set_pollTimer (x : option nat) (s : State) : State :=
  mkState (active s) (foreground s) (foregroundDeadline s) (operation s) (pendingRequestID s)
    (starting s) x (inFlight s) (persisted s) (now s) (nextTimer s) (timers s) (conts s).
Definition set_inFlight (x : list jsstring) (s : State) : State :=
  mkState (active s) (foreground s) (foregroundDeadline s) (operation s) (pendingRequestID s)
    (starting s) (pollTimer s) x (persisted s) (now s) (nextTimer s) (timers s) (conts s).
Definition set_persisted (x : option jsstring) (s : State) : State :=
  mkState (active s) (foreground s) (foregroundDeadline s) (operation s) (pendingRequestID s)
    (starting s) (pollTimer s) (inFlight s) x (now s) (nextTimer s) (timers s) (conts s).
Definition set_now (x : Z) (s : State) : State :=
  mkState (active s) (foreground s) (foregroundDeadline s) (operation s) (pendingRequestID s)
    (starting s) (pollTimer s) (inFlight s) (persisted s) x (nextTimer s) (timers s) (conts s).
Definition set_nextTimer (x : nat) (s : State) : State :=
  mkState (active s) (foreground s) (foregroundDeadline s) (operation s) (pendingRequestID s)
    (starting s) (pollTimer s) (inFlight s) (persisted s) (now s) x (timers s) (conts s).
Definition set_timers (x : list nat) (s : State) : State :=
  mkState (active s) (foreground s) (foregroundDeadline s) (operation s) (pendingRequestID s)
    (starting s) (pollTimer s) (inFlight s) (persisted s) (now s) (nextTimer s) x (conts s).
Definition set_conts (x : list Cont) (s : State) : State :=
  mkState (active s) (foreground s) (foregroundDeadline s) (operation s) (pendingRequestID s)
    (starting s) (pollTimer s) (inFlight s) (persisted s) (now s) (nextTimer s) (timers s) x.

(** Calls to the options the page gave. *)
Inductive Out :=
| onStatus (status : MiniTextTestStatus)
| onPending (requestID : jsstring)
| onError (error : Failure)
| onRequestIDChange (requestID : option jsstring)
| onStartChange (starting : bool)
| persist (requestID : option jsstring)
| createRequestID
| start (input : StartMiniTextTestInput)
| getStatus (requestID : jsstring).

Abbreviation A := (act State Out).

Definition visible (s : State) : bool := active s && foreground s.

Definition current (op : nat) (s : State) : bool := visible s && (op =? operation s)%nat.

Definition await (k : Cont) : A := upd (λ s, set_conts (k :: conts s) s).

Definition setPersistedRequestID (id : option jsstring) : A :=
  upd (set_persisted id) ;; emit (persist id).

Definition setStarting (b : bool) : A :=
  when (λ s, negb (Bool.eqb (starting s) b)) (upd (set_starting b) ;; emit (onStartChange b)).

Definition clearPendingRequestID : A :=
  upd (set_pendingRequestID None) ;; setPersistedRequestID None ;; emit (onRequestIDChange None).

Definition clearPollTimer : A := upd (λ s,
  match pollTimer s with
  | None => s
  | Some t => set_pollTimer None (set_timers (filter (λ x, x ≠ t) (timers s)) s)
  end).

Definition setPollTimer (s : State) : State :=
  let t := nextTimer s in
  set_nextTimer (S t) (set_timers (t :: timers s) (set_pollTimer (Some t) s)).

Definition pastDeadline (s : State) : bool := foregroundDeadline s <=? now s.
Definition extendDeadline (s : State) : State :=
  set_foregroundDeadline (now s + foregroundPollLimitMilliseconds) s.

Definition schedulePoll : A := λ s,
  match pendingRequestID s with
  | Some id => when visible
      (clearPollTimer ;; ite pastDeadline (emit (onPending id)) (upd setPollTimer)) s
  | None => skip s
  end.

Definition handleStatus (st : MiniTextTestStatus) : A :=
  emit (onStatus st) ;;
  match state st with
  | running => schedulePoll
  | _ => clearPendingRequestID ;; upd (set_foregroundDeadline 0) ;; clearPollTimer
  end.

Definition nextOperation (s : State) : State := set_operation (S (operation s)) s.

(** Up to the await of [getStatus]. *)
Definition checkStatus : A := λ s,
  match pendingRequestID s with
  | Some id => when visible
      (ite (λ s, starting s || set_has id (inFlight s)) schedulePoll
         (clearPollTimer ;;
          ite pastDeadline (emit (onPending id))
            (upd nextOperation ;; emit (getStatus id) ;;
             reading operation (λ op, await (KCheck op id))))) s
  | None => skip s
  end.

Definition show : A :=
  when active
    (upd (set_foreground true) ;;
     when (λ s, bool_decide (pendingRequestID s ≠ None)) (upd extendDeadline ;; checkStatus)).

Definition hide : A := upd (set_foreground false) ;; upd nextOperation ;; clearPollTimer.
Definition unload : A := upd (set_active false) ;; hide ;; upd (set_foregroundDeadline 0).
Definition resetSession : A := unload ;; clearPendingRequestID.

(** Up to its first await. *)
Definition submit (model input : jsstring) : A :=
  when (λ s, visible s && negb (starting s))
    (ite (λ s, bool_decide (pendingRequestID s ≠ None))
       (upd extendDeadline ;; checkStatus)
       (setStarting true ;; upd nextOperation ;; emit createRequestID ;;
        reading operation (λ op, await (KCreate op model input)))).

(** The [catch] blocks of [submit] and [checkStatus]. *)
Definition caught (op : nat) (e : Failure) : A :=
  when (current op)
    ((if retryable e then skip else clearPendingRequestID) ;;
     emit (onError e) ;;
     (if resets e then resetSession else skip) ;;
     (if retryable e then schedulePoll else skip)).

(** The [finally] block of [submit]. *)
Definition finish (op : nat) (requestID : option jsstring) : A :=
  match requestID with
  | Some id => upd (λ s, set_inFlight (set_delete id (inFlight s)) s)
  | None => skip
  end ;;
  setStarting false ;;
  when (λ s, negb (current op s) && visible s && bool_decide (pendingRequestID s ≠ None)) checkStatus.

(** The rest of [submit] once [createRequestID] settled, up to the await of [start]. *)
Definition created (op : nat) (model input : jsstring) (result : res Failure jsstring) : A :=
  match result with
  | Ok id =>
      ite (current op)
        (upd (set_pendingRequestID (Some id)) ;;
         setPersistedRequestID (Some id) ;;
         emit (onRequestIDChange (Some id)) ;;
         upd extendDeadline ;;
         upd (λ s, set_inFlight (set_add id (inFlight s)) s) ;;
         emit (start (mkStart id model input)) ;;
         await (KStart op id))
        (finish op (Some id))
  | Throw e => caught op e ;; finish op None
  end.

(** The rest of [submit] once [start] settled. *)
Definition started (op : nat) (id : jsstring) (result : res Failure MiniTextTestStatus) : A :=
  match result with
  | Ok st => when (current op) (handleStatus st)
  | Throw e => caught op e
  end ;; finish op (Some id).

(** The rest of [checkStatus] once [getStatus] settled. *)
Definition checked (op : nat) (id : jsstring) (result : res Failure MiniTextTestStatus) : A :=
  match result with
  | Ok st => when (λ s, current op s && bool_decide (pendingRequestID s = Some id)) (handleStatus st)
  | Throw e => caught op e
  end.

(** ** Steps *)
Inductive Event :=
| Show | Hide | Unload | ResetSession | CheckStatus
| Submit (model input : jsstring)
| Created (op : nat) (model input : jsstring) (result : res Failure jsstring)
| Started (op : nat) (id : jsstring) (result : res Failure MiniTextTestStatus)
| Checked (op : nat) (id : jsstring) (result : res Failure MiniTextTestStatus)
| TimerFires (timer : nat)
| Elapse (d : Z)
| OtherInFlight (ids : list jsstring)
| StorageCleared.

(** The promise an event settles. *)
Definition settles (e : Event) : option Cont :=
  match e with
  | Created op model input _ => Some (KCreate op model input)
  | Started op id _ => Some (KStart op id)
  | Checked op id _ => Some (KCheck op id)
  | _ => None
  end.

Definition enabled (e : Event) (s : State) : Prop :=
  match e with
  | TimerFires t => t ∈ timers s
  | Elapse d => 0 <= d
  | _ => match settles e with Some k => k ∈ conts s | None => True end
  end.

(** The promises left once one settled; no two are alike (see [inv]). *)
Definition settle (k : Cont) : A := upd (λ s, set_conts (filter (λ x, x ≠ k) (conts s)) s).

Definition handle (e : Event) : A :=
  match e with
  | Show => show
  | Hide => hide
  | Unload => unload
  | ResetSession => resetSession
  | CheckStatus => checkStatus
  | Submit model input => submit model input
  | Created op model input r => settle (KCreate op model input) ;; created op model input r
  | Started op id r => settle (KStart op id) ;; started op id r
  | Checked op id r => settle (KCheck op id) ;; checked op id r
  | TimerFires t => upd (λ s, set_timers (filter (λ x, x ≠ t) (timers s)) s) ;; checkStatus
  | Elapse d => upd (λ s, set_now (now s + d) s)
  | OtherInFlight ids => upd (set_inFlight ids)
  | StorageCleared => upd (set_persisted None)
  end.

Definition step : State → Event * list Out → State → Prop := machine_step enabled handle.

(** The object as the constructor leaves it: [stored] is the persisted id and [ids]
    the starts other instances have in flight. *)
Definition init (t0 : Z) (stored : option jsstring) (ids : list jsstring) : State :=
  mkState true false 0 0 stored false None ids stored t0 0 [] [].

(** ** The invariant *)
Definition cont_op (k : Cont) : nat :=
  match k with KCreate op _ _ | KStart op _ | KCheck op _ => op end.
(** The request a promise is about; a new one has none yet. *)
Definition cont_id (k : Cont) : option jsstring :=
  match k with KCreate _ _ _ => None | KStart _ id | KCheck _ id => Some id end.
Definition is_submit (k : Cont) : bool :=
  match k with KCheck _ _ => false | _ => true end.

(** [b]: the code that runs is the rest of a submission. *)
Record inv (b : bool) (s : State) : Prop := {
  (** at most one poll timer, and the object holds it *)
  i_timers : timers s = [] ∨ ∃ t, pollTimer s = Some t ∧ timers s = [t];
  (** it polls only while the page is visible *)
  i_visible : timers s ≠ [] → visible s = true;
  (** promises carry different operation numbers, none newer than the counter *)
  i_ops : Forall (λ k, cont_op k <= operation s)%nat (conts s);
  i_nodup : NoDup (cont_op <$> conts s);
  (** at most one submission is under way *)
  i_starting : (length (filter (λ k, is_submit k = true) (conts s)) + (if b then 1 else 0)
                = if starting s then 1 else 0)%nat;
  (** the promise that may still report is about the pending request *)
  i_current : ∀ k, k ∈ conts s → cont_op k = operation s → cont_id k = pendingRequestID s;
  (** what is stored is the pending request, or nothing *)
  i_persisted : ∀ id, persisted s = Some id → pendingRequestID s = Some id;
  (** the polling window is at most twenty seconds ahead *)
  i_deadline : foregroundDeadline s <= now s + 20000;
  i_now : 0 <= now s;
}.

(** No awaited promise may still report. *)
Definition nobody (s : State) : Prop := Forall (λ k, cont_op k ≠ operation s) (conts s).

Definition keeps (P : State → Prop) (a : A) (Q : State → Prop) : Prop :=
  triple P a Q (λ _, True).

(** Close an implication between assertions. *)
Ltac weaken := let s := fresh "s" in let Hs := fresh "Hs" in intros s Hs; cbn beta in *; tauto.

Lemma keeps_seq P Q R a b : keeps P a Q → keeps Q b R → keeps P (a ;; b) R.
Proof. apply triple_seq. Qed.
Lemma keeps_skip P : keeps P skip P.
Proof. apply triple_skip. Qed.
Lemma keeps_emit P o : keeps P (emit o) P.
Proof. by apply triple_emit. Qed.
Lemma keeps_upd (P Q : State → Prop) f : (∀ s, P s → Q (f s)) → keeps P (upd f) Q.
Proof. apply triple_upd. Qed.
Lemma keeps_ite P Q c a b :
  keeps (λ s, P s ∧ c s = true) a Q → keeps (λ s, P s ∧ c s = false) b Q → keeps P (ite c a b) Q.
Proof. apply triple_ite. Qed.
Lemma keeps_when P c a : keeps (λ s, P s ∧ c s = true) a P → keeps P (when c a) P.
Proof. intros Ha. apply keeps_ite; [done|]. by intros s [Hs _]; apply keeps_skip. Qed.
Lemma keeps_pre (P P' Q : State → Prop) a :
  keeps P' a Q → (∀ s, P s → P' s) → keeps P a Q.
Proof. intros Ht HP s Hs. by apply Ht, HP. Qed.
Lemma keeps_post (P Q Q' : State → Prop) a :
  keeps P a Q' → (∀ s, Q' s → Q s) → keeps P a Q.
Proof. intros Ht HQ s Hs. destruct (Ht s Hs). split; auto. Qed.

Lemma inv_same b s s' :
  inv b s → timers s' = timers s → pollTimer s' = pollTimer s → visible s' = visible s →
  operation s' = operation s → conts s' = conts s → starting s' = starting s →
  pendingRequestID s' = pendingRequestID s → persisted s' = persisted s →
  foregroundDeadline s' <= now s' + 20000 → 0 <= now s' → inv b s'.
Proof. intros [] E1 E2 E3 E4 E5 E6 E7 E8 ? ?. split; rewrite ?E1, ?E2, ?E3, ?E4, ?E5, ?E6, ?E7, ?E8; done. Qed.

Lemma page_inv_init t0 stored ids : 0 <= t0 → inv false (init t0 stored ids).
Proof.
  intros Ht. split; simpl; try done; try lia; [by left|by apply NoDup_nil|].
  by intros k ?%elem_of_nil.
Qed.

(** The state once the timer is cleared. *)
Definition untimed (s : State) : State := set_timers [] (set_pollTimer None s).

Lemma clearPollTimer_eq s :
  timers s = [] ∨ (∃ t, pollTimer s = Some t ∧ timers s = [t]) → clearPollTimer s = (untimed s, []).
Proof.
  intros Ht. unfold clearPollTimer, upd, untimed. f_equal.
  destruct s as [a f fd op pr st pt fl ps nw nt ti co]; simpl in *.
  destruct Ht as [->|(t & -> & ->)]; [by destruct pt|].
  unfold set_pollTimer, set_timers. simpl. f_equal.
  rewrite filter_cons_False by tauto. by rewrite filter_nil.
Qed.

Lemma untimed_inv b s : inv b s → inv b (untimed s).
Proof. intros []. split; simpl; try done. by left. Qed.

Lemma clearPollTimer_inv b : keeps (inv b) clearPollTimer (inv b).
Proof.
  intros s Hi. rewrite clearPollTimer_eq by apply Hi. split; [by apply untimed_inv|constructor].
Qed.

Lemma hide_eq s :
  timers s = [] ∨ (∃ t, pollTimer s = Some t ∧ timers s = [t]) →
  hide s = (untimed (nextOperation (set_foreground false s)), []).
Proof. intros Ht. unfold hide, seq_act, upd. by rewrite clearPollTimer_eq. Qed.

(** A newer operation: no promise may report. *)
Lemma newer_nobody b s : inv b s → nobody (nextOperation s).
Proof.
  intros Hi. unfold nobody. simpl. eapply Forall_impl; [apply Hi|]. simpl. intros k Hk. lia.
Qed.

(** Facts kept by a change of the timers and the visibility. *)
Lemma inv_hidden b s s' :
  inv b s → timers s' = [] → operation s' = S (operation s) → conts s' = conts s →
  starting s' = starting s → pendingRequestID s' = pendingRequestID s →
  persisted s' = persisted s → now s' = now s → foregroundDeadline s' <= now s + 20000 → inv b s'.
Proof.
  intros [? ? Ho ? ? ? ? ? ?] E1 E2 E3 E4 E5 E6 E7 Hd.
  split; rewrite ?E1, ?E2, ?E3, ?E4, ?E5, ?E6, ?E7; try done; [by left| |].
  - eapply Forall_impl; [exact Ho|]. simpl. intros. lia.
  - intros k Hk Hop. rewrite Forall_forall in Ho. apply Ho in Hk. lia.
Qed.

Lemma page_hide_inv b : keeps (inv b) hide (λ s, inv b s ∧ nobody s).
Proof.
  intros s Hi. rewrite hide_eq by apply Hi. split; [|constructor]. split.
  - apply (inv_hidden b s); try done. apply Hi.
  - exact (newer_nobody _ _ Hi).
Qed.

Lemma unload_eq s :
  timers s = [] ∨ (∃ t, pollTimer s = Some t ∧ timers s = [t]) →
  unload s = (set_foregroundDeadline 0
                (untimed (nextOperation (set_foreground false (set_active false s)))), []).
Proof.
  intros Ht. unfold unload. unfold seq_act at 1, upd at 1. cbn beta iota. unfold seq_act.
  by rewrite hide_eq.
Qed.

Lemma page_unload_inv b : keeps (inv b) unload (λ s, inv b s ∧ nobody s).
Proof.
  intros s Hi. rewrite unload_eq by apply Hi. split; [|constructor]. split.
  - apply (inv_hidden b s); try done. simpl. pose proof (i_now _ _ Hi). lia.
  - exact (newer_nobody _ _ Hi).
Qed.

Lemma clearPending_inv b :
  keeps (λ s, inv b s ∧ nobody s) clearPendingRequestID (λ s, inv b s ∧ nobody s).
Proof.
  intros s [Hi Hn]. split; [|repeat constructor]. simpl. split; [|done].
  destruct Hi. split; simpl; try done. intros k Hk Hop. unfold nobody in Hn.
  rewrite Forall_forall in Hn. by destruct (Hn k Hk).
Qed.

Lemma resetSession_inv b : keeps (inv b) resetSession (λ s, inv b s ∧ nobody s).
Proof. eapply keeps_seq; [apply page_unload_inv|apply clearPending_inv]. Qed.

Lemma setPollTimer_inv b s : inv b s → timers s = [] → visible s = true → inv b (setPollTimer s).
Proof.
  intros [] Ht Hv. split; simpl; try done. right. rewrite Ht. eauto.
Qed.

Lemma schedulePoll_inv b P :
  (∀ s, P s → P (untimed s)) → (∀ s, P s → P (setPollTimer s)) →
  keeps (λ s, inv b s ∧ P s) schedulePoll (λ s, inv b s ∧ P s).
Proof.
  intros Hu Hp s [Hi HP]. unfold schedulePoll. destruct (pendingRequestID s) as [id|]; [|split; [done|constructor]].
  unfold when, ite, seq_act. destruct (visible s) eqn:Ev; [|split; [done|constructor]].
  rewrite clearPollTimer_eq by apply Hi.
  destruct (pastDeadline (untimed s)); simpl; (split; [|repeat constructor]).
  - split; [by apply untimed_inv|by apply Hu].
  - split; [|by apply Hp, Hu]. apply setPollTimer_inv; [by apply untimed_inv|done|done].
Qed.

Lemma handleStatus_inv b st : keeps (λ s, inv b s ∧ nobody s) (handleStatus st) (inv b).
Proof.
  apply (keeps_seq _ (λ s, inv b s ∧ nobody s)); [apply keeps_emit|].
  assert (keeps (λ s, inv b s ∧ nobody s)
    (clearPendingRequestID ;; upd (set_foregroundDeadline 0) ;; clearPollTimer) (inv b)) as Hend.
  { apply (keeps_seq _ (λ s, inv b s ∧ nobody s)); [apply clearPending_inv|].
    apply (keeps_seq _ (inv b)); [|apply clearPollTimer_inv].
    apply keeps_upd. intros s [Hi _]. eapply inv_same; eauto; simpl; [|apply Hi].
    pose proof (i_now _ _ Hi). lia. }
  destruct (state st); try done.
  eapply keeps_post; [by apply (schedulePoll_inv b nobody)|weaken].
Qed.

(** The promise under operation [op] is the only one that may report. *)
Definition alone (op : nat) (s : State) : Prop := current op s = true → nobody s.

Lemma caught_inv b op e : keeps (λ s, inv b s ∧ alone op s) (caught op e) (inv b).
Proof.
  apply keeps_ite; [|eapply keeps_pre; [apply keeps_skip|weaken]].
  eapply (keeps_pre _ (λ s, inv b s ∧ nobody s)); [|unfold alone; weaken].
  eapply (keeps_post _ _ (λ s, inv b s ∧ nobody s)); [|weaken].
  apply (keeps_seq _ (λ s, inv b s ∧ nobody s)).
  { destruct (retryable e); [apply keeps_skip|apply clearPending_inv]. }
  apply (keeps_seq _ (λ s, inv b s ∧ nobody s)); [apply keeps_emit|].
  apply (keeps_seq _ (λ s, inv b s ∧ nobody s)).
  { destruct (resets e); [|apply keeps_skip].
    eapply keeps_pre; [apply resetSession_inv|weaken]. }
  destruct (retryable e); [by apply schedulePoll_inv|apply keeps_skip].
Qed.

(** A promise started under a new operation number. *)
Lemma add_cont (b b' : bool) s k :
  inv b s → cont_op k = S (operation s) → cont_id k = pendingRequestID s →
  ((if is_submit k then 1 else 0) + (if b' then 1 else 0) = (if b then 1 else 0))%nat →
  inv b' (set_conts (k :: conts s) (nextOperation s)).
Proof.
  intros [? ? Ho Hn Hs Hc ? ? ?] Hk Hid Hcount. rewrite Forall_forall in Ho.
  split; simpl; try done.
  - constructor; [lia|]. apply Forall_forall. intros x Hx%Ho. lia.
  - rewrite NoDup_cons. split; [|done]. rewrite Hk.
    intros (x & Hx & Hin)%list_elem_of_fmap. apply Ho in Hin. lia.
  - rewrite filter_cons. destruct (is_submit k); case_decide; simpl in *; try done; lia.
  - intros x [->|Hin]%elem_of_cons; [done|]. intros Hx. apply Ho in Hin. lia.
Qed.

Definition timers_ok (s : State) : Prop :=
  timers s = [] ∨ ∃ t, pollTimer s = Some t ∧ timers s = [t].

Lemma schedulePoll_eq s : timers_ok s → schedulePoll s =
  match pendingRequestID s with
  | None => (s, [])
  | Some id =>
      if negb (visible s) then (s, [])
      else if pastDeadline s then (untimed s, [onPending id])
      else (setPollTimer (untimed s), [])
  end.
Proof.
  intros Ht. unfold schedulePoll. destruct (pendingRequestID s); [|done].
  unfold when, ite, seq_act. rewrite clearPollTimer_eq by done.
  destruct (visible s); [|done]. cbn [negb].
  change (pastDeadline (untimed s)) with (pastDeadline s). by destruct (pastDeadline s).
Qed.

(** The status of [id] is asked for. *)
Definition asking (id : jsstring) (s : State) : State :=
  set_conts (KCheck (S (operation s)) id :: conts s) (nextOperation s).

Lemma checkStatus_eq s : timers_ok s → checkStatus s =
  match pendingRequestID s with
  | None => (s, [])
  | Some id =>
      if negb (visible s) then (s, [])
      else if starting s || set_has id (inFlight s) then schedulePoll s
      else if pastDeadline s then (untimed s, [onPending id])
      else (asking id (untimed s), [getStatus id])
  end.
Proof.
  intros Ht. unfold checkStatus. destruct (pendingRequestID s); [|done].
  unfold when, ite, seq_act. rewrite clearPollTimer_eq by done.
  destruct (visible s); [|done]. cbn [negb]. destruct (_ || _); [done|].
  change (pastDeadline (untimed s)) with (pastDeadline s). by destruct (pastDeadline s).
Qed.

Lemma checkStatus_inv b : keeps (inv b) checkStatus (inv b).
Proof.
  intros s Hi. split; [|by apply Forall_true]. rewrite checkStatus_eq by apply Hi.
  destruct (pendingRequestID s) as [id|] eqn:Ep; [|done].
  destruct (negb (visible s)); [done|].
  destruct (_ || _).
  { destruct (schedulePoll_inv b (λ _, True)) with (s := s) as [[? _] ?]; done. }
  destruct (pastDeadline s); simpl; [by apply untimed_inv|].
  apply (add_cont b b (untimed s)); [by apply untimed_inv|done|simpl; by rewrite Ep|done].
Qed.

Lemma setStarting_inv (b b' x : bool) :
  (∀ n : nat, n + (if b then 1 else 0) = (if negb x then 1 else 0) →
     n + (if b' then 1 else 0) = (if x then 1 else 0))%nat →
  (∀ s, inv b s → starting s = negb x) →
  keeps (inv b) (setStarting x) (inv b').
Proof.
  intros Hc Hs s Hi. pose proof (Hs s Hi) as Hst. unfold setStarting, when, ite. rewrite Hst.
  destruct x; simpl; (split; [|repeat constructor]);
    (destruct Hi as [? ? ? ? Hcount ? ? ? ?]; split; simpl; try done; apply Hc; rewrite Hcount, Hst; done).
Qed.

Lemma inv_true_starting s : inv true s → starting s = true.
Proof. intros Hi. pose proof (i_starting _ _ Hi). destruct (starting s); [done|lia]. Qed.

Lemma finish_inv op id : keeps (inv true) (finish op id) (inv false).
Proof.
  unfold finish. apply (keeps_seq _ (inv true)).
  { destruct id; [|apply keeps_skip]. apply keeps_upd. intros s Hi.
    eapply inv_same; eauto; apply Hi. }
  apply (keeps_seq _ (inv false)).
  - apply setStarting_inv; simpl; [lia|apply inv_true_starting].
  - apply keeps_when. eapply keeps_pre; [apply checkStatus_inv|weaken].
Qed.

Lemma NoDup_fmap_filter {X Y} (f : X → Y) (P : X → Prop) `{∀ x, Decision (P x)} l :
  NoDup (f <$> l) → NoDup (f <$> filter P l).
Proof.
  induction l as [|x l IH]; [done|]. rewrite fmap_cons, NoDup_cons, filter_cons.
  intros [Hx Hl]. case_decide; [|by apply IH]. rewrite fmap_cons, NoDup_cons. split; [|by apply IH].
  intros (y & E & [_ Hy]%list_elem_of_filter)%list_elem_of_fmap. apply Hx, list_elem_of_fmap. eauto.
Qed.

Lemma length_filter_settled (P : Cont → bool) k l :
  NoDup l → k ∈ l →
  (length (filter (λ x, P x = true) (filter (λ x, x ≠ k) l)) + (if P k then 1 else 0)
   = length (filter (λ x, P x = true) l))%nat.
Proof.
  intros Hn. induction Hn as [|x l Hx Hn IH]; [by intros ?%elem_of_nil|].
  rewrite elem_of_cons. intros Hk. rewrite (filter_cons _ x), (filter_cons _ x). case_decide as Hxk.
  - destruct Hk as [->|Hk]; [done|]. specialize (IH Hk). rewrite filter_cons.
    case_decide; simpl; lia.
  - destruct (decide (x = k)) as [->|]; [|tauto].
    replace (filter (λ x, x ≠ k) l) with l; [case_decide as E; simpl; destruct (P k); try done; lia|].
    symmetry. apply filter_all. rewrite Forall_forall. by intros y Hy ->.
Qed.

(** A promise that settles leaves the rest. *)
Lemma settle_inv k s :
  inv false s → k ∈ conts s →
  inv (is_submit k) (settle k s).1 ∧
  (cont_op k = operation s → nobody (settle k s).1 ∧ cont_id k = pendingRequestID s).
Proof.
  intros Hi Hk.
  assert (∀ x, x ∈ conts s → cont_op x = cont_op k → x = k) as Huniq.
  { intros x Hx He. pose proof (i_nodup _ _ Hi) as Hn.
    apply list_elem_of_lookup in Hx as [i Hi1], Hk as [j Hj1].
    assert (i = j); [|congruence].
    eapply NoDup_lookup; [exact Hn|by rewrite list_lookup_fmap, Hi1|by rewrite list_lookup_fmap, Hj1, He]. }
  split.
  - destruct Hi as [? ? Ho Hn Hs Hc ? ? ?]. split; simpl; try done.
    + rewrite Forall_forall in *. intros x [_ Hx]%list_elem_of_filter. by apply Ho.
    + by apply NoDup_fmap_filter.
    + rewrite <- Hs, Nat.add_0_r. apply length_filter_settled; [|done]. by apply NoDup_fmap_1 in Hn.
    + intros x [_ Hx]%list_elem_of_filter. by apply Hc.
  - intros Hop. split; [|by apply (i_current _ _ Hi)].
    unfold nobody. simpl. apply Forall_forall. intros x [Hne Hx]%list_elem_of_filter He.
    apply Hne, Huniq; [done|congruence].
Qed.

Lemma settle_alone k s :
  inv false s → k ∈ conts s →
  inv (is_submit k) (settle k s).1 ∧ alone (cont_op k) (settle k s).1 ∧
  (current (cont_op k) (settle k s).1 = true → cont_id k = pendingRequestID s).
Proof.
  intros Hi Hk. destruct (settle_inv k s Hi Hk) as [H1 H2].
  assert (current (cont_op k) (settle k s).1 = true → cont_op k = operation s) as Hc.
  { unfold current. intros [_ ?%Nat.eqb_eq]%andb_true_iff. done. }
  split; [done|]. split; [intros ?%Hc; by apply H2|intros ?%Hc; by apply H2].
Qed.

(** The request is sent. *)
Definition starting_state (op : nat) (id : jsstring) (s : State) : State :=
  let s1 := extendDeadline (set_persisted (Some id) (set_pendingRequestID (Some id) s)) in
  set_conts (KStart op id :: conts s) (set_inFlight (set_add id (inFlight s)) s1).

Lemma starting_state_inv op id s :
  inv true s → nobody s → op = operation s → inv false (starting_state op id s).
Proof.
  intros [? ? Ho Hn Hs Hc ? ? ?] Hno ->. unfold nobody in Hno. rewrite Forall_forall in Hno.
  split; simpl; try done.
  - constructor; [simpl; lia|done].
  - apply NoDup_cons. split; [|done]. simpl. intros (k & He & Hk)%list_elem_of_fmap.
    by apply (Hno k).
  - lia.
  - intros k [->|Hk]%elem_of_cons; [done|]. intros He. by destruct (Hno k).
Qed.

Lemma created_eq op m i id s : current op s = true →
  created op m i (Ok id) s =
  (starting_state op id s,
   [persist (Some id); onRequestIDChange (Some id); start (mkStart id m i)]).
Proof. intros Hc. unfold created, ite. by rewrite Hc. Qed.

Lemma page_created_inv op m i r :
  keeps (λ s, inv true s ∧ alone op s) (created op m i r) (inv false).
Proof.
  destruct r as [id|e].
  - intros s [Hi Ha]. split; [|by apply Forall_true]. destruct (current op s) eqn:Ec.
    + rewrite created_eq by done. apply starting_state_inv; [done|by apply Ha|].
      unfold current in Ec. by apply andb_true_iff in Ec as [_ ?%Nat.eqb_eq].
    + unfold created, ite. rewrite Ec. by apply finish_inv.
  - eapply keeps_seq; [apply caught_inv|apply finish_inv].
Qed.

Lemma reported_inv b op (c : State → bool) r :
  (∀ s, c s = true → current op s = true) →
  keeps (λ s, inv b s ∧ alone op s)
    (match r with Ok st => when c (handleStatus st) | Throw e => caught op e end) (inv b).
Proof.
  intros Hc. destruct r as [st|e]; [|apply caught_inv].
  apply keeps_ite; [|eapply keeps_pre; [apply keeps_skip|weaken]].
  eapply keeps_pre; [apply handleStatus_inv|]. intros s [[Hi Ha] Hs]. split; [done|]. by apply Ha, Hc.
Qed.

Lemma started_inv op id r : keeps (λ s, inv true s ∧ alone op s) (started op id r) (inv false).
Proof. eapply keeps_seq; [by apply reported_inv|apply finish_inv]. Qed.

Lemma page_checked_inv op id r : keeps (λ s, inv false s ∧ alone op s) (checked op id r) (inv false).
Proof. apply reported_inv. intros s. by intros [? _]%andb_true_iff. Qed.

Lemma extend_inv b s : inv b s → inv b (extendDeadline s).
Proof. intros Hi. eapply inv_same; eauto; simpl; [done|apply Hi]. Qed.

Lemma page_show_inv : keeps (inv false) show (inv false).
Proof.
  apply keeps_when, (keeps_seq _ (inv false)).
  - apply keeps_upd. intros s [[] Ha]. split; simpl; try done.
    intros _. unfold visible. simpl. by rewrite Ha.
  - apply keeps_when, (keeps_seq _ (inv false)); [|apply checkStatus_inv].
    apply keeps_upd. intros s [Hi _]. by apply extend_inv.
Qed.

Lemma submit_inv m i : keeps (inv false) (submit m i) (inv false).
Proof.
  apply keeps_when, keeps_ite.
  - apply (keeps_seq _ (inv false)); [|apply checkStatus_inv].
    apply keeps_upd. intros s [[Hi _] _]. by apply extend_inv.
  - intros s [[Hi Hg] Hp]. split; [|by apply Forall_true].
    apply andb_true_iff in Hg as [_ Hst%negb_true_iff]. apply bool_decide_eq_false in Hp.
    unfold setStarting, when, ite, seq_act, reading. rewrite Hst. simpl.
    apply (add_cont true false (set_starting true s)); [|done| |done].
    + destruct Hi as [? ? ? ? Hs ? ? ? ?]. rewrite Hst in Hs. split; simpl; try done. lia.
    + simpl. by destruct (pendingRequestID s); [destruct Hp|].
Qed.

(** A timer that fires is no longer live. *)
Lemma fired_inv timer s :
  inv false s → timer ∈ timers s → inv false (set_timers (filter (λ x, x ≠ timer) (timers s)) s).
Proof.
  intros [Ht Hv] Hen. split; simpl; try done.
  - destruct Ht as [Ht|(t & Hp & Ht)]; rewrite Ht in *; [by left|].
    rewrite list_elem_of_singleton in Hen. subst. left.
    rewrite filter_cons_False by tauto. by rewrite filter_nil.
  - intros Hne. apply Hv. intros E. by rewrite E in Hne.
Qed.

Lemma page_step_inv s l s' : inv false s → step s l s' → inv false s'.
Proof.
  intros Hi [Hen Hh]. change s' with (s', l.2).1. rewrite <- Hh. destruct l as [e o]. simpl fst in *.
  clear Hh. destruct e as [| | | | |m i|op m i r|op id r|op id r|timer|d|ids|]; simpl in Hen; cbn [handle].
  - by apply page_show_inv.
  - by apply page_hide_inv.
  - by apply page_unload_inv.
  - by apply resetSession_inv.
  - by apply checkStatus_inv.
  - by apply submit_inv.
  - destruct (settle_alone _ _ Hi Hen) as (H1 & H2 & _).
    destruct (page_created_inv op m i r _ (conj H1 H2)) as [H3 _].
    unfold seq_act. simpl. by destruct (created _ _ _ _ _).
  - destruct (settle_alone _ _ Hi Hen) as (H1 & H2 & _).
    destruct (started_inv op id r _ (conj H1 H2)) as [H3 _].
    unfold seq_act. simpl. by destruct (started _ _ _ _).
  - destruct (settle_alone _ _ Hi Hen) as (H1 & H2 & _).
    destruct (page_checked_inv op id r _ (conj H1 H2)) as [H3 _].
    unfold seq_act. simpl. by destruct (checked _ _ _ _).
  - destruct (checkStatus_inv false _ (fired_inv timer s Hi Hen)) as [H3 _]. unfold seq_act, upd.
    by destruct (checkStatus _).
  - destruct Hi. split; simpl; try done; lia.
  - by destruct Hi.
  - by destruct Hi.
Qed.

(** ** The calls a step makes *)

(** What holds once a request has gone out. *)
Definition request_ok (s' : State) (o : Out) : Prop :=
  match o with
  | getStatus id => pendingRequestID s' = Some id ∧ starting s' = false ∧ (id ∉ inFlight s') ∧
      visible s' = true ∧ now s' < foregroundDeadline s' <= now s' + 20000
  | start input => pendingRequestID s' = Some (clientRequestID input) ∧ starting s' = true ∧
      (clientRequestID input ∈ inFlight s') ∧ visible s' = true
  | _ => True
  end.

Definition no_request (o : Out) : Prop :=
  match o with getStatus _ | start _ => False | _ => True end.

Lemma no_request_ok s' l : Forall no_request l → Forall (request_ok s') l.
Proof. intros Hl. eapply Forall_impl; [exact Hl|]. by intros []. Qed.

(** Actions that send no request, from any state. *)
Definition sends_nothing (a : A) : Prop := triple (λ _, True) a (λ _, True) no_request.

Lemma sn_seq a b : sends_nothing a → sends_nothing b → sends_nothing (a ;; b).
Proof. apply triple_seq. Qed.
Lemma sn_skip : sends_nothing skip.
Proof. apply triple_skip. Qed.
Lemma sn_upd f : sends_nothing (upd f).
Proof. by apply triple_upd. Qed.
Lemma sn_emit o : no_request o → sends_nothing (emit o).
Proof. apply triple_emit. Qed.
Lemma sn_ite c a b : sends_nothing a → sends_nothing b → sends_nothing (ite c a b).
Proof. intros Ha Hb. apply triple_ite; intros s _; [by apply Ha|by apply Hb]. Qed.
Lemma sn_when c a : sends_nothing a → sends_nothing (when c a).
Proof. intros Ha. apply sn_ite; [done|apply sn_skip]. Qed.

Create HintDb silent.
#[local] Hint Resolve sn_seq sn_skip sn_upd sn_emit sn_ite sn_when : silent.
#[local] Hint Extern 1 (no_request _) => exact I : silent.

Lemma sn_schedulePoll : sends_nothing schedulePoll.
Proof.
  intros s _. unfold schedulePoll. destruct (pendingRequestID s) as [id|]; [|by apply sn_skip].
  assert (sends_nothing (when visible
    (clearPollTimer ;; ite pastDeadline (emit (onPending id)) (upd setPollTimer)))) as Ha
    by (unfold clearPollTimer; auto 10 with silent).
  by apply Ha.
Qed.

Lemma sn_clearPending : sends_nothing clearPendingRequestID.
Proof. unfold clearPendingRequestID, setPersistedRequestID. auto 10 with silent. Qed.
#[local] Hint Resolve sn_schedulePoll sn_clearPending : silent.

Lemma sn_resetSession : sends_nothing resetSession.
Proof. unfold resetSession, unload, hide, clearPollTimer. auto 10 with silent. Qed.

Lemma sn_setStarting b : sends_nothing (setStarting b).
Proof. unfold setStarting. auto with silent. Qed.
#[local] Hint Resolve sn_resetSession sn_setStarting : silent.

Lemma sn_handleStatus st : sends_nothing (handleStatus st).
Proof. unfold handleStatus, clearPollTimer. destruct (state st); auto 10 with silent. Qed.

Lemma sn_caught op e : sends_nothing (caught op e).
Proof.
  unfold caught. apply sn_when, sn_seq; [destruct (retryable e); auto with silent|].
  apply sn_seq; [auto with silent|]. destruct (resets e), (retryable e); auto with silent.
Qed.

(** An action whose requests are in order once it is done. *)
Definition sends_ok (P : State → Prop) (a : A) : Prop :=
  ∀ s, P s → Forall (request_ok (a s).1) (a s).2.

Lemma so_nothing P a : sends_nothing a → sends_ok P a.
Proof. intros Ha s _. apply no_request_ok. by apply Ha. Qed.

Lemma so_seq P Q a b : keeps P a Q → sends_nothing a → sends_ok Q b → sends_ok P (a ;; b).
Proof.
  intros Hk Ha Hb s Hs. unfold seq_act. destruct (Hk s Hs) as [Hq _]. destruct (Ha s I) as [_ Hno].
  destruct (a s) as [s1 o1]. simpl in *. specialize (Hb s1 Hq). destruct (b s1) as [s2 o2].
  simpl in *. apply Forall_app. split; [by apply no_request_ok|done].
Qed.

Lemma so_when P c a : sends_ok P a → sends_ok P (when c a).
Proof. intros Ha s Hs. unfold when, ite. destruct (c s); [by apply Ha|constructor]. Qed.

Lemma checkStatus_sends b : sends_ok (inv b) checkStatus.
Proof.
  intros s Hi. rewrite checkStatus_eq by apply Hi.
  destruct (pendingRequestID s) as [id|] eqn:Ep; [|constructor].
  destruct (visible s) eqn:Ev; [|constructor]. cbn [negb].
  destruct (_ || _) eqn:Es; [by apply (so_nothing (λ _, True) _ sn_schedulePoll)|].
  apply orb_false_iff in Es as [Es Eh%set_has_false].
  unfold pastDeadline. destruct (_ <=? _) eqn:Ed; boolify; [by repeat constructor|].
  constructor; [|constructor]. pose proof (i_deadline _ _ Hi). split_and!; simpl; done.
Qed.

Lemma finish_sends op id : sends_ok (inv true) (finish op id).
Proof.
  unfold finish. apply (so_seq _ (inv true)).
  { destruct id; [|apply keeps_skip]. apply keeps_upd. intros s Hi. eapply inv_same; eauto; apply Hi. }
  { destruct id; auto with silent. }
  apply (so_seq _ (inv false)); [|auto with silent|apply so_when, checkStatus_sends].
  apply setStarting_inv; simpl; [lia|apply inv_true_starting].
Qed.

Lemma created_sends op m i r : sends_ok (λ s, inv true s ∧ alone op s) (created op m i r).
Proof.
  destruct r as [id|e].
  - intros s [Hi Ha]. destruct (current op s) eqn:Ec.
    + rewrite created_eq by done. repeat (constructor; [done|]). constructor; [|constructor].
      apply andb_true_iff in Ec as [Ev _]. simpl. split_and!; try done.
      * by apply inv_true_starting.
      * apply elem_of_set_add. by left.
    + unfold created, ite. rewrite Ec. by apply finish_sends.
  - eapply so_seq; [apply caught_inv|apply sn_caught|apply finish_sends].
Qed.

Lemma started_sends op id r : sends_ok (λ s, inv true s ∧ alone op s) (started op id r).
Proof.
  eapply so_seq; [by apply reported_inv| |apply finish_sends].
  destruct r; [apply sn_when, sn_handleStatus|apply sn_caught].
Qed.

Lemma checked_sends op id r : sends_nothing (checked op id r).
Proof. destruct r; [apply sn_when, sn_handleStatus|apply sn_caught]. Qed.

Lemma step_sends s e o s' : inv false s → step s (e, o) s' → Forall (request_ok s') o.
Proof.
  intros Hi [Hen Hh]. simpl in *.
  assert (∀ (a : A) P s1, sends_ok P a → P s1 → a s1 = (s', o) → Forall (request_ok s') o) as Hk.
  { intros a P s1 Ha HP E. specialize (Ha s1 HP). by rewrite E in Ha. }
  destruct e as [| | | | |m i|op m i r|op id r|op id r|timer|d|ids|].
  - eapply (Hk show (inv false)); [|done|exact Hh]. intros s1 Hi1. unfold show, when, ite.
    destruct (active s1) eqn:Ea; [|constructor].
    refine (so_seq (λ s, inv false s ∧ active s = true) (inv false) _ _ _ (sn_upd _) _ s1 (conj Hi1 Ea)).
    + apply keeps_upd. intros s2 [[] Ha]. split; simpl; try done.
      intros _. unfold visible. simpl. by rewrite Ha.
    + apply so_when, (so_seq _ (inv false)); [|apply sn_upd|apply checkStatus_sends].
      apply keeps_upd. intros s2 Hi2. by apply extend_inv.
  - cbn [handle] in Hh. rewrite hide_eq in Hh by apply Hi. injection Hh as _ <-. constructor.
  - cbn [handle] in Hh. rewrite unload_eq in Hh by apply Hi. injection Hh as _ <-. constructor.
  - eapply (Hk _ (λ _, True)); [apply so_nothing, sn_resetSession|done|exact Hh].
  - by eapply (Hk _ _ _ (checkStatus_sends false)).
  - eapply (Hk (submit m i) (inv false)); [|done|exact Hh]. apply so_when. intros s1 Hi1.
    unfold ite. case_bool_decide.
    + refine (so_seq (inv false) (inv false) _ _ _ (sn_upd _) (checkStatus_sends false) s1 Hi1).
      apply keeps_upd. intros s2 Hi2. by apply extend_inv.
    + unfold setStarting, when, ite, seq_act, reading. destruct (starting s1); simpl; repeat constructor.
  - destruct (settle_alone _ _ Hi Hen) as (H1 & H2 & _). cbn [handle] in Hh. unfold seq_act in Hh.
    simpl in Hh. destruct (created op m i r _) as [s2 o2] eqn:E. injection Hh as <- <-.
    pose proof (created_sends op m i r _ (conj H1 H2)) as H3. simpl in H3. by rewrite E in H3.
  - destruct (settle_alone _ _ Hi Hen) as (H1 & H2 & _). cbn [handle] in Hh. unfold seq_act in Hh.
    simpl in Hh. destruct (started op id r _) as [s2 o2] eqn:E. injection Hh as <- <-.
    pose proof (started_sends op id r _ (conj H1 H2)) as H3. simpl in H3. by rewrite E in H3.
  - eapply (Hk _ (λ _, True)); [|done|exact Hh]. apply so_nothing, sn_seq; [apply sn_upd|].
    apply checked_sends.
  - cbn [handle] in Hh. unfold seq_act, upd in Hh.
    pose proof (fired_inv timer _ Hi Hen) as Hi'.
    pose proof (checkStatus_sends false _ Hi') as H3.
    destruct (checkStatus _) as [s2 o2]. by injection Hh as <- <-.
  - injection Hh as _ <-. constructor.
  - injection Hh as _ <-. constructor.
  - injection Hh as _ <-. constructor.
Qed.

(** Actions that start no test. *)
Definition no_start (o : Out) : Prop := match o with start _ => False | _ => True end.
Definition starts_nothing (a : A) : Prop := triple (λ _, True) a (λ _, True) no_start.

Lemma ns_sends a : sends_nothing a → starts_nothing a.
Proof. intros Ha. eapply triple_conseq; [exact Ha|done|done|]. by intros []. Qed.
Lemma ns_seq a b : starts_nothing a → starts_nothing b → starts_nothing (a ;; b).
Proof. apply triple_seq. Qed.
Lemma ns_ite c a b : starts_nothing a → starts_nothing b → starts_nothing (ite c a b).
Proof. intros Ha Hb. apply triple_ite; intros s _; [by apply Ha|by apply Hb]. Qed.
Lemma ns_when c a : starts_nothing a → starts_nothing (when c a).
Proof. intros Ha. apply ns_ite; [done|apply ns_sends, sn_skip]. Qed.
Lemma ns_emit o : no_start o → starts_nothing (emit o).
Proof. apply triple_emit. Qed.
Lemma ns_reading {X} (f : State → X) k : (∀ x, starts_nothing (k x)) → starts_nothing (reading f k).
Proof. intros Hk s Hs. by apply (Hk (f s)). Qed.
Create HintDb starts.
#[local] Hint Resolve ns_seq ns_ite ns_when ns_emit ns_reading : starts.
#[local] Hint Extern 1 (no_start _) => exact I : starts.
#[local] Hint Extern 2 (starts_nothing _) => apply ns_sends; solve [auto 10 with silent] : starts.

Lemma ns_checkStatus : starts_nothing checkStatus.
Proof.
  intros s _. unfold checkStatus. destruct (pendingRequestID s) as [id|]; [|by apply ns_sends, sn_skip].
  match goal with |- context [when visible ?a] => assert (starts_nothing (when visible a)) as Ha end.
  { unfold clearPollTimer, await. auto 20 with starts. }
  by apply Ha.
Qed.
#[local] Hint Resolve ns_checkStatus : starts.

Lemma ns_finish op id : starts_nothing (finish op id).
Proof. unfold finish. destruct id; auto 20 with starts. Qed.
#[local] Hint Resolve ns_finish : starts.

Lemma ns_handle e :
  (∀ op m i id, e ≠ Created op m i (Ok id)) → starts_nothing (handle e).
Proof.
  intros He. destruct e as [| | | | |m i|op m i r|op id r|op id r|timer|d|ids|]; cbn [handle].
  1-6: unfold show, hide, unload, submit, await, clearPollTimer; auto 20 with starts.
  4-6: auto 20 with starts.
  - destruct r as [id|e]; [by destruct (He op m i id)|]. unfold created, settle.
    apply ns_seq; [auto with starts|]. apply ns_seq; [apply ns_sends, sn_caught|auto with starts].
  - unfold settle, started. apply ns_seq; [auto with starts|]. apply ns_seq; [|auto with starts].
    destruct r; apply ns_sends; [apply sn_when, sn_handleStatus|apply sn_caught].
  - unfold settle. apply ns_seq; [auto with starts|]. apply ns_sends, checked_sends.
  - auto 20 with starts.
Qed.

(** A test is started only when a new id arrives and none is pending. *)
Lemma start_fresh s e o s' input :
  inv false s → step s (e, o) s' → start input ∈ o → pendingRequestID s = None.
Proof.
  intros Hi [Hen Hh] Hin. simpl in *.
  destruct e as [| | | | |m i|op m i [id|f]|op id r|op id r|timer|d|ids|] eqn:Ee.
  7:{ destruct (settle_alone _ _ Hi Hen) as (H1 & H2 & H3). cbn [handle] in Hh.
      unfold seq_act in Hh. destruct (settle _ s) as [s1 o1] eqn:Es.
      injection Es as Es <-. simpl in H3. destruct (current op s1) eqn:Ec; [by rewrite H3|].
      exfalso. destruct (created op m i (Ok id) s1) as [s2 o2] eqn:E. injection Hh as <- <-.
      unfold created, ite in E. rewrite Ec in E.
      destruct (ns_finish op (Some id) s1 I) as [_ Hf]. rewrite E, Forall_forall in Hf.
      by apply Hf in Hin. }
  all: exfalso; rewrite <- Ee in Hh;
    assert (starts_nothing (handle e)) as Hn by (apply ns_handle; by intros; subst);
    destruct (Hn s I) as [_ Hf]; rewrite Hh, Forall_forall in Hf; by apply Hf in Hin.
Qed.

(** *** A hidden page *)
Definition hidden_ok (o : Out) : Prop :=
  match o with onStartChange false | persist None | onRequestIDChange None => True | _ => False end.

Lemma current_hidden op s : visible s = false → current op s = false.
Proof. intros Hv. unfold current. by rewrite Hv. Qed.

Lemma checkStatus_hidden s : visible s = false → checkStatus s = (s, []).
Proof.
  intros Hv. unfold checkStatus, when, ite. rewrite Hv. by destruct (pendingRequestID s).
Qed.

Lemma finish_hidden op id s : visible s = false → Forall hidden_ok (finish op id s).2.
Proof.
  intros Hv. unfold finish, seq_act.
  set (a := match id with Some _ => _ | None => _ end).
  assert (∃ s1, a s = (s1, []) ∧ visible s1 = false) as (s1 & -> & Hv1)
    by (unfold a; destruct id; eexists; split; reflexivity || done).
  unfold setStarting, when, ite.
  destruct (negb (Bool.eqb (starting s1) false)); simpl; [change (visible (set_starting false s1)) with (visible s1)|];
    rewrite Hv1, andb_false_r; simpl; by repeat constructor.
Qed.

Lemma step_hidden s e o s' :
  step s (e, o) s' → visible s = false → e ≠ Show → inv false s → Forall hidden_ok o.
Proof.
  intros [_ Hh] Hv He Hi. simpl in *. change o with (s', o).2. rewrite <- Hh. clear Hh.
  destruct e as [| | | | |m i|op m i r|op id r|op id r|timer|d|ids|]; cbn [handle].
  - done.
  - rewrite hide_eq by apply Hi. constructor.
  - rewrite unload_eq by apply Hi. constructor.
  - unfold resetSession. unfold seq_act at 1. rewrite unload_eq by apply Hi. by repeat constructor.
  - rewrite checkStatus_hidden by done. constructor.
  - unfold submit, when, ite. rewrite Hv. constructor.
  - unfold seq_act. simpl. set (s1 := set_conts _ s).
    assert (Forall hidden_ok (created op m i r s1).2) as Hc.
    { unfold created, ite, caught, when, seq_act. destruct r as [id|e]; unfold ite;
        rewrite current_hidden by done; [by apply finish_hidden|].
      pose proof (finish_hidden op None s1 Hv) as Hf. simpl. by destruct (finish op None s1). }
    by destruct (created op m i r s1).
  - unfold seq_act. simpl. set (s1 := set_conts _ s).
    assert (Forall hidden_ok (started op id r s1).2) as Hc.
    { unfold started, caught, when, seq_act. pose proof (finish_hidden op (Some id) s1 Hv) as Hf.
      destruct r as [st|e]; unfold ite; rewrite current_hidden by done; simpl;
        by destruct (finish op (Some id) s1). }
    by destruct (started op id r s1).
  - unfold seq_act. simpl. set (s1 := set_conts _ s).
    unfold checked, caught, when, ite. destruct r as [st|e]; rewrite current_hidden by done; constructor.
  - unfold seq_act, upd. rewrite checkStatus_hidden by done. constructor.
  - constructor.
  - constructor.
  - constructor.
Qed.

(** *** Runs *)
Lemma reaches_inv_page t0 stored ids ls s :
  0 <= t0 → reaches step (init t0 stored ids) ls s → inv false s.
Proof. intros Ht. apply reaches_inv; [apply page_step_inv|by apply page_inv_init]. Qed.

(** Whatever the user, the platform and the server do, and in whatever order the
    awaited promises settle: at most one submission is under way and at most one
    poll timer is live, only while the page is visible; at most one awaited
    promise may still report, and it is about the pending request; the stored id
    is the pending one or none; and the polling window never reaches more than
    twenty seconds ahead. *)
Theorem texttest_invariant t0 stored ids ls s
    (Ht : 0 <= t0) (Hrun : reaches step (init t0 stored ids) ls s) : inv false s.
Proof. eapply reaches_inv_page; eauto. Qed.

(** C36: a test is started only while none is pending, under an id that is then
    pending and marked as in flight; a status is asked for only of the pending
    request, when its start is not in flight, the page is visible and the
    polling window is open. *)
Theorem texttest_requests t0 stored ids ls s e o s'
    (Ht : 0 <= t0) (Hrun : reaches step (init t0 stored ids) ls s) (Hstep : step s (e, o) s') :
  Forall (request_ok s') o ∧ (∀ input, start input ∈ o → pendingRequestID s = None).
Proof.
  assert (inv false s) as Hi by (eapply reaches_inv_page; eauto).
  split; [by eapply step_sends|]. intros input. by apply (start_fresh s e o s').
Qed.

(** While the page is hidden or unloaded, nothing that settles, fires or is
    called, other than showing it again, reports a status or an error or sends a
    request: the only calls are the end of a submission and the forgetting of the
    pending id. *)
Theorem texttest_hidden_silent t0 stored ids ls s e o s'
    (Ht : 0 <= t0) (Hrun : reaches step (init t0 stored ids) ls s) (Hstep : step s (e, o) s')
    (Hhidden : visible s = false) (He : e ≠ Show) :
  Forall hidden_ok o.
Proof. eapply step_hidden; eauto. eapply reaches_inv_page; eauto. Qed.

(** ** A sample run: shown, submitted, started, hidden while the answer is awaited. *)
Definition sample_events : list Event :=
  [Show; Submit (js "m") (js "hi"); Created 1 (js "m") (js "hi") (Ok (js "r1")); Hide].

Abbreviation after := (run_after handle).
Abbreviation trace := (run_trace handle).

Definition start0 : State := init 1000 None [].

Lemma page_sample_reaches n : (n <= 4)%nat →
  reaches step start0 (trace (take n sample_events) start0) (after (take n sample_events) start0).
Proof.
  intros Hn. apply run_reaches. do 5 (destruct n as [|n]; [vm_compute; repeat split; left|]). lia.
Qed.

Lemma texttest_invariant_witness : inv false (after sample_events start0).
Proof. exact (texttest_invariant 1000 None [] _ _ ltac:(lia) (page_sample_reaches 4 ltac:(lia))). Defined.

Lemma texttest_requests_witness :
  let s := after (take 2 sample_events) start0 in
  let r := handle (Created 1 (js "m") (js "hi") (Ok (js "r1"))) s in
  Forall (request_ok r.1) r.2.
Proof.
  intros s r.
  refine (proj1 (texttest_requests 1000 None [] _ s (Created 1 (js "m") (js "hi") (Ok (js "r1")))
                   r.2 r.1 ltac:(lia) (page_sample_reaches 2 ltac:(lia)) _)).
  split; [vm_compute; left|vm_compute; reflexivity].
Defined.

Definition late_answer : Event := Started 1 (js "r1") (Throw (mkFailure true false)).

Lemma texttest_hidden_silent_witness :
  Forall hidden_ok (handle late_answer (after sample_events start0)).2.
Proof.
  refine (texttest_hidden_silent 1000 None [] _ (after sample_events start0) late_answer _
            (handle late_answer (after sample_events start0)).1
            ltac:(lia) (page_sample_reaches 4 ltac:(lia)) _ _ _).
  - split; [vm_compute; left|vm_compute; reflexivity].
  - vm_compute. reflexivity.
  - discriminate.
Defined.

End TextTestPage.
