(* ===== verification/AuthSession.v ===== *)
(** Browser authentication (web/src/lib/auth-session.ts, auth-session-sync.ts and
    web/src/stores/auth-store.ts).

    The state is the zustand store and the module variable [authEpoch], with the
    clock; events published to other tabs are a log.  The refresh runner is
    modelled over the runtime it is given ([AuthRefreshRuntime], as in the
    source): the network and the timer are operations of the runtime that return
    with the state other code left meanwhile. *)
From S2P Require Import Prelude JsString JsValue Json.
Open Scope Z_scope.

(** ** auth-store.ts *)
Inductive AuthBootstrapState := idle | checking | complete.
#[export] Instance AuthBootstrapState_eq_dec : EqDecision AuthBootstrapState.
Proof. solve_decision. Defined.

(** The fields the code looks at, and the whole value. *)
Record AuthUser := mkUser {
  user_id : jsnum; username : jsstring; role : jsnum; user_value : jsval }.

Record LoginSession := mkSession {
  sid : jsstring; current : bool; login_method : jsstring; ip : jsstring; user_agent : jsstring;
  created_at : jsnum; last_active_at : jsnum; expires_at : jsnum }.

Record AuthBundle := mkBundle {
  access_token : jsstring; token_type : jsstring; access_expires_at : jsnum;
  user : AuthUser; session : LoginSession }.

Record AuthState := mkAuth {
  auth_user : option AuthUser;
  accessToken : option jsstring;
  accessExpiresAt : option jsnum;
  auth_session : option LoginSession;
  pending2FAFlowToken : option jsstring;
  bootstrapState : AuthBootstrapState;
}.

Definition initialAuth : AuthState := mkAuth None None None None None idle.

Definition setBundle (b : AuthBundle) (a : AuthState) : AuthState :=
  mkAuth (Some (user b)) (Some (access_token b)) (Some (access_expires_at b)) (Some (session b))
    None complete.
Definition setUser (u : option AuthUser) (a : AuthState) : AuthState :=
  mkAuth u (accessToken a) (accessExpiresAt a) (auth_session a) (pending2FAFlowToken a)
    (bootstrapState a).
Definition setPending2FAFlowToken (t : option jsstring) (a : AuthState) : AuthState :=
  mkAuth (auth_user a) (accessToken a) (accessExpiresAt a) (auth_session a) t (bootstrapState a).
Definition setBootstrapState (b : AuthBootstrapState) (a : AuthState) : AuthState :=
  mkAuth (auth_user a) (accessToken a) (accessExpiresAt a) (auth_session a)
    (pending2FAFlowToken a) b.
Definition reset (b : AuthBootstrapState) (a : AuthState) : AuthState :=
  mkAuth None None None None None b.

(** ** auth-session-sync.ts *)
Inductive SyncKind := authenticated | signed_out.

Record AuthSessionSyncEvent := mkEvent {
  ev_kind : SyncKind; ev_sid : jsstring; source : jsstring; nonce : jsstring; timestamp : jsnum }.

Definition readSyncKind (v : jsval) : option SyncKind :=
  if is_lit v "authenticated" then Some authenticated
  else if is_lit v "signed_out" then Some signed_out
  else None.

(** The type guard, with the event it recognises. *)
Definition asAuthSessionSyncEvent (v : jsval) : option AuthSessionSyncEvent :=
  _ ← guard (is_object v);
  kind ← readSyncKind (prop "kind" v);
  sid ← as_string (prop "sid" v);
  _ ← guard (negb (bool_decide (sid = [])));
  source ← as_string (prop "source" v);
  nonce ← as_string (prop "nonce" v);
  timestamp ← as_number (prop "timestamp" v);
  Some (mkEvent kind sid source nonce timestamp).

Definition event_json (e : AuthSessionSyncEvent) : jsval := JObj [
  (js "kind", JStr (match ev_kind e with authenticated => js "authenticated" | signed_out => js "signed_out" end));
  (js "sid", JStr (ev_sid e)); (js "source", JStr (source e)); (js "nonce", JStr (nonce e));
  (js "timestamp", JNum (timestamp e))].

(** The event a publication sends, if it sends one: [own] is this tab's
    identifier, [fresh] a new one. *)
Definition publishAuthSessionEvent (own fresh : jsstring) (now : Z) (kind : SyncKind) (sid : jsstring) :
    option AuthSessionSyncEvent :=
  match sid with
  | [] => None
  | _ => Some (mkEvent kind sid own fresh (num_of_Z now))
  end.

(** [Math.abs(now - t) < 60_000] with the difference rounded to a double. *)
Definition num_sub (x y : jsnum) : jsnum := SFsub 53 1024 x y.
Definition num_abs (x : jsnum) : jsnum := SFabs x.

(** [deliver]: the event handed to the listener, if any. *)
Definition deliver (own : jsstring) (now : Z) (v : jsval) : option AuthSessionSyncEvent :=
  e ← asAuthSessionSyncEvent v;
  if negb (bool_decide (source e = own))
     && num_ltb (num_abs (num_sub (num_of_Z now) (timestamp e))) (num_of_Z 60000)
  then Some e else None.

(** The storage path: the text of the storage event. *)
Definition deliverText (own : jsstring) (now : Z) (newValue : jsstring) : option AuthSessionSyncEvent :=
  v ← JSON_parse newValue; deliver own now v.

(** ** auth-session.ts: validation *)
Definition positive (x : jsnum) : bool := num_ltb num0 x.

Definition asAuthUser (v : jsval) : option AuthUser :=
  _ ← guard (is_object v);
  id ← as_number (prop "id" v);
  _ ← guard (is_integer id && positive id);
  username ← as_string (prop "username" v);
  role ← as_number (prop "role" v);
  Some (mkUser id username role v).

Definition asLoginSession (v : jsval) : option LoginSession :=
  _ ← guard (is_object v);
  sid ← as_string (prop "sid" v);
  _ ← guard (negb (bool_decide (sid = [])));
  current ← as_bool (prop "current" v);
  login_method ← as_string (prop "login_method" v);
  ip ← as_string (prop "ip" v);
  user_agent ← as_string (prop "user_agent" v);
  created_at ← as_number (prop "created_at" v);
  last_active_at ← as_number (prop "last_active_at" v);
  expires_at ← as_number (prop "expires_at" v);
  Some (mkSession sid current login_method ip user_agent created_at last_active_at expires_at).

(** [hasValidTokenFields], with the three fields. *)
Definition validTokenFields (v : jsval) : option (jsstring * jsstring * jsnum) :=
  token ← as_string (prop "access_token" v);
  _ ← guard (negb (bool_decide (token = [])));
  type ← as_string (prop "token_type" v);
  _ ← guard (negb (bool_decide (type = [])));
  expires ← as_number (prop "access_expires_at" v);
  _ ← guard (is_finite expires && positive expires);
  Some (token, type, expires).

Definition isAuthBundle (v : jsval) : option AuthBundle :=
  _ ← guard (is_object v);
  '(token, type, expires) ← validTokenFields v;
  user ← asAuthUser (prop "user" v);
  session ← asLoginSession (prop "session" v);
  Some (mkBundle token type expires user session).

Record AuthTokenRotation := mkRotation {
  rot_token : jsstring; rot_type : jsstring; rot_expires : jsnum; rot_session : LoginSession }.

Definition isAuthTokenRotation (v : jsval) : option AuthTokenRotation :=
  _ ← guard (is_object v);
  '(token, type, expires) ← validTokenFields v;
  _ ← guard (bool_decide (type = js "Bearer"));
  session ← asLoginSession (prop "session" v);
  _ ← guard (current session);
  Some (mkRotation token type expires session).

(** ** auth-session.ts: the store and the epoch *)
Record Web := mkWeb {
  auth : AuthState;
  authEpoch : nat;
  now_ms : Z;
  published : list (SyncKind * jsstring);
}.

Definition with_auth (f : AuthState → AuthState) (w : Web) : Web :=
  mkWeb (f (auth w)) (authEpoch w) (now_ms w) (published w).
Definition next_epoch (w : Web) : Web :=
  mkWeb (auth w) (S (authEpoch w)) (now_ms w) (published w).
(** [publishAuthSessionEvent] ignores an empty session id. *)
Definition publish (k : SyncKind) (sid : jsstring) (w : Web) : Web :=
  match sid with
  | [] => w
  | _ => mkWeb (auth w) (authEpoch w) (now_ms w) (published w ++ [(k, sid)])
  end.
Definition current_sid (w : Web) : option jsstring := sid <$> auth_session (auth w).

Definition applyAuthBundle (b : AuthBundle) (synchronizeTabs : bool) (w : Web) : Web :=
  let previousSID := current_sid w in
  let w := with_auth (setBundle b) (next_epoch w) in
  if synchronizeTabs && negb (bool_decide (previousSID = Some (sid (session b))))
  then publish authenticated (sid (session b)) w else w.

Inductive RotationError := InvalidRotation | NoActiveSession | SessionMismatch.

Definition applyAuthRotation (v : jsval) (w : Web) : res RotationError Web :=
  match isAuthTokenRotation v with
  | None => Throw InvalidRotation
  | Some r =>
      match auth_user (auth w), auth_session (auth w) with
      | Some u, Some s =>
          if negb (bool_decide (sid (rot_session r) = sid s)) then Throw SessionMismatch
          else Ok (applyAuthBundle (mkBundle (rot_token r) (rot_type r) (rot_expires r) u (rot_session r))
                     false w)
      | _, _ => Throw NoActiveSession
      end
  end.

Definition clearAuthentication (synchronizeTabs : bool) (b : AuthBootstrapState) (w : Web) : Web :=
  let sid := current_sid w in
  let w := with_auth (reset b) (next_epoch w) in
  match sid with
  | Some s => if synchronizeTabs then publish signed_out s w else w
  | None => w
  end.

(** ** auth-session.ts: the refresh runner *)
Record AuthRefreshHTTPResponse := mkResponse { status : Z; data : jsval; error : jsval }.

(** [Superseded] is the transient error whose error is an
    [AuthRefreshSupersededError]. *)
Inductive RefreshOutcome :=
| Authenticated (bundle : AuthBundle)
| Anonymous
| TransientError (error : jsval)
| Superseded
| OutOfSync (code : option jsstring).

(** What the runner is given; [S] is the state the operations act on. *)
Record AuthRefreshRuntime (S : Type) := mkRuntime {
  rt_request : option jsstring → S → AuthRefreshHTTPResponse * S;
  getExpectedSID : S → option jsstring;
  parseBundle : jsval → option AuthBundle;
  acceptBundle : AuthBundle → S → S;
  clear : bool → AuthBootstrapState → S → S;
  markTransient : S → S;
  wait : Z → S → S;
  isCurrent : S → bool;
}.
Arguments rt_request {S}.
Arguments getExpectedSID {S}.
Arguments parseBundle {S}.
Arguments acceptBundle {S}.
Arguments clear {S}.
Arguments markTransient {S}.
Arguments wait {S}.
Arguments isCurrent {S}.

Definition refreshRaceDelays : list Z := [80; 200; 500].

(** What a run does: its requests, with the state each was made in and its answer, its
    waits, and its changes of the store, with the state each was made in. *)
Inductive RunEvent (S : Type) :=
| Requested (expected : option jsstring) (before : S) (response : AuthRefreshHTTPResponse)
| Waited (delay : Z)
| Changed (before : S).
Arguments Requested {S}.
Arguments Waited {S}.
Arguments Changed {S}.

Section runner.
Context {S : Type} (rt : AuthRefreshRuntime S).

(** What the runner does with a response: stop with an outcome after a change of
    the store, or go on after a wait or after a change. *)
Inductive Verdict :=
| Finish (change : S → S) (outcome : RefreshOutcome)
| RetryRace (delay : Z)
| RetryMismatch (change : S → S).

Definition response_record (r : AuthRefreshHTTPResponse) : jsval :=
  if is_object (data r) then data r else JUndef.

Definition verdict (raceAttempt : nat) (allowMismatchRetry : bool) (r : AuthRefreshHTTPResponse) :
    Verdict :=
  let responseData := response_record r in
  let code := as_string (prop "code" responseData) in
  let bundle := parseBundle rt (prop "data" responseData) in
  let has c := bool_decide (code = Some (js c)) in
  match (match prop "success" responseData with JBool true => bundle | _ => None end) with
  | Some b => Finish (acceptBundle rt b) (Authenticated b)
  | None =>
      if (status r =? 409) && has "AUTH_REFRESH_RACE"%string then
        match refreshRaceDelays !! raceAttempt with
        | Some delay => RetryRace delay
        | None => Finish (clear rt false complete) (OutOfSync code)
        end
      else if (status r =? 409) && has "AUTH_SESSION_MISMATCH"%string then
        if allowMismatchRetry then RetryMismatch (clear rt false idle)
        else Finish (clear rt false complete) (OutOfSync code)
      else if status r =? 401 then Finish (clear rt true complete) Anonymous
      else if (status r =? 0) || (500 <=? status r) || (status r =? 429) then
        Finish (markTransient rt)
          (TransientError (match error r with JUndef | JNull => data r | e => e end))
      else Finish (clear rt false complete)
             (OutOfSync (Some (default (js "AUTH_INVALID_REFRESH_RESPONSE") code)))
  end.

(** [None] when the fuel runs out. *)
Fixpoint run (fuel : nat) (raceAttempt : nat) (allowMismatchRetry : bool) (s : S) :
    option (RefreshOutcome * S * list (RunEvent S)) :=
  match fuel with
  | O => None
  | Datatypes.S fuel =>
      if negb (isCurrent rt s) then Some (Superseded, s, [])
      else
        let expected := getExpectedSID rt s in
        let '(response, s1) := rt_request rt expected s in
        if negb (isCurrent rt s1) then Some (Superseded, s1, [Requested expected s response])
        else
          match verdict raceAttempt allowMismatchRetry response with
          | Finish change outcome => Some (outcome, change s1, [Requested expected s response; Changed s1])
          | RetryRace delay =>
              '(o, s2, t) ← run fuel (Datatypes.S raceAttempt) allowMismatchRetry (wait rt delay s1);
              Some (o, s2, [Requested expected s response; Waited delay] ++ t)
          | RetryMismatch change =>
              '(o, s2, t) ← run fuel 0 false (change s1);
              Some (o, s2, [Requested expected s response; Changed s1] ++ t)
          end
  end.

(** Four attempts before a mismatch and four after it are all there can be. *)
Definition createRefreshRunner (s : S) : option (RefreshOutcome * S * list (RunEvent S)) :=
  run 8 0 true s.
End runner.

(** The network and the timers of the browser: an answer, with the state other
    code left meanwhile.  A request that fails is a response with status 0. *)
Class AuthHost := {
  post_refresh : option jsstring → Web → AuthRefreshHTTPResponse * Web;
  timeout : Z → Web → Web;
  lock_acquired : Web → Web;
}.

Section session.
Context `{AuthHost}.

Definition runtime_of (refreshEpoch : nat) : AuthRefreshRuntime Web := {|
  rt_request := post_refresh;
  getExpectedSID := current_sid;
  parseBundle := isAuthBundle;
  acceptBundle b := applyAuthBundle b false;
  clear synchronizeTabs bootstrap w :=
    if negb synchronizeTabs && bool_decide (bootstrap = idle) then with_auth (reset idle) w
    else clearAuthentication synchronizeTabs bootstrap w;
  markTransient := with_auth (setBootstrapState idle);
  wait := timeout;
  isCurrent w := (authEpoch w =? refreshEpoch)%nat;
|}.

Definition runRefresh (refreshEpoch : nat) (w : Web) :
    option (RefreshOutcome * Web * list (RunEvent Web)) :=
  createRefreshRunner (runtime_of refreshEpoch) w.

(** A refresh that no other refresh of the tab is waiting for; the browser lock
    is taken first. *)
Definition refreshAuthentication (w : Web) : option (RefreshOutcome * Web * list (RunEvent Web)) :=
  runRefresh (authEpoch w) (lock_acquired w).

Definition now_seconds (w : Web) : Z := now_ms w / 1000.

(** A number that is there and not zero or NaN, as [&&] tests it. *)
Definition expiry (a : AuthState) : option jsnum :=
  x ← accessExpiresAt a; if truthy (JNum x) then Some x else None.
Definition token (a : AuthState) : option jsstring :=
  t ← accessToken a; match t with [] => None | _ => Some t end.

Definition currentValidAuthBundle (w : Web) : option AuthBundle :=
  u ← auth_user (auth w);
  t ← token (auth w);
  x ← expiry (auth w);
  s ← auth_session (auth w);
  if num_leb x (num_of_Z (now_seconds w)) then None
  else Some (mkBundle t (js "Bearer") x u s).

Definition bootstrapAuthentication (w : Web) : option (RefreshOutcome * Web * list (RunEvent Web)) :=
  match currentValidAuthBundle w with
  | Some b => Some (Authenticated b, with_auth (setBootstrapState complete) w, [])
  | None =>
      let hasStaleSession :=
        match auth_user (auth w), auth_session (auth w) with Some _, Some _ => true | _, _ => false end in
      if bool_decide (bootstrapState (auth w) = complete) && negb hasStaleSession
      then Some (Anonymous, w, [])
      else refreshAuthentication (with_auth (setBootstrapState checking) w)
  end.

Definition getCommonHeaders (w : Web) : list (jsstring * jsstring) :=
  (js "Content-Type", js "application/json")
  :: match token (auth w) with Some t => [(js "Authorization", js "Bearer " ++ t)] | None => [] end.

Inductive HeaderError := RequestFailed | SessionExpired.

(** The token expires after [t]. *)
Definition token_until (t : Z) (w : Web) : bool :=
  match token (auth w), expiry (auth w) with
  | Some _, Some x => num_ltb (num_of_Z t) x
  | _, _ => false
  end.

Definition getFreshAuthHeaders (w : Web) :
    option (res HeaderError (list (jsstring * jsstring)) * Web) :=
  if token_until (now_seconds w + 60) w then Some (Ok (getCommonHeaders w), w)
  else
    '(outcome, w1, _) ← refreshAuthentication w;
    Some (match outcome with
          | Authenticated _ => Ok (getCommonHeaders w1)
          | _ =>
              if token_until (now_seconds w1) w1 then Ok (getCommonHeaders w1)
              else match outcome with
                   | TransientError _ | Superseded => Throw RequestFailed
                   | _ => Throw SessionExpired
                   end
          end, w1).
End session.

(** ** The runner stops, and stops touching the store once superseded *)
Section runner_facts.
Context {S : Type} (rt : AuthRefreshRuntime S).

Definition requests (t : list (RunEvent S)) : nat :=
  length (omap (λ e, match e with Requested x _ _ => Some x | _ => None end) t).
Definition waits (t : list (RunEvent S)) : Z :=
  Zsum ((λ e, match e with Waited d => d | _ => 0 end) <$> t).

Lemma requests_cons e t :
  requests (e :: t) = ((match e with Requested _ _ _ => 1 | _ => 0 end) + requests t)%nat.
Proof. by destruct e. Qed.
Lemma waits_cons e t : waits (e :: t) = (match e with Waited d => d | _ => 0 end) + waits t.
Proof. done. Qed.

(** Requests and waiting time that are still possible. *)
Definition request_bound (raceAttempt : nat) (allow : bool) : nat :=
  (4 - raceAttempt + if allow then 4 else 0)%nat.
Definition wait_bound (raceAttempt : nat) (allow : bool) : Z :=
  Zsum (drop raceAttempt refreshRaceDelays) + if allow then 780 else 0.

Lemma verdict_race i allow r d : verdict rt i allow r = RetryRace d → refreshRaceDelays !! i = Some d.
Proof. unfold verdict. intros Hv. repeat case_match; simplify_eq; done. Qed.
Lemma verdict_mismatch i allow r c : verdict rt i allow r = RetryMismatch c → allow = true.
Proof. unfold verdict. intros Hv. repeat case_match; simplify_eq; done. Qed.

Lemma race_attempt_bound i d allow : refreshRaceDelays !! i = Some d →
  (i < 3)%nat ∧ wait_bound i allow = d + wait_bound (Datatypes.S i) allow ∧ 0 <= d.
Proof. unfold wait_bound. intros Hd. destruct i as [|[|[|i]]], allow; simplify_eq/=; lia. Qed.

Lemma run_total fuel i allow s :
  (i <= 3)%nat → (request_bound i allow <= fuel)%nat →
  ∃ o s' t, run rt fuel i allow s = Some (o, s', t) ∧
    (requests t <= request_bound i allow)%nat ∧ 0 <= waits t <= wait_bound i allow.
Proof.
  assert (∀ j b, 0 <= wait_bound j b) as Hpos.
  { intros j b. unfold wait_bound. destruct j as [|[|[|j]]], b; simpl; try rewrite drop_nil; simpl; lia. }
  revert i allow s. induction fuel as [|fuel IH]; intros i allow s Hi Hf.
  { unfold request_bound in Hf. lia. }
  specialize (Hpos i allow) as Hp. simpl. destruct (negb (isCurrent rt s)).
  { eexists _, _, _. split; [done|]. unfold requests, waits. simpl. lia. }
  destruct (rt_request rt _ s) as [resp s1]. destruct (negb (isCurrent rt s1)).
  { eexists _, _, _. split; [done|]. unfold requests, waits, request_bound. simpl. lia. }
  destruct (verdict rt i allow resp) as [c o|d|c] eqn:Ev.
  - eexists _, _, _. split; [done|]. unfold requests, waits, request_bound. simpl. lia.
  - apply verdict_race in Ev. pose proof (race_attempt_bound _ _ allow Ev) as (Hlt & Hw & Hd).
    destruct (IH (Datatypes.S i) allow (wait rt d s1)) as (o & s2 & t & -> & Hr & Ht).
    { lia. } { unfold request_bound in *. lia. }
    eexists _, _, _. split; [done|].
    rewrite Hw. cbn [app]. rewrite !requests_cons, !waits_cons. unfold request_bound in *. lia.
  - apply verdict_mismatch in Ev as ->.
    destruct (IH 0%nat false (c s1)) as (o & s2 & t & -> & Hr & Ht).
    { lia. } { unfold request_bound in *. lia. }
    eexists _, _, _. split; [done|]. change (wait_bound 0 false) with 780 in Ht.
    assert (780 <= wait_bound i true).
    { specialize (Hpos i false). unfold wait_bound in *. lia. }
    cbn [app]. rewrite !requests_cons, !waits_cons. unfold request_bound in *. lia.
Qed.

(** C38: a refresh ends: whatever the server answers and whatever else happens in the
    tab meanwhile, the runner returns an outcome after at most eight requests and
    at most 1560 ms of waiting. *)
Theorem refresh_terminates s :
  ∃ o s' t, createRefreshRunner rt s = Some (o, s', t) ∧
    (requests t <= 8)%nat ∧ 0 <= waits t <= 1560.
Proof. apply run_total; unfold request_bound; lia. Qed.
End runner_facts.

Section runner_spec.
Context {S : Type} (rt : AuthRefreshRuntime S).

(** The store is changed, and the server asked, only in states the run is current in. *)
Definition guarded (e : RunEvent S) : Prop :=
  match e with Changed s | Requested _ s _ => isCurrent rt s = true | Waited _ => True end.

(** A request names the session of the store it was made in, and its answer is the
    server's. *)
Definition asked (e : RunEvent S) : Prop :=
  match e with
  | Requested expected s0 response => expected = getExpectedSID rt s0 ∧ (rt_request rt expected s0).1 = response
  | _ => True
  end.

Definition answers (t : list (RunEvent S)) : list AuthRefreshHTTPResponse :=
  omap (λ e, match e with Requested _ _ response => Some response | _ => None end) t.

Definition goes_on (response : AuthRefreshHTTPResponse) : Prop :=
  ∃ i allow, match verdict rt i allow response with Finish _ _ => False | _ => True end.

(** The last answer decided the outcome, in a state the run was current in. *)
Definition decided (o : RefreshOutcome) (s' : S) (t : list (RunEvent S)) : Prop :=
  ∃ i allow resp s1 change,
    last (answers t) = Some resp ∧ last t = Some (Changed s1) ∧ isCurrent rt s1 = true ∧
    verdict rt i allow resp = Finish change o ∧ s' = change s1.

Lemma decided_cons o s' e t : decided o s' t → decided o s' (e :: t).
Proof.
  intros (i & allow & resp & s1 & c & Ha & Hl & Hd). exists i, allow, resp, s1, c. split; [|split; [|exact Hd]].
  - destruct e as [x s0 r| |]; [|done|done].
    change (answers (Requested x s0 r :: t)) with (r :: answers t). rewrite last_cons. by rewrite Ha.
  - rewrite last_cons. by rewrite Hl.
Qed.

(** Every answer but the last makes the runner go on. *)
Definition retries (t : list (RunEvent S)) : Prop :=
  ∀ l r, answers t = l ++ [r] → Forall goes_on l.

Lemma retries_cons x s0 r e t : (∀ y s1 q, e ≠ Requested y s1 q) → goes_on r →
  retries t → retries (Requested x s0 r :: e :: t).
Proof.
  intros He Hr Ht l q. assert (answers (Requested x s0 r :: e :: t) = r :: answers t) as ->.
  { destruct e; [by destruct (He expected before response)|done|done]. }
  destruct l as [|r' l]; [constructor|]. intros [= <- E]. constructor; [done|by eapply Ht].
Qed.

Lemma retries_short x s0 r t : answers t = [] → retries (Requested x s0 r :: t).
Proof.
  intros Ht l q. change (answers (Requested x s0 r :: t)) with (r :: answers t). rewrite Ht.
  destruct l as [|? [|]]; [constructor|done|done].
Qed.

Lemma run_spec fuel i allow s o s' t :
  run rt fuel i allow s = Some (o, s', t) →
  Forall guarded t ∧ Forall asked t ∧ retries t ∧
  ((o = Superseded ∧ isCurrent rt s' = false) ∨ decided o s' t).
Proof.
  revert i allow s t. induction fuel as [|fuel IH]; intros i allow s t; [done|]. simpl.
  destruct (negb (isCurrent rt s)) eqn:E0; [apply negb_true_iff in E0|apply negb_false_iff in E0].
  { intros [= <- <- <-]. split_and!; [constructor|constructor| |by left]. by intros [|] ?. }
  destruct (rt_request rt _ s) as [resp s1] eqn:Er.
  assert (∀ b, asked (Requested (getExpectedSID rt s) s resp) ∧ (goes_on resp ∨ ∃ c o, verdict rt i b resp = Finish c o))
    as Hask.
  { intros b. cbn [asked]. rewrite Er. split; [done|]. unfold goes_on.
    destruct (verdict rt i b resp) eqn:Ev; [by eauto|left; exists i, b; by rewrite Ev..]. }
  specialize (Hask allow) as [Hask Hgo].
  destruct (negb (isCurrent rt s1)) eqn:E1; [apply negb_true_iff in E1|apply negb_false_iff in E1].
  { intros [= <- <- <-]. split_and!; [by rewrite !Forall_cons|by rewrite !Forall_cons|by apply retries_short|by left]. }
  destruct (verdict rt i allow resp) as [c o1|d|c] eqn:Ev.
  - intros [= <- <- <-]. split_and!; [by rewrite !Forall_cons|by rewrite !Forall_cons|by apply retries_short|].
    right. exists i, allow, resp, s1, c. done.
  - destruct Hgo as [Hgo|(? & ? & ?)]; [|done].
    destruct (run rt fuel _ _ _) as [[[o2 s2] t2]|] eqn:E2; [|done]. intros [= <- <- <-].
    apply IH in E2 as (Hg & Ha & Hr & Ho).
    split_and!; [by rewrite !Forall_cons|by rewrite !Forall_cons|by apply retries_cons|].
    destruct Ho; [by left|right]. by do 2 apply decided_cons.
  - destruct Hgo as [Hgo|(? & ? & ?)]; [|done].
    destruct (run rt fuel _ _ _) as [[[o2 s2] t2]|] eqn:E2; [|done]. intros [= <- <- <-].
    apply IH in E2 as (Hg & Ha & Hr & Ho).
    split_and!; [by rewrite !Forall_cons|by rewrite !Forall_cons|by apply retries_cons|].
    destruct Ho; [by left|right]. by do 2 apply decided_cons.
Qed.
End runner_spec.

(** What the guards of a reader tested. *)
Ltac truth := repeat match goal with
  | Hn : Is_true (negb (bool_decide _)) |- _ =>
      apply Is_true_true_1, negb_true_iff, bool_decide_eq_false in Hn
  end.

(** The store of a tab that just opened. *)
Definition sample_web : Web := mkWeb initialAuth 0 0 [].

Section session_facts.
Context `{AuthHost}.

Definition signed_out_auth (b : AuthBootstrapState) : AuthState := mkAuth None None None None None b.

(** The bundle an answer carries, and the code of an answer. *)
Definition bundle_of (resp : AuthRefreshHTTPResponse) : option AuthBundle :=
  match prop "success" (response_record resp) with
  | JBool true => isAuthBundle (prop "data" (response_record resp))
  | _ => None
  end.
Definition code_of (resp : AuthRefreshHTTPResponse) : option jsstring :=
  as_string (prop "code" (response_record resp)).

(** An answer that lost a race, or that is about another session. *)
Definition lost_race (resp : AuthRefreshHTTPResponse) : bool :=
  (status resp =? 409) && bool_decide (code_of resp = Some (js "AUTH_REFRESH_RACE")).
Definition mismatched (resp : AuthRefreshHTTPResponse) : bool :=
  (status resp =? 409) && bool_decide (code_of resp = Some (js "AUTH_SESSION_MISMATCH")).

(** No answer, or one of an overloaded or failing server. *)
Definition unavailable (resp : AuthRefreshHTTPResponse) : bool :=
  (status resp =? 0) || (500 <=? status resp) || (status resp =? 429).

Definition signed_in_auth (b : AuthBundle) : AuthState :=
  mkAuth (Some (user b)) (Some (access_token b)) (Some (access_expires_at b)) (Some (session b)) None complete.

(** What an answer that ends the run makes of it: its outcome, and the store it leaves
    from the store [w1] it arrived in. *)
Definition outcome_ok (resp : AuthRefreshHTTPResponse) (w1 : Web) (o : RefreshOutcome) (w' : Web) : Prop :=
  match bundle_of resp with
  | Some b => o = Authenticated b ∧ auth w' = signed_in_auth b
  | None =>
      if status resp =? 401 then o = Anonymous ∧ auth w' = signed_out_auth complete
      else if unavailable resp then
        o = TransientError (match error resp with JUndef | JNull => data resp | e => e end) ∧
        w' = with_auth (setBootstrapState idle) w1
      else o = OutOfSync (Some (default (js "AUTH_INVALID_REFRESH_RESPONSE") (code_of resp))) ∧
           auth w' = signed_out_auth complete
  end.

Lemma auth_publish k x w : auth (publish k x w) = auth w.
Proof. by destruct x. Qed.
Lemma auth_clearAuthentication sync b w : auth (clearAuthentication sync b w) = signed_out_auth b.
Proof.
  unfold clearAuthentication. destruct (current_sid w); [destruct sync|]; rewrite ?auth_publish; done.
Qed.
Lemma auth_applyAuthBundle b sync w : auth (applyAuthBundle b sync w) = setBundle b (auth w).
Proof. unfold applyAuthBundle. case_match; rewrite ?auth_publish; done. Qed.

Lemma conflict_code resp c : (status resp =? 409) && bool_decide (code_of resp = Some c) = true →
  code_of resp = Some c.
Proof. intros [_ Hc]%andb_true_iff. by apply bool_decide_eq_true in Hc. Qed.

Lemma out_of_sync_ok resp c w : (status resp =? 409) && bool_decide (code_of resp = Some c) = true →
  if status resp =? 401 then OutOfSync (code_of resp) = Anonymous ∧ auth (clearAuthentication false complete w) = signed_out_auth complete
  else if unavailable resp then
    OutOfSync (code_of resp) = TransientError (match error resp with JUndef | JNull => data resp | e => e end) ∧
    clearAuthentication false complete w = with_auth (setBootstrapState idle) w
  else OutOfSync (code_of resp) = OutOfSync (Some (default (js "AUTH_INVALID_REFRESH_RESPONSE") (code_of resp))) ∧
       auth (clearAuthentication false complete w) = signed_out_auth complete.
Proof.
  intros Hc. rewrite (conflict_code _ _ Hc). apply andb_true_iff in Hc as [Hs%Z.eqb_eq _].
  unfold unavailable. rewrite Hs, auth_clearAuthentication. done.
Qed.

Lemma verdict_ok epoch i allow resp w1 :
  match verdict (runtime_of epoch) i allow resp with
  | Finish change o => outcome_ok resp w1 o (change w1) ∧
      (bundle_of resp = None → (lost_race resp = true → refreshRaceDelays !! i = None) ∧
                               (mismatched resp = true → allow = false))
  | RetryRace d => bundle_of resp = None ∧ lost_race resp = true ∧ refreshRaceDelays !! i = Some d
  | RetryMismatch change => bundle_of resp = None ∧ mismatched resp = true ∧ allow = true ∧
      change w1 = with_auth (reset idle) w1
  end.
Proof.
  unfold verdict, outcome_ok. cbn [parseBundle acceptBundle clear markTransient runtime_of].
  fold (bundle_of resp) (code_of resp) (lost_race resp) (mismatched resp) (unavailable resp).
  destruct (bundle_of resp) as [b|]; [by rewrite auth_applyAuthBundle|].
  destruct (lost_race resp) eqn:E1; [|destruct (mismatched resp) eqn:E2].
  - assert (mismatched resp = false) as E2.
    { unfold mismatched. by rewrite (conflict_code _ _ E1), andb_false_r. }
    destruct (refreshRaceDelays !! i) eqn:Ed; [done|]. split; [by apply (out_of_sync_ok _ _ w1 E1)|by rewrite E2].
  - destruct allow; cbn [andb negb]; [by rewrite bool_decide_eq_true_2|].
    split; [by apply (out_of_sync_ok _ _ w1 E2)|done].
  - destruct (status resp =? 401); [|destruct (unavailable resp)]; cbn [andb negb];
      rewrite ?(bool_decide_eq_false_2 (complete = idle)), ?auth_clearAuthentication by done; (split; [by split|]; intros _; by split).
Qed.

(** What a run that was not superseded ends with. *)
Definition ends_with (epoch : nat) (t : list (RunEvent Web)) (o : RefreshOutcome) (w' : Web) : Prop :=
  ∃ resp w1, last (answers t) = Some resp ∧ last t = Some (Changed w1) ∧ authEpoch w1 = epoch ∧
    outcome_ok resp w1 o w'.

Lemma decided_ok epoch o w' t : decided (runtime_of epoch) o w' t → ends_with epoch t o w'.
Proof.
  intros (i & allow & resp & w1 & change & Ha & Hl & Hc & Hv & ->). exists resp, w1.
  pose proof (verdict_ok epoch i allow resp w1) as Hok. rewrite Hv in Hok.
  split_and!; [done|done|by apply Nat.eqb_eq|apply Hok].
Qed.

Lemma goes_on_ok epoch resp : goes_on (runtime_of epoch) resp →
  bundle_of resp = None ∧ lost_race resp || mismatched resp = true.
Proof.
  intros (i & allow & Hv). pose proof (verdict_ok epoch i allow resp sample_web) as Hok.
  destruct (verdict _ _ _ _); [done| |]; destruct Hok as (-> & -> & _); by rewrite ?orb_true_r.
Qed.

(** C26: what a refresh leaves is decided by the last answer the server gave to the
    requests of this very run: signed in with exactly its bundle
    when it is a success with a valid one; otherwise signed out after a 401, only the
    bootstrap state reset when the server did not answer, was overloaded (429) or failed
    (500 and more), and signed out as out of sync after anything else.  Every earlier
    answer is a 409 about a lost race or another session.  Each request names the session the store held when it
    was made.  A refresh that was superseded (a sign-in, sign-out or other refresh changed
    the epoch) changes nothing and asks nothing from then on. *)
Theorem refresh_outcome epoch w o w' t (Hrun : runRefresh epoch w = Some (o, w', t)) :
  Forall (guarded (runtime_of epoch)) t ∧
  Forall (λ e, match e with
               | Requested expected w0 resp => expected = current_sid w0 ∧ (post_refresh expected w0).1 = resp
               | _ => True
               end) t ∧
  (∀ earlier resp, answers t = earlier ++ [resp] →
     Forall (λ r, bundle_of r = None ∧ lost_race r || mismatched r = true) earlier) ∧
  ((o = Superseded ∧ authEpoch w' ≠ epoch) ∨ ends_with epoch t o w').
Proof.
  apply run_spec in Hrun as (Hg & Ha & Hr & Ho). split_and!; [done|done| |].
  - intros l r Hl. eapply Forall_impl; [by eapply Hr|]. intros q. apply goes_on_ok.
  - destruct Ho as [[-> Hc]|Hd]; [left; split; [done|by apply Nat.eqb_neq]|right; by apply decided_ok].
Qed.

Lemma validTokenFields_ok v t ty x : validTokenFields v = Some (t, ty, x) → t ≠ [].
Proof.
  unfold validTokenFields. intros Hv. simplify_option_eq.
  by truth.
Qed.

Lemma isAuthBundle_token v b : isAuthBundle v = Some b → access_token b ≠ [].
Proof.
  unfold isAuthBundle. intros Hb. destruct (validTokenFields v) as [[[t ty] x]|] eqn:E; simplify_option_eq.
  by eapply validTokenFields_ok.
Qed.

Lemma bundle_of_token resp b : bundle_of resp = Some b → access_token b ≠ [].
Proof. unfold bundle_of. intros Hb. repeat case_match; try done. by eapply isAuthBundle_token. Qed.

Lemma authenticated_ok resp w1 b w' : outcome_ok resp w1 (Authenticated b) w' →
  bundle_of resp = Some b ∧ auth w' = signed_in_auth b.
Proof.
  unfold outcome_ok. destruct (bundle_of resp); [by intros [[= <-] ?]|].
  destruct (_ =? _); [by intros [? _]|]. destruct (unavailable resp); by intros [? _].
Qed.

Lemma isAuthTokenRotation_ok v r : isAuthTokenRotation v = Some r →
  rot_token r ≠ [] ∧ rot_type r = js "Bearer" ∧ current (rot_session r) = true.
Proof.
  unfold isAuthTokenRotation. intros Hr. destruct (validTokenFields v) as [[[t ty] x]|] eqn:E;
    [|by simplify_option_eq]. apply validTokenFields_ok in E. simplify_option_eq.
  split_and!; try done. by apply Is_true_true_1.
Qed.

(** A token rotation is all or nothing: an invalid rotation, one without an
    active session or one of another session is refused and leaves the state as
    it was; an accepted one keeps the user and the session id, replaces the
    token and its expiry with those of the response, and tells no other tab. *)
Theorem rotation_safe v w :
  match applyAuthRotation v w with
  | Throw e => (e = InvalidRotation ↔ isAuthTokenRotation v = None) ∧
      (e = SessionMismatch → ∃ r s, isAuthTokenRotation v = Some r ∧
         auth_session (auth w) = Some s ∧ sid (rot_session r) ≠ sid s)
  | Ok w' => ∃ r s, isAuthTokenRotation v = Some r ∧ auth_session (auth w) = Some s ∧
      rot_token r ≠ [] ∧ rot_type r = js "Bearer" ∧ current (rot_session r) = true ∧
      auth_user (auth w') = auth_user (auth w) ∧ current_sid w' = Some (sid s) ∧
      accessToken (auth w') = Some (rot_token r) ∧ accessExpiresAt (auth w') = Some (rot_expires r) ∧
      published w' = published w ∧ authEpoch w' = S (authEpoch w)
  end.
Proof.
  unfold applyAuthRotation. destruct (isAuthTokenRotation v) as [r|] eqn:Er; [|by split].
  destruct (auth_user (auth w)) as [u|] eqn:Eu; [|by split].
  destruct (auth_session (auth w)) as [s|] eqn:Es; [|by split].
  case_bool_decide as Hsid; cbn [negb]; [|split; [done|]; intros _; eauto].
  apply isAuthTokenRotation_ok in Er as Hr. exists r, s. split_and!; try done; try apply Hr.
  unfold current_sid. simpl. by rewrite Hsid.
Qed.
End session_facts.

(** *** Headers and other tabs *)
Section headers.
Context `{AuthHost}.

(** Headers that are handed out carry a bearer token that is in the store, and
    that token had more than a minute to live when it was read without a refresh,
    or was just received by a successful refresh, or had not expired when the
    refresh failed; otherwise an error is thrown, and one is always produced. *)
Theorem fresh_headers w :
  ∃ r w', getFreshAuthHeaders w = Some (r, w') ∧
    (∀ h, r = Ok h →
      (token_until (now_seconds w + 60) w = true ∧ w' = w ∧ h = getCommonHeaders w) ∨
      (∃ b, accessToken (auth w') = Some (access_token b) ∧ access_token b ≠ [] ∧
         h = [(js "Content-Type", js "application/json");
              (js "Authorization", js "Bearer " ++ access_token b)]) ∨
      (token_until (now_seconds w') w' = true ∧ h = getCommonHeaders w')).
Proof.
  unfold getFreshAuthHeaders. destruct (token_until _ w) eqn:E.
  { eexists _, _. split; [done|]. intros h [= <-]. by left. }
  unfold refreshAuthentication, runRefresh.
  destruct (run_total (runtime_of (authEpoch w)) 8 0 true (lock_acquired w)) as (o & w1 & t & Hrun & _);
    [lia|unfold request_bound; lia|].
  unfold createRefreshRunner. rewrite Hrun. eexists _, _. split; [done|]. intros h Hh.
  destruct o; simpl in Hh; try (destruct (token_until (now_seconds w1) w1) eqn:Ew; simplify_eq; by auto).
  right. left. injection Hh as <-.
  apply run_spec in Hrun as (_ & _ & _ & [[? _]|Hd]); [done|].
  apply decided_ok in Hd as (resp & w2 & _ & _ & _ & [Hb Ha]%authenticated_ok).
  apply bundle_of_token in Hb as Hne.
  exists bundle. rewrite Ha. split_and!; try done. unfold getCommonHeaders, token. rewrite Ha. simpl.
  by destruct (access_token bundle).
Qed.
End headers.

(** An event as it arrives in another tab. *)
Lemma asEvent_json e : asAuthSessionSyncEvent (event_json e) = if bool_decide (ev_sid e = []) then None else Some e.
Proof.
  destruct e as [k i so n ts]. unfold asAuthSessionSyncEvent, event_json. simpl.
  unfold readSyncKind. destruct k; simpl; case_bool_decide; by subst.
Qed.

(** A sign-in or sign-out published by one tab is delivered, unchanged, to every
    tab with another identifier whose clock is within a minute, and never to the
    tab itself; nothing else that arrives on the channel is delivered unless it
    is a complete event from another tab within a minute. *)
Theorem sync_delivery own now v e :
  (∀ me fresh t k i, publishAuthSessionEvent me fresh t k i = Some e →
     deliver own now (event_json e) =
     if negb (bool_decide (me = own))
        && num_ltb (num_abs (num_sub (num_of_Z now) (num_of_Z t))) (num_of_Z 60000)
     then Some e else None) ∧
  (deliver own now v = Some e →
     ev_sid e ≠ [] ∧ source e ≠ own ∧
     num_ltb (num_abs (num_sub (num_of_Z now) (timestamp e))) (num_of_Z 60000) = true).
Proof.
  split.
  - intros me fresh t k i He. unfold publishAuthSessionEvent in He. destruct i as [|c i]; [done|].
    injection He as <-. unfold deliver. by rewrite asEvent_json.
  - unfold deliver. destruct (asAuthSessionSyncEvent v) as [e'|] eqn:E; [|done]. simpl.
    destruct (_ && _) eqn:Ec; [|done]. intros [= <-]. boolify.
    split_and!; try done. unfold asAuthSessionSyncEvent in E. simplify_option_eq. by truth.
Qed.

(** ** A concrete browser, for the witness *)
Definition refusing_host : AuthHost := {|
  post_refresh _ w := (mkResponse 401 JUndef JUndef, w);
  timeout _ w := w;
  lock_acquired w := w |}.

Definition refused : AuthRefreshHTTPResponse := mkResponse 401 JUndef JUndef.

Lemma refresh_outcome_witness :
  ∃ w', runRefresh (H := refusing_host) 0 sample_web =
      Some (Anonymous, w', [Requested None sample_web refused; Changed sample_web]) ∧
    Forall (guarded (runtime_of (H := refusing_host) 0)) [Requested None sample_web refused; Changed sample_web].
Proof.
  eexists. split; [reflexivity|].
  exact (proj1 (refresh_outcome (H := refusing_host) 0 sample_web Anonymous _ _ eq_refl)).
Defined.
