(* ===== verification/Flow.v ===== *)
(** The dashboard's flow graph (web/src/features/dashboard/lib/flow.ts, with the
    types of dashboard/types.ts and getDashboardChartColors of lib/charts.ts).

    Usage rows are turned into paths through the visible stages (user, node,
    token, group, model, channel), limited to the top nodes of each stage, and
    summed into the nodes and links of a Sankey diagram, which is then masked,
    highlighted, sorted and coloured.

    Row numbers are the integers the server sends, absent ones are [None]; sums
    are exact, as they are in the language while they stay below 2^53.  A link's
    share and its opacity are the binary64 numbers the code computes.
    Parameters: [localeCompare] and [Intl.NumberFormat] of the host, and the
    colour schemes of the chart library. *)
From S2P Require Import Prelude JsString JsValue Json.
Open Scope Z_scope.

(** ** Types *)
Inductive FlowNodeKind := KUser | KNode | KToken | KGroup | KModel | KChannel.
#[export] Instance FlowNodeKind_eq_dec : EqDecision FlowNodeKind.
Proof. solve_decision. Defined.

Inductive FlowMetric := quota | tokens | requests.
Inductive FlowOverflowMode := aggregate | hide_overflow.
Inductive FlowRole := role_user | role_admin | role_root.

Record FlowQuotaDataItem := mkRow {
  user_id : option Z; username : option jsstring; node_name : option jsstring;
  use_group : option jsstring; token_id : option Z; token_name : option jsstring;
  channel_id : option Z; channel_name : option jsstring; model_name : option jsstring;
  token_used : option Z; count : option Z; row_quota : option Z }.

Record FlowMetrics := mkMetrics { m_quota : Z; m_tokens : Z; m_requests : Z }.

Record FlowPathNode := mkPathNode { id : jsstring; label : jsstring; kind : FlowNodeKind }.

Record FlowNodeFilter := mkFilter { f_kind : FlowNodeKind; f_id : jsstring }.
Record FlowLinkSelection := mkLinkSel { sel_source : jsstring; sel_target : jsstring }.

Record DashboardFlowNode := mkNode {
  n_id : jsstring; n_label : jsstring; n_kind : FlowNodeKind; n_value : Z; n_requests : Z;
  n_quota : Z; n_tokens : Z; n_color : jsstring; n_colorKey : jsstring;
  n_highlighted : option bool; n_dimmed : option bool }.

Record DashboardFlowLink := mkLink {
  l_source : jsstring; l_target : jsstring; l_value : Z; l_requests : Z; l_quota : Z; l_tokens : Z;
  sourceLabel : jsstring; targetLabel : jsstring; l_color : jsstring; linkColor : jsstring;
  linkAlpha : jsnum; hoverColor : jsstring; l_colorKey : jsstring; share : jsnum;
  l_highlighted : option bool; l_dimmed : option bool }.

Record DashboardFlowGraph := mkGraph {
  nodes : list DashboardFlowNode; links : list DashboardFlowLink }.

Record FlowSummary := mkSummary { s_quota : Z; s_tokens : Z; s_requests : Z }.

Record PreparedFlowPath := mkPrepared { path : list FlowPathNode; metrics : FlowMetrics }.

(** ** What the host gives *)

(** An item of the chart library's colour schemes: the number of values it is for,
    and its colours ([None] for an entry that is no string). *)
Class FlowHost := {
  localeCompare : jsstring → jsstring → Z;
  formatNumber : Z → jsstring;
  vchartDefaultDataScheme : list (option Z * list (option jsstring));
}.

(** Documented of [localeCompare]: it is a consistent comparison, negative one way
    round exactly when positive the other way round, and transitive. *)
Class LocaleLaws `{FlowHost} : Prop := {
  locale_sign x y : localeCompare x y < 0 ↔ 0 < localeCompare y x;
  locale_trans x y z : localeCompare x y <= 0 → localeCompare y z <= 0 → localeCompare x z <= 0;
}.

Section flow.
Context `{FlowHost}.

(** The library's list of schemes is not empty; of an empty one the code would read a
    property of undefined. *)
Definition getDashboardChartColors (domainLength : Z) : list jsstring :=
  let fits '(maxDomainLength, _) :=
    match maxDomainLength with None => true | Some m => (m =? 0) || (domainLength <=? m) end in
  let scheme :=
    match find fits vchartDefaultDataScheme with
    | Some x => Some x
    | None => last vchartDefaultDataScheme
    end in
  match scheme with Some (_, colors) => omap (λ c, c) colors | None => [] end.

(** ** Constants *)
Definition FLOW_NODE_KINDS : list FlowNodeKind := [KUser; KNode; KToken; KGroup; KModel; KChannel].

Definition kind_text (k : FlowNodeKind) : jsstring :=
  match k with
  | KUser => js "user" | KNode => js "node" | KToken => js "token"
  | KGroup => js "group" | KModel => js "model" | KChannel => js "channel"
  end.

Definition OTHER_FLOW_NODE_IDS (k : FlowNodeKind) : jsstring := kind_text k ++ js ":__other__".

Definition DEFAULT_OTHER_FLOW_NODE_LABELS (k : FlowNodeKind) : jsstring :=
  match k with
  | KUser => js "Other users" | KNode => js "Other nodes" | KToken => js "Other tokens"
  | KGroup => js "Other groups" | KModel => js "Other models" | KChannel => js "Other channels"
  end.

Definition SENSITIVE_FLOW_KINDS : list FlowNodeKind := [KUser; KNode; KToken; KGroup; KChannel].
Definition OTHER_FLOW_NODE_ID_SET : list jsstring := OTHER_FLOW_NODE_IDS <$> FLOW_NODE_KINDS.
Definition DEFAULT_FLOW_CHART_COLOR : jsstring := js "#1664FF".

(** ** Rows and paths *)
Definition numberValue (v : option Z) : Z := default 0 v.

(** [s || d] on an optional string. *)
Definition or_text (s : option jsstring) (d : jsstring) : jsstring :=
  match s with None | Some [] => d | Some t => t end.

Definition rowMetrics (row : FlowQuotaDataItem) : FlowMetrics :=
  mkMetrics (numberValue (row_quota row)) (numberValue (token_used row)) (numberValue (count row)).

Definition metricValue (m : FlowMetrics) (metric : FlowMetric) : Z :=
  match metric with requests => m_requests m | tokens => m_tokens m | quota => m_quota m end.

Definition userNode (row : FlowQuotaDataItem) : FlowPathNode :=
  let userID := numberValue (user_id row) in
  {| id := js "user:" ++ (if 0 <? userID then show_Z userID else or_text (username row) (js "unknown"));
     label := or_text (username row)
                (if 0 <? userID then js "user-" ++ show_Z userID else js "Unknown User");
     kind := KUser |}.

Definition nodeNameNode (row : FlowQuotaDataItem) : FlowPathNode :=
  let nodeName := or_text (node_name row) (js "default-node") in
  {| id := js "node:" ++ nodeName; label := nodeName; kind := KNode |}.

(** The label of a deleted token, where the caller gives one. *)
Definition FlowPathContext : Type := option (Z → option jsstring).

Definition deletedTokenLabel (tokenID : Z) (ctx : FlowPathContext) : jsstring :=
  if tokenID <=? 0 then js "Unknown Token"
  else default (js "token-" ++ show_Z tokenID) (f ← ctx; f tokenID).

Definition tokenNode (row : FlowQuotaDataItem) (ctx : FlowPathContext) : FlowPathNode :=
  let tokenID := numberValue (token_id row) in
  {| id := js "token:" ++ (if 0 <? tokenID then show_Z tokenID else or_text (token_name row) (js "unknown"));
     label := or_text (token_name row) (deletedTokenLabel tokenID ctx);
     kind := KToken |}.

Definition groupNode (row : FlowQuotaDataItem) : FlowPathNode :=
  let useGroup := or_text (use_group row) (js "unknown") in
  {| id := js "group:" ++ useGroup; label := useGroup; kind := KGroup |}.

Definition modelNode (row : FlowQuotaDataItem) : FlowPathNode :=
  {| id := js "model:" ++ or_text (model_name row) (js "unknown");
     label := or_text (model_name row) (js "Unknown Model"); kind := KModel |}.

Definition channelNode (row : FlowQuotaDataItem) : FlowPathNode :=
  let channelID := numberValue (channel_id row) in
  {| id := js "channel:" ++ (if 0 <? channelID then show_Z channelID
                             else or_text (channel_name row) (js "unknown"));
     label := or_text (channel_name row)
                (if 0 <? channelID then js "channel-" ++ show_Z channelID else js "Unknown");
     kind := KChannel |}.

Definition NODE_BUILDERS (k : FlowNodeKind) (row : FlowQuotaDataItem) (ctx : FlowPathContext) :
    FlowPathNode :=
  match k with
  | KUser => userNode row
  | KNode => nodeNameNode row
  | KToken => tokenNode row ctx
  | KGroup => groupNode row
  | KModel => modelNode row
  | KChannel => channelNode row
  end.

Definition getFlowStages (role : FlowRole) : list FlowNodeKind :=
  match role with
  | role_root => [KUser; KNode; KToken; KGroup; KModel; KChannel]
  | role_admin => [KUser; KGroup; KModel; KChannel]
  | role_user => [KToken; KGroup; KModel]
  end.

Definition MIN_FLOW_STAGES : nat := 2.

Definition resolveVisibleStages (role : FlowRole) (visibleStages : option (list FlowNodeKind)) :
    list FlowNodeKind :=
  let stages := getFlowStages role in
  match visibleStages with
  | None => stages
  | Some vs =>
      let filtered := filter (λ k, k ∈ vs) stages in
      if (MIN_FLOW_STAGES <=? length filtered)%nat then filtered else stages
  end.

Definition flowPathForStages (row : FlowQuotaDataItem) (stages : list FlowNodeKind)
    (ctx : FlowPathContext) : list FlowPathNode :=
  (λ k, NODE_BUILDERS k row ctx) <$> stages.

(** ** Colours *)

(** The palette given, when it is given and not empty. *)
Definition usable (palette : option (list jsstring)) : option (list jsstring) :=
  match palette with Some (c :: cs) => Some (c :: cs) | _ => None end.

Definition colorAt (index : nat) (palette : option (list jsstring)) : jsstring :=
  let colors := match usable palette with
                | Some cs => cs
                | None => getDashboardChartColors (Z.of_nat index + 1)
                end in
  match colors with
  | [] => DEFAULT_FLOW_CHART_COLOR
  | _ => default DEFAULT_FLOW_CHART_COLOR (colors !! (index mod length colors)%nat)
  end.

Definition colorPalette (colorCount : nat) (palette : option (list jsstring)) : list jsstring :=
  match usable palette with
  | Some cs => cs
  | None =>
      match getDashboardChartColors (Z.of_nat colorCount) with
      | [] => [DEFAULT_FLOW_CHART_COLOR]
      | cs => cs
      end
  end.

Definition stableColorMap (keys : list jsstring) (palette : option (list jsstring)) :
    list (jsstring * jsstring) :=
  let uniqueKeys := set_of keys in
  let colors := colorPalette (length uniqueKeys) palette in
  foldl (λ m '(index, key), jset key (colorAt index (Some colors)) m) [] (imap pair uniqueKeys).

(** [x.toFixed(2)] of a number between 0 and 1: the nearest hundredth, the larger of
    two equally near. *)
Definition hundredths (x : jsnum) : Z :=
  match x with
  | S754_finite false m e =>
      if 0 <=? e then 100 * Z.pos m * 2 ^ e
      else (200 * Z.pos m + 2 ^ (- e)) / (2 * 2 ^ (- e))
  | _ => 0
  end.
Definition toFixed2 (x : jsnum) : jsstring :=
  let n := hundredths x in
  show_Z (n / 100) ++ js "." ++ show_Z (n mod 100 / 10) ++ show_Z (n mod 10).

Definition is_hex_digit (c : N) : bool := is_digit c || in_range 65 c 70 || in_range 97 c 102.
Definition hex_value (c : N) : Z :=
  Z.of_N (if is_digit c then c - 48 else if in_range 97 c 102 then c - 87 else c - 55)%N.

Definition alphaColor (color : jsstring) (alpha : jsnum) : jsstring * jsnum :=
  let normalized := trim color in
  let hex := if starts_with (js "#") normalized then drop 1 normalized else normalized in
  if negb ((length hex =? 6)%nat && forallb is_hex_digit hex) then (normalized, alpha)
  else
    let value := foldl (λ acc c, acc * 16 + hex_value c) 0 hex in
    let red := Z.land (Z.shiftr value 16) 255 in
    let green := Z.land (Z.shiftr value 8) 255 in
    let blue := Z.land value 255 in
    (js "rgba(" ++ show_Z red ++ js ", " ++ show_Z green ++ js ", " ++ show_Z blue ++ js ", "
     ++ toFixed2 alpha ++ js ")", num_of_Z 1).

(** ** Filters *)
Definition filterRows (rows : list FlowQuotaDataItem) (selectedUsers : list jsstring) :
    list FlowQuotaDataItem :=
  match selectedUsers with
  | [] => rows
  | _ => filter (λ row, id (userNode row) ∈ selectedUsers) rows
  end.

Definition normalizeSelectedNodeFilters (selectedNodes : list FlowNodeFilter)
    (stages : list FlowNodeKind) : list (FlowNodeKind * list jsstring) :=
  foldl (λ filters f,
    if bool_decide (f_kind f ∈ stages) then
      jset (f_kind f) (set_add (f_id f) (default [] (jget (f_kind f) filters))) filters
    else filters) [] selectedNodes.

Definition pathNodesByKind (p : list FlowPathNode) : list (FlowNodeKind * list jsstring) :=
  foldl (λ m n, jset (kind n) (set_add (id n) (default [] (jget (kind n) m))) m) [] p.

Definition pathMatchesNodeFilters (p : list FlowPathNode)
    (filters : list (FlowNodeKind * list jsstring)) : bool :=
  forallb (λ '(k, selectedIds),
    match jget k (pathNodesByKind p) with
    | None => false
    | Some pathIds => existsb (λ i, set_has i pathIds) selectedIds
    end) filters.

Definition filterRowsByNodes (rows : list FlowQuotaDataItem) (selectedNodes : list FlowNodeFilter)
    (stages : list FlowNodeKind) (ctx : FlowPathContext) : list FlowQuotaDataItem :=
  let filters := normalizeSelectedNodeFilters selectedNodes stages in
  match filters with
  | [] => rows
  | _ => filter (λ row, pathMatchesNodeFilters (flowPathForStages row stages ctx) filters = true) rows
  end.

Definition selectedNodeFiltersExceptKind (selectedNodes : list FlowNodeFilter) (k : FlowNodeKind) :
    list FlowNodeFilter :=
  filter (λ f, f_kind f ≠ k) selectedNodes.
End flow.

Section graph.
Context `{FlowHost}.

(** ** Nodes and links *)
Definition addNode (map : list (jsstring * DashboardFlowNode)) (pathNode : FlowPathNode)
    (m : FlowMetrics) (metric : FlowMetric) (color colorKey : jsstring) :
    list (jsstring * DashboardFlowNode) :=
  let previous := default (mkNode (id pathNode) (label pathNode) (kind pathNode) 0 0 0 0 color colorKey
                             None None) (jget (id pathNode) map) in
  jset (id pathNode)
    (mkNode (n_id previous) (n_label previous) (n_kind previous)
       (n_value previous + metricValue m metric) (n_requests previous + m_requests m)
       (n_quota previous + m_quota m) (n_tokens previous + m_tokens m) (n_color previous)
       (n_colorKey previous) (n_highlighted previous) (n_dimmed previous)) map.

(** Two ids and the separator between them. *)
Definition link_key (source target : jsstring) : jsstring := source ++ [0%N] ++ target.
Definition linkStableKey (link : DashboardFlowLink) : jsstring :=
  link_key (l_source link) (l_target link).
Definition pathLinkKey (source target : FlowPathNode) : jsstring := link_key (id source) (id target).

Definition addLink (map : list (jsstring * DashboardFlowLink)) (source target : FlowPathNode)
    (m : FlowMetrics) (metric : FlowMetric) (color colorKey : jsstring) :
    list (jsstring * DashboardFlowLink) :=
  let key := link_key (id source) (id target) in
  let previous := default (mkLink (id source) (id target) 0 0 0 0 (label source) (label target)
                             color color (num_of_Z 1) color colorKey num0 None None) (jget key map) in
  jset key
    (mkLink (l_source previous) (l_target previous) (l_value previous + metricValue m metric)
       (l_requests previous + m_requests m) (l_quota previous + m_quota m)
       (l_tokens previous + m_tokens m) (sourceLabel previous) (targetLabel previous)
       (l_color previous) (linkColor previous) (linkAlpha previous) (hoverColor previous)
       (l_colorKey previous) (share previous) (l_highlighted previous) (l_dimmed previous)) map.

(** The steps of a path. *)
Fixpoint steps (p : list FlowPathNode) : list (FlowPathNode * FlowPathNode) :=
  match p with
  | source :: ((target :: _) as rest) => (source, target) :: steps rest
  | _ => []
  end.

(** ** Top nodes *)
(** [Math.floor] of the limit, when it is positive. *)
Definition normalizeTopNodeLimit (limit : option Z) : option nat :=
  l ← limit; if 0 <? l then Some (Z.to_nat l) else None.

Definition otherFlowNode (k : FlowNodeKind) (labeler : option (FlowNodeKind → option jsstring)) :
    FlowPathNode :=
  mkPathNode (OTHER_FLOW_NODE_IDS k)
    (default (DEFAULT_OTHER_FLOW_NODE_LABELS k) (f ← labeler; f k)) k.

Record FlowNodeRank := mkRank { rank_node : FlowPathNode; rank_value : Z }.

Definition stage_totals : Type := list (FlowNodeKind * list (jsstring * FlowNodeRank)).

Definition addRank (value : Z) (totals : stage_totals) (node : FlowPathNode) : stage_totals :=
  match jget (kind node) totals with
  | None => totals
  | Some stageTotals =>
      let current := default (mkRank node 0) (jget (id node) stageTotals) in
      jset (kind node)
        (jset (id node) (mkRank (rank_node current) (rank_value current + value)) stageTotals) totals
  end.

Definition cmpRank (a b : FlowNodeRank) : Z :=
  cmp_or (rank_value b - rank_value a)
    (cmp_or (localeCompare (label (rank_node a)) (label (rank_node b)))
       (localeCompare (id (rank_node a)) (id (rank_node b)))).

Definition rankTotals (rows : list FlowQuotaDataItem) (metric : FlowMetric)
    (stages : list FlowNodeKind) (ctx : FlowPathContext) : stage_totals :=
  foldl (λ totals row,
    foldl (addRank (metricValue (rowMetrics row) metric)) totals (flowPathForStages row stages ctx))
    (foldl (λ m stage, jset stage [] m) [] stages) rows.

Definition buildTopNodeSets (rows : list FlowQuotaDataItem) (metric : FlowMetric)
    (stages : list FlowNodeKind) (limit : option nat) (ctx : FlowPathContext) :
    option (list (FlowNodeKind * list jsstring)) :=
  limit ← limit;
  Some (prod_map (λ k, k) (λ stageTotals,
    set_of ((λ rank, id (rank_node rank)) <$> take limit (js_sort cmpRank (jvalues stageTotals))))
    <$> rankTotals rows metric stages ctx).

Definition isTopFlowNode (node : FlowPathNode)
    (topNodeSets : option (list (FlowNodeKind * list jsstring))) : bool :=
  match (s ← topNodeSets; jget (kind node) s) with
  | None => true
  | Some topNodes => set_has (id node) topNodes
  end.

Definition applyTopNodeLimit (p : list FlowPathNode)
    (topNodeSets : option (list (FlowNodeKind * list jsstring))) (mode : FlowOverflowMode)
    (labeler : option (FlowNodeKind → option jsstring)) : option (list FlowPathNode) :=
  match topNodeSets with
  | None => Some p
  | Some _ =>
      if forallb (λ node, isTopFlowNode node topNodeSets) p then Some p
      else
        match mode with
        | hide_overflow => None
        | aggregate =>
            Some ((λ node, if isTopFlowNode node topNodeSets then node
                           else otherFlowNode (kind node) labeler) <$> p)
        end
  end.

(** ** Highlighting *)
Definition pathContainsFlowNode (p : list FlowPathNode) (f : FlowNodeFilter) : bool :=
  existsb (λ n, bool_decide (kind n = f_kind f) && bool_decide (id n = f_id f)) p.

Definition pathContainsFlowLink (p : list FlowPathNode) (l : FlowLinkSelection) : bool :=
  existsb (λ '(s, t), bool_decide (id s = sel_source l) && bool_decide (id t = sel_target l)) (steps p).

Definition matchesPath (activeNode : option FlowNodeFilter) (activeLink : option FlowLinkSelection)
    (p : list FlowPathNode) : bool :=
  match activeLink with
  | Some l => pathContainsFlowLink p l
  | None => match activeNode with Some f => pathContainsFlowNode p f | None => false end
  end.

(** The ids of the highlighted nodes and the keys of the highlighted links. *)
Definition buildFlowHighlightSets (preparedPaths : list PreparedFlowPath)
    (activeNode : option FlowNodeFilter) (activeLink : option FlowLinkSelection)
    (stages : list FlowNodeKind) : option (list jsstring * list jsstring) :=
  let nodeActive := match activeNode with Some f => bool_decide (f_kind f ∈ stages) | None => false end in
  if negb nodeActive && bool_decide (activeLink = None) then None
  else
    let matching := filter (λ p, matchesPath activeNode activeLink (path p) = true) preparedPaths in
    let ns := set_of (concat ((λ p, id <$> path p) <$> matching)) in
    let ls := set_of (concat ((λ p, (λ '(s, t), pathLinkKey s t) <$> steps (path p)) <$> matching)) in
    match ns with [] => None | _ => Some (ns, ls) end.

Definition highlightNode (hs : list jsstring * list jsstring) (n : DashboardFlowNode) :
    DashboardFlowNode :=
  let h := set_has (n_id n) hs.1 in
  mkNode (n_id n) (n_label n) (n_kind n) (n_value n) (n_requests n) (n_quota n) (n_tokens n)
    (n_color n) (n_colorKey n) (Some h) (Some (negb h)).
Definition highlightLink (hs : list jsstring * list jsstring) (l : DashboardFlowLink) :
    DashboardFlowLink :=
  let h := set_has (linkStableKey l) hs.2 in
  mkLink (l_source l) (l_target l) (l_value l) (l_requests l) (l_quota l) (l_tokens l)
    (sourceLabel l) (targetLabel l) (l_color l) (linkColor l) (linkAlpha l) (hoverColor l)
    (l_colorKey l) (share l) (Some h) (Some (negb h)).

Definition on_values {V} (f : V → V) (m : list (jsstring * V)) : list (jsstring * V) :=
  (λ '(k, v), (k, f v)) <$> m.

Definition applyFlowHighlights (ns : list (jsstring * DashboardFlowNode))
    (ls : list (jsstring * DashboardFlowLink)) (hs : option (list jsstring * list jsstring)) :
    list (jsstring * DashboardFlowNode) * list (jsstring * DashboardFlowLink) :=
  match hs with
  | None => (ns, ls)
  | Some hs => (on_values (highlightNode hs) ns, on_values (highlightLink hs) ls)
  end.

(** ** Masking *)
Definition FLOW_MASK_TEXT : jsstring := [8226; 8226; 8226; 8226]%N.
Definition maskFlowLabel (l : jsstring) : jsstring := match l with [] => l | _ => FLOW_MASK_TEXT end.

Definition is_masked (n : DashboardFlowNode) : bool :=
  bool_decide (n_kind n ∈ SENSITIVE_FLOW_KINDS) && negb (set_has (n_id n) OTHER_FLOW_NODE_ID_SET).

Definition maskNode (n : DashboardFlowNode) : DashboardFlowNode :=
  if is_masked n then
    mkNode (n_id n) (maskFlowLabel (n_label n)) (n_kind n) (n_value n) (n_requests n) (n_quota n)
      (n_tokens n) (n_color n) (n_colorKey n) (n_highlighted n) (n_dimmed n)
  else n.

Definition maskLink (maskedById : list (jsstring * jsstring)) (l : DashboardFlowLink) :
    DashboardFlowLink :=
  mkLink (l_source l) (l_target l) (l_value l) (l_requests l) (l_quota l) (l_tokens l)
    (default (sourceLabel l) (jget (l_source l) maskedById))
    (default (targetLabel l) (jget (l_target l) maskedById))
    (l_color l) (linkColor l) (linkAlpha l) (hoverColor l) (l_colorKey l) (share l)
    (l_highlighted l) (l_dimmed l).

Definition maskFlowGraphLabels (ns : list (jsstring * DashboardFlowNode))
    (ls : list (jsstring * DashboardFlowLink)) :
    list (jsstring * DashboardFlowNode) * list (jsstring * DashboardFlowLink) :=
  let maskedById := foldl (λ m n, if is_masked n then jset (n_id n) (maskFlowLabel (n_label n)) m else m)
                      [] (jvalues ns) in
  (on_values maskNode ns, on_values (maskLink maskedById) ls).

(** ** The display colours of the links *)
Definition num_add (x y : jsnum) : jsnum := SFadd 53 1024 x y.
Definition num_mul (x y : jsnum) : jsnum := SFmul 53 1024 x y.
Definition num_div (x y : jsnum) : jsnum := SFdiv 53 1024 x y.
(** The decimal literal m * 10^e. *)
Definition literal (m : N) (e : Z) : jsnum := dec_to_num false m e.

Definition linkOpacity (index count : nat) : jsnum :=
  if (count =? 1)%nat then literal 34 (-2)
  else num_add (literal 24 (-2))
         (num_mul (num_div (num_of_Z (Z.of_nat index)) (num_of_Z (Z.of_nat (Nat.max (count - 1) 1))))
            (literal 2 (-1))).

Definition setDisplayColor (index count : nat) (l : DashboardFlowLink) : DashboardFlowLink :=
  let '(c, a) := alphaColor (l_color l) (linkOpacity index count) in
  mkLink (l_source l) (l_target l) (l_value l) (l_requests l) (l_quota l) (l_tokens l)
    (sourceLabel l) (targetLabel l) (l_color l) c a (l_color l) (l_colorKey l) (share l)
    (l_highlighted l) (l_dimmed l).

Definition cmpLinkValue (a b : DashboardFlowLink) : Z :=
  cmp_or (l_value b - l_value a) (localeCompare (linkStableKey a) (linkStableKey b)).

(** The rank of a link among those of its source.  Links are objects: each is found
    again by its key, which no other link of the graph has. *)
Definition assignLinkDisplayColors (ls : list DashboardFlowLink) : list DashboardFlowLink :=
  let ranked source := js_sort cmpLinkValue (filter (λ l, l_source l = source) ls) in
  (λ l, let sorted := linkStableKey <$> ranked (l_source l) in
        setDisplayColor (default 0%nat (fst <$> list_find (λ k, k = linkStableKey l) sorted))
          (length sorted) l) <$> ls.
End graph.

Section build.
Context `{FlowHost}.

Definition buildSummary (rows : list FlowQuotaDataItem) : FlowSummary :=
  foldl (λ summary row,
    let m := rowMetrics row in
    mkSummary (s_quota summary + m_quota m) (s_tokens summary + m_tokens m)
      (s_requests summary + m_requests m)) (mkSummary 0 0 0) rows.

Record FlowGraphOptions := mkGraphOptions {
  topNodeLimit : option Z; overflowMode : option FlowOverflowMode;
  otherNodeLabel : option (FlowNodeKind → option jsstring);
  activeNode : option FlowNodeFilter; activeLink : option FlowLinkSelection; maskSensitive : bool }.

Definition byValueThenLabel (a b : DashboardFlowNode) : Z :=
  cmp_or (n_value b - n_value a) (localeCompare (n_label a) (n_label b)).
Definition bySourceThenTarget (a b : DashboardFlowLink) : Z :=
  cmp_or (localeCompare (l_source a) (l_source b)) (localeCompare (l_target a) (l_target b)).

(** The paths to draw, after the limit on the nodes of a stage. *)
Definition preparePaths (rows : list FlowQuotaDataItem) (metric : FlowMetric)
    (stages : list FlowNodeKind) (ctx : FlowPathContext) (options : FlowGraphOptions) :
    list PreparedFlowPath :=
  let topNodeSets := buildTopNodeSets rows metric stages
                       (normalizeTopNodeLimit (topNodeLimit options)) ctx in
  let mode := default aggregate (overflowMode options) in
  omap (λ row, p ← applyTopNodeLimit (flowPathForStages row stages ctx) topNodeSets mode
                     (otherNodeLabel options);
               Some (mkPrepared p (rowMetrics row))) rows.

(** The ids of the first nodes; an id is never empty. *)
Definition rootIds (ps : list PreparedFlowPath) : list jsstring :=
  omap (λ p, id <$> head (path p)) ps.

Definition accumulateNodes (ps : list PreparedFlowPath) (metric : FlowMetric)
    (color : jsstring → jsstring) : list (jsstring * DashboardFlowNode) :=
  foldl (λ m p, match head (path p) with
                | None => m
                | Some root =>
                    foldl (λ m n, addNode m n (metrics p) metric (color (id root)) (id root)) m (path p)
                end) [] ps.

Definition accumulateLinks (ps : list PreparedFlowPath) (metric : FlowMetric)
    (color : jsstring → jsstring) : list (jsstring * DashboardFlowLink) :=
  foldl (λ m p, match head (path p) with
                | None => m
                | Some root =>
                    foldl (λ m '(s, t), addLink m s t (metrics p) metric (color (id root)) (id root)) m
                      (steps (path p))
                end) [] ps.

Definition linkTotal (ps : list PreparedFlowPath) (ls : list DashboardFlowLink) : Z :=
  Zsum (l_value <$> filter (λ l, l_source l ∈ set_of (rootIds ps)) ls).

Definition setShare (total : Z) (l : DashboardFlowLink) : DashboardFlowLink :=
  mkLink (l_source l) (l_target l) (l_value l) (l_requests l) (l_quota l) (l_tokens l)
    (sourceLabel l) (targetLabel l) (l_color l) (linkColor l) (linkAlpha l) (hoverColor l)
    (l_colorKey l) (if 0 <? total then num_div (num_of_Z (l_value l)) (num_of_Z total) else num0)
    (l_highlighted l) (l_dimmed l).

Definition buildFlowGraph (rows : list FlowQuotaDataItem) (metric : FlowMetric) (role : FlowRole)
    (palette : option (list jsstring)) (visibleStages : option (list FlowNodeKind))
    (ctx : FlowPathContext) (options : FlowGraphOptions) : DashboardFlowGraph :=
  let stages := resolveVisibleStages role visibleStages in
  let ps := preparePaths rows metric stages ctx options in
  let colors := stableColorMap (js_sort localeCompare (rootIds ps)) palette in
  let color root := default (colorAt 0 palette) (jget root colors) in
  let ns := accumulateNodes ps metric color in
  let ls := accumulateLinks ps metric color in
  let '(ns, ls) := if maskSensitive options then maskFlowGraphLabels ns ls else (ns, ls) in
  let '(ns, ls) := applyFlowHighlights ns ls
                     (buildFlowHighlightSets ps (activeNode options) (activeLink options) stages) in
  let flowLinks := js_sort bySourceThenTarget (jvalues ls) in
  let total := linkTotal ps flowLinks in
  mkGraph (js_sort byValueThenLabel (jvalues ns))
    (assignLinkDisplayColors (setShare total <$> flowLinks)).

(** ** Filter options *)
Record FlowUserFilterOption := mkUserOption {
  uo_value : jsstring; uo_label : jsstring; uo_valueLabel : jsstring; uo_valueRaw : Z;
  uo_color : jsstring }.

(** [!row.user_id && !row.username]. *)
Definition no_user (row : FlowQuotaDataItem) : bool :=
  (numberValue (user_id row) =? 0) && bool_decide (or_text (username row) [] = []).

Definition buildUserFilterOptions (rows : list FlowQuotaDataItem) (metric : FlowMetric)
    (palette : option (list jsstring)) : list FlowUserFilterOption :=
  let colors := stableColorMap (js_sort localeCompare ((λ row, id (userNode row)) <$> rows)) palette in
  let users := foldl (λ users row,
    if no_user row then users
    else
      let user := userNode row in
      let '(l, v, c) := default (label user, 0, default (colorAt 0 palette) (jget (id user) colors))
                          (jget (id user) users) in
      jset (id user) (l, v + metricValue (rowMetrics row) metric, c) users) [] rows in
  js_sort (λ a b, cmp_or (uo_valueRaw b - uo_valueRaw a) (localeCompare (uo_label a) (uo_label b)))
    ((λ '(value, (l, v, c)), mkUserOption value l (formatNumber v) v c) <$> users).

Record FlowNodeFilterOption := mkNodeOption {
  no_kind : FlowNodeKind; no_value : jsstring; no_label : jsstring; no_valueLabel : jsstring;
  no_valueRaw : Z; no_color : jsstring }.

Definition nodeFilterKey (f : FlowNodeFilter) : jsstring := kind_text (f_kind f) ++ [0%N] ++ f_id f.

Definition stageIndex (stages : list FlowNodeKind) (k : FlowNodeKind) : Z :=
  Z.of_nat (default 0%nat (fst <$> list_find (λ x, x = k) stages)).

Definition cmpNodeOption (stages : list FlowNodeKind) (a b : FlowNodeFilterOption) : Z :=
  cmp_or (stageIndex stages (no_kind a) - stageIndex stages (no_kind b))
    (cmp_or (no_valueRaw b - no_valueRaw a)
       (cmp_or (localeCompare (no_label a) (no_label b)) (localeCompare (no_value a) (no_value b)))).

Definition stageOptions (rows : list FlowQuotaDataItem) (metric : FlowMetric)
    (stages : list FlowNodeKind) (ctx : FlowPathContext) (selectedNodes : list FlowNodeFilter)
    (stage : FlowNodeKind) : list (jsstring * FlowNodeRank) :=
  foldl (λ totals row,
    let node := NODE_BUILDERS stage row ctx in
    let key := nodeFilterKey (mkFilter (kind node) (id node)) in
    let current := default (mkRank node 0) (jget key totals) in
    jset key (mkRank (rank_node current) (rank_value current + metricValue (rowMetrics row) metric)) totals)
    [] (filterRowsByNodes rows (selectedNodeFiltersExceptKind selectedNodes stage) stages ctx).

Definition buildNodeFilterOptions (rows : list FlowQuotaDataItem) (metric : FlowMetric)
    (role : FlowRole) (visibleStages : option (list FlowNodeKind)) (palette : option (list jsstring))
    (ctx : FlowPathContext) (selectedNodes : list FlowNodeFilter) : list FlowNodeFilterOption :=
  let stages := resolveVisibleStages role visibleStages in
  let colorIds := set_of (concat ((λ row, id <$> flowPathForStages row stages ctx) <$> rows)) in
  let colors := stableColorMap (js_sort localeCompare colorIds) palette in
  let option_of rank :=
    let n := rank_node rank in
    mkNodeOption (kind n) (id n) (label n) (formatNumber (rank_value rank)) (rank_value rank)
      (default (colorAt 0 palette) (jget (id n) colors)) in
  js_sort (cmpNodeOption stages)
    (concat ((λ stage, option_of <$> jvalues (stageOptions rows metric stages ctx selectedNodes stage))
             <$> stages)).

Record FlowBuildOptions := mkBuildOptions {
  b_role : option FlowRole; b_selectedUsers : list jsstring; b_selectedNodes : list FlowNodeFilter;
  b_colorPalette : option (list jsstring); b_visibleStages : option (list FlowNodeKind);
  b_deletedTokenLabel : FlowPathContext; b_graph : FlowGraphOptions }.

Record ProcessedFlowData := mkProcessed {
  summary : FlowSummary; flow : DashboardFlowGraph;
  filterUsers : list FlowUserFilterOption; filterNodes : list FlowNodeFilterOption }.

Definition buildFlowFilterOptions (rows : list FlowQuotaDataItem) (metric : FlowMetric)
    (palette : option (list jsstring)) (role : FlowRole) (visibleStages : option (list FlowNodeKind))
    (selectedNodes : list FlowNodeFilter) :
    list FlowUserFilterOption * list FlowNodeFilterOption :=
  (buildUserFilterOptions rows metric palette,
   buildNodeFilterOptions rows metric role visibleStages palette None selectedNodes).

Definition buildDashboardFlowData (rows : list FlowQuotaDataItem) (metric : FlowMetric)
    (options : FlowBuildOptions) : ProcessedFlowData :=
  let role := default role_user (b_role options) in
  let palette := b_colorPalette options in
  let ctx := b_deletedTokenLabel options in
  let stages := resolveVisibleStages role (b_visibleStages options) in
  let userFilteredRows := filterRows rows (b_selectedUsers options) in
  let filteredRows := filterRowsByNodes userFilteredRows (b_selectedNodes options) stages ctx in
  mkProcessed (buildSummary filteredRows)
    (buildFlowGraph filteredRows metric role palette (b_visibleStages options) ctx (b_graph options))
    (buildUserFilterOptions rows metric palette)
    (buildNodeFilterOptions userFilteredRows metric role (b_visibleStages options) palette ctx
       (b_selectedNodes options)).

(** ** flow-selection.ts *)
Inductive FlowDisplayState := display_loading | display_error | display_empty | display_chart.

Record FlowResponse := mkFlowResponse {
  resp_success : bool; resp_data : option (list FlowQuotaDataItem); resp_message : option jsstring }.

(** The rows, or the message of the error thrown. *)
Definition requireSuccessfulFlowRows (response : FlowResponse) (fallbackMessage : jsstring) :
    res jsstring (list FlowQuotaDataItem) :=
  if negb (resp_success response) then Throw (or_text (resp_message response) fallbackMessage)
  else Ok (default [] (resp_data response)).

Definition flowDisplayState (isLoading isError : bool) (linkCount : Z) (themeReady : bool) :
    FlowDisplayState :=
  if isLoading then display_loading
  else if isError then display_error
  else if linkCount =? 0 then display_empty
  else if negb themeReady then display_loading
  else display_chart.

Definition compactFlowSelectionLabel (count : Z) : jsstring :=
  if 0 <? count then show_Z count else js "*".

Definition visibleFlowUsers (users : list FlowUserFilterOption) (selectedUsers : list jsstring) :
    list FlowUserFilterOption :=
  match selectedUsers with
  | [] => users
  | _ => filter (λ u, uo_value u ∈ selectedUsers) users
  end.
End build.
