(* ===== verification/FlowFacts.v ===== *)
(** Properties of the flow graph of Flow.v: what is summed is conserved stage by
    stage, shares are shares of that total, and the limit on nodes holds. *)
From S2P Require Import Prelude JsString JsValue Json Flow.
Open Scope Z_scope.

(** ** Sums over a [Map] *)
Section map_sums.
Context {V : Type} (f : V → Z).
Implicit Types (m : list (jsstring * V)).

Definition map_sum m : Z := Zsum (f <$> jvalues m).

Lemma map_sum_cons k v m : map_sum ((k, v) :: m) = f v + map_sum m.
Proof. done. Qed.

Lemma map_sum_jset k v m :
  map_sum (jset k v m) = map_sum m + f v - default 0 (f <$> jget k m).
Proof.
  induction m as [|[k' v'] m IH]; simpl; [unfold map_sum, Zsum; simpl; lia|].
  case_decide; simpl; rewrite !map_sum_cons; [lia|]. rewrite IH. lia.
Qed.
End map_sums.

Lemma Zsum_cons x l : Zsum (x :: l) = x + Zsum l.
Proof. done. Qed.

Lemma Zsum_fmap_ext {X} (f g : X → Z) l : (∀ x, x ∈ l → f x = g x) → Zsum (f <$> l) = Zsum (g <$> l).
Proof.
  intros Hfg. f_equal. apply list_fmap_ext. intros i x Hx. apply Hfg. by apply list_elem_of_lookup_2 in Hx.
Qed.

Lemma Zsum_zero {X} (l : list X) : Zsum ((λ _, 0) <$> l) = 0.
Proof. induction l as [|x l IH]; [done|]. by rewrite fmap_cons, Zsum_cons, IH. Qed.

Lemma Zsum_filter {X} (P : X → Prop) `{∀ x, Decision (P x)} (f : X → Z) l :
  Zsum (f <$> filter P l) = Zsum ((λ x, if decide (P x) then f x else 0) <$> l).
Proof.
  induction l as [|x l IH]; [done|]. rewrite filter_cons, fmap_cons.
  rewrite Zsum_cons, <- IH. case_decide; [by rewrite fmap_cons|done].
Qed.

(** ** Ids tell their kind *)
Definition kinded (k : FlowNodeKind) (i : jsstring) : Prop := (kind_text k ++ js ":") `prefix_of` i.
#[export] Instance kinded_dec k i : Decision (kinded k i).
Proof. unfold kinded. apply _. Defined.

Lemma kinded_unique k1 k2 i : kinded k1 i → kinded k2 i → k1 = k2.
Proof.
  intros [r1 ->] [r2 Hr]. destruct k1, k2; try reflexivity; exfalso; vm_compute in Hr; discriminate.
Qed.

(** A node of a path whose id is of its kind. *)
Definition node_ok (n : FlowPathNode) : Prop := kinded (kind n) (id n).

Lemma builder_ok k row ctx : node_ok (NODE_BUILDERS k row ctx) ∧ kind (NODE_BUILDERS k row ctx) = k.
Proof. destruct k; split; try done; unfold node_ok; simpl; eexists; reflexivity. Qed.

Lemma other_ok k labeler : node_ok (otherFlowNode k labeler).
Proof. exists (js "__other__"). by destruct k. Qed.

(** ** The nodes of the graph *)
Section nodes.
Context `{FlowHost}.
Implicit Types (m : list (jsstring * DashboardFlowNode)) (p : PreparedFlowPath) (n : FlowPathNode).

(** A map of nodes under their ids, each of the kind its id tells. *)
Definition nodes_ok m : Prop :=
  NoDup (jkeys m) ∧ ∀ key x, jget key m = Some x → n_id x = key ∧ kinded (n_kind x) key.

Definition kind_value (k : FlowNodeKind) (x : DashboardFlowNode) : Z :=
  if decide (n_kind x = k) then n_value x else 0.

Lemma addNode_ok m n mm metric c ck : nodes_ok m → node_ok n → nodes_ok (addNode m n mm metric c ck).
Proof.
  intros [Hn Hm] Hk. unfold addNode. split; [by apply NoDup_jset|]. intros key x.
  rewrite jget_jset. case_decide as E; [|apply Hm]. intros [= <-]. simpl.
  destruct (jget (id n) m) as [y|] eqn:Ey; simpl; [apply Hm in Ey; by subst|by subst].
Qed.

Lemma addNode_sum m n mm metric c ck k :
  nodes_ok m → node_ok n →
  map_sum (kind_value k) (addNode m n mm metric c ck) =
  map_sum (kind_value k) m + if decide (kind n = k) then metricValue mm metric else 0.
Proof.
  intros [_ Hm] Hk. unfold addNode. rewrite map_sum_jset. unfold kind_value.
  destruct (jget (id n) m) as [y|] eqn:Ey; simpl.
  - apply Hm in Ey as [_ Hy]. rewrite (kinded_unique _ _ _ Hy Hk). case_decide; lia.
  - case_decide; lia.
Qed.

Lemma addPath_sum ns m mm metric c ck :
  nodes_ok m → Forall node_ok ns →
  let m' := foldl (λ m n, addNode m n mm metric c ck) m ns in
  nodes_ok m' ∧ ∀ k, map_sum (kind_value k) m' =
    map_sum (kind_value k) m + Zsum ((λ n, if decide (kind n = k) then metricValue mm metric else 0) <$> ns).
Proof.
  revert m. induction ns as [|n ns IH]; intros m Hm Hns m'; subst m'; cbn [foldl].
  { split; [done|]. intros k. cbn. lia. }
  apply Forall_cons in Hns as [Hn Hns].
  destruct (IH (addNode m n mm metric c ck)) as [H1 H2]; [by apply addNode_ok|done|].
  split; [done|]. intros k. rewrite H2, addNode_sum by done.
  rewrite fmap_cons, Zsum_cons. lia.
Qed.

(** A path through [stages]. *)
Definition path_ok (stages : list FlowNodeKind) (ns : list FlowPathNode) : Prop :=
  kind <$> ns = stages ∧ Forall node_ok ns.

Lemma stage_once k stages ns v : NoDup stages → k ∈ stages → kind <$> ns = stages →
  Zsum ((λ n, if decide (kind n = k) then v else 0) <$> ns) = v.
Proof.
  intros Hn Hk <-. revert Hn Hk. induction ns as [|n ns IH]; [by intros _ ?%elem_of_nil|].
  rewrite !fmap_cons, NoDup_cons, elem_of_cons, Zsum_cons. intros [Hx Hn] Hk.
  case_decide as E.
  - subst. clear IH Hk. replace (Zsum _) with 0; [lia|].
    induction ns as [|y ns IH]; [done|]. rewrite fmap_cons, Zsum_cons. rewrite fmap_cons in Hx, Hn.
    apply not_elem_of_cons in Hx as [Hy Hx]. apply NoDup_cons in Hn as [_ Hn].
    rewrite decide_False by congruence. rewrite <- IH by done. lia.
  - destruct Hk as [->|Hk]; [done|]. rewrite IH by done. lia.
Qed.

Lemma accumulateNodes_snoc ps p metric color :
  accumulateNodes (ps ++ [p]) metric color =
  match head (path p) with
  | None => accumulateNodes ps metric color
  | Some root => foldl (λ m n, addNode m n (metrics p) metric (color (id root)) (id root))
                   (accumulateNodes ps metric color) (path p)
  end.
Proof. unfold accumulateNodes. by rewrite foldl_app. Qed.

Lemma accumulateNodes_sum stages ps metric color k :
  NoDup stages → k ∈ stages → Forall (λ p, path_ok stages (path p)) ps →
  nodes_ok (accumulateNodes ps metric color) ∧
  map_sum (kind_value k) (accumulateNodes ps metric color) =
  Zsum ((λ p, metricValue (metrics p) metric) <$> ps).
Proof.
  intros Hn Hk. induction ps as [|p ps IH] using rev_ind; intros Hps.
  { split; [|done]. split; [by apply NoDup_nil|done]. }
  apply Forall_app in Hps as [Hps [[Hkinds Hok] _]%Forall_cons].
  destruct (IH Hps) as [H1 H2]. rewrite accumulateNodes_snoc.
  destruct (path p) as [|root rest] eqn:Ep; [subst; by apply elem_of_nil in Hk|]. simpl head.
  destruct (addPath_sum (root :: rest) _ (metrics p) metric (color (id root)) (id root) H1 Hok) as [H3 H4].
  split; [done|]. rewrite H4, H2, fmap_app, Zsum_app. rewrite (stage_once k stages) by done.
  cbn. lia.
Qed.
End nodes.

(** ** The paths that are drawn *)
Section paths.
Context `{FlowHost}.

Lemma stages_ok role vs :
  NoDup (resolveVisibleStages role vs) ∧ (2 <= length (resolveVisibleStages role vs))%nat.
Proof.
  assert (NoDup (getFlowStages role) ∧ (2 <= length (getFlowStages role))%nat) as [Hn Hl].
  { destruct role; (split; [by apply (bool_decide_unpack _)|simpl; lia]). }
  unfold resolveVisibleStages. destruct vs as [vs|]; [|done].
  destruct (_ <=? _)%nat eqn:E; [|done]. apply Nat.leb_le in E.
  split; [by apply NoDup_filter|done].
Qed.

Lemma flowPath_ok row stages ctx : path_ok stages (flowPathForStages row stages ctx).
Proof.
  unfold path_ok, flowPathForStages. split.
  - rewrite <- list_fmap_compose. rewrite <- (list_fmap_id stages) at 2. apply list_fmap_ext.
    intros _ k _. simpl. apply builder_ok.
  - apply Forall_fmap, Forall_forall. intros k _. apply builder_ok.
Qed.

Lemma limit_ok stages p sets mode labeler p' :
  path_ok stages p → applyTopNodeLimit p sets mode labeler = Some p' → path_ok stages p'.
Proof.
  intros [Hk Hok]. unfold applyTopNodeLimit. destruct sets as [s|]; [|by intros [= <-]].
  destruct (forallb _ p); [by intros [= <-]|]. destruct mode; [|done]. intros [= <-]. split.
  - rewrite <- list_fmap_compose, <- Hk. apply list_fmap_ext. intros _ n _. simpl. by case_match.
  - apply Forall_fmap. eapply Forall_impl; [exact Hok|]. intros n Hn. simpl.
    case_match; [done|]. apply other_ok.
Qed.

Lemma prepare_ok rows metric stages ctx options :
  Forall (λ p, path_ok stages (path p)) (preparePaths rows metric stages ctx options).
Proof.
  unfold preparePaths. apply Forall_forall. intros p (row & _ & Hp)%list_elem_of_omap.
  destruct (applyTopNodeLimit _ _ _ _) as [p'|] eqn:E; [|done]. injection Hp as <-.
  eapply limit_ok; [apply flowPath_ok|exact E].
Qed.

Lemma limit_aggregate p sets labeler : is_Some (applyTopNodeLimit p sets aggregate labeler).
Proof. unfold applyTopNodeLimit. repeat case_match; eauto. Qed.

Lemma prepare_metrics rows metric stages ctx options :
  overflowMode options ≠ Some hide_overflow →
  metrics <$> preparePaths rows metric stages ctx options = rowMetrics <$> rows.
Proof.
  intros Hm. unfold preparePaths. set (sets := buildTopNodeSets _ _ _ _ _). clearbody sets.
  assert (default aggregate (overflowMode options) = aggregate) as ->
    by (destruct (overflowMode options) as [[]|]; done).
  induction rows as [|row rows IH]; [done|]. simpl.
  destruct (limit_aggregate (flowPathForStages row stages ctx) sets (otherNodeLabel options)) as [p ->].
  simpl. by f_equal.
Qed.

Definition summaryValue (s : FlowSummary) (metric : FlowMetric) : Z :=
  match metric with quota => s_quota s | tokens => s_tokens s | requests => s_requests s end.

Lemma summary_value rows metric :
  summaryValue (buildSummary rows) metric = Zsum ((λ m, metricValue m metric) <$> (rowMetrics <$> rows)).
Proof.
  unfold buildSummary. induction rows as [|row rows IH] using rev_ind; [by destruct metric|].
  rewrite foldl_app, !fmap_app, Zsum_app, <- IH. cbn. destruct metric; cbn; lia.
Qed.

Lemma prepare_total rows metric stages ctx options :
  overflowMode options ≠ Some hide_overflow →
  Zsum ((λ p, metricValue (metrics p) metric) <$> preparePaths rows metric stages ctx options)
  = summaryValue (buildSummary rows) metric.
Proof.
  intros Hm. rewrite summary_value, <- (prepare_metrics _ metric stages ctx options Hm).
  by rewrite <- list_fmap_compose.
Qed.
End paths.

(** ** The finished graph *)
Section graph_facts.
Context `{FlowHost}.

(** The two maps before they are sorted into arrays. *)
Definition finish_maps (options : FlowGraphOptions) (stages : list FlowNodeKind)
    (ps : list PreparedFlowPath) (metric : FlowMetric) (color : jsstring → jsstring) :
    list (jsstring * DashboardFlowNode) * list (jsstring * DashboardFlowLink) :=
  let ns := accumulateNodes ps metric color in
  let ls := accumulateLinks ps metric color in
  let '(ns, ls) := if maskSensitive options then maskFlowGraphLabels ns ls else (ns, ls) in
  applyFlowHighlights ns ls
    (buildFlowHighlightSets ps (activeNode options) (activeLink options) stages).

Lemma buildFlowGraph_maps rows metric role palette vs ctx options :
  let stages := resolveVisibleStages role vs in
  let ps := preparePaths rows metric stages ctx options in
  ∃ color, let '(ns, ls) := finish_maps options stages ps metric color in
    buildFlowGraph rows metric role palette vs ctx options =
    mkGraph (js_sort byValueThenLabel (jvalues ns))
      (assignLinkDisplayColors (setShare (linkTotal ps (js_sort bySourceThenTarget (jvalues ls)))
                                <$> js_sort bySourceThenTarget (jvalues ls))).
Proof.
  intros stages ps.
  exists (λ root, default (colorAt 0 palette)
                    (jget root (stableColorMap (js_sort localeCompare (rootIds ps)) palette))).
  unfold finish_maps, buildFlowGraph. fold stages. fold ps.
  destruct (if maskSensitive options then _ else _) as [ns1 ls1]. by destruct (applyFlowHighlights _ _ _).
Qed.

Lemma jvalues_on_values {V} (f : V → V) (m : list (jsstring * V)) :
  jvalues (on_values f m) = f <$> jvalues m.
Proof. unfold jvalues, on_values. rewrite <- !list_fmap_compose. apply list_fmap_ext. by intros _ [] _. Qed.

(** Nodes and links of the finished maps are those accumulated, with labels and
    marks changed. *)
Lemma finish_nodes {X} (g : DashboardFlowNode → X) options stages ps metric color :
  (∀ x, g (maskNode x) = g x) → (∀ hs x, g (highlightNode hs x) = g x) →
  g <$> jvalues (finish_maps options stages ps metric color).1 =
  g <$> jvalues (accumulateNodes ps metric color).
Proof.
  intros Hmask Hhl. unfold finish_maps.
  assert (∀ ns ls, g <$> jvalues (applyFlowHighlights ns ls
    (buildFlowHighlightSets ps (activeNode options) (activeLink options) stages)).1 = g <$> jvalues ns) as Ha.
  { intros ns ls. unfold applyFlowHighlights. destruct (buildFlowHighlightSets _ _ _ _); [|done]. simpl.
    rewrite jvalues_on_values, <- list_fmap_compose. apply list_fmap_ext. intros _ x _. apply Hhl. }
  destruct (maskSensitive options); unfold maskFlowGraphLabels; cbn beta iota zeta; rewrite Ha; [|done].
  rewrite jvalues_on_values, <- list_fmap_compose. apply list_fmap_ext. intros _ x _. apply Hmask.
Qed.

(** C22: nothing is lost and nothing counted twice: unless overflow is hidden, in every
    stage of the diagram the values of the nodes sum to the summary's total of the
    metric shown, however many nodes the limit folded into "other", and whatever
    is masked, highlighted, filtered or coloured. *)
Theorem flow_conserves rows metric role palette vs ctx options k
    (Hk : k ∈ resolveVisibleStages role vs) (Hmode : overflowMode options ≠ Some hide_overflow) :
  Zsum (n_value <$> filter (λ x, n_kind x = k)
                      (nodes (buildFlowGraph rows metric role palette vs ctx options)))
  = summaryValue (buildSummary rows) metric.
Proof.
  destruct (buildFlowGraph_maps rows metric role palette vs ctx options) as [color Hg].
  destruct (finish_maps _ _ _ _ _) as [ns ls] eqn:E. rewrite Hg. cbn [nodes].
  rewrite Zsum_filter, js_sort_perm. change (λ x, if decide (n_kind x = k) then n_value x else 0) with (kind_value k).
  change ns with (ns, ls).1. rewrite <- E.
  rewrite (finish_nodes (kind_value k)).
  - destruct (stages_ok role vs) as [Hn _].
    destruct (accumulateNodes_sum _ _ metric color k Hn Hk
                (prepare_ok rows metric (resolveVisibleStages role vs) ctx options)) as [_ Hs].
    unfold map_sum in Hs. rewrite Hs. by apply prepare_total.
  - intros x. unfold maskNode. by case_match.
  - done.
Qed.
End graph_facts.

(** ** The links of the graph *)
Section links.
Context `{FlowHost}.
Implicit Types (m : list (jsstring * DashboardFlowLink)).

(** The value of a link that leaves a stage. *)
Definition leaving (k : FlowNodeKind) (l : DashboardFlowLink) : Z :=
  if decide (kinded k (l_source l)) then l_value l else 0.

(** A map of links under their keys; the source of each is of some kind, and one of
    the first stage [k] is one of the [roots]. *)
Definition links_ok (k : FlowNodeKind) (roots : list jsstring) m : Prop :=
  ∀ key l, jget key m = Some l →
    linkStableKey l = key ∧ (∃ k', kinded k' (l_source l)) ∧
    (kinded k (l_source l) → l_source l ∈ roots).

Lemma kinded_key k s t : kinded k s → kinded k (link_key s t).
Proof. intros [r ->]. exists (r ++ [0%N] ++ t). unfold link_key. by rewrite <- (app_assoc (kind_text k ++ js ":")). Qed.

Lemma same_key_kind k s1 t1 s2 t2 :
  link_key s1 t1 = link_key s2 t2 → (∃ k1, kinded k1 s1) → (∃ k2, kinded k2 s2) →
  kinded k s1 ↔ kinded k s2.
Proof.
  intros E [k1 H1] [k2 H2]. pose proof (kinded_key _ _ t1 H1) as H3.
  pose proof (kinded_key _ _ t2 H2) as H4. rewrite E in H3.
  pose proof (kinded_unique _ _ _ H3 H4) as ->.
  split; intros Hk; pose proof (kinded_unique k k2 _ Hk ltac:(done)) as ->; done.
Qed.

Lemma addLink_ok k roots m s t mm metric c ck :
  links_ok k roots m → node_ok s → (kind s = k → id s ∈ roots) →
  links_ok k roots (addLink m s t mm metric c ck).
Proof.
  intros Hm Hs Hroot key l. unfold addLink. rewrite jget_jset. case_decide as E; [|apply Hm].
  intros [= <-]. simpl. destruct (jget (link_key (id s) (id t)) m) as [y|] eqn:Ey; simpl.
  - apply Hm in Ey as (Hk & ? & ?). subst. by split_and!.
  - subst. split_and!; [done|by exists (kind s)|]. intros Hk. apply Hroot.
    by apply (kinded_unique _ _ (id s)).
Qed.

Lemma addLink_sum k roots m s t mm metric c ck :
  links_ok k roots m → node_ok s →
  map_sum (leaving k) (addLink m s t mm metric c ck) =
  map_sum (leaving k) m + if decide (kind s = k) then metricValue mm metric else 0.
Proof.
  intros Hm Hs. unfold addLink. rewrite map_sum_jset.
  assert (kinded k (id s) ↔ kind s = k) as Hk.
  { split; [|by intros <-]. intros Hk. symmetry. by apply (kinded_unique _ _ (id s)). }
  unfold leaving. destruct (jget _ m) as [y|] eqn:Ey; simpl.
  - apply Hm in Ey as (Hkey & Hy & _).
    pose proof (same_key_kind k _ _ _ _ Hkey Hy (ex_intro (λ k2, kinded k2 (id s)) (kind s) Hs)) as Hiff.
    repeat case_decide; try tauto; lia.
  - repeat case_decide; try tauto; lia.
Qed.

Lemma addSteps_sum k roots ss m mm metric c ck :
  links_ok k roots m →
  Forall (λ st, node_ok st.1 ∧ (kind st.1 = k → id st.1 ∈ roots)) ss →
  let m' := foldl (λ m '(s, t), addLink m s t mm metric c ck) m ss in
  links_ok k roots m' ∧ map_sum (leaving k) m' = map_sum (leaving k) m +
    Zsum ((λ st : FlowPathNode * FlowPathNode,
             if decide (kind st.1 = k) then metricValue mm metric else 0) <$> ss).
Proof.
  revert m. induction ss as [|[s t] ss IH]; intros m Hm Hss m'; subst m'; cbn [foldl].
  { split; [done|]. cbn. lia. }
  apply Forall_cons in Hss as [[Hs Hr] Hss].
  destruct (IH (addLink m s t mm metric c ck)) as [H1 H2]; [by apply addLink_ok|done|].
  split; [done|]. rewrite H2, (addLink_sum k roots) by done. rewrite fmap_cons, Zsum_cons. simpl. lia.
Qed.

Lemma steps_sources ns st : st ∈ steps ns → st.1 ∈ ns.
Proof.
  induction ns as [|a ns IH]; [by intros ?%elem_of_nil|]. destruct ns as [|b ns]; [by intros ?%elem_of_nil|].
  cbn [steps]. intros [->|Hin]%elem_of_cons; [by left|]. right. by apply IH.
Qed.

(** Only the first step of a path leaves the first stage. *)
Lemma first_step_once k rest ns v :
  NoDup (k :: rest) → rest ≠ [] → kind <$> ns = k :: rest →
  Zsum ((λ st : FlowPathNode * FlowPathNode, if decide (kind st.1 = k) then v else 0) <$> steps ns) = v.
Proof.
  intros [Hk _]%NoDup_cons Hne. destruct ns as [|a [|b ns]]; try done.
  { intros [= _ <-]. done. }
  rewrite fmap_cons. intros [= Ha Hrest]. cbn [steps]. rewrite fmap_cons, Zsum_cons. simpl.
  rewrite decide_True by done.
  assert (∀ st, st ∈ steps (b :: ns) → kind st.1 ≠ k) as Hno.
  { intros st Hst%steps_sources E. apply Hk. rewrite <- Hrest, <- E.
    by apply (list_elem_of_fmap_2 kind (b :: ns)). }
  rewrite (Zsum_fmap_ext _ (λ _, 0)).
  - rewrite Zsum_zero. lia.
  - intros st Hst. by rewrite decide_False by (by apply Hno).
Qed.

Lemma accumulateLinks_snoc ps p metric color :
  accumulateLinks (ps ++ [p]) metric color =
  match head (path p) with
  | None => accumulateLinks ps metric color
  | Some root => foldl (λ m '(s, t), addLink m s t (metrics p) metric (color (id root)) (id root))
                   (accumulateLinks ps metric color) (steps (path p))
  end.
Proof. unfold accumulateLinks. by rewrite foldl_app. Qed.

Lemma rootIds_app ps qs : rootIds (ps ++ qs) = rootIds ps ++ rootIds qs.
Proof. apply omap_app. Qed.

(** The node of the first stage is the first of its path. *)
Lemma first_of_path k rest ns n root :
  NoDup (k :: rest) → kind <$> ns = k :: rest → n ∈ ns → kind n = k → head ns = Some root → id n = id root.
Proof.
  intros [Hk _]%NoDup_cons Hkinds Hn Hkn. destruct ns as [|a ns]; [done|]. intros [= ->].
  injection Hkinds as Ha Hrest. apply elem_of_cons in Hn as [->|Hn]; [done|].
  destruct Hk. rewrite <- Hrest, <- Hkn. by apply list_elem_of_fmap_2.
Qed.

Lemma accumulateLinks_sum k rest ps metric color roots :
  NoDup (k :: rest) → rest ≠ [] → Forall (λ p, path_ok (k :: rest) (path p)) ps →
  (∀ i, i ∈ rootIds ps → i ∈ roots) →
  links_ok k roots (accumulateLinks ps metric color) ∧
  map_sum (leaving k) (accumulateLinks ps metric color) =
  Zsum ((λ p, metricValue (metrics p) metric) <$> ps).
Proof.
  intros Hn Hne. induction ps as [|p ps IH] using rev_ind; intros Hps Hroots; [done|].
  apply Forall_app in Hps as [Hps [[Hkinds Hok] _]%Forall_cons].
  destruct IH as [H1 H2]; [done|intros i Hi; apply Hroots; rewrite rootIds_app; set_solver|].
  rewrite accumulateLinks_snoc. destruct (head (path p)) as [root|] eqn:Er.
  2:{ destruct (path p); done. }
  assert (id root ∈ roots) as Hroot.
  { apply Hroots. rewrite rootIds_app. apply elem_of_app. right. unfold rootIds. simpl. rewrite Er. by left. }
  destruct (addSteps_sum k roots (steps (path p)) _ (metrics p) metric (color (id root)) (id root) H1)
    as [H3 H4].
  { apply Forall_forall. intros st Hst%steps_sources. rewrite Forall_forall in Hok.
    split; [by apply Hok|]. intros Hks. by rewrite (first_of_path k rest (path p) st.1 root). }
  split; [done|]. rewrite H4, H2, fmap_app, Zsum_app. rewrite (first_step_once k rest) by done.
  rewrite fmap_cons, Zsum_cons. cbn. lia.
Qed.
End links.

Section share.
Context `{FlowHost}.

Lemma finish_links {X} (g : DashboardFlowLink → X) options stages ps metric color :
  (∀ mm x, g (maskLink mm x) = g x) → (∀ hs x, g (highlightLink hs x) = g x) →
  g <$> jvalues (finish_maps options stages ps metric color).2 =
  g <$> jvalues (accumulateLinks ps metric color).
Proof.
  intros Hmask Hhl. unfold finish_maps.
  assert (∀ ns ls, g <$> jvalues (applyFlowHighlights ns ls
    (buildFlowHighlightSets ps (activeNode options) (activeLink options) stages)).2 = g <$> jvalues ls) as Ha.
  { intros ns ls. unfold applyFlowHighlights. destruct (buildFlowHighlightSets _ _ _ _); [|done]. simpl.
    rewrite jvalues_on_values, <- list_fmap_compose. apply list_fmap_ext. intros _ x _. apply Hhl. }
  destruct (maskSensitive options); unfold maskFlowGraphLabels; cbn beta iota zeta; rewrite Ha; [|done].
  rewrite jvalues_on_values, <- list_fmap_compose. apply list_fmap_ext. intros _ x _. apply Hmask.
Qed.

Lemma root_kinded k rest ps i :
  Forall (λ p, path_ok (k :: rest) (path p)) ps → i ∈ rootIds ps → kinded k i.
Proof.
  intros Hps (p & Hp & Hi)%list_elem_of_omap. rewrite Forall_forall in Hps.
  destruct (Hps p Hp) as [Hk Hok]. destruct (path p) as [|a ns]; [done|]. injection Hi as <-.
  apply Forall_cons in Hok as [Ha _]. injection Hk as <- _. exact Ha.
Qed.

Lemma NoDup_accumulateLinks ps metric color : NoDup (jkeys (accumulateLinks ps metric color)).
Proof.
  induction ps as [|p ps IH] using rev_ind; [by apply NoDup_nil|]. rewrite accumulateLinks_snoc.
  destruct (head (path p)) as [root|]; [|done]. revert IH.
  generalize (accumulateLinks ps metric color). induction (steps (path p)) as [|[s t] ss IHs]; [done|].
  intros m Hm. cbn [foldl]. apply IHs. by apply NoDup_jset.
Qed.

Lemma elem_of_jvalues {V} (m : list (jsstring * V)) x :
  NoDup (jkeys m) → x ∈ jvalues m → ∃ key, jget key m = Some x.
Proof.
  intros Hn ([key y] & -> & Hin)%list_elem_of_fmap. exists key. by apply elem_of_jget.
Qed.

(** The links that leave the first stage carry the whole total. *)
Lemma linkTotal_eq k rest ps metric color options ls :
  NoDup (k :: rest) → rest ≠ [] → Forall (λ p, path_ok (k :: rest) (path p)) ps →
  ls ≡ₚ jvalues (finish_maps options (k :: rest) ps metric color).2 →
  linkTotal ps ls = Zsum ((λ p, metricValue (metrics p) metric) <$> ps).
Proof.
  intros Hn Hne Hps Hls. unfold linkTotal. rewrite Zsum_filter, Hls.
  set (g := λ l, if decide (l_source l ∈ set_of (rootIds ps)) then l_value l else 0).
  rewrite (finish_links g) by done.
  destruct (accumulateLinks_sum k rest ps metric color (rootIds ps) Hn Hne Hps) as [Hok <-]; [done|].
  apply Zsum_fmap_ext. intros l (key & Hl)%elem_of_jvalues; [|apply NoDup_accumulateLinks].
  destruct (Hok key l Hl) as (_ & _ & Hr). unfold g, leaving.
  assert (l_source l ∈ set_of (rootIds ps) ↔ kinded k (l_source l)) as Hiff.
  { rewrite elem_of_set_of. split; [by apply (root_kinded k rest)|done]. }
  repeat case_decide; tauto.
Qed.

Lemma assign_keeps {X} (g : DashboardFlowLink → X) ls :
  (∀ i c x, g (setDisplayColor i c x) = g x) → g <$> assignLinkDisplayColors ls = g <$> ls.
Proof.
  intros Hg. unfold assignLinkDisplayColors. rewrite <- list_fmap_compose. apply list_fmap_ext.
  intros _ x _. apply Hg.
Qed.

(** The links out of the first stage sum to the summary's total of the metric
    shown, and every link's share is its value divided by that total (0 when the
    total is not positive), unless overflow is hidden. *)
Theorem flow_shares rows metric role palette vs ctx options
    (Hmode : overflowMode options ≠ Some hide_overflow) :
  let g := buildFlowGraph rows metric role palette vs ctx options in
  let total := summaryValue (buildSummary rows) metric in
  (∀ k, head (resolveVisibleStages role vs) = Some k → Zsum (leaving k <$> links g) = total) ∧
  Forall (λ l, share l = if 0 <? total then num_div (num_of_Z (l_value l)) (num_of_Z total) else num0)
    (links g).
Proof.
  intros g total. destruct (buildFlowGraph_maps rows metric role palette vs ctx options) as [color Hg].
  destruct (stages_ok role vs) as [Hn Hlen].
  pose proof (prepare_ok rows metric (resolveVisibleStages role vs) ctx options) as Hps.
  pose proof (prepare_total rows metric (resolveVisibleStages role vs) ctx options Hmode) as Htot.
  destruct (resolveVisibleStages role vs) as [|k rest] eqn:Es; [simpl in Hlen; lia|].
  assert (rest ≠ []) as Hne by (destruct rest; [simpl in Hlen; lia|done]).
  destruct (finish_maps _ _ _ _ _) as [ns ls] eqn:E. unfold g. rewrite Hg. cbn [links].
  rewrite (linkTotal_eq k rest _ metric color options) by (try done; rewrite js_sort_perm, E; done).
  rewrite Htot. fold total. split.
  - intros k' [= <-]. rewrite assign_keeps by (intros; unfold setDisplayColor; by case_match).
    rewrite <- list_fmap_compose. change (leaving k ∘ setShare total) with (leaving k).
    rewrite js_sort_perm. change ls with (ns, ls).2. rewrite <- E.
    rewrite (finish_links (leaving k)) by done.
    destruct (accumulateLinks_sum k rest _ metric color
                (rootIds (preparePaths rows metric (k :: rest) ctx options)) Hn Hne Hps) as [_ Hs]; [done|].
    unfold map_sum in Hs. by rewrite Hs, Htot.
  - set (P := λ x : jsnum * Z,
      x.1 = if 0 <? total then num_div (num_of_Z x.2) (num_of_Z total) else num0).
    match goal with |- Forall _ ?ll => assert (Forall P ((λ x, (share x, l_value x)) <$> ll)) as HP end.
    { rewrite assign_keeps by (intros; unfold setDisplayColor; by case_match).
      rewrite <- list_fmap_compose. by apply Forall_fmap, Forall_forall. }
    by apply Forall_fmap in HP.
Qed.
End share.

(** ** Comparators *)

(** What [localeCompare] and a difference have in common. *)
Record consistent {X} (c : X → X → Z) : Prop := {
  con_sign x y : c x y < 0 ↔ 0 < c y x;
  con_trans x y z : c x y <= 0 → c y z <= 0 → c x z <= 0;
}.

Lemma consistent_comparator {X} (c : X → X → Z) : consistent c → Comparator c.
Proof. intros [Hs Ht]. split; [|done]. intros x y. specialize (Hs x y). lia. Qed.

Lemma consistent_or {X} (c d : X → X → Z) :
  consistent c → consistent d → consistent (λ x y, cmp_or (c x y) (d x y)).
Proof.
  intros [Hs Ht] [Hs' Ht']. split.
  - intros x y. unfold cmp_or. pose proof (Hs x y). pose proof (Hs y x). pose proof (Hs' x y).
    repeat case_match; boolify; lia.
  - intros x y z. unfold cmp_or. pose proof (Ht x y z). pose proof (Ht z x y). pose proof (Ht y z x).
    pose proof (Ht' x y z). pose proof (Hs x z). pose proof (Hs z x). pose proof (Hs y z).
    pose proof (Hs z y). pose proof (Hs x y). pose proof (Hs y x).
    repeat case_match; boolify; lia.
Qed.

Lemma consistent_on {X Y} (f : X → Y) (c : Y → Y → Z) :
  consistent c → consistent (λ x y, c (f x) (f y)).
Proof. intros [Hs Ht]. split; intros; [apply Hs|by eapply Ht]. Qed.

Lemma consistent_down {X} (f : X → Z) : consistent (λ x y, f y - f x).
Proof. split; intros; lia. Qed.

Section ranks.
Context `{FlowHost, !LocaleLaws}.

Lemma consistent_locale : consistent localeCompare.
Proof. split; [apply locale_sign|apply locale_trans]. Qed.

#[export] Instance cmpRank_comparator : Comparator cmpRank.
Proof.
  apply consistent_comparator. unfold cmpRank.
  apply (consistent_or _ (λ a b, cmp_or _ _)); [apply consistent_down|].
  apply (consistent_or (λ a b, localeCompare (label (rank_node a)) (label (rank_node b)))).
  - apply (consistent_on (λ r, label (rank_node r))), consistent_locale.
  - apply (consistent_on (λ r, id (rank_node r))), consistent_locale.
Qed.

Lemma cmpRank_value a b : cmpRank a b <= 0 → rank_value b <= rank_value a.
Proof. unfold cmpRank, cmp_or. repeat case_match; boolify; lia. Qed.

(** The rank table of one stage. *)
Definition addRow (metric : FlowMetric) (ctx : FlowPathContext) (k : FlowNodeKind)
    (st : list (jsstring * FlowNodeRank)) (row : FlowQuotaDataItem) : list (jsstring * FlowNodeRank) :=
  let node := NODE_BUILDERS k row ctx in
  let current := default (mkRank node 0) (jget (id node) st) in
  jset (id node) (mkRank (rank_node current) (rank_value current + metricValue (rowMetrics row) metric)) st.

Definition stageRank metric ctx k rows := foldl (addRow metric ctx k) [] rows.

Lemma addRank_other v totals n k : kind n ≠ k → jget k (addRank v totals n) = jget k totals.
Proof.
  intros Hk. unfold addRank. destruct (jget (kind n) totals); [|done]. by rewrite jget_jset_ne.
Qed.

Lemma addRanks_other v ns totals k :
  k ∉ kind <$> ns → jget k (foldl (addRank v) totals ns) = jget k totals.
Proof.
  revert totals. induction ns as [|n ns IH]; intros totals; [done|]. rewrite fmap_cons, not_elem_of_cons.
  intros [Hn Hns]. cbn [foldl]. rewrite IH by done. by apply addRank_other.
Qed.

Lemma addRanks_row metric ctx stages k row totals st :
  NoDup stages → k ∈ stages → jget k totals = Some st →
  jget k (foldl (addRank (metricValue (rowMetrics row) metric)) totals (flowPathForStages row stages ctx))
  = Some (addRow metric ctx k st row).
Proof.
  intros Hn Hk. unfold flowPathForStages. revert totals st Hn Hk.
  induction stages as [|k' stages IH]; intros totals st; [by intros _ ?%elem_of_nil|].
  intros [Hk' Hn]%NoDup_cons [->|Hk]%elem_of_cons Hst; rewrite fmap_cons; cbn [foldl].
  - rewrite addRanks_other.
    + unfold addRank. destruct (builder_ok k' row ctx) as [_ Hkind]. rewrite Hkind, Hst.
      by rewrite jget_jset_eq.
    + pose proof (proj1 (flowPath_ok row stages ctx)) as Hp. unfold flowPathForStages in Hp. by rewrite Hp.
  - apply IH; [done|done|]. rewrite addRank_other; [done|].
    destruct (builder_ok k' row ctx) as [_ ->]. by intros ->.
Qed.

Lemma initial_totals stages k :
  k ∈ stages → jget k (foldl (λ (m : stage_totals) stage, jset stage [] m) [] stages) = Some [].
Proof.
  induction stages as [|k' stages IH] using rev_ind; [by intros ?%elem_of_nil|].
  rewrite foldl_app. simpl. rewrite jget_jset. case_decide; [done|].
  intros [?|?%list_elem_of_singleton]%elem_of_app; [by apply IH|done].
Qed.

Lemma rankTotals_stage rows metric stages ctx k :
  NoDup stages → k ∈ stages →
  jget k (rankTotals rows metric stages ctx) = Some (stageRank metric ctx k rows).
Proof.
  intros Hn Hk. unfold rankTotals, stageRank. induction rows as [|row rows IH] using rev_ind.
  - by apply initial_totals.
  - rewrite !foldl_app. simpl. by apply addRanks_row.
Qed.
End ranks.

Section top_nodes.
Context `{FlowHost, !LocaleLaws}.

(** The metric of the rows that pass through a node. *)
Definition nodeTotal (metric : FlowMetric) (ctx : FlowPathContext) (k : FlowNodeKind)
    (rows : list FlowQuotaDataItem) (i : jsstring) : Z :=
  Zsum ((λ row, if decide (id (NODE_BUILDERS k row ctx) = i)
                then metricValue (rowMetrics row) metric else 0) <$> rows).

Lemma nodeTotal_snoc metric ctx k rows row i :
  nodeTotal metric ctx k (rows ++ [row]) i = nodeTotal metric ctx k rows i +
    if decide (id (NODE_BUILDERS k row ctx) = i) then metricValue (rowMetrics row) metric else 0.
Proof. unfold nodeTotal. rewrite fmap_app, Zsum_app. cbn. case_decide; lia. Qed.

Lemma stageRank_spec metric ctx k rows :
  let st := stageRank metric ctx k rows in
  NoDup (jkeys st) ∧
  (∀ i r, jget i st = Some r → id (rank_node r) = i ∧ rank_value r = nodeTotal metric ctx k rows i) ∧
  (∀ i, i ∈ jkeys st ↔ ∃ row, row ∈ rows ∧ id (NODE_BUILDERS k row ctx) = i).
Proof.
  unfold stageRank. cbn zeta. induction rows as [|row rows IH] using rev_ind.
  { split; [by apply NoDup_nil|]. split; [done|]. intros i. split; [by intros ?%elem_of_nil|].
    by intros (? & ?%elem_of_nil & _). }
  rewrite foldl_app. cbn [foldl]. destruct IH as (Hn & Hr & Hkeys).
  set (st := foldl _ [] rows) in *. unfold addRow. set (node := NODE_BUILDERS k row ctx).
  split; [by apply NoDup_jset|]. split.
  - intros i r. rewrite jget_jset, nodeTotal_snoc. fold node. case_decide as Ei.
    + intros [= <-]. cbn [rank_node rank_value].
      destruct (jget (id node) st) as [c|] eqn:Ec; cbn [default rank_node rank_value].
      * apply Hr in Ec as [Hc1 Hc2]. subst i. unfold Datatypes.id. by rewrite Hc2.
      * subst i. split; [done|]. replace (nodeTotal metric ctx k rows (id node)) with 0; [lia|].
        apply jget_None in Ec. symmetry. unfold nodeTotal. rewrite (Zsum_fmap_ext _ (λ _, 0)); [apply Zsum_zero|].
        intros row' Hrow'. rewrite decide_False; [done|]. intros E. apply Ec, Hkeys. eauto.
    + rewrite Z.add_0_r. apply Hr.
  - intros i. rewrite elem_of_jkeys_jset, Hkeys. setoid_rewrite elem_of_app.
    setoid_rewrite list_elem_of_singleton. unfold node. naive_solver.
Qed.

(** The ids kept in a stage. *)
Definition topIds (limit : nat) (st : list (jsstring * FlowNodeRank)) : list jsstring :=
  set_of ((λ rank, id (rank_node rank)) <$> take limit (js_sort cmpRank (jvalues st))).

Lemma topSets_stage rows metric stages limit ctx k :
  NoDup stages → k ∈ stages →
  ∃ sets, buildTopNodeSets rows metric stages (Some limit) ctx = Some sets ∧
    jget k sets = Some (topIds limit (stageRank metric ctx k rows)).
Proof.
  intros Hn Hk. eexists. split; [reflexivity|].
  pose proof (jget_fmap (λ st, topIds limit st) k (rankTotals rows metric stages ctx)) as Hf.
  rewrite (rankTotals_stage rows metric stages ctx k Hn Hk) in Hf. exact Hf.
Qed.

Lemma length_set_of {X} `{EqDecision X} (l : list X) : (length (set_of l) <= length l)%nat.
Proof.
  apply (submseteq_length (A := X)), NoDup_submseteq; [apply NoDup_set_of|].
  intros x. by rewrite elem_of_set_of.
Qed.

Lemma length_topIds limit st : (length (topIds limit st) <= limit)%nat.
Proof.
  unfold topIds. etransitivity; [apply length_set_of|]. rewrite length_fmap, length_take. lia.
Qed.

(** No id left out has a larger total than one kept. *)
Lemma topIds_best metric ctx k rows limit i j :
  let st := stageRank metric ctx k rows in
  i ∈ topIds limit st → j ∈ jkeys st → j ∉ topIds limit st →
  nodeTotal metric ctx k rows j <= nodeTotal metric ctx k rows i.
Proof.
  intros st. destruct (stageRank_spec metric ctx k rows) as (Hn & Hr & _). fold st in Hn, Hr.
  unfold topIds. rewrite !elem_of_set_of. intros Hi Hj Hout.
  apply list_elem_of_fmap in Hi as (a & -> & Ha). apply jget_is_Some in Hj as [b Hb].
  destruct (Hr j b Hb) as [<- Hbv].
  assert (a ∈ jvalues st) as (ia & Hia)%(elem_of_jvalues st a Hn)
    by (apply (elem_of_js_sort cmpRank); by eapply subseteq_take).
  destruct (Hr ia a Hia) as [-> Hav]. rewrite <- Hav, <- Hbv. apply cmpRank_value.
  assert (b ∈ js_sort cmpRank (jvalues st)) as Hin.
  { apply elem_of_js_sort. apply jget_elem_of in Hb. by apply (list_elem_of_fmap_2 snd) in Hb. }
  pose proof (js_sort_sorted cmpRank (jvalues st)) as Hs.
  rewrite <- (take_drop limit (js_sort cmpRank (jvalues st))) in Hin, Hs.
  apply elem_of_app in Hin as [Hin|Hin].
  - destruct Hout. by apply (list_elem_of_fmap_2 (λ rank, id (rank_node rank))).
  - exact (StronglySorted_app_1_elem_of _ _ _ _ _ Hs Ha Hin).
Qed.
End top_nodes.

(** ** Which nodes the graph has *)
Section node_ids.
Context `{FlowHost}.

Lemma jkeys_addNodes ns m mm metric c ck key :
  key ∈ jkeys (foldl (λ m n, addNode m n mm metric c ck) m ns) ↔ key ∈ jkeys m ∨ key ∈ id <$> ns.
Proof.
  revert m. induction ns as [|n ns IH]; intros m; cbn [foldl]; [set_solver|].
  rewrite IH, fmap_cons, elem_of_cons. unfold addNode. rewrite elem_of_jkeys_jset. tauto.
Qed.

Lemma jkeys_accumulateNodes ps metric color key :
  key ∈ jkeys (accumulateNodes ps metric color) ↔ ∃ p n, p ∈ ps ∧ n ∈ path p ∧ id n = key.
Proof.
  induction ps as [|p ps IH] using rev_ind.
  { split; [by intros ?%elem_of_nil|]. by intros (? & ? & ?%elem_of_nil & _). }
  rewrite accumulateNodes_snoc. setoid_rewrite elem_of_app. setoid_rewrite list_elem_of_singleton.
  destruct (head (path p)) as [root|] eqn:Er.
  - rewrite jkeys_addNodes, IH, list_elem_of_fmap. naive_solver.
  - rewrite IH. split; [naive_solver|]. intros (q & n & [Hq| ->] & Hn & E); [by exists q, n|].
    destruct (path p); [by apply elem_of_nil in Hn|done].
Qed.

(** The ids of the nodes of one stage. *)
Definition stageIds (k : FlowNodeKind) (g : DashboardFlowGraph) : list jsstring :=
  n_id <$> filter (λ x, n_kind x = k) (nodes g).

Lemma filter_map {X Y} (f : X → Y) (P : Y → Prop) `{∀ y, Decision (P y)} (l : list X) :
  filter P (f <$> l) = f <$> filter (λ x, P (f x)) l.
Proof. induction l as [|x l IH]; [done|]. rewrite fmap_cons, !filter_cons, IH. by case_decide. Qed.

(** The nodes, for what masking and highlighting leave alone. *)
Lemma graph_nodes {X} (f : DashboardFlowNode → X) rows metric role palette vs ctx options :
  (∀ x, f (maskNode x) = f x) → (∀ hs x, f (highlightNode hs x) = f x) →
  ∃ color, f <$> nodes (buildFlowGraph rows metric role palette vs ctx options) ≡ₚ
    f <$> jvalues (accumulateNodes
      (preparePaths rows metric (resolveVisibleStages role vs) ctx options) metric color).
Proof.
  intros Hm Hh. destruct (buildFlowGraph_maps rows metric role palette vs ctx options) as [color Hg].
  exists color. destruct (finish_maps _ _ _ _ _) as [ns ls] eqn:E. rewrite Hg. cbn [nodes].
  rewrite js_sort_perm. change ns with (ns, ls).1. rewrite <- E. by rewrite finish_nodes.
Qed.

Lemma accumulate_ok rows metric stages ctx options color :
  NoDup stages → stages ≠ [] → nodes_ok (accumulateNodes (preparePaths rows metric stages ctx options) metric color).
Proof.
  intros Hn Hne. destruct stages as [|k rest]; [done|].
  by destruct (accumulateNodes_sum (k :: rest) (preparePaths rows metric (k :: rest) ctx options)
              metric color k Hn ltac:(by left) (prepare_ok _ _ _ _ _)).
Qed.

Lemma jvalues_ids m : nodes_ok m → n_id <$> jvalues m = jkeys m.
Proof.
  intros [Hn Hm]. unfold jvalues, jkeys. rewrite <- list_fmap_compose. apply list_fmap_ext.
  intros i [key x] Hx%list_elem_of_lookup_2. simpl. apply Hm. by apply elem_of_jget.
Qed.

Lemma values_of_kind m k : nodes_ok m →
  n_id <$> filter (λ x, n_kind x = k) (jvalues m) = filter (kinded k) (jkeys m).
Proof.
  intros Hm. rewrite <- jvalues_ids by done. rewrite (filter_map n_id). f_equal. apply filter_same_elems.
  intros x (key & Hx)%elem_of_jvalues; [|apply Hm]. destruct (proj2 Hm key x Hx) as [<- Hk].
  split; [by intros <-|]. intros Hk'. by apply (kinded_unique _ _ (n_id x)).
Qed.

Lemma stageIds_perm rows metric role palette vs ctx options k :
  let ps := preparePaths rows metric (resolveVisibleStages role vs) ctx options in
  ∃ color, nodes_ok (accumulateNodes ps metric color) ∧
    stageIds k (buildFlowGraph rows metric role palette vs ctx options) ≡ₚ
    filter (kinded k) (jkeys (accumulateNodes ps metric color)).
Proof.
  intros ps. destruct (stages_ok role vs) as [Hn Hl].
  destruct (graph_nodes (λ x, (n_kind x, n_id x)) rows metric role palette vs ctx options) as [color Hp];
    [intros x; unfold maskNode; by case_match|done|]. fold ps in Hp. exists color.
  assert (nodes_ok (accumulateNodes ps metric color)) as Hok.
  { apply accumulate_ok; [done|]. intros E. rewrite E in Hl. simpl in Hl. lia. }
  split; [done|]. rewrite <- values_of_kind by done. unfold stageIds.
  assert (∀ l : list DashboardFlowNode, n_id <$> filter (λ x, n_kind x = k) l =
               snd <$> filter (λ x, x.1 = k) ((λ x, (n_kind x, n_id x)) <$> l)) as Hl2.
  { intros l. by rewrite filter_map, <- list_fmap_compose. }
  by rewrite !Hl2, Hp.
Qed.

Lemma stageIds_spec rows metric role palette vs ctx options k :
  let g := buildFlowGraph rows metric role palette vs ctx options in
  let ps := preparePaths rows metric (resolveVisibleStages role vs) ctx options in
  NoDup (stageIds k g) ∧
  ∀ i, i ∈ stageIds k g ↔ ∃ p n, p ∈ ps ∧ n ∈ path p ∧ kind n = k ∧ id n = i.
Proof.
  intros g ps. destruct (stageIds_perm rows metric role palette vs ctx options k) as (color & Hok & Hp).
  fold ps in Hok, Hp. fold g in Hp. split; [rewrite Hp; apply NoDup_filter, Hok|].
  intros i. rewrite Hp, list_elem_of_filter, jkeys_accumulateNodes.
  pose proof (prepare_ok rows metric (resolveVisibleStages role vs) ctx options) as Hps.
  fold ps in Hps. rewrite Forall_forall in Hps.
  assert (∀ p n, p ∈ ps → n ∈ path p → node_ok n) as Hno.
  { intros p n Hp' Hn. destruct (Hps p Hp') as [_ Hf]. rewrite Forall_forall in Hf. by apply Hf. }
  split.
  - intros [Hk (p & n & Hin & Hn & <-)]. exists p, n. split_and!; [done..| |done].
    by apply (kinded_unique _ _ (id n)); [apply (Hno p)|].
  - intros (p & n & Hin & Hn & <- & <-). split; [by apply (Hno p)|by exists p, n].
Qed.
End node_ids.

(** ** The limit on the nodes of a stage *)
Section top_limit.
Context `{FlowHost, !LocaleLaws}.

(** A node of a path that is drawn is one of its row that ranks high enough, or
    stands for others. *)
Lemma limit_nodes p sets mode labeler p' n :
  applyTopNodeLimit p sets mode labeler = Some p' → n ∈ p' →
  (n ∈ p ∧ isTopFlowNode n sets = true) ∨ (mode = aggregate ∧ n = otherFlowNode (kind n) labeler).
Proof.
  unfold applyTopNodeLimit. destruct sets as [s|]; [|intros [= <-]; by left].
  destruct (forallb _ p) eqn:Ef.
  { intros [= <-] Hn. left. split; [done|]. rewrite forallb_forall in Ef. apply Ef. by apply list_elem_of_In. }
  destruct mode; [|done]. intros [= <-] (a & -> & Ha)%list_elem_of_fmap.
  destruct (isTopFlowNode a (Some s)) eqn:Et; [by left|by right].
Qed.

Lemma prepared_nodes rows metric stages ctx options p n :
  p ∈ preparePaths rows metric stages ctx options → n ∈ path p →
  (∃ row, row ∈ rows ∧ kind n ∈ stages ∧ n = NODE_BUILDERS (kind n) row ctx ∧
     isTopFlowNode n (buildTopNodeSets rows metric stages
                        (normalizeTopNodeLimit (topNodeLimit options)) ctx) = true) ∨
  (default aggregate (overflowMode options) = aggregate ∧
   n = otherFlowNode (kind n) (otherNodeLabel options)).
Proof.
  intros (row & Hrow & Hp)%list_elem_of_omap Hn.
  destruct (applyTopNodeLimit _ _ _ _) as [p'|] eqn:E; [|done]. injection Hp as <-.
  destruct (limit_nodes _ _ _ _ _ n E Hn) as [[Hin Ht]|?]; [left|by right].
  apply list_elem_of_fmap in Hin as (k & -> & Hk). destruct (builder_ok k row ctx) as [_ Hkind].
  exists row. by rewrite Hkind.
Qed.

Lemma isTop_topIds rows metric stages limit ctx n :
  NoDup stages → kind n ∈ stages →
  isTopFlowNode n (buildTopNodeSets rows metric stages (Some limit) ctx) = true ↔
  id n ∈ topIds limit (stageRank metric ctx (kind n) rows).
Proof.
  intros Hn Hk. destruct (topSets_stage rows metric stages limit ctx (kind n) Hn Hk) as (sets & -> & Hs).
  unfold isTopFlowNode. cbn. rewrite Hs. unfold set_has. by rewrite bool_decide_eq_true.
Qed.

(** Unless overflow is hidden, a row's node that ranks high enough is drawn. *)
Lemma top_drawn rows metric stages ctx options row k :
  overflowMode options ≠ Some hide_overflow → row ∈ rows → k ∈ stages →
  isTopFlowNode (NODE_BUILDERS k row ctx)
    (buildTopNodeSets rows metric stages (normalizeTopNodeLimit (topNodeLimit options)) ctx) = true →
  ∃ p, p ∈ preparePaths rows metric stages ctx options ∧ NODE_BUILDERS k row ctx ∈ path p.
Proof.
  intros Hm Hrow Hk Ht. unfold preparePaths. set (sets := buildTopNodeSets _ _ _ _ _) in *.
  assert (default aggregate (overflowMode options) = aggregate) as ->
    by (destruct (overflowMode options) as [[]|]; done).
  assert (NODE_BUILDERS k row ctx ∈ flowPathForStages row stages ctx) as Hin
    by (by apply (list_elem_of_fmap_2 (λ k, NODE_BUILDERS k row ctx))).
  assert (∃ p, applyTopNodeLimit (flowPathForStages row stages ctx) sets aggregate (otherNodeLabel options)
               = Some p ∧ NODE_BUILDERS k row ctx ∈ p) as (p & Hp & Hnp).
  { unfold applyTopNodeLimit. destruct sets as [s|]; [|eauto]. case_match; [eauto|].
    eexists. split; [done|]. apply list_elem_of_fmap. exists (NODE_BUILDERS k row ctx). by rewrite Ht. }
  exists (mkPrepared p (rowMetrics row)). split; [|done].
  apply list_elem_of_omap. exists row. by rewrite Hp.
Qed.

Lemma stageIds_top rows metric role palette vs ctx options limit k i :
  normalizeTopNodeLimit (topNodeLimit options) = Some limit →
  i ∈ stageIds k (buildFlowGraph rows metric role palette vs ctx options) →
  i ∈ topIds limit (stageRank metric ctx k rows) ∨
  default aggregate (overflowMode options) = aggregate ∧ i = OTHER_FLOW_NODE_IDS k.
Proof.
  intros Hlim Hi. destruct (stages_ok role vs) as [Hn _].
  apply stageIds_spec in Hi as (p & n & Hp & Hnp & <- & <-).
  destruct (prepared_nodes _ _ _ _ _ _ _ Hp Hnp) as [(row & _ & Hk & _ & Ht)|[Hm ->]]; [left|by right].
  rewrite Hlim in Ht. by apply isTop_topIds in Ht.
Qed.

Lemma length_topIds_sub limit st (l : list jsstring) :
  NoDup l → (∀ i, i ∈ l → i ∈ topIds limit st) → (length l <= limit)%nat.
Proof.
  intros Hn Hl. etransitivity; [|apply (length_topIds limit st)].
  by apply submseteq_length, NoDup_submseteq.
Qed.

(** With a limit on the nodes of a stage, a stage of the diagram has at most that
    many nodes besides "other" (with overflow hidden, at most that many altogether),
    and they are the ones that matter: no node that was folded away has a larger
    total than one that is shown. *)
Theorem flow_top_limit rows metric role palette vs ctx options limit k
    (Hk : k ∈ resolveVisibleStages role vs)
    (Hlim : normalizeTopNodeLimit (topNodeLimit options) = Some limit) :
  let ids := stageIds k (buildFlowGraph rows metric role palette vs ctx options) in
  NoDup ids ∧
  (length (filter (λ i, i ≠ OTHER_FLOW_NODE_IDS k) ids) <= limit)%nat ∧
  (overflowMode options = Some hide_overflow → (length ids <= limit)%nat) ∧
  (overflowMode options ≠ Some hide_overflow → ∀ i row,
     i ∈ ids → i ≠ OTHER_FLOW_NODE_IDS k → row ∈ rows → id (NODE_BUILDERS k row ctx) ∉ ids →
     nodeTotal metric ctx k rows (id (NODE_BUILDERS k row ctx)) <= nodeTotal metric ctx k rows i).
Proof.
  intros ids. destruct (stageIds_spec rows metric role palette vs ctx options k) as [Hn Hspec].
  fold ids in Hn, Hspec. destruct (stages_ok role vs) as [Hns _].
  pose proof (λ i, stageIds_top rows metric role palette vs ctx options limit k i Hlim) as Htop.
  fold ids in Htop. split_and!; [done| | |].
  - apply (length_topIds_sub limit (stageRank metric ctx k rows)); [by apply NoDup_filter|].
    intros i [Hne Hi]%list_elem_of_filter. by destruct (Htop i Hi) as [|[_ ?]].
  - intros Hm. apply (length_topIds_sub limit (stageRank metric ctx k rows)); [done|].
    intros i Hi. destruct (Htop i Hi) as [|[Ha _]]; [done|]. by rewrite Hm in Ha.
  - intros Hm i row Hi Hne Hrow Hout. destruct (Htop i Hi) as [Hti|[_ ?]]; [|done].
    eapply topIds_best; [exact Hti| |].
    + apply stageRank_spec. by exists row.
    + intros Hj. apply Hout, Hspec. destruct (builder_ok k row ctx) as [_ Hkind].
      destruct (top_drawn rows metric (resolveVisibleStages role vs) ctx options row k) as (p & Hp & Hnp);
        [done..| |by exists p, (NODE_BUILDERS k row ctx)].
      rewrite Hlim. apply isTop_topIds; rewrite ?Hkind; done.
Qed.
End top_limit.

(** ** A page *)
Module Sample.

(** A host that compares code units. *)
#[export] Instance host : FlowHost := {|
  localeCompare := str_cmp;
  formatNumber := show_Z;
  vchartDefaultDataScheme := [(Some 10, [Some (js "#1664FF"); Some (js "#1AC6FF")]); (None, [None; Some (js "#FF8A00")])];
|}.

#[export] Instance host_laws : LocaleLaws.
Proof.
  split; [|apply cmp_trans; apply _]. cbn [localeCompare host].
  induction x as [|x a IH]; intros [|y b]; cbn [str_cmp]; try lia.
  rewrite (N.eqb_sym y x). case_match; [apply IH|]. lia.
Qed.

Definition row (name : option jsstring) (model : jsstring) (used : Z) : FlowQuotaDataItem :=
  {| user_id := Some 7; username := name; node_name := None; use_group := Some (js "vip");
     token_id := None; token_name := Some (js "key"); channel_id := Some 3; channel_name := None;
     model_name := Some model; token_used := Some used; count := Some 1; row_quota := Some (2 * used) |}.

Definition rows : list FlowQuotaDataItem :=
  [row (Some (js "alice")) (js "gpt-4") 20; row None (js "claude") 30; row (Some (js "bob")) (js "gpt-4") 5;
   row None (js "llama") 4].

(** At most one node a stage, the others folded together. *)
Definition options (mask : bool) : FlowGraphOptions :=
  mkGraphOptions (Some 1) None None (Some (mkFilter KModel (js "model:claude"))) None mask.

Definition graph (mask : bool) : DashboardFlowGraph :=
  buildFlowGraph rows tokens role_admin None None None (options mask).

Lemma flow_conserves_witness :
  Zsum (n_value <$> filter (λ x, n_kind x = KModel) (nodes (graph false))) = 59.
Proof.
  unfold graph. rewrite (flow_conserves rows tokens role_admin None None None (options false) KModel).
  - vm_compute. reflexivity.
  - apply (bool_decide_unpack _). vm_compute. exact I.
  - discriminate.
Defined.

Lemma flow_shares_witness :
  Zsum (leaving KUser <$> links (graph false)) = 59.
Proof.
  refine (proj1 (flow_shares rows tokens role_admin None None None (options false) _) KUser _).
  - discriminate.
  - vm_compute. reflexivity.
Defined.

(** The model kept is the one used most, and "other" is beside it. *)
Lemma flow_top_limit_witness :
  stageIds KModel (graph false) = [js "model:claude"; js "model:__other__"] ∧
  nodeTotal tokens None KModel rows (js "model:gpt-4") <= nodeTotal tokens None KModel rows (js "model:claude").
Proof.
  assert (stageIds KModel (graph false) = [js "model:claude"; js "model:__other__"]) as E
    by (vm_compute; reflexivity).
  split; [exact E|].
  pose proof (flow_top_limit rows tokens role_admin None None None (options false) 1 KModel
    ltac:(apply (bool_decide_unpack _); vm_compute; exact I) eq_refl) as Htop.
  cbn zeta in Htop. fold (graph false) in Htop. rewrite E in Htop.
  destruct Htop as (_ & _ & _ & Hbest).
  apply (Hbest ltac:(discriminate) (js "model:claude") (row (Some (js "bob")) (js "gpt-4") 5)).
  - apply (bool_decide_unpack _). vm_compute. exact I.
  - apply (bool_decide_unpack _). vm_compute. exact I.
  - unfold rows. right. right. left.
  - apply (bool_decide_unpack _). vm_compute. exact I.
Defined.
End Sample.
