(* ===== verification/FlowViews.v ===== *)
(** Properties of what the flow page shows of the graph of Flow.v: masking hides the
    labels it should and changes nothing else, highlighting marks exactly the paths
    through the selection, and the filters keep exactly the rows they should. *)
From S2P Require Import Prelude JsString JsValue Json Flow FlowFacts.
Open Scope Z_scope.

(** ** Masking *)
Section masking.
Context `{FlowHost}.

(** A node, and a link, without its labels. *)
Definition bareNode (x : DashboardFlowNode) : DashboardFlowNode :=
  mkNode (n_id x) [] (n_kind x) (n_value x) (n_requests x) (n_quota x) (n_tokens x)
    (n_color x) (n_colorKey x) (n_highlighted x) (n_dimmed x).
Definition bareLink (l : DashboardFlowLink) : DashboardFlowLink :=
  mkLink (l_source l) (l_target l) (l_value l) (l_requests l) (l_quota l) (l_tokens l) [] []
    (l_color l) (linkColor l) (linkAlpha l) (hoverColor l) (l_colorKey l) (share l)
    (l_highlighted l) (l_dimmed l).

Definition unmasked (options : FlowGraphOptions) : FlowGraphOptions :=
  mkGraphOptions (topNodeLimit options) (overflowMode options) (otherNodeLabel options)
    (activeNode options) (activeLink options) false.

Lemma bare_setDisplayColor i c l :
  bareLink (setDisplayColor i c l) = setDisplayColor i c (bareLink l).
Proof. unfold setDisplayColor. simpl. by destruct (alphaColor _ _). Qed.

Lemma bare_assign ls : bareLink <$> assignLinkDisplayColors ls = assignLinkDisplayColors (bareLink <$> ls).
Proof.
  unfold assignLinkDisplayColors. rewrite <- !list_fmap_compose. apply list_fmap_ext.
  intros _ l _. unfold compose. rewrite bare_setDisplayColor. simpl.
  rewrite (filter_map bareLink), (js_sort_map cmpLinkValue) by done.
  rewrite length_fmap, <- list_fmap_compose, length_fmap. done.
Qed.

Lemma bare_maps options stages ps metric color :
  let '(ns, ls) := finish_maps options stages ps metric color in
  let '(ns0, ls0) := finish_maps (unmasked options) stages ps metric color in
  bareNode <$> jvalues ns = bareNode <$> jvalues ns0 ∧ bareLink <$> jvalues ls = bareLink <$> jvalues ls0.
Proof.
  unfold finish_maps. cbn [maskSensitive unmasked activeNode activeLink].
  destruct (maskSensitive options); [|by destruct (applyFlowHighlights _ _ _)].
  unfold applyFlowHighlights, maskFlowGraphLabels. destruct (buildFlowHighlightSets _ _ _ _) as [hs|];
    rewrite !jvalues_on_values, <- !list_fmap_compose; split; apply list_fmap_ext; intros _ x _;
    unfold compose, maskNode; try done; by case_match.
Qed.

Lemma linkTotal_bare ps ls : linkTotal ps (bareLink <$> ls) = linkTotal ps ls.
Proof. unfold linkTotal. by rewrite filter_map, <- list_fmap_compose. Qed.

(** Nodes and links of the masked graph are those of the graph, but for labels. *)
Lemma mask_only_labels rows metric role palette vs ctx options :
  let g := buildFlowGraph rows metric role palette vs ctx options in
  let g0 := buildFlowGraph rows metric role palette vs ctx (unmasked options) in
  bareNode <$> nodes g ≡ₚ bareNode <$> nodes g0 ∧ bareLink <$> links g = bareLink <$> links g0.
Proof.
  unfold buildFlowGraph. cbn zeta.
  change (preparePaths rows metric (resolveVisibleStages role vs) ctx (unmasked options))
    with (preparePaths rows metric (resolveVisibleStages role vs) ctx options).
  set (stages := resolveVisibleStages role vs). set (ps := preparePaths _ _ _ _ _).
  set (color := λ root, default _ _). pose proof (bare_maps options stages ps metric color) as Hb.
  unfold finish_maps in Hb. cbn zeta in Hb.
  destruct (if maskSensitive options then _ else _) as [ns1 ls1].
  destruct (if maskSensitive (unmasked options) then _ else _) as [ns2 ls2].
  cbn [activeNode activeLink unmasked] in *.
  destruct (applyFlowHighlights ns1 ls1 _) as [ns ls], (applyFlowHighlights ns2 ls2 _) as [ns0 ls0].
  destruct Hb as [Hn Hl]. cbn [nodes links]. split; [by rewrite !js_sort_perm, Hn|].
  assert (bareLink <$> js_sort bySourceThenTarget (jvalues ls) =
          bareLink <$> js_sort bySourceThenTarget (jvalues ls0)) as Hs.
  { rewrite <- !(js_sort_map bySourceThenTarget bySourceThenTarget bareLink) by done. by rewrite Hl. }
  rewrite !bare_assign, <- !list_fmap_compose. f_equal.
  rewrite <- (linkTotal_bare ps (js_sort _ (jvalues ls))), <- (linkTotal_bare ps (js_sort _ (jvalues ls0))), Hs.
  set (t := linkTotal _ _). change (bareLink ∘ setShare t) with (setShare t ∘ bareLink).
  rewrite !list_fmap_compose. by rewrite Hs.
Qed.
End masking.

Section masked_labels.
Context `{FlowHost}.

(** What a masked label may be. *)
Definition hidden (l : jsstring) : Prop := l = [] ∨ l = FLOW_MASK_TEXT.

Lemma mask_hidden l : hidden (maskFlowLabel l).
Proof. destruct l; [by left|by right]. Qed.

(** The table of masked labels covers exactly the masked nodes. *)
Lemma maskedById_hidden (xs : list DashboardFlowNode) i l :
  jget i (foldl (λ m n, if is_masked n then jset (n_id n) (maskFlowLabel (n_label n)) m else m) [] xs)
    = Some l → hidden l.
Proof.
  induction xs as [|x xs IH] using rev_ind; [done|]. rewrite foldl_app. cbn [foldl].
  destruct (is_masked x); [|done]. rewrite jget_jset. case_decide; [|done]. intros [= <-]. apply mask_hidden.
Qed.

Lemma maskedById_covers (xs : list DashboardFlowNode) x :
  x ∈ xs → is_masked x = true →
  is_Some (jget (n_id x)
    (foldl (λ m n, if is_masked n then jset (n_id n) (maskFlowLabel (n_label n)) m else m) [] xs)).
Proof.
  induction xs as [|y xs IH] using rev_ind; [by intros ?%elem_of_nil|]. rewrite foldl_app. cbn [foldl].
  intros [Hx| ->%list_elem_of_singleton]%elem_of_app Hm.
  - destruct (is_masked y); [|by apply IH]. rewrite jget_jset. case_decide; [done|by apply IH].
  - rewrite Hm, jget_jset_eq. done.
Qed.

(** Links join nodes of the graph. *)
Lemma addLinks_ends (ss : list (FlowPathNode * FlowPathNode)) m mm metric c ck (P : DashboardFlowLink → Prop) :
  (∀ s t l, (s, t) ∈ ss → l_source l = id s → l_target l = id t → P l) →
  (∀ l l', l_source l = l_source l' → l_target l = l_target l' → P l → P l') →
  Forall P (jvalues m) → Forall P (jvalues (foldl (λ m '(s, t), addLink m s t mm metric c ck) m ss)).
Proof.
  intros Hss Hp. revert m Hss. induction ss as [|[s t] ss IH]; intros m Hss Hm; [done|]. cbn [foldl].
  apply IH; [intros; eapply Hss; eauto; by right|]. unfold addLink.
  set (key := link_key _ _). apply Forall_forall. intros l ([key' l'] & -> & Hin)%list_elem_of_fmap.
  assert (Hj : ∀ v, (key', l') ∈ jset key v m → l' = v ∨ (key', l') ∈ m).
  { clear. intros v. induction m as [|[k1 v1] m IH]; cbn [jset].
    - intros [= _ ->]%list_elem_of_singleton. by left.
    - case_decide; intros [E|E]%elem_of_cons; [injection E; by left|right; by right
        |injection E as -> ->; right; by left|]. destruct (IH E) as [->|]; [by left|right; by right]. }
  apply Hj in Hin as [->|Hin]; cbn [snd].
  - destruct (jget key m) as [y|] eqn:Ey; [|by apply (Hss s t); [left|..]].
    apply (Hp y); [done..|]. rewrite Forall_forall in Hm. apply Hm.
    apply jget_elem_of in Ey. by apply (list_elem_of_fmap_2 snd) in Ey.
  - rewrite Forall_forall in Hm. apply Hm. by apply (list_elem_of_fmap_2 snd) in Hin.
Qed.

Lemma steps_targets ns st : st ∈ steps ns → st.2 ∈ ns.
Proof.
  induction ns as [|a ns IH]; [by intros ?%elem_of_nil|]. destruct ns as [|b ns]; [by intros ?%elem_of_nil|].
  cbn [steps]. intros [->|Hin]%elem_of_cons; right; [by left|by apply IH].
Qed.

Lemma link_ends ps metric color :
  let ids := jkeys (accumulateNodes ps metric color) in
  Forall (λ l, l_source l ∈ ids ∧ l_target l ∈ ids) (jvalues (accumulateLinks ps metric color)).
Proof.
  cbn zeta. eapply Forall_impl with (P := λ l, ∃ p st, p ∈ ps ∧ st ∈ steps (path p) ∧
    l_source l = id st.1 ∧ l_target l = id st.2).
  - induction ps as [|p ps IH] using rev_ind; [constructor|]. rewrite accumulateLinks_snoc.
    assert (Forall (λ l, ∃ q st, q ∈ ps ++ [p] ∧ st ∈ steps (path q) ∧ l_source l = id st.1 ∧
      l_target l = id st.2) (jvalues (accumulateLinks ps metric color))) as IH'.
    { eapply Forall_impl; [exact IH|]. intros l (q & st & Hq & ?). exists q, st. set_solver. }
    destruct (head (path p)); [|done]. apply addLinks_ends; [| |done].
    + intros s t l Hst Hs Ht. exists p, (s, t). set_solver.
    + intros l l' -> ->. done.
  - intros l (p & st & Hp & Hst & -> & ->). rewrite !jkeys_accumulateNodes.
    split; [exists p, st.1|exists p, st.2]; eauto using steps_sources, steps_targets.
Qed.

Lemma masked_end ns k i d :
  nodes_ok ns → i ∈ jkeys ns → kinded k i → k ∈ SENSITIVE_FLOW_KINDS → i ∉ OTHER_FLOW_NODE_ID_SET →
  hidden (default d (jget i (foldl (λ m n,
    if is_masked n then jset (n_id n) (maskFlowLabel (n_label n)) m else m) [] (jvalues ns)))).
Proof.
  intros Hok Hi Hk Hs Ho. apply jget_is_Some in Hi as [x Hx].
  destruct (proj2 Hok i x Hx) as [<- Hkx]. rewrite (kinded_unique _ _ _ Hk Hkx) in Hs.
  assert (is_masked x = true) as Hm.
  { unfold is_masked. apply andb_true_iff. split; [by apply bool_decide_eq_true|].
    apply negb_true_iff. by apply set_has_false. }
  apply jget_elem_of, (list_elem_of_fmap_2 snd) in Hx.
  destruct (maskedById_covers (jvalues ns) x Hx Hm) as [l Hl]. rewrite Hl.
  by apply maskedById_hidden in Hl.
Qed.
End masked_labels.

Section mask_claim.
Context `{FlowHost}.

(** An id that tells it is of a sensitive kind, and stands for one user, node, token,
    group or channel. *)
Definition sensitive (i : jsstring) : Prop :=
  (∃ k, k ∈ SENSITIVE_FLOW_KINDS ∧ kinded k i) ∧ i ∉ OTHER_FLOW_NODE_ID_SET.

(** The maps after masking and highlighting hide the labels of sensitive ids. *)
Lemma masked_nodes ns ls hs :
  nodes_ok ns →
  Forall (λ x, sensitive (n_id x) → hidden (n_label x))
    (jvalues (applyFlowHighlights (maskFlowGraphLabels ns ls).1 (maskFlowGraphLabels ns ls).2 hs).1).
Proof.
  intros Hok.
  assert (Forall (λ x, sensitive (n_id x) → hidden (n_label x)) (maskNode <$> jvalues ns)) as Hm.
  { apply Forall_fmap, Forall_forall. intros x (key & Hx)%elem_of_jvalues; [|apply Hok]. cbn.
    destruct (proj2 Hok key x Hx) as [<- Hk]. unfold maskNode.
    destruct (is_masked x) eqn:E; cbn [n_id n_label]; [intros _; apply mask_hidden|].
    intros [(k & Hs & Hkk) Ho]. exfalso. rewrite (kinded_unique _ _ _ Hkk Hk) in Hs.
    unfold is_masked in E. apply andb_false_iff in E as [E|E].
    - by apply bool_decide_eq_false in E.
    - apply negb_false_iff, set_has_spec in E. done. }
  unfold maskFlowGraphLabels, applyFlowHighlights. destruct hs; cbn [fst snd];
    rewrite !jvalues_on_values; [by apply Forall_fmap|done].
Qed.

Lemma masked_links ps metric color hs :
  let ns := accumulateNodes ps metric color in
  let ls := accumulateLinks ps metric color in
  nodes_ok ns →
  Forall (λ l, (sensitive (l_source l) → hidden (sourceLabel l)) ∧
               (sensitive (l_target l) → hidden (targetLabel l)))
    (jvalues (applyFlowHighlights (maskFlowGraphLabels ns ls).1 (maskFlowGraphLabels ns ls).2 hs).2).
Proof.
  intros ns ls Hok. pose proof (link_ends ps metric color) as Hends. cbn zeta in Hends. fold ns ls in Hends.
  set (masked := foldl (λ m n, if is_masked n then jset (n_id n) (maskFlowLabel (n_label n)) m else m)
                   [] (jvalues ns)).
  assert (Forall (λ l, (sensitive (l_source l) → hidden (sourceLabel l)) ∧
               (sensitive (l_target l) → hidden (targetLabel l))) (maskLink masked <$> jvalues ls)) as Hm.
  { apply Forall_fmap. eapply Forall_impl; [exact Hends|]. intros l [Hs Ht].
    split; intros [(k & Hk & Hkk) Ho]; cbn; by apply (masked_end ns k). }
  unfold maskFlowGraphLabels, applyFlowHighlights. destruct hs; cbn [fst snd];
    rewrite !jvalues_on_values; [by apply Forall_fmap|done].
Qed.

(** With sensitive data masked, no user, node, token, group or channel of the
    diagram shows its name, on its node or at an end of a link (the label is the
    mask, or empty if it was); and the mask hides labels only: every id, value,
    colour, share and highlight is that of the unmasked diagram. *)
Theorem flow_masks rows metric role palette vs ctx options (Hmask : maskSensitive options = true) :
  let g := buildFlowGraph rows metric role palette vs ctx options in
  let g0 := buildFlowGraph rows metric role palette vs ctx (unmasked options) in
  Forall (λ x, sensitive (n_id x) → hidden (n_label x)) (nodes g) ∧
  Forall (λ l, (sensitive (l_source l) → hidden (sourceLabel l)) ∧
               (sensitive (l_target l) → hidden (targetLabel l))) (links g) ∧
  bareNode <$> nodes g ≡ₚ bareNode <$> nodes g0 ∧ bareLink <$> links g = bareLink <$> links g0.
Proof.
  intros g g0. apply Logic.and_assoc. split; [|apply mask_only_labels].
  destruct (buildFlowGraph_maps rows metric role palette vs ctx options) as [color Hg].
  destruct (stages_ok role vs) as [Hn Hlen]. set (stages := resolveVisibleStages role vs) in *.
  set (ps := preparePaths rows metric stages ctx options) in *.
  assert (nodes_ok (accumulateNodes ps metric color)) as Hok.
  { apply accumulate_ok; [done|]. intros E. rewrite E in Hlen. simpl in Hlen. lia. }
  unfold finish_maps in Hg. rewrite Hmask in Hg. cbn zeta in Hg.
  pose proof (masked_nodes _ (accumulateLinks ps metric color)
    (buildFlowHighlightSets ps (activeNode options) (activeLink options) stages) Hok) as Hnodes.
  pose proof (masked_links ps metric color
    (buildFlowHighlightSets ps (activeNode options) (activeLink options) stages) Hok) as Hlinks.
  destruct (maskFlowGraphLabels _ _) as [ns1 ls1]. cbn [fst snd] in *.
  destruct (applyFlowHighlights _ _ _) as [ns ls]. cbn [fst snd] in *.
  unfold g. rewrite Hg. cbn [nodes links]. split; [by rewrite js_sort_perm|].
  set (P := λ x : jsstring * jsstring * jsstring * jsstring,
    (sensitive x.1.1.1 → hidden x.1.2) ∧ (sensitive x.1.1.2 → hidden x.2)).
  set (f := λ l, (l_source l, l_target l, sourceLabel l, targetLabel l)).
  match goal with |- Forall _ ?ll => assert (Forall P (f <$> ll)) as HP; [|by apply Forall_fmap in HP] end.
  rewrite assign_keeps by (intros; unfold setDisplayColor; by case_match).
  set (t := linkTotal _ _). rewrite <- list_fmap_compose. change (f ∘ setShare t) with f.
  apply Forall_fmap. by rewrite js_sort_perm.
Qed.
End mask_claim.

(** ** The filters *)
Section filters.
Context `{FlowHost}.

(** The ids selected of a kind. *)
Definition selectedIds (selected : list FlowNodeFilter) (k : FlowNodeKind) : list jsstring :=
  f_id <$> filter (λ f, f_kind f = k) selected.

(** A row passes when, in every stage where something is selected, its node is. *)
Definition passes (selected : list FlowNodeFilter) (stages : list FlowNodeKind) (ctx : FlowPathContext)
    (row : FlowQuotaDataItem) : Prop :=
  Forall (λ k, selectedIds selected k = [] ∨ id (NODE_BUILDERS k row ctx) ∈ selectedIds selected k) stages.
#[export] Instance passes_dec selected stages ctx row : Decision (passes selected stages ctx row).
Proof. unfold passes. apply _. Defined.

Lemma selectedIds_snoc selected f k :
  selectedIds (selected ++ [f]) k =
  selectedIds selected k ++ if decide (f_kind f = k) then [f_id f] else [].
Proof. unfold selectedIds. rewrite filter_app, fmap_app, filter_cons, filter_nil. by case_decide. Qed.

(** The filters are the selected ids of the stages, as sets. *)
Lemma normalize_spec selected stages :
  let m := normalizeSelectedNodeFilters selected stages in
  NoDup (jkeys m) ∧ ∀ k,
    match jget k m with
    | None => k ∈ stages → selectedIds selected k = []
    | Some ids => k ∈ stages ∧ selectedIds selected k ≠ [] ∧ ∀ i, i ∈ ids ↔ i ∈ selectedIds selected k
    end.
Proof.
  cbn zeta. induction selected as [|f selected [Hn IH]] using rev_ind; [by split; [apply NoDup_nil|]|].
  unfold normalizeSelectedNodeFilters. rewrite foldl_app. cbn [foldl].
  fold (normalizeSelectedNodeFilters selected stages). set (m := normalizeSelectedNodeFilters _ _) in *.
  case_bool_decide as Hf; (split; [first [by apply NoDup_jset|done]|]); intros k; rewrite selectedIds_snoc.
  - rewrite jget_jset. specialize (IH k). case_decide as E; [subst k|by rewrite app_nil_r].
    split_and!; [done|by destruct (selectedIds selected (f_kind f))|].
    intros i. rewrite elem_of_set_add, elem_of_app, list_elem_of_singleton.
    destruct (jget (f_kind f) m) as [ids|]; cbn.
    + destruct IH as (_ & _ & Hi). unfold Datatypes.id. rewrite Hi. tauto.
    + rewrite (IH Hf), elem_of_nil. tauto.
  - specialize (IH k). case_decide as E; [|by rewrite app_nil_r]. subst k.
    destruct (jget (f_kind f) m); [by destruct IH|done].
Qed.

(** The ids of a path's nodes of a kind. *)
Lemma pathNodes_spec p k :
  match jget k (pathNodesByKind p) with
  | None => k ∉ kind <$> p
  | Some ids => ∀ i, i ∈ ids ↔ ∃ n, n ∈ p ∧ kind n = k ∧ id n = i
  end.
Proof.
  unfold pathNodesByKind. induction p as [|n p IH] using rev_ind; [by intros ?%elem_of_nil|].
  rewrite foldl_app. cbn [foldl]. set (m := foldl _ [] p) in *. rewrite jget_jset.
  case_decide as E.
  - subst k. intros i. rewrite elem_of_set_add. setoid_rewrite elem_of_app.
    setoid_rewrite list_elem_of_singleton. destruct (jget (kind n) m) as [ids|]; cbn.
    + unfold Datatypes.id. rewrite IH. naive_solver.
    + rewrite elem_of_nil. split; [naive_solver|]. intros (n' & [Hn'| ->] & Hk & <-); [|by left].
      destruct IH. rewrite <- Hk. by apply list_elem_of_fmap_2.
  - destruct (jget k m) as [ids|].
    + intros i. rewrite IH. setoid_rewrite elem_of_app. setoid_rewrite list_elem_of_singleton. naive_solver.
    + rewrite fmap_app, elem_of_app. cbn. set_solver.
Qed.

Lemma path_of_kind row stages ctx k i :
  k ∈ stages →
  (∃ n, n ∈ flowPathForStages row stages ctx ∧ kind n = k ∧ id n = i) ↔ i = id (NODE_BUILDERS k row ctx).
Proof.
  intros Hk. unfold flowPathForStages. split.
  - intros (n & (k' & -> & Hk')%list_elem_of_fmap & Hkn & <-).
    destruct (builder_ok k' row ctx) as [_ Hkind]. by rewrite <- Hkn, Hkind.
  - intros ->. exists (NODE_BUILDERS k row ctx). destruct (builder_ok k row ctx) as [_ Hkind].
    split_and!; [|done..]. by apply (list_elem_of_fmap_2 (λ k, NODE_BUILDERS k row ctx)).
Qed.

Lemma matches_spec selected stages ctx row :
  pathMatchesNodeFilters (flowPathForStages row stages ctx) (normalizeSelectedNodeFilters selected stages)
    = true ↔ passes selected stages ctx row.
Proof.
  destruct (normalize_spec selected stages) as [Hn Hm]. set (m := normalizeSelectedNodeFilters _ _) in *.
  unfold pathMatchesNodeFilters, passes. rewrite forallb_forall, Forall_forall.
  assert (∀ k ids, k ∈ stages →
    match jget k (pathNodesByKind (flowPathForStages row stages ctx)) with
    | None => false | Some pathIds => existsb (λ i, set_has i pathIds) ids end = true
    ↔ id (NODE_BUILDERS k row ctx) ∈ ids) as Hone.
  { intros k ids Hk. pose proof (pathNodes_spec (flowPathForStages row stages ctx) k) as Hp.
    destruct (jget k _) as [pathIds|].
    - rewrite existsb_exists. setoid_rewrite set_has_spec. setoid_rewrite Hp.
      setoid_rewrite (path_of_kind row stages ctx k) at 1; [|done].
      setoid_rewrite <- list_elem_of_In. naive_solver.
    - destruct Hp. destruct (flowPath_ok row stages ctx) as [-> _]. done. }
  split.
  - intros Hall k Hk. specialize (Hm k). destruct (jget k m) as [ids|] eqn:E; [|left; by apply Hm].
    destruct Hm as (_ & _ & Hi). right. apply Hi.
    apply jget_elem_of, list_elem_of_In, Hall in E. by apply Hone in E.
  - intros Hall [k ids] Hin%list_elem_of_In. specialize (Hm k).
    rewrite (elem_of_jget k ids m Hn Hin) in Hm. destruct Hm as (Hk & Hne & Hi).
    apply Hone; [done|]. apply Hi. by destruct (Hall k Hk).
Qed.
End filters.

Section filter_claims.
Context `{FlowHost}.

Lemma filterRowsByNodes_spec rows selected stages ctx :
  filterRowsByNodes rows selected stages ctx = filter (passes selected stages ctx) rows.
Proof.
  unfold filterRowsByNodes.
  assert (∀ m, m = normalizeSelectedNodeFilters selected stages →
    filter (λ row, pathMatchesNodeFilters (flowPathForStages row stages ctx) m = true) rows
    = filter (passes selected stages ctx) rows) as Hf.
  { intros m ->. apply list_filter_iff. intros row. apply matches_spec. }
  destruct (normalizeSelectedNodeFilters selected stages) eqn:E; [|by apply Hf].
  rewrite <- (Hf [] eq_refl), filter_all; [done|]. by apply Forall_forall.
Qed.

(** The rows of the selected users. *)
Definition ofUsers (selectedUsers : list jsstring) (row : FlowQuotaDataItem) : Prop :=
  selectedUsers = [] ∨ id (userNode row) ∈ selectedUsers.
#[export] Instance ofUsers_dec us row : Decision (ofUsers us row).
Proof. unfold ofUsers. apply _. Defined.

Lemma filterRows_spec rows us : filterRows rows us = filter (ofUsers us) rows.
Proof.
  unfold filterRows, ofUsers. destruct us as [|u us].
  - rewrite filter_all; [done|]. apply Forall_forall. by left.
  - apply list_filter_iff. intros row. split; [by right|]. by intros [?|?].
Qed.

(** The page's filters select exactly the rows they say: the summary and the
    diagram are those of the rows of the selected users (of all, when none is
    selected) whose node is selected in every visible stage where a node is. *)
Theorem flow_filters rows metric options :
  let role := default role_user (b_role options) in
  let vs := b_visibleStages options in
  let ctx := b_deletedTokenLabel options in
  let kept := filter (λ row, ofUsers (b_selectedUsers options) row ∧
                passes (b_selectedNodes options) (resolveVisibleStages role vs) ctx row) rows in
  let data := buildDashboardFlowData rows metric options in
  summary data = buildSummary kept ∧
  flow data = buildFlowGraph kept metric role (b_colorPalette options) vs ctx (b_graph options).
Proof.
  intros role vs ctx kept data.
  assert (filterRowsByNodes (filterRows rows (b_selectedUsers options)) (b_selectedNodes options)
            (resolveVisibleStages role vs) ctx = kept) as E.
  { rewrite filterRowsByNodes_spec, filterRows_spec. unfold kept. rewrite list_filter_filter.
    apply list_filter_iff. tauto. }
  unfold data, buildDashboardFlowData. cbn [summary flow]. fold role vs ctx. by rewrite E.
Qed.

(** The options of a stage are its rank table, under the options' keys. *)
Definition optionKey (k : FlowNodeKind) (i : jsstring) : jsstring := nodeFilterKey (mkFilter k i).

Lemma jget_rekey {V} (h : jsstring → jsstring) `{!Inj (=) (=) h} i (m : list (jsstring * V)) :
  jget (h i) (prod_map h (λ v, v) <$> m) = jget i m.
Proof.
  induction m as [|[j v] m IH]; [done|].
  rewrite fmap_cons. cbn [jget prod_map fst snd]. rewrite IH. destruct (decide (i = j)) as [->|Hne]; [by rewrite decide_True|].
  by rewrite decide_False by (intros ?%(inj h); done).
Qed.

Lemma jset_rekey {V} (h : jsstring → jsstring) `{!Inj (=) (=) h} i v (m : list (jsstring * V)) :
  jset (h i) v (prod_map h (λ v, v) <$> m) = prod_map h (λ v, v) <$> jset i v m.
Proof.
  induction m as [|[j w] m IH]; [done|].
  rewrite fmap_cons. cbn [jset prod_map fst snd]. destruct (decide (i = j)) as [->|Hne]; [by rewrite decide_True|].
  rewrite decide_False by (intros ?%(inj h); done). by rewrite fmap_cons, IH.
Qed.

#[local] Instance optionKey_inj k : Inj (=) (=) (optionKey k).
Proof. intros i j E. unfold optionKey, nodeFilterKey in E. simpl in E. by apply app_inv_head in E as [= ->]. Qed.

Lemma stageOptions_rank rows metric stages ctx selected k :
  stageOptions rows metric stages ctx selected k =
  prod_map (optionKey k) (λ v, v) <$> stageRank metric ctx k
    (filter (passes (selectedNodeFiltersExceptKind selected k) stages ctx) rows).
Proof.
  unfold stageOptions. rewrite filterRowsByNodes_spec. set (kept := filter _ rows). clearbody kept.
  unfold stageRank. induction kept as [|row kept IH] using rev_ind; [done|].
  rewrite !foldl_app. cbn [foldl]. rewrite IH. unfold addRow.
  destruct (builder_ok k row ctx) as [_ Hk]. rewrite Hk.
  fold (optionKey k (id (NODE_BUILDERS k row ctx))). by rewrite (jget_rekey (optionKey k)), (jset_rekey (optionKey k)).
Qed.

Lemma stageRank_kind metric ctx k rows i r :
  jget i (stageRank metric ctx k rows) = Some r → kind (rank_node r) = k.
Proof.
  revert i r. unfold stageRank. induction rows as [|row rows IH] using rev_ind; [done|]. intros i r.
  rewrite foldl_app. cbn [foldl]. unfold addRow at 1. rewrite jget_jset. case_decide; [|apply IH].
  intros [= <-]. cbn [rank_node]. destruct (jget _ _) as [c|] eqn:Ec; [by apply IH in Ec|apply builder_ok].
Qed.

(** A row that passes the filters of the stages other than [k]. *)
Definition passesElsewhere (selected : list FlowNodeFilter) (stages : list FlowNodeKind)
    (ctx : FlowPathContext) (k : FlowNodeKind) (row : FlowQuotaDataItem) : Prop :=
  Forall (λ k', k' = k ∨ selectedIds selected k' = [] ∨
            id (NODE_BUILDERS k' row ctx) ∈ selectedIds selected k') stages.
#[export] Instance passesElsewhere_dec selected stages ctx k row :
  Decision (passesElsewhere selected stages ctx k row).
Proof. unfold passesElsewhere. apply _. Defined.

Lemma passes_except selected stages ctx k row :
  passes (selectedNodeFiltersExceptKind selected k) stages ctx row ↔
  passesElsewhere selected stages ctx k row.
Proof.
  assert (∀ k', selectedIds (selectedNodeFiltersExceptKind selected k) k' =
                if decide (k' = k) then [] else selectedIds selected k') as E.
  { intros k'. unfold selectedIds, selectedNodeFiltersExceptKind.
    rewrite list_filter_filter. case_decide as Ek.
    - induction selected as [|f selected IH]; [done|]. rewrite filter_cons.
      rewrite decide_False by (intros [? ?]; congruence). done.
    - f_equal. apply list_filter_iff. intros f. split; [tauto|]. intros ?. split; [done|]. congruence. }
  unfold passes, passesElsewhere. apply Forall_iff. intros k'. rewrite E. case_decide; naive_solver.
Qed.
End filter_claims.

Section options.
Context `{FlowHost}.

(** The rows an option of the stage [k] is computed from. *)
Definition optionRows (rows : list FlowQuotaDataItem) (options : FlowBuildOptions)
    (k : FlowNodeKind) : list FlowQuotaDataItem :=
  let stages := resolveVisibleStages (default role_user (b_role options)) (b_visibleStages options) in
  filter (λ row, ofUsers (b_selectedUsers options) row ∧
            passesElsewhere (b_selectedNodes options) stages (b_deletedTokenLabel options) k row) rows.

Definition optionId (o : FlowNodeFilterOption) : FlowNodeKind * jsstring := (no_kind o, no_value o).

Lemma fmap_concat {X Y W} (h : Y → W) (f : X → list Y) (g : X → list W) (l : list X) :
  (∀ x, h <$> f x = g x) → h <$> concat (f <$> l) = l ≫= g.
Proof.
  intros Hfg. induction l as [|x l IH]; [done|]. rewrite fmap_cons. cbn [concat].
  by rewrite fmap_app, IH, bind_cons, Hfg.
Qed.

Lemma fmap_bind_ext {X Y W} (h : Y → W) (f : X → list Y) (g : X → list W) (l : list X) :
  (∀ x, h <$> f x = g x) → h <$> (l ≫= f) = l ≫= g.
Proof. intros Hfg. induction l as [|x l IH]; [done|]. by rewrite !bind_cons, fmap_app, IH, Hfg. Qed.

(** The kind, id and total of each option. *)
Lemma options_perm rows metric options :
  let stages := resolveVisibleStages (default role_user (b_role options)) (b_visibleStages options) in
  (λ o, (optionId o, no_valueRaw o)) <$> filterNodes (buildDashboardFlowData rows metric options) ≡ₚ
  stages ≫= λ k, (λ r, ((k, id (rank_node r)), rank_value r)) <$>
    jvalues (stageRank metric (b_deletedTokenLabel options) k (optionRows rows options k)).
Proof.
  intros stages. unfold buildDashboardFlowData, buildNodeFilterOptions. cbn [filterNodes]. fold stages.
  set (ctx := b_deletedTokenLabel options). rewrite js_sort_perm. set (option_of := λ rank, mkNodeOption _ _ _ _ _ _).
  apply reflexive_eq, fmap_concat. intros k.
  rewrite stageOptions_rank. unfold optionRows. fold stages ctx. rewrite filterRows_spec, list_filter_filter.
  rewrite (list_filter_iff _ (λ row, ofUsers (b_selectedUsers options) row ∧
            passesElsewhere (b_selectedNodes options) stages ctx k row));
    [|intros row; rewrite passes_except; tauto].
  set (kept := filter _ rows). unfold jvalues. rewrite <- !list_fmap_compose. apply list_fmap_ext.
  intros j [i r] Hr%list_elem_of_lookup_2. destruct (stageRank_spec metric ctx k kept) as [Hn _].
  apply (elem_of_jget i r _ Hn) in Hr. unfold compose. cbn. unfold optionId. cbn.
  by rewrite (stageRank_kind _ _ _ _ _ _ Hr).
Qed.

Lemma rank_ids metric ctx k rows :
  (λ r, id (rank_node r)) <$> jvalues (stageRank metric ctx k rows) = jkeys (stageRank metric ctx k rows).
Proof.
  destruct (stageRank_spec metric ctx k rows) as (Hn & Hr & _). unfold jvalues, jkeys.
  rewrite <- list_fmap_compose. apply list_fmap_ext. intros j [i r] Hin%list_elem_of_lookup_2. cbn.
  apply (Hr i r). by apply elem_of_jget.
Qed.

(** The options the page offers for a stage are faceted: there is exactly one for
    each node met by the rows that pass the user filter and the filters of the other
    stages, whatever is selected in its own stage, and it carries those rows' total. *)
Theorem flow_options rows metric options :
  let stages := resolveVisibleStages (default role_user (b_role options)) (b_visibleStages options) in
  let ctx := b_deletedTokenLabel options in
  let offered := filterNodes (buildDashboardFlowData rows metric options) in
  NoDup (optionId <$> offered) ∧
  Forall (λ o, no_valueRaw o =
    nodeTotal metric ctx (no_kind o) (optionRows rows options (no_kind o)) (no_value o)) offered ∧
  ∀ k i, (k, i) ∈ optionId <$> offered ↔
    k ∈ stages ∧ ∃ row, row ∈ optionRows rows options k ∧ id (NODE_BUILDERS k row ctx) = i.
Proof.
  intros stages ctx offered. pose proof (options_perm rows metric options) as Hp.
  cbn zeta in Hp. fold stages ctx offered in Hp.
  assert (optionId <$> offered ≡ₚ
    stages ≫= λ k, pair k <$> jkeys (stageRank metric ctx k (optionRows rows options k))) as Hids.
  { change (optionId <$> offered) with ((fst ∘ λ o, (optionId o, no_valueRaw o)) <$> offered).
    rewrite list_fmap_compose, Hp. apply reflexive_eq, fmap_bind_ext. intros k.
    rewrite <- rank_ids, <- !list_fmap_compose. done. }
  split_and!.
  - rewrite Hids. apply NoDup_bind; [| |apply stages_ok].
    + intros k1 k2 [? ?] _ _ (? & [= -> _] & _)%list_elem_of_fmap (? & [= -> _] & _)%list_elem_of_fmap. done.
    + intros k _. apply NoDup_fmap; [by intros ?? [= ->]|]. apply stageRank_spec.
  - apply Forall_forall. intros o Ho.
    apply (list_elem_of_fmap_2 (λ o, (optionId o, no_valueRaw o))) in Ho. rewrite Hp in Ho.
    apply list_elem_of_bind in Ho as (k & (r & [= -> -> ->] & Hr)%list_elem_of_fmap & _).
    destruct (stageRank_spec metric ctx k (optionRows rows options k)) as (Hn & Hv & _).
    apply elem_of_jvalues in Hr as [i Hi]; [|done]. destruct (Hv i r Hi) as [-> ->]. done.
  - intros k i. rewrite Hids, list_elem_of_bind. setoid_rewrite list_elem_of_fmap.
    destruct (stageRank_spec metric ctx k (optionRows rows options k)) as (_ & _ & Hkeys).
    rewrite <- Hkeys. naive_solver.
Qed.
End options.

Module SampleViews.
Import Sample.

(** A group that is called "__other__" gets the id of the node that stands for other
    groups: the mask leaves its name alone. *)
Definition otherRow : FlowQuotaDataItem :=
  {| user_id := Some 7; username := Some (js "alice"); node_name := None; use_group := Some (js "__other__");
     token_id := None; token_name := Some (js "key"); channel_id := Some 3; channel_name := None;
     model_name := Some (js "gpt-4"); token_used := Some 1; count := Some 1; row_quota := Some 1 |}.

Example other_name_unmasked :
  n_label <$> filter (λ x, n_kind x = KGroup)
    (nodes (buildFlowGraph [otherRow] tokens role_admin None None None (options true)))
  = [js "__other__"].
Proof. vm_compute. reflexivity. Qed.

(** The one user left in the diagram is not named, and its value is shown. *)
Lemma flow_masks_witness :
  (λ x, (n_id x, n_label x, n_value x)) <$> filter (λ x, n_kind x = KUser) (nodes (graph true))
  = [(js "user:7", FLOW_MASK_TEXT, 59)] ∧
  bareLink <$> links (graph true) = bareLink <$> links (graph false).
Proof.
  split; [vm_compute; reflexivity|].
  exact (proj2 (proj2 (proj2 (flow_masks rows tokens role_admin None None None (options true) eq_refl)))).
Defined.
End SampleViews.
