(* ===== verification/ChatMessages.v ===== *)
(** The playground's messages (web/src/features/playground: types.ts, constants.ts,
    lib/message, lib/streaming).

    A message is a record whose optional properties are options ([None] for
    undefined; an error code may also be null, [Some None]).  Times are
    milliseconds; a function that reads the clock takes what each of its reads
    returned ([now1], [now2], ..., in order), and one that draws identifiers takes
    them in the order it draws them.  [t] is the translation function. *)
From S2P Require Import Prelude JsString JsValue Json.
Open Scope Z_scope.

(** ** Types *)
Inductive MessageRole := user | assistant | system.
#[export] Instance MessageRole_eq_dec : EqDecision MessageRole.
Proof. solve_decision. Defined.

Inductive MessageStatus := loading | streaming | complete | error.
#[export] Instance MessageStatus_eq_dec : EqDecision MessageStatus.
Proof. solve_decision. Defined.

Record MessageVersion := mkVersion { v_id : jsstring; content : jsstring }.

Record Reasoning := mkReasoning {
  r_content : jsstring; r_duration : Z; r_startedAt : option Z; r_completedAt : option Z;
  r_durationMs : option Z }.

Record Message := mkMessage {
  key : jsstring; from : MessageRole; versions : list MessageVersion;
  createdAt : option Z; startedAt : option Z; completedAt : option Z; durationMs : option Z;
  sources : option (list (jsstring * jsstring)); reasoning : option Reasoning;
  isReasoningStreaming : option bool; isReasoningComplete : option bool;
  isContentComplete : option bool; status : option MessageStatus;
  errorCode : option (option jsstring) }.

(** [{ ...message, property: value }]. *)
Definition set_versions (v : list MessageVersion) (m : Message) : Message :=
  mkMessage (key m) (from m) v (createdAt m) (startedAt m) (completedAt m) (durationMs m) (sources m)
    (reasoning m) (isReasoningStreaming m) (isReasoningComplete m) (isContentComplete m) (status m)
    (errorCode m).
Definition set_createdAt (v : option Z) (m : Message) : Message :=
  mkMessage (key m) (from m) (versions m) v (startedAt m) (completedAt m) (durationMs m) (sources m)
    (reasoning m) (isReasoningStreaming m) (isReasoningComplete m) (isContentComplete m) (status m)
    (errorCode m).
Definition set_timing (start done duration : option Z) (m : Message) : Message :=
  mkMessage (key m) (from m) (versions m) (createdAt m) start done duration (sources m)
    (reasoning m) (isReasoningStreaming m) (isReasoningComplete m) (isContentComplete m) (status m)
    (errorCode m).
Definition set_reasoning (v : option Reasoning) (m : Message) : Message :=
  mkMessage (key m) (from m) (versions m) (createdAt m) (startedAt m) (completedAt m) (durationMs m)
    (sources m) v (isReasoningStreaming m) (isReasoningComplete m) (isContentComplete m) (status m)
    (errorCode m).
Definition set_isReasoningStreaming (v : bool) (m : Message) : Message :=
  mkMessage (key m) (from m) (versions m) (createdAt m) (startedAt m) (completedAt m) (durationMs m)
    (sources m) (reasoning m) (Some v) (isReasoningComplete m) (isContentComplete m) (status m)
    (errorCode m).
Definition set_status (v : MessageStatus) (m : Message) : Message :=
  mkMessage (key m) (from m) (versions m) (createdAt m) (startedAt m) (completedAt m) (durationMs m)
    (sources m) (reasoning m) (isReasoningStreaming m) (isReasoningComplete m) (isContentComplete m)
    (Some v) (errorCode m).
Definition set_errorCode (v : option jsstring) (m : Message) : Message :=
  mkMessage (key m) (from m) (versions m) (createdAt m) (startedAt m) (completedAt m) (durationMs m)
    (sources m) (reasoning m) (isReasoningStreaming m) (isReasoningComplete m) (isContentComplete m)
    (status m) (Some v).

(** [flag] where an optional flag is used as a condition. *)
Definition on (flag : option bool) : bool := default false flag.

(** ** constants.ts: error texts *)
Definition API_REQUEST_ERROR : jsstring := js "Request error occurred".
Definition NETWORK_ERROR : jsstring := js "Network connection failed or server not responding".
Definition PARSE_ERROR : jsstring := js "Error parsing response data".
Definition STREAM_START_ERROR : jsstring := js "Error establishing connection".
Definition CONNECTION_CLOSED : jsstring := js "Connection closed".
Definition INTERRUPTED : jsstring := js "Generation was interrupted".

(** ** message-utils.ts *)
Definition createMessageVersion (fresh : jsstring) (text : jsstring) : MessageVersion :=
  mkVersion fresh text.

Definition getCurrentVersion (m : Message) : MessageVersion :=
  default (mkVersion (js "default") []) (head (versions m)).

Definition getMessageContent (m : Message) : jsstring := content (getCurrentVersion m).

Definition hasMessageContent (m : Message) : bool :=
  negb (bool_decide (trim (getMessageContent m) = [])).

Definition updateCurrentVersionContent (m : Message) (text : jsstring) : Message :=
  set_versions [mkVersion (v_id (getCurrentVersion m)) text] m.

(** The identifiers drawn for a message: its key and its version's id. *)
Definition fresh_ids : Type := jsstring * jsstring.

Definition createUserMessage (fresh : fresh_ids) (text : jsstring) (created : Z) : Message :=
  mkMessage fresh.1 user [createMessageVersion fresh.2 text] (Some created)
    None None None None None None None None None None.

Definition createLoadingAssistantMessage (fresh : fresh_ids) (started : Z) : Message :=
  mkMessage fresh.1 assistant [createMessageVersion fresh.2 []] (Some started)
    (Some started) None None None None (Some false) (Some false) (Some false) (Some loading) None.

Inductive ContentPart := text_part (text : jsstring) | image_part (url : jsstring).
Inductive MessageBody := body_text (text : jsstring) | body_parts (parts : list ContentPart).

Definition buildMessageContent (text : jsstring) (imageUrls : list jsstring) : MessageBody :=
  let validImages := filter (λ url, trim url ≠ []) imageUrls in
  match validImages with
  | [] => body_text text
  | _ => body_parts (text_part text :: ((λ url, image_part (trim url)) <$> validImages))
  end.

Definition getTextContent (body : MessageBody) : jsstring :=
  match body with
  | body_text text => text
  | body_parts parts =>
      match find (λ p, match p with text_part _ => true | _ => false end) parts with
      | Some (text_part text) => text
      | _ => []
      end
  end.

Record ChatCompletionMessage := mkApiMessage { role : MessageRole; api_content : MessageBody }.

Definition formatMessageForAPI (m : Message) : ChatCompletionMessage :=
  mkApiMessage (from m) (body_text (content (getCurrentVersion m))).

Definition isValidMessage (m : Message) : bool :=
  match versions m with
  | [] => false
  | _ => negb (bool_decide (from m = assistant) && negb (hasMessageContent m))
  end.

(** ** message-timing-utils.ts *)
Definition completeAssistantTiming (m : Message) (done : Z) : Message :=
  if bool_decide (from m = assistant) then
    let start := match startedAt m with
                 | Some s => s
                 | None => match createdAt m with Some c => c | None => done end
                 end in
    set_timing (Some start) (Some done) (Some (Z.max 0 (done - start))) m
  else m.

Definition startReasoningTiming (m : Message) (started : Z) : Reasoning :=
  match reasoning m with
  | Some r => mkReasoning (r_content r) (r_duration r)
                (Some (match r_startedAt r with Some s => s | None => started end))
                (r_completedAt r) (r_durationMs r)
  | None => mkReasoning [] 0 (Some started) None None
  end.

(** [Math.ceil(ms / 1000)] of a non-negative integer. *)
Definition ceil_seconds (ms : Z) : Z := - ((- ms) / 1000).

Definition completeReasoningTiming (m : Message) (done : Z) : Message :=
  match reasoning m with
  | Some r =>
      match r_durationMs r with
      | Some _ => m
      | None =>
          let start := match r_startedAt r with
                       | Some s => s
                       | None => match startedAt m with Some s => s | None => done end
                       end in
          let ms := Z.max 0 (done - start) in
          set_reasoning (Some (mkReasoning (r_content r) (ceil_seconds ms) (Some start) (Some done)
                                 (Some ms))) m
      end
  | None => m
  end.

(** ** message-reasoning-utils.ts *)
Record ParsedThinkTags := mkParsed {
  visibleContent : jsstring; parsed_reasoning : jsstring; hasUnclosedTag : bool }.

Definition open_tag : jsstring := js "<think>".
Definition close_tag : jsstring := js "</think>".

(** [s.slice(a, b)] for positions inside the string. *)
Definition slice (a b : nat) (s : jsstring) : jsstring := take (b - a) (drop a s).

(** The loop: the visible parts, the reasoning parts and whether a tag is left open.
    Each turn moves past a tag, so the length of the text bounds the turns. *)
Fixpoint thinkLoop (fuel : nat) (text : jsstring) (currentPos : nat)
    (visibleParts reasoningParts : list jsstring) : option (list jsstring * list jsstring * bool) :=
  match fuel with
  | O => None
  | S fuel =>
      match index_from open_tag text currentPos with
      | None =>
          let visibleParts := if (currentPos <? length text)%nat
                              then visibleParts ++ [drop currentPos text] else visibleParts in
          Some (visibleParts, reasoningParts, false)
      | Some openPos =>
          let visibleParts := if (currentPos <? openPos)%nat
                              then visibleParts ++ [slice currentPos openPos text] else visibleParts in
          match index_from close_tag text (openPos + 7) with
          | None => Some (visibleParts, reasoningParts ++ [drop (openPos + 7) text], true)
          | Some closePos =>
              thinkLoop fuel text (closePos + 8) visibleParts
                (reasoningParts ++ [slice (openPos + 7) closePos text])
          end
      end
  end.

Definition parseThinkTags (text : jsstring) : ParsedThinkTags :=
  if negb (includes open_tag text) then mkParsed text [] false
  else
    let '(visibleParts, reasoningParts, unclosed) :=
      default ([], [], false) (thinkLoop (S (length text)) text 0 [] []) in
    mkParsed (trim (concat visibleParts)) (trim (join [10; 10]%N reasoningParts)) unclosed.

(** ** message-streaming-utils.ts *)
Inductive StreamChunkType := chunk_reasoning | chunk_content.

Definition processStreamingContent (now1 : Z) (m : Message) (contentChunk : jsstring) : Message :=
  let fullContent := content (getCurrentVersion m) ++ contentChunk in
  if bool_decide (reasoning m = None) && negb (includes open_tag fullContent) then
    set_isReasoningStreaming false (updateCurrentVersionContent m fullContent)
  else
    let p := parseThinkTags fullContent in
    let finalReasoning :=
      match parsed_reasoning p with
      | [] => reasoning m
      | text =>
          let r := startReasoningTiming m now1 in
          Some (mkReasoning text (r_duration r) (r_startedAt r) (r_completedAt r) (r_durationMs r))
      end in
    set_isReasoningStreaming (hasUnclosedTag p)
      (set_reasoning finalReasoning (updateCurrentVersionContent m fullContent)).

(** The part of a chunk to append: a chunk that starts with the text so far is taken
    for a snapshot of the whole text. *)
Definition getAppendableChunk (currentContent chunk : jsstring) : jsstring :=
  if bool_decide (currentContent = []) || negb (starts_with currentContent chunk) then chunk
  else drop (length currentContent) chunk.

Definition applyStreamingChunk (now1 now2 : Z) (m : Message) (type : StreamChunkType)
    (chunk : jsstring) : Message :=
  if bool_decide (status m = Some error) then m
  else
    match type with
    | chunk_reasoning =>
        let r := startReasoningTiming m now1 in
        let appendable := getAppendableChunk (r_content r) chunk in
        set_status streaming (set_isReasoningStreaming true
          (set_reasoning (Some (mkReasoning (r_content r ++ appendable) (r_duration r) (r_startedAt r)
                                  (r_completedAt r) (r_durationMs r))) m))
    | chunk_content =>
        let appendable := getAppendableChunk (content (getCurrentVersion m)) chunk in
        let m' := processStreamingContent now1 m appendable in
        set_status streaming
          (if on (isReasoningStreaming m') then m' else completeReasoningTiming m' now2)
    end.

(** [a || b] on strings. *)
Definition or_else (a b : jsstring) : jsstring := match a with [] => b | _ => a end.

Definition finalizeMessage (now1 now2 : Z) (m : Message) (apiReasoningContent : jsstring) : Message :=
  let current := content (getCurrentVersion m) in
  let parsed := if includes open_tag current then Some (parseThinkTags current) else None in
  let visible := match parsed with Some p => visibleContent p | None => current end in
  let finalReasoning :=
    or_else apiReasoningContent
      (or_else (default [] (r_content <$> reasoning m)) (default [] (parsed_reasoning <$> parsed))) in
  let r := match finalReasoning with
           | [] => None
           | text =>
               let r := startReasoningTiming m now1 in
               Some (mkReasoning text (r_duration r) (r_startedAt r) (r_completedAt r) (r_durationMs r))
           end in
  completeReasoningTiming
    (set_isReasoningStreaming false (set_reasoning r (updateCurrentVersionContent m visible))) now2.

Definition completeAssistantMessage (now1 now2 now3 : Z) (m : Message) : Message :=
  completeAssistantTiming (set_status complete (finalizeMessage now1 now2 m [])) now3.

Definition isAssistantMessageFinal (m : Message) : bool :=
  bool_decide (status m = Some complete) || bool_decide (status m = Some error).

Definition isAssistantMessagePending (m : Message) : bool :=
  bool_decide (status m = Some loading) || bool_decide (status m = Some streaming).

Definition isPendingAssistantMessage (m : Message) : bool :=
  bool_decide (from m = assistant) && isAssistantMessagePending m.

(** A choice of a completion: its content and its reasoning, empty when absent. *)
Record ChatCompletionChoice := mkChoice { choice_content : jsstring; reasoning_content : jsstring }.

Definition hasChatCompletionChoice (choices : list ChatCompletionChoice) : bool :=
  match choices with [] => false | _ => true end.

Definition applyChatCompletionChoice (now1 now2 now3 : Z) (m : Message)
    (choice : ChatCompletionChoice) : Message :=
  completeAssistantTiming
    (set_status complete
       (finalizeMessage now1 now2 (updateCurrentVersionContent m (choice_content choice))
          (reasoning_content choice))) now3.

Definition applyChatCompletionResponse (now1 now2 now3 : Z) (m : Message)
    (choices : list ChatCompletionChoice) : option Message :=
  match choices with [] => None | choice :: _ => Some (applyChatCompletionChoice now1 now2 now3 m choice) end.

(** The last index at which a message satisfies the test, from the end down. *)
Definition last_index (p : Message → bool) (ms : list Message) : option nat :=
  (λ x, (length ms - 1 - x.1)%nat) <$> list_find (λ m, p m = true) (reverse ms).

Section loading.
Context (t : jsstring → jsstring).

Definition sanitized (now1 now2 now3 : Z) (m : Message) : Message :=
  let finalized := finalizeMessage now1 now2 m [] in
  let hasReasoning := match reasoning finalized with
                      | Some r => negb (bool_decide (trim (r_content r) = []))
                      | None => false
                      end in
  if hasMessageContent finalized || hasReasoning then
    completeAssistantTiming (set_isReasoningStreaming false (set_status complete finalized)) now3
  else
    completeAssistantTiming (set_isReasoningStreaming false (set_status error
      (updateCurrentVersionContent finalized (t API_REQUEST_ERROR ++ js ": " ++ t INTERRUPTED)))) now3.

Definition sanitizeMessagesOnLoad (now1 now2 now3 : Z) (ms : list Message) : list Message :=
  match last_index isPendingAssistantMessage ms with
  | None => ms
  | Some targetIndex =>
      match ms !! targetIndex with
      | None => ms
      | Some m => <[targetIndex := sanitized now1 now2 now3 m]> ms
      end
  end.
End loading.

(** ** message-update-utils.ts *)
Definition updateLastAssistantMessage (ms : list Message) (updater : Message → Message) : list Message :=
  match last ms with
  | None => ms
  | Some m => if bool_decide (from m = assistant) then <[(length ms - 1)%nat := updater m]> ms else ms
  end.

Definition updateAssistantMessageWithError (now1 : Z) (ms : list Message) (errorMessage : jsstring)
    (code : option jsstring) (title : jsstring) : list Message :=
  updateLastAssistantMessage ms (λ m,
    completeAssistantTiming
      (set_errorCode (match code with Some [] | None => None | Some c => Some c end)
         (set_isReasoningStreaming false (set_status error
            (updateCurrentVersionContent m (title ++ js ": " ++ errorMessage))))) now1).

(** ** conversation-message-utils.ts *)
Definition appendUserMessagePair (now1 : Z) (ids1 ids2 : fresh_ids) (ms : list Message)
    (text : jsstring) : list Message :=
  ms ++ [createUserMessage ids1 text now1; createLoadingAssistantMessage ids2 now1].

Definition find_key (k : jsstring) (ms : list Message) : option nat :=
  fst <$> list_find (λ m, key m = k) ms.

Definition createRegeneratedMessages (now1 : Z) (ids : fresh_ids) (ms : list Message)
    (messageKey : jsstring) : option (list Message) :=
  messageIndex ← find_key messageKey ms;
  m ← ms !! messageIndex;
  Some ((if bool_decide (from m = user) then take (messageIndex + 1)%nat ms else take messageIndex ms)
        ++ [createLoadingAssistantMessage ids now1]).

Definition removeMessageByKey (ms : list Message) (messageKey : jsstring) : list Message :=
  filter (λ m, key m ≠ messageKey) ms.

Definition getPreviousUserMessage (ms : list Message) (beforeIndex : nat) : option Message :=
  snd <$> list_find (λ m, from m = user) (reverse (take beforeIndex ms)).

Definition applyMessageEdit (now1 : Z) (ids : fresh_ids) (ms : list Message) (messageKey text : jsstring)
    (shouldSubmit : bool) : option (list Message * bool) :=
  messageIndex ← find_key messageKey ms;
  let updated := (λ m, if bool_decide (key m = messageKey) then
                         set_createdAt (if shouldSubmit then Some now1 else createdAt m)
                           (updateCurrentVersionContent m text)
                       else m) <$> ms in
  m ← updated !! messageIndex;
  if negb shouldSubmit || negb (bool_decide (from m = user)) then Some (updated, false)
  else Some (take (messageIndex + 1)%nat updated ++ [createLoadingAssistantMessage ids now1], true).

Definition getEditingMessageContent (ms : list Message) (editingKey : option jsstring) : jsstring :=
  match editingKey with
  | None | Some [] => []
  | Some k =>
      match list_find (λ m, key m = k) ms with
      | Some (_, m) => getMessageContent m
      | None => []
      end
  end.

Record ChatMessageRenderState := mkRenderState {
  alwaysShowActions : bool; render_content : jsstring; isEditing : bool }.

Definition getChatMessageRenderState (ms : list Message) (m : Message) (messageIndex : nat)
    (editingKey : option jsstring) : ChatMessageRenderState :=
  mkRenderState ((S messageIndex =? length ms)%nat && bool_decide (from m = assistant))
    (getMessageContent m) (bool_decide (editingKey = Some (key m))).

(** ** message-action-utils.ts, message-editor-utils.ts, message-layout-utils.ts *)
Record MessageActionState := mkActionState {
  action_content : jsstring; hasContent : bool; isAssistant : bool; isLoading : bool; isUser : bool }.

Definition getMessageActionState (m : Message) : MessageActionState :=
  mkActionState (getMessageContent m) (hasMessageContent m) (bool_decide (from m = assistant))
    (bool_decide (status m = Some loading) || bool_decide (status m = Some streaming))
    (bool_decide (from m = user)).

Record MessageEditorState := mkEditorState { canSave : bool; hasChanged : bool; showSaveAndSubmit : bool }.

Definition getMessageEditorState (m : Message) (editText originalText : jsstring) : MessageEditorState :=
  let hasText := negb (bool_decide (trim editText = [])) in
  let changed := negb (bool_decide (editText = originalText)) in
  mkEditorState (hasText && changed) changed (bool_decide (from m = user)).

Inductive PlaygroundMessageLayoutMode := alternating | layout_left.
Inductive MessageAlignment := align_left | align_right.

Definition getMessageAlignment (m : Message) (mode : PlaygroundMessageLayoutMode) : MessageAlignment :=
  match mode with
  | layout_left => align_left
  | alternating => if bool_decide (from m = user) then align_right else align_left
  end.

(** ** message-content-utils.ts *)
Definition shouldShowMessageLoader (m : Message) (asst : bool) (versionContent : jsstring) : bool :=
  asst && negb (on (isReasoningStreaming m)) &&
  (bool_decide (status m = Some loading) ||
   (bool_decide (status m = Some streaming) && bool_decide (versionContent = []))).

Definition shouldShowMessageContent (m : Message) (versionContent : jsstring) : bool :=
  (bool_decide (from m = user) || negb (on (isReasoningStreaming m))) &&
  negb (bool_decide (versionContent = [])).

Definition getDisplayContent (m : Message) (versionContent : jsstring) : jsstring :=
  if negb (bool_decide (from m = assistant)) then versionContent
  else if negb (includes open_tag versionContent) then versionContent
  else visibleContent (parseThinkTags versionContent).

Record MessageContentState := mkContentState {
  displayContent : jsstring; hasSources : bool; cs_isAssistant : bool; showLoader : bool;
  showMessageContent : bool; cs_sources : list (jsstring * jsstring);
  reasoningContent : option jsstring }.

(** [reasoningContent] is present when there is reasoning to show. *)
Definition getMessageContentState (m : Message) (versionContent : jsstring) : MessageContentState :=
  let asst := bool_decide (from m = assistant) in
  let srcs := default [] (sources m) in
  let r := if asst then r_content <$> reasoning m else None in
  mkContentState (getDisplayContent m versionContent) (match srcs with [] => false | _ => true end) asst
    (shouldShowMessageLoader m asst versionContent) (shouldShowMessageContent m versionContent) srcs
    (match r with Some [] | None => None | Some text => Some text end).

(** ** message-error-utils.ts *)
Definition MODEL_PRICE_ERROR_CODE : jsstring := js "model_price_error".
Definition FALLBACK_ERROR_CONTENT : jsstring := js "An unknown error occurred".

Definition isAdminRole (r : option Z) : bool := match r with Some n => 10 <=? n | None => false end.

Definition isErrorMessage (m : Message) : bool := bool_decide (status m = Some error).

Inductive MessageErrorKind := generic | model_price.
Record MessageErrorState := mkErrorState {
  error_content : jsstring; error_kind : MessageErrorKind; showSettingsLink : bool }.

Definition getMessageErrorState (m : Message) (isAdmin : bool) : option MessageErrorState :=
  if negb (isErrorMessage m) then None
  else
    let isModelPriceError := bool_decide (errorCode m = Some (Some MODEL_PRICE_ERROR_CODE)) in
    Some (mkErrorState (or_else (getMessageContent m) FALLBACK_ERROR_CONTENT)
            (if isModelPriceError then model_price else generic) (isModelPriceError && isAdmin)).

(** ** payload-builder.ts *)
Record PlaygroundConfig := mkConfig {
  model : jsstring; group : jsstring; temperature : jsnum; top_p : jsnum; max_tokens : jsnum;
  frequency_penalty : jsnum; presence_penalty : jsnum; seed : option jsnum; stream : bool }.

Record ParameterEnabled := mkEnabled {
  e_temperature : bool; e_top_p : bool; e_max_tokens : bool; e_frequency_penalty : bool;
  e_presence_penalty : bool; e_seed : bool }.

Record ChatCompletionRequest := mkRequest {
  req_model : jsstring; req_group : jsstring; req_messages : list ChatCompletionMessage;
  req_stream : bool; req_temperature : option jsnum; req_top_p : option jsnum;
  req_max_tokens : option jsnum; req_frequency_penalty : option jsnum;
  req_presence_penalty : option jsnum; req_seed : option jsnum }.

Definition buildChatCompletionPayload (ms : list Message) (config : PlaygroundConfig)
    (enabled : ParameterEnabled) : ChatCompletionRequest :=
  let given (b : bool) (x : jsnum) := if b then Some x else None in
  mkRequest (model config) (group config)
    (formatMessageForAPI <$> filter (λ m, isValidMessage m = true) ms) (stream config)
    (given (e_temperature enabled) (temperature config)) (given (e_top_p enabled) (top_p config))
    (given (e_max_tokens enabled) (max_tokens config))
    (given (e_frequency_penalty enabled) (frequency_penalty config))
    (given (e_presence_penalty enabled) (presence_penalty config))
    (if e_seed enabled then seed config else None).

(** ** stream-utils.ts *)

(** [v[0]] and [v?.[0]]: the first element, [JUndef] when there is none. *)
Definition first_of (v : jsval) : jsval :=
  match v with
  | JArr (x :: _) => x
  | JObj ps => default JUndef (jget (js "0") ps)
  | JStr (c :: _) => JStr [c]
  | _ => JUndef
  end.

(** [v || d]. *)
Definition or_value (v d : jsval) : jsval := if truthy v then v else d.

Record StreamErrorDetails := mkErrorDetails { err_code : jsval; err_message : jsval }.

Definition parseStreamErrorDetails (data : jsstring) : StreamErrorDetails :=
  let fallback := JStr (or_else data API_REQUEST_ERROR) in
  match data with
  | [] => mkErrorDetails JUndef fallback
  | _ =>
      match JSON_parse data with
      | None => mkErrorDetails JUndef fallback
      | Some parsed =>
          let e := prop "error" parsed in
          if negb (truthy e) then mkErrorDetails JUndef fallback
          else mkErrorDetails (or_value (prop "code" e) JUndef) (or_value (prop "message" e) fallback)
      end
  end.

(** The updates of an event, or nothing when reading it throws: the text is no JSON,
    or it is [null]. *)
Definition parseStreamMessageUpdates (data : jsstring) : option (list (StreamChunkType * jsval)) :=
  chunk ← JSON_parse data;
  match chunk with
  | JNull | JUndef => None
  | _ =>
      let delta := prop "delta" (first_of (prop "choices" chunk)) in
      if negb (truthy delta) then Some []
      else
        let r := prop "reasoning_content" delta in
        let c := prop "content" delta in
        Some ((if truthy r then [(chunk_reasoning, r)] else []) ++
              (if truthy c then [(chunk_content, c)] else []))
  end.

Definition isStreamDoneMessage (data : jsstring) : bool := bool_decide (data = js "[DONE]").

Definition isStreamClosedReadyState (readyState : option Z) : bool := bool_decide (readyState = Some 2).

Definition getStreamReadyStateError (eventReadyState status : option Z) : option jsstring :=
  match eventReadyState, status with
  | Some s, Some code =>
      if (2 <=? s) && negb (code =? 200) then
        Some (js "HTTP " ++ show_Z code ++ js ": " ++ CONNECTION_CLOSED)
      else None
  | _, _ => None
  end.

(** ** request-error-utils.ts *)
Definition parseRequestErrorDetails (e : jsval) : StreamErrorDetails :=
  let data := prop "data" (prop "response" e) in
  mkErrorDetails (or_value (prop "code" (prop "error" data)) JUndef)
    (or_value (prop "message" data) (or_value (prop "message" e) (JStr API_REQUEST_ERROR))).
