(* ===== verification/ChatFacts.v ===== *)
(** Properties of the playground's messages (ChatMessages.v): how reasoning is told
    from the answer, what a stream of chunks adds up to, what a finished message is. *)
From S2P Require Import Prelude JsString JsValue Json ChatMessages.
Open Scope Z_scope.

(** ** Searching for a tag *)

(** A pattern whose first unit does not come back in it. *)
Definition marker (p : jsstring) : Prop := match p with [] => False | c :: p' => c ∉ p' end.

Lemma open_marker : marker open_tag.
Proof. apply (bool_decide_unpack _). vm_compute. exact I. Qed.
Lemma close_marker : marker close_tag.
Proof. apply (bool_decide_unpack _). vm_compute. exact I. Qed.

Lemma length_open : length open_tag = 7%nat.
Proof. done. Qed.
Lemma length_close : length close_tag = 8%nat.
Proof. done. Qed.

(** The first occurrence of a marker is the one that follows a text without it. *)
Lemma index_of_marker p v rest :
  marker p → index_of p v = None → index_of p (v ++ p ++ rest) = Some (length v).
Proof.
  intros Hp. induction v as [|x v IH]; intros Hv.
  { cbn [app length]. destruct p as [|c p]; [done|]. cbn [app index_of]. unfold starts_with.
    rewrite bool_decide_true; [done|]. by exists rest. }
  assert (¬ p `prefix_of` (x :: v) ++ p ++ rest) as Hno.
  { intros Hpre. destruct (decide (length p <= length (x :: v))%nat) as [Hl|Hl].
    - apply (proj1 (index_of_None p (x :: v)) Hv 0%nat). rewrite drop_0.
      destruct Hpre as [k Hk]. exists (drop (length p) (x :: v)).
      apply (f_equal (take (length p))) in Hk. rewrite take_app_le, take_app_length in Hk by done.
      by rewrite <- Hk at 1; rewrite take_drop.
    - destruct Hpre as [k Hk]. destruct p as [|c p]; [done|]. simpl in Hp.
      apply (f_equal (λ l, l !! length (x :: v))) in Hk. cbv beta in Hk.
      rewrite (list_lookup_middle (x :: v) (p ++ rest) c) in Hk by done.
      rewrite (lookup_app_l (c :: p)) in Hk by (simpl in *; lia). apply Hp.
      exact (list_elem_of_lookup_2 p (length v) c (eq_sym Hk)). }
  cbn [app index_of] in *. unfold starts_with in *. rewrite bool_decide_false by done.
  case_bool_decide as Hs; [done|]. apply fmap_None in Hv. by rewrite IH.
Qed.

(** Cutting a text at the first occurrence of a pattern. *)
Lemma index_of_cut p s i :
  p ≠ [] → index_of p s = Some i →
  s = take i s ++ p ++ drop (i + length p) s ∧ index_of p (take i s) = None.
Proof.
  intros Hp. revert i. induction s as [|x s IH]; intros i; cbn [index_of]; unfold starts_with.
  { case_bool_decide as E; [|done]. destruct p; [done|]. by apply prefix_nil_not in E. }
  case_bool_decide as E.
  - intros [= <-]. destruct E as [k ->]. cbn [take app Nat.add]. rewrite drop_app_length.
    split; [done|]. by destruct p.
  - intros (j & Hj & ->)%fmap_Some. destruct (IH j Hj) as [H1 H2]. cbn [take drop app Nat.add].
    split; [by rewrite <- H1|]. cbn [index_of]. unfold starts_with. rewrite bool_decide_false.
    + by rewrite H2.
    + intros [k Hk]. apply E. exists (k ++ drop j s). rewrite app_assoc, <- Hk. simpl. by rewrite take_drop.
Qed.

(** ** Texts with reasoning in them *)

(** A text with tags: visible text and reasoning in turn, then what is left, visible
    and possibly reasoning that is not closed. *)
Record think_doc := mkDoc {
  blocks : list (jsstring * jsstring); rest_visible : jsstring; rest_open : option jsstring }.

Definition render (d : think_doc) : jsstring :=
  concat ((λ b, b.1 ++ open_tag ++ b.2 ++ close_tag) <$> blocks d) ++ rest_visible d ++
  match rest_open d with Some r => open_tag ++ r | None => [] end.

(** Visible text has no opening tag, reasoning no closing tag. *)
Definition doc_ok (d : think_doc) : Prop :=
  Forall (λ b, index_of open_tag b.1 = None ∧ index_of close_tag b.2 = None) (blocks d) ∧
  index_of open_tag (rest_visible d) = None ∧
  from_option (λ r, index_of close_tag r = None) True (rest_open d).

Definition reasonings (d : think_doc) : list jsstring := (blocks d).*2 ++ option_list (rest_open d).

Definition meaning (d : think_doc) : ParsedThinkTags :=
  match blocks d, rest_open d with
  | [], None => mkParsed (rest_visible d) [] false
  | _, _ => mkParsed (trim (concat (blocks d).*1 ++ rest_visible d))
              (trim (join [10; 10]%N (reasonings d))) (bool_decide (is_Some (rest_open d)))
  end.

Lemma index_from_app p pre s : index_from p (pre ++ s) (length pre) = (λ i, length pre + i)%nat <$> index_of p s.
Proof. unfold index_from. by rewrite drop_app_length. Qed.

Lemma slice_app pre v s : slice (length pre) (length pre + length v) (pre ++ v ++ s) = v.
Proof. unfold slice. rewrite drop_app_length, Nat.add_comm, Nat.add_sub. apply take_app_length. Qed.

(** The parts the loop keeps of a visible text. *)
Definition kept (v : jsstring) : list jsstring := match v with [] => [] | _ => [v] end.

Lemma kept_push (n : nat) (v : jsstring) (parts : list jsstring) (x : jsstring) :
  v = x → (if (n <? n + length v)%nat then parts ++ [x] else parts) = parts ++ kept v.
Proof.
  intros <-. destruct v; simpl.
  - rewrite Nat.add_0_r, Nat.ltb_irrefl. by rewrite app_nil_r.
  - by rewrite (proj2 (Nat.ltb_lt _ _)) by lia.
Qed.

Lemma concat_kept vs : concat (vs ≫= kept) = concat vs.
Proof. induction vs as [|v vs IH]; [done|]. rewrite bind_cons, concat_app, IH. by destruct v; simpl; rewrite ?app_nil_r. Qed.

(** The loop on a text that starts with a visible part and an opening tag. *)
Lemma thinkLoop_open fuel pre v s vis rs :
  index_of open_tag v = None →
  thinkLoop (S fuel) (pre ++ v ++ open_tag ++ s) (length pre) vis rs =
  match index_of close_tag s with
  | None => Some (vis ++ kept v, rs ++ [s], true)
  | Some j => thinkLoop fuel (pre ++ v ++ open_tag ++ s) (length pre + length v + 7 + j + 8)
                (vis ++ kept v) (rs ++ [take j s])
  end.
Proof.
  intros Hv. cbn [thinkLoop]. rewrite index_from_app, index_of_marker by (done || apply open_marker).
  cbn [fmap option_fmap option_map]. rewrite (kept_push _ v) by (by rewrite slice_app).
  assert (length pre + length v + 7 = length (pre ++ v ++ open_tag))%nat as Hlen
    by (rewrite !length_app, length_open; lia).
  replace (pre ++ v ++ open_tag ++ s) with ((pre ++ v ++ open_tag) ++ s) by (by rewrite <- !app_assoc).
  rewrite Hlen, index_from_app. destruct (index_of close_tag s) as [j|] eqn:Ej; cbn [fmap option_fmap option_map].
  - unfold slice. rewrite drop_app_length. set (n := length (pre ++ v ++ open_tag)).
    by replace (n + j - n)%nat with j by lia.
  - by rewrite drop_app_length.
Qed.

Lemma thinkLoop_render bs : ∀ fuel pre v o vis rs,
  (length bs < fuel)%nat → doc_ok (mkDoc bs v o) →
  thinkLoop fuel (pre ++ render (mkDoc bs v o)) (length pre) vis rs =
  Some (vis ++ (bs.*1 ++ [v]) ≫= kept, rs ++ reasonings (mkDoc bs v o), bool_decide (is_Some o)).
Proof.
  unfold render, reasonings, doc_ok. cbn [blocks rest_visible rest_open].
  induction bs as [|[v1 r1] bs IH]; intros fuel pre v o vis rs Hf (Hbs & Hv & Ho);
    (destruct fuel as [|fuel]; [simpl in Hf; lia|]).
  - cbn [fmap list_fmap concat app]. change ([v] ≫= kept) with (kept v ++ []). rewrite app_nil_r.
    destruct o as [r|].
    + rewrite thinkLoop_open by done. simpl in Ho. by rewrite Ho.
    + rewrite app_nil_r. cbn [thinkLoop]. rewrite index_from_app, Hv. cbn [fmap option_fmap option_map].
      rewrite length_app, (kept_push _ v) by (by rewrite drop_app_length). by rewrite app_nil_r.
  - apply Forall_cons in Hbs as [[Hv1 Hr1] Hbs]. cbn [fst snd] in *. rewrite !fmap_cons. cbn [concat fst snd].
    set (tail := concat ((λ b, b.1 ++ open_tag ++ b.2 ++ close_tag) <$> bs) ++ v ++
                   match o with Some r => open_tag ++ r | None => [] end).
    assert (pre ++ ((v1 ++ open_tag ++ r1 ++ close_tag) ++ concat ((λ b, b.1 ++ open_tag ++ b.2 ++ close_tag) <$> bs))
              ++ v ++ match o with Some r => open_tag ++ r | None => [] end
            = pre ++ v1 ++ open_tag ++ (r1 ++ close_tag ++ tail)) as -> by (unfold tail; by rewrite <- !app_assoc).
    rewrite thinkLoop_open, index_of_marker by (done || apply close_marker). rewrite take_app_length.
    set (pre' := pre ++ v1 ++ open_tag ++ r1 ++ close_tag).
    replace (pre ++ v1 ++ open_tag ++ r1 ++ close_tag ++ tail) with (pre' ++ tail)
      by (unfold pre'; by rewrite <- !app_assoc).
    replace (length pre + length v1 + 7 + length r1 + 8)%nat with (length pre')
      by (unfold pre'; rewrite !length_app, length_open, length_close; lia).
    unfold tail. rewrite IH by (try done; simpl in Hf; lia).
    rewrite <- !app_assoc. cbn [app]. rewrite ?bind_cons. done.
Qed.

Lemma doc_exists text : ∃ d, doc_ok d ∧ render d = text.
Proof.
  revert text. apply (induction_ltof1 _ length). intros text IH. unfold ltof in IH. destruct (index_of open_tag text) as [i|] eqn:Ei.
  2:{ exists (mkDoc [] text None). split; [by split; [constructor|]|].
      unfold render. simpl. by rewrite app_nil_r. }
  apply index_of_cut in Ei as [Et Hv]; [|done]. set (v := take i text) in *.
  set (s := drop (i + length open_tag) text) in *.
  destruct (index_of close_tag s) as [j|] eqn:Ej.
  2:{ exists (mkDoc [] v (Some s)). split; [by split_and!; [constructor| |]|]. done. }
  apply index_of_cut in Ej as [Es Hr]; [|done]. set (r := take j s) in *.
  set (s' := drop (j + length close_tag) s) in *.
  assert (text = v ++ open_tag ++ r ++ close_tag ++ s') as Htext
    by (etransitivity; [exact Et|]; do 2 f_equal; exact Es).
  clearbody v s r s'. clear Et Es.
  destruct (IH s') as (d & (Hb & Hvis & Ho) & Hd).
  { rewrite Htext, !length_app, length_open. lia. }
  exists (mkDoc ((v, r) :: blocks d) (rest_visible d) (rest_open d)). split.
  - split; [by constructor|done].
  - unfold render in *. cbn [blocks rest_visible rest_open]. rewrite fmap_cons. cbn [concat fst snd].
    rewrite <- !app_assoc, Hd. by rewrite Htext.
Qed.

Lemma render_includes d : doc_ok d →
  includes open_tag (render d) = negb (bool_decide (blocks d = [] ∧ rest_open d = None)).
Proof.
  intros (Hb & Hv & Ho). unfold render, includes. destruct (blocks d) as [|[v r] bs].
  - cbn [fmap list_fmap concat app]. destruct (rest_open d) as [o|].
    + rewrite <- (app_nil_r o). rewrite index_of_marker by (done || apply open_marker).
      rewrite bool_decide_false by (by intros [_ ?]). done.
    + rewrite app_nil_r, Hv. rewrite bool_decide_true by done. done.
  - apply Forall_cons in Hb as [[Hv1 _] _]. rewrite fmap_cons. cbn [concat fst snd].
    rewrite <- !app_assoc, index_of_marker by (done || apply open_marker).
    rewrite bool_decide_false by (by intros [? _]). done.
Qed.

Lemma blocks_bound d : (length (blocks d) <= length (render d))%nat.
Proof.
  unfold render. rewrite length_app. set (n := length (rest_visible d ++ _)). clearbody n.
  induction (blocks d) as [|b bs IH]; [simpl; lia|].
  rewrite fmap_cons. cbn [concat length]. rewrite !length_app, length_open. lia.
Qed.

(** C35: telling reasoning from the answer.  Every text is a sequence of visible parts
    and reasoning between tags, possibly left open at the end, in one way that
    matters: the parser returns the visible parts put together and trimmed, the
    reasoning parts joined and trimmed, and whether a tag is open; a text without
    a tag is returned as it is.  In particular the loop always ends. *)
Theorem think_parse :
  (∀ text, ∃ d, doc_ok d ∧ render d = text) ∧
  (∀ d, doc_ok d → parseThinkTags (render d) = meaning d).
Proof.
  split; [apply doc_exists|]. intros d Hd. unfold parseThinkTags. rewrite render_includes by done.
  rewrite negb_involutive. unfold meaning. case_bool_decide as E.
  { destruct E as [Eb Eo]. unfold render. rewrite Eb, Eo. simpl. by rewrite app_nil_r. }
  pose proof (blocks_bound d) as Hlen. destruct d as [bs v o]. cbn [blocks rest_visible rest_open] in *.
  pose proof (thinkLoop_render bs (S (length (render (mkDoc bs v o)))) [] v o [] [] ltac:(lia) Hd) as Hloop.
  cbn [app length] in Hloop. rewrite Hloop.
  cbn [default app]. unfold Datatypes.id. rewrite concat_kept, concat_app. cbn [concat]. rewrite app_nil_r.
  destruct bs as [|b bs]; [destruct o; [done|by destruct E]|done].
Qed.

(** ** What a stream adds up to *)
Section streams.
Implicit Types (m : Message) (c : jsstring) (cs : list (Z * Z * jsstring)).

(** The chunks of a stream arriving one after the other, each with the two times at
    which the clock was read. *)
Definition receive (type : StreamChunkType) m cs : Message :=
  foldl (λ m x, applyStreamingChunk x.1.1 x.1.2 m type x.2) m cs.

(** The text a stream of this type builds. *)
Definition streamText (type : StreamChunkType) m : jsstring :=
  match type with
  | chunk_content => getMessageContent m
  | chunk_reasoning => default [] (r_content <$> reasoning m)
  end.

Lemma content_completeReasoning m n : getMessageContent (completeReasoningTiming m n) = getMessageContent m.
Proof. unfold completeReasoningTiming. by repeat case_match. Qed.

Lemma content_process n m c : getMessageContent (processStreamingContent n m c) = getMessageContent m ++ c.
Proof. unfold processStreamingContent. by case_match. Qed.

(** One chunk. *)
Lemma apply_chunk type n1 n2 m c :
  status m ≠ Some error →
  let m' := applyStreamingChunk n1 n2 m type c in
  status m' = Some streaming ∧
  streamText type m' = streamText type m ++ getAppendableChunk (streamText type m) c.
Proof.
  intros Hst. unfold applyStreamingChunk. rewrite bool_decide_false by done. destruct type; cbn [streamText].
  - split; [done|]. cbn. unfold startReasoningTiming. by destruct (reasoning m).
  - split; [done|]. cbn.
    transitivity (getMessageContent
      (processStreamingContent n1 m (getAppendableChunk (getMessageContent m) c))); [|apply content_process].
    case_match; [done|apply content_completeReasoning].
Qed.

(** Deltas: no chunk starts with the text before it. *)
Fixpoint deltas (text : jsstring) (chunks : list jsstring) : Prop :=
  match chunks with
  | [] => True
  | c :: chunks => (text = [] ∨ ¬ text `prefix_of` c) ∧ deltas (text ++ c) chunks
  end.
(** Snapshots: each chunk starts with the one before it. *)
Fixpoint snapshots (text : jsstring) (chunks : list jsstring) : Prop :=
  match chunks with
  | [] => True
  | c :: chunks => text `prefix_of` c ∧ snapshots c chunks
  end.

Lemma appendable_delta text c : text = [] ∨ ¬ text `prefix_of` c → text ++ getAppendableChunk text c = text ++ c.
Proof.
  unfold getAppendableChunk, starts_with. intros [->|Hp]; [done|].
  rewrite (bool_decide_false (text `prefix_of` c)) by done. by rewrite orb_true_r.
Qed.

Lemma appendable_snapshot text c : text `prefix_of` c → text ++ getAppendableChunk text c = c.
Proof.
  intros Hp. unfold getAppendableChunk, starts_with. rewrite (bool_decide_true (text `prefix_of` c)) by done.
  case_bool_decide as E; [by subst|]. destruct Hp as [k ->]. cbn. by rewrite drop_app_length.
Qed.

Lemma receive_induct (type : StreamChunkType) (R : jsstring → list jsstring → Prop) (F : jsstring → list jsstring → jsstring) :
  (∀ text, R text [] → F text [] = text) →
  (∀ text c chunks, R text (c :: chunks) → R (text ++ getAppendableChunk text c) chunks ∧
     F (text ++ getAppendableChunk text c) chunks = F text (c :: chunks)) →
  ∀ cs m, status m ≠ Some error → R (streamText type m) (cs.*2) →
    streamText type (receive type m cs) = F (streamText type m) (cs.*2).
Proof.
  intros H0 H1. induction cs as [|[[n1 n2] c] cs IH]; intros m Hst HR; [by rewrite H0|].
  cbn [receive foldl fst snd]. rewrite fmap_cons in *. cbn [snd] in *.
  destruct (apply_chunk type n1 n2 m c Hst) as [Hs Ht]. destruct (H1 _ _ _ HR) as [HR' <-].
  rewrite <- Ht. apply IH; [by rewrite Hs|]. by rewrite Ht.
Qed.

(** A stream of deltas, none of which starts with the text before it, adds up to
    the text of the message followed by all the deltas; a stream of snapshots, each
    starting with the one before, to the last snapshot.  Both for the answer and
    for the reasoning. *)
Theorem stream_adds_up type m cs (Hst : status m ≠ Some error) :
  (deltas (streamText type m) cs.*2 →
     streamText type (receive type m cs) = streamText type m ++ concat cs.*2) ∧
  (snapshots (streamText type m) cs.*2 →
     streamText type (receive type m cs) = default (streamText type m) (last cs.*2)).
Proof.
  split.
  - apply (receive_induct type deltas (λ text chunks, text ++ concat chunks)); [|clear|done].
    + intros text _. apply app_nil_r.
    + intros text c chunks [Hc Hd]. rewrite appendable_delta by done. split; [done|]. cbn. by rewrite app_assoc.
  - apply (receive_induct type snapshots (λ text chunks, default text (last chunks))); [done|clear|done].
    intros text c chunks [Hc Hd]. rewrite appendable_snapshot by done. split; [done|].
    rewrite last_cons. by destruct (last chunks).
Qed.

Lemma stream_adds_up_witness :
  getMessageContent (receive chunk_content (createLoadingAssistantMessage (js "k", js "v") 5)
    [(6, 6, js "<think>why"); (7, 7, js "</think>"); (8, 9, js "because")])
  = js "<think>why</think>because".
Proof.
  refine (eq_trans (proj1 (stream_adds_up chunk_content (createLoadingAssistantMessage (js "k", js "v") 5)
    [(6, 6, js "<think>why"); (7, 7, js "</think>"); (8, 9, js "because")] _) _) _).
  - discriminate.
  - vm_compute. split_and!; try done; first [left; reflexivity|right; intros [k Hk]; discriminate Hk].
  - vm_compute. reflexivity.
Defined.

(** A delta that starts with the whole text so far is taken for a snapshot: an
    answer whose deltas are all the same piece of text shows that piece once,
    however often it was sent. *)
Theorem repeated_delta_dropped ids now c (times : list (Z * Z)) (n : Z * Z) :
  getMessageContent (receive chunk_content (createLoadingAssistantMessage ids now)
    ((λ t, (t, c)) <$> (n :: times))) = c.
Proof.
  set (m := createLoadingAssistantMessage ids now).
  rewrite (receive_induct chunk_content (λ text chunks, (text = [] ∨ text = c) ∧ Forall (eq c) chunks)
    (λ text chunks, match chunks with [] => text | _ => c end)); [by destruct times| | |by subst m| ].
  - done.
  - intros text c' chunks [Ht Hall]. apply Forall_cons in Hall as [<- Hc].
    assert (text ++ getAppendableChunk text c = c) as ->
      by (apply appendable_snapshot; destruct Ht as [-> | ->]; [apply prefix_nil|done]).
    split; [by split; [right|]|]. by destruct chunks.
  - split; [by left|]. rewrite <- list_fmap_compose. apply Forall_fmap, Forall_forall. done.
Qed.
End streams.

(** ** Finished messages *)
Section finished.
Implicit Types (m : Message).

(** The reasoning kept: a nonempty text. *)
Definition nonempty (s : jsstring) : option jsstring := match s with [] => None | _ => Some s end.

(** A text without tags is all visible. *)
Lemma visible_finalize text :
  match (if includes open_tag text then Some (parseThinkTags text) else None) with
  | Some p => visibleContent p
  | None => text
  end = visibleContent (parseThinkTags text).
Proof. unfold parseThinkTags. by destruct (includes open_tag text). Qed.

Lemma reasoning_finalize text :
  default [] (parsed_reasoning <$> (if includes open_tag text then Some (parseThinkTags text) else None))
  = parsed_reasoning (parseThinkTags text).
Proof. unfold parseThinkTags. by destruct (includes open_tag text). Qed.

Lemma completeReasoning_keeps m n :
  let m' := completeReasoningTiming m n in
  key m' = key m ∧ from m' = from m ∧ status m' = status m ∧ createdAt m' = createdAt m ∧
  startedAt m' = startedAt m ∧ isReasoningStreaming m' = isReasoningStreaming m ∧
  versions m' = versions m ∧ r_content <$> reasoning m' = r_content <$> reasoning m ∧
  (∀ r, reasoning m' = Some r → is_Some (r_durationMs r)).
Proof.
  unfold completeReasoningTiming. destruct (reasoning m) as [r|] eqn:Er; [|split_and!; try done; congruence].
  destruct (r_durationMs r) eqn:Ed; cbn; rewrite ?Er; split_and!; try done; intros r' [= <-]; rewrite ?Ed; eauto.
Qed.

(** What finalising gives, whatever the message. *)
Lemma finalize_spec n1 n2 m api :
  let m' := finalizeMessage n1 n2 m api in
  let text := getMessageContent m in
  key m' = key m ∧ from m' = from m ∧ createdAt m' = createdAt m ∧ startedAt m' = startedAt m ∧
  on (isReasoningStreaming m') = false ∧
  getMessageContent m' = visibleContent (parseThinkTags text) ∧
  r_content <$> reasoning m' = nonempty (or_else api (or_else (default [] (r_content <$> reasoning m))
                                           (parsed_reasoning (parseThinkTags text)))) ∧
  (∀ r, reasoning m' = Some r → is_Some (r_durationMs r)).
Proof.
  unfold finalizeMessage. cbn zeta. fold (getMessageContent m). rewrite reasoning_finalize, visible_finalize.
  set (all := or_else api _). match goal with |- context [completeReasoningTiming ?x n2] => set (b := x) end.
  destruct (completeReasoning_keeps b n2) as (-> & -> & _ & -> & -> & -> & Hv & -> & Hd).
  split_and!; try done.
  - unfold getMessageContent, getCurrentVersion. by rewrite Hv.
  - subst b. cbn. by destruct all.
Qed.

(** What is true of a message whose answer is over. *)
Definition finished (done : Z) (m m' : Message) : Prop :=
  key m' = key m ∧ from m' = assistant ∧ isAssistantMessageFinal m' = true ∧
  on (isReasoningStreaming m') = false ∧
  ∃ start, startedAt m' = Some start ∧ completedAt m' = Some done ∧
    durationMs m' = Some (Z.max 0 (done - start)).

Lemma finished_timing st n m m0 :
  from m = assistant → key m = key m0 → st = complete ∨ st = error → status m = Some st →
  on (isReasoningStreaming m) = false → finished n m0 (completeAssistantTiming m n).
Proof.
  intros Hf Hk Hst Hs Hr. unfold completeAssistantTiming. rewrite bool_decide_true by done.
  split_and!; try done; [|eexists; split_and!; reflexivity].
  unfold isAssistantMessageFinal. cbn. rewrite Hs. by destruct Hst as [-> | ->].
Qed.

(** Completing an answer.  When a stream ends, or a complete response comes, the
    assistant's message becomes final and timed, never shows a running stream,
    and shows exactly the visible part of its text; its reasoning is the one the
    server sent, else the one streamed, else the one found between tags, and none
    when there is none. *)
Theorem completion_spec n1 n2 n3 m choice (Hfrom : from m = assistant) :
  let m1 := completeAssistantMessage n1 n2 n3 m in
  let m2 := applyChatCompletionChoice n1 n2 n3 m choice in
  let streamed := default [] (r_content <$> reasoning m) in
  let told text := parsed_reasoning (parseThinkTags text) in
  finished n3 m m1 ∧ finished n3 m m2 ∧
  getMessageContent m1 = visibleContent (parseThinkTags (getMessageContent m)) ∧
  getMessageContent m2 = visibleContent (parseThinkTags (choice_content choice)) ∧
  r_content <$> reasoning m1 = nonempty (or_else streamed (told (getMessageContent m))) ∧
  r_content <$> reasoning m2 =
    nonempty (or_else (reasoning_content choice) (or_else streamed (told (choice_content choice)))).
Proof.
  assert (∀ x, from x = assistant →
    getMessageContent (completeAssistantTiming x n3) = getMessageContent x ∧
    reasoning (completeAssistantTiming x n3) = reasoning x) as Hkeep.
  { intros x Hx. unfold completeAssistantTiming. by rewrite bool_decide_true by done. }
  intros m1 m2 streamed told. subst m1 m2. unfold completeAssistantMessage, applyChatCompletionChoice.
  destruct (finalize_spec n1 n2 m []) as (Hk & Hf & _ & _ & Hr & Hc & Hre & _).
  destruct (finalize_spec n1 n2 (updateCurrentVersionContent m (choice_content choice))
              (reasoning_content choice)) as (Hk' & Hf' & _ & _ & Hr' & Hc' & Hre' & _).
  split_and!.
  - apply (finished_timing complete); [exact (eq_trans Hf Hfrom)|done|by left|done|done].
  - apply (finished_timing complete); [exact (eq_trans Hf' Hfrom)|done|by left|done|done].
  - by destruct (Hkeep _ (eq_trans Hf Hfrom : from (set_status complete _) = _)) as [-> _].
  - by destruct (Hkeep _ (eq_trans Hf' Hfrom : from (set_status complete _) = _)) as [-> _].
  - by destruct (Hkeep _ (eq_trans Hf Hfrom : from (set_status complete _) = _)) as [_ ->].
  - by destruct (Hkeep _ (eq_trans Hf' Hfrom : from (set_status complete _) = _)) as [_ ->].
Qed.

Lemma completion_spec_witness :
  let m := receive chunk_content (createLoadingAssistantMessage (js "k", js "v") 5)
             [(6, 6, js "<think>why</think> because ")] in
  getMessageContent (completeAssistantMessage 7 8 9 m) = js "because" ∧
  durationMs (completeAssistantMessage 7 8 9 m) = Some 4.
Proof.
  intros m. assert (from m = assistant) as Hf by (vm_compute; reflexivity).
  destruct (completion_spec 7 8 9 m (mkChoice [] []) Hf) as (_ & _ & -> & _).
  split; vm_compute; reflexivity.
Defined.
End finished.

(** ** Loading, editing and sending *)
Section conversation.
Implicit Types (m : Message) (ms : list Message).

Lemma last_index_Some p ms i :
  last_index p ms = Some i →
  ∃ m, ms !! i = Some m ∧ p m = true ∧ ∀ j m', (i < j)%nat → ms !! j = Some m' → p m' = false.
Proof.
  unfold last_index. intros ([k m] & Hf & ->)%fmap_Some. cbn [fst].
  apply list_find_Some in Hf as (Hk & Hp & Hbefore).
  assert (k < length ms)%nat as Hlt by (apply lookup_lt_Some in Hk; by rewrite length_reverse in Hk).
  exists m. rewrite reverse_lookup in Hk by done. replace (length ms - S k)%nat with (length ms - 1 - k)%nat in Hk by lia.
  split_and!; [done..|]. intros j m' Hj Hm'. apply not_true_iff_false.
  assert (j < length ms)%nat by (by eapply lookup_lt_Some).
  apply (Hbefore (length ms - S j)%nat); [|lia]. rewrite reverse_lookup by lia.
  by replace (length ms - S (length ms - S j))%nat with j by lia.
Qed.

Lemma last_index_None p ms : last_index p ms = None → Forall (λ m, p m = false) ms.
Proof.
  unfold last_index. intros Hf%fmap_None%list_find_None. apply Forall_reverse in Hf.
  rewrite reverse_involutive in Hf. eapply Forall_impl; [exact Hf|]. intros m. apply not_true_is_false.
Qed.

(** Loading stored messages.  When no message was being answered they are left
    alone.  Otherwise exactly the last message still pending is changed, and made
    final: complete when it has text or reasoning, else an error that says the
    request was interrupted; earlier pending messages stay as they are. *)
Theorem sanitize_last_only t n1 n2 n3 ms :
  let ms' := sanitizeMessagesOnLoad t n1 n2 n3 ms in
  (ms' = ms ∧ Forall (λ m, isPendingAssistantMessage m = false) ms) ∨
  ∃ i m m', ms !! i = Some m ∧ isPendingAssistantMessage m = true ∧
    (∀ j x, (i < j)%nat → ms !! j = Some x → isPendingAssistantMessage x = false) ∧
    ms' = <[i := m']> ms ∧ finished n3 m m' ∧
    (status m' = Some complete ∨
     status m' = Some error ∧ getMessageContent m' = t API_REQUEST_ERROR ++ js ": " ++ t INTERRUPTED).
Proof.
  unfold sanitizeMessagesOnLoad. cbn zeta. destruct (last_index _ ms) as [i|] eqn:Ei.
  2:{ left. split; [done|]. by apply last_index_None. }
  right. apply last_index_Some in Ei as (m & Hm & Hp & Hlater). rewrite Hm.
  exists i, m, (sanitized t n1 n2 n3 m). split_and!; try done.
  all: unfold isPendingAssistantMessage in Hp; apply andb_prop in Hp as [Hf%bool_decide_eq_true _];
    destruct (finalize_spec n1 n2 m []) as (Hk & Hf' & _); unfold sanitized; case_match.
  - apply (finished_timing complete); [exact (eq_trans Hf' Hf)|done|by left|done|done].
  - apply (finished_timing error); [exact (eq_trans Hf' Hf)|done|by right|done|done].
  - left. unfold completeAssistantTiming. by rewrite bool_decide_true by exact (eq_trans Hf' Hf).
  - right. unfold completeAssistantTiming. by rewrite bool_decide_true by exact (eq_trans Hf' Hf).
Qed.

(** The messages sent for a conversation. *)
Definition sent (config : PlaygroundConfig) (enabled : ParameterEnabled) ms : list ChatCompletionMessage :=
  req_messages (buildChatCompletionPayload ms config enabled).

Lemma sent_app config enabled ms1 ms2 :
  sent config enabled (ms1 ++ ms2) = sent config enabled ms1 ++ sent config enabled ms2.
Proof. unfold sent. cbn. by rewrite filter_app, fmap_app. Qed.

Lemma sent_loading config enabled ids now : sent config enabled [createLoadingAssistantMessage ids now] = [].
Proof. done. Qed.

Lemma sent_one config enabled m :
  isValidMessage m = true → sent config enabled [m] = [formatMessageForAPI m].
Proof. intros Hm. unfold sent, buildChatCompletionPayload. cbn [req_messages]. by rewrite filter_cons, decide_True. Qed.

Lemma find_key_Some k ms i : find_key k ms = Some i → ∃ m, ms !! i = Some m ∧ key m = k.
Proof. intros ([j m] & (Hj & Hk & _)%list_find_Some & ->)%fmap_Some. eauto. Qed.

(** What a turn sends.  A new message sends the conversation and that message; an
    answer asked for again sends the conversation up to the message it answers; an
    edited user message that is submitted sends the conversation before it and the
    new text, whatever followed.  The empty answer that is shown meanwhile is never
    sent. *)
Theorem turns_send config enabled now ids1 ids2 ms :
  (∀ text, sent config enabled (appendUserMessagePair now ids1 ids2 ms text) =
     sent config enabled ms ++ [mkApiMessage user (body_text text)]) ∧
  (∀ k ms', createRegeneratedMessages now ids1 ms k = Some ms' →
     ∃ i m, ms !! i = Some m ∧ key m = k ∧
       sent config enabled ms' =
         sent config enabled (take (if bool_decide (from m = user) then S i else i) ms)) ∧
  (∀ k text ms', NoDup (key <$> ms) → applyMessageEdit now ids1 ms k text true = Some (ms', true) →
     ∃ i m, ms !! i = Some m ∧ key m = k ∧
       sent config enabled ms' =
         sent config enabled (take i ms) ++ [mkApiMessage user (body_text text)]).
Proof.
  split_and!.
  - intros text. unfold appendUserMessagePair. rewrite sent_app. done.
  - intros k ms'. unfold createRegeneratedMessages. destruct (find_key k ms) as [i|] eqn:Ei; [|done].
    destruct (find_key_Some _ _ _ Ei) as (m & Hm & Hk).
    cbn [mbind option_bind]. rewrite Hm. cbn [mbind option_bind]. intros [= <-].
    exists i, m. split_and!; try done. rewrite sent_app, sent_loading, app_nil_r.
    case_bool_decide; [by rewrite Nat.add_1_r|done].
  - intros k text ms' Hn. unfold applyMessageEdit. destruct (find_key k ms) as [i|] eqn:Ei; [|done].
    destruct (find_key_Some _ _ _ Ei) as (m & Hm & Hk).
    cbn [mbind option_bind].
    set (edit := λ m, if bool_decide (key m = k) then _ else m).
    rewrite list_lookup_fmap, Hm. cbn [mbind option_bind fmap option_fmap option_map negb orb]. destruct (bool_decide (from (edit m) = user)) eqn:Eu; [|done].
    intros [= <-]. exists i, m. split_and!; try done.
    rewrite sent_app, sent_loading, app_nil_r, Nat.add_1_r.
    assert (take (S i) (edit <$> ms) = take i ms ++ [edit m]) as ->.
    { rewrite (take_S_r _ _ (edit m)) by (by rewrite list_lookup_fmap, Hm). f_equal.
      rewrite <- fmap_take. rewrite <- (list_fmap_id (take i ms)) at 2. apply list_fmap_ext.
      intros j x Hx. unfold edit. rewrite bool_decide_false; [done|]. intros Ex.
      apply lookup_take_Some in Hx as [Hx Hj].
      assert (j = i); [|lia]. eapply (NoDup_lookup (key <$> ms)); [done| |]; rewrite list_lookup_fmap.
      - rewrite Hx. cbn. by rewrite Ex.
      - rewrite Hm. cbn. by rewrite Hk. }
    rewrite sent_app. f_equal. apply bool_decide_eq_true in Eu. unfold edit in *.
    rewrite bool_decide_true in * by done. rewrite sent_one.
    + unfold formatMessageForAPI. by rewrite Eu.
    + unfold isValidMessage. by rewrite Eu.
Qed.
End conversation.
