(* ===== verification/StreamController.v ===== *)
(** The playground's stream controller (web/src/features/playground/hooks/
    use-stream-request.ts: createStreamRequestController and the state of
    useStreamRequest), as a state machine.

    The state is the controller's variables, React's [isStreaming], whether the
    component is mounted, which event sources were made and not closed, and the
    variables of every call of [send]: its generation, and whether it awaits its
    headers, listens to a source (with its [completed] flag) or returned.  An event
    is a call from the page, the settling of a headers promise, or an event of a
    source; sources are the runtime's and may deliver events at any time, closed or
    not.  The callbacks do not call the controller back, as those of
    use-chat-handler.ts do not; [onUpdate] may throw. *)
From S2P Require Import Prelude JsString JsValue Json Actions ChatMessages.
Open Scope Z_scope.

Module Stream.

(** A call of [send]: its variables after the first statements. *)
Inductive Phase :=
| awaiting
| attached (sid : nat) (completed : bool)
| returned.
#[export] Instance Phase_eq_dec : EqDecision Phase.
Proof. solve_decision. Defined.
Record Req := mkReq { req_generation : nat; payload : ChatCompletionRequest; phase : Phase }.

Record State := mkState {
  source : option nat; generation : nat; isStreaming : bool; mounted : bool;
  requests : list Req; made : nat; opened : list nat }.

Definition set_source (x : option nat) (s : State) : State :=
  mkState x (generation s) (isStreaming s) (mounted s) (requests s) (made s) (opened s).
Definition set_generation (x : nat) (s : State) : State :=
  mkState (source s) x (isStreaming s) (mounted s) (requests s) (made s) (opened s).
Definition setStreaming (x : bool) (s : State) : State :=
  mkState (source s) (generation s) x (mounted s) (requests s) (made s) (opened s).
Definition set_mounted (x : bool) (s : State) : State :=
  mkState (source s) (generation s) (isStreaming s) x (requests s) (made s) (opened s).
Definition set_requests (x : list Req) (s : State) : State :=
  mkState (source s) (generation s) (isStreaming s) (mounted s) x (made s) (opened s).
Definition set_made (x : nat) (s : State) : State :=
  mkState (source s) (generation s) (isStreaming s) (mounted s) (requests s) x (opened s).
Definition set_opened (x : list nat) (s : State) : State :=
  mkState (source s) (generation s) (isStreaming s) (mounted s) (requests s) (made s) x.

(** What the controller asks of the runtime, and its calls of a request's callbacks. *)
Inductive Out :=
| getHeaders (rid : nat)
| createSource (rid sid : nat) (p : ChatCompletionRequest)
| startStream (sid : nat)
| closeSource (sid : nat)
| onUpdate (rid : nat) (type : StreamChunkType) (chunk : jsval)
| onComplete (rid : nat)
| onError (rid : nat) (message code : jsval).

Abbreviation A := (act State Out).
Open Scope act_scope.

(** [target.close()]. *)
Definition close (sid : nat) : A :=
  upd (λ s, set_opened (filter (λ x, x ≠ sid) (opened s)) s) ;; emit (closeSource sid).
Definition closeOption (target : option nat) : A :=
  match target with Some sid => close sid | None => skip end.

Definition closeActiveSource (target : nat) : A :=
  close target ;;
  when (λ s, bool_decide (source s = Some target)) (upd (λ s, setStreaming false (set_source None s))).

Definition set_phase (rid : nat) (p : Phase) (s : State) : State :=
  match requests s !! rid with
  | Some r => set_requests (<[rid := mkReq (req_generation r) (payload r) p]> (requests s)) s
  | None => s
  end.

(** [send] up to its [await]. *)
Definition send (p : ChatCompletionRequest) : A := λ s,
  let requestGeneration := S (generation s) in
  let rid := length (requests s) in
  (upd (set_generation requestGeneration) ;;
   reading source (λ previousSource, upd (set_source None) ;; closeOption previousSource) ;;
   upd (setStreaming false) ;;
   upd (λ s, set_requests (requests s ++ [mkReq requestGeneration p awaiting]) s) ;;
   emit (getHeaders rid)) s.

(** The promise of the headers is rejected, with the message of an Error or with
    something else. *)
Definition headersFailed (rid : nat) (r : Req) (message : option jsstring) : A :=
  upd (set_phase rid returned) ;;
  when (λ s, bool_decide (generation s = req_generation r))
    (emit (onError rid (JStr (default STREAM_START_ERROR message)) JUndef)).

Definition isCurrent (r : Req) (sid : nat) (s : State) : bool :=
  bool_decide (generation s = req_generation r) && bool_decide (source s = Some sid).

(** The promise of the headers is fulfilled. *)
Definition headersReady (rid : nat) (r : Req) : A :=
  upd (set_phase rid returned) ;;
  when (λ s, bool_decide (generation s = req_generation r))
    (reading made (λ sid,
      upd (λ s, set_opened (opened s ++ [sid]) (set_made (S sid) s)) ;;
      emit (createSource rid sid (payload r)) ;;
      upd (set_source (Some sid)) ;; upd (setStreaming true) ;;
      upd (set_phase rid (attached sid false)) ;;
      when (isCurrent r sid) (emit (startStream sid)))).

(** [isCurrent() && !completed]. *)
Definition live (rid : nat) (sid : nat) (s : State) : bool :=
  match requests s !! rid with
  | Some r => isCurrent r sid s && bool_decide (phase r = attached sid false)
  | None => false
  end.

Definition handleError (rid sid : nat) (message code : jsval) : A :=
  when (live rid sid)
    (upd (set_phase rid (attached sid true)) ;; emit (onError rid message code) ;; closeActiveSource sid).

(** The calls of [onUpdate]; the call of index [thrown], if there is one, throws. *)
Definition emitUpdates (rid : nat) (updates : list (StreamChunkType * jsval)) : A :=
  λ s, (s, (λ u, onUpdate rid u.1 u.2) <$> updates).

Definition message (rid sid : nat) (data : jsstring) (thrown : option nat) : A :=
  when (live rid sid)
    (if isStreamDoneMessage data then
       upd (set_phase rid (attached sid true)) ;; closeActiveSource sid ;; emit (onComplete rid)
     else
       match parseStreamMessageUpdates data with
       | None => handleError rid sid (JStr PARSE_ERROR) JUndef
       | Some updates =>
           match thrown with
           | Some i => emitUpdates rid (take (S i) updates) ;;
                       if (i <? length updates)%nat
                       then handleError rid sid (JStr PARSE_ERROR) JUndef else skip
           | None => emitUpdates rid updates
           end
       end).

Definition errorEvent (rid sid : nat) (data : jsstring) (readyState : option Z) : A :=
  when (live rid sid)
    (if negb (isStreamClosedReadyState readyState) then
       let d := parseStreamErrorDetails data in handleError rid sid (err_message d) (err_code d)
     else skip).

Definition readyStateChange (rid sid : nat) (readyState status : option Z) : A :=
  when (live rid sid)
    match getStreamReadyStateError readyState status with
    | Some e => handleError rid sid (JStr e) JUndef
    | None => skip
    end.

(** [nextSource.stream()] throws. *)
Definition streamThrew (rid sid : nat) : A :=
  when (live rid sid) (handleError rid sid (JStr STREAM_START_ERROR) JUndef).

Definition cancel (notify : bool) : A :=
  upd (λ s, set_generation (S (generation s)) s) ;;
  reading source (λ activeSource, upd (set_source None) ;; closeOption activeSource) ;;
  (if notify then upd (setStreaming false) else skip).

Definition stop : A := cancel true.
Definition dispose : A := cancel false.

(** ** Runs *)
Inductive Event :=
| Send (p : ChatCompletionRequest)
| HeadersFailed (rid : nat) (msg : option jsstring)
| HeadersReady (rid : nat)
| OnMessage (rid : nat) (data : jsstring) (thrown : option nat)
| OnError (rid : nat) (data : jsstring) (readyState : option Z)
| OnReadyState (rid : nat) (readyState status : option Z)
| StreamThrew (rid : nat)
| Stop
| Unmount.

(** A headers promise settles once; a source delivers events to the request that
    listens to it; the page calls only while it is mounted. *)
Definition handle (e : Event) : A := λ s,
  let awaited rid (k : Req → A) := match requests s !! rid with Some r => k r s | None => (s, []) end in
  let listening rid (k : nat → A) :=
    match requests s !! rid with
    | Some r => match phase r with attached sid _ => k sid s | _ => (s, []) end
    | None => (s, [])
    end in
  match e with
  | Send p => send p s
  | HeadersFailed rid msg => awaited rid (λ r, headersFailed rid r msg)
  | HeadersReady rid => awaited rid (headersReady rid)
  | OnMessage rid data thrown => listening rid (λ sid, message rid sid data thrown)
  | OnError rid data readyState => listening rid (λ sid, errorEvent rid sid data readyState)
  | OnReadyState rid readyState status => listening rid (λ sid, readyStateChange rid sid readyState status)
  | StreamThrew rid => listening rid (streamThrew rid)
  | Stop => stop s
  | Unmount => (dispose ;; upd (set_mounted false)) s
  end.

Definition enabled (e : Event) (s : State) : Prop :=
  let waits rid := ∃ r, requests s !! rid = Some r ∧ phase r = awaiting in
  let listens rid := ∃ r sid c, requests s !! rid = Some r ∧ phase r = attached sid c in
  match e with
  | Send _ | Stop | Unmount => mounted s = true
  | HeadersFailed rid _ | HeadersReady rid => waits rid
  | OnMessage rid _ _ | OnError rid _ _ | OnReadyState rid _ _ | StreamThrew rid => listens rid
  end.

Definition step : State → Event * list Out → State → Prop := machine_step enabled handle.

Definition init : State := mkState None 0 false true [] 0 [].

(** ** The invariant *)
Record inv (s : State) : Prop := {
  (** The only source not closed is the current one. *)
  inv_opened : opened s = option_list (source s);
  inv_made : ∀ rid r sid c, requests s !! rid = Some r → phase r = attached sid c → (sid < made s)%nat;
  (** Generations increase with the requests, and none is ahead of the controller. *)
  inv_order : ∀ i j r r', requests s !! i = Some r → requests s !! j = Some r' → (i < j)%nat →
                (req_generation r < req_generation r')%nat;
  inv_past : ∀ i r, requests s !! i = Some r → (req_generation r <= generation s)%nat;
  (** A source belongs to one request; the current one to the latest, which is not over. *)
  inv_owner : ∀ i j r r' sid c c', requests s !! i = Some r → requests s !! j = Some r' →
                phase r = attached sid c → phase r' = attached sid c' → i = j;
  inv_current : ∀ sid, source s = Some sid → (sid < made s)%nat ∧ ∃ rid r, requests s !! rid = Some r ∧
                  phase r = attached sid false ∧ req_generation r = generation s;
  inv_streaming : mounted s = true → isStreaming s = bool_decide (is_Some (source s));
}.

Lemma stream_inv_init : inv init.
Proof. split; try done; intros; by rewrite lookup_nil in *. Qed.

Lemma closeOption_eq target s :
  closeOption target s = (set_opened (filter (λ x, Some x ≠ target) (opened s)) s,
                          option_list (closeSource <$> target)).
Proof.
  destruct target as [sid|]; cbn.
  - unfold close, seq_act, upd, emit. cbn. f_equal. f_equal. apply list_filter_iff. naive_solver.
  - unfold skip. rewrite filter_all; [by destruct s|]. by apply Forall_forall.
Qed.

(** ** What the handlers do, in one piece *)

(** Nothing is current any more, under a new generation. *)
Definition cut (streaming : bool) (s : State) : State :=
  mkState None (S (generation s)) streaming (mounted s) (requests s) (made s) [].
(** The current source is over. *)
Definition ended (rid sid : nat) (s : State) : State :=
  set_opened [] (setStreaming false (set_source None (set_phase rid (attached sid true) s))).

Definition closing (s : State) : list Out := option_list (closeSource <$> source s).

Lemma filter_current s : inv s → filter (λ x, Some x ≠ source s) (opened s) = [].
Proof.
  intros Hi. rewrite (inv_opened _ Hi). destruct (source s) as [sid|]; [|done].
  change (option_list (Some sid)) with [sid]. rewrite filter_cons. by rewrite decide_False by naive_solver.
Qed.

Lemma send_eq p s : inv s →
  send p s = (set_requests (requests s ++ [mkReq (S (generation s)) p awaiting]) (cut false s),
              closing s ++ [getHeaders (length (requests s))]).
Proof.
  intros Hi. unfold send, seq_act, upd, reading, emit. cbn [source set_generation set_source].
  rewrite closeOption_eq. cbn [opened set_source set_generation]. rewrite filter_current by done.
  unfold closing. cbn [app]. by rewrite <- ?app_assoc.
Qed.

Lemma cancel_eq b s : inv s →
  cancel b s = (cut (if b then false else isStreaming s) s, closing s).
Proof.
  intros Hi. unfold cancel, seq_act, upd, reading. cbn [source set_generation set_source].
  rewrite closeOption_eq. cbn [opened set_source set_generation]. rewrite filter_current by done.
  destruct b; unfold skip; cbn; by rewrite app_nil_r.
Qed.

(** The request that listens to the current source. *)
Lemma live_spec rid sid s : live rid sid s = true →
  source s = Some sid ∧ ∃ r, requests s !! rid = Some r ∧ phase r = attached sid false ∧
    req_generation r = generation s.
Proof.
  unfold live, isCurrent. destruct (requests s !! rid) as [r|]; [|done]. rewrite !andb_true_iff, !bool_decide_eq_true.
  intros [[Hg Hs] Hp]. split; [done|]. by exists r.
Qed.

Lemma set_phase_eq rid r p s : requests s !! rid = Some r →
  set_phase rid p s = set_requests (<[rid := mkReq (req_generation r) (payload r) p]> (requests s)) s.
Proof. intros Hr. unfold set_phase. by rewrite Hr. Qed.

Lemma closeActive_eq rid sid s : inv s → source s = Some sid → is_Some (requests s !! rid) →
  closeActiveSource sid (set_phase rid (attached sid true) s) = (ended rid sid s, [closeSource sid]).
Proof.
  intros Hi Hs [r Hr]. unfold closeActiveSource, close, seq_act, when, ite, upd, emit, skip, ended.
  rewrite (set_phase_eq _ r) by done. cbn. rewrite Hs, bool_decide_true by done. cbn.
  pose proof (filter_current s Hi) as Hf. rewrite Hs in Hf.
  replace (filter (λ x, x ≠ sid) (opened s)) with ([] : list nat); [done|].
  rewrite <- Hf. apply list_filter_iff. naive_solver.
Qed.

Lemma handleError_eq rid sid msg code s : inv s →
  handleError rid sid msg code s =
  if live rid sid s then (ended rid sid s, [onError rid msg code; closeSource sid]) else (s, []).
Proof.
  intros Hi. unfold handleError, when, ite. destruct (live rid sid s) eqn:El; [|done].
  apply live_spec in El as (Hs & r & Hr & _). unfold seq_act at 1 2, upd, emit.
  rewrite closeActive_eq by eauto. done.
Qed.

(** ** The invariant is kept *)
Lemma inv_cut b s : inv s → (mounted s = true → b = false) → inv (cut b s).
Proof.
  intros Hi Hb. split; cbn; try apply Hi; try done.
  intros i r Hr. pose proof (inv_past _ Hi i r Hr). lia.
Qed.

Lemma inv_fresh p s : inv s →
  inv (set_requests (requests s ++ [mkReq (S (generation s)) p awaiting]) (cut false s)).
Proof.
  intros Hi.
  assert (∀ i r, (requests s ++ [mkReq (S (generation s)) p awaiting]) !! i = Some r →
    requests s !! i = Some r ∧ (i < length (requests s))%nat ∨
    i = length (requests s) ∧ r = mkReq (S (generation s)) p awaiting) as Hl.
  { intros i r [Hr|[Hi' Hr]]%lookup_app_Some.
    - left. split; [done|]. by eapply lookup_lt_Some.
    - right. apply list_lookup_singleton_Some in Hr as [? <-]. split; [lia|done]. }
  split; cbn; try done.
  - intros i r sid c [[Hr _]|[-> ->]]%Hl; [by eapply (inv_made _ Hi)|done].
  - intros i j r r' [[Hr Hlt]|[-> ->]]%Hl [[Hr' Hlt']|[-> ->]]%Hl Hij; try lia.
    + by eapply (inv_order _ Hi).
    + cbn. pose proof (inv_past _ Hi i r Hr). lia.
  - intros i r [[Hr _]|[-> ->]]%Hl; [|done]. pose proof (inv_past _ Hi i r Hr). lia.
  - intros i j r r' sid c c' [[Hr _]|[-> ->]]%Hl [[Hr' _]|[-> ->]]%Hl; try done.
    by apply (inv_owner _ Hi).
Qed.

Lemma lookup_phase rid r p s i x :
  requests s !! rid = Some r → requests (set_phase rid p s) !! i = Some x →
  (i = rid ∧ x = mkReq (req_generation r) (payload r) p) ∨ (i ≠ rid ∧ requests s !! i = Some x).
Proof.
  intros Hr. rewrite (set_phase_eq _ r) by done. cbn. intros [(-> & -> & _)|[? ?]]%list_lookup_insert_Some;
    [by left|by right].
Qed.

(** Changing the phase of a request to one that has no source, or to one that has the
    source it had, or a new one. *)
Lemma inv_order_phase rid r p s i j x y :
  inv s → requests s !! rid = Some r →
  requests (set_phase rid p s) !! i = Some x → requests (set_phase rid p s) !! j = Some y → (i < j)%nat →
  (req_generation x < req_generation y)%nat.
Proof.
  intros Hi Hr [[-> ->]|[? Hx]]%(lookup_phase _ _ _ _ _ _ Hr) [[-> ->]|[? Hy]]%(lookup_phase _ _ _ _ _ _ Hr) Hij; cbn.
  - lia.
  - by apply (inv_order _ Hi rid j).
  - by apply (inv_order _ Hi i rid).
  - by apply (inv_order _ Hi i j).
Qed.

Lemma set_phase_keeps rid p s :
  source (set_phase rid p s) = source s ∧ generation (set_phase rid p s) = generation s ∧
  made (set_phase rid p s) = made s ∧ opened (set_phase rid p s) = opened s ∧
  mounted (set_phase rid p s) = mounted s ∧ isStreaming (set_phase rid p s) = isStreaming s.
Proof. unfold set_phase. by destruct (requests s !! rid). Qed.

Lemma inv_past_phase rid r p s i x :
  inv s → requests s !! rid = Some r → requests (set_phase rid p s) !! i = Some x →
  (req_generation x <= generation s)%nat.
Proof.
  intros Hi Hr [[-> ->]|[_ Hx]]%(lookup_phase _ _ _ _ _ _ Hr); cbn.
  - by apply (inv_past _ Hi rid).
  - by apply (inv_past _ Hi i).
Qed.

Lemma inv_returned rid r s : inv s → requests s !! rid = Some r → phase r = awaiting →
  inv (set_phase rid returned s).
Proof.
  intros Hi Hr Hp. destruct (set_phase_keeps rid returned s) as (Es & Eg & Em & Eo & Emt & Est).
  split; rewrite ?Es, ?Eg, ?Em, ?Eo, ?Emt, ?Est; try apply Hi.
  - intros i x sid c [[-> ->]|[_ Hx]]%(lookup_phase _ _ _ _ _ _ Hr); [done|by eapply (inv_made _ Hi)].
  - intros i j x y. by apply (inv_order_phase _ r).
  - intros i x. by apply (inv_past_phase _ r).
  - intros i j x y sid c c' [[-> ->]|[_ Hx]]%(lookup_phase _ _ _ _ _ _ Hr) [[-> ->]|[_ Hy]]%(lookup_phase _ _ _ _ _ _ Hr);
      try done. by apply (inv_owner _ Hi).
  - intros sid Hs. destruct (inv_current _ Hi sid Hs) as [Hlt (rid' & r' & Hr' & Hp' & Hg')].
    split; [done|]. exists rid', r'. split_and!; try done.
    rewrite (set_phase_eq _ r) by done. cbn. rewrite list_lookup_insert_ne; [done|]. intros <-. congruence.
Qed.

(** The current generation's request, while it awaits its headers, is alone. *)
Lemma awaiting_alone rid r s :
  inv s → requests s !! rid = Some r → phase r = awaiting → req_generation r = generation s →
  source s = None.
Proof.
  intros Hi Hr Hp Hg. destruct (source s) as [sid|] eqn:Es; [|done].
  destruct (inv_current _ Hi sid Es) as [_ (rid' & r' & Hr' & Hp' & Hg')].
  destruct (Nat.lt_trichotomy rid rid') as [Hlt|[<-|Hlt]]; [|congruence|].
  - pose proof (inv_order _ Hi _ _ _ _ Hr Hr' Hlt). lia.
  - pose proof (inv_order _ Hi _ _ _ _ Hr' Hr Hlt). lia.
Qed.

(** A source is attached. *)
Definition started (rid : nat) (s : State) : State :=
  set_phase rid (attached (made s) false)
    (mkState (Some (made s)) (generation s) true (mounted s) (requests s) (S (made s)) [made s]).

Lemma inv_started rid r s :
  inv s → requests s !! rid = Some r → phase r = awaiting → req_generation r = generation s →
  inv (started rid s).
Proof.
  intros Hi Hr Hp Hg. unfold started. rewrite (set_phase_eq _ r) by done. cbn.
  set (reqs := <[rid := _]> (requests s)).
  assert (∀ i x, reqs !! i = Some x →
    (i = rid ∧ x = mkReq (req_generation r) (payload r) (attached (made s) false)) ∨
    (i ≠ rid ∧ requests s !! i = Some x)) as Hl.
  { intros i x [(-> & -> & _)|[? ?]]%list_lookup_insert_Some; [by left|by right]. }
  split; cbn; try done.
  - intros i x sid c [[-> ->]|[_ Hx]]%Hl Hc; [injection Hc as <- _; lia|].
    pose proof (inv_made _ Hi _ _ _ _ Hx Hc). lia.
  - intros i j x y Hx Hy. apply (inv_order_phase rid r (attached (made s) false) s i j x y Hi Hr);
      rewrite (set_phase_eq _ _ _ _ Hr); done.
  - intros i x [[-> ->]|[_ Hx]]%Hl; cbn; [lia|by apply (inv_past _ Hi i)].
  - intros i j x y sid c c' [[-> ->]|[Hne Hx]]%Hl [[-> ->]|[Hne' Hy]]%Hl Hc Hc'; cbn in *; [done| | |].
    + injection Hc as <- _. pose proof (inv_made _ Hi _ _ _ _ Hy Hc'). lia.
    + injection Hc' as <- _. pose proof (inv_made _ Hi _ _ _ _ Hx Hc). lia.
    + by eapply (inv_owner _ Hi).
  - intros sid [= <-]. split; [lia|]. exists rid. eexists. split.
    + unfold reqs. apply list_lookup_insert_eq. by eapply lookup_lt_Some.
    + done.
Qed.

Lemma inv_ended rid sid r s :
  inv s → requests s !! rid = Some r → phase r = attached sid false → inv (ended rid sid s).
Proof.
  intros Hi Hr Hp. destruct (set_phase_keeps rid (attached sid true) s) as (Es & Eg & Em & Eo & Emt & Est).
  unfold ended. split; cbn; rewrite ?Eg, ?Em; try done.
  - intros i x sid' c [[-> ->]|[_ Hx]]%(lookup_phase _ _ _ _ _ _ Hr) Hc; [|by eapply (inv_made _ Hi)].
    injection Hc as <- _. by eapply (inv_made _ Hi).
  - intros i j x y. by apply (inv_order_phase _ r).
  - intros i x. by apply (inv_past_phase _ r).
  - intros i j x y sid' c c' [[-> ->]|[? Hx]]%(lookup_phase _ _ _ _ _ _ Hr)
      [[-> ->]|[? Hy]]%(lookup_phase _ _ _ _ _ _ Hr) Hc Hc'; cbn in *; [done| | |].
    + injection Hc as <- _. by eapply (inv_owner _ Hi).
    + injection Hc' as <- _. by eapply (inv_owner _ Hi).
    + by eapply (inv_owner _ Hi).
Qed.

(** ** The effect of a step *)
Definition update_of (rid : nat) (o : Out) : Prop := ∃ type chunk, o = onUpdate rid type chunk.

Inductive effect (s : State) : list Out → State → Prop :=
| eff_quiet : effect s [] s
| eff_send p :
    effect s (closing s ++ [getHeaders (length (requests s))])
      (set_requests (requests s ++ [mkReq (S (generation s)) p awaiting]) (cut false s))
| eff_stop : effect s (closing s) (cut false s)
| eff_unmount : effect s (closing s) (set_mounted false (cut (isStreaming s) s))
| eff_refused rid r msg o :
    requests s !! rid = Some r → phase r = awaiting →
    o = (if bool_decide (generation s = req_generation r) then [onError rid msg JUndef] else []) →
    effect s o (set_phase rid returned s)
| eff_stale rid r :
    requests s !! rid = Some r → phase r = awaiting → generation s ≠ req_generation r →
    effect s [] (set_phase rid returned s)
| eff_started rid r :
    requests s !! rid = Some r → phase r = awaiting → generation s = req_generation r →
    effect s [createSource rid (made s) (payload r); startStream (made s)] (started rid s)
| eff_updates rid sid us : live rid sid s = true → Forall (update_of rid) us → effect s us s
| eff_error rid sid us msg code :
    live rid sid s = true → Forall (update_of rid) us →
    effect s (us ++ [onError rid msg code; closeSource sid]) (ended rid sid s)
| eff_complete rid sid :
    live rid sid s = true → effect s [closeSource sid; onComplete rid] (ended rid sid s).

Lemma set_phase_twice rid p q s : set_phase rid q (set_phase rid p s) = set_phase rid q s.
Proof.
  unfold set_phase at 2. destruct (requests s !! rid) as [r|] eqn:Er; [|done].
  assert (rid < length (requests s))%nat by (by eapply lookup_lt_Some).
  rewrite (set_phase_eq _ (mkReq (req_generation r) (payload r) p)), (set_phase_eq _ r) by
    (cbn; rewrite ?list_lookup_insert_eq by done; done).
  cbn. by rewrite list_insert_insert_eq.
Qed.

Lemma headersReady_effect rid r s s' o :
  inv s → requests s !! rid = Some r → phase r = awaiting →
  headersReady rid r s = (s', o) → effect s o s'.
Proof.
  intros Hi Hr Hp. unfold headersReady, seq_act at 1, upd at 1, when at 1, ite at 1.
  destruct (set_phase_keeps rid returned s) as (Es & Eg & Em & Eo & Emt & Est). rewrite Eg.
  case_bool_decide as Hg; [|intros [= <- <-]; by apply (eff_stale s rid r)].
  assert (source s = None) as Hs by (by eapply awaiting_alone).
  unfold reading. rewrite Em. set (s1 := mkState (Some (made s)) (generation s) true (mounted s)
                      (requests (set_phase rid returned s)) (S (made s)) [made s]).
  assert (set_phase rid (attached (made s) false) s1 = started rid s) as E1.
  { etransitivity; [|apply (set_phase_twice rid returned)]. f_equal. unfold s1, set_phase.
    cbn [requests]. by rewrite Hr. }
  assert (setStreaming true (set_source (Some (made s)) (set_opened (opened (set_phase rid returned s) ++ [made s])
            (set_made (S (made s)) (set_phase rid returned s)))) = s1) as E2.
  { unfold s1. rewrite Eo, (inv_opened _ Hi), Hs. unfold set_phase. by rewrite Hr. }
  unfold seq_act, upd, emit, when, ite, skip. rewrite E2, E1.
  assert (isCurrent r (made s) (started rid s) = true) as ->.
  { unfold isCurrent, started. rewrite (set_phase_eq rid r) by done. cbn.
    by rewrite !bool_decide_true. }
  intros [= <- <-]. by apply (eff_started s rid r).
Qed.

Lemma updates_of rid us : Forall (update_of rid) ((λ u : StreamChunkType * jsval, onUpdate rid u.1 u.2) <$> us).
Proof. apply Forall_fmap, Forall_forall. intros [ty c] _. by exists ty, c. Qed.

Lemma handleError_live rid sid msg code s s' o :
  inv s → live rid sid s = true → handleError rid sid msg code s = (s', o) → effect s o s'.
Proof.
  intros Hi Hl. rewrite handleError_eq, Hl by done. intros [= <- <-].
  by apply (eff_error s rid sid [] msg code).
Qed.

Lemma message_effect rid sid data thrown s s' o :
  inv s → message rid sid data thrown s = (s', o) → effect s o s'.
Proof.
  intros Hi. unfold message, when, ite. destruct (live rid sid s) eqn:Hl; [|intros [= <- <-]; constructor].
  destruct (isStreamDoneMessage data).
  - destruct (live_spec _ _ _ Hl) as (Hs & r & Hr & _). unfold seq_act, upd, emit.
    rewrite closeActive_eq by eauto. intros [= <- <-]. by apply eff_complete.
  - destruct (parseStreamMessageUpdates data) as [us|]; [|by apply handleError_live].
    destruct thrown as [j|].
    + unfold seq_act, emitUpdates. destruct (_ <? _)%nat.
      * rewrite handleError_eq, Hl by done. intros [= <- <-].
        apply eff_error; [done|apply updates_of].
      * intros [= <- <-]. rewrite app_nil_r. by apply (eff_updates s rid sid); [|apply updates_of].
    + intros [= <- <-]. by apply (eff_updates s rid sid); [|apply updates_of].
Qed.

Lemma step_effect s l s' : inv s → step s l s' → effect s l.2 s'.
Proof.
  intros Hi [Hen Hh]. destruct l as [e o]. cbn [fst snd] in *. destruct e; cbn in Hen; cbn [handle] in Hh.
  - rewrite send_eq in Hh by done. injection Hh as <- <-. apply eff_send.
  - destruct Hen as (r & Hr & Hp). rewrite Hr in Hh.
    unfold headersFailed, seq_act, upd, when, ite, emit, skip in Hh.
    destruct (set_phase_keeps rid returned s) as (_ & Eg & _). rewrite Eg in Hh.
    assert (s' = set_phase rid returned s) as -> by (case_bool_decide; by injection Hh).
    apply (eff_refused _ _ r (JStr (default STREAM_START_ERROR msg))); [done|done|].
    case_bool_decide; by injection Hh.
  - destruct Hen as (r & Hr & Hp). rewrite Hr in Hh. by eapply headersReady_effect.
  - destruct Hen as (r & sid & c & Hr & Hp). rewrite Hr, Hp in Hh. by eapply message_effect.
  - destruct Hen as (r & sid & c & Hr & Hp). rewrite Hr, Hp in Hh. unfold errorEvent, when, ite in Hh.
    destruct (live rid sid s) eqn:Hl; [|injection Hh as <- <-; constructor].
    destruct (negb _); [by eapply handleError_live|injection Hh as <- <-; constructor].
  - destruct Hen as (r & sid & c & Hr & Hp). rewrite Hr, Hp in Hh. unfold readyStateChange, when, ite in Hh.
    destruct (live rid sid s) eqn:Hl; [|injection Hh as <- <-; constructor].
    destruct (getStreamReadyStateError _ _); [by eapply handleError_live|injection Hh as <- <-; constructor].
  - destruct Hen as (r & sid & c & Hr & Hp). rewrite Hr, Hp in Hh. unfold streamThrew, when, ite in Hh.
    destruct (live rid sid s) eqn:Hl; [by eapply handleError_live|injection Hh as <- <-; constructor].
  - unfold stop in Hh. rewrite cancel_eq in Hh by done. injection Hh as <- <-. apply eff_stop.
  - unfold dispose, seq_act, upd in Hh. rewrite cancel_eq in Hh by done. injection Hh as <- <-.
    rewrite app_nil_r. apply eff_unmount.
Qed.

Lemma effect_inv s o s' : inv s → effect s o s' → inv s'.
Proof.
  intros Hi. destruct 1 as [|p| | |rid r msg o Hr Hp _|rid r Hr Hp _|rid r Hr Hp Hg|rid sid us _ _
    |rid sid us msg code Hl _|rid sid Hl]; try done.
  - by apply inv_fresh.
  - by apply inv_cut.
  - assert (inv (cut false s)) as Hc by (by apply inv_cut). split; cbn; try apply Hc; done.
  - by eapply inv_returned.
  - by eapply inv_returned.
  - by eapply inv_started.
  - destruct (live_spec _ _ _ Hl) as (_ & r & Hr & Hp & _). by eapply inv_ended.
  - destruct (live_spec _ _ _ Hl) as (_ & r & Hr & Hp & _). by eapply inv_ended.
Qed.

Lemma stream_step_inv s l s' : inv s → step s l s' → inv s'.
Proof. intros Hi Hst. eapply effect_inv; [done|by apply step_effect]. Qed.

Lemma run_inv ls s : reaches step init ls s → inv s.
Proof. apply reaches_inv; [apply stream_step_inv|apply stream_inv_init]. Qed.

(** ** Callbacks *)
Definition about (rid : nat) (o : Out) : bool :=
  match o with
  | onUpdate r _ _ | onComplete r | onError r _ _ => (r =? rid)%nat
  | _ => false
  end.
(** The callbacks of a request in a list of calls. *)
Definition callbacks (rid : nat) (os : list Out) : list Out := filter (λ o, about rid o = true) os.
Definition terminal (o : Out) : bool := match o with onComplete _ | onError _ _ _ => true | _ => false end.

(** A request that is over, or whose headers failed. *)
Definition finished (rid : nat) (s : State) : Prop :=
  ∃ r, requests s !! rid = Some r ∧ (phase r = returned ∨ ∃ sid, phase r = attached sid true).
(** A request whose callbacks may be called. *)
Definition current (rid : nat) (s : State) : Prop :=
  ∃ r, requests s !! rid = Some r ∧ req_generation r = generation s ∧
    (phase r = awaiting ∨ ∃ sid, phase r = attached sid false ∧ source s = Some sid).

Lemma callbacks_app rid a b : callbacks rid (a ++ b) = callbacks rid a ++ callbacks rid b.
Proof. apply filter_app. Qed.

Lemma callbacks_updates rid rid' us : Forall (update_of rid) us →
  callbacks rid' us = if decide (rid' = rid) then us else [].
Proof.
  unfold callbacks. induction 1 as [|o us (ty & c & ->) _ IH]; [by case_decide|].
  rewrite filter_cons, IH. cbn [about]. destruct (decide (rid' = rid)) as [->|Hne].
  - by rewrite decide_True by apply Nat.eqb_refl.
  - rewrite decide_False; [done|]. intros E%Nat.eqb_eq. congruence.
Qed.

Lemma callbacks_closing rid s : callbacks rid (closing s) = [].
Proof. unfold closing. by destruct (source s). Qed.

Lemma callbacks_one rid rid' o : about rid o = true →
  callbacks rid' [o] = if decide (rid' = rid) then [o] else [].
Proof.
  intros Ho. unfold callbacks. rewrite filter_cons, filter_nil.
  assert (about rid' o = true ↔ rid' = rid) as E; [|repeat case_decide; tauto].
  destruct o; try done; cbn in *; apply Nat.eqb_eq in Ho as ->; rewrite Nat.eqb_eq; naive_solver.
Qed.

(** What a step does with a request's callbacks. *)
Definition calls_of (rid : nat) (s : State) (os : list Out) (s' : State) : Prop :=
  callbacks rid os = [] ∨
  current rid s ∧ ∃ us, Forall (update_of rid) us ∧
    (callbacks rid os = us ∨
     ∃ x, terminal x = true ∧ callbacks rid os = us ++ [x] ∧ finished rid s').

Lemma live_current rid sid s : live rid sid s = true → current rid s.
Proof. intros (Hs & r & Hr & Hp & Hg)%live_spec. exists r. split_and!; try done. right. by exists sid. Qed.

Lemma ended_finished rid sid s : live rid sid s = true → finished rid (ended rid sid s).
Proof.
  intros (Hs & r & Hr & Hp & Hg)%live_spec. unfold finished, ended. cbn. rewrite (set_phase_eq _ r) by done. cbn.
  rewrite list_lookup_insert_eq by (by eapply lookup_lt_Some). eexists. split; [done|]. right. by exists sid.
Qed.

Lemma effect_calls rid s o s' : inv s → effect s o s' → calls_of rid s o s'.
Proof.
  intros Hi. destruct 1 as [|p| | |rid' r msg o Hr Hp Ho|rid' r Hr Hp Hg|rid' r Hr Hp Hg|rid' sid us Hl Hus
    |rid' sid us msg code Hl Hus|rid' sid Hl]; try by left.
  - left. by rewrite callbacks_app, callbacks_closing.
  - left. apply callbacks_closing.
  - left. apply callbacks_closing.
  - subst o. case_bool_decide as Hg; [|by left]. unfold calls_of.
    rewrite (callbacks_one rid') by (cbn; apply Nat.eqb_refl). case_decide; [subst|by left].
    right. split; [exists r; split_and!; auto|]. exists []. split; [constructor|]. right.
    eexists. split_and!; [|done|]; [done|]. unfold finished. rewrite (set_phase_eq _ r) by done. cbn.
    rewrite list_lookup_insert_eq by (by eapply lookup_lt_Some). eauto.
  - unfold calls_of. rewrite (callbacks_updates rid') by done. case_decide; [subst|by left].
    right. split; [by eapply live_current|]. exists us. auto.
  - unfold calls_of. change [onError rid' msg code; closeSource sid] with ([onError rid' msg code] ++ [closeSource sid]).
    rewrite !callbacks_app, (callbacks_updates rid') by done.
    rewrite (callbacks_one rid' rid (onError rid' msg code)) by (cbn; apply Nat.eqb_refl).
    change (callbacks rid [closeSource sid]) with ([] : list Out). rewrite app_nil_r. case_decide; [subst|by left].
    right. split; [by eapply live_current|]. exists us. split; [done|]. right. eexists.
    split_and!; [|done|by apply ended_finished]. done.
  - unfold calls_of. change [closeSource sid; onComplete rid'] with ([closeSource sid] ++ [onComplete rid']).
    rewrite callbacks_app, (callbacks_one rid' rid (onComplete rid')) by (cbn; apply Nat.eqb_refl).
    change (callbacks rid [closeSource sid]) with ([] : list Out). case_decide; [subst|by left].
    right. split; [by eapply live_current|]. exists []. split; [constructor|]. right. eexists.
    split_and!; [|done|by apply ended_finished]. done.
Qed.

Lemma finished_not_current rid s : finished rid s → ¬ current rid s.
Proof.
  intros (r & Hr & Hp) (r' & Hr' & _ & Hp'). rewrite Hr in Hr'. injection Hr' as <-.
  destruct Hp as [Hp|[? Hp]], Hp' as [Hp'|(? & Hp' & _)]; congruence.
Qed.

Lemma finished_kept rid s o s' : inv s → effect s o s' → finished rid s → finished rid s'.
Proof.
  intros Hi He (r & Hr & Hp). assert (∀ rid' r' p, requests s !! rid' = Some r' →
    phase r' = awaiting ∨ (∃ sid, phase r' = attached sid false) →
    requests (set_phase rid' p s) !! rid = Some r) as Hother.
  { intros rid' r' p Hr' Hp'. rewrite (set_phase_eq _ r') by done. cbn. rewrite list_lookup_insert_ne; [done|].
    intros ->. rewrite Hr in Hr'. injection Hr' as <-.
    destruct Hp as [Hp|[? Hp]], Hp' as [Hp'|(? & Hp')]; congruence. }
  destruct He as [|p| | |rid' r' msg o Hr' Hp' Ho|rid' r' Hr' Hp' Hg|rid' r' Hr' Hp' Hg|rid' sid us Hl Hus
    |rid' sid us msg code Hl Hus|rid' sid Hl]; try (exists r; by split_and!).
  - exists r. split; [|done]. cbn. by apply lookup_app_l_Some.
  - exists r. split; [|done]. apply (Hother rid' r'); auto.
  - exists r. split; [|done]. apply (Hother rid' r'); auto.
  - exists r. split; [|done]. specialize (Hother rid' r' (attached (made s) false) Hr' (or_introl Hp')).
    rewrite (set_phase_eq _ r') in Hother by done. unfold started. rewrite (set_phase_eq _ r') by done. exact Hother.
  - destruct (live_spec _ _ _ Hl) as (_ & r' & Hr' & Hp' & _). exists r. split; [|done].
    apply (Hother rid' r'); eauto.
  - destruct (live_spec _ _ _ Hl) as (_ & r' & Hr' & Hp' & _). exists r. split; [|done].
    apply (Hother rid' r'); eauto.
Qed.

(** C20: one stream at a time.  However the page sends, stops and unmounts, and
    whatever the server and the sources do, the only event source that was made and
    not closed is the controller's current one; it belongs to the request sent
    last, which is not over; and while the page is mounted the streaming flag says
    whether there is one. *)
Theorem stream_one_source ls s (Hrun : reaches step init ls s) :
  opened s = option_list (source s) ∧
  (mounted s = true → isStreaming s = bool_decide (is_Some (source s))) ∧
  ∀ sid, source s = Some sid →
    ∃ r, last (requests s) = Some r ∧ phase r = attached sid false ∧ req_generation r = generation s.
Proof.
  pose proof (run_inv _ _ Hrun) as Hi. split_and!; [apply Hi|apply Hi|].
  intros sid Hs. destruct (inv_current _ Hi sid Hs) as (_ & rid & r & Hr & Hp & Hg).
  exists r. split_and!; try done. rewrite last_lookup. destruct (requests s !! pred (length (requests s))) as [r'|] eqn:El.
  - destruct (decide (rid = pred (length (requests s)))) as [->|Hne]; [congruence|].
    assert (rid < length (requests s))%nat by (by eapply lookup_lt_Some).
    pose proof (inv_order _ Hi _ _ _ _ Hr El ltac:(lia)). pose proof (inv_past _ Hi _ _ El). lia.
  - apply lookup_ge_None in El. apply lookup_lt_Some in Hr. lia.
Qed.

(** A request that was replaced, stopped or left behind is silent: a callback is
    only called for the request of the current generation, while it awaits its
    headers or listens to the current source and is not over. *)
Theorem stream_current_only ls s l s' rid
    (Hrun : reaches step init ls s) (Hstep : step s l s') (Hcall : callbacks rid l.2 ≠ []) :
  current rid s.
Proof.
  pose proof (run_inv _ _ Hrun) as Hi.
  by destruct (effect_calls rid _ _ _ Hi (step_effect _ _ _ Hi Hstep)) as [?|[? _]].
Qed.

(** C1: in every run the callbacks of a request are updates, then at most one end,
    completion or error, and nothing after it. *)
Theorem stream_ends_once ls s rid (Hrun : reaches step init ls s) :
  ∃ us, Forall (update_of rid) us ∧
    (callbacks rid (outs ls) = us ∨ ∃ x, terminal x = true ∧ callbacks rid (outs ls) = us ++ [x]).
Proof.
  assert (∃ us, Forall (update_of rid) us ∧
    (callbacks rid (outs ls) = us ∨
     ∃ x, terminal x = true ∧ callbacks rid (outs ls) = us ++ [x] ∧ finished rid s)) as (us & Hus & Hx).
  { induction Hrun as [|ls s1 l s2 Hr (us & Hus & Hcb) Hst]; [exists []; split; [constructor|by left]|].
    pose proof (run_inv _ _ Hr) as Hi. pose proof (step_effect _ _ _ Hi Hst) as He.
    rewrite outs_snoc, callbacks_app.
    destruct Hcb as [Hcb|(x & Hx & Hcb & Hf)]; rewrite Hcb.
    - destruct (effect_calls rid _ _ _ Hi He) as [->|[_ (vs & Hvs & [->|(x & Hx & -> & Hf)])]].
      + exists us. rewrite app_nil_r. auto.
      + exists (us ++ vs). split; [by apply Forall_app|]. by left.
      + exists (us ++ vs). split; [by apply Forall_app|]. right. exists x. by rewrite app_assoc.
    - exists us. split; [done|]. right. exists x.
      destruct (effect_calls rid _ _ _ Hi He) as [->|[Hc _]]; [|by apply finished_not_current in Hf].
      rewrite app_nil_r. split_and!; try done. by eapply finished_kept. }
  exists us. split; [done|]. destruct Hx as [?|(x & ? & ? & _)]; [by left|right; by exists x].
Qed.

(** ** A sample run: a second request replaces the first while it streams, and the first
    source still delivers. *)
Abbreviation after := (run_after handle).
Abbreviation trace := (run_trace handle).

Definition ask (m : string) : ChatCompletionRequest :=
  mkRequest (js m) [] [] true None None None None None None.

(** The data of an event. *)
Definition chunk_json (text : jsstring) : jsstring :=
  let q := [34%N] in
  js "{" ++ q ++ js "choices" ++ q ++ js ":[{" ++ q ++ js "delta" ++ q ++ js ":{" ++ q ++ js "content" ++ q
  ++ js ":" ++ q ++ text ++ q ++ js "}}]}".

Definition sample_events : list Event :=
  [Send (ask "a"); HeadersReady 0; OnMessage 0 (chunk_json (js "hi")) None; Send (ask "b");
   OnMessage 0 (chunk_json (js "late")) None; HeadersReady 1].

Lemma sample_stream_reaches : reaches step init (trace sample_events init) (after sample_events init).
Proof.
  apply (run_reaches enabled handle sample_events init). vm_compute.
  repeat split; repeat eexists; reflexivity.
Qed.

Lemma stream_one_source_witness :
  opened (after sample_events init) = [1%nat] ∧ isStreaming (after sample_events init) = true.
Proof.
  destruct (stream_one_source _ _ sample_stream_reaches) as (Ho & Hs & _).
  rewrite Ho, (Hs eq_refl). split; vm_compute; reflexivity.
Defined.

Lemma stream_current_only_witness : current 1 (after sample_events init).
Proof.
  refine (stream_current_only _ _ (OnMessage 1 (js "[DONE]") None, (handle (OnMessage 1 (js "[DONE]") None)
    (after sample_events init)).2) (handle (OnMessage 1 (js "[DONE]") None) (after sample_events init)).1 1
    sample_stream_reaches _ _).
  - split; [|vm_compute; reflexivity]. vm_compute. repeat eexists; reflexivity.
  - vm_compute. discriminate.
Defined.

(** The first request got one update and then nothing. *)
Lemma stream_ends_once_witness :
  callbacks 0 (outs (trace sample_events init)) = [onUpdate 0 chunk_content (JStr (js "hi"))] ∧
  ∃ us, Forall (update_of 0) us ∧
    (callbacks 0 (outs (trace sample_events init)) = us ∨
     ∃ x, terminal x = true ∧ callbacks 0 (outs (trace sample_events init)) = us ++ [x]).
Proof.
  split; [vm_compute; reflexivity|]. exact (stream_ends_once _ _ 0 sample_stream_reaches).
Defined.
End Stream.
