(* ===== verification/ChatHandler.v ===== *)
(** The playground's chat handler (web/src/features/playground/hooks/
    use-chat-handler.ts, with the message state of use-playground-state.ts), as a
    state machine.

    The state is the hook's refs and flags, the messages, and React's queue of
    updates not run yet.  [onMessageUpdate] gives React a function of the previous
    messages, which React runs at once or when it next renders: an update is data
    here ([Update]), it sees the generation of the moment it is run, and the oracle
    [eager] says of the updates to come whether React runs them at once, which it
    does only when its queue is empty.  A clock gives the times read, in order. *)
From S2P Require Import Prelude JsString JsValue Json Actions ChatMessages ChatFacts.
Open Scope Z_scope.

Module Chat.

Definition clock : Type := nat → Z.

Record PendingStreamChunks := mkPending {
  p_generation : nat; p_content : jsstring; p_reasoning : jsstring }.

(** The functions given to [onMessageUpdate]. *)
Inductive Update :=
| flushUpdate (generation : nat) (chunks : PendingStreamChunks)
| completeUpdate (generation : nat)
| errorUpdate (generation : nat) (displayError : jsstring) (code : option jsstring) (title : jsstring)
| responseUpdate (generation : nat) (choices : list ChatCompletionChoice)
| stopUpdate (generation : nat)
| pageUpdate (f : list Message → list Message).

Record State := mkState {
  requestGeneration : nat; pendingChunks : PendingStreamChunks; flushTimer : option nat;
  isRequesting : bool; abortController : option nat; aborted : list nat; controllers : nat;
  messages : list Message; queue : list Update; eager : list (option clock) }.

Definition set_generation (x : nat) (s : State) : State :=
  mkState x (pendingChunks s) (flushTimer s) (isRequesting s) (abortController s) (aborted s)
    (controllers s) (messages s) (queue s) (eager s).
Definition set_pending (x : PendingStreamChunks) (s : State) : State :=
  mkState (requestGeneration s) x (flushTimer s) (isRequesting s) (abortController s) (aborted s)
    (controllers s) (messages s) (queue s) (eager s).
Definition set_timer (x : option nat) (s : State) : State :=
  mkState (requestGeneration s) (pendingChunks s) x (isRequesting s) (abortController s) (aborted s)
    (controllers s) (messages s) (queue s) (eager s).
Definition setIsRequesting (x : bool) (s : State) : State :=
  mkState (requestGeneration s) (pendingChunks s) (flushTimer s) x (abortController s) (aborted s)
    (controllers s) (messages s) (queue s) (eager s).
Definition set_abort (x : option nat) (s : State) : State :=
  mkState (requestGeneration s) (pendingChunks s) (flushTimer s) (isRequesting s) x (aborted s)
    (controllers s) (messages s) (queue s) (eager s).
Definition set_aborted (x : list nat) (s : State) : State :=
  mkState (requestGeneration s) (pendingChunks s) (flushTimer s) (isRequesting s) (abortController s) x
    (controllers s) (messages s) (queue s) (eager s).
Definition set_controllers (x : nat) (s : State) : State :=
  mkState (requestGeneration s) (pendingChunks s) (flushTimer s) (isRequesting s) (abortController s)
    (aborted s) x (messages s) (queue s) (eager s).
Definition set_messages (x : list Message) (s : State) : State :=
  mkState (requestGeneration s) (pendingChunks s) (flushTimer s) (isRequesting s) (abortController s)
    (aborted s) (controllers s) x (queue s) (eager s).
Definition set_queue (x : list Update) (s : State) : State :=
  mkState (requestGeneration s) (pendingChunks s) (flushTimer s) (isRequesting s) (abortController s)
    (aborted s) (controllers s) (messages s) x (eager s).
Definition set_eager (x : list (option clock)) (s : State) : State :=
  mkState (requestGeneration s) (pendingChunks s) (flushTimer s) (isRequesting s) (abortController s)
    (aborted s) (controllers s) (messages s) (queue s) x.

Inductive Out :=
| sendStreamRequest (generation : nat) (payload : ChatCompletionRequest)
| stopStream
| sendChatCompletion (generation controller : nat) (payload : ChatCompletionRequest)
| toastError (text : jsstring).

Abbreviation A := (act State Out).
Open Scope act_scope.

(** ** Running an update *)
Definition applyChunks (c : clock) (chunks : PendingStreamChunks) (m : Message) : Message :=
  let m1 := match p_reasoning chunks with
            | [] => m
            | r => applyStreamingChunk (c 0%nat) (c 1%nat) m chunk_reasoning r
            end in
  match p_content chunks with
  | [] => m1
  | t => applyStreamingChunk (c 2%nat) (c 3%nat) m1 chunk_content t
  end.

(** The update's function, run while the generation is [current]. *)
Definition runUpdate (current : nat) (c : clock) (u : Update) (prev : list Message) : list Message :=
  let guarded generation (ms : list Message) := if bool_decide (generation = current) then ms else prev in
  match u with
  | flushUpdate g chunks => guarded g (updateLastAssistantMessage prev (applyChunks c chunks))
  | completeUpdate g => guarded g (updateLastAssistantMessage prev (λ m,
      if isAssistantMessageFinal m then m
      else completeAssistantMessage (c 0%nat) (c 1%nat) (c 2%nat) m))
  | errorUpdate g displayError code title =>
      guarded g (updateAssistantMessageWithError (c 0%nat) prev displayError code title)
  | responseUpdate g choices => guarded g (updateLastAssistantMessage prev (λ m,
      default m (applyChatCompletionResponse (c 0%nat) (c 1%nat) (c 2%nat) m choices)))
  | stopUpdate g => guarded g (updateLastAssistantMessage prev (λ m,
      if isAssistantMessagePending m then completeAssistantMessage (c 0%nat) (c 1%nat) (c 2%nat) m
      else m))
  | pageUpdate f => f prev
  end.

(** [onMessageUpdate(u)]. *)
Definition onMessageUpdate (u : Update) : A := upd (λ s,
  let rest := set_eager (drop 1 (eager s)) s in
  match queue s, head (eager s) with
  | [], Some (Some c) => set_messages (runUpdate (requestGeneration s) c u (messages s)) rest
  | _, _ => set_queue (queue s ++ [u]) rest
  end).

(** React renders: it runs the queue, the update of index [i] with the clock [cs i]. *)
Definition render (cs : nat → clock) : A := upd (λ s,
  set_queue [] (set_messages
    (foldl (λ ms x, runUpdate (requestGeneration s) (cs x.1) x.2 ms) (messages s)
       (imap pair (queue s))) s)).

(** ** The handlers *)
Definition mergePendingStreamChunk (currentChunk nextChunk : jsstring) : jsstring :=
  if bool_decide (currentChunk = []) || negb (starts_with currentChunk nextChunk)
  then currentChunk ++ nextChunk else nextChunk.

Definition discardPendingStreamUpdates (generation : nat) : A :=
  upd (set_timer None) ;; upd (set_pending (mkPending generation [] [])).

Definition flushStreamUpdates (generation : nat) : A :=
  when (λ s, bool_decide (generation = requestGeneration s))
    (upd (set_timer None) ;;
     reading pendingChunks (λ chunks,
       when (λ _, bool_decide (p_generation chunks = generation) &&
                  negb (bool_decide (p_reasoning chunks = []) && bool_decide (p_content chunks = [])))
         (upd (set_pending (mkPending generation [] [])) ;;
          onMessageUpdate (flushUpdate generation chunks)))).

Definition scheduleStreamFlush (generation : nat) : A :=
  when (λ s, bool_decide (generation = requestGeneration s) && bool_decide (flushTimer s = None))
    (upd (set_timer (Some generation))).

Definition handleStreamUpdate (generation : nat) (type : StreamChunkType) (chunk : jsstring) : A :=
  when (λ s, bool_decide (generation = requestGeneration s) &&
             bool_decide (p_generation (pendingChunks s) = generation))
    (upd (λ s, let p := pendingChunks s in
       set_pending (match type with
         | chunk_content =>
             mkPending (p_generation p) (mergePendingStreamChunk (p_content p) chunk) (p_reasoning p)
         | chunk_reasoning =>
             mkPending (p_generation p) (p_content p) (mergePendingStreamChunk (p_reasoning p) chunk)
         end) s) ;;
     scheduleStreamFlush generation).

Definition handleStreamComplete (generation : nat) : A :=
  when (λ s, bool_decide (generation = requestGeneration s))
    (flushStreamUpdates generation ;; upd (setIsRequesting false) ;;
     onMessageUpdate (completeUpdate generation)).

Section translated.
Context (t : jsstring → jsstring).

Definition KNOWN_ERROR_MESSAGES : list jsstring :=
  [API_REQUEST_ERROR; NETWORK_ERROR; PARSE_ERROR; STREAM_START_ERROR; CONNECTION_CLOSED; INTERRUPTED].

Definition getDisplayError (e : jsstring) : jsstring :=
  if set_has e KNOWN_ERROR_MESSAGES then t e
  else if bool_decide ((js ": " ++ CONNECTION_CLOSED) `suffix_of` e)
  then take (length e - length CONNECTION_CLOSED) e ++ t CONNECTION_CLOSED
  else e.

Definition handleStreamError (generation : nat) (e : jsstring) (code : option jsstring) : A :=
  when (λ s, bool_decide (generation = requestGeneration s))
    (flushStreamUpdates generation ;; upd (setIsRequesting false) ;;
     emit (toastError (getDisplayError e)) ;;
     onMessageUpdate (errorUpdate generation (getDisplayError e) code (t API_REQUEST_ERROR))).

(** [abortControllerRef.current?.abort()]. *)
Definition abortCurrent : A := upd (λ s,
  match abortController s with Some c => set_aborted (c :: aborted s) s | None => s end).

Definition sendStreamingChat (config : PlaygroundConfig) (enabled : ParameterEnabled)
    (ms : list Message) : A := λ s,
  let generation := S (requestGeneration s) in
  (upd (set_generation generation) ;; abortCurrent ;; upd (set_abort None) ;;
   discardPendingStreamUpdates generation ;; upd (setIsRequesting true) ;;
   emit (sendStreamRequest generation (buildChatCompletionPayload ms config enabled))) s.

(** [sendNonStreamingChat] up to its [await]. *)
Definition sendNonStreamingChat (config : PlaygroundConfig) (enabled : ParameterEnabled)
    (ms : list Message) : A := λ s,
  let generation := S (requestGeneration s) in
  let controller := controllers s in
  (upd (set_controllers (S controller)) ;; upd (set_generation generation) ;; emit stopStream ;;
   discardPendingStreamUpdates generation ;; abortCurrent ;; upd (set_abort (Some controller)) ;;
   upd (setIsRequesting true) ;;
   emit (sendChatCompletion generation controller (buildChatCompletionPayload ms config enabled))) s.

(** The reply to a request that does not stream: its choices, or the text and code of
    its error. *)
Definition chatReply (generation controller : nat)
    (reply : list ChatCompletionChoice + jsstring * option jsstring) : A :=
  when (λ s, negb (set_has controller (aborted s)) && bool_decide (requestGeneration s = generation))
    match reply with
    | inl choices =>
        if hasChatCompletionChoice choices then onMessageUpdate (responseUpdate generation choices)
        else handleStreamError generation API_REQUEST_ERROR None
    | inr (e, code) => handleStreamError generation e code
    end ;;
  when (λ s, bool_decide (requestGeneration s = generation))
    (upd (set_abort None) ;; upd (setIsRequesting false)).

Definition sendChat (config : PlaygroundConfig) (enabled : ParameterEnabled) (ms : list Message) : A :=
  if stream config then sendStreamingChat config enabled ms else sendNonStreamingChat config enabled ms.

Definition stopGeneration : A := λ s,
  let stoppedGeneration := requestGeneration s in
  let idleGeneration := S stoppedGeneration in
  (flushStreamUpdates stoppedGeneration ;; upd (set_generation idleGeneration) ;;
   discardPendingStreamUpdates idleGeneration ;; emit stopStream ;; abortCurrent ;;
   upd (set_abort None) ;; upd (setIsRequesting false) ;;
   onMessageUpdate (stopUpdate idleGeneration)) s.

(** use-playground-conversation.ts: sending a message, [ms] being the messages rendered
    last. *)
Definition handleSendMessage (config : PlaygroundConfig) (enabled : ParameterEnabled) (now1 : Z)
    (ids1 ids2 : fresh_ids) (ms : list Message) (text : jsstring) : A :=
  let nextMessages := appendUserMessagePair now1 ids1 ids2 ms text in
  onMessageUpdate (pageUpdate (λ _, nextMessages)) ;; sendChat config enabled nextMessages.

(** The clean-up when the page is left: the timer is cancelled. *)
Definition unmount : A :=
  upd (λ s, set_generation (S (requestGeneration s)) s) ;; upd (set_timer None) ;;
  abortCurrent ;; upd (set_abort None).
End translated.

(** ** Stopping *)

(** The last message, if the assistant's, is not pending. *)
Definition settled (ms : list Message) : Prop :=
  ∀ m, last ms = Some m → from m = assistant → isAssistantMessagePending m = false.

Lemma last_updateLast ms f :
  last (updateLastAssistantMessage ms f) =
  (λ m, if bool_decide (from m = assistant) then f m else m) <$> last ms.
Proof.
  unfold updateLastAssistantMessage. destruct (last ms) as [m|] eqn:El; [|done]. cbn.
  case_bool_decide; [|done]. apply last_Some in El as [ms' ->]. rewrite length_app. cbn.
  rewrite Nat.add_sub, insert_app_r_alt by lia. rewrite Nat.sub_diag. cbn. by rewrite last_snoc.
Qed.

Lemma stop_update_settles g c ms : settled (runUpdate g c (stopUpdate g) ms).
Proof.
  unfold settled, runUpdate. rewrite bool_decide_true by done. intros m. rewrite last_updateLast.
  destruct (last ms) as [m0|]; [|done]. cbn. case_bool_decide as Hf; [|by intros [= <-]].
  destruct (isAssistantMessagePending m0) eqn:Ep; [|by intros [= <-]].
  intros [= <-] _. unfold completeAssistantMessage, completeAssistantTiming. by case_bool_decide.
Qed.

(** What [render] makes of the messages. *)
Definition view (cs : nat → clock) (s : State) : list Message := messages (render cs s).1.

Lemma imap_pair_snoc (q : list Update) u : imap pair (q ++ [u]) = imap pair q ++ [(length q, u)].
Proof. rewrite imap_app. cbn. by rewrite Nat.add_0_r. Qed.

(** After an update was given to React, the messages rendered are those that were to be
    rendered with the update run on them, with some clock. *)
Lemma view_onMessageUpdate u s cs :
  let s1 := (onMessageUpdate u s).1 in
  ∃ c, view cs s1 = runUpdate (requestGeneration s) c u (view cs s).
Proof.
  unfold onMessageUpdate, upd, view, render. cbn. destruct (queue s) as [|u0 q] eqn:Eq.
  - destruct (head (eager s)) as [[c|]|]; cbn; rewrite ?Eq; eexists; reflexivity.
  - cbn [queue set_queue set_eager]. exists (cs (length (u0 :: q))). cbn [messages set_messages set_queue upd fst].
    change (u0 :: q ++ [u]) with ((u0 :: q) ++ [u]). rewrite imap_pair_snoc, foldl_app. done.
Qed.

Lemma generation_onMessageUpdate u s :
  let s1 := (onMessageUpdate u s).1 in
  requestGeneration s1 = requestGeneration s ∧ pendingChunks s1 = pendingChunks s ∧
  flushTimer s1 = flushTimer s ∧ isRequesting s1 = isRequesting s ∧ (onMessageUpdate u s).2 = [].
Proof. unfold onMessageUpdate, upd. cbn. destruct (queue s); [destruct (head (eager s)) as [[]|]|]; done. Qed.

(** An event of another generation changes nothing. *)
Lemma stale_silent t s g : g ≠ requestGeneration s →
  (∀ type chunk, handleStreamUpdate g type chunk s = (s, [])) ∧
  handleStreamComplete g s = (s, []) ∧
  (∀ e code, handleStreamError t g e code s = (s, [])) ∧
  flushStreamUpdates g s = (s, []) ∧
  (∀ controller reply, chatReply t g controller reply s = (s, [])).
Proof.
  intros Hg. split_and!; intros; unfold handleStreamUpdate, handleStreamComplete, handleStreamError,
    flushStreamUpdates, chatReply, when, ite, seq_act, skip.
  1-4: by rewrite (bool_decide_false (g = _)) by done.
  rewrite (bool_decide_false (requestGeneration s = g)), andb_false_r by done.
  by rewrite (bool_decide_false (requestGeneration s = g)) by done.
Qed.

(** The state of a stop before its last update. *)
Definition stopped (s : State) : State :=
  let s0 := (flushStreamUpdates (requestGeneration s) s).1 in
  let s1 := set_pending (mkPending (S (requestGeneration s)) [] [])
              (set_timer None (set_generation (S (requestGeneration s)) s0)) in
  setIsRequesting false (set_abort None (abortCurrent s1).1).

Lemma stopGeneration_eq s :
  (stopGeneration s).1 = (onMessageUpdate (stopUpdate (S (requestGeneration s))) (stopped s)).1.
Proof.
  unfold stopGeneration, discardPendingStreamUpdates, abortCurrent, stopped.
  unfold seq_act at 1. destruct (flushStreamUpdates (requestGeneration s) s) as [s0 o0].
  unfold seq_act, upd, emit. cbn [fst app]. by destruct (onMessageUpdate _ _).
Qed.

Lemma stopped_fields s :
  requestGeneration (stopped s) = S (requestGeneration s) ∧
  pendingChunks (stopped s) = mkPending (S (requestGeneration s)) [] [] ∧
  flushTimer (stopped s) = None ∧ isRequesting (stopped s) = false.
Proof. unfold stopped, abortCurrent, upd. cbn. by case_match. Qed.

(** C21: stopping settles.  After the user stops a generation, whatever it was doing,
    and whenever React runs the updates: the last answer is not pending any more,
    nothing is requested, no flush is due and no text waits, and no late event of
    that generation or an earlier one, a chunk, an end, an error, a timer or a
    reply, changes anything. *)
Theorem stop_settles t s cs :
  let s1 := (stopGeneration s).1 in
  settled (view cs s1) ∧ isRequesting s1 = false ∧ flushTimer s1 = None ∧
  p_content (pendingChunks s1) = [] ∧ p_reasoning (pendingChunks s1) = [] ∧
  ∀ g, (g <= requestGeneration s)%nat →
    (∀ type chunk, handleStreamUpdate g type chunk s1 = (s1, [])) ∧
    handleStreamComplete g s1 = (s1, []) ∧
    (∀ e code, handleStreamError t g e code s1 = (s1, [])) ∧
    flushStreamUpdates g s1 = (s1, []) ∧
    (∀ controller reply, chatReply t g controller reply s1 = (s1, [])).
Proof.
  intros s1. unfold s1. rewrite stopGeneration_eq. set (u := stopUpdate _).
  destruct (stopped_fields s) as (Hg & Hp & Ht & Hr).
  destruct (generation_onMessageUpdate u (stopped s)) as (Hg1 & Hp1 & Ht1 & Hr1 & _).
  destruct (view_onMessageUpdate u (stopped s) cs) as [c Hv].
  split_and!.
  - rewrite Hv, Hg. apply stop_update_settles.
  - by rewrite Hr1.
  - by rewrite Ht1.
  - by rewrite Hp1, Hp.
  - by rewrite Hp1, Hp.
  - intros g Hle. apply stale_silent. rewrite Hg1, Hg. lia.
Qed.

(** ** What is streamed is what is shown *)

(** What may happen while the request of generation [g] streams: a chunk, the flush
    timer, a rendering; before each, what React will do with the updates to come. *)
Inductive StreamEvent := Chunk (type : StreamChunkType) (text : jsstring) | Timer | Rendered (cs : nat → clock).

Definition handleEvent (g : nat) (e : StreamEvent) : A :=
  match e with
  | Chunk type text => handleStreamUpdate g type text
  | Timer => when (λ s, bool_decide (flushTimer s = Some g)) (flushStreamUpdates g)
  | Rendered cs => render cs
  end.

Definition feed (g : nat) (es : list (list (option clock) * StreamEvent)) (s : State) : State :=
  foldl (λ s e, (handleEvent g e.2 (set_eager e.1 s)).1) s es.

(** The deltas of the answer. *)
Definition contents (es : list (list (option clock) * StreamEvent)) : list jsstring :=
  omap (λ e, match e.2 with Chunk chunk_content text => Some text | _ => None end) es.

(** No delta is empty, and no run of deltas starts with the text of a run right before
    it. *)
Definition no_echo (cs : list jsstring) : Prop :=
  Forall (λ c, c ≠ []) cs ∧
  Forall (λ i, Forall (λ n, Forall (λ k,
    ¬ concat (take (S n) (drop i cs)) `prefix_of` concat (take (S k) (drop (i + S n) cs)))
    (seq 0 (length cs))) (seq 0 (length cs))) (seq 0 (length cs)).

Lemma no_echo_split pre a b post :
  no_echo (pre ++ a ++ b ++ post) → a ≠ [] → b ≠ [] → ¬ concat a `prefix_of` concat b.
Proof.
  intros [_ Hn] Ha Hb. rewrite Forall_forall in Hn.
  assert (∃ n, length a = S n) as [n Hla] by (destruct a; [done|by eexists]).
  assert (∃ n, length b = S n) as [k Hlb] by (destruct b; [done|by eexists]).
  assert (length (pre ++ a ++ b ++ post) = length pre + S n + S k + length post)%nat as Hlen
    by (rewrite !length_app; lia).
  specialize (Hn (length pre)). rewrite Forall_forall in Hn.
  specialize (Hn ltac:(apply elem_of_seq; lia) n). rewrite Forall_forall in Hn.
  specialize (Hn ltac:(apply elem_of_seq; lia) k ltac:(apply elem_of_seq; lia)).
  rewrite drop_app_length in Hn. rewrite <- Hla, take_app_length in Hn.
  rewrite Hla in Hn. rewrite (app_assoc pre a), drop_app_length' in Hn by (rewrite length_app; lia).
  by rewrite <- Hlb, take_app_length in Hn.
Qed.

Lemma concat_nonempty cs : Forall (λ c : jsstring, c ≠ []) cs → concat cs = [] → cs = [].
Proof. destruct 1 as [|c cs Hc _]; [done|]. cbn. intros ?%app_nil. naive_solver. Qed.

Lemma merge_clean x y : x = [] ∨ ¬ x `prefix_of` y → mergePendingStreamChunk x y = x ++ y.
Proof.
  unfold mergePendingStreamChunk, starts_with. intros [->|Hp]; [done|].
  rewrite (bool_decide_false (x `prefix_of` y)) by done. by rewrite orb_true_r.
Qed.

(** A message being answered. *)
Definition answering (m : Message) (text : jsstring) : Prop :=
  from m = assistant ∧ isAssistantMessagePending m = true ∧ getMessageContent m = text.

Lemma pending_not_error m : isAssistantMessagePending m = true → status m ≠ Some error.
Proof. unfold isAssistantMessagePending. intros Hp Hs. by rewrite Hs in Hp. Qed.

Lemma chunk_from n1 n2 m type c : from (applyStreamingChunk n1 n2 m type c) = from m.
Proof.
  unfold applyStreamingChunk. case_bool_decide; [done|]. destruct type; [done|]. cbn.
  unfold processStreamingContent, completeReasoningTiming. repeat case_match; done.
Qed.

Lemma chunk_answering n1 n2 m type c text :
  answering m text →
  answering (applyStreamingChunk n1 n2 m type c)
    (match type with chunk_content => text ++ getAppendableChunk text c | chunk_reasoning => text end).
Proof.
  intros (Hf & Hp & <-). pose proof (pending_not_error _ Hp) as He.
  destruct (apply_chunk type n1 n2 m c He) as [Hs Ht]. split_and!.
  - by rewrite chunk_from.
  - unfold isAssistantMessagePending. by rewrite Hs.
  - destruct type; [|done]. unfold applyStreamingChunk. by rewrite bool_decide_false by done.
Qed.

Lemma chunks_answering c chunks m text :
  answering m text →
  answering (applyChunks c chunks m)
    (match p_content chunks with [] => text | t => text ++ getAppendableChunk text t end).
Proof.
  intros Hm. unfold applyChunks.
  assert (answering (match p_reasoning chunks with
                     | [] => m
                     | r => applyStreamingChunk (c 0%nat) (c 1%nat) m chunk_reasoning r
                     end) text) as Hm1.
  { destruct (p_reasoning chunks); [done|]. by apply (chunk_answering _ _ m chunk_reasoning). }
  destruct (p_content chunks); [done|]. by apply (chunk_answering _ _ _ chunk_content).
Qed.

(** While a request streams: what was received is what the last message shows once
    rendered, followed by what waits for the flush. *)
Definition streaming_inv (g : nat) (cs : list jsstring) (s : State) : Prop :=
  requestGeneration s = g ∧ p_generation (pendingChunks s) = g ∧
  ∃ a b, cs = a ++ b ∧ p_content (pendingChunks s) = concat b ∧
    ∀ k, ∃ m, last (view k s) = Some m ∧ answering m (concat a).

Lemma inv_eager g cs s x : streaming_inv g cs s → streaming_inv g cs (set_eager x s).
Proof. done. Qed.

Lemma inv_chunk g cs s type text :
  streaming_inv g cs s → no_echo (cs ++ contents [([], Chunk type text)]) →
  streaming_inv g (cs ++ contents [([], Chunk type text)]) (handleStreamUpdate g type text s).1.
Proof.
  intros (Hg & Hp & a & b & -> & Hc & Hv) Hne.
  unfold handleStreamUpdate, when, ite. rewrite Hg, Hp, !bool_decide_true by done. cbn [andb].
  unfold seq_act, upd, scheduleStreamFlush, when, ite, skip.
  set (s1 := set_pending _ s).
  assert (streaming_inv g ((a ++ b) ++ contents [([], Chunk type text)]) s1) as H1.
  { split; [done|]. unfold s1. destruct type; cbn [pendingChunks set_pending p_generation p_content].
    - split; [done|]. exists a, b. split_and!; [by rewrite app_nil_r|done|exact Hv].
    - split; [done|]. exists a, (b ++ [text]). split_and!; [by rewrite app_assoc| |exact Hv].
      rewrite Hc, concat_app. cbn. rewrite app_nil_r. apply merge_clean.
      destruct b as [|x b]; [by left|right]. cbn in Hne. rewrite <- app_assoc in Hne.
      pose proof (no_echo_split a (x :: b) [text] []) as Hx. cbn in Hx. rewrite app_nil_r in Hx.
      by apply Hx. }
  destruct (_ && _); exact H1.
Qed.

Lemma inv_flush g cs s :
  no_echo cs → streaming_inv g cs s → streaming_inv g cs (flushStreamUpdates g s).1.
Proof.
  intros Hne Hs. pose proof Hs as (Hg & Hp & a & b & E & Hc & Hv).
  unfold flushStreamUpdates, when at 1, ite at 1. rewrite Hg, bool_decide_true by done.
  unfold seq_act at 1, upd at 1, reading, when, ite. cbn [pendingChunks set_timer].
  rewrite Hp, bool_decide_true by done. cbn [andb]. destruct (negb _) eqn:Eb; [|exact Hs].
  unfold seq_act, upd at 1. set (chunks := pendingChunks s) in *.
  set (s1 := set_pending (mkPending g [] []) (set_timer None s)). set (u := flushUpdate g chunks).
  destruct (generation_onMessageUpdate u s1) as (Hg1 & Hp1 & _).
  pose proof (λ k, view_onMessageUpdate u s1 k) as Hview. cbn zeta in Hview.
  destruct (onMessageUpdate u s1) as [s2 o2]. cbn [fst] in *.
  split; [by rewrite Hg1|]. split; [by rewrite Hp1|]. exists (a ++ b), []. rewrite Hp1.
  split_and!; [by rewrite app_nil_r|done|]. intros k. destruct (Hview k) as [c ->].
  destruct (Hv k) as (m & Hm & Ha). change (view k s1) with (view k s). unfold u, runUpdate.
  change (requestGeneration s1) with (requestGeneration s). rewrite Hg, bool_decide_true by done.
  rewrite last_updateLast, Hm. cbn. rewrite bool_decide_true by apply Ha.
  eexists. split; [done|]. pose proof (chunks_answering c chunks m _ Ha) as Hch.
  rewrite Hc in Hch. rewrite concat_app. pose proof Hne as [Hf _].
  assert (Forall (λ c : jsstring, c ≠ []) a ∧ Forall (λ c : jsstring, c ≠ []) b) as [Hfa Hfb]
    by (subst cs; by apply Forall_app in Hf).
  destruct (concat b) as [|y ys] eqn:Ecb; [by rewrite app_nil_r|]. rewrite <- Ecb in *.
  rewrite appendable_delta in Hch; [done|]. destruct a as [|x a]; [by left|right].
  pose proof (no_echo_split [] (x :: a) b []) as Hx. rewrite app_nil_r in Hx. apply Hx.
  - rewrite E in Hne. exact Hne.
  - done.
  - by intros ->.
Qed.

(** After a flush nothing waits: the last message shows all that was received. *)
Lemma inv_flushed g cs s :
  no_echo cs → streaming_inv g cs s →
  let s1 := (flushStreamUpdates g s).1 in
  requestGeneration s1 = g ∧ ∀ k, ∃ m, last (view k s1) = Some m ∧ answering m (concat cs).
Proof.
  intros Hne Hs. destruct (inv_flush g cs s Hne Hs) as (Hg & _ & a & b & E & Hc & Hv). cbn zeta.
  split; [done|]. assert (p_content (pendingChunks (flushStreamUpdates g s).1) = []) as H0.
  { destruct Hs as (Hg' & Hp' & _). unfold flushStreamUpdates, when at 1, ite at 1.
    rewrite Hg', bool_decide_true by done. unfold seq_act at 1, upd at 1, reading, when, ite.
    cbn [pendingChunks set_timer]. rewrite Hp', bool_decide_true by done. cbn [andb].
    destruct (negb _) eqn:Eb.
    - unfold seq_act, upd at 1. match goal with |- context [onMessageUpdate ?u ?s1] =>
        destruct (generation_onMessageUpdate u s1) as (_ & Hp1 & _); destruct (onMessageUpdate u s1) end.
      cbn [fst] in *. by rewrite Hp1.
    - cbn. apply negb_false_iff, andb_prop in Eb as [_ Eb%bool_decide_eq_true]. exact Eb. }
  rewrite H0 in Hc. symmetry in Hc. apply concat_nonempty in Hc as ->.
  - by rewrite E, app_nil_r.
  - destruct Hne as [Hf _]. rewrite E in Hf. by apply Forall_app in Hf as [_ ?].
Qed.

Lemma inv_render g cs s k : streaming_inv g cs s → streaming_inv g cs (render k s).1.
Proof.
  intros (Hg & Hp & a & b & E & Hc & Hv). split_and!; [done|done|]. exists a, b. split_and!; [done|done|].
  intros k'. change (view k' (render k s).1) with (view k s). apply Hv.
Qed.

Lemma no_echo_intro cs :
  Forall (λ c, c ≠ []) cs →
  (∀ pre a b post, cs = pre ++ a ++ b ++ post → a ≠ [] → b ≠ [] → ¬ concat a `prefix_of` concat b) →
  no_echo cs.
Proof.
  intros Hf Hs. split; [done|].
  apply Forall_forall; intros i Hi%elem_of_seq. apply Forall_forall; intros n _.
  apply Forall_forall; intros k _.
  set (a := take (S n) (drop i cs)). set (r := drop (i + S n) cs).
  assert (cs = take i cs ++ a ++ r) as E.
  { unfold a, r. rewrite <- drop_drop, take_drop. by rewrite take_drop. }
  assert (a ≠ []) as Ha.
  { unfold a. intros Hn%(f_equal length). rewrite length_take, length_drop in Hn.
    change (length (@nil jsstring)) with 0%nat in Hn. lia. }
  destruct (decide (take (S k) r = [])) as [Eb|Hb].
  - rewrite Eb. cbn. intros [z Hz]. symmetry in Hz. apply app_nil in Hz as [Hz _].
    apply Ha, concat_nonempty; [|done]. unfold a. by apply Forall_take, Forall_drop.
  - apply (Hs (take i cs) a (take (S k) r) (drop (S k) r)); [|done..]. by rewrite take_drop.
Qed.

Lemma no_echo_prefix xs ys : no_echo (xs ++ ys) → no_echo xs.
Proof.
  intros Hn. apply no_echo_intro; [destruct Hn as [Hf _]; by apply Forall_app in Hf as [? _]|].
  intros pre a b post -> Ha Hb. apply (no_echo_split pre a b (post ++ ys)); [|done..].
  by rewrite <- !app_assoc in Hn.
Qed.

Lemma contents_snoc es e : contents (es ++ [e]) = contents es ++ contents [([], e.2)].
Proof. unfold contents. rewrite omap_app. by destruct e as [? [[]| |]]. Qed.

Lemma feed_inv g es s :
  streaming_inv g [] s → no_echo (contents es) → streaming_inv g (contents es) (feed g es s).
Proof.
  intros Hs. induction es as [|e es IH] using rev_ind; [done|]. rewrite contents_snoc. intros Hne.
  unfold feed. rewrite foldl_app. cbn [foldl]. fold (feed g es s).
  pose proof (inv_eager _ _ _ e.1 (IH (no_echo_prefix _ _ Hne))) as Hi.
  destruct e as [x [type text| |cs]]; cbn [fst snd handleEvent] in *.
  - by apply inv_chunk.
  - cbn [contents omap list_omap snd] in *. rewrite app_nil_r in *. unfold when, ite. case_match; [|done].
    by apply inv_flush.
  - cbn [contents omap list_omap snd] in *. rewrite app_nil_r in *. by apply inv_render.
Qed.

Lemma send_fresh config enabled now1 ids1 ids2 ms text s :
  stream config = true →
  streaming_inv (S (requestGeneration s)) [] (handleSendMessage config enabled now1 ids1 ids2 ms text s).1.
Proof.
  intros Hc. unfold handleSendMessage, sendChat. rewrite Hc.
  set (next := appendUserMessagePair _ _ _ _ _). set (u := pageUpdate (λ _, next)). unfold seq_act at 1.
  destruct (generation_onMessageUpdate u s) as (Hg & _). pose proof (λ k, view_onMessageUpdate u s k) as Hv.
  cbn zeta in Hv. unfold onMessageUpdate, upd in *. cbn [fst] in *.
  set (s1 := match queue s with [] => _ | _ => _ end) in *.
  unfold sendStreamingChat, discardPendingStreamUpdates, abortCurrent, seq_act, upd, emit.
  rewrite Hg. cbn [abortController set_generation].
  assert (∀ s2, messages s2 = messages s1 → queue s2 = queue s1 → ∀ k, ∃ m, last (view k s2) = Some m ∧
            answering m (concat [])) as Hlast.
  { intros s2 Hm Hq k. assert (view k s2 = next) as ->.
    { unfold view, render, upd. cbn. rewrite Hm, Hq. unfold s1.
      destruct (queue s) as [|u0 q] eqn:Eq; [destruct (head (eager s)) as [[]|]; cbn; rewrite ?Eq; done|].
      cbn [queue messages set_queue set_eager]. rewrite imap_pair_snoc, foldl_app. done. }
    unfold next, appendUserMessagePair. eexists. split; [by rewrite last_app_cons|]. done. }
  destruct (abortController s1); cbn; (split_and!; [done|done|]; exists [], []; split_and!; [done|done|];
    by apply Hlast).
Qed.

Lemma complete_eq g s : requestGeneration s = g →
  (handleStreamComplete g s).1 =
  (onMessageUpdate (completeUpdate g) (setIsRequesting false (flushStreamUpdates g s).1)).1.
Proof.
  intros Hg. unfold handleStreamComplete, when, ite. rewrite Hg, bool_decide_true by done.
  unfold seq_act at 1. destruct (flushStreamUpdates g s) as [s3 o3]. unfold seq_act, upd. cbn [fst].
  by destruct (onMessageUpdate _ _).
Qed.

(** C2: what is streamed is what is shown.  The user sends a message; while the answer
    streams, chunks arrive, the flush timer fires and React renders, in any order,
    and React runs each update at once or later.  When the stream completes, the
    last message is the finished answer and shows the visible part of all the
    deltas put together, provided no delta is empty and no run of deltas starts with
    the text of the run right before it ([no_echo]: the code takes such a run for a
    snapshot of the whole text). *)
Theorem chat_shows_stream config enabled now1 ids1 ids2 ms text s es oracle k
    (Hstream : stream config = true) (Hclean : no_echo (contents es)) :
  let g := S (requestGeneration s) in
  let s1 := feed g es (handleSendMessage config enabled now1 ids1 ids2 ms text s).1 in
  let s2 := (handleStreamComplete g (set_eager oracle s1)).1 in
  isRequesting s2 = false ∧
  ∃ m, last (view k s2) = Some m ∧ from m = assistant ∧ status m = Some complete ∧
    getMessageContent m = visibleContent (parseThinkTags (concat (contents es))).
Proof.
  intros g s1 s2.
  assert (streaming_inv g (contents es) (set_eager oracle s1)) as Hi
    by (apply inv_eager, feed_inv; [by apply send_fresh|done]).
  pose proof (inv_flushed _ _ _ Hclean Hi) as [Hg Hm]. destruct (Hm k) as (m & Hlast & Ha).
  unfold s2. rewrite complete_eq by apply Hi. set (s3 := (flushStreamUpdates g _).1) in *.
  set (u := completeUpdate g). set (s4 := setIsRequesting false s3).
  destruct (generation_onMessageUpdate u s4) as (_ & _ & _ & Hr & _).
  destruct (view_onMessageUpdate u s4 k) as [c Hv]. split; [done|]. rewrite Hv.
  change (view k s4) with (view k s3). unfold runUpdate, u. change (requestGeneration s4) with (requestGeneration s3).
  rewrite Hg, bool_decide_true by done. rewrite last_updateLast, Hlast. cbn [fmap option_fmap option_map].
  destruct Ha as (Hfrom & Hp & Hc). rewrite bool_decide_true by done.
  assert (isAssistantMessageFinal m = false) as ->.
  { unfold isAssistantMessageFinal, isAssistantMessagePending in *. by destruct (status m) as [[]|]. }
  destruct (finalize_spec (c 0%nat) (c 1%nat) m []) as (_ & Hf' & _ & _ & _ & Hcont & _).
  eexists. split; [done|]. unfold completeAssistantMessage, completeAssistantTiming.
  rewrite bool_decide_true by exact (eq_trans Hf' Hfrom). split_and!.
  - exact (eq_trans Hf' Hfrom).
  - done.
  - rewrite <- Hc. exact Hcont.
Qed.

(** ** A sample conversation *)
Definition start : State := mkState 0 (mkPending 0 [] []) None false None [] 0 [] [] [].
Definition config : PlaygroundConfig :=
  mkConfig (js "gpt") (js "default") num0 num0 num0 num0 num0 None true.
Definition enabled : ParameterEnabled := mkEnabled false false false false false false.
Definition ticking : clock := λ n, 100 + Z.of_nat n.

Definition sample_events : list (list (option clock) * StreamEvent) :=
  [([], Chunk chunk_content (js "<think>")); ([], Chunk chunk_content (js "why</think>"));
   ([Some ticking], Timer); ([], Rendered (λ _, ticking)); ([], Chunk chunk_content (js " because"))].

Lemma chat_shows_stream_witness :
  ∃ m, last (view (λ _, ticking) (handleStreamComplete 1 (feed 1 sample_events
    (handleSendMessage config enabled 5 (js "a", js "b") (js "c", js "d") [] (js "hello") start).1)).1) = Some m ∧
    from m = assistant ∧ status m = Some complete ∧ getMessageContent m = js "because".
Proof.
  assert (stream config = true) as Hs by reflexivity.
  assert (no_echo (contents sample_events)) as Hn
    by (apply (bool_decide_unpack _); vm_compute; exact I).
  destruct (chat_shows_stream config enabled 5 (js "a", js "b") (js "c", js "d") [] (js "hello") start
    sample_events [] (λ _, ticking) Hs Hn) as (_ & m & Hl & Hf & Hst & Hc).
  exists m. split_and!; [exact Hl|exact Hf|exact Hst|]. rewrite Hc. vm_compute. reflexivity.
Defined.

(** A chunk that waits for its flush when the user stops is lost if React runs the
    updates later: the flush is run under the generation of the stop. *)
Example stop_drops_waiting_text :
  let s := (handleSendMessage config enabled 5 (js "a", js "b") (js "c", js "d") [] (js "hello") start).1 in
  let s1 := feed 1 [([], Rendered (λ _, ticking)); ([], Chunk chunk_content (js "answer"))] s in
  let shown s := getMessageContent <$> last (view (λ _, ticking) s) in
  shown (stopGeneration (set_eager [] s1)).1 = Some [] ∧
  shown (stopGeneration (set_eager [Some ticking] s1)).1 = Some (js "answer").
Proof. split; vm_compute; reflexivity. Qed.
End Chat.
