(* ===== verification/RegExp.v ===== *)
(** Regular expressions of the language, as an executable backtracking matcher.

    The pattern grammar is the part the modelled components use: literals and
    classes, sequence, alternation, the greedy quantifiers [*], [+] and [?],
    numbered groups, back references, the anchors [^] and [$] (with and without
    the [m] flag) and the word boundary.  [run] follows the matcher of the language:
    a pattern gets a continuation and a state, tries its choices in order, and
    backtracks when the continuation fails.  An iteration of a quantifier resets
    the groups inside it and is refused when it consumes nothing, which is also
    why the loop of [*] ends.

    On top of the matcher are the entry points the code calls: [test], [match],
    the [exec] loop of a global expression, [replace] of every match, and
    [split] with an expression as separator. *)
From S2P Require Import Prelude JsString.

(** The text already read (last unit first), the text to come, the groups. *)
Record mstate := MState {
  before : jsstring;
  after : jsstring;
  caps : list (nat * jsstring)
}.

Inductive regex : Type :=
  | Eps
  | Cls (p : N → bool)
  | Seq (r1 r2 : regex)
  | Alt (r1 r2 : regex)
  | Star (r : regex)
  | Opt (r : regex)
  | Grp (n : nat) (r : regex)
  | Ref (n : nat)
  | Bol
  | Eol
  | WordB
  | BolM
  | EolM.

Declare Scope re_scope.
Delimit Scope re_scope with re.
Bind Scope re_scope with regex.
Infix "⋅" := Seq (at level 60, right associativity) : re_scope.
Infix "∥" := Alt (at level 62, right associativity) : re_scope.
Local Open Scope re_scope.

(** One or more, a literal text, the classes of the language. *)
Definition Plus (r : regex) : regex := r ⋅ Star r.
Definition Chr (c : N) : regex := Cls (N.eqb c).
Definition Lit (w : jsstring) : regex := foldr (λ c r, Chr c ⋅ r) Eps w.
Definition lit (w : string) : regex := Lit (js w).
Definition Ws : regex := Star (Cls is_ws).
Definition any_unit : N → bool := λ _, true.
Definition not_newline (c : N) : bool := negb (bool_decide (c ∈ [10; 13; 8232; 8233]%N)).
Definition one_of (w : jsstring) : N → bool := λ c, bool_decide (c ∈ w).
Definition none_of (w : jsstring) : N → bool := λ c, negb (one_of w c).
Definition is_word (c : N) : bool :=
  is_digit c || in_range 65 c 90 || in_range 97 c 122 || (c =? 95)%N.

(** The groups of a pattern. *)
Fixpoint groups (r : regex) : list nat :=
  match r with
  | Seq a b | Alt a b => groups a ++ groups b
  | Star a | Opt a => groups a
  | Grp n a => n :: groups a
  | _ => []
  end.

(** Move over [w], the text the state is about to read. *)
Definition advance (w : jsstring) (s : mstate) : mstate :=
  MState (reverse w ++ before s) (drop (length w) (after s)) (caps s).

Definition set_cap (n : nat) (w : jsstring) (s : mstate) : mstate :=
  MState (before s) (after s) (jset n w (caps s)).

Definition reset (ns : list nat) (s : mstate) : mstate :=
  MState (before s) (after s) (filter (λ p, p.1 ∉ ns) (caps s)).

(** The text between an earlier state and a later one. *)
Definition consumed (s s' : mstate) : jsstring :=
  take (length (after s) - length (after s')) (after s).

Definition word_at (l : jsstring) : bool := match l with c :: _ => is_word c | [] => false end.

(** At the edge of the text or next to a line terminator. *)
Definition line_end (l : jsstring) : bool := match l with c :: _ => negb (not_newline c) | [] => true end.

Section matcher.
Context {A : Type}.
Implicit Types (k : mstate → option A) (s : mstate).

(** The first choice that succeeds; the second is only tried when the first fails. *)
#[local] Notation "x <|> y" := (match x with Some a => Some a | None => y end)
  (at level 60, right associativity).

(** Greedy iteration of a body, each iteration consuming something. *)
Fixpoint star_loop (body : (mstate → option A) → mstate → option A) k (n : nat) s : option A :=
  match n with
  | O => None
  | S n =>
      body (λ s', if length (after s') <? length (after s)
                  then star_loop body k n s' else None) s
      <|> k s
  end.

Fixpoint run (r : regex) {struct r} : (mstate → option A) → mstate → option A :=
  match r with
  | Eps => λ k s, k s
  | Cls p => λ k s,
      match after s with
      | c :: rest => if p c then k (MState (c :: before s) rest (caps s)) else None
      | [] => None
      end
  | Seq a b => λ k, run a (run b k)
  | Alt a b => λ k s, run a k s <|> run b k s
  | Star a => λ k s,
      star_loop (λ k' s', run a k' (reset (groups a) s')) k (S (length (after s))) s
  | Opt a => λ k s,
      run a (λ s', if length (after s') <? length (after s) then k s' else None)
            (reset (groups a) s)
      <|> k s
  | Grp n a => λ k s, run a (λ s', k (set_cap n (consumed s s') s')) s
  | Ref n => λ k s,
      match jget n (caps s) with
      | Some w => if starts_with w (after s) then k (advance w s) else None
      | None => k s
      end
  | Bol => λ k s, match before s with [] => k s | _ => None end
  | Eol => λ k s, match after s with [] => k s | _ => None end
  | WordB => λ k s, if xorb (word_at (before s)) (word_at (after s)) then k s else None
  | BolM => λ k s, if line_end (before s) then k s else None
  | EolM => λ k s, if line_end (after s) then k s else None
  end.

End matcher.

(** ** Entry points *)

(** The first place from which the pattern matches: the text skipped and the
    state at the end of the match. *)
Fixpoint search_from (r : regex) (pre s : jsstring) : option (jsstring * mstate) :=
  match run r Some (MState pre s []) with
  | Some m => Some ([], m)
  | None =>
      match s with
      | [] => None
      | c :: s' => '(w, m) ← search_from r (c :: pre) s'; Some (c :: w, m)
      end
  end.

(** [s.match(r)] for an expression without the [g] flag: the groups. *)
Definition re_match (r : regex) (s : jsstring) : option (list (nat * jsstring)) :=
  '(_, m) ← search_from r [] s; Some (caps m).

Definition re_test (r : regex) (s : jsstring) : bool :=
  match search_from r [] s with Some _ => true | None => false end.

(** Group [n] of a match; an unmatched group is [undefined]. *)
Definition cap (m : list (nat * jsstring)) (n : nat) : option jsstring := jget n m.

(** The loop [while ((m = r.exec(s)) !== null)] of a global expression. *)
Fixpoint exec_loop (fuel : nat) (r : regex) (pre s : jsstring) : list (list (nat * jsstring)) :=
  match fuel with
  | O => []
  | S fuel =>
      match search_from r pre s with
      | None => []
      | Some (_, m) => caps m :: exec_loop fuel r (before m) (after m)
      end
  end.
Definition exec_all (r : regex) (s : jsstring) : list (list (nat * jsstring)) :=
  exec_loop (S (length s)) r [] s.

(** [s.matchAll(r)]: the place and the text of each match. *)
Fixpoint match_loop (fuel : nat) (r : regex) (pre s : jsstring) : list (nat * jsstring) :=
  match fuel with
  | O => []
  | S fuel =>
      match search_from r pre s with
      | None => []
      | Some (w, m) =>
          (length pre + length w, take (length s - length w - length (after m)) (drop (length w) s))
          :: match_loop fuel r (before m) (after m)
      end
  end.
Definition match_all (r : regex) (s : jsstring) : list (nat * jsstring) :=
  match_loop (S (length s)) r [] s.

(** [s.replace(r, t)] for a global expression and a plain text [t]. *)
Fixpoint replace_loop (fuel : nat) (r : regex) (t pre s : jsstring) : jsstring :=
  match fuel with
  | O => s
  | S fuel =>
      match search_from r pre s with
      | None => s
      | Some (w, m) => w ++ t ++ replace_loop fuel r t (before m) (after m)
      end
  end.
Definition replace_all (r : regex) (t s : jsstring) : jsstring :=
  replace_loop (S (length s)) r t [] s.

(** [s.split(r)] for an expression that never matches the empty text: the pieces
    between the matches. *)
Fixpoint split_loop (fuel : nat) (r : regex) (pre s : jsstring) : list jsstring :=
  match fuel with
  | O => [s]
  | S fuel =>
      match search_from r pre s with
      | None => [s]
      | Some (w, m) => w :: split_loop fuel r (before m) (after m)
      end
  end.
Definition re_split (r : regex) (s : jsstring) : list jsstring := split_loop (S (length s)) r [] s.

(** ** What the matcher computes

    The patterns of the code are mostly sequences of literals and greedy classes
    in which at each place only one choice can lead to a match.  The lemmas below
    turn such a match into rewriting: a literal is read or refused, a class is read
    to its end when the continuation refuses every shorter reading. *)
Section matcher_facts.
Context {A : Type}.
Implicit Types (k : mstate → option A) (s : mstate) (w rest : jsstring) (p : N → bool).

(** The state with the text [w] read. *)
Definition at_end (pre w rest : jsstring) (cs : list (nat * jsstring)) : mstate :=
  MState (reverse w ++ pre) rest cs.

Lemma run_Chr_ne c k pre d rest cs :
  c ≠ d → run (Chr c) k (MState pre (d :: rest) cs) = None.
Proof. intros H. simpl. by rewrite (proj2 (N.eqb_neq c d) H). Qed.

Lemma run_Chr c k pre rest cs :
  run (Chr c) k (MState pre (c :: rest) cs) = k (MState (c :: pre) rest cs).
Proof. simpl. by rewrite N.eqb_refl. Qed.

Lemma run_Lit w k pre rest cs :
  run (Lit w) k (MState pre (w ++ rest) cs) = k (at_end pre w rest cs).
Proof.
  revert pre. induction w as [|c w IH]; intros pre; [done|]. simpl.
  rewrite N.eqb_refl, IH. unfold at_end. by rewrite reverse_cons, <- app_assoc.
Qed.

(** A literal that is not a prefix of the text does not match. *)
Lemma run_Lit_None w k pre t cs :
  ¬ w `prefix_of` t → run (Lit w) k (MState pre t cs) = None.
Proof.
  revert pre t. induction w as [|c w IH]; intros pre t H.
  - destruct H. apply prefix_nil.
  - simpl. destruct t as [|d t]; [done|]. destruct (N.eqb_spec c d) as [->|Hne]; [|done].
    apply IH. intros Hp. apply H. by apply prefix_cons.
Qed.

(** Iterating a class: one unit more, or stop here. *)
Lemma star_cls_fuel p k n1 n2 pre t cs :
  length t < n1 → length t < n2 →
  star_loop (λ k' s', run (Cls p) k' (reset [] s')) k n1 (MState pre t cs) =
  star_loop (λ k' s', run (Cls p) k' (reset [] s')) k n2 (MState pre t cs).
Proof.
  revert pre t cs n2. induction n1 as [|n1 IH]; intros pre t cs n2 H1 H2; [simpl in *; lia|].
  destruct n2 as [|n2]; [simpl in *; lia|]. cbn [star_loop run reset after before caps].
  destruct t as [|c t]; [done|]. destruct (p c); [|done].
  rewrite (proj2 (Nat.ltb_lt (length t) (length (c :: t)))) by (simpl; lia).
  simpl in *. by rewrite (IH _ t _ n2) by lia.
Qed.

Lemma reset_nil s : reset [] s = s.
Proof.
  destruct s as [b a cs]. unfold reset. f_equal. apply filter_all, Forall_forall.
  intros q _. set_solver.
Qed.

Lemma run_star_cons p k pre c t cs :
  run (Star (Cls p)) k (MState pre (c :: t) cs) =
  if p c then
    match run (Star (Cls p)) k (MState (c :: pre) t cs) with
    | Some a => Some a
    | None => k (MState pre (c :: t) cs)
    end
  else k (MState pre (c :: t) cs).
Proof.
  cbn [run groups after]. cbn [star_loop]. rewrite reset_nil. cbn [after before caps].
  destruct (p c) eqn:E; [|done].
  rewrite (proj2 (Nat.ltb_lt (length t) (length (c :: t)))) by (simpl; lia).
  simpl length. done.
Qed.

Lemma run_star_nil p k pre cs :
  run (Star (Cls p)) k (MState pre [] cs) = k (MState pre [] cs).
Proof. done. Qed.

(** A class is read to its end when the continuation accepts there... *)
Lemma run_star_longest p k pre w rest cs a :
  Forall (λ c, p c = true) w → (∀ c t, rest = c :: t → p c = false) →
  k (at_end pre w rest cs) = Some a →
  run (Star (Cls p)) k (MState pre (w ++ rest) cs) = Some a.
Proof.
  intros Hw Hr. revert pre. induction Hw as [|c w Hc Hw IH]; intros pre Hk.
  - destruct rest as [|d t]; [done|]. change ([] ++ d :: t) with (d :: t). rewrite run_star_cons.
    by rewrite (Hr d t eq_refl).
  - change ((c :: w) ++ rest) with (c :: (w ++ rest)). rewrite run_star_cons, Hc.
    rewrite (IH (c :: pre)); [done|].
    unfold at_end in *. by rewrite reverse_cons, <- app_assoc in Hk.
Qed.

(** ... and also when the continuation refuses every shorter reading, whatever it
    says of the longest. *)
Lemma run_star_det p k pre w rest cs :
  Forall (λ c, p c = true) w → (∀ c t, rest = c :: t → p c = false) →
  (∀ w1 c w2, w = w1 ++ c :: w2 → k (at_end pre w1 (c :: w2 ++ rest) cs) = None) →
  run (Star (Cls p)) k (MState pre (w ++ rest) cs) = k (at_end pre w rest cs).
Proof.
  intros Hw Hr. revert pre. induction Hw as [|c w Hc Hw IH]; intros pre Hk.
  - destruct rest as [|d t]; [done|]. change ([] ++ d :: t) with (d :: t). rewrite run_star_cons.
    by rewrite (Hr d t eq_refl).
  - change ((c :: w) ++ rest) with (c :: (w ++ rest)). rewrite run_star_cons, Hc.
    rewrite (IH (c :: pre)).
    + specialize (Hk [] c w eq_refl). unfold at_end in *. simpl in Hk. rewrite Hk.
      rewrite reverse_cons, <- app_assoc. simpl. by case_match.
    + intros w1 d w2 ->. specialize (Hk (c :: w1) d w2 eq_refl).
      unfold at_end in *. by rewrite reverse_cons, <- app_assoc in Hk.
Qed.

Lemma run_plus_det p k pre w rest cs :
  w ≠ [] → Forall (λ c, p c = true) w → (∀ c t, rest = c :: t → p c = false) →
  (∀ w1 c w2, w1 ≠ [] → w = w1 ++ c :: w2 → k (at_end pre w1 (c :: w2 ++ rest) cs) = None) →
  run (Plus (Cls p)) k (MState pre (w ++ rest) cs) = k (at_end pre w rest cs).
Proof.
  intros Hne Hw Hr Hk. destruct w as [|c w]; [done|]. inversion Hw as [|? ? Hc Hw']; subst.
  unfold Plus. simpl app. cbn [run]. cbn [after before caps]. rewrite Hc.
  change (star_loop _ _ _ _) with (run (Star (Cls p)) k (MState (c :: pre) (w ++ rest) cs)).
  rewrite run_star_det; [|done|done|].
  - unfold at_end. by rewrite reverse_cons, <- app_assoc.
  - intros w1 d w2 ->. specialize (Hk (c :: w1) d w2 ltac:(done) eq_refl).
    unfold at_end in *. by rewrite reverse_cons, <- app_assoc in Hk.
Qed.

Lemma run_plus_longest p k pre w rest cs a :
  w ≠ [] → Forall (λ c, p c = true) w → (∀ c t, rest = c :: t → p c = false) →
  k (at_end pre w rest cs) = Some a →
  run (Plus (Cls p)) k (MState pre (w ++ rest) cs) = Some a.
Proof.
  intros Hne Hw Hr Hk. destruct w as [|c w]; [done|]. inversion Hw as [|? ? Hc Hw']; subst.
  unfold Plus. simpl app. cbn [run]. cbn [after before caps]. rewrite Hc.
  change (star_loop _ _ _ _) with (run (Star (Cls p)) k (MState (c :: pre) (w ++ rest) cs)).
  apply run_star_longest; [done|done|].
  unfold at_end in *. by rewrite reverse_cons, <- app_assoc in Hk.
Qed.

(** A class refuses a text that does not start with one of its units. *)
Lemma run_plus_None p k pre t cs :
  (∀ c t', t = c :: t' → p c = false) → run (Plus (Cls p)) k (MState pre t cs) = None.
Proof. intros H. unfold Plus. simpl. destruct t as [|c t]; [done|]. by rewrite (H c t eq_refl). Qed.

End matcher_facts.

(** ** Progress and termination *)

(** The least number of units a match of the pattern reads. *)
Fixpoint min_len (r : regex) : nat :=
  match r with
  | Cls _ => 1
  | Seq a b => min_len a + min_len b
  | Alt a b => min (min_len a) (min_len b)
  | Grp _ a => min_len a
  | _ => 0
  end.

Section progress.
Context {A : Type}.
Implicit Types (k : mstate → option A) (s : mstate).

(** The matcher depends on the values of its continuation only. *)
Lemma star_loop_ext body body' k k' n s :
  (∀ h h' t, (∀ u, h u = h' u) → body h t = body' h' t) → (∀ t, k t = k' t) →
  star_loop (A := A) body k n s = star_loop body' k' n s.
Proof.
  intros Hb Hk. revert s. induction n as [|n IH]; intros s; [done|]. cbn [star_loop].
  rewrite (Hb _ (λ s', if length (after s') <? length (after s)
                       then star_loop body' k' n s' else None)), Hk; [done|].
  intros u. by rewrite IH.
Qed.

Lemma run_ext r k k' s : (∀ t, k t = k' t) → run r k s = run r k' s.
Proof.
  revert k k' s. induction r as [|p|a IHa b IHb|a IHa b IHb|a IH|a IH|n a IH|n| | | | |];
    intros k k' s H; cbn [run]; try by rewrite ?H; repeat case_match.
  - apply IHa. intros t. by apply IHb.
  - by rewrite (IHa k k'), (IHb k k').
  - apply star_loop_ext; [|done]. intros h h' t Hh. by apply IH.
  - rewrite (IH _ (λ s', if length (after s') <? length (after s) then k' s' else None)), H;
      [done|]. intros t. by rewrite H.
  - apply IH. intros t. by rewrite H.
Qed.

(** The fuel of a quantifier: beyond the length of the text it changes nothing. *)
Lemma star_loop_fuel r k n1 n2 s :
  length (after s) < n1 → length (after s) < n2 →
  star_loop (λ k' s', run r k' (reset (groups r) s')) k n1 s =
  star_loop (λ k' s', run r k' (reset (groups r) s')) k n2 s.
Proof.
  revert n2 s. induction n1 as [|n1 IH]; intros n2 s H1 H2; [lia|].
  destruct n2 as [|n2]; [lia|]. cbn [star_loop].
  rewrite (run_ext r _ (λ s', if length (after s') <? length (after s)
     then star_loop (λ k' s', run r k' (reset (groups r) s')) k n2 s' else None)); [done|].
  intros t. destruct (Nat.ltb_spec (length (after t)) (length (after s))); [|done].
  apply IH; lia.
Qed.

(** A match hands its continuation a state that has read at least [min_len]. *)
Lemma run_progress r k s a :
  run r k s = Some a →
  ∃ s', k s' = Some a ∧ length (after s') + min_len r <= length (after s).
Proof.
  revert k s. induction r as [|p|r1 IH1 r2 IH2|r1 IH1 r2 IH2|r IH|r IH|n r IH|n| | | | |];
    intros k s H; cbn [run min_len] in *.
  - exists s. split; [done|lia].
  - destruct (after s) as [|c rest]; [done|]. destruct (p c); [|done].
    eexists; split; [done|]. simpl. lia.
  - apply IH1 in H as (s1 & H & Hl1). apply IH2 in H as (s2 & H & Hl2).
    exists s2. split; [done|lia].
  - destruct (run r1 k s) eqn:E; simplify_eq.
    + apply IH1 in E as (s' & ? & ?). exists s'. split; [done|lia].
    + apply IH2 in H as (s' & ? & ?). exists s'. split; [done|lia].
  - revert H. generalize (S (length (after s))). intros n. revert s.
    induction n as [|n IHn]; intros s H; [done|]. cbn [star_loop] in H.
    match type of H with match ?x with _ => _ end = _ => destruct x eqn:E end; simplify_eq.
    + apply IH in E as (s1 & E & Hl). destruct (Nat.ltb_spec (length (after s1)) (length (after s)));
        [|done]. apply IHn in E as (s2 & ? & ?). exists s2. split; [done|lia].
    + exists s. split; [done|lia].
  - match type of H with match ?x with _ => _ end = _ => destruct x eqn:E end; simplify_eq.
    + apply IH in E as (s1 & E & Hl). destruct (Nat.ltb_spec (length (after s1)) (length (after s)));
        [|done]. exists s1. split; [done|lia].
    + exists s. split; [done|lia].
  - apply IH in H as (s1 & H & Hl). eexists; split; [done|]. done.
  - destruct (jget n (caps s)) as [w|]; [|exists s; split; [done|lia]].
    destruct (starts_with w (after s)); [|done]. eexists; split; [done|]. simpl.
    rewrite length_drop. lia.
  - case_match; [|done]. exists s. split; [done|lia].
  - destruct (after s) eqn:E; [|done]. exists s. rewrite E. split; [done|simpl; lia].
  - case_match; [|done]. exists s. split; [done|lia].
  - case_match; [|done]. exists s. split; [done|lia].
  - case_match; [|done]. exists s. split; [done|lia].
Qed.

End progress.

Lemma search_progress r pre s w m :
  search_from r pre s = Some (w, m) → length (after m) + min_len r <= length s.
Proof.
  revert pre w. induction s as [|c s IH]; intros pre w; cbn [search_from];
    destruct (run r Some _) as [m'|] eqn:E; [intros [= <- <-]|done|intros [= <- <-]|].
  - apply run_progress in E as (s' & [= ->] & ?). done.
  - apply run_progress in E as (s' & [= ->] & ?). done.
  - destruct (search_from r (c :: pre) s) as [[w' m']|] eqn:E'; [|done].
    intros [= <- <-]. apply IH in E'. simpl. lia.
Qed.

(** The loops over the matches of an expression that never matches the empty text
    end: fuel beyond the length of the text changes nothing. *)
Lemma exec_loop_fuel r n1 n2 pre s :
  0 < min_len r → length s < n1 → length s < n2 →
  exec_loop n1 r pre s = exec_loop n2 r pre s.
Proof.
  intros Hr. revert n2 pre s. induction n1 as [|n1 IH]; intros n2 pre s H1 H2; [lia|].
  destruct n2 as [|n2]; [lia|]. cbn [exec_loop].
  destruct (search_from r pre s) as [[w m]|] eqn:E; [|done].
  apply search_progress in E. f_equal. apply IH; lia.
Qed.

Lemma replace_loop_fuel r t n1 n2 pre s :
  0 < min_len r → length s < n1 → length s < n2 →
  replace_loop n1 r t pre s = replace_loop n2 r t pre s.
Proof.
  intros Hr. revert n2 pre s. induction n1 as [|n1 IH]; intros n2 pre s H1 H2; [lia|].
  destruct n2 as [|n2]; [lia|]. cbn [replace_loop].
  destruct (search_from r pre s) as [[w m]|] eqn:E; [|done].
  apply search_progress in E. do 2 f_equal. apply IH; lia.
Qed.

Lemma split_loop_fuel r n1 n2 pre s :
  0 < min_len r → length s < n1 → length s < n2 →
  split_loop n1 r pre s = split_loop n2 r pre s.
Proof.
  intros Hr. revert n2 pre s. induction n1 as [|n1 IH]; intros n2 pre s H1 H2; [lia|].
  destruct n2 as [|n2]; [lia|]. cbn [split_loop].
  destruct (search_from r pre s) as [[w m]|] eqn:E; [|done].
  apply search_progress in E. f_equal. apply IH; lia.
Qed.

(** An anchored expression matches at the start or not at all. *)
Lemma search_anchored r s :
  search_from (Bol ⋅ r) [] s =
  match run r Some (MState [] s []) with Some m => Some ([], m) | None => None end.
Proof.
  assert (∀ c pre t, search_from (Bol ⋅ r) (c :: pre) t = None) as Hn.
  { intros c pre t. revert c pre. induction t as [|d t IH]; intros c pre; [done|].
    cbn [search_from run before]. by rewrite IH. }
  destruct s as [|c s]; cbn [search_from run before]; [done|].
  destruct (run r Some _); [done|]. by rewrite Hn.
Qed.

(** ** More on quantifiers *)
Section quantifiers.
Context {A : Type}.
Implicit Types (k : mstate → option A) (s : mstate) (w rest : jsstring) (p : N → bool).

(** The unfolding of [*]: one more iteration, or stop. *)
Lemma run_star_step r k s :
  run (Star r) k s =
  match run r (λ s', if length (after s') <? length (after s) then run (Star r) k s' else None)
            (reset (groups r) s) with
  | Some a => Some a
  | None => k s
  end.
Proof.
  cbn [run]. cbn [star_loop].
  rewrite (run_ext r _ (λ s', if length (after s') <? length (after s) then run (Star r) k s' else None));
    [done|].
  intros t. destruct (Nat.ltb_spec (length (after t)) (length (after s))); [|done].
  cbn [run]. apply star_loop_fuel; lia.
Qed.

(** A class over a text at no place of which the continuation accepts. *)
Lemma run_star_fail p k pre t cs :
  (∀ w u, t = w ++ u → k (at_end pre w u cs) = None) →
  run (Star (Cls p)) k (MState pre t cs) = None.
Proof.
  revert pre. induction t as [|c t IH]; intros pre H.
  - rewrite run_star_nil. apply (H [] []). done.
  - rewrite run_star_cons. rewrite (H [] (c :: t) eq_refl : k (MState pre (c :: t) cs) = None).
    destruct (p c); [|done]. rewrite IH; [done|].
    intros w u ->. specialize (H (c :: w) u eq_refl). unfold at_end in *.
    by rewrite reverse_cons, <- app_assoc in H.
Qed.

(** A class stops at the last place where the continuation accepts. *)
Lemma run_star_last p k pre w rest cs a :
  Forall (λ c, p c = true) w →
  k (at_end pre w rest cs) = Some a →
  (∀ v u, v ≠ [] → rest = v ++ u → k (at_end pre (w ++ v) u cs) = None) →
  run (Star (Cls p)) k (MState pre (w ++ rest) cs) = Some a.
Proof.
  intros Hw. revert pre. induction Hw as [|c w Hc Hw IH]; intros pre Hk Hr.
  - change ([] ++ rest) with rest. destruct rest as [|d t]; [done|].
    rewrite run_star_cons. destruct (p d); [|done].
    rewrite (run_star_fail p k (d :: pre) t cs); [done|].
    intros v u ->. specialize (Hr (d :: v) u ltac:(done) eq_refl). unfold at_end in *.
    simpl in Hr. by rewrite reverse_cons, <- app_assoc in Hr.
  - change ((c :: w) ++ rest) with (c :: (w ++ rest)). rewrite run_star_cons, Hc.
    rewrite (IH (c :: pre)); [done| |].
    + unfold at_end in *. by rewrite reverse_cons, <- app_assoc in Hk.
    + intros v u Hv ->. specialize (Hr v u Hv eq_refl). unfold at_end in *.
      simpl in Hr. by rewrite reverse_cons, <- app_assoc in Hr.
Qed.

Lemma run_plus_last p k pre w rest cs a :
  w ≠ [] → Forall (λ c, p c = true) w →
  k (at_end pre w rest cs) = Some a →
  (∀ v u, v ≠ [] → rest = v ++ u → k (at_end pre (w ++ v) u cs) = None) →
  run (Plus (Cls p)) k (MState pre (w ++ rest) cs) = Some a.
Proof.
  intros Hne Hw Hk Hr. destruct w as [|c w]; [done|]. inversion Hw as [|? ? Hc Hw']; subst.
  unfold Plus. change ((c :: w) ++ rest) with (c :: (w ++ rest)).
  change (run (Cls p ⋅ Star (Cls p)) k (MState pre (c :: (w ++ rest)) cs))
    with (if p c then run (Star (Cls p)) k (MState (c :: pre) (w ++ rest) cs) else None).
  rewrite Hc. apply run_star_last; [done| |].
  - unfold at_end in *. by rewrite reverse_cons, <- app_assoc in Hk.
  - intros v u Hv ->. specialize (Hr v u Hv eq_refl). unfold at_end in *.
    simpl in Hr. by rewrite reverse_cons, <- app_assoc in Hr.
Qed.

End quantifiers.

(** ** The units a match reads

    Every class of the pattern within a set of units, no back reference. *)
Fixpoint reads_only (P : N → bool) (r : regex) : Prop :=
  match r with
  | Cls p => ∀ c, p c = true → P c = true
  | Seq a b | Alt a b => reads_only P a ∧ reads_only P b
  | Star a | Opt a | Grp _ a => reads_only P a
  | Ref _ => False
  | _ => True
  end.

Lemma reads_only_Lit P w : Forall (λ c, P c = true) w → reads_only P (Lit w).
Proof.
  intros H. induction H as [|c w Hc Hw IH]; simpl; [done|]. split; [|done].
  by intros d <-%N.eqb_eq.
Qed.

Lemma run_reads {A} P r (k : mstate → option A) s a :
  reads_only P r → run r k s = Some a →
  ∃ w s', after s = w ++ after s' ∧ Forall (λ c, P c = true) w ∧ k s' = Some a.
Proof.
  revert k s. induction r as [|p|r1 IH1 r2 IH2|r1 IH1 r2 IH2|r IH|r IH|n r IH|n| | | | |];
    intros k s HP H; cbn [run reads_only] in *.
  - exists [], s. done.
  - destruct (after s) as [|c rest] eqn:E; [done|]. destruct (p c) eqn:Ep; [|done].
    exists [c], (MState (c :: before s) rest (caps s)). split_and!; [done| |done]. auto.
  - destruct HP as [HP1 HP2]. apply IH1 in H as (w1 & s1 & E1 & HF1 & H); [|done].
    apply IH2 in H as (w2 & s2 & E2 & HF2 & H); [|done].
    exists (w1 ++ w2), s2. split_and!; [by rewrite E1, E2, app_assoc|by apply Forall_app|done].
  - destruct HP as [HP1 HP2]. destruct (run r1 k s) eqn:E; simplify_eq; eauto.
  - revert H. generalize (S (length (after s))). intros n. revert s.
    induction n as [|n IHn]; intros s H; [done|]. cbn [star_loop] in H.
    match type of H with match ?x with _ => _ end = _ => destruct x eqn:E end; simplify_eq.
    + apply IH in E as (w1 & s1 & E1 & HF1 & E); [|done].
      case_match; [|done]. apply IHn in E as (w2 & s2 & E2 & HF2 & E).
      exists (w1 ++ w2), s2. simpl in E1.
      split_and!; [by rewrite E1, E2, app_assoc|by apply Forall_app|done].
    + exists [], s. done.
  - match type of H with match ?x with _ => _ end = _ => destruct x eqn:E end; simplify_eq.
    + apply IH in E as (w1 & s1 & E1 & HF1 & E); [|done]. case_match; [|done]. eauto.
    + exists [], s. done.
  - apply IH in H as (w1 & s1 & E1 & HF1 & H); [|done].
    eexists w1, _. split_and!; [|exact HF1|exact H]; done.
  - done.
  - destruct (before s); [|done]. by exists [], s.
  - destruct (after s) eqn:E; [|done]. exists [], s. by rewrite E.
  - case_match; [|done]. by exists [], s.
  - case_match; [|done]. by exists [], s.
  - case_match; [|done]. by exists [], s.
Qed.

(** A text that an anchored pattern accepts is made of the units of the pattern. *)
Lemma re_test_units P r r' t :
  (∀ s, run r Some s = run (r' ⋅ Eol) Some s) → reads_only P r' →
  re_test (Bol ⋅ r) t = true → Forall (λ c, P c = true) t.
Proof.
  intros Hr HP. unfold re_test. rewrite search_anchored, Hr. cbn [run].
  destruct (run r' _ _) eqn:E; [|done]. intros _.
  apply (run_reads P) in E as (w & s' & E & HF & H); [|done]. simpl in E.
  destruct (after s'); [|done]. by rewrite app_nil_r in E; subst.
Qed.

(** ** Rewriting a match *)
Lemma re_match_anchored r s : re_match (Bol ⋅ r) s = caps <$> run r Some (MState [] s []).
Proof. unfold re_match. rewrite search_anchored. by destruct (run r _ _). Qed.

Section rewriting.
Context {A : Type}.
Implicit Types (k : mstate → option A) (s : mstate).

Lemma run_Seq a b k s : run (a ⋅ b) k s = run a (run b k) s.
Proof. done. Qed.

Lemma run_Alt a b k s :
  run (a ∥ b) k s = match run a k s with Some x => Some x | None => run b k s end.
Proof. done. Qed.

Lemma run_Cls p k pre c t cs :
  run (Cls p) k (MState pre (c :: t) cs) = if p c then k (MState (c :: pre) t cs) else None.
Proof. done. Qed.

Lemma run_lit w k pre rest cs :
  run (lit w) k (MState pre (js w ++ rest) cs) = k (MState (reverse (js w) ++ pre) rest cs).
Proof. apply run_Lit. Qed.

Lemma run_lit_None w k pre t cs :
  ¬ js w `prefix_of` t → run (lit w) k (MState pre t cs) = None.
Proof. apply run_Lit_None. Qed.

Lemma run_Ref n k pre w t cs :
  jget n cs = Some w →
  run (Ref n) k (MState pre (w ++ t) cs) = k (MState (reverse w ++ pre) t cs).
Proof.
  intros H. cbn [run caps after]. rewrite H.
  replace (starts_with w (w ++ t)) with true by (symmetry; apply bool_decide_eq_true; by exists t).
  unfold advance. cbn [before after caps]. by rewrite drop_app_length.
Qed.

Lemma run_Eol k pre cs : run Eol k (MState pre [] cs) = k (MState pre [] cs).
Proof. done. Qed.

Lemma consumed_app pre pre' w rest cs cs' :
  consumed (MState pre (w ++ rest) cs) (MState pre' rest cs') = w.
Proof. unfold consumed. simpl. rewrite length_app, Nat.add_sub. apply take_app_length. Qed.

(** A group around a class that is read to its end. *)
Lemma run_group_det n p k pre w rest cs :
  w ≠ [] → Forall (λ c, p c = true) w → (∀ c t, rest = c :: t → p c = false) →
  (∀ pre c t cs, p c = true → k (MState pre (c :: t) cs) = None) →
  run (Grp n (Plus (Cls p))) k (MState pre (w ++ rest) cs) =
  k (MState (reverse w ++ pre) rest (jset n w cs)).
Proof.
  intros Hne Hw Hr Hk.
  change (run (Grp n (Plus (Cls p))) k (MState pre (w ++ rest) cs)) with
    (run (Plus (Cls p)) (λ s', k (set_cap n (consumed (MState pre (w ++ rest) cs) s') s'))
       (MState pre (w ++ rest) cs)).
  rewrite run_plus_det; [|done..|].
  - unfold at_end. rewrite consumed_app. done.
  - intros w1 c w2 _ ->. apply Hk. rewrite Forall_app, Forall_cons in Hw. tauto.
Qed.

End rewriting.
