(* ===== verification/JsonQuote.v ===== *)
(** [JSON.stringify] of a string, and its round trip with [JSON.parse].

    The quotation follows the language: the two-character escapes for the quote,
    the backslash and five control characters, [\u] and four lower-case digits for
    the other control characters and for surrogates that are not part of a pair,
    every other unit as it is. *)
From S2P Require Import Prelude JsString JsValue Json.

Definition hex_lower (d : N) : N := if (d <? 10)%N then (48 + d)%N else (87 + d)%N.

Definition escape_u (c : N) : jsstring :=
  [92; 117; hex_lower (c / 4096); hex_lower (c / 256 mod 16);
   hex_lower (c / 16 mod 16); hex_lower (c mod 16)]%N.

Definition is_high (c : N) : bool := in_range 55296 c 56319.
Definition is_low (c : N) : bool := in_range 56320 c 57343.

(** A unit that is not half of a pair. *)
Definition quote_unit (c : N) : jsstring :=
  if (c =? 34)%N || (c =? 92)%N then [92%N; c]
  else if (c =? 8)%N then [92; 98]%N
  else if (c =? 12)%N then [92; 102]%N
  else if (c =? 10)%N then [92; 110]%N
  else if (c =? 13)%N then [92; 114]%N
  else if (c =? 9)%N then [92; 116]%N
  else if (c <? 32)%N || is_high c || is_low c then escape_u c
  else [c].

Fixpoint quote_body (s : jsstring) : jsstring :=
  match s with
  | [] => []
  | c :: t =>
      match t with
      | d :: t' => if is_high c && is_low d then c :: d :: quote_body t'
                   else quote_unit c ++ quote_body t
      | [] => quote_unit c
      end
  end.

(** [JSON.stringify(s)]. *)
Definition JSON_quote (s : jsstring) : jsstring := 34%N :: quote_body s ++ [34%N].

(** ** Round trip *)

Definition is_unit (c : N) : Prop := (c < 65536)%N.

(** Go through the sixteen values of a hexadecimal digit. *)
Ltac each_digit d :=
  destruct d as [|d]; [|do 4 (try destruct d as [d|d|]); try lia].

Lemma hex_value_lower d : (d < 16)%N → hex_value (hex_lower d) = Some d.
Proof. intros H. by each_digit d. Qed.

Lemma hex4_escape c :
  is_unit c →
  hex4 (hex_lower (c / 4096)) (hex_lower (c / 256 mod 16)) (hex_lower (c / 16 mod 16))
       (hex_lower (c mod 16)) = Some c.
Proof.
  unfold is_unit. intros H. unfold hex4.
  rewrite !hex_value_lower; try (apply N.mod_lt; lia); [|apply N.Div0.div_lt_upper_bound; lia].
  simpl. f_equal.
  pose proof (N.div_mod c 16 ltac:(done)) as H1.
  pose proof (N.div_mod (c / 16) 16 ltac:(done)) as H2.
  pose proof (N.div_mod (c / 256) 16 ltac:(done)) as H3.
  rewrite N.Div0.div_div in H2, H3. change (16 * 16)%N with 256%N in H2. change (256 * 16)%N with 4096%N in H3. lia.
Qed.

Lemma parse_plain c s :
  (32 <= c)%N → c ≠ 34%N → c ≠ 92%N →
  parse_string_body (c :: s) =
  match parse_string_body s with Some (t, r) => Some (c :: t, r) | None => None end.
Proof.
  intros H1 H2 H3. cbn [parse_string_body].
  rewrite (proj2 (N.eqb_neq _ _) H2), (proj2 (N.eqb_neq _ _) H3).
  by rewrite (proj2 (N.ltb_ge _ _) H1).
Qed.

Lemma parse_escape_u c s :
  is_unit c →
  parse_string_body (escape_u c ++ s) =
  match parse_string_body s with Some (t, r) => Some (c :: t, r) | None => None end.
Proof.
  intros H. unfold escape_u. cbn [app parse_string_body].
  change (92 =? 34)%N with false. change (92 =? 92)%N with true. change (117 =? 117)%N with true.
  cbv iota. by rewrite hex4_escape.
Qed.

Lemma parse_quote_unit c s :
  is_unit c →
  parse_string_body (quote_unit c ++ s) =
  match parse_string_body s with Some (t, r) => Some (c :: t, r) | None => None end.
Proof.
  intros H. unfold quote_unit.
  repeat match goal with
  | |- context [if (?a =? ?b)%N || (?a =? ?d)%N then _ else _] =>
      destruct (N.eqb_spec a b) as [->|?]; [by cbn|]; destruct (N.eqb_spec a d) as [->|?]; [by cbn|]
  | |- context [if (?a =? ?b)%N then _ else _] => destruct (N.eqb_spec a b) as [->|?]; [by cbn|]
  end.
  cbn [orb]. destruct (N.ltb_spec c 32); [by apply parse_escape_u|].
  destruct (_ || _) eqn:E; [by apply parse_escape_u|]. by apply parse_plain.
Qed.

Lemma is_high_plain c : is_high c = true → (32 <= c)%N ∧ c ≠ 34%N ∧ c ≠ 92%N.
Proof. unfold is_high, in_range. intros H. boolify. lia. Qed.
Lemma is_low_plain c : is_low c = true → (32 <= c)%N ∧ c ≠ 34%N ∧ c ≠ 92%N.
Proof. unfold is_low, in_range. intros H. boolify. lia. Qed.

Lemma quote_body_cons c t :
  quote_body (c :: t) =
  match t with
  | d :: t' => if is_high c && is_low d then c :: d :: quote_body t'
               else quote_unit c ++ quote_body t
  | [] => quote_unit c
  end.
Proof. done. Qed.

(** Reading a quotation gives back the units it quotes and what follows it. *)
Lemma parse_quote_body s rest :
  Forall is_unit s →
  parse_string_body (quote_body s ++ 34%N :: rest) = Some (s, rest).
Proof.
  revert rest. induction s as [s IH] using (induction_ltof1 _ (@length N)). unfold ltof in IH.
  intros rest Hs. destruct s as [|c t]; [done|]. inversion Hs as [|? ? Hc Ht]; subst.
  rewrite quote_body_cons. destruct t as [|d t'].
  - by rewrite parse_quote_unit.
  - destruct (is_high c && is_low d) eqn:E.
    + apply andb_true_iff in E as [(? & ? & ?)%is_high_plain (? & ? & ?)%is_low_plain].
      inversion Ht; subst. cbn [app]. rewrite !parse_plain by done.
      rewrite IH; [done|simpl; lia|done].
    + rewrite <- app_assoc, parse_quote_unit by done. by rewrite IH; [|simpl; lia|].
Qed.

Lemma JSON_parse_quote s : Forall is_unit s → JSON_parse (JSON_quote s) = Some (JStr s).
Proof.
  intros H. unfold JSON_parse, JSON_quote.
  remember (2 * length (34%N :: quote_body s ++ [34%N]) + 2) as n eqn:Hn.
  destruct n as [|n]; [lia|]. cbn [parse_value].
  change (next_unit (34%N :: quote_body s ++ [34%N])) with (Some (34%N, quote_body s ++ [34%N])).
  cbv beta iota. rewrite N.eqb_refl, parse_quote_body by done. done.
Qed.

(** A text without quotes, backslashes, control characters and surrogates is quoted
    as it is. *)
Definition plain_unit (c : N) : bool :=
  (32 <=? c)%N && negb (c =? 34)%N && negb (c =? 92)%N && negb (is_high c) && negb (is_low c).

Lemma quote_plain s : Forall (λ c, plain_unit c = true) s → quote_body s = s.
Proof.
  intros H. induction H as [|c t Hc Ht IH]; [done|].
  assert (quote_unit c = [c]) as Hq.
  { unfold plain_unit in Hc. unfold quote_unit. boolify.
    rewrite !(proj2 (N.eqb_neq c _)) by lia. rewrite (proj2 (N.ltb_ge c 32)) by lia.
    by destruct (is_high c), (is_low c). }
  rewrite quote_body_cons. destruct t as [|d t']; [done|].
  assert (is_high c = false) as -> by (unfold plain_unit in Hc; boolify; done).
  simpl andb. cbv iota. by rewrite IH, Hq.
Qed.

(** What a quotation is made of: a unit of the text, or one of the units of an
    escape. *)
Definition escape_units : jsstring := js "\ubfnrt0123456789abcdef" ++ [34%N].

(** Membership of a unit in a literal list, by computation. *)
Ltac in_list := apply (proj1 (bool_decide_eq_true _)); vm_compute; reflexivity.

Lemma hex_lower_escape d : (d < 16)%N → hex_lower d ∈ escape_units.
Proof.
  intros H. unfold hex_lower, escape_units. each_digit d; in_list.
Qed.

Lemma elem_of_quote_unit c u :
  is_unit c → u ∈ quote_unit c → (u = c ∧ (32 <= u)%N) ∨ u ∈ escape_units.
Proof.
  unfold is_unit. intros Hc Hu.
  assert (u ∈ escape_u c → u ∈ escape_units) as He.
  { unfold escape_u. intros H.
    repeat (apply elem_of_cons in H as [->|H];
      [first [apply hex_lower_escape; first [apply N.mod_lt; done|apply N.Div0.div_lt_upper_bound; lia]
             |in_list]|]).
    by apply elem_of_nil in H. }
  assert (∀ d, d ∈ escape_units → u ∈ [92%N; d] → u ∈ escape_units) as H2.
  { intros d Hd [->|[->|H]%elem_of_cons]%elem_of_cons; [in_list|done|].
    by apply elem_of_nil in H. }
  revert Hu. unfold quote_unit. destruct (_ || _) eqn:E.
  { apply orb_true_iff in E as [->%N.eqb_eq| ->%N.eqb_eq]; intros Hu; right;
      eapply H2; try done; in_list. }
  repeat (case_match; [intros Hu; right; eapply H2; try done; in_list|]).
  destruct (N.ltb_spec c 32); [auto|]. cbn [orb]. case_match; [auto|].
  intros ->%list_elem_of_singleton. by left.
Qed.

Lemma elem_of_quote_body s u :
  Forall is_unit s → u ∈ quote_body s → (u ∈ s ∧ (32 <= u)%N) ∨ u ∈ escape_units.
Proof.
  induction s as [s IH] using (induction_ltof1 _ (@length N)). unfold ltof in IH.
  intros Hs Hu. destruct s as [|c t]; [by apply elem_of_nil in Hu|].
  inversion Hs as [|? ? Hc Ht]; subst. rewrite quote_body_cons in Hu. destruct t as [|d t'].
  - apply elem_of_quote_unit in Hu as [[-> ?]|?]; [left|by right|done]. split; [set_solver|done].
  - destruct (is_high c && is_low d) eqn:E.
    + apply andb_true_iff in E as [(? & ? & ?)%is_high_plain (? & ? & ?)%is_low_plain].
      inversion Ht; subst. apply elem_of_cons in Hu as [->|Hu]; [left; set_solver|].
      apply elem_of_cons in Hu as [->|Hu]; [left; set_solver|].
      apply IH in Hu as [[? ?]|?]; [left; set_solver|by right|simpl; lia|done].
    + apply elem_of_app in Hu as [Hu|Hu].
      * apply elem_of_quote_unit in Hu as [[-> ?]|?]; [left|by right|done]. split; [set_solver|done].
      * apply IH in Hu as [[? ?]|?]; [left; set_solver|by right|simpl; lia|done].
Qed.
