(* ===== verification/JsNumber.v ===== *)
(** [Number(v)]: the conversion of a value to a number.

    A text is trimmed; the empty text is zero; a text that is neither a decimal
    literal (with an optional sign, [Infinity] included) nor an integer with one of
    the prefixes [0x], [0o] and [0b] is [NaN].  An array or an object converts
    through its text. *)
From S2P Require Import Prelude JsString JsValue Json JsPrint.

(** A digit of a radix of at most sixteen. *)
Definition radix_digit (radix c : N) : option N :=
  match hex_value c with
  | Some d => if (d <? radix)%N then Some d else None
  | None => None
  end.

Fixpoint radix_value (radix acc : N) (s : jsstring) : option N :=
  match s with
  | [] => Some acc
  | c :: t => d ← radix_digit radix c; radix_value radix (acc * radix + d)%N t
  end.

(** The radix a prefix announces. *)
Definition radix_of (c : N) : option N :=
  if (c =? 120)%N || (c =? 88)%N then Some 16%N
  else if (c =? 111)%N || (c =? 79)%N then Some 8%N
  else if (c =? 98)%N || (c =? 66)%N then Some 2%N
  else None.

Definition radix_literal (s : jsstring) : option jsnum :=
  match s with
  | z :: p :: d :: t =>
      if (z =? 48)%N then
        r ← radix_of p; n ← radix_value r 0 (d :: t); Some (num_of_Z (Z.of_N n))
      else None
  | _ => None
  end.

(** Digits after an optional point. *)
Definition after_point (s : jsstring) : jsstring * jsstring :=
  match s with
  | c :: t => if (c =? 46)%N then span_digits t else ([], s)
  | [] => ([], [])
  end.

Definition decimal_literal (s : jsstring) : option jsnum :=
  let '(neg, s1) := parse_sign true s in
  if bool_decide (s1 = js "Infinity") then Some (S754_infinity neg)
  else
    let '(ip, s2) := span_digits s1 in
    let '(fp, s3) := after_point s2 in
    if bool_decide (ip ++ fp = []) then None
    else
      match parse_exponent s3 with
      | Some (e, []) => Some (dec_to_num neg (parse_dec (ip ++ fp)) (e - Z.of_nat (length fp)))
      | _ => None
      end.

Definition string_to_number (s : jsstring) : jsnum :=
  match trim s with
  | [] => num0
  | t => match radix_literal t with
         | Some x => x
         | None => default S754_nan (decimal_literal t)
         end
  end.

Definition to_number (v : jsval) : jsnum :=
  match v with
  | JUndef => S754_nan
  | JNull => num0
  | JBool b => num_of_Z (if b then 1 else 0)
  | JNum x => x
  | JStr s => string_to_number s
  | JArr _ | JObj _ => string_to_number (to_string v)
  end.

(** [x || 0]: zero in place of zero and [NaN]. *)
Definition num_or_zero (x : jsnum) : jsnum := if truthy (JNum x) then x else num0.

Lemma num_or_zero_not_nan x : is_nan (num_or_zero x) = false.
Proof. by destruct x. Qed.

Lemma num_or_zero_idemp x : num_or_zero (num_or_zero x) = num_or_zero x.
Proof. by destruct x. Qed.

Example to_number_examples :
  to_number (JStr (js " 1.5e3 ")) = num_of_Z 1500 ∧ to_number (JStr (js "0x1F")) = num_of_Z 31 ∧
  to_number (JStr []) = num0 ∧ to_number (JStr (js "1.2.3")) = S754_nan ∧
  to_number (JStr (js ".5")) = to_number (JStr (js "5e-1")) ∧
  to_number (JStr (js "-Infinity")) = S754_infinity true.
Proof. vm_compute. split_and!; reflexivity. Qed.
