(* ===== verification/BillingExpr.v ===== *)
(** Billing expressions: the registry of variables, the parser of tiers, the parser
    and the builder of request rules
    (web/src/features/pricing/lib/billing-expr.ts).

    An expression is a text.  The parser of the code is a set of regular
    expressions and two scanners that count parentheses; the patterns are written
    below as the source writes them and run by the matcher of [RegExp].  A
    condition that quotes a text is decoded with [JSON.parse], whose error escapes
    the parser: those functions return [res]. *)
From S2P Require Import Prelude JsString JsValue Json JsPrint JsonQuote JsNumber RegExp.

Local Open Scope re_scope.

(** The quote, and the texts of a string literal around it. *)
Definition q : regex := Chr 34.

(** [a|b|...] in the order written. *)
Fixpoint alts (l : list regex) : regex :=
  match l with
  | [] => Cls (λ _, false)
  | [r] => r
  | r :: l => r ∥ alts l
  end.

(** ** Variable registry *)
Record BillingVar := {
  key : jsstring;
  field : option jsstring;
  tierField : option jsstring;
  label : jsstring;
  shortLabel : jsstring;
  side : jsstring;
  isBase : bool;
  isConditionOnly : bool;
  group : option jsstring
}.

Definition priced (k f t l s sd : string) (base : bool) (g : option jsstring) : BillingVar :=
  {| key := js k; field := Some (js f); tierField := Some (js t); label := js l;
     shortLabel := js s; side := js sd; isBase := base; isConditionOnly := false; group := g |}.

Definition BILLING_VARS : list BillingVar := [
  priced "p" "inputPrice" "input_unit_cost" "Input price" "Input" "input" true None;
  priced "c" "outputPrice" "output_unit_cost" "Completion price" "Output" "output" true None;
  {| key := js "len"; field := None; tierField := None; label := js "Input length";
     shortLabel := js "Length"; side := js "condition"; isBase := false;
     isConditionOnly := true; group := None |};
  priced "cr" "cacheReadPrice" "cache_read_unit_cost" "Cache read price" "Cache Read"
    "input" false (Some (js "cache"));
  priced "cc" "cacheCreatePrice" "cache_create_unit_cost" "Cache create price" "Cache Write"
    "input" false (Some (js "cache"));
  priced "cc1h" "cacheCreate1hPrice" "cache_create_1h_unit_cost" "Cache create (1h) price"
    "Cache Write (1h)" "input" false (Some (js "cache"));
  priced "img" "imagePrice" "image_unit_cost" "Image input price" "Image In" "input" false
    (Some (js "media"));
  priced "img_o" "imageOutputPrice" "image_output_unit_cost" "Image output price" "Image Out"
    "output" false (Some (js "media"));
  priced "ai" "audioInputPrice" "audio_input_unit_cost" "Audio input price" "Audio In" "input"
    false (Some (js "media"));
  priced "ao" "audioOutputPrice" "audio_output_unit_cost" "Audio output price" "Audio Out"
    "output" false (Some (js "media"))
].

Definition BILLING_PRICING_VARS : list BillingVar :=
  filter (λ v, isConditionOnly v = false) BILLING_VARS.

Definition BILLING_CONDITION_VARS : list jsstring :=
  key <$> filter (λ v, isBase v || isConditionOnly v = true) BILLING_VARS.

Definition BILLING_VAR_KEY_TO_FIELD : list (jsstring * jsstring) :=
  foldl (λ m p, jset p.1 p.2 m) [] ((λ v, (key v, default [] (field v))) <$> BILLING_PRICING_VARS).

Definition BILLING_EXTRA_VARS : list BillingVar :=
  filter (λ v, isBase v = false ∧ isConditionOnly v = false) BILLING_VARS.

(** The unit-cost field of a tier and the variable it multiplies. *)
Definition BILLING_CACHE_VAR_MAP : list (jsstring * jsstring) :=
  (λ v, (default [] (tierField v), key v)) <$> BILLING_EXTRA_VARS.

(** The units of a number: digits, point, exponent, signs; a condition has no minus. *)
Definition num_unit (c : N) : bool := is_digit c || one_of (js ".eE+-") c.
Definition cond_num_unit (c : N) : bool := is_digit c || one_of (js ".eE+") c.

(** A variable at a word boundary (group 1), a star, a number (group 2). *)
Definition BILLING_VAR_REGEX : regex :=
  WordB ⋅ Grp 1 (alts ((λ v, Lit (key v)) <$> BILLING_PRICING_VARS)) ⋅
  Ws ⋅ lit "*" ⋅ Ws ⋅ Grp 2 (Plus (Cls num_unit)).

(** ** Request rule constants *)
Definition MATCH_EQ : jsstring := js "eq".
Definition MATCH_CONTAINS : jsstring := js "contains".
Definition MATCH_GT : jsstring := js "gt".
Definition MATCH_GTE : jsstring := js "gte".
Definition MATCH_LT : jsstring := js "lt".
Definition MATCH_LTE : jsstring := js "lte".
Definition MATCH_EXISTS : jsstring := js "exists".
Definition MATCH_RANGE : jsstring := js "range".

Definition TIME_FUNCS : list jsstring :=
  js <$> ["hour"; "minute"; "weekday"; "month"; "day"]%string.

(** A sign, digits with an optional point and more digits, or a point and digits,
    and an optional exponent; the whole text. *)
Definition NUMERIC_LITERAL_REGEX : regex :=
  Bol ⋅ Opt (lit "-") ⋅
  ((Plus (Cls is_digit) ⋅ Opt (lit ".") ⋅ Star (Cls is_digit)) ∥ (lit "." ⋅ Plus (Cls is_digit))) ⋅
  Opt (Cls (one_of (js "eE")) ⋅ Opt (Cls (one_of (js "+-"))) ⋅ Plus (Cls is_digit)) ⋅ Eol.
Definition is_numeric (s : jsstring) : bool := re_test NUMERIC_LITERAL_REGEX s.

Inductive Source := SOURCE_PARAM | SOURCE_HEADER | SOURCE_TIME.
#[export] Instance Source_eq_dec : EqDecision Source.
Proof. solve_decision. Defined.
Definition source_name (s : Source) : jsstring :=
  match s with
  | SOURCE_PARAM => js "param" | SOURCE_HEADER => js "header" | SOURCE_TIME => js "time"
  end.

Inductive RequestCondition : Type :=
  | TimeCondition (timeFunc timezone mode value rangeStart rangeEnd : jsstring)
  | ParamHeaderCondition (header : bool) (path mode value : jsstring).

Record RequestRuleGroup := { conditions : list RequestCondition; multiplier : jsstring }.

Record TierCondition := { tc_var : jsstring; tc_op : jsstring; tc_value : jsnum }.

Record ParsedTier := {
  pt_label : jsstring;
  pt_conditions : list TierCondition;
  pt_prices : list (jsstring * jsnum)
}.

(** ** Tier parser *)

(** A [v], digits (group 1), a colon, the rest of the text (group 2). *)
Definition VERSION_REGEX : regex :=
  Bol ⋅ lit "v" ⋅ Grp 1 (Plus (Cls is_digit)) ⋅ lit ":" ⋅ Grp 2 (Star (Cls any_unit)) ⋅ Eol.

Definition stripExprVersion (exprStr : jsstring) : jsnum * jsstring :=
  match exprStr with
  | [] => (num_of_Z 1, [])
  | _ =>
      match re_match VERSION_REGEX exprStr with
      | Some m => (string_to_number (default [] (cap m 1)), default [] (cap m 2))
      | None => (num_of_Z 1, exprStr)
      end
  end.

Definition parseTierBody (bodyStr : jsstring) : list (jsstring * jsnum) :=
  let coeffs :=
    foldl (λ cs m,
      let v := default [] (cap m 1) in
      if jhas v cs then cs else jset v (string_to_number (default [] (cap m 2))) cs)
    [] (exec_all BILLING_VAR_REGEX bodyStr) in
  foldl (λ tier '(varName, field),
           jset field (num_or_zero (default S754_nan (jget varName coeffs))) tier)
        [] BILLING_VAR_KEY_TO_FIELD.

(** A condition of a tier: variable, comparison, number. *)
Definition COND_VARS : regex := alts [lit "p"; lit "c"; lit "len"].
Definition COND_OPS : regex := alts [lit "<"; lit "<="; lit ">"; lit ">="].
Definition COND : regex := COND_VARS ⋅ Ws ⋅ COND_OPS ⋅ Ws ⋅ Plus (Cls cond_num_unit).
Definition AND_SEP : regex := Ws ⋅ lit "&&" ⋅ Ws.
Definition condGroup : regex := Grp 1 (COND ⋅ Star (AND_SEP ⋅ COND)).

(** Optional conditions (group 1) and a question mark, the word [tier], an opening
    parenthesis, a quoted label (group 2), a comma. *)
Definition TIER_HEAD : regex :=
  Opt (condGroup ⋅ Ws ⋅ lit "?" ⋅ Ws) ⋅
  lit "tier(" ⋅ q ⋅ Grp 2 (Star (Cls (none_of [34%N]))) ⋅ q ⋅ lit "," ⋅ Ws.

Definition tierRe : regex := TIER_HEAD ⋅ Grp 3 (Plus (Cls (none_of [41%N]))) ⋅ lit ")".

(** One condition, anchored, with its three parts as groups. *)
Definition CONDITION_REGEX : regex :=
  Bol ⋅ Grp 1 COND_VARS ⋅ Ws ⋅ Grp 2 COND_OPS ⋅ Ws ⋅ Grp 3 (Plus (Cls cond_num_unit)) ⋅ Eol.

(** The conditions of a matched condition text. *)
Definition parseConditions (condStr : jsstring) : list TierCondition :=
  match condStr with
  | [] => []
  | _ =>
      omap (λ cp,
        m ← re_match CONDITION_REGEX (trim cp);
        Some {| tc_var := default [] (cap m 1); tc_op := default [] (cap m 2);
                tc_value := string_to_number (default [] (cap m 3)) |})
      (re_split AND_SEP condStr)
  end.

Definition parseTiersFromExpr (exprStr : jsstring) : list ParsedTier :=
  match exprStr with
  | [] => []
  | _ =>
      let body := (stripExprVersion exprStr).2 in
      (λ m, {| pt_prices := parseTierBody (default [] (cap m 3));
               pt_label := default [] (cap m 2);
               pt_conditions := parseConditions (default [] (cap m 1)) |})
      <$> exec_all tierRe body
  end.

(** The comparison signs and their full-width forms. *)
Definition EQ_SIGN : regex := Opt (Cls (one_of [61; 65309]%N)).
Definition LESS_REGEX : regex := alts [Chr 60 ⋅ EQ_SIGN; Chr 8804; Chr 65308 ⋅ EQ_SIGN].
Definition MORE_REGEX : regex := alts [Chr 62 ⋅ EQ_SIGN; Chr 8805; Chr 65310 ⋅ EQ_SIGN].

Definition normalizeTierLabel (label : option jsstring) : jsstring :=
  match label with
  | None | Some [] => []
  | Some l =>
      to_lower (replace_all (Plus (Cls is_ws)) []
        (replace_all MORE_REGEX (js ">") (replace_all LESS_REGEX (js "<") l)))
  end.

(** ** Request rule parser *)

Definition paren_depth (c : N) (depth : Z) : Z :=
  if (c =? 40)%N then (depth + 1)%Z else if (c =? 41)%N then (depth - 1)%Z else depth.

(** The scanning loop: the parts between the separators outside parentheses.
    [cur] is the current part, last unit first; [skip] counts the units of a
    separator still to be stepped over. *)
Fixpoint split_scan (sep : jsstring) (skip : nat) (depth : Z) (cur s : jsstring) : list jsstring :=
  match s with
  | [] => [trim (reverse cur)]
  | c :: t =>
      match skip with
      | S n => split_scan sep n depth cur t
      | O =>
          let depth := paren_depth c depth in
          if (depth =? 0)%Z && starts_with sep s
          then trim (reverse cur) :: split_scan sep (pred (length sep)) depth [] t
          else split_scan sep 0 depth (c :: cur) t
      end
  end.

Definition splitTopLevelMultiply (expr : jsstring) : list jsstring :=
  filter (λ p, p ≠ []) (split_scan (js " * ") 0 0 [] expr).

Definition splitTopLevelAnd (expr : jsstring) : list jsstring :=
  filter (λ p, p ≠ []) (split_scan (js " && ") 0 0 [] expr).

(** The value, or [null] where the text is not a literal. *)
Definition parseExprLiteral (raw : jsstring) : jsval :=
  let text := trim raw in
  if bool_decide (text = js "true") || bool_decide (text = js "false") then JStr text
  else if is_numeric text then JStr text
  else default JNull (JSON_parse text).

(** A quoted non-empty text without quotes, as the group [n]. *)
Definition quoted (n : nat) : regex := q ⋅ Grp n (Plus (Cls (none_of [34%N]))) ⋅ q.
Definition NUM (n : nat) : regex := Grp n (Plus (Cls num_unit)).
Definition TIME_FUNC : regex := Grp 1 (alts (Lit <$> TIME_FUNCS)).

(** [fn(tz) >= a || fn(tz) < b] with the function and the zone repeated. *)
Definition RANGE_BODY : regex :=
  TIME_FUNC ⋅ lit "(" ⋅ quoted 2 ⋅ lit ") >= " ⋅ NUM 3 ⋅ lit " || " ⋅ Ref 1 ⋅ lit "(" ⋅ q ⋅ Ref 2 ⋅ q ⋅
  lit ") < " ⋅ NUM 4.
Definition RANGE_REGEX : regex := Bol ⋅ RANGE_BODY ⋅ Eol.
Definition RANGE_PARENS_REGEX : regex := Bol ⋅ lit "(" ⋅ RANGE_BODY ⋅ lit ")" ⋅ Eol.
Definition TIME_REGEX : regex :=
  Bol ⋅ TIME_FUNC ⋅ lit "(" ⋅ quoted 2 ⋅ lit ") " ⋅ Grp 3 (alts [lit "=="; lit ">="; lit "<"]) ⋅
  lit " " ⋅ NUM 4 ⋅ Eol.

Definition group_text (m : list (nat * jsstring)) (n : nat) : jsstring := default [] (cap m n).

Definition range_condition (m : list (nat * jsstring)) : RequestCondition :=
  TimeCondition (group_text m 1) (group_text m 2) MATCH_RANGE [] (group_text m 3) (group_text m 4).

Definition time_op_mode (op : jsstring) : jsstring :=
  default MATCH_EQ (jget op [(js "==", MATCH_EQ); (js ">=", MATCH_GTE); (js "<", MATCH_LT)]).

Definition tryParseTimeCondition (expr : jsstring) : option RequestCondition :=
  match re_match RANGE_REGEX expr with
  | Some m => Some (range_condition m)
  | None =>
      match re_match RANGE_PARENS_REGEX expr with
      | Some m => Some (range_condition m)
      | None =>
          match re_match TIME_REGEX expr with
          | Some m =>
              Some (TimeCondition (group_text m 1) (group_text m 2)
                      (time_op_mode (group_text m 3)) (group_text m 4) [] [])
          | None => None
          end
      end
  end.

(** A quoted text with escapes, quotes included, as the group [n]. *)
Definition STRING (n : nat) : regex :=
  Grp n (q ⋅ Star (Cls (none_of [34; 92]%N) ∥ (Chr 92 ⋅ Cls not_newline)) ⋅ q).

Definition HEADER_EXISTS_REGEX : regex := Bol ⋅ lit "header(" ⋅ quoted 1 ⋅ lit ") != " ⋅ q ⋅ q ⋅ Eol.
Definition PARAM_EXISTS_REGEX : regex := Bol ⋅ lit "param(" ⋅ quoted 1 ⋅ lit ") != nil" ⋅ Eol.
Definition HEADER_HAS_REGEX : regex :=
  Bol ⋅ lit "has(header(" ⋅ quoted 1 ⋅ lit "), " ⋅ STRING 2 ⋅ lit ")" ⋅ Eol.
Definition PARAM_HAS_REGEX : regex :=
  Bol ⋅ lit "param(" ⋅ quoted 1 ⋅ lit ") != nil && has(param(" ⋅ quoted 2 ⋅ lit "), " ⋅ STRING 3 ⋅
  lit ")" ⋅ Eol.
Definition PARAM_CMP_REGEX : regex :=
  Bol ⋅ lit "param(" ⋅ quoted 1 ⋅ lit ") != nil && param(" ⋅ quoted 2 ⋅ lit ") " ⋅
  Grp 3 (alts [lit ">"; lit ">="; lit "<"; lit "<="]) ⋅ lit " " ⋅ NUM 4 ⋅ Eol.
Definition EQ_REGEX : regex :=
  Bol ⋅ Grp 1 (alts [lit "param"; lit "header"]) ⋅ lit "(" ⋅ quoted 2 ⋅ lit ") == " ⋅
  Grp 3 (Plus (Cls not_newline)) ⋅ Eol.

(** [JSON.parse(text) as string]; the text starts with a quote, so what is parsed is
    a text. *)
Definition parse_quoted (text : jsstring) : res js_error jsstring :=
  match JSON_parse text with Some v => Ok (to_string v) | None => Throw SyntaxError end.

Definition cmp_op_mode (op : jsstring) : jsstring :=
  default [] (jget op [(js ">", MATCH_GT); (js ">=", MATCH_GTE); (js "<", MATCH_LT); (js "<=", MATCH_LTE)]).

(** The last pattern: equality with a literal. *)
Definition tryParseEquality (expr : jsstring) : option RequestCondition :=
  m ← re_match EQ_REGEX expr;
  match parseExprLiteral (group_text m 3) with
  | JNull => None
  | v => Some (ParamHeaderCondition (bool_decide (group_text m 1 = js "header"))
                 (group_text m 2) MATCH_EQ (to_string v))
  end.

(** The two patterns that repeat a parameter; each applies only when both paths are
    the same text. *)
Definition same_paths (m : option (list (nat * jsstring))) : option (list (nat * jsstring)) :=
  m ← m; if bool_decide (cap m 1 = cap m 2) then Some m else None.

Definition tryParseRequestCondition (expr : jsstring) : res js_error (option RequestCondition) :=
  match tryParseTimeCondition expr with
  | Some tc => Ok (Some tc)
  | None =>
  match re_match HEADER_EXISTS_REGEX expr with
  | Some m => Ok (Some (ParamHeaderCondition true (group_text m 1) MATCH_EXISTS []))
  | None =>
  match re_match PARAM_EXISTS_REGEX expr with
  | Some m => Ok (Some (ParamHeaderCondition false (group_text m 1) MATCH_EXISTS []))
  | None =>
  match re_match HEADER_HAS_REGEX expr with
  | Some m =>
      v ← parse_quoted (group_text m 2);
      Ok (Some (ParamHeaderCondition true (group_text m 1) MATCH_CONTAINS v))
  | None =>
  match same_paths (re_match PARAM_HAS_REGEX expr) with
  | Some m =>
      v ← parse_quoted (group_text m 3);
      Ok (Some (ParamHeaderCondition false (group_text m 1) MATCH_CONTAINS v))
  | None =>
  match same_paths (re_match PARAM_CMP_REGEX expr) with
  | Some m =>
      Ok (Some (ParamHeaderCondition false (group_text m 1) (cmp_op_mode (group_text m 3))
                  (group_text m 4)))
  | None => Ok (tryParseEquality expr)
  end end end end end end.

(** An opening parenthesis, the conditions (group 1), a question mark, the multiplier
    (group 2), and the alternative 1 before the closing parenthesis. *)
Definition FACTOR_REGEX : regex :=
  Bol ⋅ lit "(" ⋅ Grp 1 (Plus (Cls any_unit)) ⋅ lit " ? " ⋅ NUM 2 ⋅ lit " : 1)" ⋅ Eol.

(** The loop with the early return: [None] at the first text that does not parse. *)
Fixpoint parse_each {A} (f : jsstring → res js_error (option A)) (l : list jsstring) :
    res js_error (option (list A)) :=
  match l with
  | [] => Ok (Some [])
  | x :: l =>
      a ← f x;
      match a with
      | None => Ok None
      | Some a =>
          r ← parse_each f l;
          match r with None => Ok None | Some l' => Ok (Some (a :: l')) end
      end
  end.

Definition tryParseRuleGroupFactor (part : jsstring) : res js_error (option RequestRuleGroup) :=
  match re_match FACTOR_REGEX part with
  | None => Ok None
  | Some m =>
      cs ← parse_each (λ ap, tryParseRequestCondition (trim ap)) (splitTopLevelAnd (group_text m 1));
      match cs with
      | None | Some [] => Ok None
      | Some cs => Ok (Some {| conditions := cs; multiplier := group_text m 2 |})
      end
  end.

Definition tryParseRequestRuleExpr (expr : jsstring) : res js_error (option (list RequestRuleGroup)) :=
  match trim expr with
  | [] => Ok (Some [])
  | trimmed => parse_each tryParseRuleGroupFactor (splitTopLevelMultiply trimmed)
  end.

(** ** Combine and split *)

(** The loop of [hasFullOuterParens]. *)
Fixpoint outer_scan (depth : Z) (s : jsstring) : bool :=
  match s with
  | [] => (depth =? 0)%Z
  | c :: t =>
      let depth := paren_depth c depth in
      if (depth =? 0)%Z && bool_decide (t ≠ []) then false else outer_scan depth t
  end.

Definition hasFullOuterParens (expr : jsstring) : bool :=
  if negb (bool_decide (head expr = Some 40%N)) || negb (bool_decide (last expr = Some 41%N))
  then false else outer_scan 0 expr.

(** [s.slice(1, -1)] *)
Definition slice_inner (s : jsstring) : jsstring := take (length s - 2) (drop 1 s).

Fixpoint unwrap_loop (fuel : nat) (current : jsstring) : jsstring :=
  match fuel with
  | O => current
  | S fuel => if hasFullOuterParens current then unwrap_loop fuel (trim (slice_inner current)) else current
  end.
Definition unwrapOuterParens (expr : jsstring) : jsstring :=
  unwrap_loop (S (length expr)) (trim expr).

Record SplitBilling := { billingExpr : jsstring; requestRuleExpr : jsstring }.

(** Whether a part parses as one or more request rules. *)
Definition is_rule_part (part : jsstring) : res js_error bool :=
  parsed ← tryParseRequestRuleExpr part;
  Ok (match parsed with Some (_ :: _) => true | _ => false end).

(** The loop over the parts: the rules and the others, in order. *)
Fixpoint sort_parts (parts : list jsstring) : res js_error (list jsstring * list jsstring) :=
  match parts with
  | [] => Ok ([], [])
  | p :: ps =>
      b ← is_rule_part p;
      r ← sort_parts ps;
      Ok (if b : bool then (p :: r.1, r.2) else (r.1, p :: r.2))
  end.

Definition splitBillingExprAndRequestRules (expr : jsstring) : res js_error SplitBilling :=
  match trim expr with
  | [] => Ok {| billingExpr := []; requestRuleExpr := [] |}
  | trimmed =>
      let parts := splitTopLevelMultiply trimmed in
      let whole := {| billingExpr := trimmed; requestRuleExpr := [] |} in
      if (length parts <=? 1)%nat then Ok whole
      else
        r ← sort_parts parts;
        match r with
        | ((_ :: _) as ruleParts, [base]) =>
            Ok {| billingExpr := unwrapOuterParens base; requestRuleExpr := join (js " * ") ruleParts |}
        | _ => Ok whole
        end
  end.

Definition combineBillingExpr (baseExpr requestRuleExpr : jsstring) : jsstring :=
  match trim baseExpr, trim requestRuleExpr with
  | [], _ => []
  | base, [] => base
  | base, rules => js "(" ++ base ++ js ") * " ++ rules
  end.

(** ** Editor: empty constructors and match options *)
Definition createEmptyCondition : RequestCondition := ParamHeaderCondition false [] MATCH_EQ [].

Definition createEmptyTimeCondition : RequestCondition :=
  TimeCondition (js "hour") (js "Asia/Shanghai") MATCH_GTE [] [] [].

Definition createEmptyRuleGroup : RequestRuleGroup :=
  {| conditions := [createEmptyCondition]; multiplier := [] |}.

Definition createEmptyTimeRuleGroup : RequestRuleGroup :=
  {| conditions := [createEmptyTimeCondition]; multiplier := [] |}.

Record MatchOption := { mo_value : jsstring; labelKey : jsstring }.

Definition getRequestRuleMatchOptions (source : Source) : list MatchOption :=
  match source with
  | SOURCE_TIME =>
      [ {| mo_value := MATCH_EQ; labelKey := js "Equals" |};
        {| mo_value := MATCH_GTE; labelKey := js "Greater than or equal" |};
        {| mo_value := MATCH_LT; labelKey := js "Less than" |};
        {| mo_value := MATCH_RANGE; labelKey := js "Overnight range" |} ]
  | _ =>
      let base :=
        [ {| mo_value := MATCH_EQ; labelKey := js "Equals" |};
          {| mo_value := MATCH_CONTAINS; labelKey := js "Contains" |};
          {| mo_value := MATCH_EXISTS; labelKey := js "Exists" |} ] in
      if decide (source = SOURCE_HEADER) then base
      else base ++
        [ {| mo_value := MATCH_GT; labelKey := js "Greater than" |};
          {| mo_value := MATCH_GTE; labelKey := js "Greater than or equal" |};
          {| mo_value := MATCH_LT; labelKey := js "Less than" |};
          {| mo_value := MATCH_LTE; labelKey := js "Less than or equal" |} ]
  end.

Definition match_modes (source : Source) : list jsstring := mo_value <$> getRequestRuleMatchOptions source.

(** ** Editor: normalize a condition *)

(** A condition some of whose fields may be missing; a missing field is
    [undefined]. *)
Record PartialCondition := {
  pc_source : option jsstring;
  pc_path : option jsstring;
  pc_timeFunc : option jsstring;
  pc_timezone : option jsstring;
  pc_mode : option jsstring;
  pc_value : option jsstring;
  pc_rangeStart : option jsstring;
  pc_rangeEnd : option jsstring
}.

Definition no_condition : PartialCondition :=
  {| pc_source := None; pc_path := None; pc_timeFunc := None; pc_timezone := None;
     pc_mode := None; pc_value := None; pc_rangeStart := None; pc_rangeEnd := None |}.

(** A whole condition as a partial one. *)
Definition as_partial (c : RequestCondition) : PartialCondition :=
  match c with
  | TimeCondition f tz m v s e =>
      {| pc_source := Some (js "time"); pc_path := None; pc_timeFunc := Some f;
         pc_timezone := Some tz; pc_mode := Some m; pc_value := Some v;
         pc_rangeStart := Some s; pc_rangeEnd := Some e |}
  | ParamHeaderCondition h p m v =>
      {| pc_source := Some (js (if h then "header" else "param")); pc_path := Some p;
         pc_timeFunc := None; pc_timezone := None; pc_mode := Some m; pc_value := Some v;
         pc_rangeStart := None; pc_rangeEnd := None |}
  end.

Definition isTimeFunc (value : option jsstring) : bool :=
  match value with Some f => bool_decide (f ∈ TIME_FUNCS) | None => false end.

(** [s || d] *)
Definition str_or (s : option jsstring) (d : jsstring) : jsstring :=
  match s with None | Some [] => d | Some s => s end.

Definition normalized_source (cond : PartialCondition) : Source :=
  if bool_decide (pc_source cond = Some (js "time")) then SOURCE_TIME
  else if bool_decide (pc_source cond = Some (js "header")) then SOURCE_HEADER
  else SOURCE_PARAM.

(** The mode when the source offers it, the fallback otherwise. *)
Definition normalized_mode (source : Source) (mode : option jsstring) (fallback : jsstring) : jsstring :=
  match mode with
  | Some m => if bool_decide (m ∈ match_modes source) then m else fallback
  | None => fallback
  end.

Definition normalizeCondition (c : option PartialCondition) : RequestCondition :=
  let cond := default no_condition c in
  match normalized_source cond with
  | SOURCE_TIME =>
      TimeCondition
        (if isTimeFunc (pc_timeFunc cond) then default [] (pc_timeFunc cond) else js "hour")
        (str_or (pc_timezone cond) (js "Asia/Shanghai"))
        (normalized_mode SOURCE_TIME (pc_mode cond) MATCH_GTE)
        (default [] (pc_value cond)) (default [] (pc_rangeStart cond)) (default [] (pc_rangeEnd cond))
  | source =>
      ParamHeaderCondition (bool_decide (source = SOURCE_HEADER))
        (str_or (pc_path cond) []) (normalized_mode source (pc_mode cond) MATCH_EQ)
        (default [] (pc_value cond))
  end.

(** ** Editor: build expression strings *)
Definition buildExprLiteral (mode value : jsstring) : jsstring :=
  let text := trim value in
  if bool_decide (mode = MATCH_CONTAINS) then JSON_quote text
  else if bool_decide (text = js "true") || bool_decide (text = js "false") then text
  else if is_numeric text then text
  else JSON_quote text.

Definition time_mode_op (mode : jsstring) : jsstring :=
  default (js "==") (jget mode [(MATCH_EQ, js "=="); (MATCH_GTE, js ">="); (MATCH_LT, js "<")]).

(** The rest of [buildTimeConditionExpr], on the fields of the normalized condition. *)
Definition time_expr (timeFunc timezone mode value rangeStart rangeEnd : jsstring) : jsstring :=
  let fn := timeFunc ++ js "(" ++ JSON_quote timezone ++ js ")" in
  if bool_decide (mode = MATCH_RANGE) then
    let s := trim rangeStart in
    let e := trim rangeEnd in
    if negb (is_numeric s) || negb (is_numeric e) then []
    else fn ++ js " >= " ++ s ++ js " || " ++ fn ++ js " < " ++ e
  else
    let v := trim value in
    if negb (is_numeric v) then []
    else fn ++ js " " ++ time_mode_op mode ++ js " " ++ v.

Definition cmp_mode_op (mode : jsstring) : jsstring :=
  default [] (jget mode [(MATCH_GT, js ">"); (MATCH_GTE, js ">="); (MATCH_LT, js "<"); (MATCH_LTE, js "<=")]).

Definition is_cmp_mode (mode : jsstring) : bool :=
  bool_decide (mode ∈ [MATCH_GT; MATCH_GTE; MATCH_LT; MATCH_LTE]).

(** The rest of [buildRequestConditionExpr], on the fields of the normalized
    condition. *)
Definition param_header_expr (header : bool) (path mode value : jsstring) : jsstring :=
  match trim path with
  | [] => []
  | p =>
      let sourceExpr := js (if header then "header(" else "param(") ++ JSON_quote p ++ js ")" in
      if bool_decide (mode = MATCH_EXISTS) then
        if header then sourceExpr ++ js " != " ++ [34; 34]%N else sourceExpr ++ js " != nil"
      else if bool_decide (mode = MATCH_CONTAINS) then
        if header then js "has(" ++ sourceExpr ++ js ", " ++ buildExprLiteral mode value ++ js ")"
        else sourceExpr ++ js " != nil && has(" ++ sourceExpr ++ js ", " ++
             buildExprLiteral mode value ++ js ")"
      else if is_cmp_mode mode then
        let numText := trim value in
        if negb (is_numeric numText) then []
        else sourceExpr ++ js " != nil && " ++ sourceExpr ++ js " " ++ cmp_mode_op mode ++ js " " ++
             numText
      else sourceExpr ++ js " == " ++ buildExprLiteral mode value
  end.

Definition buildTimeConditionExpr (cond : RequestCondition) : jsstring :=
  match normalizeCondition (Some (as_partial cond)) with
  | TimeCondition f tz m v s e => time_expr f tz m v s e
  | ParamHeaderCondition _ _ _ _ => []
  end.

Definition buildRequestConditionExpr (cond : RequestCondition) : jsstring :=
  match cond with
  | TimeCondition _ _ _ _ _ _ => buildTimeConditionExpr cond
  | ParamHeaderCondition _ _ _ _ =>
      match normalizeCondition (Some (as_partial cond)) with
      | ParamHeaderCondition h p m v => param_header_expr h p m v
      | TimeCondition _ _ _ _ _ _ => []
      end
  end.

Definition wrap_or (e : jsstring) : jsstring :=
  if includes (js " || ") e then js "(" ++ e ++ js ")" else e.

Definition buildRuleGroupFactor (group : RequestRuleGroup) : jsstring :=
  let mult := trim (multiplier group) in
  if negb (is_numeric mult) then []
  else
    let factor combined := js "(" ++ combined ++ js " ? " ++ mult ++ js " : 1)" in
    match filter (λ e, e ≠ []) (buildRequestConditionExpr <$> conditions group) with
    | [] => []
    | [e] => factor e
    | es => factor (join (js " && ") (wrap_or <$> es))
    end.

Definition buildRequestRuleExpr (groups : list RequestRuleGroup) : jsstring :=
  join (js " * ") (filter (λ f, f ≠ []) (buildRuleGroupFactor <$> groups)).
