(* ===== verification/TierExpr.v ===== *)
(** The visual editor of tiered prices: normalisation of its tiers, the expression it
    generates, and the reading of an expression back into tiers
    (web/src/features/pricing/lib/tier-expr.ts).

    A visual tier is a JavaScript object with named and free fields, so it is
    modelled as the list of its properties; the spread of an object assigns its
    properties one by one. *)
From S2P Require Import Prelude JsString JsValue Json JsPrint JsNumber RegExp BillingExpr.

Local Open Scope re_scope.

Definition CACHE_MODE_TIMED : jsstring := js "timed".
Definition CACHE_MODE_GENERIC : jsstring := js "generic".

(** An object, as the list of its properties. *)
Abbreviation VisualTier := (list (jsstring * jsval)).
Record VisualConfig := { tiers : list VisualTier }.

(** [tier[name]] *)
Definition tprop (name : jsstring) (t : VisualTier) : jsval := default JUndef (jget name t).
Definition tfield (name : string) (t : VisualTier) : jsval := tprop (js name) t.
Definition tset (name : string) (v : jsval) (t : VisualTier) : VisualTier := jset (js name) v t.

(** [{...a, ...b}] *)
Definition spread (b a : VisualTier) : VisualTier := foldl (λ t p, jset p.1 p.2 t) a b.

(** [Number(v) || 0] *)
Definition cost_of (v : jsval) : jsnum := num_or_zero (to_number v).

Definition getTierCacheMode (tier : VisualTier) : jsstring :=
  if is_lit (tfield "cache_mode" tier) "timed" then CACHE_MODE_TIMED
  else if is_lit (tfield "cache_mode" tier) "generic" then CACHE_MODE_GENERIC
  else if num_ltb num0 (to_number (tfield "cache_create_1h_unit_cost" tier)) then CACHE_MODE_TIMED
  else CACHE_MODE_GENERIC.

(** [v ?? d] *)
Definition nullish (v d : jsval) : jsval := match v with JUndef | JNull => d | _ => v end.

(** The cost fields set after the spread. *)
Definition EXTRA_COSTS : list string :=
  ["cache_read_unit_cost"; "cache_create_unit_cost"; "cache_create_1h_unit_cost"; "image_unit_cost";
   "image_output_unit_cost"; "audio_input_unit_cost"; "audio_output_unit_cost"]%string.

Definition normalizeVisualTier (tier : VisualTier) : VisualTier :=
  let defaults :=
    [ (js "label", nullish (tfield "label" tier) (JStr []));
      (js "input_unit_cost", JNum (cost_of (tfield "input_unit_cost" tier)));
      (js "output_unit_cost", JNum (cost_of (tfield "output_unit_cost" tier)));
      (js "cache_mode", JStr (getTierCacheMode tier));
      (js "conditions", match tfield "conditions" tier with JArr l => JArr l | _ => JArr [] end) ] in
  foldl (λ t f, tset f (JNum (cost_of (tfield f tier))) t) (spread tier defaults) EXTRA_COSTS.

Definition createDefaultVisualConfig : VisualConfig :=
  {| tiers := [normalizeVisualTier
       [ (js "conditions", JArr []); (js "input_unit_cost", JNum num0);
         (js "output_unit_cost", JNum num0); (js "label", JStr (js "base"));
         (js "cache_mode", JStr CACHE_MODE_GENERIC) ]] |}.

Definition normalizeVisualConfig (config : option VisualConfig) : VisualConfig :=
  match config with
  | None | Some {| tiers := [] |} => createDefaultVisualConfig
  | Some c => {| tiers := normalizeVisualTier <$> tiers c |}
  end.

(** ** Generation *)

(** [c.var && c.op && c.value != null && c.value !== ''] *)
Definition complete_condition (c : jsval) : bool :=
  truthy (prop "var" c) && truthy (prop "op" c) &&
  match prop "value" c with JUndef | JNull => false | JStr [] => false | _ => true end.

Definition condition_text (c : jsval) : jsstring :=
  to_string (prop "var" c) ++ js " " ++ to_string (prop "op" c) ++ js " " ++ to_string (prop "value" c).

(** [None] is the TypeError of a value that has no [filter] or of a missing element. *)
Definition buildConditionStr (conditions : jsval) : option jsstring :=
  if negb (truthy conditions) then Some []
  else
    match conditions with
    | JArr l =>
        if existsb (λ c, match c with JUndef | JNull => true | _ => false end) l then None
        else Some (join (js " && ") (condition_text <$> filter (λ c, complete_condition c = true) l))
    | _ => None
    end.

Definition buildTierBodyExpr (tier : VisualTier) : jsstring :=
  join (js " + ")
    ((js "p * " ++ show_num (cost_of (tfield "input_unit_cost" tier))) ::
     (js "c * " ++ show_num (cost_of (tfield "output_unit_cost" tier))) ::
     omap (λ cv : jsstring * jsstring,
       let v := cost_of (tprop cv.1 tier) in
       if negb (num_eqb v num0) then Some (cv.2 ++ js " * " ++ show_num v) else None)
     BILLING_CACHE_VAR_MAP).

(** The label, or the fallback where it is falsy. *)
Definition label_or (tier : VisualTier) (fallback : jsstring) : jsstring :=
  if truthy (tfield "label" tier) then to_string (tfield "label" tier) else fallback.

Definition tier_call (label : jsstring) (tier : VisualTier) : jsstring :=
  js "tier(" ++ [34%N] ++ label ++ [34%N] ++ js ", " ++ buildTierBodyExpr tier ++ js ")".

(** The parts of several tiers, from the tier of number [i] on. *)
Fixpoint tier_parts (i : nat) (ts : list VisualTier) : option (list jsstring) :=
  match ts with
  | [] => Some []
  | tier :: ts' =>
      let body := tier_call (label_or tier (js "tier_" ++ show_N (N.of_nat (S i)))) tier in
      cond ← buildConditionStr (tfield "conditions" tier);
      rest ← tier_parts (S i) ts';
      Some ((match ts', cond with
             | _ :: _, _ :: _ => cond ++ js " ? " ++ body
             | _, _ => body
             end) :: rest)
  end.

Definition generateExprFromVisualConfig (config : option VisualConfig) : option jsstring :=
  match config with
  | None | Some {| tiers := [] |} => Some (js "p * 0 + c * 0")
  | Some {| tiers := [tier] |} =>
      let body := tier_call (label_or tier (js "default")) tier in
      cond ← buildConditionStr (tfield "conditions" tier);
      match cond with
      | [] => Some body
      | _ => Some (cond ++ js " ? " ++ body ++ js " : p * 0 + c * 0")
      end
  | Some {| tiers := ts |} => parts ← tier_parts 0 ts; Some (join (js " : ") parts)
  end.

(** ** Reading an expression back *)

(** An optional summand [+ v * number]; its number is the group [n]. *)
Definition opt_summand (v : jsstring) (n : nat) : regex :=
  Opt (Ws ⋅ lit "+" ⋅ Ws ⋅ Lit v ⋅ Ws ⋅ lit "*" ⋅ Ws ⋅ NUM n).

Fixpoint opt_summands (vs : list jsstring) (n : nat) : regex :=
  match vs with
  | [] => Eps
  | v :: vs => opt_summand v n ⋅ opt_summands vs (S n)
  end.

(** The body of a tier: the groups [n], [n+1] and on are its numbers. *)
Definition bodyPat (n : nat) : regex :=
  lit "p" ⋅ Ws ⋅ lit "*" ⋅ Ws ⋅ NUM n ⋅ Ws ⋅ lit "+" ⋅ Ws ⋅ lit "c" ⋅ Ws ⋅ lit "*" ⋅ Ws ⋅ NUM (S n) ⋅
  opt_summands BILLING_CACHE_VAR_MAP.*2 (S (S n)).

Definition VISUAL_VERSION_REGEX : regex :=
  Bol ⋅ lit "v" ⋅ Plus (Cls is_digit) ⋅ lit ":" ⋅ Grp 1 (Star (Cls any_unit)) ⋅ Eol.

Definition singleRe : regex :=
  Bol ⋅ lit "tier(" ⋅ q ⋅ Grp 1 (Star (Cls (none_of [34%N]))) ⋅ q ⋅ lit "," ⋅ Ws ⋅ bodyPat 2 ⋅
  lit ")" ⋅ Eol.

Definition visualTierRe : regex := TIER_HEAD ⋅ bodyPat 3 ⋅ lit ")".

(** The extra costs a match has, from the group [n] on. *)
Definition matched_costs (m : list (nat * jsstring)) (n : nat) : VisualTier :=
  omap (λ '(i, (field, _)),
    t ← cap m (n + i); Some (field, JNum (string_to_number t))) (imap pair BILLING_CACHE_VAR_MAP).

Definition condition_obj (c : TierCondition) : jsval :=
  JObj [(js "var", JStr (tc_var c)); (js "op", JStr (tc_op c)); (js "value", JNum (tc_value c))].

(** The tier of a match whose label is the group [n]. *)
Definition matched_tier (conds : list TierCondition) (m : list (nat * jsstring)) (n : nat) : VisualTier :=
  [ (js "conditions", JArr (condition_obj <$> conds));
    (js "input_unit_cost", JNum (string_to_number (group_text m (n + 1))));
    (js "output_unit_cost", JNum (string_to_number (group_text m (n + 2))));
    (js "label", JStr (group_text m n)) ] ++ matched_costs m (n + 3).

Definition strip_ws (s : jsstring) : jsstring := replace_all (Plus (Cls is_ws)) [] s.

Definition strip_version (s : jsstring) : jsstring :=
  match re_match VISUAL_VERSION_REGEX s with Some m => group_text m 1 | None => s end.

(** The tiers of every match of the pattern. *)
Definition matched_tiers (body : jsstring) : list VisualTier :=
  (λ m, normalizeVisualTier (matched_tier (parseConditions (group_text m 1)) m 2))
  <$> exec_all visualTierRe body.

Definition tryParseVisualConfig (exprStr : option jsstring) : option VisualConfig :=
  match exprStr with
  | None | Some [] => None
  | Some e =>
      let body := strip_version e in
      match re_match singleRe body with
      | Some m =>
          Some (normalizeVisualConfig (Some {| tiers := [normalizeVisualTier (matched_tier [] m 1)] |}))
      | None =>
          match matched_tiers body with
          | [] => None
          | ts =>
              let cfg := normalizeVisualConfig (Some {| tiers := ts |}) in
              regenerated ← generateExprFromVisualConfig (Some cfg);
              if bool_decide (strip_ws regenerated = strip_ws body) then Some cfg else None
          end
      end
  end.

(** ** The estimator *)
Definition ESTIMATOR_VARS : list (jsstring * jsstring) :=
  [ (js "cr", js "cacheReadTokens"); (js "cc", js "cacheCreateTokens");
    (js "cc1h", js "cacheCreate1hTokens"); (js "img", js "imageTokens");
    (js "img_o", js "imageOutputTokens"); (js "ai", js "audioInputTokens");
    (js "ao", js "audioOutputTokens") ].

Definition exprUsesExtraVars (exprStr : jsstring) : bool :=
  match exprStr with
  | [] => false
  | _ => re_test (WordB ⋅ Grp 1 (alts (Lit <$> ESTIMATOR_VARS.*1)) ⋅ WordB) exprStr
  end.

(** ** Facts *)
Local Open Scope nat_scope.

(** The properties of a spread: those of the second object win. *)
Lemma jget_spread k b a :
  jget k (spread b a) = match jget k (reverse b) with Some v => Some v | None => jget k a end.
Proof.
  unfold spread. revert a. induction b as [|[x v] b IH] using rev_ind; intros a; [done|].
  rewrite foldl_app, reverse_app. cbn [foldl fst snd]. rewrite jget_jset, IH.
  change (reverse [(x, v)] ++ reverse b) with ((x, v) :: reverse b). cbn [jget].
  by repeat case_decide.
Qed.

Lemma jget_reverse_None k (b : VisualTier) : jget k b = None → jget k (reverse b) = None.
Proof.
  rewrite !jget_None. intros H Hin. apply H. unfold jkeys in *.
  rewrite fmap_reverse in Hin. exact (proj1 (elem_of_reverse _ _) Hin).
Qed.

(** An object has each property once. *)
Lemma jget_reverse k (b : VisualTier) : NoDup (jkeys b) → jget k (reverse b) = jget k b.
Proof.
  intros Hd. destruct (jget k b) as [v|] eqn:E; [|by apply jget_reverse_None].
  apply elem_of_jget.
  - unfold jkeys in *. rewrite fmap_reverse. by rewrite reverse_Permutation.
  - apply elem_of_reverse_2. by apply jget_elem_of.
Qed.

Lemma jget_costs k fs tier t :
  NoDup fs →
  jget k (foldl (λ t f, tset f (JNum (cost_of (tfield f tier))) t) t fs) =
  if decide (k ∈ js <$> fs) then Some (JNum (cost_of (tprop k tier))) else jget k t.
Proof.
  intros Hd. revert t. induction fs as [|f fs IH]; intros t.
  - cbn. rewrite decide_False; [done|]. apply not_elem_of_nil.
  - apply NoDup_cons in Hd as [Hn Hd]. cbn [foldl]. rewrite IH by done. unfold tset at 1.
    rewrite jget_jset. rewrite fmap_cons.
    destruct (decide (k ∈ js <$> fs)) as [Hin|Hin]; [rewrite decide_True by set_solver; done|].
    destruct (decide (k = js f)) as [->|Hk].
    + rewrite (decide_True (P := js f ∈ _)) by set_solver. by rewrite decide_True.
    + rewrite (decide_False (P := k ∈ _)) by set_solver. by rewrite decide_False by congruence.
Qed.

(** What [normalizeVisualTier] does to an object: the seven extra costs become
    numbers that are not [NaN]; every other property the object has keeps its value as it
    is, the label, the two base costs, the cache mode and the conditions included, whose
    computed defaults only serve where the property is missing. *)
Theorem normalize_tier_fields tier k :
  NoDup (jkeys tier) →
  (k ∈ js <$> EXTRA_COSTS →
     tprop k (normalizeVisualTier tier) = JNum (cost_of (tprop k tier)) ∧
     is_nan (cost_of (tprop k tier)) = false) ∧
  (∀ v, k ∉ js <$> EXTRA_COSTS → jget k tier = Some v → tprop k (normalizeVisualTier tier) = v).
Proof.
  intros Hd. assert (NoDup EXTRA_COSTS) as He by (apply (proj1 (bool_decide_eq_true _)); vm_compute; reflexivity).
  split.
  - intros Hk. split; [|apply num_or_zero_not_nan].
    unfold normalizeVisualTier, tprop at 1. cbv zeta. by rewrite jget_costs, decide_True.
  - intros v Hk Hv. unfold normalizeVisualTier, tprop. cbv zeta.
    by rewrite jget_costs, decide_False, jget_spread, jget_reverse, Hv.
Qed.

(** A cost that is not a number stays one, and a wrong cache mode stays. *)
Definition odd_tier : VisualTier :=
  [ (js "input_unit_cost", JNum S754_nan); (js "cache_mode", JStr (js "hourly"));
    (js "image_unit_cost", JStr (js "x")) ].

Lemma normalize_tier_fields_witness :
  tfield "input_unit_cost" (normalizeVisualTier odd_tier) = JNum S754_nan ∧
  tfield "cache_mode" (normalizeVisualTier odd_tier) = JStr (js "hourly") ∧
  tfield "image_unit_cost" (normalizeVisualTier odd_tier) = JNum num0.
Proof.
  assert (NoDup (jkeys odd_tier)) as Hd by (apply (proj1 (bool_decide_eq_true _)); vm_compute; reflexivity).
  split_and!.
  - apply (proj2 (normalize_tier_fields odd_tier (js "input_unit_cost") Hd)); [|done].
    apply (proj1 (bool_decide_eq_true _)). vm_compute. reflexivity.
  - apply (proj2 (normalize_tier_fields odd_tier (js "cache_mode") Hd)); [|done].
    apply (proj1 (bool_decide_eq_true _)). vm_compute. reflexivity.
  - apply (proj1 (normalize_tier_fields odd_tier (js "image_unit_cost") Hd)).
    apply (proj1 (bool_decide_eq_true _)). vm_compute. reflexivity.
Defined.

(** The loops over the matches of the tier patterns end: each match reads at least
    one unit, so fuel beyond the length of the text changes nothing. *)
Theorem tier_loops_terminate (body label : jsstring) fuel :
  length body < fuel →
  exec_loop fuel tierRe [] body = exec_all tierRe body ∧
  exec_loop fuel visualTierRe [] body = exec_all visualTierRe body ∧
  exec_loop fuel BILLING_VAR_REGEX [] body = exec_all BILLING_VAR_REGEX body ∧
  split_loop fuel AND_SEP [] body = re_split AND_SEP body ∧
  replace_loop fuel (Plus (Cls is_ws)) label [] body = replace_all (Plus (Cls is_ws)) label body.
Proof.
  intros H. split_and!; first [apply exec_loop_fuel|apply split_loop_fuel|apply replace_loop_fuel];
    try lia; vm_compute; lia.
Qed.

Lemma tier_loops_terminate_witness :
  exec_loop 50 tierRe [] (js "p * 1") = exec_all tierRe (js "p * 1").
Proof. apply (tier_loops_terminate (js "p * 1") [] 50). vm_compute. lia. Defined.

(** ** What the reading of a single tier misses

    Several tiers are only accepted when the configuration generates the expression that
    was read; a single tier is accepted without that check. *)
Lemma visual_parse_checked e cfg :
  e ≠ [] → re_match singleRe (strip_version e) = None → tryParseVisualConfig (Some e) = Some cfg →
  ∃ r, generateExprFromVisualConfig (Some cfg) = Some r ∧ strip_ws r = strip_ws (strip_version e).
Proof.
  intros He Hs. unfold tryParseVisualConfig. destruct e as [|c e]; [done|]. rewrite Hs.
  destruct (matched_tiers _) as [|t ts]; [done|]. cbv zeta.
  destruct (generateExprFromVisualConfig _) as [r|] eqn:E; [|done]. cbn. case_bool_decide; [|done].
  intros [= <-]. by exists r.
Qed.

Definition quoted_tier (label body : string) : jsstring :=
  js "tier(" ++ [34%N] ++ js label ++ [34%N] ++ js ", " ++ js body ++ js ")".

(** A single tier whose price is an arithmetic expression of numbers is read with a
    price of zero: the pattern takes the whole text for a number, the conversion gives
    [NaN], and the configuration generates a different expression. *)
Theorem single_tier_price_lost :
  (cfg ← tryParseVisualConfig (Some (quoted_tier "base" "p * 3-1 + c * 2"));
   generateExprFromVisualConfig (Some cfg)) = Some (quoted_tier "base" "p * 0 + c * 2").
Proof. vm_compute. reflexivity. Qed.
