(* ===== verification/BillingFacts.v ===== *)
(** What the billing-expression code guarantees: the scanners that split a text outside
    parentheses, the round trip of request rules through their expression, and the
    round trip of a base expression and its rules. *)
From S2P Require Import Prelude JsString JsValue Json JsPrint JsonQuote JsNumber RegExp BillingExpr.

(** ** Parentheses

    [bal_scan d s]: from depth [d] the depth never falls below zero over [s], and it is
    zero at the end.  Every parenthesis counts, inside quoted texts too, as for the
    scanners of the code. *)
Fixpoint bal_scan (d : Z) (s : jsstring) : bool :=
  match s with
  | [] => (d =? 0)%Z
  | c :: t => (0 <=? paren_depth c d)%Z && bal_scan (paren_depth c d) t
  end.
Definition balanced (s : jsstring) : bool := bal_scan 0 s.

Definition no_paren (c : N) : Prop := c ≠ 40%N ∧ c ≠ 41%N.

Lemma paren_depth_other c d : no_paren c → paren_depth c d = d.
Proof. intros [H1 H2]. unfold paren_depth. by rewrite !(proj2 (N.eqb_neq c _)). Qed.

Lemma paren_depth_shift c d e : (paren_depth c (d + e) = paren_depth c d + e)%Z.
Proof. unfold paren_depth. repeat case_match; lia. Qed.

Lemma bal_scan_app d s t : bal_scan d s = true → (0 <= d)%Z → bal_scan 0 t = true → bal_scan d (s ++ t) = true.
Proof.
  revert d. induction s as [|c s IH]; simpl; intros d H Hd Ht; boolify.
  - by subst.
  - apply andb_true_iff. split; [by apply Z.leb_le|auto].
Qed.

Lemma bal_scan_plain d s t : Forall no_paren s → bal_scan d t = true → (0 <= d)%Z → bal_scan d (s ++ t) = true.
Proof.
  intros H. induction H as [|c s Hc Hs IH]; intros Ht Hd; [done|].
  simpl. rewrite paren_depth_other by done. rewrite IH by done.
  by rewrite (proj2 (Z.leb_le 0 d)).
Qed.

Lemma balanced_plain s : Forall no_paren s → balanced s = true.
Proof. intros H. unfold balanced. rewrite <- (app_nil_r s). by apply bal_scan_plain. Qed.

Lemma balanced_app s t : balanced s = true → balanced t = true → balanced (s ++ t) = true.
Proof. intros. by apply bal_scan_app. Qed.

(** A parenthesised text. *)
Definition parens (x : jsstring) : jsstring := 40%N :: x ++ [41%N].

Lemma bal_scan_shift d e x t :
  bal_scan d x = true → (0 <= d)%Z → (0 <= e)%Z →
  bal_scan (d + e) (x ++ t) = bal_scan e t.
Proof.
  revert d. induction x as [|c x IH]; simpl; intros d H Hd He; boolify.
  - subst. by rewrite Z.add_0_l.
  - rewrite paren_depth_shift, IH by done. rewrite (proj2 (Z.leb_le 0 _)) by lia. done.
Qed.

Lemma balanced_parens x : balanced x = true → balanced (parens x) = true.
Proof.
  intros H. unfold balanced, parens. simpl. change (paren_depth 40 0) with (0 + 1)%Z.
  by rewrite bal_scan_shift.
Qed.

(** ** The scanner

    A text is an atom for a separator when the scanner walks over it, from depth zero
    to depth zero, without splitting, whatever surrounds it. *)
Definition scan_atom (sep f : jsstring) : Prop :=
  ∀ cur t, split_scan sep 0 0 cur (f ++ t) = split_scan sep 0 0 (reverse f ++ cur) t.

Lemma scan_atom_nil sep : scan_atom sep [].
Proof. done. Qed.

Lemma scan_atom_app sep f g : scan_atom sep f → scan_atom sep g → scan_atom sep (f ++ g).
Proof.
  intros Hf Hg cur t. rewrite <- app_assoc, Hf, Hg. by rewrite reverse_app, app_assoc.
Qed.

(** Inside parentheses nothing is split. *)
Lemma scan_inside sep d x cur t :
  bal_scan d x = true → (0 <= d)%Z →
  split_scan sep 0 (d + 1) cur (x ++ t) = split_scan sep 0 1 (reverse x ++ cur) t.
Proof.
  revert d cur. induction x as [|c x IH]; simpl; intros d cur H Hd; boolify.
  - by subst.
  - rewrite paren_depth_shift.
    rewrite (proj2 (Z.eqb_neq (paren_depth c d + 1) 0)) by lia. cbn [andb].
    rewrite IH by done. by rewrite reverse_cons, <- app_assoc.
Qed.

Definition is_sep (sep : jsstring) : Prop := ∃ sep', sep = 32%N :: sep' ∧ Forall no_paren sep'.

Lemma starts_with_head c sep d t : c ≠ d → starts_with (c :: sep) (d :: t) = false.
Proof.
  intros H. apply bool_decide_eq_false. intros [u Hu]. apply H. by injection Hu.
Qed.

Lemma starts_with_app sep t : starts_with sep (sep ++ t) = true.
Proof. apply bool_decide_eq_true. by exists t. Qed.

Lemma scan_atom_parens sep x : is_sep sep → balanced x = true → scan_atom sep (parens x).
Proof.
  intros (sep' & -> & _) Hx cur t. unfold parens. simpl. change (paren_depth 40 0) with (0 + 1)%Z.
  cbn [andb]. rewrite <- app_assoc, scan_inside by done.
  cbn [app split_scan]. change (paren_depth 41 1) with 0%Z.
  rewrite starts_with_head by done. cbn [andb Z.eqb].
  by rewrite reverse_cons, reverse_app, <- !app_assoc.
Qed.

(** A text without parentheses in which no separator can start. *)
Lemma scan_atom_plain sep f :
  Forall no_paren f →
  (∀ u v t, f = u ++ v → v ≠ [] → starts_with sep (v ++ t) = false) →
  scan_atom sep f.
Proof.
  intros Hf. induction Hf as [|c f Hc Hf IH]; intros Hs cur t; [done|].
  cbn [app split_scan]. rewrite paren_depth_other by done.
  rewrite (Hs [] (c :: f) t eq_refl ltac:(done) : starts_with sep (c :: f ++ t) = false).
  cbn [Z.eqb andb]. rewrite IH.
  - by rewrite reverse_cons, <- app_assoc.
  - intros u v t' -> Hv. by apply (Hs (c :: u)).
Qed.

(** The scanner steps over a separator and starts a new part. *)
Lemma scan_skip sep cur d u t : length u = d → split_scan sep d 0 cur (u ++ t) = split_scan sep 0 0 cur t.
Proof. revert d. induction u as [|c u IH]; intros [|d] H; simplify_eq/=; auto. Qed.

Lemma scan_sep sep cur t :
  is_sep sep →
  split_scan sep 0 0 cur (sep ++ t) = trim (reverse cur) :: split_scan sep 0 0 [] t.
Proof.
  intros Hs. pose proof (starts_with_app sep t) as Hp. destruct Hs as (sep' & -> & _).
  cbn [app split_scan] in *. change (paren_depth 32 0) with 0%Z. cbn [Z.eqb]. rewrite Hp. cbn [andb].
  f_equal. by apply scan_skip.
Qed.

Lemma scan_join sep l :
  is_sep sep → Forall (scan_atom sep) l → l ≠ [] →
  split_scan sep 0 0 [] (join sep l) = trim <$> l.
Proof.
  intros Hsep Hl. induction Hl as [|f l Hf Hl IH]; [done|]. intros _.
  destruct l as [|g l].
  - cbn [join]. rewrite <- (app_nil_r f), Hf. cbn [split_scan].
    by rewrite app_nil_r, reverse_involutive, app_nil_r.
  - change (join sep (f :: g :: l)) with (f ++ sep ++ join sep (g :: l)).
    rewrite Hf, scan_sep, IH by done. by rewrite app_nil_r, reverse_involutive.
Qed.

(** Splitting what was joined: trimmed non-empty atoms come back as they were. *)
Lemma split_top_join sep l :
  is_sep sep → Forall (scan_atom sep) l → Forall (λ f, trimmed f ∧ f ≠ []) l → l ≠ [] →
  filter (λ p, p ≠ []) (split_scan sep 0 0 [] (join sep l)) = l.
Proof.
  intros Hsep Ha Ht Hne. rewrite scan_join by done.
  assert (trim <$> l = l) as ->.
  { clear -Ht. induction Ht as [|f l [Hf _] _ IH]; [done|]. rewrite fmap_cons, trim_trimmed by done. by f_equal. }
  apply filter_all. eapply Forall_impl; [done|]. by intros f [_ Hf].
Qed.

Lemma sep_multiply : is_sep (js " * ").
Proof. eexists. split; [reflexivity|]. repeat constructor; done. Qed.
Lemma sep_and : is_sep (js " && ").
Proof. eexists. split; [reflexivity|]. repeat constructor; done. Qed.

Lemma trimmed_ends s c d :
  head s = Some c → last s = Some d → is_ws c = false → is_ws d = false → trimmed s.
Proof. intros H1 H2 ? ?. by split; intros ?; [rewrite H1|rewrite H2]; intros [= <-]. Qed.

Lemma parens_trimmed x : trimmed (parens x) ∧ parens x ≠ [].
Proof.
  split; [|done]. apply (trimmed_ends _ 40%N 41%N); try done.
  unfold parens. by rewrite app_comm_cons, last_snoc.
Qed.

(** ** Numeric literals *)
(** Go through the elements of a literal list of units. *)
Ltac each_elem H :=
  match type of H with
  | _ ∈ ?l =>
      let l' := eval vm_compute in l in change l with l' in H;
      repeat (apply elem_of_cons in H as [->|H]; [done|]); by apply elem_of_nil in H
  end.

Lemma numeric_units s : is_numeric s = true → Forall (λ c, num_unit c = true) s.
Proof.
  apply (re_test_units num_unit _ (Opt (lit "-") ⋅
    ((Plus (Cls is_digit) ⋅ Opt (lit ".") ⋅ Star (Cls is_digit)) ∥ (lit "." ⋅ Plus (Cls is_digit))) ⋅
    Opt (Cls (one_of (js "eE")) ⋅ Opt (Cls (one_of (js "+-"))) ⋅ Plus (Cls is_digit)))%re); [done|].
  assert (∀ c, is_digit c = true → num_unit c = true) as Hd by (unfold num_unit; intros c ->; done).
  cbn [reads_only Plus]. split_and!; try done; try (apply reads_only_Lit; by repeat constructor).
  all: intros c Hc; apply bool_decide_eq_true in Hc; each_elem Hc.
Qed.

Lemma numeric_not_nil s : is_numeric s = true → s ≠ [].
Proof. by intros H ->. Qed.

(** ** Matching the pieces of a condition *)
Local Open Scope nat_scope.
Local Open Scope re_scope.

Definition no_quote (c : N) : Prop := none_of [34%N] c = true.

Section pieces.
Context {A : Type}.
Implicit Types (k : mstate → option A).

Lemma run_quoted n k pre p rest cs :
  p ≠ [] → Forall no_quote p →
  run (quoted n) k (MState pre (34%N :: p ++ 34%N :: rest) cs) =
  k (MState (34%N :: reverse p ++ 34%N :: pre) rest (jset n p cs)).
Proof.
  intros Hne Hp. unfold quoted. rewrite run_Seq. unfold q. rewrite run_Chr.
  rewrite run_Seq, run_group_det.
  - by rewrite run_Chr.
  - done.
  - exact Hp.
  - intros c t [= <- _]. done.
  - intros pre' c t cs' Hc. apply run_Chr_ne. by intros <-.
Qed.

(** A number followed by something that is not part of one. *)
Lemma run_NUM n k pre v rest cs :
  is_numeric v = true → (∀ c t, rest = c :: t → num_unit c = false) →
  (∀ pre c t cs, num_unit c = true → k (MState pre (c :: t) cs) = None) →
  run (NUM n) k (MState pre (v ++ rest) cs) = k (MState (reverse v ++ pre) rest (jset n v cs)).
Proof.
  intros Hv Hr Hk. apply run_group_det; [by apply numeric_not_nil|by apply numeric_units|done..].
Qed.

Lemma run_TIME_FUNC k pre f rest :
  f ∈ TIME_FUNCS →
  run TIME_FUNC k (MState pre (f ++ rest) []) = k (MState (reverse f ++ pre) rest [(1, f)]).
Proof.
  intros Hf. unfold TIME_FUNC.
  assert (run (Grp 1 (alts (Lit <$> TIME_FUNCS))) k (MState pre (f ++ rest) []) =
    match k (set_cap 1 (consumed (MState pre (f ++ rest) []) (MState (reverse f ++ pre) rest []))
                       (MState (reverse f ++ pre) rest [])) with Some a => Some a | None => None end)
    as ->.
  { repeat (apply elem_of_cons in Hf as [->|Hf]; [first [reflexivity |
      match goal with |- _ = match ?x with _ => _ end =>
        transitivity x; [reflexivity|by destruct x] end]|]).
    by apply elem_of_nil in Hf. }
  rewrite consumed_app. simpl. by case_match.
Qed.

End pieces.

#[local] Opaque lit quoted NUM TIME_FUNC.

(** ** Reading back each condition

    The text of a condition on a header or a parameter, from its path on. *)
Definition access (header : bool) (p tail : jsstring) : jsstring :=
  js (if header then "header(" else "param(") ++ 34%N :: p ++ 34%N :: tail.

(** A pattern that refuses a text by its first units. *)
Ltac re_refuse := rewrite ?re_match_anchored; reflexivity.

Lemma not_time_access h p tail : tryParseTimeCondition (access h p tail) = None.
Proof.
  unfold tryParseTimeCondition, RANGE_REGEX, RANGE_PARENS_REGEX, TIME_REGEX, access.
  rewrite !re_match_anchored. by destruct h.
Qed.

Lemma not_time_has t : tryParseTimeCondition (js "has(" ++ t) = None.
Proof.
  unfold tryParseTimeCondition, RANGE_REGEX, RANGE_PARENS_REGEX, TIME_REGEX.
  by rewrite !re_match_anchored.
Qed.

(** The name of a source, as the first group. *)
Definition source_text (h : bool) : jsstring := js (if h then "header" else "param").

Lemma access_source h p tail : access h p tail = source_text h ++ js "(" ++ 34%N :: p ++ 34%N :: tail.
Proof. by destruct h. Qed.

Lemma run_source {A} (k : mstate → option A) h rest :
  run (Grp 1 (alts [lit "param"; lit "header"])) k (MState [] (source_text h ++ rest) []) =
  k (MState (reverse (source_text h)) rest [(1, source_text h)]).
Proof.
  transitivity (match k (set_cap 1 (consumed (MState [] (source_text h ++ rest) [])
                                     (MState (reverse (source_text h)) rest []))
                       (MState (reverse (source_text h)) rest [])) with
                | Some a => Some a | None => None end).
  - destruct h; [|reflexivity]. match goal with |- _ = match ?x with _ => _ end =>
        transitivity x; [reflexivity|by destruct x] end.
  - rewrite consumed_app. simpl. by case_match.
Qed.

Section access_patterns.
Context (p : jsstring) (Hne : p ≠ []) (Hp : Forall no_quote p).

(** Read the name, the parenthesis and the quoted path. *)
#[local] Ltac re_access :=
  rewrite re_match_anchored; unfold access; rewrite run_Seq, run_lit, run_Seq, run_quoted by done;
  rewrite run_Seq, ?app_nil_r.

Lemma match_HEADER_EXISTS :
  re_match HEADER_EXISTS_REGEX (access true p (js ") != " ++ [34%N; 34%N])) = Some [(1, p)].
Proof. unfold HEADER_EXISTS_REGEX. re_access. by rewrite run_lit. Qed.

Lemma match_HEADER_EXISTS_None tail :
  ¬ js ") != " `prefix_of` tail → re_match HEADER_EXISTS_REGEX (access true p tail) = None.
Proof. intros H. unfold HEADER_EXISTS_REGEX. re_access. by rewrite run_lit_None. Qed.

Lemma match_PARAM_EXISTS :
  re_match PARAM_EXISTS_REGEX (access false p (js ") != nil")) = Some [(1, p)].
Proof.
  unfold PARAM_EXISTS_REGEX. re_access. rewrite <- (app_nil_r (js ") != nil")). by rewrite run_lit.
Qed.

Lemma match_PARAM_EXISTS_None tail :
  ¬ js ") != nil" `prefix_of` tail → re_match PARAM_EXISTS_REGEX (access false p tail) = None.
Proof. intros H. unfold PARAM_EXISTS_REGEX. re_access. by rewrite run_lit_None. Qed.

(** Refused when what follows the path is not the rest of a double access. *)
Lemma match_PARAM_HAS_None tail :
  ¬ js ") != nil && has(param(" `prefix_of` tail → re_match PARAM_HAS_REGEX (access false p tail) = None.
Proof. intros H. unfold PARAM_HAS_REGEX. re_access. by rewrite run_lit_None. Qed.

Lemma match_PARAM_CMP_None tail :
  ¬ js ") != nil && param(" `prefix_of` tail → re_match PARAM_CMP_REGEX (access false p tail) = None.
Proof. intros H. unfold PARAM_CMP_REGEX. re_access. by rewrite run_lit_None. Qed.

Lemma match_EQ h v :
  v ≠ [] → Forall (λ c, not_newline c = true) v →
  re_match EQ_REGEX (access h p (js ") == " ++ v)) = Some [(1, source_text h); (2, p); (3, v)].
Proof.
  intros Hv Hn. unfold EQ_REGEX. rewrite re_match_anchored, access_source.
  rewrite run_Seq, run_source, run_Seq, run_lit, run_Seq, run_quoted, run_Seq, run_lit, run_Seq by done.
  rewrite <- (app_nil_r v) at 1. rewrite run_group_det; [done|done|done|done|].
  by intros.
Qed.

Lemma match_EQ_None h tail :
  ¬ js ") == " `prefix_of` tail → re_match EQ_REGEX (access h p tail) = None.
Proof.
  intros H. unfold EQ_REGEX. rewrite re_match_anchored, access_source.
  rewrite run_Seq, run_source, run_Seq, run_lit, run_Seq, run_quoted, run_Seq by done. by rewrite run_lit_None.
Qed.

End access_patterns.

(** A literal text that differs from the start of another one. *)
Ltac no_prefix := by intros [? [=]].
Ltac each_elem_done H := repeat (apply elem_of_cons in H as [H|H]; [done|]); by apply elem_of_nil in H.
Ltac each_elem_no_prefix H :=
  repeat (apply elem_of_cons in H as [->|H]; [no_prefix|]); by apply elem_of_nil in H.

(** ** Literals *)

(** The inside of a quoted text as the pattern for strings accepts it. *)
Inductive string_body : jsstring → Prop :=
  | sb_nil : string_body []
  | sb_unit c b : none_of [34; 92]%N c = true → string_body b → string_body (c :: b)
  | sb_escape c b : not_newline c = true → string_body b → string_body (92%N :: c :: b).

Lemma string_body_units w b :
  Forall (λ c, none_of [34; 92]%N c = true) w → string_body b → string_body (w ++ b).
Proof. intros Hw Hb. induction Hw; [done|by constructor]. Qed.

Lemma plain_in_string u : u ≠ 34%N → u ≠ 92%N → none_of [34; 92]%N u = true.
Proof. intros ? ?. unfold none_of, one_of. apply negb_true_iff, bool_decide_eq_false. set_solver. Qed.

Lemma hex_lower_plain d : none_of [34; 92]%N (hex_lower d) = true.
Proof. apply plain_in_string; unfold hex_lower; destruct (N.ltb_spec d 10); lia. Qed.

Lemma string_body_quote_unit c b : string_body b → string_body (quote_unit c ++ b).
Proof.
  intros Hb. assert (string_body (escape_u c ++ b)) as He.
  { apply (sb_escape 117); [done|]. apply (string_body_units [_; _; _; _]); [|done].
    repeat constructor; apply hex_lower_plain. }
  unfold quote_unit.
  destruct (_ || _) eqn:E1.
  { apply orb_true_iff in E1 as [->%N.eqb_eq| ->%N.eqb_eq]; by apply sb_escape. }
  repeat (case_match; [by apply sb_escape|]).
  case_match; [done|]. apply orb_false_iff in E1 as [?%N.eqb_neq ?%N.eqb_neq].
  constructor; [by apply plain_in_string|done].
Qed.

Lemma string_body_quote s : string_body (quote_body s).
Proof.
  induction s as [s IH] using (induction_ltof1 _ (@length N)). unfold ltof in IH.
  destruct s as [|c t]; [constructor|]. rewrite quote_body_cons. destruct t as [|d t'].
  - rewrite <- (app_nil_r (quote_unit c)). apply string_body_quote_unit. constructor.
  - destruct (is_high c && is_low d) eqn:E.
    + apply andb_true_iff in E as [(? & ? & ?)%is_high_plain (? & ? & ?)%is_low_plain].
      do 2 (constructor; [by apply plain_in_string|]). apply IH. simpl. lia.
    + apply string_body_quote_unit, IH. simpl. lia.
Qed.

(** The pattern for strings reads a quoted text to its closing quote. *)
Lemma run_string_star {A} (k : mstate → option A) pre b rest cs a :
  string_body b →
  k (MState (reverse b ++ pre) (34%N :: rest) cs) = Some a →
  run (Star (Cls (none_of [34; 92]%N) ∥ (Chr 92 ⋅ Cls not_newline))) k
    (MState pre (b ++ 34%N :: rest) cs) = Some a.
Proof.
  intros Hb. revert pre. induction Hb as [|c b Hc Hb IH|c b Hc Hb IH]; intros pre Hk;
    rewrite run_star_step; cbn [groups app]; rewrite reset_nil;
    rewrite ?reverse_cons, <- ?app_assoc in Hk.
  - simpl in Hk. by rewrite Hk.
  - rewrite run_Alt, run_Cls, Hc, IH by done. by rewrite (proj2 (Nat.ltb_lt _ _)) by (simpl; lia).
  - rewrite run_Alt, run_Cls. change (none_of [34; 92]%N 92) with false. cbv iota.
    rewrite run_Seq, run_Chr, run_Cls, Hc, IH by done.
    by rewrite (proj2 (Nat.ltb_lt _ _)) by (simpl; lia).
Qed.

Lemma run_STRING {A} n (k : mstate → option A) pre b rest cs a :
  string_body b →
  k (MState (34%N :: reverse b ++ 34%N :: pre) rest (jset n (34%N :: b ++ [34%N]) cs)) = Some a →
  run (STRING n) k (MState pre (34%N :: b ++ 34%N :: rest) cs) = Some a.
Proof.
  intros Hb Hk. unfold STRING.
  change (run (Grp n ?r) k ?s) with (run r (λ s', k (set_cap n (consumed s s') s')) s).
  unfold q. rewrite run_Seq, run_Chr, run_Seq. apply run_string_star; [done|].
  rewrite run_Chr. cbn [set_cap before after caps].
  replace (34%N :: b ++ 34%N :: rest) with ((34%N :: b ++ [34%N]) ++ rest)
    by (simpl; by rewrite <- app_assoc).
  by rewrite consumed_app.
Qed.

#[local] Opaque STRING.

(** ** Conditions that can be read back *)

(** A unit of a path or of a zone: quoted as it is, and none of the units the scanners
    and the builder look for. *)
Definition path_unit (c : N) : bool := plain_unit c && negb (one_of (js "()&|") c).

(** A unit of a compared text: a code unit that is neither one of those nor a line
    separator that a quotation leaves as it is. *)
Definition value_unit (c : N) : bool :=
  (c <? 65536)%N && negb (one_of (js "()&|" ++ [8232; 8233]%N) c).

Definition path_ok (p : jsstring) : bool := bool_decide (p ≠ []) && forallb path_unit p.
Definition value_ok (v : jsstring) : bool := forallb value_unit v.

Lemma path_ok_quote p : path_ok p = true → p ≠ [] ∧ Forall no_quote p ∧ quote_body p = p.
Proof.
  unfold path_ok. intros H. boolify. apply forallb_Forall in H0. split; [done|].
  split; [|apply quote_plain]; eapply Forall_impl; try done; intros c Hc;
    unfold path_unit in Hc; boolify; [|done].
  unfold plain_unit in *. boolify. unfold no_quote, none_of, one_of.
  apply negb_true_iff, bool_decide_eq_false. set_solver.
Qed.

Lemma quoted_access h p tail :
  path_ok p = true →
  js (if h : bool then "header(" else "param(") ++ JSON_quote p ++ tail = access h p tail.
Proof.
  intros (_ & _ & Hq)%path_ok_quote. unfold access, JSON_quote. rewrite Hq. simpl.
  by rewrite <- app_assoc.
Qed.

Section reading_back.
Context (p : jsstring) (Hpath : path_ok p = true).

#[local] Lemma Hpne : p ≠ [].
Proof. by apply path_ok_quote in Hpath as (? & ? & ?). Qed.
#[local] Lemma Hpq : Forall no_quote p.
Proof. by apply path_ok_quote in Hpath as (? & ? & ?). Qed.
#[local] Hint Resolve Hpne Hpq : core.

Lemma parse_header_exists :
  tryParseRequestCondition (access true p (js ") != " ++ [34; 34]%N)) =
  Ok (Some (ParamHeaderCondition true p MATCH_EXISTS [])).
Proof.
  unfold tryParseRequestCondition. rewrite not_time_access, match_HEADER_EXISTS by auto. done.
Qed.

Lemma parse_param_exists :
  tryParseRequestCondition (access false p (js ") != nil")) =
  Ok (Some (ParamHeaderCondition false p MATCH_EXISTS [])).
Proof.
  unfold tryParseRequestCondition. rewrite not_time_access.
  replace (re_match HEADER_EXISTS_REGEX _) with (@None (list (nat * jsstring)))
    by (unfold HEADER_EXISTS_REGEX; re_refuse).
  rewrite match_PARAM_EXISTS by auto. done.
Qed.

(** Equality: the literal is read by [parseExprLiteral]. *)
Lemma parse_equality h v w :
  v ≠ [] → Forall (λ c, not_newline c = true) v → parseExprLiteral v = JStr w →
  tryParseRequestCondition (access h p (js ") == " ++ v)) =
  Ok (Some (ParamHeaderCondition h p MATCH_EQ w)).
Proof.
  intros Hv Hn Hl. unfold tryParseRequestCondition. rewrite not_time_access.
  assert (tryParseEquality (access h p (js ") == " ++ v)) =
          Some (ParamHeaderCondition h p MATCH_EQ w)) as Heq.
  { unfold tryParseEquality. rewrite match_EQ by auto.
    unfold mbind, option_bind.
    change (group_text [(1, source_text h); (2, p); (3, v)] 3) with v. rewrite Hl.
    by destruct h. }
  rewrite Heq. destruct h.
  - rewrite match_HEADER_EXISTS_None by (auto; no_prefix). unfold access.
    repeat (replace (re_match _ _) with (@None (list (nat * jsstring)))
      by (unfold PARAM_EXISTS_REGEX, HEADER_HAS_REGEX, PARAM_HAS_REGEX, PARAM_CMP_REGEX; re_refuse)).
    done.
  - rewrite match_PARAM_EXISTS_None, match_PARAM_HAS_None, match_PARAM_CMP_None
      by (auto; no_prefix). unfold access.
    repeat (replace (re_match _ _) with (@None (list (nat * jsstring)))
      by (unfold HEADER_EXISTS_REGEX, HEADER_HAS_REGEX; re_refuse)).
    done.
Qed.

Lemma match_HEADER_HAS b :
  string_body b →
  re_match HEADER_HAS_REGEX (js "has(" ++ access true p (js "), " ++ (34%N :: b ++ [34%N]) ++ js ")")) =
  Some [(1, p); (2, 34%N :: b ++ [34%N])].
Proof.
  intros Hb. unfold HEADER_HAS_REGEX, access. rewrite re_match_anchored, app_assoc.
  change (js "has(" ++ js "header(") with (js "has(header(").
  rewrite run_Seq, run_lit, run_Seq, run_quoted, run_Seq, run_lit, run_Seq by auto.
  cbn [app]. rewrite <- app_assoc. change ([34%N] ++ js ")") with (34%N :: js ")").
  erewrite run_STRING; [|done|].
  2: { rewrite <- (app_nil_r (js ")")), run_Seq, run_lit. done. }
  done.
Qed.

(** A header condition on a quoted text has the value [JSON.parse] gives it. *)
Lemma parse_header_has_body b :
  string_body b →
  tryParseRequestCondition (js "has(" ++ access true p (js "), " ++ (34%N :: b ++ [34%N]) ++ js ")")) =
  (v ← parse_quoted (34%N :: b ++ [34%N]); Ok (Some (ParamHeaderCondition true p MATCH_CONTAINS v))).
Proof.
  intros Hb. unfold tryParseRequestCondition. rewrite not_time_has, match_HEADER_HAS by done.
  repeat (replace (re_match _ _) with (@None (list (nat * jsstring)))
      by (unfold HEADER_EXISTS_REGEX, PARAM_EXISTS_REGEX; re_refuse)).
  done.
Qed.

Lemma parse_header_has v :
  Forall is_unit v →
  tryParseRequestCondition (js "has(" ++ access true p (js "), " ++ JSON_quote v ++ js ")")) =
  Ok (Some (ParamHeaderCondition true p MATCH_CONTAINS v)).
Proof.
  intros Hv. unfold JSON_quote. rewrite parse_header_has_body by apply string_body_quote.
  fold (JSON_quote v). unfold parse_quoted. by rewrite (JSON_parse_quote v Hv).
Qed.

(** The two halves of a condition that repeats a parameter: the second is refused. *)
Lemma parse_param_has_None t : tryParseRequestCondition (js "has(" ++ access false p t) = Ok None.
Proof.
  unfold tryParseRequestCondition. rewrite not_time_has. unfold tryParseEquality, access.
  repeat (replace (re_match _ _) with (@None (list (nat * jsstring)))
    by (unfold HEADER_EXISTS_REGEX, PARAM_EXISTS_REGEX, HEADER_HAS_REGEX, PARAM_HAS_REGEX,
          PARAM_CMP_REGEX, EQ_REGEX; re_refuse)).
  done.
Qed.

Lemma parse_param_cmp_None op v :
  op ∈ js <$> [">"; ">="; "<"; "<="]%string →
  tryParseRequestCondition (access false p (js ") " ++ op ++ js " " ++ v)) = Ok None.
Proof.
  intros Hop. unfold tryParseRequestCondition. rewrite not_time_access.
  unfold tryParseEquality.
  rewrite match_PARAM_EXISTS_None, match_PARAM_HAS_None, match_PARAM_CMP_None, match_EQ_None
    by (auto; each_elem_no_prefix Hop).
  unfold access.
  repeat (replace (re_match _ _) with (@None (list (nat * jsstring)))
    by (unfold HEADER_EXISTS_REGEX, HEADER_HAS_REGEX; re_refuse)).
  done.
Qed.

End reading_back.

(** ** Time conditions *)
Definition time_access (f tz tail : jsstring) : jsstring :=
  f ++ js "(" ++ 34%N :: tz ++ 34%N :: tail.

Lemma time_access_app f tz tail t : time_access f tz tail ++ t = time_access f tz (tail ++ t).
Proof. unfold time_access. rewrite <- !app_assoc. simpl. by rewrite <- app_assoc. Qed.

(** A literal text that starts with a unit outside numbers refuses the rest of a number. *)
Lemma run_lit_num {A} w d w' (k : mstate → option A) pre c t cs :
  js w = d :: w' → num_unit d = false → num_unit c = true →
  run (lit w) k (MState pre (c :: t) cs) = None.
Proof.
  intros Hw Hd Hc. apply run_lit_None. rewrite Hw. intros [u Hu]. simplify_eq/=.
  by rewrite Hc in Hd.
Qed.

Section time_conditions.
Context (f tz : jsstring) (Hf : f ∈ TIME_FUNCS) (Htz : path_ok tz = true).

#[local] Lemma tz_not_nil : tz ≠ [].
Proof. by apply path_ok_quote in Htz as (? & ? & ?). Qed.
#[local] Lemma tz_no_quote : Forall no_quote tz.
Proof. by apply path_ok_quote in Htz as (? & ? & ?). Qed.
#[local] Hint Resolve tz_not_nil tz_no_quote : core.

Lemma match_RANGE_parens_None tail :
  re_match RANGE_PARENS_REGEX (time_access f tz tail) = None.
Proof.
  unfold RANGE_PARENS_REGEX, time_access. rewrite re_match_anchored, run_Seq.
  rewrite run_lit_None; [done|].
  clear Htz. repeat (apply elem_of_cons in Hf as [->|Hf]; [no_prefix|]). by apply elem_of_nil in Hf.
Qed.

(** A single comparison is not a range. *)
Lemma match_RANGE_None op v :
  op ∈ js <$> ["=="; ">="; "<"]%string → is_numeric v = true →
  re_match RANGE_REGEX (time_access f tz (js ") " ++ op ++ js " " ++ v)) = None.
Proof.
  intros Hop Hv. unfold RANGE_REGEX, RANGE_BODY, time_access. rewrite re_match_anchored, run_Seq.
  rewrite run_Seq, run_TIME_FUNC, run_Seq, run_lit, run_Seq, run_quoted, run_Seq by auto.
  apply elem_of_cons in Hop as [->|Hop].
  { rewrite run_lit_None; [done|no_prefix]. }
  apply elem_of_cons in Hop as [->|Hop].
  - change (js ") " ++ js ">=" ++ js " " ++ v) with (js ") >= " ++ v).
    rewrite run_lit, run_Seq. rewrite <- (app_nil_r v). rewrite run_NUM; [done|done|done|].
    intros pre c t cs Hc. rewrite run_Seq. by eapply run_lit_num.
  - apply list_elem_of_singleton in Hop as ->. rewrite run_lit_None; [done|no_prefix].
Qed.

Lemma run_time_op {A} op (k : mstate → option A) pre t cs :
  op ∈ js <$> ["=="; ">="; "<"]%string →
  run (Grp 3 (alts [lit "=="; lit ">="; lit "<"])) k (MState pre (op ++ t) cs) =
  k (MState (reverse op ++ pre) t (jset 3 op cs)).
Proof.
  intros Hop.
  transitivity (match k (set_cap 3 (consumed (MState pre (op ++ t) cs)
                                     (MState (reverse op ++ pre) t cs))
                       (MState (reverse op ++ pre) t cs)) with Some a => Some a | None => None end).
  - repeat (apply elem_of_cons in Hop as [->|Hop]; [first [reflexivity |
      match goal with |- _ = match ?x with _ => _ end =>
        transitivity x; [reflexivity|by destruct x] end]|]).
    by apply elem_of_nil in Hop.
  - rewrite consumed_app. simpl. by case_match.
Qed.

Lemma parse_time_cmp op v :
  op ∈ js <$> ["=="; ">="; "<"]%string → is_numeric v = true →
  tryParseRequestCondition (time_access f tz (js ") " ++ op ++ js " " ++ v)) =
  Ok (Some (TimeCondition f tz (time_op_mode op) v [] [])).
Proof.
  intros Hop Hv. unfold tryParseRequestCondition, tryParseTimeCondition.
  rewrite match_RANGE_None, match_RANGE_parens_None by done.
  unfold TIME_REGEX, time_access. rewrite re_match_anchored.
  rewrite run_Seq, run_TIME_FUNC, run_Seq, run_lit, run_Seq, run_quoted, run_Seq by auto.
  rewrite run_lit, run_Seq, run_time_op, run_Seq, run_lit, run_Seq by done.
  rewrite <- (app_nil_r v) at 1. rewrite run_NUM; [|done|done|done].
  done.
Qed.

(** The body of a range, up to what follows its last number. *)
Lemma run_RANGE_BODY {A} (k : mstate → option A) pre s e rest :
  is_numeric s = true → is_numeric e = true →
  (∀ c t, rest = c :: t → num_unit c = false) →
  (∀ pre c t cs, num_unit c = true → k (MState pre (c :: t) cs) = None) →
  ∃ pre', run RANGE_BODY k (MState pre
    (time_access f tz (js ") >= " ++ s ++ js " || " ++ time_access f tz (js ") < " ++ e ++ rest))) []) =
  k (MState pre' rest [(1, f); (2, tz); (3, s); (4, e)]).
Proof.
  intros Hs He Hr Hk. unfold RANGE_BODY, time_access. eexists.
  rewrite run_Seq, run_TIME_FUNC, run_Seq, run_lit, run_Seq, run_quoted, run_Seq, run_lit, run_Seq by auto.
  rewrite run_NUM; [|done|by intros c t [= <- _]|].
  2: { intros. rewrite run_Seq. by eapply run_lit_num. }
  rewrite run_Seq, run_lit, run_Seq, (run_Ref 1), run_Seq, run_lit, run_Seq by done.
  unfold q. rewrite run_Chr, run_Seq, (run_Ref 2), run_Seq, run_Chr, run_Seq, run_lit by done.
  rewrite run_NUM by done. reflexivity.
Qed.

Definition range_text (s e rest : jsstring) : jsstring :=
  time_access f tz (js ") >= " ++ s ++ js " || " ++ time_access f tz (js ") < " ++ e ++ rest)).

Lemma range_text_app s e t : range_text s e t = range_text s e [] ++ t.
Proof. unfold range_text. by rewrite !time_access_app, <- !app_assoc, time_access_app, <- !app_assoc. Qed.

Lemma parse_range s e :
  is_numeric s = true → is_numeric e = true →
  tryParseRequestCondition (range_text s e []) = Ok (Some (TimeCondition f tz MATCH_RANGE [] s e)).
Proof.
  intros Hs He. unfold tryParseRequestCondition, tryParseTimeCondition, RANGE_REGEX, range_text.
  rewrite re_match_anchored, run_Seq.
  destruct (run_RANGE_BODY (run Eol Some) [] s e []) as [pre' ->]; done.
Qed.

Lemma parse_range_parens s e :
  is_numeric s = true → is_numeric e = true →
  tryParseRequestCondition (parens (range_text s e [])) =
  Ok (Some (TimeCondition f tz MATCH_RANGE [] s e)).
Proof.
  intros Hs He. unfold tryParseRequestCondition, tryParseTimeCondition.
  replace (re_match RANGE_REGEX _) with (@None (list (nat * jsstring)))
    by (unfold RANGE_REGEX; rewrite re_match_anchored; reflexivity).
  replace (parens (range_text s e [])) with (js "(" ++ range_text s e (js ")"))
    by (unfold parens; by rewrite <- range_text_app).
  unfold RANGE_PARENS_REGEX. rewrite re_match_anchored, run_Seq, run_lit, run_Seq.
  destruct (run_RANGE_BODY (run (lit ")" ⋅ Eol) Some) (reverse (js "(") ++ []) s e (js ")"))
    as [pre' E]; [done|done|by intros c t [= <- _]| |].
  { intros. rewrite run_Seq. by eapply run_lit_num. }
  unfold range_text. rewrite E. done.
Qed.

End time_conditions.

(** ** Literals, read back *)

(** The units of a text in which the scanners and the builder find nothing. *)
Definition quiet (c : N) : Prop := no_paren c ∧ c ≠ 38%N ∧ c ≠ 124%N.

(** A text that can stand after a comparison. *)
Record literal_text (l : jsstring) (v : jsstring) : Prop := {
  lt_ne : l ≠ [];
  lt_quiet : Forall quiet l;
  lt_lines : Forall (λ c, not_newline c = true) l;
  lt_last : ∀ c, last l = Some c → is_ws c = false;
  lt_value : parseExprLiteral l = JStr v
}.

Lemma num_unit_quiet c : num_unit c = true → quiet c ∧ not_newline c = true ∧ is_ws c = false.
Proof.
  unfold num_unit. intros [Hd|Hc]%orb_true_iff.
  - pose proof (is_digit_not_ws _ Hd) as Hw. unfold is_digit in Hd. boolify.
    split_and!; [| |done].
    + unfold quiet, no_paren. lia.
    + unfold not_newline. apply negb_true_iff, bool_decide_eq_false.
      intros Hin. set_unfold in Hin. lia.
  - unfold one_of in Hc. apply bool_decide_eq_true in Hc. each_elem Hc.
Qed.

Lemma numeric_quiet v : is_numeric v = true → Forall quiet v.
Proof.
  intros H%numeric_units. eapply Forall_impl; [done|]. by intros c (? & _)%num_unit_quiet.
Qed.

Lemma numeric_trim v : is_numeric v = true → trim v = v.
Proof.
  intros H%numeric_units. apply trim_no_ws. eapply Forall_impl; [done|].
  by intros c (_ & _ & ?)%num_unit_quiet.
Qed.

Lemma numeric_last v c : is_numeric v = true → last v = Some c → is_ws c = false ∧ c ≠ 32%N.
Proof.
  intros H%numeric_units Hl. rewrite Forall_forall in H.
  destruct (num_unit_quiet c) as (_ & _ & ?); [apply H; by apply last_Some_elem_of|].
  split; [done|]. by intros ->.
Qed.

Lemma literal_numeric v : is_numeric v = true → literal_text v v.
Proof.
  intros H. pose proof (numeric_units v H) as Hu. split.
  - by apply numeric_not_nil.
  - by apply numeric_quiet.
  - eapply Forall_impl; [done|]. by intros c (_ & ? & _)%num_unit_quiet.
  - intros c Hc. by eapply numeric_last.
  - unfold parseExprLiteral. rewrite numeric_trim, H by done. by case_match.
Qed.

Lemma escape_units_quiet c : c ∈ escape_units → quiet c ∧ not_newline c = true.
Proof. intros H. each_elem H. Qed.

Lemma value_unit_facts c : value_unit c = true → is_unit c ∧ quiet c ∧ c ≠ 8232%N ∧ c ≠ 8233%N.
Proof.
  unfold value_unit, one_of. intros H. boolify. apply N.ltb_lt in H.
  split; [done|]. change (js "()&|" ++ [8232; 8233]%N) with [40; 41; 38; 124; 8232; 8233]%N in H0.
  unfold quiet, no_paren. set_solver.
Qed.

Lemma value_ok_units v : value_ok v = true → Forall is_unit v.
Proof.
  intros H%forallb_Forall. eapply Forall_impl; [done|]. by intros c (? & _)%value_unit_facts.
Qed.

(** The quotation of a text is as quiet as the text. *)
Lemma quote_quiet v :
  value_ok v = true → Forall (λ c, quiet c ∧ not_newline c = true) (JSON_quote v).
Proof.
  intros Hv. pose proof (value_ok_units v Hv) as Hu. apply forallb_Forall in Hv.
  unfold JSON_quote. apply Forall_cons. split; [done|]. apply Forall_app.
  split; [|by repeat constructor]. apply Forall_forall. intros c Hc.
  apply elem_of_quote_body in Hc as [[Hc ?]|Hc%escape_units_quiet]; [|done|done].
  rewrite Forall_forall in Hv. apply Hv, value_unit_facts in Hc as (? & ? & ? & ?).
  split; [done|]. unfold not_newline. apply negb_true_iff, bool_decide_eq_false.
  intros Hin. set_unfold in Hin. lia.
Qed.

Lemma JSON_quote_last v : last (JSON_quote v) = Some 34%N.
Proof. unfold JSON_quote. by rewrite app_comm_cons, last_snoc. Qed.

Lemma JSON_quote_not_numeric v : is_numeric (JSON_quote v) = false.
Proof.
  apply not_true_is_false. intros H%numeric_units. unfold JSON_quote in H.
  apply Forall_cons in H as [H _]. done.
Qed.

Lemma JSON_quote_trim v : trim (JSON_quote v) = JSON_quote v.
Proof. apply trim_trimmed, (trimmed_ends _ 34%N 34%N); try done. apply JSON_quote_last. Qed.

Lemma literal_quote v : value_ok v = true → literal_text (JSON_quote v) v.
Proof.
  intros Hv. pose proof (quote_quiet v Hv) as Hq. split; [done| | | |].
  - eapply Forall_impl; [done|]. by intros c [? _].
  - eapply Forall_impl; [done|]. by intros c [_ ?].
  - rewrite JSON_quote_last. by intros c [= <-].
  - unfold parseExprLiteral. rewrite JSON_quote_trim, JSON_quote_not_numeric.
    rewrite !bool_decide_eq_false_2 by (unfold JSON_quote; discriminate).
    by rewrite JSON_parse_quote by (by apply value_ok_units).
Qed.

(** What the builder writes for a value. *)
Lemma build_literal v : value_ok (trim v) = true → literal_text (buildExprLiteral MATCH_EQ v) (trim v).
Proof.
  intros Hv. unfold buildExprLiteral. rewrite (bool_decide_eq_false_2 (MATCH_EQ = _)) by done.
  destruct (_ || _) eqn:E.
  - apply orb_true_iff in E as [->%bool_decide_eq_true| ->%bool_decide_eq_true];
      (split; [done| | |by intros c [= <-]|done]); repeat constructor; done.
  - destruct (is_numeric (trim v)) eqn:En; [by apply literal_numeric|by apply literal_quote].
Qed.

(** ** A factor *)
Lemma match_FACTOR w m :
  w ≠ [] → is_numeric m = true →
  re_match FACTOR_REGEX (js "(" ++ w ++ js " ? " ++ m ++ js " : 1)") = Some [(1, w); (2, m)].
Proof.
  intros Hw Hm. unfold FACTOR_REGEX. rewrite re_match_anchored, run_Seq, run_lit, run_Seq.
  change (run (Grp 1 ?r) ?k ?s) with (run r (λ s', k (set_cap 1 (consumed s s') s')) s).
  match goal with |- caps <$> ?x = _ =>
    assert (∃ pre, x = Some (MState pre [] [(1, w); (2, m)])) as [pre ->]; [eexists|done] end.
  apply run_plus_last; [done|by apply Forall_forall| |].
  - unfold at_end. rewrite consumed_app. unfold set_cap. cbn [before after caps].
    rewrite run_Seq, run_lit, run_Seq, run_NUM; [|done|by intros c t [= <- _]|].
    + rewrite run_Seq, <- (app_nil_r (js " : 1)")), run_lit. reflexivity.
    + intros. rewrite run_Seq. by eapply run_lit_num.
  - intros v u Hv Hr. unfold set_cap, at_end. cbn [before after caps]. rewrite run_Seq.
    apply run_lit_None. intros [t ->].
    assert (63%N ∉ drop 2 (js " ? " ++ m ++ js " : 1)")) as Hq.
    { change (drop 2 _) with (32%N :: m ++ js " : 1)").
      apply not_elem_of_cons. split; [done|]. apply not_elem_of_app. split; [|by vm_compute; set_solver].
      intros H. apply numeric_units in Hm. rewrite Forall_forall in Hm. by apply Hm in H. }
    apply Hq. rewrite Hr. destruct v as [|c v]; [done|]. simpl.
    destruct v as [|d v]; simpl; set_solver.
Qed.

(** ** The text of a condition, as a piece of a factor *)
Record piece (e : jsstring) (c : RequestCondition) : Prop := {
  pc_ne : e ≠ [];
  pc_trim : trimmed e;
  pc_atom : scan_atom (js " && ") e;
  pc_bal : balanced e = true;
  pc_parse : tryParseRequestCondition e = Ok (Some c)
}.

Lemma scan_atom_calm f :
  Forall (λ c, no_paren c ∧ c ≠ 38%N) f → last f ≠ Some 32%N → scan_atom (js " && ") f.
Proof.
  intros Hf Hl. apply scan_atom_plain.
  - eapply Forall_impl; [done|]. by intros c [? _].
  - intros u v t -> Hv. destruct v as [|a v]; [done|]. apply bool_decide_eq_false. intros [w Hw].
    destruct v as [|b v]; simplify_eq/=.
    + by rewrite last_snoc in Hl.
    + rewrite Forall_app, !Forall_cons in Hf. destruct Hf as (_ & _ & (_ & Hb) & _). done.
Qed.

Lemma quiet_calm f : Forall quiet f → Forall (λ c, no_paren c ∧ c ≠ 38%N) f.
Proof. intros H. eapply Forall_impl; [done|]. by intros c (? & ? & _). Qed.

Lemma scan_atom_quiet f : Forall quiet f → last f ≠ Some 32%N → scan_atom (js " && ") f.
Proof. intros H. by apply scan_atom_calm, quiet_calm. Qed.

(** [name("path")tail] for a quiet tail. *)
Definition call_text (name p tail : jsstring) : jsstring := name ++ parens (34%N :: p ++ [34%N]) ++ tail.

Lemma path_quiet p : path_ok p = true → Forall quiet (34%N :: p ++ [34%N]).
Proof.
  unfold path_ok. intros H. boolify. apply forallb_Forall in H0.
  apply Forall_cons. split; [done|]. apply Forall_app. split; [|by repeat constructor].
  eapply Forall_impl; [done|]. intros c Hc. unfold path_unit in Hc. boolify.
  unfold one_of in *. boolify. change (js "()&|") with [40; 41; 38; 124]%N in *.
  unfold quiet, no_paren. set_solver.
Qed.

Lemma quiet_no_paren l : Forall quiet l → Forall no_paren l.
Proof. intros H. eapply Forall_impl; [done|]. by intros c [? _]. Qed.

Section calls.
Context (name p : jsstring) (Hn : Forall quiet name) (Hl : last name ≠ Some 32%N)
        (Hp : path_ok p = true).

Lemma call_atom tail : scan_atom (js " && ") tail → scan_atom (js " && ") (call_text name p tail).
Proof.
  intros Ht. unfold call_text. apply scan_atom_app; [by apply scan_atom_quiet|].
  apply scan_atom_app; [|done]. apply scan_atom_parens; [apply sep_and|].
  by apply balanced_plain, quiet_no_paren, path_quiet.
Qed.

Lemma call_balanced tail : balanced tail = true → balanced (call_text name p tail) = true.
Proof.
  intros Ht. unfold call_text. apply balanced_app; [by apply balanced_plain, quiet_no_paren|].
  apply balanced_app; [|done]. apply balanced_parens. by apply balanced_plain, quiet_no_paren, path_quiet.
Qed.

End calls.

Lemma access_call h p tail : access h p (41%N :: tail) = call_text (source_text h) p tail.
Proof. unfold call_text, parens. destruct h; simpl; by rewrite <- !app_assoc. Qed.

Lemma time_access_call f tz tail : time_access f tz (41%N :: tail) = call_text f tz tail.
Proof. unfold call_text, parens, time_access. simpl. by rewrite <- !app_assoc. Qed.

Lemma source_quiet h : Forall quiet (source_text h) ∧ last (source_text h) ≠ Some 32%N.
Proof. destruct h; (split; [repeat constructor; done|done]). Qed.

Lemma time_func_quiet f :
  f ∈ TIME_FUNCS → Forall quiet f ∧ last f ≠ Some 32%N ∧ ∃ c, head f = Some c ∧ is_ws c = false.
Proof.
  intros Hf.
  repeat (apply elem_of_cons in Hf as [->|Hf]; [split_and!; [repeat constructor; done|done|by eexists]|]).
  by apply elem_of_nil in Hf.
Qed.

(** A text that starts like a call and ends with a given unit is trimmed. *)
Lemma call_trimmed name p tail c d :
  head name = Some c → is_ws c = false → last tail = Some d → is_ws d = false →
  trimmed (call_text name p tail).
Proof.
  intros Hc Hwc Hd Hwd. apply (trimmed_ends _ c d); [..|done|done].
  - unfold call_text. by destruct name.
  - unfold call_text. destruct tail as [|x tail] using rev_ind; [done|].
    rewrite last_snoc in Hd. rewrite !app_assoc, last_snoc. done.
Qed.

(** A comparison with a quiet tail, as a piece once it parses. *)
Lemma call_piece name p tail d c :
  Forall quiet name → last name ≠ Some 32%N →
  (∃ x, head name = Some x ∧ is_ws x = false) → path_ok p = true →
  Forall quiet tail → last tail = Some d → is_ws d = false →
  tryParseRequestCondition (call_text name p tail) = Ok (Some c) →
  piece (call_text name p tail) c.
Proof.
  intros Hn Hl (x & Hx & Hwx) Hp Ht Hd Hwd Hc. split; [|by eapply call_trimmed| | |done].
  - by destruct name.
  - apply call_atom; [done..|]. apply scan_atom_quiet; [done|]. rewrite Hd. by intros [= ->].
  - apply call_balanced; [done..|]. by apply balanced_plain, quiet_no_paren.
Qed.

(** ** Conditions that survive the round trip *)

(** A condition the builder writes and the parser reads: a known mode that is not one of
    the comparisons of a parameter, texts free of the units the scanners look for, and
    numbers where numbers are wanted. *)
Definition readable (c : RequestCondition) : bool :=
  match c with
  | TimeCondition f tz m v s e =>
      bool_decide (f ∈ TIME_FUNCS) && path_ok tz &&
      (if bool_decide (m = MATCH_RANGE) then is_numeric (trim s) && is_numeric (trim e)
       else bool_decide (m ∈ [MATCH_EQ; MATCH_GTE; MATCH_LT]) && is_numeric (trim v))
  | ParamHeaderCondition h p m v =>
      path_ok (trim p) &&
      (bool_decide (m = MATCH_EXISTS) ||
       (bool_decide (m = MATCH_EQ) || h && bool_decide (m = MATCH_CONTAINS)) && value_ok (trim v))
  end.

(** What is read back: the same condition with its texts trimmed, and without the fields
    its mode does not use. *)
Definition canon (c : RequestCondition) : RequestCondition :=
  match c with
  | TimeCondition f tz m v s e =>
      if bool_decide (m = MATCH_RANGE) then TimeCondition f tz m [] (trim s) (trim e)
      else TimeCondition f tz m (trim v) [] []
  | ParamHeaderCondition h p m v =>
      ParamHeaderCondition h (trim p) m (if bool_decide (m = MATCH_EXISTS) then [] else trim v)
  end.

Lemma normalized_mode_in s m d : m ∈ match_modes s → normalized_mode s (Some m) d = m.
Proof. intros H. unfold normalized_mode. by rewrite bool_decide_eq_true_2. Qed.

Lemma str_or_id s : str_or (Some s) [] = s.
Proof. by destruct s. Qed.

Lemma normalize_param_header (h : bool) p m v :
  m ∈ match_modes (if h then SOURCE_HEADER else SOURCE_PARAM) →
  normalizeCondition (Some (as_partial (ParamHeaderCondition h p m v))) = ParamHeaderCondition h p m v.
Proof.
  intros Hm. unfold normalizeCondition. cbn [default as_partial]. unfold id.
  replace (normalized_source _) with (if h then SOURCE_HEADER else SOURCE_PARAM) by by destruct h.
  cbn [pc_path pc_mode pc_value]. by destruct h; rewrite str_or_id, normalized_mode_in.
Qed.

Lemma normalize_time f tz m v s e :
  f ∈ TIME_FUNCS → tz ≠ [] → m ∈ match_modes SOURCE_TIME →
  normalizeCondition (Some (as_partial (TimeCondition f tz m v s e))) = TimeCondition f tz m v s e.
Proof.
  intros Hf Htz Hm. unfold normalizeCondition. cbn [default as_partial]. unfold id.
  replace (normalized_source _) with SOURCE_TIME by done.
  cbn [pc_timeFunc pc_timezone pc_mode pc_value pc_rangeStart pc_rangeEnd default].
  rewrite normalized_mode_in by done. unfold isTimeFunc. rewrite bool_decide_eq_true_2 by done.
  by destruct tz.
Qed.

Lemma includes_absent c w s : c ∈ w → c ∉ s → includes w s = false.
Proof.
  intros Hw Hs. unfold includes. destruct (index_of w s) as [i|] eqn:E; [|done].
  apply index_of_Some in E as [t Ht]. destruct Hs. rewrite <- (take_drop i s), Ht. set_solver.
Qed.

Lemma includes_app_mid w s : (∃ u v, s = u ++ w ++ v) → includes w s = true.
Proof.
  intros (u & v & ->). unfold includes. destruct (index_of w (u ++ w ++ v)) eqn:E; [done|].
  rewrite index_of_None in E. destruct (E (length u)). rewrite drop_app_length. by exists v.
Qed.

Lemma wrap_or_quiet e : 124%N ∉ e → wrap_or e = e.
Proof. intros H. unfold wrap_or. by rewrite (includes_absent 124) by (done || by vm_compute; set_solver). Qed.

Lemma quiet_bar l : Forall quiet l → 124%N ∉ l.
Proof. intros H Hin. rewrite Forall_forall in H. by apply H in Hin as (_ & _ & ?). Qed.

Lemma call_bar name p tail :
  Forall quiet name → path_ok p = true → 124%N ∉ tail → 124%N ∉ call_text name p tail.
Proof.
  intros Hn%quiet_bar Hp%path_quiet%quiet_bar Ht. unfold call_text, parens. set_solver.
Qed.

(** A condition with an access and a quiet tail: the piece, and nothing to wrap. *)
Lemma access_piece h p tail d c :
  path_ok p = true → Forall quiet tail → last tail = Some d → is_ws d = false →
  tryParseRequestCondition (access h p (41%N :: tail)) = Ok (Some c) →
  piece (access h p (41%N :: tail)) c ∧ wrap_or (access h p (41%N :: tail)) = access h p (41%N :: tail).
Proof.
  rewrite access_call. intros Hp Ht Hd Hwd Hc. destruct (source_quiet h) as [Hs1 Hs2]. split.
  - eapply call_piece; try done. destruct h; by eexists.
  - by apply wrap_or_quiet, call_bar, quiet_bar.
Qed.

Lemma path_ok_ne p : path_ok p = true → p ≠ [].
Proof. by intros (? & _)%path_ok_quote. Qed.

(** The text the builder writes, mode by mode. *)
Section texts.
Context (p v : jsstring) (Hp : path_ok (trim p) = true).

#[local] Ltac start_text :=
  unfold param_header_expr;
  let Hne := fresh in pose proof (path_ok_ne _ Hp) as Hne;
  destruct (trim p) as [|c t] eqn:E; [done|]; cbv zeta; rewrite <- E in *; clear E;
  rewrite ?bool_decide_eq_false_2 by done; rewrite ?bool_decide_eq_true_2 by done.

Lemma exists_text h :
  param_header_expr h p MATCH_EXISTS v =
  access h (trim p) (41%N :: if h then js " != " ++ [34; 34]%N else js " != nil").
Proof.
  start_text. destruct h; rewrite <- !app_assoc;
    [by apply (quoted_access true)|by apply (quoted_access false)].
Qed.

Lemma equality_text h :
  param_header_expr h p MATCH_EQ v =
  access h (trim p) (41%N :: js " == " ++ buildExprLiteral MATCH_EQ v).
Proof. start_text. rewrite <- !app_assoc. by apply (quoted_access h). Qed.

Lemma has_header_text :
  param_header_expr true p MATCH_CONTAINS v =
  js "has(" ++ access true (trim p) (js "), " ++ JSON_quote (trim v) ++ js ")").
Proof. start_text. rewrite <- !app_assoc. f_equal. by apply (quoted_access true). Qed.

(** The comparisons of a parameter join two halves. *)
Lemma has_param_text :
  param_header_expr false p MATCH_CONTAINS v =
  access false (trim p) (41%N :: js " != nil") ++ js " && " ++
  js "has(" ++ access false (trim p) (js "), " ++ JSON_quote (trim v) ++ js ")").
Proof.
  start_text. rewrite <- !app_assoc, <- !(quoted_access false) by done. by rewrite <- !app_assoc.
Qed.

Lemma cmp_param_text m :
  m ∈ [MATCH_GT; MATCH_GTE; MATCH_LT; MATCH_LTE] → is_numeric (trim v) = true →
  param_header_expr false p m v =
  access false (trim p) (41%N :: js " != nil") ++ js " && " ++
  access false (trim p) (js ") " ++ cmp_mode_op m ++ js " " ++ trim v).
Proof.
  intros Hm Hv. unfold param_header_expr. pose proof (path_ok_ne _ Hp) as Hne.
  destruct (trim p) as [|c t] eqn:E; [done|]. cbv zeta. rewrite <- E in *; clear E.
  unfold is_cmp_mode. rewrite (bool_decide_eq_true_2 (m ∈ _)), Hv by done. cbn [negb].
  rewrite !bool_decide_eq_false_2.
  - rewrite <- !app_assoc, <- !(quoted_access false) by done. by rewrite <- !app_assoc.
  - by intros ->; each_elem_done Hm.
  - by intros ->; each_elem_done Hm.
Qed.

End texts.

(** ** Every readable condition is a piece *)
Definition good_piece (e : jsstring) (c : RequestCondition) : Prop := piece e c ∧ piece (wrap_or e) c.

Lemma good_of_unwrapped e c : piece e c ∧ wrap_or e = e → good_piece e c.
Proof. intros [H He]. split; [done|by rewrite He]. Qed.

Lemma exists_piece h p v :
  path_ok (trim p) = true →
  good_piece (param_header_expr h p MATCH_EXISTS v) (ParamHeaderCondition h (trim p) MATCH_EXISTS []).
Proof.
  intros Hp. rewrite exists_text by done. apply good_of_unwrapped.
  destruct h; (eapply access_piece; [done|repeat constructor; done|done|done|]).
  - by apply (parse_header_exists (trim p)).
  - by apply (parse_param_exists (trim p)).
Qed.

Lemma equality_piece h p v :
  path_ok (trim p) = true → value_ok (trim v) = true →
  good_piece (param_header_expr h p MATCH_EQ v) (ParamHeaderCondition h (trim p) MATCH_EQ (trim v)).
Proof.
  intros Hp Hv. rewrite equality_text by done. apply good_of_unwrapped.
  destruct (build_literal v Hv) as [Hne Hq Hn Hl Hval].
  destruct (last (buildExprLiteral MATCH_EQ v)) as [d|] eqn:Ed;
    [|by apply last_None in Ed].
  eapply access_piece; [done| | |by apply Hl|].
  - apply Forall_app. split; [repeat constructor; done|done].
  - by rewrite last_app, Ed.
  - by apply (parse_equality (trim p) Hp h).
Qed.

(** The text of a [has] call with a quiet second argument. *)
Definition has_text (h : bool) (p t : jsstring) : jsstring :=
  js "has(" ++ access h p (js "), " ++ t ++ js ")").

Lemma has_call h p t :
  has_text h p t = js "has" ++ parens (call_text (source_text h) p (js ", " ++ t)).
Proof.
  rewrite <- access_call. unfold has_text, access, parens. cbn [app].
  change (js "has(") with (js "has" ++ [40%N]). rewrite <- !app_assoc. cbn [app].
  do 4 f_equal. rewrite <- !app_assoc. cbn [app]. by do 2 f_equal.
Qed.

Section has_facts.
Context (h : bool) (p t : jsstring) (Hp : path_ok p = true) (Ht : Forall quiet t).

#[local] Lemma has_inside : balanced (call_text (source_text h) p (js ", " ++ t)) = true.
Proof.
  destruct (source_quiet h) as [? ?]. apply call_balanced; [done..|].
  apply balanced_app; [done|by apply balanced_plain, quiet_no_paren].
Qed.

Lemma has_atom : scan_atom (js " && ") (has_text h p t).
Proof.
  rewrite has_call. apply scan_atom_app; [by apply scan_atom_quiet; [repeat constructor; done|done]|].
  apply scan_atom_parens; [apply sep_and|apply has_inside].
Qed.

Lemma has_balanced : balanced (has_text h p t) = true.
Proof.
  rewrite has_call. apply balanced_app; [by apply balanced_plain; repeat constructor; done|].
  apply balanced_parens, has_inside.
Qed.

Lemma has_trimmed : trimmed (has_text h p t).
Proof.
  rewrite has_call. apply (trimmed_ends _ 104%N 41%N); try done.
  unfold parens. rewrite app_comm_cons, app_assoc. by rewrite last_snoc.
Qed.

Lemma has_bar : 124%N ∉ has_text h p t.
Proof.
  rewrite has_call. destruct (source_quiet h) as [Hs _].
  pose proof (call_bar _ _ (js ", " ++ t) Hs Hp) as Hbar.
  assert (124%N ∉ js ", " ++ t) as Hb
    by (apply quiet_bar, Forall_app; split; [repeat constructor; done|done]).
  specialize (Hbar Hb). unfold parens. change (js "has") with [104; 97; 115]%N. set_solver.
Qed.

End has_facts.

Lemma quote_all_quiet v : value_ok v = true → Forall quiet (JSON_quote v).
Proof. intros H. eapply Forall_impl; [by apply quote_quiet|]. by intros c [? _]. Qed.

Lemma has_piece p v :
  path_ok (trim p) = true → value_ok (trim v) = true →
  good_piece (param_header_expr true p MATCH_CONTAINS v)
             (ParamHeaderCondition true (trim p) MATCH_CONTAINS (trim v)).
Proof.
  intros Hp Hv. rewrite has_header_text by done. apply good_of_unwrapped.
  pose proof (quote_all_quiet _ Hv) as Hq. fold (has_text true (trim p) (JSON_quote (trim v))).
  split; [split|]; [done|by apply has_trimmed|by apply has_atom|by apply has_balanced| |].
  - apply parse_header_has; [done|by apply value_ok_units].
  - by apply wrap_or_quiet, has_bar.
Qed.

Section time_texts.
Context (f tz v s e : jsstring) (Hf : f ∈ TIME_FUNCS) (Htz : path_ok tz = true).

#[local] Lemma quoted_time tail :
  (f ++ js "(" ++ JSON_quote tz ++ js ")") ++ tail = time_access f tz (41%N :: tail).
Proof.
  destruct (path_ok_quote _ Htz) as (_ & _ & Hq). unfold time_access, JSON_quote. rewrite Hq.
  rewrite <- !app_assoc. simpl. by rewrite <- !app_assoc.
Qed.

Lemma time_text m :
  m ∈ [MATCH_EQ; MATCH_GTE; MATCH_LT] → is_numeric (trim v) = true →
  time_expr f tz m v s e = time_access f tz (41%N :: js " " ++ time_mode_op m ++ js " " ++ trim v).
Proof.
  intros Hm Hv. unfold time_expr. rewrite bool_decide_eq_false_2 by (by intros ->; each_elem_done Hm).
  rewrite Hv. cbn [negb]. apply quoted_time.
Qed.

Lemma range_expr :
  is_numeric (trim s) = true → is_numeric (trim e) = true →
  time_expr f tz MATCH_RANGE v s e = range_text f tz (trim s) (trim e) [].
Proof.
  intros Hs He. unfold time_expr. rewrite bool_decide_eq_true_2, Hs, He by done. cbn [negb orb].
  rewrite quoted_time, quoted_time. unfold range_text. by rewrite app_nil_r.
Qed.

Lemma time_op_roundtrip m :
  m ∈ [MATCH_EQ; MATCH_GTE; MATCH_LT] →
  time_mode_op m ∈ js <$> ["=="; ">="; "<"]%string ∧ time_op_mode (time_mode_op m) = m ∧
  Forall quiet (time_mode_op m).
Proof.
  intros Hm. repeat (apply elem_of_cons in Hm as [->|Hm];
    [split_and!; [vm_compute; set_solver|done|repeat constructor; done]|]). by apply elem_of_nil in Hm.
Qed.

Lemma time_piece m :
  m ∈ [MATCH_EQ; MATCH_GTE; MATCH_LT] → is_numeric (trim v) = true →
  good_piece (time_expr f tz m v s e) (TimeCondition f tz m (trim v) [] []).
Proof.
  intros Hm Hv. rewrite time_text by done. destruct (time_op_roundtrip m Hm) as (Hop & Hback & Hopq).
  destruct (time_func_quiet f Hf) as (Hfq & Hfl & Hfh).
  assert (Forall quiet (js " " ++ time_mode_op m ++ js " " ++ trim v)) as Ht.
  { repeat (apply Forall_app; split); try done; try (repeat constructor; done). by apply numeric_quiet. }
  rewrite time_access_call. apply good_of_unwrapped. split.
  - destruct (last (trim v)) as [d|] eqn:Ed; [|by apply last_None in Ed; rewrite Ed in Hv].
    eapply call_piece; try done.
    + by rewrite !last_app, Ed.
    + by eapply numeric_last.
    + rewrite <- time_access_call. etransitivity; [by apply parse_time_cmp|]. by rewrite Hback.
  - apply wrap_or_quiet, call_bar; [done..|by apply quiet_bar].
Qed.

Lemma range_call a b :
  range_text f tz a b [] =
  call_text f tz (js " >= " ++ a ++ js " || " ++ call_text f tz (js " < " ++ b)).
Proof. unfold range_text. rewrite <- !time_access_call. by rewrite app_nil_r. Qed.

Lemma range_piece :
  is_numeric (trim s) = true → is_numeric (trim e) = true →
  good_piece (time_expr f tz MATCH_RANGE v s e) (TimeCondition f tz MATCH_RANGE [] (trim s) (trim e)).
Proof.
  intros Hs He. rewrite range_expr by done. destruct (time_func_quiet f Hf) as (Hfq & Hfl & Hfh).
  assert (balanced (range_text f tz (trim s) (trim e) []) = true) as Hbal.
  { rewrite range_call. apply call_balanced; [done..|].
    apply balanced_app; [done|]. apply balanced_app; [by apply balanced_plain, quiet_no_paren, numeric_quiet|].
    apply balanced_app; [done|]. apply call_balanced; [done..|].
    apply balanced_app; [done|]. by apply balanced_plain, quiet_no_paren, numeric_quiet. }
  split.
  - split; [| | |done|by apply parse_range].
    + unfold range_text, time_access. by destruct f.
    + rewrite range_call. destruct Hfh as (x & Hx & Hwx).
      destruct (last (trim e)) as [d|] eqn:Ed; [|by apply last_None in Ed; rewrite Ed in He].
      eapply call_trimmed; [done|done| |by eapply numeric_last].
      unfold call_text. by rewrite !last_app, Ed.
    + rewrite range_call. apply call_atom; [done..|].
      replace (js " >= " ++ trim s ++ js " || " ++ call_text f tz (js " < " ++ trim e)) with
        ((js " >= " ++ trim s ++ js " ||") ++ call_text (js " " ++ f) tz (js " < " ++ trim e))
        by (unfold call_text; by rewrite <- !app_assoc).
      apply scan_atom_app; [apply scan_atom_calm|apply call_atom].
      * repeat (apply Forall_app; split); try (repeat constructor; done). by apply quiet_calm, numeric_quiet.
      * by rewrite !last_app.
      * apply Forall_app. split; [repeat constructor; done|done].
      * rewrite last_app. destruct (last f) eqn:El; [done|]. apply last_None in El.
        rewrite El in Hfh. by destruct Hfh as (? & ? & _).
      * done.
      * apply scan_atom_quiet; [apply Forall_app; split; [repeat constructor; done|by apply numeric_quiet]|].
        rewrite last_app.
        destruct (last (trim e)) as [d|] eqn:Ed; [|by apply last_None in Ed; rewrite Ed in He].
        intros [= ->]. by destruct (numeric_last _ _ He Ed).
  - assert (wrap_or (range_text f tz (trim s) (trim e) []) = parens (range_text f tz (trim s) (trim e) []))
      as ->.
    { unfold wrap_or. rewrite includes_app_mid; [done|].
      exists (call_text f tz (js " >= " ++ trim s)), (call_text f tz (js " < " ++ trim e)).
      rewrite range_call. unfold call_text. by rewrite <- !app_assoc. }
    split; [done|apply parens_trimmed| |by apply balanced_parens|by apply parse_range_parens].
    apply scan_atom_parens; [apply sep_and|done].
Qed.

End time_texts.

Lemma build_piece c : readable c = true → good_piece (buildRequestConditionExpr c) (canon c).
Proof.
  destruct c as [f tz m v s e|h p m v]; unfold readable, canon; intros H.
  - apply andb_true_iff in H as [[Hf%bool_decide_eq_true Htz]%andb_true_iff H].
    unfold buildRequestConditionExpr, buildTimeConditionExpr.
    rewrite normalize_time; [|done|by apply path_ok_ne|].
    + destruct (bool_decide_reflect (m = MATCH_RANGE)) as [->|Hm]; boolify;
        [by apply range_piece|by apply time_piece].
    + destruct (bool_decide_reflect (m = MATCH_RANGE)) as [->|Hm]; boolify;
        [vm_compute; set_solver|].
      change (match_modes SOURCE_TIME) with [MATCH_EQ; MATCH_GTE; MATCH_LT; MATCH_RANGE]. set_solver.
  - apply andb_true_iff in H as [Hp H].
    assert (m ∈ match_modes (if h then SOURCE_HEADER else SOURCE_PARAM)) as Hm.
    { destruct h; [change (match_modes SOURCE_HEADER) with [MATCH_EQ; MATCH_CONTAINS; MATCH_EXISTS]|
        change (match_modes SOURCE_PARAM) with
          [MATCH_EQ; MATCH_CONTAINS; MATCH_EXISTS; MATCH_GT; MATCH_GTE; MATCH_LT; MATCH_LTE]];
      repeat match goal with
      | H : _ || _ = true |- _ => apply orb_true_iff in H as [H|H]
      | H : _ && _ = true |- _ => apply andb_true_iff in H as [H ?]
      | H : bool_decide _ = true |- _ => apply bool_decide_eq_true in H; subst
      end; try done; set_solver. }
    unfold buildRequestConditionExpr. rewrite normalize_param_header by done.
    destruct (bool_decide_reflect (m = MATCH_EXISTS)) as [->|Hne]; [by apply exists_piece|].
    cbn [orb] in H. apply andb_true_iff in H as [[->%bool_decide_eq_true|H]%orb_true_iff Hv];
      [by apply equality_piece|].
    apply andb_true_iff in H as [Hh ->%bool_decide_eq_true]. destruct h; [by apply has_piece|done].
Qed.

(** ** Groups and rules *)
Definition readable_group (g : RequestRuleGroup) : bool :=
  is_numeric (trim (multiplier g)) && bool_decide (conditions g ≠ []) && forallb readable (conditions g).

Definition canon_group (g : RequestRuleGroup) : RequestRuleGroup :=
  {| conditions := canon <$> conditions g; multiplier := trim (multiplier g) |}.

Lemma pieces_balanced ps cs : Forall2 piece ps cs → balanced (join (js " && ") ps) = true.
Proof.
  intros H. induction H as [|e c ps cs He H IH]; [done|]. destruct ps as [|e' ps]; [apply He|].
  change (join (js " && ") (e :: e' :: ps)) with (e ++ js " && " ++ join (js " && ") (e' :: ps)).
  apply balanced_app; [apply He|]. by apply balanced_app.
Qed.

Lemma pieces_split ps cs : Forall2 piece ps cs → ps ≠ [] → splitTopLevelAnd (join (js " && ") ps) = ps.
Proof.
  intros H Hne. apply split_top_join; [apply sep_and| | |done].
  - eapply Forall2_Forall_l; [done|]. apply Forall_forall. intros c _ e He. apply He.
  - eapply Forall2_Forall_l; [done|]. apply Forall_forall. intros c _ e He. split; apply He.
Qed.

Lemma pieces_parse ps cs :
  Forall2 piece ps cs → parse_each (λ ap, tryParseRequestCondition (trim ap)) ps = Ok (Some cs).
Proof.
  intros H. induction H as [|e c ps cs He H IH]; [done|]. cbn [parse_each].
  rewrite trim_trimmed by apply He. rewrite (pc_parse _ _ He). cbn. by rewrite IH.
Qed.

Lemma pieces_join_ne ps cs : Forall2 piece ps cs → ps ≠ [] → join (js " && ") ps ≠ [].
Proof.
  intros H Hne. destruct H as [|e c ps cs He H]; [done|].
  pose proof (pc_ne _ _ He). destruct ps as [|e' ps]; [done|].
  change (join (js " && ") (e :: e' :: ps)) with (e ++ js " && " ++ join (js " && ") (e' :: ps)).
  by destruct e.
Qed.

(** The factor of a list of pieces is read as the group of their conditions. *)
Definition factor_inside (ps : list jsstring) (m : jsstring) : jsstring :=
  join (js " && ") ps ++ js " ? " ++ m ++ js " : 1".

Lemma factor_parens ps m :
  js "(" ++ join (js " && ") ps ++ js " ? " ++ m ++ js " : 1)" = parens (factor_inside ps m).
Proof. unfold parens, factor_inside. by rewrite <- !app_assoc. Qed.

Lemma parse_factor ps cs m :
  Forall2 piece ps cs → ps ≠ [] → is_numeric m = true →
  tryParseRuleGroupFactor (parens (factor_inside ps m)) = Ok (Some {| conditions := cs; multiplier := m |}).
Proof.
  intros H Hne Hm. rewrite <- factor_parens. unfold tryParseRuleGroupFactor.
  rewrite match_FACTOR by (done || by eapply pieces_join_ne).
  change (group_text [(1, ?w); (2, m)] 1) with w. rewrite (pieces_split _ _ H Hne), (pieces_parse _ _ H).
  cbn. destruct H; [done|]. done.
Qed.

Lemma factor_balanced ps cs m :
  Forall2 piece ps cs → is_numeric m = true → balanced (factor_inside ps m) = true.
Proof.
  intros H Hm. unfold factor_inside. apply balanced_app; [by eapply pieces_balanced|].
  apply balanced_app; [done|]. apply balanced_app; [|done].
  by apply balanced_plain, quiet_no_paren, numeric_quiet.
Qed.

(** The factor a readable group builds. *)
Lemma group_factor g :
  readable_group g = true →
  ∃ x, buildRuleGroupFactor g = parens x ∧ balanced x = true ∧
       tryParseRuleGroupFactor (parens x) = Ok (Some (canon_group g)).
Proof.
  unfold readable_group. intros [[Hm Hne%bool_decide_eq_true]%andb_true_iff Hr%forallb_Forall]%andb_true_iff.
  assert (Forall2 good_piece (buildRequestConditionExpr <$> conditions g) (canon <$> conditions g)) as Hg.
  { apply Forall2_fmap. clear Hne. induction Hr as [|c cs Hc Hr IH]; constructor; auto using build_piece. }
  assert (∃ ps, Forall2 piece ps (canon <$> conditions g) ∧ ps ≠ [] ∧
    buildRuleGroupFactor g = parens (factor_inside ps (trim (multiplier g)))) as (ps & Hps & Hpne & ->).
  { unfold buildRuleGroupFactor. rewrite Hm. cbn [negb]. rewrite filter_all.
    2: { eapply Forall2_Forall_l; [done|]. apply Forall_forall. intros c _ e [He _]. apply He. }
    destruct (conditions g) as [|c1 [|c2 cs]]; [done| |].
    - exists [buildRequestConditionExpr c1]. split_and!; [|done|by rewrite <- factor_parens].
      inversion Hg; subst. constructor; [|constructor]. by destruct H2.
    - exists (wrap_or <$> (buildRequestConditionExpr <$> c1 :: c2 :: cs)).
      split_and!; [|done|by rewrite <- factor_parens].
      apply Forall2_fmap_l. eapply Forall2_impl; [done|]. by intros e c [_ ?]. }
  exists (factor_inside ps (trim (multiplier g))). split_and!; [done|by eapply factor_balanced|].
  by apply parse_factor.
Qed.

Lemma groups_factors gs :
  forallb readable_group gs = true →
  ∃ xs, buildRuleGroupFactor <$> gs = parens <$> xs ∧ Forall (λ x, balanced x = true) xs ∧
        parse_each tryParseRuleGroupFactor (parens <$> xs) = Ok (Some (canon_group <$> gs)).
Proof.
  induction gs as [|g gs IH]; intros H; [by exists []|]. cbn [forallb] in H.
  apply andb_true_iff in H as [(x & Hx & Hb & Hp)%group_factor (xs & Hxs & Hbs & Hps)%IH].
  exists (x :: xs). split_and!; [|by constructor|].
  - by rewrite !fmap_cons, Hx, Hxs.
  - rewrite !fmap_cons. cbn [parse_each]. rewrite Hp. cbn. by rewrite Hps.
Qed.

(** A product of parenthesised factors. *)
Definition product (xs : list jsstring) : jsstring := join (js " * ") (parens <$> xs).

Lemma product_ends xs : xs ≠ [] → head (product xs) = Some 40%N ∧ last (product xs) = Some 41%N.
Proof.
  intros Hne. split.
  - destruct xs as [|x [|y xs]]; done.
  - induction xs as [|x xs IH]; [done|]. unfold product in *. rewrite fmap_cons.
    destruct xs as [|y xs].
    + unfold parens. cbn [fmap list_fmap join]. by rewrite app_comm_cons, last_snoc.
    + rewrite fmap_cons in *.
      change (join (js " * ") (parens x :: ?y :: ?l)) with (parens x ++ js " * " ++ join (js " * ") (y :: l)).
      rewrite !last_app, IH; done.
Qed.

Lemma product_trim xs : trim (product xs) = product xs.
Proof.
  destruct (decide (xs = [])) as [->|Hne]; [done|]. destruct (product_ends xs Hne) as [H1 H2].
  apply trim_trimmed. by apply (trimmed_ends _ 40%N 41%N).
Qed.

Lemma product_split xs :
  Forall (λ x, balanced x = true) xs → xs ≠ [] → splitTopLevelMultiply (product xs) = parens <$> xs.
Proof.
  intros Hb Hne. apply split_top_join; [apply sep_multiply| | |by destruct xs].
  - apply Forall_fmap. eapply Forall_impl; [done|]. intros x Hx.
    by apply scan_atom_parens; [apply sep_multiply|].
  - apply Forall_fmap, Forall_forall. intros x _. apply parens_trimmed.
Qed.

Lemma build_product gs :
  forallb readable_group gs = true →
  ∃ xs, buildRequestRuleExpr gs = product xs ∧ Forall (λ x, balanced x = true) xs ∧
        (xs = [] ↔ gs = []) ∧
        parse_each tryParseRuleGroupFactor (parens <$> xs) = Ok (Some (canon_group <$> gs)).
Proof.
  intros (xs & Hxs & Hb & Hp)%groups_factors. exists xs. split_and!; [|done| |done].
  - unfold buildRequestRuleExpr, product. rewrite Hxs. f_equal.
    apply filter_all, Forall_fmap, Forall_forall. by intros x _.
  - split; intros ->; [by destruct gs|by destruct xs].
Qed.

Lemma rule_expr_eq e :
  trim e ≠ [] →
  tryParseRequestRuleExpr e = parse_each tryParseRuleGroupFactor (splitTopLevelMultiply (trim e)).
Proof. unfold tryParseRequestRuleExpr. by destruct (trim e). Qed.

(** C17: request rules survive the round trip through their expression: for groups whose
    conditions are readable, parsing what the builder wrote gives the groups back, with
    their texts trimmed, in the same order, and throws nothing. *)
Theorem request_rules_roundtrip gs :
  forallb readable_group gs = true →
  tryParseRequestRuleExpr (buildRequestRuleExpr gs) = Ok (Some (canon_group <$> gs)).
Proof.
  intros (xs & -> & Hb & Hnil & Hp)%build_product.
  destruct (decide (xs = [])) as [->|Hne]; [by rewrite (proj1 Hnil eq_refl)|].
  destruct (product_ends xs Hne) as [Hh _]. rewrite rule_expr_eq, product_trim, product_split; try done.
  rewrite product_trim. by destruct (product xs).
Qed.

(** The groups of an editor with a header, a parameter, a night and a weekday. *)
Definition sample_groups : list RequestRuleGroup :=
  [ {| conditions :=
         [ ParamHeaderCondition true (js "X-Tier ") MATCH_EQ (js "pro plan");
           ParamHeaderCondition false (js "stream") MATCH_EXISTS [];
           TimeCondition (js "hour") (js "Asia/Shanghai") MATCH_RANGE [] (js "22") (js " 6") ];
       multiplier := js "0.5" |};
    {| conditions := [ TimeCondition (js "weekday") (js "UTC") MATCH_GTE (js "6") [] [] ];
       multiplier := js "1.25" |};
    {| conditions := [ ParamHeaderCondition true (js "User-Agent") MATCH_CONTAINS (js "curl/8 * 2") ];
       multiplier := js "2" |} ].

Lemma request_rules_roundtrip_witness :
  tryParseRequestRuleExpr (buildRequestRuleExpr sample_groups) = Ok (Some (canon_group <$> sample_groups)).
Proof. apply (request_rules_roundtrip sample_groups). vm_compute. reflexivity. Defined.

(** ** A base expression and its rules *)
Lemma rule_part x g :
  balanced x = true → tryParseRuleGroupFactor (parens x) = Ok (Some g) → is_rule_part (parens x) = Ok true.
Proof.
  intros Hb Hg. pose proof (product_trim [x] : trim (parens x) = parens x) as Ht.
  unfold is_rule_part. rewrite rule_expr_eq, Ht by by rewrite Ht.
  rewrite (product_split [x] (proj2 (Forall_singleton _ _) Hb) ltac:(done) : splitTopLevelMultiply (parens x) = [parens x]).
  cbn [parse_each]. by rewrite Hg.
Qed.

Lemma sort_rule_parts xs gs :
  parse_each tryParseRuleGroupFactor (parens <$> xs) = Ok (Some gs) →
  Forall (λ x, balanced x = true) xs → sort_parts (parens <$> xs) = Ok (parens <$> xs, []).
Proof.
  intros Hp Hb. revert gs Hp. induction Hb as [|x xs Hx Hb IH]; intros gs Hp; [done|].
  rewrite fmap_cons in *. cbn [parse_each sort_parts] in *.
  destruct (tryParseRuleGroupFactor (parens x)) as [[g|]|] eqn:E; cbn in Hp; try done.
  rewrite (rule_part x g) by done.
  destruct (parse_each tryParseRuleGroupFactor (parens <$> xs)) as [[l|]|] eqn:El; cbn in Hp; try done.
  cbn. by rewrite (IH l).
Qed.

(** *** Outer parentheses *)
Lemma outer_inside d x t : bal_scan d x = true → (0 <= d)%Z → outer_scan (d + 1) (x ++ t) = outer_scan 1 t.
Proof.
  revert d. induction x as [|c x IH]; simpl; intros d H Hd; boolify.
  - by subst.
  - rewrite paren_depth_shift, (proj2 (Z.eqb_neq (paren_depth c d + 1) 0)) by lia. by apply IH.
Qed.

Lemma hasFullOuterParens_parens x : balanced x = true → hasFullOuterParens (parens x) = true.
Proof.
  intros Hx. unfold hasFullOuterParens.
  rewrite !bool_decide_eq_true_2; [|unfold parens; by rewrite app_comm_cons, last_snoc|done].
  cbn [negb orb]. unfold parens. cbn [outer_scan]. change (paren_depth 40 0) with (0 + 1)%Z.
  change ((0 + 1 =? 0)%Z) with false. cbn [andb]. by rewrite outer_inside.
Qed.

Lemma slice_parens x : slice_inner (parens x) = x.
Proof.
  unfold slice_inner, parens. cbn [drop]. rewrite length_cons, length_app. simpl.
  replace (length x + 1 - 1)%nat with (length x) by lia. apply take_app_length.
Qed.

Lemma trim_length s : length (trim s) <= length s.
Proof.
  unfold trim. destruct (trim_end_prefix (trim_start s)) as [k2 Hk%(f_equal length)].
  destruct (trim_start_suffix s) as [k1 Hk1%(f_equal length)].
  rewrite length_app in *. lia.
Qed.

Lemma slice_inner_length s : s ≠ [] → length (slice_inner s) < length s.
Proof. intros H. unfold slice_inner. rewrite length_take, length_drop. destruct s; [done|]. simpl. lia. Qed.

Lemma outer_parens_ne s : hasFullOuterParens s = true → s ≠ [].
Proof. by intros H ->. Qed.

(** The loop that strips parentheses ends: more fuel than the text is long changes
    nothing. *)
Lemma unwrap_loop_fuel n1 n2 s : length s < n1 → length s < n2 → unwrap_loop n1 s = unwrap_loop n2 s.
Proof.
  revert n2 s. induction n1 as [|n1 IH]; intros n2 s H1 H2; [lia|]. destruct n2 as [|n2]; [lia|].
  cbn [unwrap_loop]. destruct (hasFullOuterParens s) eqn:E; [|done].
  pose proof (slice_inner_length s (outer_parens_ne s E)). pose proof (trim_length (slice_inner s)).
  apply IH; lia.
Qed.

Lemma unwrap_parens b :
  balanced (trim b) = true → unwrapOuterParens (parens (trim b)) = unwrapOuterParens b.
Proof.
  intros Hb. unfold unwrapOuterParens.
  rewrite (trim_trimmed (parens (trim b))) by apply parens_trimmed.
  change (unwrap_loop (S ?n) (parens ?x)) with
    (if hasFullOuterParens (parens x) then unwrap_loop n (trim (slice_inner (parens x))) else parens x).
  rewrite hasFullOuterParens_parens, slice_parens, trim_idemp by done.
  pose proof (trim_length b). apply unwrap_loop_fuel; [|lia].
  unfold parens. rewrite length_cons, length_app. lia.
Qed.

(** *** Combining and splitting *)
Lemma combine_product baseExpr xs :
  trim baseExpr ≠ [] → xs ≠ [] → combineBillingExpr baseExpr (product xs) = product (trim baseExpr :: xs).
Proof.
  intros Hb Hx. unfold combineBillingExpr. rewrite product_trim.
  destruct (product_ends xs Hx) as [Hh _].
  destruct (trim baseExpr) as [|c t] eqn:E; [done|]. destruct (product xs) as [|d u] eqn:Ex; [done|].
  rewrite <- Ex. unfold product. rewrite fmap_cons.
  destruct xs as [|y ys]; [done|]. rewrite fmap_cons.
  change (join (js " * ") (parens (c :: t) :: ?a :: ?l)) with (parens (c :: t) ++ js " * " ++ join (js " * ") (a :: l)).
  change (parens (c :: t)) with (js "(" ++ (c :: t) ++ js ")"). by rewrite <- !app_assoc.
Qed.

(** C19: a base expression and its rules survive being combined into one expression and
    split again: for a base with balanced parentheses that is not itself a rule, and
    readable rules, the base comes back without its redundant outer parentheses and the
    rules come back as the builder wrote them. *)
Theorem combine_split_roundtrip baseExpr gs :
  trim baseExpr ≠ [] → balanced (trim baseExpr) = true →
  is_rule_part (parens (trim baseExpr)) = Ok false →
  gs ≠ [] → forallb readable_group gs = true →
  splitBillingExprAndRequestRules (combineBillingExpr baseExpr (buildRequestRuleExpr gs)) =
  Ok {| billingExpr := unwrapOuterParens baseExpr; requestRuleExpr := buildRequestRuleExpr gs |}.
Proof.
  intros Hne Hbal Hbase Hgs (xs & -> & Hb & Hnil & Hp)%build_product.
  assert (xs ≠ []) as Hxs by (intros ->; by apply Hgs, Hnil).
  rewrite combine_product by done. unfold splitBillingExprAndRequestRules. rewrite product_trim.
  destruct (product_ends (trim baseExpr :: xs) ltac:(done)) as [Hh _].
  destruct (product (trim baseExpr :: xs)) as [|c t] eqn:E; [done|]. rewrite <- E.
  rewrite product_split by (done || by constructor). rewrite fmap_cons.
  rewrite (proj2 (Nat.leb_gt _ 1)) by (rewrite length_cons, length_fmap; destruct xs; simpl; [done|lia]).
  cbn [sort_parts]. rewrite Hbase, (sort_rule_parts _ _ Hp Hb).
  unfold mbind, res_bind. cbn [fst snd]. rewrite unwrap_parens by done.
  by destruct xs.
Qed.

Definition sample_base : jsstring := js "tier(" ++ [34%N] ++ js "base" ++ [34%N] ++ js ", p * 2.5 + c * 10)".

Lemma combine_split_roundtrip_witness :
  splitBillingExprAndRequestRules (combineBillingExpr sample_base (buildRequestRuleExpr sample_groups)) =
  Ok {| billingExpr := unwrapOuterParens sample_base; requestRuleExpr := buildRequestRuleExpr sample_groups |}.
Proof.
  apply combine_split_roundtrip; [by vm_compute|by vm_compute|by vm_compute|done|by vm_compute].
Defined.

(** Stripping outer parentheses ends and leaves none: the result of
    [unwrapOuterParens] has no full outer parentheses, and stripping again changes
    nothing. *)
Theorem unwrap_complete e :
  hasFullOuterParens (unwrapOuterParens e) = false ∧
  unwrapOuterParens (unwrapOuterParens e) = unwrapOuterParens e.
Proof.
  assert (∀ n s, length s < n → trim s = s →
    hasFullOuterParens (unwrap_loop n s) = false ∧ trim (unwrap_loop n s) = unwrap_loop n s) as H.
  { induction n as [|n IH]; intros s Hn Hs; [lia|]. cbn [unwrap_loop].
    destruct (hasFullOuterParens s) eqn:E; [|done].
    pose proof (slice_inner_length s (outer_parens_ne s E)). pose proof (trim_length (slice_inner s)).
    apply IH; [lia|apply trim_idemp]. }
  destruct (H (S (length e)) (trim e)) as [H1 H2]; [pose proof (trim_length e); lia|apply trim_idemp|].
  fold (unwrapOuterParens e) in H1, H2. split; [done|].
  unfold unwrapOuterParens at 1. rewrite H2. cbn [unwrap_loop]. by rewrite H1.
Qed.

(** ** Conditions that are lost *)

(** The second half of a condition that repeats a parameter. *)
Definition second_half (p m v : jsstring) : jsstring :=
  if bool_decide (m = MATCH_CONTAINS) then js "has(" ++ access false p (js "), " ++ JSON_quote v ++ js ")")
  else access false p (js ") " ++ cmp_mode_op m ++ js " " ++ v).

Definition PARAM_PAIR_MODES : list jsstring :=
  [MATCH_CONTAINS; MATCH_GT; MATCH_GTE; MATCH_LT; MATCH_LTE].

Lemma cmp_ops m :
  m ∈ PARAM_PAIR_MODES → m ≠ MATCH_CONTAINS →
  cmp_mode_op m ∈ js <$> [">"; ">="; "<"; "<="]%string ∧ Forall quiet (cmp_mode_op m).
Proof.
  intros Hm Hne. apply elem_of_cons in Hm as [?|Hm]; [done|].
  repeat (apply elem_of_cons in Hm as [->|Hm]; [split; [vm_compute; set_solver|repeat constructor; done]|]).
  by apply elem_of_nil in Hm.
Qed.

Lemma second_half_None p m v :
  path_ok p = true → m ∈ PARAM_PAIR_MODES → tryParseRequestCondition (second_half p m v) = Ok None.
Proof.
  intros Hp Hm. unfold second_half. destruct (bool_decide_reflect (m = MATCH_CONTAINS)) as [->|Hne].
  - by apply parse_param_has_None.
  - by apply parse_param_cmp_None, cmp_ops.
Qed.

(** A value the second half can hold: a number, or a text for [contains]. *)
Definition pair_value_ok (m v : jsstring) : bool :=
  if bool_decide (m = MATCH_CONTAINS) then value_ok v else is_numeric v.

Lemma second_half_atom p m v :
  path_ok p = true → m ∈ PARAM_PAIR_MODES → pair_value_ok m v = true →
  scan_atom (js " && ") (second_half p m v) ∧ trimmed (second_half p m v) ∧ second_half p m v ≠ [].
Proof.
  intros Hp Hm Hv. unfold second_half, pair_value_ok in *. destruct (source_quiet false) as [Hs1 Hs2].
  destruct (bool_decide_reflect (m = MATCH_CONTAINS)) as [->|Hne].
  - pose proof (quote_all_quiet _ Hv) as Hq. fold (has_text false p (JSON_quote v)).
    split_and!; [by apply has_atom|by apply has_trimmed|done].
  - destruct (cmp_ops m Hm Hne) as [_ Hq].
    change (js ") " ++ ?t) with (41%N :: js " " ++ t). rewrite access_call.
    destruct (last v) as [d|] eqn:Ed; [|by apply last_None in Ed; rewrite Ed in Hv].
    destruct (numeric_last v d Hv Ed) as [Hd1 Hd2].
    assert (last (js " " ++ cmp_mode_op m ++ js " " ++ v) = Some d) as Hl by by rewrite !last_app, Ed.
    split_and!; [| |done].
    + apply call_atom; [done..|]. apply scan_atom_quiet.
      * repeat (apply Forall_app; split); try done; try (repeat constructor; done). by apply numeric_quiet.
      * rewrite Hl. congruence.
    + by eapply call_trimmed.
Qed.

Lemma pair_text p m v :
  path_ok (trim p) = true → m ∈ PARAM_PAIR_MODES → pair_value_ok m (trim v) = true →
  buildRequestConditionExpr (ParamHeaderCondition false p m v) =
  join (js " && ") [access false (trim p) (41%N :: js " != nil"); second_half (trim p) m (trim v)].
Proof.
  intros Hp Hm Hv. unfold buildRequestConditionExpr.
  rewrite normalize_param_header.
  2: { revert Hm. unfold PARAM_PAIR_MODES. change (match_modes SOURCE_PARAM) with
         [MATCH_EQ; MATCH_CONTAINS; MATCH_EXISTS; MATCH_GT; MATCH_GTE; MATCH_LT; MATCH_LTE]. set_solver. }
  unfold second_half, pair_value_ok in *.
  destruct (bool_decide_reflect (m = MATCH_CONTAINS)) as [->|Hne]; [by apply has_param_text|].
  apply cmp_param_text; [done| |done]. by apply elem_of_cons in Hm as [?|?].
Qed.

(** A rule group whose only condition compares a parameter (contains, or one of the
    four orderings) is never read back: the parser splits the condition at the
    conjunction the builder itself wrote, and refuses its second half. *)
Theorem param_comparison_lost p m v mult :
  path_ok (trim p) = true → m ∈ PARAM_PAIR_MODES → pair_value_ok m (trim v) = true →
  is_numeric (trim mult) = true →
  tryParseRuleGroupFactor (buildRuleGroupFactor
    {| conditions := [ParamHeaderCondition false p m v]; multiplier := mult |}) = Ok None.
Proof.
  intros Hp Hm Hv Hmult. unfold buildRuleGroupFactor. cbn [multiplier conditions].
  rewrite Hmult. cbn [negb fmap list_fmap]. rewrite pair_text by done.
  destruct (second_half_atom _ m _ Hp Hm Hv) as (Ha & Ht & Hne).
  set (A := access false (trim p) (41%N :: js " != nil")).
  destruct (exists_piece false p v Hp) as [HA _]. rewrite exists_text in HA by done. fold A in HA.
  rewrite filter_all.
  2: { constructor; [|constructor]. cbn [join]. pose proof (pc_ne _ _ HA). by destruct A. }
  unfold tryParseRuleGroupFactor.
  rewrite match_FACTOR; [|cbn [join]; pose proof (pc_ne _ _ HA); by destruct A|done].
  change (group_text [(1, ?w); (2, trim mult)] 1) with w. unfold splitTopLevelAnd.
  rewrite split_top_join; [|apply sep_and|..|done].
  - cbn [parse_each]. rewrite (trim_trimmed A) by apply HA. rewrite (pc_parse _ _ HA).
    rewrite (trim_trimmed (second_half _ _ _)), second_half_None by done. done.
  - apply Forall_cons. split; [apply HA|]. by apply Forall_singleton.
  - apply Forall_cons. split; [split; apply HA|]. by apply Forall_singleton.
Qed.

Lemma param_comparison_lost_witness :
  tryParseRuleGroupFactor (buildRuleGroupFactor
    {| conditions := [ParamHeaderCondition false (js "n") MATCH_GTE (js "4")]; multiplier := js "2" |})
  = Ok None.
Proof. apply param_comparison_lost; [by vm_compute|in_list|by vm_compute|by vm_compute]. Defined.

(** ** Errors *)

(** A header condition on the text of one escape. *)
Definition escape_condition (p : jsstring) (c : N) : jsstring :=
  has_text true p (34%N :: [92%N; c] ++ [34%N]).

Lemma escape_condition_throws p c :
  path_ok p = true → escape_unit c = None → c ≠ 117%N → not_newline c = true →
  tryParseRequestCondition (escape_condition p c) = Throw SyntaxError.
Proof.
  intros Hp He Hu Hn. unfold escape_condition, has_text.
  rewrite parse_header_has_body by (done || by apply sb_escape; [|constructor]).
  unfold parse_quoted, JSON_parse. cbn [length app Nat.mul Nat.add parse_value].
  change (next_unit (34%N :: [92; c; 34]%N)) with (Some (34%N, [92; c; 34]%N)). cbv beta iota.
  cbn [parse_string_body]. change (92 =? 34)%N with false. change (92 =? 92)%N with true. cbv iota.
  rewrite (proj2 (N.eqb_neq c 117) Hu), He. done.
Qed.

(** The parser lets the error of [JSON.parse] escape: a header condition whose text
    has an escape that the pattern admits and JSON does not makes the parser of
    conditions and of factors throw, and with them the splitter of a whole expression. *)
Theorem bad_escape_throws p c mult :
  path_ok p = true → escape_unit c = None → c ≠ 117%N → quiet c → not_newline c = true →
  is_numeric mult = true →
  tryParseRequestCondition (escape_condition p c) = Throw SyntaxError ∧
  tryParseRuleGroupFactor (parens (factor_inside [escape_condition p c] mult)) = Throw SyntaxError ∧
  splitBillingExprAndRequestRules
    (product [factor_inside [escape_condition p c] mult; js "p"]) = Throw SyntaxError.
Proof.
  intros Hp He Hu Hc Hn Hm.
  pose proof (escape_condition_throws p c Hp He Hu Hn) as Ht.
  assert (Forall quiet (34%N :: [92%N; c] ++ [34%N])) as Hq by (repeat constructor; try done; apply Hc).
  assert (tryParseRuleGroupFactor (parens (factor_inside [escape_condition p c] mult)) = Throw SyntaxError)
    as Hf.
  { rewrite <- factor_parens. unfold tryParseRuleGroupFactor. rewrite match_FACTOR by done.
    change (group_text [(1, ?w); (2, mult)] 1) with w. unfold splitTopLevelAnd.
    rewrite split_top_join; [|apply sep_and|..|done].
    - cbn [parse_each]. rewrite (trim_trimmed (escape_condition _ _)) by by apply has_trimmed.
      by rewrite Ht.
    - by apply Forall_singleton, has_atom.
    - apply Forall_singleton. split; [by apply has_trimmed|done]. }
  split_and!; [done|done|].
  assert (balanced (factor_inside [escape_condition p c] mult) = true) as Hb.
  { unfold factor_inside. apply balanced_app; [by apply has_balanced|]. apply balanced_app; [done|].
    apply balanced_app; [|done]. by apply balanced_plain, quiet_no_paren, numeric_quiet. }
  set (x := factor_inside [escape_condition p c] mult) in *.
  assert (is_rule_part (parens x) = Throw SyntaxError) as Hr.
  { unfold is_rule_part. rewrite rule_expr_eq; rewrite (product_trim [x] : trim (parens x) = parens x); [|done].
    rewrite (product_split [x] (proj2 (Forall_singleton _ _) Hb) ltac:(done) :
      splitTopLevelMultiply (parens x) = [parens x]).
    cbn [parse_each]. by rewrite Hf. }
  unfold splitBillingExprAndRequestRules. rewrite product_trim.
  destruct (product [x; js "p"]) as [|u t] eqn:E; [done|]. rewrite <- E.
  rewrite product_split by (done || by repeat constructor). rewrite !fmap_cons. cbn [sort_parts].
  by rewrite Hr.
Qed.

Lemma bad_escape_throws_witness :
  tryParseRequestCondition (escape_condition (js "User-Agent") 100) = Throw SyntaxError.
Proof. by apply (bad_escape_throws (js "User-Agent") 100 (js "2")); vm_compute. Defined.

(** ** Normalized conditions *)

(** The fields of a condition within their types: a known function or the mode of its
    source, a zone that is not empty. *)
Definition well_formed (c : RequestCondition) : Prop :=
  match c with
  | TimeCondition f tz m _ _ _ => f ∈ TIME_FUNCS ∧ tz ≠ [] ∧ m ∈ match_modes SOURCE_TIME
  | ParamHeaderCondition h _ m _ => m ∈ match_modes (if h then SOURCE_HEADER else SOURCE_PARAM)
  end.

Lemma normalized_mode_valid s m d : d ∈ match_modes s → normalized_mode s m d ∈ match_modes s.
Proof. intros Hd. unfold normalized_mode. destruct m as [m|]; [|done]. by case_bool_decide. Qed.

(** C40: whatever partial condition it gets, [normalizeCondition] returns one whose
    function, zone and mode are within their types; and it changes nothing in a condition
    that is already so, in particular in its own result. *)
Theorem normalize_well_formed pc c :
  well_formed (normalizeCondition pc) ∧
  (well_formed c → normalizeCondition (Some (as_partial c)) = c) ∧
  normalizeCondition (Some (as_partial (normalizeCondition pc))) = normalizeCondition pc.
Proof.
  assert (∀ c, well_formed c → normalizeCondition (Some (as_partial c)) = c) as Hid.
  { intros [f tz m v s e|h p m v]; cbn [well_formed];
      [intros (? & ? & ?); by apply normalize_time|intros H; by apply normalize_param_header]. }
  assert (well_formed (normalizeCondition pc)) as Hwf; [|by split_and!; auto].
  unfold normalizeCondition. destruct (normalized_source _); cbn [well_formed].
  - rewrite bool_decide_eq_false_2 by done. apply normalized_mode_valid. in_list.
  - rewrite bool_decide_eq_true_2 by done. apply normalized_mode_valid. in_list.
  - split_and!; [| |apply normalized_mode_valid; in_list].
    + unfold isTimeFunc. destruct (pc_timeFunc _) as [f|]; [|in_list]. by case_bool_decide; [|in_list].
    + by destruct (pc_timezone _) as [[|]|].
Qed.

Lemma normalize_well_formed_witness :
  let c := TimeCondition (js "hour") (js "UTC") MATCH_RANGE [] (js "9") (js "17") in
  normalizeCondition (Some (as_partial c)) = c.
Proof. apply (normalize_well_formed None). split_and!; [in_list|done|in_list]. Defined.

(** ** Tiers *)
Lemma price_fields_distinct : NoDup BILLING_VAR_KEY_TO_FIELD.*2.
Proof. apply (proj1 (bool_decide_eq_true _)). vm_compute. reflexivity. Qed.

(** Setting a value for each of a list of distinct new fields appends them. *)
Lemma foldl_jset_fields {V} (f : jsstring → V) (l : list (jsstring * jsstring)) (m : list (jsstring * V)) :
  NoDup l.*2 → (∀ p, p ∈ l → p.2 ∉ jkeys m) →
  foldl (λ t '(k, field), jset field (f k) t) m l = m ++ ((λ p, (p.2, f p.1)) <$> l).
Proof.
  revert m. induction l as [|[k fd] l IH]; intros m Hd Hm; [by rewrite app_nil_r|].
  rewrite fmap_cons in Hd. apply NoDup_cons in Hd as [Hn Hd]. cbn [foldl].
  assert (jset fd (f k) m = m ++ [(fd, f k)]) as ->.
  { assert (fd ∉ jkeys m) as H by (apply (Hm (k, fd)); set_solver). clear -H.
    induction m as [|[a b] m IH]; [done|]. cbn [jset]. cbn in H. apply not_elem_of_cons in H as [Ha H].
    rewrite decide_False by congruence. cbn. by rewrite IH. }
  rewrite IH; [by rewrite <- app_assoc|done|].
  intros p Hp. unfold jkeys. rewrite fmap_app. apply not_elem_of_app. split.
  - apply Hm. set_solver.
  - cbn. rewrite list_elem_of_singleton. intros E. apply Hn. rewrite <- E.
    apply list_elem_of_fmap. by exists p.
Qed.

(** Every tier read from an expression has the nine price fields of the registry, in
    its order and once each, and no price is [NaN], whatever the text of its body. *)
Theorem parsed_tier_prices exprStr t :
  t ∈ parseTiersFromExpr exprStr →
  jkeys (pt_prices t) = BILLING_VAR_KEY_TO_FIELD.*2 ∧
  Forall (λ x, is_nan x = false) (jvalues (pt_prices t)).
Proof.
  assert (∀ body, jkeys (parseTierBody body) = BILLING_VAR_KEY_TO_FIELD.*2 ∧
    Forall (λ x, is_nan x = false) (jvalues (parseTierBody body))) as H.
  { intros body. unfold parseTierBody.
    set (coeffs := foldl _ [] (exec_all _ _)).
    rewrite (foldl_jset_fields (λ k, num_or_zero (default S754_nan (jget k coeffs)))).
    - cbn [app]. unfold jkeys, jvalues. rewrite <- !list_fmap_compose. split; [done|].
      apply Forall_fmap, Forall_forall. intros p _. apply num_or_zero_not_nan.
    - apply price_fields_distinct.
    - intros p _. apply not_elem_of_nil. }
  unfold parseTiersFromExpr. destruct exprStr as [|c e]; [by intros ?%elem_of_nil|].
  intros (m & -> & _)%list_elem_of_fmap. apply H.
Qed.

Definition sample_tiers : jsstring :=
  js "v1:p <= 200000 ? tier(" ++ [34%N] ++ js "small" ++ [34%N] ++
  js ", p * 1.5 + c * 2 + cr * 1-) : tier(" ++ [34%N] ++ js "large" ++ [34%N] ++ js ", p * 3)".

Lemma parsed_tier_prices_witness :
  Forall (λ t, jkeys (pt_prices t) = BILLING_VAR_KEY_TO_FIELD.*2 ∧
               Forall (λ x, is_nan x = false) (jvalues (pt_prices t)))
    (parseTiersFromExpr sample_tiers) ∧ length (parseTiersFromExpr sample_tiers) = 2.
Proof. split; [|by vm_compute]. apply Forall_forall. intros t Ht. by apply (parsed_tier_prices sample_tiers). Defined.
