(* ===== verification/JsonPrint.v ===== *)
(** [JSON.stringify] of values, without and with an indentation, and its round trip
    through [JSON.parse].

    A property that is undefined is left out, an undefined element and a number that is
    not finite print as null.  The round trip needs what [JSON.stringify] cannot print
    excluded ([json_ok]): undefined values, minus zero, and objects whose members are not
    in the order of properties (the order in which [JSON.parse] makes them).  What the
    language drops or replaces is [json_clean]. *)
From S2P Require Import Prelude JsString JsValue Json JsPrint JsonQuote.
Local Open Scope nat_scope.

(** ** Printing *)

(** The line break and indentation between the parts of an array or object; [gap] is the
    number of blanks per level, with none the text is on one line. *)
Definition json_line (gap depth : nat) : jsstring :=
  match gap with O => [] | _ => 10%N :: replicate (gap * depth) 32%N end.

Definition json_colon (gap : nat) : jsstring := match gap with O => js ":" | _ => js ": " end.

(** The parts of an array or object between its brackets. *)
Definition json_group (gap depth : nat) (open close : jsstring) (parts : list jsstring) : jsstring :=
  match parts with
  | [] => open ++ close
  | _ => open ++ json_line gap (S depth) ++ join (js "," ++ json_line gap (S depth)) parts ++
         json_line gap depth ++ close
  end.

Fixpoint stringify (gap depth : nat) (v : jsval) : jsstring :=
  match v with
  | JUndef | JNull => js "null"
  | JBool b => if b then js "true" else js "false"
  | JNum x => if is_finite x then show_num x else js "null"
  | JStr s => JSON_quote s
  | JArr l => json_group gap depth (js "[") (js "]") (List.map (stringify gap (S depth)) l)
  | JObj ps =>
      json_group gap depth (js "{") (js "}")
        (List.flat_map (λ p, match p with
           | (k, v) => if is_undef v then []
                       else [JSON_quote k ++ json_colon gap ++ stringify gap (S depth) v]
           end) ps)
  end.

(** [JSON.stringify(v, null, gap)] of a value that is not undefined. *)
Definition JSON_stringify (gap : nat) (v : jsval) : jsstring := stringify gap 0 v.

(** ** Values that print as themselves *)
#[export] Instance spec_float_eq_dec : EqDecision spec_float.
Proof. solve_decision. Defined.

Definition num_ok (x : jsnum) : bool :=
  is_finite x && bool_decide (parse_number (show_num x) = Some (x, [])).

Definition units_ok (s : jsstring) : bool := forallb (λ c, (c <? 65536)%N) s.

Lemma units_ok_trim s : units_ok s = true → units_ok (trim s) = true.
Proof.
  unfold units_ok. rewrite !forallb_Forall, !Forall_forall. intros H c Hc. by apply H, elem_of_trim.
Qed.

(** Distinct members in the order of properties. *)
Definition members_ok (ps : list (jsstring * jsval)) : bool :=
  bool_decide (NoDup (jkeys ps)) && bool_decide (jkeys (order_props ps) = jkeys ps).

Fixpoint json_ok (v : jsval) : bool :=
  match v with
  | JUndef => false
  | JNull | JBool _ => true
  | JNum x => num_ok x
  | JStr s => units_ok s
  | JArr l => forallb json_ok l
  | JObj ps =>
      forallb (λ p, match p with (k, v) => units_ok k && json_ok v end) ps && members_ok ps
  end.

(** What is left of a value that is printed: without undefined members, with null for
    undefined elements and for numbers that are not finite, without the sign of zero. *)
Fixpoint json_clean (v : jsval) : jsval :=
  match v with
  | JUndef => JNull
  | JNum x => if is_finite x then match x with S754_zero _ => JNum num0 | _ => v end else JNull
  | JArr l => JArr (List.map json_clean l)
  | JObj ps =>
      JObj (List.flat_map (λ p, match p with
        | (k, v) => if is_undef v then [] else [(k, json_clean v)] end) ps)
  | _ => v
  end.

(** ** Induction on values *)
Section values.
Context (P : jsval → Prop).
Hypothesis P_undef : P JUndef.
Hypothesis P_null : P JNull.
Hypothesis P_bool : ∀ b, P (JBool b).
Hypothesis P_num : ∀ x, P (JNum x).
Hypothesis P_str : ∀ s, P (JStr s).
Hypothesis P_arr : ∀ l, Forall P l → P (JArr l).
Hypothesis P_obj : ∀ ps, Forall (λ p, P p.2) ps → P (JObj ps).

Fixpoint jsval_nested_ind (v : jsval) : P v :=
  match v with
  | JUndef => P_undef
  | JNull => P_null
  | JBool b => P_bool b
  | JNum x => P_num x
  | JStr s => P_str s
  | JArr l =>
      P_arr l ((fix go l : Forall P l :=
        match l with
        | [] => List.Forall_nil _
        | v :: l => List.Forall_cons _ _ _ (jsval_nested_ind v) (go l)
        end) l)
  | JObj ps =>
      P_obj ps ((fix go ps : Forall (λ p, P p.2) ps :=
        match ps with
        | [] => List.Forall_nil _
        | (k, v) :: ps => List.Forall_cons _ (k, v) _ (jsval_nested_ind v) (go ps)
        end) ps)
  end.
End values.

(** ** White space *)
Definition all_ws (w : jsstring) : bool := forallb is_json_ws w.

Lemma json_line_ws gap depth : all_ws (json_line gap depth) = true.
Proof.
  destruct gap as [|gap]; [done|]. cbn [json_line all_ws forallb]. apply andb_true_iff. split; [done|].
  induction (S gap * depth) as [|n IH]; [done|]. cbn [replicate forallb]. by rewrite IH.
Qed.

Lemma skip_ws_app w s : all_ws w = true → skip_ws (w ++ s) = skip_ws s.
Proof. induction w as [|c w IH]; [done|]. cbn. intros H. boolify. rewrite H. by apply IH. Qed.

Lemma next_unit_app w s : all_ws w = true → next_unit (w ++ s) = next_unit s.
Proof. intros H. unfold next_unit. by rewrite skip_ws_app. Qed.

Lemma next_unit_cons c s : is_json_ws c = false → next_unit (c :: s) = Some (c, s).
Proof. intros H. unfold next_unit. cbn. by rewrite H. Qed.

Lemma parse_value_ws w s fuel : all_ws w = true → parse_value fuel (w ++ s) = parse_value fuel s.
Proof. intros H. destruct fuel; [done|]. cbn [parse_value]. by rewrite next_unit_app. Qed.

(** ** Numbers *)

(** What may follow a number without being read as part of it. *)
Definition number_stops (s : jsstring) : bool :=
  match s with
  | [] => true
  | c :: _ => negb (is_digit c) && negb (bool_decide (c ∈ [46; 69; 101]%N))
  end.

Lemma span_digits_app s d r rest :
  span_digits s = (d, r) → number_stops rest = true →
  span_digits (s ++ rest) = (d, r ++ rest).
Proof.
  intros H Hs. revert d r H. induction s as [|c s IH]; intros d r H.
  - injection H as <- <-. cbn [app]. destruct rest as [|c rest]; [done|]. cbn in *. boolify.
    by destruct (is_digit c).
  - cbn [app span_digits] in *. destruct (is_digit c); [|by injection H as <- <-].
    destruct (span_digits s) as [d' r'] eqn:E. injection H as <- <-. by rewrite (IH _ _ eq_refl).
Qed.

Lemma parse_fraction_app s d r rest :
  parse_fraction s = Some (d, r) → number_stops rest = true →
  parse_fraction (s ++ rest) = Some (d, r ++ rest).
Proof.
  intros H Hs. destruct s as [|c s].
  - injection H as <- <-. cbn [app]. destruct rest as [|c rest]; [done|]. cbn in *.
    destruct (N.eqb_spec c 46) as [->|]; [|done]. by cbn in Hs.
  - cbn [app parse_fraction] in *. destruct (c =? 46)%N; [|by injection H as <- <-].
    destruct (span_digits s) as [d' r'] eqn:E. rewrite (span_digits_app _ _ _ _ E Hs).
    destruct d'; [done|]. by injection H as <- <-.
Qed.

Lemma parse_sign_app b c s rest : parse_sign b (c :: s ++ rest) = (λ '(n, r), (n, r ++ rest)) (parse_sign b (c :: s)).
Proof. cbn. by destruct (c =? 45)%N, b, (c =? 43)%N. Qed.

Lemma parse_exponent_app s e r rest :
  parse_exponent s = Some (e, r) → number_stops rest = true →
  parse_exponent (s ++ rest) = Some (e, r ++ rest).
Proof.
  intros H Hs. destruct s as [|c s].
  - injection H as <- <-. cbn [app]. destruct rest as [|c rest]; [done|]. cbn in *.
    destruct (N.eqb_spec c 69) as [->|]; [by cbn in Hs|].
    destruct (N.eqb_spec c 101) as [->|]; [by cbn in Hs|]. done.
  - cbn [app parse_exponent] in *. destruct (_ || _); [|by injection H as <- <-].
    destruct s as [|c' s]; [by cbn in H|]. cbn [app]. rewrite parse_sign_app.
    destruct (parse_sign true (c' :: s)) as [n s'].
    destruct (span_digits s') as [d' r'] eqn:E. rewrite (span_digits_app _ _ _ _ E Hs).
    destruct d'; [done|]. by injection H as <- <-.
Qed.

Lemma parse_number_app s x r rest :
  parse_number s = Some (x, r) → number_stops rest = true →
  parse_number (s ++ rest) = Some (x, r ++ rest).
Proof.
  intros H Hs. destruct s as [|c s]; [done|]. unfold parse_number in *. cbn [app].
  rewrite parse_sign_app. destruct (parse_sign false (c :: s)) as [n s1].
  destruct (span_digits s1) as [ip s2] eqn:E. rewrite (span_digits_app _ _ _ _ E Hs).
  destruct (_ || _); [done|].
  destruct (parse_fraction s2) as [[fp s3]|] eqn:Ef; [|done]. rewrite (parse_fraction_app _ _ _ _ Ef Hs).
  destruct (parse_exponent s3) as [[e s4]|] eqn:Ee; [|done]. rewrite (parse_exponent_app _ _ _ _ Ee Hs).
  by injection H as <- <-.
Qed.

Lemma parse_number_head s p : parse_number s = Some p → ∃ c t, s = c :: t ∧ (c = 45%N ∨ is_digit c = true).
Proof.
  destruct s as [|c t]; [done|]. intros H. exists c, t. split; [done|]. unfold parse_number in H.
  cbn [parse_sign andb] in H. destruct (N.eqb_spec c 45); [by left|]. right.
  cbn [span_digits] in H. by destruct (is_digit c).
Qed.

(** ** Objects *)
Lemma foldl_jset_new (m l : list (jsstring * jsval)) :
  NoDup (jkeys (m ++ l)) → foldl (λ m p, jset p.1 p.2 m) m l = m ++ l.
Proof.
  revert m. induction l as [|[k v] l IH]; intros m Hd; [by rewrite app_nil_r|]. cbn [foldl fst snd].
  assert (jset k v m = m ++ [(k, v)]) as ->.
  { assert (k ∉ jkeys m) as Hk.
    { unfold jkeys in *. rewrite fmap_app, fmap_cons in Hd. apply NoDup_app in Hd as (_ & Hd & _).
      intros Hk. apply (Hd k Hk). set_solver. }
    clear -Hk. induction m as [|[a b] m IHm]; [done|]. unfold jkeys in *. rewrite fmap_cons in Hk.
    apply not_elem_of_cons in Hk as [Ha Hk]. cbn [jset app fst] in *. rewrite decide_False by congruence.
    by rewrite IHm. }
  rewrite IH; [by rewrite <- app_assoc|]. by rewrite <- app_assoc.
Qed.

Lemma order_props_perm ps : order_props ps ≡ₚ ps.
Proof.
  unfold order_props. set (c := λ a b : N * (jsstring * jsval), _).
  rewrite (fmap_Permutation snd _ _ (js_sort_perm c _)).
  induction ps as [|p ps IH]; [done|]. cbn [omap list_omap]. rewrite filter_cons.
  destruct (array_index p.1) as [n|] eqn:E; cbn [mbind option_bind].
  - rewrite decide_False by done. cbn [fmap list_fmap snd app]. by rewrite IH.
  - rewrite decide_True by done. rewrite <- Permutation_middle. by rewrite IH.
Qed.

Lemma keyed_perm_eq {K V} (l l' : list (K * V)) : l ≡ₚ l' → NoDup l'.*1 → l.*1 = l'.*1 → l = l'.
Proof.
  intros Hp Hd Hk. apply list_eq_same_length with (length l'); [done|by rewrite Hp|].
  intros i [k v] [k' v'] _ H1 H2.
  assert (k = k') as <-.
  { assert (l.*1 !! i = Some k) as A by (rewrite list_lookup_fmap, H1; done).
    assert (l'.*1 !! i = Some k') as B by (rewrite list_lookup_fmap, H2; done). congruence. }
  assert ((k, v) ∈ l') as Hin by (rewrite <- Hp; by eapply list_elem_of_lookup_2).
  apply list_elem_of_lookup_1 in Hin as [j Hj].
  assert (i = j) as ->; [|congruence].
  eapply (NoDup_lookup _ i j k Hd); by rewrite list_lookup_fmap, ?H2, ?Hj.
Qed.

Lemma make_obj_ok ps : members_ok ps = true → make_obj ps = JObj ps.
Proof.
  unfold members_ok, make_obj.
  intros [Hd%bool_decide_eq_true Ho%bool_decide_eq_true]%andb_true_iff.
  rewrite foldl_jset_new by done. cbn [app]. f_equal. by apply keyed_perm_eq; [apply order_props_perm| |].
Qed.

(** ** The round trip *)

(** A value reads back: whatever follows its text, with fuel for the text. *)
Definition reads_back (gap : nat) (v : jsval) : Prop :=
  ∀ depth rest fuel, number_stops rest = true →
    2 * length (stringify gap depth v ++ rest) + 1 <= fuel →
    parse_value fuel (stringify gap depth v ++ rest) = Some (v, rest).

(** What follows the parts of a group: white space and a comma or the closing bracket. *)
Lemma stops_after_ws w s : all_ws w = true → number_stops s = true → number_stops (w ++ s) = true.
Proof.
  intros Hw Hs. destruct w as [|u w]; [done|].
  cbn in Hw. apply andb_true_iff in Hw as [Hu _]. apply bool_decide_eq_true in Hu.
  rewrite !elem_of_cons, elem_of_nil in Hu. by destruct Hu as [->|[->|[->|[->|[]]]]].
Qed.

Lemma join_cons sep s t l : join sep (s :: t :: l) = s ++ sep ++ join sep (t :: l).
Proof. done. Qed.

#[local] Ltac flat_length :=
  repeat first [progress rewrite ?length_app in * | progress cbn [length] in *].

Lemma elements_read gap depth w w' l rest fuel :
  all_ws w = true → all_ws w' = true → Forall (reads_back gap) l → l ≠ [] →
  2 * length (w ++ join (44%N :: w) (List.map (stringify gap depth) l) ++ w' ++ 93%N :: rest) + 2 <= fuel →
  parse_elements fuel (w ++ join (44%N :: w) (List.map (stringify gap depth) l) ++ w' ++ 93%N :: rest)
  = Some (l, rest).
Proof.
  intros Hw Hw' Hl. revert fuel. induction Hl as [|v l Hv Hl IH]; intros fuel Hn Hf; [done|].
  destruct fuel as [|fuel]; [lia|]. cbn [parse_elements]. rewrite parse_value_ws by done.
  destruct l as [|v' l]; cbn [List.map] in *; [cbn [join] in *|rewrite join_cons in *].
  - rewrite Hv; [|by apply stops_after_ws|rewrite length_app in Hf; lia].
    cbv iota beta. rewrite next_unit_app by done. by rewrite next_unit_cons.
  - rewrite <- app_assoc in Hf |- *. cbn [app] in Hf |- *. rewrite <- app_assoc in Hf |- *.
    rewrite Hv; [|done|rewrite length_app in Hf; lia].
    cbv iota beta. rewrite next_unit_cons by done. cbn [N.eqb Pos.eqb]. cbv iota beta.
    rewrite IH; [done|done|].
    flat_length. lia.
Qed.

Definition member_text (gap depth : nat) (p : jsstring * jsval) : jsstring :=
  JSON_quote p.1 ++ json_colon gap ++ stringify gap depth p.2.

(** The name of a member, its colon and the value after it. *)
Lemma next_quote w k s :
  all_ws w = true → next_unit (w ++ JSON_quote k ++ s) = Some (34%N, quote_body k ++ 34%N :: s).
Proof.
  intros Hw. rewrite next_unit_app by done. unfold JSON_quote. cbn [app]. rewrite <- app_assoc.
  by rewrite next_unit_cons.
Qed.

Lemma next_colon gap s : ∃ w, all_ws w = true ∧ next_unit (json_colon gap ++ s) = Some (58%N, w ++ s).
Proof. destruct gap; [by exists []|by exists (js " ")]. Qed.

Lemma members_read gap depth w w' ps rest fuel :
  all_ws w = true → all_ws w' = true →
  Forall (λ p, Forall is_unit p.1 ∧ reads_back gap p.2) ps → ps ≠ [] →
  2 * length (w ++ join (44%N :: w) (List.map (member_text gap depth) ps) ++ w' ++ 125%N :: rest) + 2 <= fuel →
  parse_members fuel (w ++ join (44%N :: w) (List.map (member_text gap depth) ps) ++ w' ++ 125%N :: rest)
  = Some (ps, rest).
Proof.
  intros Hw Hw' Hl. revert fuel. induction Hl as [|[k v] ps [Hk Hv] Hl IH]; intros fuel Hn Hf; [done|].
  destruct fuel as [|fuel]; [lia|]. cbn [fst snd] in *. unfold reads_back in Hv.
  assert (∃ tail, join (44%N :: w) (List.map (member_text gap depth) ((k, v) :: ps)) ++ w' ++ 125%N :: rest
      = JSON_quote k ++ json_colon gap ++ stringify gap depth v ++ tail ∧ number_stops tail = true ∧
      match ps with
      | [] => tail = w' ++ 125%N :: rest
      | _ => tail = 44%N :: w ++ join (44%N :: w) (List.map (member_text gap depth) ps) ++ w' ++ 125%N :: rest
      end) as (tail & Ht & Hs & Htail).
  { destruct ps as [|p ps].
    - exists (w' ++ 125%N :: rest). cbn [List.map join]. unfold member_text at 1. cbn [fst snd].
      rewrite <- !app_assoc. split_and!; [done|by apply stops_after_ws|done].
    - eexists. cbn [List.map]. rewrite join_cons. unfold member_text at 1. cbn [fst snd].
      rewrite <- !app_assoc. cbn [app]. by split_and!. }
  rewrite Ht in *. clear Ht. destruct (next_colon gap (stringify gap depth v ++ tail)) as (wc & Hwc & Hc).
  pose proof (next_unit_length _ _ _ Hc) as Hlen. rewrite length_app in Hlen.
  cbn [parse_members]. unfold next_is, after_next. rewrite next_quote by done. cbn [N.eqb Pos.eqb negb].
  rewrite parse_quote_body by done. rewrite Hc. cbn [N.eqb Pos.eqb negb].
  rewrite parse_value_ws by done. rewrite Hv; [|done|].
  2: { rewrite (length_app w), (length_app (JSON_quote k)) in Hf. lia. }
  cbv iota beta. rewrite !length_app in Hf. destruct ps as [|p ps]; subst tail.
  - rewrite next_unit_app by done. by rewrite next_unit_cons.
  - rewrite next_unit_cons by done. cbn [N.eqb Pos.eqb]. cbv iota beta.
    rewrite IH; [done|done|]. flat_length. lia.
Qed.

Lemma group_parts gap ps :
  Forall (λ p, json_ok p.2 = true) ps →
  ∀ depth, List.flat_map (λ p, match p with
    | (k, v) => if is_undef v then [] else [JSON_quote k ++ json_colon gap ++ stringify gap depth v]
    end) ps = List.map (member_text gap depth) ps.
Proof.
  intros H depth. induction H as [|[k v] ps Hv Hps IH]; [done|]. cbn [List.flat_map List.map]. rewrite IH.
  by destruct v.
Qed.

Lemma units_ok_Forall s : units_ok s = true → Forall is_unit s.
Proof. intros H. apply forallb_Forall in H. eapply Forall_impl; [exact H|]. intros c. apply N.ltb_lt. Qed.

Lemma read_number gap x : num_ok x = true → reads_back gap (JNum x).
Proof.
  unfold num_ok. intros [Hx Hp%bool_decide_eq_true]%andb_true_iff depth rest fuel Hs Hf. cbn [stringify] in *.
  rewrite Hx in *. destruct (parse_number_head _ _ Hp) as (c & t & E & Hc).
  pose proof (parse_number_app _ _ _ rest Hp Hs) as Hn. rewrite E in *. cbn [app] in *.
  destruct fuel as [|fuel]; [lia|]. cbn [parse_value].
  assert (is_json_ws c = false ∧ (c =? 34)%N = false ∧ (c =? 91)%N = false ∧ (c =? 123)%N = false ∧
          c ∉ [116; 102; 110]%N) as (Hw & H1 & H2 & H3 & H4).
  { unfold is_json_ws. rewrite bool_decide_eq_false, !N.eqb_neq, !elem_of_cons, elem_of_nil.
    unfold is_digit in Hc. rewrite andb_true_iff, !N.leb_le in Hc. lia. }
  rewrite next_unit_cons, H1, H2, H3 by done. unfold parse_atom.
  assert (∀ d w, d ∈ [116; 102; 110]%N → starts_with (d :: w) (c :: t ++ rest) = false) as Hno.
  { intros d w Hd. apply bool_decide_eq_false. intros [z Hz]. injection Hz as -> _. done. }
  change (js "true") with (116%N :: js "rue"). change (js "false") with (102%N :: js "alse").
  change (js "null") with (110%N :: js "ull"). rewrite !Hno by (repeat constructor). by rewrite Hn.
Qed.

Lemma read_string gap s : units_ok s = true → reads_back gap (JStr s).
Proof.
  intros Hu depth rest [|fuel] Hs Hf; [lia|]. cbn [stringify parse_value].
  pose proof (next_quote [] s rest eq_refl) as Hq. cbn [app] in Hq. rewrite Hq. cbn [N.eqb Pos.eqb].
  by rewrite parse_quote_body by by apply units_ok_Forall.
Qed.

(** The bracket that opens a group with parts, and what comes after it. *)
Lemma group_text gap depth open close p ps rest :
  json_group gap depth [open] [close] (p :: ps) ++ rest =
  open :: json_line gap (S depth) ++ join (44%N :: json_line gap (S depth)) (p :: ps) ++
    json_line gap depth ++ close :: rest.
Proof. unfold json_group. by rewrite <- !app_assoc. Qed.

Lemma stringify_head gap depth v : json_ok v = true → ∃ c t, stringify gap depth v = c :: t ∧ is_json_ws c = false ∧ c ≠ 93%N.
Proof.
  destruct v as [| |b|x|s|l|ps]; cbn [json_ok stringify]; intros Hv; [done|..].
  - by do 2 eexists.
  - destruct b; by do 2 eexists.
  - unfold num_ok in Hv. apply andb_true_iff in Hv as [Hx Hp%bool_decide_eq_true]. rewrite Hx.
    destruct (parse_number_head _ _ Hp) as (c & t & -> & Hc). exists c, t. split; [done|].
    unfold is_json_ws. rewrite bool_decide_eq_false, !elem_of_cons, elem_of_nil.
    unfold is_digit in Hc. rewrite andb_true_iff, !N.leb_le in Hc. lia.
  - by do 2 eexists.
  - unfold json_group. destruct (List.map _ _); by do 2 eexists.
  - unfold json_group. destruct (List.flat_map _ _); by do 2 eexists.
Qed.

Lemma read_array gap l :
  Forall (λ v, json_ok v = true ∧ reads_back gap v) l → reads_back gap (JArr l).
Proof.
  intros Hl depth rest fuel Hs Hf. cbn [stringify] in *. destruct l as [|v l].
  { destruct fuel; [lia|done]. }
  assert (Forall (reads_back gap) (v :: l)) as Hr by (eapply Forall_impl; [exact Hl|naive_solver]).
  cbn [List.map] in *. change (js "[") with [91%N] in *. change (js "]") with [93%N] in *.
  rewrite group_text in Hf |- *. destruct fuel as [|fuel]; [lia|]. cbn [length] in Hf.
  pose proof (elements_read gap (S depth) _ _ (v :: l) rest fuel (json_line_ws gap (S depth))
    (json_line_ws gap depth) Hr ltac:(done)) as He. cbn [List.map] in He. specialize (He ltac:(lia)).
  cbn [parse_value]. rewrite next_unit_cons by done. cbn [N.eqb Pos.eqb]. rewrite He.
  unfold next_is. rewrite next_unit_app by apply json_line_ws.
  inversion Hl as [|? ? [Hv _] _]; subst. destruct (stringify_head gap (S depth) v Hv) as (c & t & E & Hw & Hc).
  assert (∃ u, join (44%N :: json_line gap (S depth)) (stringify gap (S depth) v :: List.map (stringify gap (S depth)) l)
    = c :: u) as [u ->] by (destruct (List.map _ l); cbn [join]; rewrite E; by eexists).
  cbn [app]. rewrite next_unit_cons by done. by rewrite (proj2 (N.eqb_neq c 93)).
Qed.

Lemma read_object gap ps :
  members_ok ps = true →
  Forall (λ p, Forall is_unit p.1 ∧ json_ok p.2 = true ∧ reads_back gap p.2) ps → reads_back gap (JObj ps).
Proof.
  intros Hm Hl depth rest fuel Hs Hf. cbn [stringify] in *.
  rewrite group_parts in Hf |- * by (eapply Forall_impl; [exact Hl|naive_solver]).
  destruct ps as [|p ps]. { destruct fuel; [lia|done]. }
  assert (Forall (λ p, Forall is_unit p.1 ∧ reads_back gap p.2) (p :: ps)) as Hr
    by (eapply Forall_impl; [exact Hl|naive_solver]).
  cbn [List.map] in *. change (js "{") with [123%N] in *. change (js "}") with [125%N] in *.
  rewrite group_text in Hf |- *. destruct fuel as [|fuel]; [lia|]. cbn [length] in Hf.
  pose proof (members_read gap (S depth) _ _ (p :: ps) rest fuel (json_line_ws gap (S depth))
    (json_line_ws gap depth) Hr ltac:(done)) as He. cbn [List.map] in He. specialize (He ltac:(lia)).
  cbn [parse_value]. rewrite next_unit_cons by done. cbn [N.eqb Pos.eqb]. rewrite He, make_obj_ok by done.
  unfold next_is. rewrite next_unit_app by apply json_line_ws.
  assert (∃ u, join (44%N :: json_line gap (S depth)) (member_text gap (S depth) p :: List.map (member_text gap (S depth)) ps)
    = 34%N :: u) as [u ->] by (destruct (List.map _ ps); by eexists).
  cbn [app]. by rewrite next_unit_cons.
Qed.

Lemma stringify_reads gap v : json_ok v = true → reads_back gap v.
Proof.
  induction v as [| |b|x|s|l IH|ps IH] using jsval_nested_ind; intros Hv; cbn [json_ok] in Hv.
  - done.
  - intros depth rest [|fuel] Hs Hf; [lia|]. done.
  - intros depth rest [|fuel] Hs Hf; [lia|]. by destruct b.
  - by apply read_number.
  - by apply read_string.
  - apply read_array. apply forallb_Forall in Hv. rewrite Forall_forall in *. auto.
  - apply andb_true_iff in Hv as [Hv Hm]. apply forallb_Forall in Hv. apply read_object; [done|].
    rewrite Forall_forall in *. intros [k v] Hin. specialize (Hv _ Hin). specialize (IH _ Hin).
    apply andb_true_iff in Hv as [Hk Hv]. split_and!; [by apply units_ok_Forall|done|by apply IH].
Qed.

(** What [JSON.stringify] prints, on one line or indented, [JSON.parse] reads as the same
    value. *)
Lemma JSON_parse_stringify gap v : json_ok v = true → JSON_parse (JSON_stringify gap v) = Some v.
Proof.
  intros Hv. unfold JSON_parse, JSON_stringify.
  pose proof (stringify_reads gap v Hv 0 [] (2 * length (stringify gap 0 v) + 2)) as H.
  rewrite app_nil_r in H. by rewrite H by (done || lia).
Qed.

(** Printing does not see what [json_clean] changes. *)
Lemma stringify_clean gap v : ∀ depth, stringify gap depth (json_clean v) = stringify gap depth v.
Proof.
  induction v as [| |b|x|s|l IH|ps IH] using jsval_nested_ind; intros depth; try done.
  - by destruct x.
  - cbn [json_clean stringify]. f_equal. rewrite List.map_map. apply List.map_ext_in.
    intros v Hv%list_elem_of_In. rewrite Forall_forall in IH. by apply IH.
  - cbn [json_clean stringify]. f_equal. induction IH as [|[k v] ps Hv Hps IHps]; [done|].
    cbn [List.flat_map] in *. destruct (is_undef v) eqn:E; [done|]. cbn [app List.flat_map].
    rewrite IHps, Hv. cbn [snd]. f_equal. by destruct v as [| | |[]| | |].
Qed.

Lemma JSON_parse_stringify_clean gap v :
  json_ok (json_clean v) = true → JSON_parse (JSON_stringify gap v) = Some (json_clean v).
Proof. intros H. rewrite <- (JSON_parse_stringify gap _ H). unfold JSON_stringify. by rewrite stringify_clean. Qed.

Lemma json_clean_ok v : json_ok v = true → json_clean v = v.
Proof.
  induction v as [| |b|x|s|l IH|ps IH] using jsval_nested_ind; cbn [json_ok json_clean]; intros H; try done.
  - unfold num_ok in H. apply andb_true_iff in H as [-> H]. by destruct x as [[]| | |].
  - f_equal. apply forallb_Forall in H. induction IH as [|v l Hv Hl IHl]; [done|].
    inversion H; subst. cbn [List.map]. by rewrite Hv, IHl.
  - f_equal. apply andb_true_iff in H as [H _]. apply forallb_Forall in H.
    induction IH as [|[k v] ps Hv Hps IHps]; [done|]. inversion H as [|? ? Hk Hr]; subst.
    apply andb_true_iff in Hk as [_ Hk]. cbn [List.flat_map]. rewrite IHps by done. cbn [snd] in Hv.
    rewrite Hv by done. by destruct v.
Qed.

(** Members without array indices are in the order of properties. *)
Lemma members_ok_named ps :
  NoDup (jkeys ps) → Forall (λ k, array_index k = None) (jkeys ps) → members_ok ps = true.
Proof.
  intros Hd Hn. unfold members_ok. rewrite bool_decide_eq_true_2 by done. simpl.
  apply bool_decide_eq_true_2. f_equal. unfold order_props.
  assert (omap (λ p : jsstring * jsval, n ← array_index p.1; Some (n, p)) ps = [] ∧
          filter (λ p : jsstring * jsval, array_index p.1 = None) ps = ps) as [-> ->]; [|done].
  clear Hd. induction ps as [|p ps IH]; [done|]. unfold jkeys in Hn. rewrite fmap_cons in Hn.
  inversion Hn as [|? ? Hp Hps]; subst. destruct (IH Hps) as [E1 E2]. cbn [omap list_omap].
  rewrite Hp, filter_cons_True by done. by rewrite E2.
Qed.

(** ** Updating objects *)

(** Members in the order of properties: array indices in increasing order, then names. *)
Definition index_of_member (p : jsstring * jsval) : option N := array_index p.1.

Definition index_le (p q : jsstring * jsval) : Prop :=
  (default 0 (index_of_member p) <= default 0 (index_of_member q))%N.

Definition in_property_order (ps : list (jsstring * jsval)) : Prop :=
  ∃ a b, ps = a ++ b ∧ Forall (λ p, is_Some (index_of_member p)) a ∧ StronglySorted index_le a ∧
    Forall (λ p, index_of_member p = None) b.

(** The members with an index, each with it. *)
Definition indexed (ps : list (jsstring * jsval)) : list (N * (jsstring * jsval)) :=
  omap (λ p, n ← array_index p.1; Some (n, p)) ps.

Definition by_index (x y : N * (jsstring * jsval)) : Z := (Z.of_N x.1 - Z.of_N y.1)%Z.

#[local] Instance by_index_comparator : Comparator by_index.
Proof. split; unfold by_index; lia. Qed.

Lemma indexed_all a :
  Forall (λ p, is_Some (index_of_member p)) a → indexed a = (λ p, (default 0%N (index_of_member p), p)) <$> a.
Proof.
  unfold indexed, index_of_member. induction 1 as [|p a [n Hp] _ IH]; [done|]. cbn [omap list_omap].
  rewrite fmap_cons, Hp. cbn. f_equal. exact IH.
Qed.

Lemma indexed_none b : Forall (λ p, index_of_member p = None) b → indexed b = [].
Proof.
  unfold indexed, index_of_member. induction 1 as [|p b Hp _ IH]; [done|]. cbn [omap list_omap]. by rewrite Hp.
Qed.

Lemma in_order_fixed ps : in_property_order ps → order_props ps = ps.
Proof.
  intros (a & b & -> & Ha & Hs & Hb). unfold order_props. fold (indexed (a ++ b)). fold by_index.
  f_equal; [|rewrite filter_app, (filter_all _ b) by exact Hb].
  - unfold indexed. rewrite omap_app. fold (indexed a) (indexed b). rewrite (indexed_none b), app_nil_r by done.
    rewrite indexed_all by done. rewrite js_sort_id.
    + rewrite <- list_fmap_compose. apply list_fmap_id.
    + clear Ha. induction Hs as [|p a Hs IH Hp]; [constructor|]. rewrite fmap_cons. constructor; [done|].
      apply Forall_fmap. eapply Forall_impl; [exact Hp|]. intros q. unfold index_le, by_index. cbn. lia.
  - enough (filter (λ p : jsstring * jsval, array_index p.1 = None) a = []) as -> by done.
    clear Hs. induction Ha as [|p a [n Hp] _ IH]; [done|]. rewrite filter_cons_False; [done|].
    unfold index_of_member in Hp. by rewrite Hp.
Qed.

Lemma order_props_in_order ps : in_property_order (order_props ps).
Proof.
  exists (js_sort by_index (indexed ps)).*2, (filter (λ p, array_index p.1 = None) ps).
  split; [done|].
  assert (Forall (λ x, index_of_member x.2 = Some x.1) (js_sort by_index (indexed ps))) as Hi.
  { apply Forall_forall. intros [n p] Hin. apply elem_of_js_sort, list_elem_of_omap in Hin as (q & _ & Hq).
    cbn. unfold index_of_member. destruct (array_index q.1) eqn:E; [|done]. cbn in Hq. congruence. }
  pose proof (js_sort_sorted by_index (indexed ps)) as Hs. split_and!.
  - apply Forall_fmap. eapply Forall_impl; [exact Hi|]. intros x Hx. cbn. rewrite Hx. by eexists.
  - revert Hi Hs. generalize (js_sort by_index (indexed ps)). intros l Hi Hs.
    induction Hs as [|x l Hs IH Hx]; [constructor|]. inversion Hi as [|? ? Hx' Hl]; subst.
    rewrite fmap_cons. constructor; [by apply IH|]. apply Forall_fmap. apply Forall_forall. intros y Hy.
    rewrite Forall_forall in Hl, Hx. specialize (Hl y Hy). specialize (Hx y Hy). unfold index_le, by_index in *.
    cbn. rewrite Hx', Hl. cbn. lia.
  - apply Forall_forall. intros p [Hp _]%list_elem_of_filter. exact Hp.
Qed.

Lemma fixed_in_order ps : order_props ps = ps → in_property_order ps.
Proof. intros <-. apply order_props_in_order. Qed.

Lemma members_ok_iff ps : members_ok ps = true ↔ NoDup (jkeys ps) ∧ in_property_order ps.
Proof.
  unfold members_ok. rewrite andb_true_iff, !bool_decide_eq_true. split; intros [Hd Ho]; (split; [done|]).
  - apply fixed_in_order. by apply keyed_perm_eq; [apply order_props_perm| |].
  - by rewrite in_order_fixed.
Qed.

(** Setting a named property and deleting properties keep the order. *)
Lemma members_ok_jset k v ps : members_ok ps = true → array_index k = None → members_ok (jset k v ps) = true.
Proof.
  rewrite !members_ok_iff. intros [Hd (a & b & -> & Ha & Hs & Hb)] Hk. split; [by apply NoDup_jset|].
  exists a, (jset k v b). split_and!; [|done|done|].
  - clear -Ha Hk. induction Ha as [|[k' v'] a [n Hn] _ IH]; [done|]. cbn [app jset].
    rewrite decide_False; [by rewrite IH|]. intros ->. unfold index_of_member in Hn. cbn in Hn. congruence.
  - clear -Hb Hk. induction Hb as [|[k' v'] b Hn Hb IH]; [by repeat constructor|]. cbn [jset].
    case_decide; by constructor.
Qed.

Lemma json_ok_jset k v ps : json_ok (JObj ps) = true → units_ok k = true → array_index k = None → json_ok v = true →
  json_ok (JObj (jset k v ps)) = true.
Proof.
  intros Hps Hk Hi Hv. cbn [json_ok] in Hps |- *. apply andb_true_iff in Hps as [Hm Ho]. apply andb_true_iff.
  split; [|by apply members_ok_jset]. apply forallb_Forall. apply forallb_Forall in Hm. clear Ho.
  induction Hm as [|[k' v'] ps Hp Hf IH]; cbn [jset].
  - constructor; [by rewrite Hk, Hv|constructor].
  - case_decide; (constructor; [|done]); [by rewrite Hk, Hv|done].
Qed.

Lemma filter_Forall {A} (P Q : A → Prop) `{∀ x, Decision (P x)} l : Forall Q l → Forall Q (filter P l).
Proof. rewrite !Forall_forall. intros Hl x [_ Hx]%list_elem_of_filter. by apply Hl. Qed.

Lemma members_ok_filter (P : jsstring * jsval → Prop) `{∀ p, Decision (P p)} ps :
  members_ok ps = true → members_ok (filter P ps) = true.
Proof.
  rewrite !members_ok_iff. intros [Hd (a & b & -> & Ha & Hs & Hb)]. split.
  - unfold jkeys in *. revert Hd. generalize (a ++ b). intros l Hd. eapply sublist_NoDup; [exact Hd|].
    apply fmap_sublist, sublist_filter.
  - exists (filter P a), (filter P b). rewrite filter_app. split_and!; [done| | |].
    + by apply filter_Forall.
    + clear Ha Hd. induction Hs as [|p a Hs IH Hp]; [constructor|]. rewrite filter_cons. case_decide; [|done].
      constructor; [done|]. by apply filter_Forall.
    + by apply filter_Forall.
Qed.

(** Assigning any property, and deleting one. *)
Lemma json_ok_put k v ps : json_ok (JObj ps) = true → units_ok k = true → json_ok v = true →
  json_ok (JObj (order_props (jset k v ps))) = true.
Proof.
  intros Hps Hk Hv. cbn [json_ok] in Hps |- *. apply andb_true_iff in Hps as [Hm Ho]. apply andb_true_iff. split.
  - apply forallb_Forall. rewrite order_props_perm. apply forallb_Forall in Hm. clear Ho.
    induction Hm as [|[k' v'] ps Hp Hf IH]; cbn [jset]; [constructor; [by rewrite Hk, Hv|constructor]|].
    case_decide; (constructor; [|done]); [by rewrite Hk, Hv|done].
  - apply members_ok_iff in Ho as [Hd _]. apply members_ok_iff. split; [|apply order_props_in_order].
    unfold jkeys. rewrite order_props_perm. by apply NoDup_jset.
Qed.

Lemma json_ok_jdel k ps : json_ok (JObj ps) = true → json_ok (JObj (jdel k ps)) = true.
Proof.
  cbn [json_ok]. rewrite !andb_true_iff. intros [Hm Ho]. split; [|by apply members_ok_filter].
  apply forallb_Forall, filter_Forall. by apply forallb_Forall.
Qed.

Lemma stringify_obj_cons gap ps : ∃ s, JSON_stringify gap (JObj ps) = 123%N :: s.
Proof. unfold JSON_stringify. cbn [stringify]. unfold json_group. case_match; by eexists. Qed.

Lemma stringify_obj_trimmed gap ps : trim (JSON_stringify gap (JObj ps)) = JSON_stringify gap (JObj ps).
Proof.
  apply trim_trimmed. split; intros c Hc.
  - destruct (stringify_obj_cons gap ps) as [s E]. rewrite E in Hc. by injection Hc as <-.
  - unfold JSON_stringify in Hc. cbn [stringify] in Hc. unfold json_group in Hc.
    assert (∃ s, last (s ++ js "}") = Some c) as [s Hs].
    { case_match; [by exists (js "{")|]. eexists. rewrite !app_assoc in Hc. exact Hc. }
    change (js "}") with [125%N] in Hs. rewrite last_snoc in Hs. by injection Hs as <-.
Qed.

(** ** What parsing yields *)

(** No undefined value, and no property twice. *)
Inductive parsed_ok : jsval → Prop :=
| ok_atom v : match v with JNull | JBool _ | JNum _ | JStr _ => true | _ => false end = true → parsed_ok v
| ok_arr l : Forall parsed_ok l → parsed_ok (JArr l)
| ok_obj ps : NoDup (jkeys ps) → Forall (λ p, parsed_ok p.2) ps → parsed_ok (JObj ps).

Lemma make_obj_parsed ps : Forall (λ p, parsed_ok p.2) ps → parsed_ok (make_obj ps).
Proof.
  intros Hps. unfold make_obj.
  assert (∀ m, NoDup (jkeys m) → Forall (λ p, parsed_ok p.2) m →
    NoDup (jkeys (foldl (λ m p, jset p.1 p.2 m) m ps)) ∧ Forall (λ p, parsed_ok p.2) (foldl (λ m p, jset p.1 p.2 m) m ps)) as Hfold.
  { induction Hps as [|[k v] ps Hp _ IH]; intros m HN HF; [done|]. cbn [foldl fst snd]. apply IH; [by apply NoDup_jset|].
    clear IH. induction HF as [|[k' v'] m Hv' HF IH]; cbn [jset]; [by apply Forall_singleton|].
    apply NoDup_cons in HN as [_ HN]. case_decide; constructor; auto. }
  destruct (Hfold []) as [HN HF]; [by apply NoDup_nil_2|constructor|]. pose proof (order_props_perm (foldl (λ m p, jset p.1 p.2 m) [] ps)) as Hperm.
  constructor; [unfold jkeys; by rewrite Hperm|by rewrite Hperm].
Qed.

Lemma parse_ok fuel :
  (∀ s v r, parse_value fuel s = Some (v, r) → parsed_ok v) ∧
  (∀ s l r, parse_elements fuel s = Some (l, r) → Forall parsed_ok l) ∧
  (∀ s l r, parse_members fuel s = Some (l, r) → Forall (λ p, parsed_ok p.2) l).
Proof.
  induction fuel as [|fuel (IHv & IHe & IHm)]; [by split_and!|]. split_and!; intros s v r H.
  - cbn [parse_value] in H. repeat (case_match; simplify_eq; try done).
    + by apply ok_atom.
    + by apply ok_arr, Forall_nil.
    + eapply ok_arr, IHe; done.
    + apply ok_obj; [by apply NoDup_nil_2|by apply Forall_nil].
    + eapply make_obj_parsed, IHm; done.
    + unfold parse_atom in H. repeat (case_match; simplify_eq; try (by apply ok_atom)).
      destruct (parse_number _) as [[x r']|]; [|done]. injection H as <- <-. by apply ok_atom.
  - cbn [parse_elements] in H. repeat (case_match; simplify_eq; try done); constructor; eauto.
  - cbn [parse_members] in H. repeat (case_match; simplify_eq; try done); constructor; cbn; eauto.
Qed.

Lemma JSON_parse_ok s v : JSON_parse s = Some v → parsed_ok v.
Proof.
  unfold JSON_parse. destruct (parse_value _ s) as [[x r]|] eqn:E; [|done]. destruct (skip_ws r); [|done]. intros [= <-].
  by eapply parse_ok.
Qed.
