(* ===== verification/JsInteger.v ===== *)
(** Integers below 2^53 as numbers: they print as decimal digits and read back, so times
    and durations in milliseconds survive their JSON. *)
From S2P Require Import Prelude JsString JsValue Json JsPrint JsonQuote JsonPrint.
Open Scope Z_scope.

(** ** The number of an integer *)

Lemma digits2_shift d p : Z.pos (SpecFloat.digits2_pos (Pos.iter xO p d)) = Z.pos d + Z.pos (SpecFloat.digits2_pos p).
Proof.
  induction d as [|d IH] using Pos.peano_ind; [cbn; lia|].
  rewrite Pos.iter_succ. cbn [SpecFloat.digits2_pos]. lia.
Qed.

Lemma shift_value d p : Z.pos (Pos.iter xO p d) = Z.pos p * 2 ^ Z.pos d.
Proof.
  induction d as [|d IH] using Pos.peano_ind; [cbn; lia|].
  rewrite Pos.iter_succ, Pos2Z.inj_succ, Z.pow_succ_r by lia. lia.
Qed.

Lemma digits2_bounds p : 2 ^ (Z.pos (SpecFloat.digits2_pos p) - 1) <= Z.pos p < 2 ^ Z.pos (SpecFloat.digits2_pos p).
Proof.
  induction p as [p IH|p IH|]; [| |done]; cbn [SpecFloat.digits2_pos]; rewrite Pos2Z.inj_succ;
    rewrite (Z.pow_succ_r 2 (Z.pos _)) by lia;
    replace (Z.succ (Z.pos (SpecFloat.digits2_pos p)) - 1) with (Z.succ (Z.pos (SpecFloat.digits2_pos p) - 1)) by lia;
    rewrite Z.pow_succ_r by lia; lia.
Qed.

(** A mantissa of 53 digits is rounded to itself. *)
Lemma round_exact m e : Z.pos (SpecFloat.digits2_pos m) = 53 → -1074 <= e <= 0 →
  binary_round_aux 53 1024 false (Z.pos m) e loc_Exact = S754_finite false m e.
Proof.
  intros Hd He. unfold binary_round_aux, shr_fexp. cbn [Zdigits2 shr_record_of_loc].
  assert (fexp 53 1024 (Z.pos (SpecFloat.digits2_pos m) + e) - e = 0) as E.
  { rewrite Hd. unfold fexp, emin. lia. }
  rewrite E. cbn [shr shr_m loc_of_shr_record round_nearest_even Zdigits2 shr_record_of_loc]. rewrite E. cbn [shr shr_m].
  by rewrite (proj2 (Z.leb_le _ _)) by lia.
Qed.

Lemma num_of_pos p : Z.pos p < 2 ^ 53 → ∃ m e,
  num_of_Z (Z.pos p) = S754_finite false m e ∧ -52 <= e <= 0 ∧ Z.pos m = Z.pos p * 2 ^ (- e).
Proof.
  intros Hp. pose proof (digits2_bounds p) as [Hlo Hhi]. set (d := SpecFloat.digits2_pos p) in *.
  assert (Z.pos d <= 53) as Hd.
  { apply Z.le_ngt. intros Hgt. assert (2 ^ 53 <= 2 ^ (Z.pos d - 1)) by (apply Z.pow_le_mono_r; lia). lia. }
  unfold num_of_Z, binary_normalize, binary_round. fold d.
  assert (fexp 53 1024 (Z.pos d + 0) = Z.pos d - 53) as -> by (unfold fexp, emin; lia).
  unfold shl_align. destruct (Z.pos d - 53 - 0) as [|q|q] eqn:E; [|lia|].
  - exists p, 0. rewrite round_exact by (fold d; lia). split_and!; [done|lia|lia|lia].
  - exists (Pos.iter xO p q), (Z.pos d - 53). rewrite round_exact by (rewrite ?digits2_shift; fold d; lia).
    split_and!; [done|lia|lia|]. rewrite shift_value. f_equal. f_equal. lia.
Qed.

Lemma num_of_Z_spec z : 0 <= z < 2 ^ 53 → is_integer (num_of_Z z) = true ∧ num_to_Z (num_of_Z z) = z.
Proof.
  intros [Hz Hlt]. destruct z as [|p|p]; [done| |lia]. destruct (num_of_pos p Hlt) as (m & e & -> & He & Hm).
  unfold is_integer, num_to_Z. destruct (Z.leb_spec 0 e) as [H0|H0].
  - assert (e = 0) as -> by lia. split; [done|]. lia.
  - cbn [orb]. pose proof (Z.pow_pos_nonneg 2 (- e) ltac:(lia) ltac:(lia)). rewrite Hm. split; [apply Z.eqb_eq, Z.mod_mul; lia|]. apply Z.div_mul. lia.
Qed.

(** ** Printing *)
Lemma SFeqb_finite x m e : SFeqb x (S754_finite false m e) = true → x = S754_finite false m e.
Proof.
  unfold SFeqb, SFcompare. destruct x as [s|s| |s m' e']; [by destruct s|by destruct s|done|]. destruct s; [done|].
  destruct (Z.compare_spec e' e) as [->| |]; [|done..]. change (Pos.compare_cont Eq m' m) with (Pos.compare m' m).
  destruct (Pos.compare_spec m' m) as [->| |]; done.
Qed.

Lemma dec_to_num_nonneg s e : 0 < s → 0 <= e → dec_to_num false (Z.to_N s) e = num_of_Z (s * 10 ^ e).
Proof.
  intros Hs He. destruct s as [|s|s]; [lia| |lia]. cbn [Z.to_N dec_to_num]. rewrite (proj2 (Z.leb_le 0 e)) by done.
  pose proof (Z.pow_pos_nonneg 10 e ltac:(lia) He). by destruct (Z.pos s * 10 ^ e) eqn:E; [lia| |lia].
Qed.

Lemma decimal_point_bounds z k : 0 < z < 2 ^ 53 → 0 <= k → 1 <= decimal_point (z * 2 ^ k) (2 ^ k) <= 18.
Proof.
  intros Hz Hk. unfold decimal_point. rewrite Z.log2_mul_pow2, Z.log2_pow2 by lia. replace (k + Z.log2 z - k) with (Z.log2 z) by lia.
  assert (0 <= Z.log2 z <= 52) as Hl.
  { split; [apply Z.log2_nonneg|]. assert (Z.log2 z < 53); [|lia]. apply Z.log2_lt_pow2; lia. }
  set (est := Z.log2 z * 30103 / 100000). assert (0 <= est <= 15) as He.
  { subst est. split; [apply Z.div_pos; lia|]. assert (Z.log2 z * 30103 / 100000 < 16); [|lia]. apply Z.div_lt_upper_bound; lia. }
  pose proof (Z.pow_pos_nonneg 2 k ltac:(lia) Hk) as Hpk.
  assert (∀ n, n <= 0 → below_pow10 (z * 2 ^ k) (2 ^ k) n = false) as Hb.
  { intros n Hn. unfold below_pow10. destruct (Z.leb_spec 0 n) as [H0|H0].
    - assert (n = 0) as -> by lia. apply Z.ltb_ge. nia.
    - apply Z.ltb_ge. pose proof (Z.pow_pos_nonneg 10 (- n) ltac:(lia) ltac:(lia)) as Hq. revert Hpk Hq. generalize (2 ^ k), (10 ^ (- n)).
      intros a b Ha Hb. assert (1 <= z * b) by nia. nia. }
  destruct (below_pow10 _ _ (est - 1)) eqn:E1; [|destruct (below_pow10 _ _ est) eqn:E2; [|repeat case_match; lia]].
  - destruct (Z.le_gt_cases (est - 1) 0); [by rewrite Hb in E1|lia].
  - destruct (Z.le_gt_cases est 0); [by rewrite Hb in E2|lia].
Qed.

Section shortest.
Context (z : Z) (Hz : 0 < z < 2 ^ 53) (m : positive) (e : Z).
Context (Hx : num_of_Z z = S754_finite false m e) (He : e <= 0) (Hm : Z.pos m = z * 2 ^ (- e)).

Lemma shortest_spec fuel n k : 1 <= k <= n → n - k <= Z.of_nat fuel →
  let '(s, k', n') := shortest fuel (S754_finite false m e) (z * 2 ^ (- e)) (2 ^ (- e)) n k in
  1 <= s ∧ 1 <= k' <= n' ∧ n' <= n + 1 ∧ num_of_Z (s * 10 ^ (n' - k')) = S754_finite false m e.
Proof.
  set (x := S754_finite false m e). set (num := z * 2 ^ (- e)). set (den := 2 ^ (- e)).
  assert (∀ s p, 0 <= p → SFeqb (dec_to_num false (Z.to_N s) p) x = true → 1 <= s ∧ num_of_Z (s * 10 ^ p) = x) as Hfits.
  { intros s p Hp Hs%SFeqb_finite. assert (1 <= s) as Hpos by (destruct s; [done|lia|done]). split; [done|]. by rewrite <- dec_to_num_nonneg by lia. }
  assert (scaled num den 0 = z ∧ SFeqb (dec_to_num false (Z.to_N z) 0) x = true) as [Hlast Hlastfits].
  { split.
    - unfold scaled. cbn [Z.leb]. change (10 ^ 0) with 1. rewrite Z.mul_1_r. apply Z.div_mul. pose proof (Z.pow_pos_nonneg 2 (- e) ltac:(lia) ltac:(lia)). lia.
    - rewrite dec_to_num_nonneg by lia. change (10 ^ 0) with 1. rewrite Z.mul_1_r, Hx. unfold x, SFeqb, SFcompare. by rewrite Z.compare_refl, Pos.compare_cont_refl. }
  revert k. induction fuel as [|fuel IH]; intros k Hk Hf; cbn [shortest];
    set (lo := scaled num den (k - n)); set (pick := match SFeqb (dec_to_num false (Z.to_N lo) (n - k)) x, _ with true, true => _ | _, _ => _ end).
  all: assert (∀ s, pick = Some s → 1 <= s ∧ num_of_Z (s * 10 ^ (n - k)) = x) as Hpick
    by (intros s Hs; apply Hfits; [lia|]; revert Hs; unfold pick; destruct (SFeqb _ x) eqn:E1, (SFeqb (dec_to_num false (Z.to_N (lo + 1)) _) x) eqn:E2;
        repeat case_match; congruence).
  all: assert (pick = None → k < n) as Hnone
    by (intros Hp; destruct (Z.eq_dec k n) as [Ekn|]; [|lia]; exfalso; revert Hp; unfold pick, lo; subst k; replace (n - n) with 0 by lia;
        rewrite Hlast, Hlastfits; repeat case_match; done).
  all: destruct pick as [s|].
  1, 3: destruct (Hpick s eq_refl) as [Hs Hv]; destruct (Z.eqb_spec s (10 ^ k)) as [->|]; [|split_and!; [lia|lia|lia|lia|done]];
    split_and!; [lia|lia|lia|lia|]; rewrite <- Hv; f_equal; replace (n + 1 - 1) with (k + (n - k)) by lia; rewrite Z.pow_add_r by lia; lia.
  - specialize (Hnone eq_refl). lia.
  - specialize (Hnone eq_refl). apply IH; lia.
Qed.
End shortest.

(** ** Reading back *)
Lemma span_digits_all ds : Forall (λ c, is_digit c = true) ds → span_digits ds = (ds, []).
Proof. induction 1 as [|c ds Hc _ IH]; [done|]. cbn [span_digits]. by rewrite Hc, IH. Qed.

Lemma parse_dec_zeros ds n : parse_dec (ds ++ replicate n 48%N) = (parse_dec ds * 10 ^ N.of_nat n)%N.
Proof.
  unfold parse_dec at 1. rewrite foldl_app. fold (parse_dec ds). rewrite foldl_dec_step, length_replicate.
  assert (parse_dec (replicate n 48%N) = 0%N) as ->; [|lia]. unfold parse_dec. induction n as [|n IH]; [done|]. exact IH.
Qed.

Lemma show_digits_head fuel n acc : (0 < n < 2 ^ N.of_nat fuel)%N → head (show_digits fuel n acc) ≠ Some 48%N.
Proof.
  revert n acc. induction fuel as [|fuel IH]; intros n acc Hn; [cbn in Hn; lia|]. cbn [show_digits].
  pose proof (N.div_mod n 10 ltac:(lia)) as Hdm. destruct (N.eqb_spec (n / 10) 0) as [E|E].
  - cbn. intros [= H]. rewrite E in Hdm. revert H Hdm. generalize (n mod 10)%N. intros d. lia.
  - apply IH. split; [by apply N.neq_0_lt_0|]. apply N.Div0.div_lt_upper_bound. rewrite Nat2N.inj_succ, N.pow_succ_r' in Hn. lia.
Qed.

Lemma show_N_head n : (0 < n)%N → head (show_N n) ≠ Some 48%N.
Proof.
  intros Hn. apply show_digits_head. split; [done|]. rewrite Nat2N.inj_succ, N2Nat.id. by apply N.log2_spec.
Qed.

Lemma parse_digits ds : ds ≠ [] → Forall (λ c, is_digit c = true) ds → head ds ≠ Some 48%N →
  parse_number ds = Some (dec_to_num false (parse_dec ds) 0, []).
Proof.
  intros Hne Hd Hh. unfold parse_number. assert (parse_sign false ds = (false, ds)) as ->.
  { destruct ds as [|c ds]; [done|]. apply Forall_cons_1 in Hd as [Hc _]. unfold parse_sign. destruct (N.eqb_spec c 45) as [->|]; done. }
  rewrite span_digits_all by done. rewrite !bool_decide_eq_false_2 by done. cbn [orb andb parse_fraction parse_exponent].
  by rewrite app_nil_r.
Qed.

(** An integer below 2^53 prints and reads back. *)
Lemma num_ok_Z z : 0 <= z < 2 ^ 53 → num_ok (num_of_Z z) = true.
Proof.
  intros [Hz Hlt]. destruct z as [|p|p]; [by vm_compute| |lia]. destruct (num_of_pos p Hlt) as (m & e & Hx & He & Hm). rewrite Hx.
  unfold num_ok. cbn [is_finite andb]. apply bool_decide_eq_true. unfold show_num.
  replace (Z.max 0 e) with 0 by lia. replace (Z.max 0 (- e)) with (- e) by lia. rewrite Hm. change (2 ^ 0) with 1. rewrite Z.mul_1_r.
  pose proof (decimal_point_bounds (Z.pos p) (- e) ltac:(lia) ltac:(lia)) as Hn. set (n := decimal_point _ _) in *.
  pose proof (shortest_spec (Z.pos p) ltac:(lia) m e Hx ltac:(lia) 20 n 1 ltac:(lia) ltac:(lia)) as Hs.
  destruct (shortest _ _ _ _ _ _) as [[s k'] n']. destruct Hs as (Hs1 & Hk & Hn' & Hv). cbn [app]. unfold layout.
  rewrite (proj2 (Z.leb_le k' n')), (proj2 (Z.leb_le n' 21)) by lia. cbn [andb]. set (ds := show_N (Z.to_N s) ++ zeros (n' - k')).
  assert (parse_dec ds = Z.to_N (s * 10 ^ (n' - k'))) as Hpd.
  { unfold ds, zeros. rewrite parse_dec_zeros, parse_show_N. rewrite Z2N.inj_mul by (try apply Z.pow_nonneg; lia). f_equal.
    rewrite Z2N.inj_pow by lia. f_equal. lia. }
  rewrite parse_digits.
  - rewrite Hpd, dec_to_num_nonneg by (try lia; pose proof (Z.pow_pos_nonneg 10 (n' - k') ltac:(lia) ltac:(lia)); nia).
    change (10 ^ 0) with 1. by rewrite Z.mul_1_r, Hv.
  - unfold ds. intros [E _]%app_eq_nil. by apply show_N_not_nil in E.
  - unfold ds, zeros. apply Forall_app. split; [apply show_N_digits|]. by apply Forall_replicate.
  - unfold ds. destruct (show_N (Z.to_N s)) as [|c l] eqn:E; [by apply show_N_not_nil in E|]. cbn. intros [= ->].
    apply (show_N_head (Z.to_N s)); [lia|]. by rewrite E.
Qed.
