(* ===== verification/StorageSchema.v ===== *)
(** The schemas of what the playground stores in the browser
    (web/src/features/playground/lib/storage/storage-schema.ts), and the texts that are
    stored.

    A zod schema is an interface of three operations ([Schema]): the check of a typed
    value before it is written, the value that is written, and the reader of a value that
    was parsed from JSON.  Each of the three schemas of the file is an instance, field by
    field in the order of the source, and satisfies the laws that storing relies on
    ([SchemaLaws]).  Times and durations are integers here, as the code makes them; a
    stored number that is not an integer is refused by the model's reader. *)
From S2P Require Import Prelude JsString JsValue Json JsPrint JsonQuote JsonPrint JsInteger ChatMessages.

(** ** Constants *)
Definition STORAGE_VERSION : Z := 1.
Definition MAX_STORED_MESSAGES : nat := 100.
Definition MAX_STORED_MESSAGES_BYTES : Z := 1024 * 1024.
Definition MAX_LOADED_MESSAGES_CHARS : Z := 120000.
Definition MAX_LOADED_MESSAGE_CHARS : nat := Z.to_nat 40000.

(** ** The interface *)
Class Schema (T : Type) := {
  schema_parse : jsval → option T;
  schema_check : T → option T;
  schema_value : T → jsval
}.

(** The text of the versioned envelope. *)
Definition envelope_text {T} `{Schema T} (x : T) : jsstring :=
  JSON_stringify 0 (JObj [(js "version", JNum (num_of_Z STORAGE_VERSION)); (js "data", schema_value x)]).

(** A check returns its argument; the value of a storable object that passes it prints, and
    reads as the object. *)
Class SchemaLaws (T : Type) `{Schema T} := {
  storable : T → Prop;
  check_same x y : schema_check x = Some y → y = x;
  value_prints x : storable x → json_ok (schema_value x) = true;
  value_reads x : storable x → schema_check x = Some x → schema_parse (schema_value x) = Some x
}.

Lemma envelope_parse {T} `{SchemaLaws T} (x : T) : storable x →
  JSON_parse (envelope_text x) =
  Some (JObj [(js "version", JNum (num_of_Z STORAGE_VERSION)); (js "data", schema_value x)]).
Proof.
  intros Hx. apply JSON_parse_stringify. cbn [json_ok forallb]. rewrite (value_prints x Hx). by vm_compute.
Qed.

(** ** Objects with optional properties *)
Definition named_fields (ps : list (string * jsval)) : list (jsstring * jsval) := (λ p, (js p.1, p.2)) <$> ps.
Definition object_of (ps : list (string * jsval)) : jsval := JObj (filter (λ p, is_undef p.2 = false) (named_fields ps)).
Definition optional {A} (f : A → jsval) (o : option A) : jsval := match o with Some x => f x | None => JUndef end.

(** [.optional()], [.nullable()] and [z.array]. *)
Definition read_optional {A} (f : jsval → option A) (v : jsval) : option (option A) :=
  match v with JUndef => Some None | _ => Some <$> f v end.
Definition read_nullable {A} (f : jsval → option A) (v : jsval) : option (option A) :=
  match v with JNull => Some None | _ => Some <$> f v end.
Definition read_list {A} (f : jsval → option A) (v : jsval) : option (list A) := as_array v ≫= mapM f.
Definition read_bool (v : jsval) : option bool := match v with JBool b => Some b | _ => None end.
Definition read_finite (v : jsval) : option jsnum := match v with JNum x => if is_finite x then Some x else None | _ => None end.
Definition read_time (v : jsval) : option Z :=
  match v with JNum x => if is_integer x then Some (num_to_Z x) else None | _ => None end.
(** [z.object]: an object that is no array. *)
Definition read_object {A} (f : (string → jsval) → option A) (v : jsval) : option A :=
  match v with JObj _ => f (λ k, prop k v) | _ => None end.

Definition time (z : Z) : jsval := JNum (num_of_Z z).

(** ** Messages *)
Definition role_text (r : MessageRole) : jsstring :=
  js match r with user => "user" | assistant => "assistant" | system => "system" end.
Definition messageRoleSchema (v : jsval) : option MessageRole :=
  if is_lit v "user" then Some user else if is_lit v "assistant" then Some assistant
  else if is_lit v "system" then Some system else None.

Definition status_text (s : MessageStatus) : jsstring :=
  js match s with loading => "loading" | streaming => "streaming" | complete => "complete" | error => "error" end.
Definition messageStatusSchema (v : jsval) : option MessageStatus :=
  if is_lit v "loading" then Some loading else if is_lit v "streaming" then Some streaming
  else if is_lit v "complete" then Some complete else if is_lit v "error" then Some error else None.

Definition version_value (v : MessageVersion) : jsval :=
  object_of [("id"%string, JStr (v_id v)); ("content"%string, JStr (content v))].
Definition messageVersionSchema : jsval → option MessageVersion := read_object (λ get,
  id ← as_string (get "id"%string); text ← as_string (get "content"%string); Some (mkVersion id text)).

Definition source_value (s : jsstring * jsstring) : jsval :=
  object_of [("href"%string, JStr s.1); ("title"%string, JStr s.2)].
Definition sourceSchema : jsval → option (jsstring * jsstring) := read_object (λ get,
  href ← as_string (get "href"%string); title ← as_string (get "title"%string); Some (href, title)).

Definition reasoning_value (r : Reasoning) : jsval :=
  object_of [("content"%string, JStr (r_content r)); ("duration"%string, time (r_duration r));
    ("startedAt"%string, optional time (r_startedAt r)); ("completedAt"%string, optional time (r_completedAt r));
    ("durationMs"%string, optional time (r_durationMs r))].
Definition reasoningSchema : jsval → option Reasoning := read_object (λ get,
  text ← as_string (get "content"%string); duration ← read_time (get "duration"%string);
  started ← read_optional read_time (get "startedAt"%string); completed ← read_optional read_time (get "completedAt"%string);
  ms ← read_optional read_time (get "durationMs"%string);
  Some (mkReasoning text duration started completed ms)).

Definition nullable (c : option jsstring) : jsval := match c with Some s => JStr s | None => JNull end.

Definition message_value (m : Message) : jsval :=
  object_of [("key"%string, JStr (key m)); ("from"%string, JStr (role_text (from m)));
    ("versions"%string, JArr (version_value <$> versions m));
    ("createdAt"%string, optional time (createdAt m)); ("startedAt"%string, optional time (startedAt m));
    ("completedAt"%string, optional time (completedAt m)); ("durationMs"%string, optional time (durationMs m));
    ("sources"%string, optional (λ l, JArr (source_value <$> l)) (sources m));
    ("reasoning"%string, optional reasoning_value (reasoning m));
    ("isReasoningStreaming"%string, optional JBool (isReasoningStreaming m));
    ("isReasoningComplete"%string, optional JBool (isReasoningComplete m));
    ("isContentComplete"%string, optional JBool (isContentComplete m));
    ("status"%string, optional (λ s, JStr (status_text s)) (status m));
    ("errorCode"%string, optional nullable (errorCode m))].

(** [.min(1)]. *)
Definition at_least_one {A} (l : list A) : option (list A) := match l with [] => None | _ => Some l end.

Definition messageSchema : jsval → option Message := read_object (λ get,
  k ← as_string (get "key"%string); r ← messageRoleSchema (get "from"%string);
  vs ← read_list messageVersionSchema (get "versions"%string) ≫= at_least_one;
  created ← read_optional read_time (get "createdAt"%string); started ← read_optional read_time (get "startedAt"%string);
  completed ← read_optional read_time (get "completedAt"%string); duration ← read_optional read_time (get "durationMs"%string);
  srcs ← read_optional (read_list sourceSchema) (get "sources"%string);
  reason ← read_optional reasoningSchema (get "reasoning"%string);
  streams ← read_optional read_bool (get "isReasoningStreaming"%string);
  reasoned ← read_optional read_bool (get "isReasoningComplete"%string);
  done ← read_optional read_bool (get "isContentComplete"%string);
  st ← read_optional messageStatusSchema (get "status"%string);
  code ← read_optional (read_nullable as_string) (get "errorCode"%string);
  Some (mkMessage k r vs created started completed duration srcs reason streams reasoned done st code)).

(** What the check of a typed message can refuse: a message without a version. *)
Definition message_checked (m : Message) : bool := negb (bool_decide (versions m = [])).

#[export] Instance messagesSchema : Schema (list Message) := {|
  schema_parse := read_list messageSchema;
  schema_check ms := if forallb message_checked ms then Some ms else None;
  schema_value ms := JArr (message_value <$> ms) |}.

(** ** Texts and times that survive *)
Definition time_ok (z : Z) : bool := (0 <=? z)%Z && (z <? 2 ^ 53)%Z.
Definition opt_ok {A} (f : A → bool) (o : option A) : bool := match o with Some x => f x | None => true end.
Definition version_ok (v : MessageVersion) : bool := units_ok (v_id v) && units_ok (content v).
Definition reasoning_ok (r : Reasoning) : bool :=
  units_ok (r_content r) && time_ok (r_duration r) && opt_ok time_ok (r_startedAt r) && opt_ok time_ok (r_completedAt r)
  && opt_ok time_ok (r_durationMs r).
Definition message_ok (m : Message) : bool :=
  units_ok (key m) && forallb version_ok (versions m) &&
  (opt_ok time_ok (createdAt m) && opt_ok time_ok (startedAt m) && opt_ok time_ok (completedAt m) && opt_ok time_ok (durationMs m)) &&
  opt_ok (forallb (λ s, units_ok s.1 && units_ok s.2)) (sources m) && opt_ok reasoning_ok (reasoning m) &&
  opt_ok (opt_ok units_ok) (errorCode m).

(** ** Objects are printed and read *)
Definition fields_ok (ps : list (string * jsval)) : Prop :=
  members_ok (named_fields ps) = true ∧ Forall (λ p, units_ok (js p.1) = true) ps.

Lemma prop_object_of k ps : fields_ok ps → prop k (object_of ps) = default JUndef (jget (js k) (named_fields ps)).
Proof.
  intros [Hm _]. apply andb_true_iff in Hm as [Hd%bool_decide_eq_true _]. unfold object_of, prop. revert Hd.
  generalize (named_fields ps). intros l. induction l as [|[k' v] l IH]; [done|]. intros [Hn Hd]%NoDup_cons. rewrite filter_cons. cbn [snd jget].
  destruct (decide (js k = k')) as [<-|Hk].
  - destruct (decide (is_undef v = false)) as [Hv|Hv]; [by cbn [jget]; rewrite decide_True|].
    destruct v; try done. cbn [default]. rewrite IH by done. by rewrite (proj2 (jget_None _ _)).
  - destruct (decide _); [cbn [jget]; rewrite decide_False by done|]; by apply IH.
Qed.

Lemma object_of_ok ps : fields_ok ps → Forall (λ p, p.2 = JUndef ∨ json_ok p.2 = true) ps → json_ok (object_of ps) = true.
Proof.
  intros [Hm Hu] Hv. unfold object_of. cbn [json_ok]. apply andb_true_iff. split; [|by apply members_ok_filter].
  apply forallb_Forall, Forall_forall. intros [k v] [Hdef (p & [= -> ->] & Hp)%list_elem_of_fmap]%list_elem_of_filter. cbn [snd] in Hdef.
  rewrite (proj1 (Forall_forall _ _) Hu p Hp). destruct (proj1 (Forall_forall _ _) Hv p Hp) as [E|E]; [by rewrite E in Hdef|done].
Qed.

Lemma read_object_of {A} (f : (string → jsval) → option A) ps x : fields_ok ps →
  (∀ get, (∀ k, get k = default JUndef (jget (js k) (named_fields ps))) → f get = Some x) → read_object f (object_of ps) = Some x.
Proof. intros Hp Hf. cbn [read_object object_of]. apply Hf. intros k. by apply prop_object_of. Qed.

#[local] Ltac literal_fields := split; [apply members_ok_named; in_list|repeat (constructor; [reflexivity|]); constructor].

Lemma read_time_time z : time_ok z = true → read_time (time z) = Some z.
Proof.
  unfold time_ok. intros [H1%Z.leb_le H2%Z.ltb_lt]%andb_true_iff. unfold time, read_time.
  destruct (num_of_Z_spec z) as [-> ->]; [lia|done].
Qed.
Lemma json_ok_time z : time_ok z = true → json_ok (time z) = true.
Proof. unfold time_ok. intros [H1%Z.leb_le H2%Z.ltb_lt]%andb_true_iff. apply num_ok_Z. lia. Qed.

Section optional.
Context {A : Type} (f : A → jsval) (ok : A → bool).

Lemma optional_ok o : (∀ x, ok x = true → json_ok (f x) = true) → opt_ok ok o = true → optional f o = JUndef ∨ json_ok (optional f o) = true.
Proof. intros Hf. destruct o; [right; by apply Hf|by left]. Qed.

Lemma read_optional_of (r : jsval → option A) o : (∀ x, ok x = true → r (f x) = Some x ∧ f x ≠ JUndef) → opt_ok ok o = true →
  read_optional r (optional f o) = Some o.
Proof.
  intros Hf. destruct o as [x|]; [|done]. cbn [opt_ok optional]. intros Hx. destruct (Hf x Hx) as [Hr Hu]. unfold read_optional.
  destruct (f x) eqn:E; [done|rewrite Hr; done..].
Qed.

Lemma read_list_of (r : jsval → option A) l : (∀ x, ok x = true → r (f x) = Some x) → forallb ok l = true → read_list r (JArr (f <$> l)) = Some l.
Proof.
  intros Hf Hl. cbn. induction l as [|x l IH]; [done|]. cbn [forallb] in Hl. apply andb_true_iff in Hl as [Hx Hl].
  cbn [fmap list_fmap mapM]. rewrite (Hf x Hx). cbn. rewrite IH by done. done.
Qed.

Lemma json_ok_list l : (∀ x, ok x = true → json_ok (f x) = true) → forallb ok l = true → json_ok (JArr (f <$> l)) = true.
Proof.
  intros Hf Hl. cbn [json_ok]. apply forallb_Forall, Forall_fmap. eapply Forall_impl; [by apply forallb_Forall|]. exact Hf.
Qed.
End optional.

(** The fields of each object. *)
Lemma version_fields v : fields_ok [("id"%string, JStr (v_id v)); ("content"%string, JStr (content v))].
Proof. literal_fields. Qed.

Lemma version_prints v : version_ok v = true → json_ok (version_value v) = true.
Proof.
  unfold version_ok. intros [H1 H2]%andb_true_iff. apply object_of_ok; [apply version_fields|]. repeat (constructor; [by right|]). constructor.
Qed.
Lemma version_reads v : messageVersionSchema (version_value v) = Some v.
Proof.
  apply read_object_of; [apply version_fields|]. intros get Hget. rewrite !Hget. by destruct v.
Qed.

Lemma source_fields (s : jsstring * jsstring) : fields_ok [("href"%string, JStr s.1); ("title"%string, JStr s.2)].
Proof. literal_fields. Qed.
Lemma source_prints s : units_ok s.1 && units_ok s.2 = true → json_ok (source_value s) = true.
Proof. intros [H1 H2]%andb_true_iff. apply object_of_ok; [apply source_fields|]. repeat (constructor; [by right|]). constructor. Qed.
Lemma source_reads s : sourceSchema (source_value s) = Some s.
Proof. apply read_object_of; [apply source_fields|]. intros get Hget. rewrite !Hget. by destruct s. Qed.

Lemma times_read o : opt_ok time_ok o = true → read_optional read_time (optional time o) = Some o.
Proof. apply read_optional_of. intros x Hx. split; [by apply read_time_time|done]. Qed.
Lemma times_print o : opt_ok time_ok o = true → optional time o = JUndef ∨ json_ok (optional time o) = true.
Proof. apply optional_ok. apply json_ok_time. Qed.

Lemma reasoning_laws r : reasoning_ok r = true → json_ok (reasoning_value r) = true ∧ reasoningSchema (reasoning_value r) = Some r.
Proof.
  unfold reasoning_ok. rewrite !andb_true_iff. intros [[[[H1 H2] H3] H4] H5]. split.
  - apply object_of_ok; [literal_fields|]. rewrite !Forall_cons, Forall_nil. cbn [snd]. split_and!; auto using times_print, json_ok_time.
  - apply read_object_of; [literal_fields|]. intros get Hget.
    rewrite (Hget "content"%string : _ = JStr (r_content r)), (Hget "duration"%string : _ = time (r_duration r)),
      (Hget "startedAt"%string : _ = optional time (r_startedAt r)), (Hget "completedAt"%string : _ = optional time (r_completedAt r)),
      (Hget "durationMs"%string : _ = optional time (r_durationMs r)).
    rewrite !times_read, read_time_time by done. by destruct r.
Qed.

Lemma role_reads r : messageRoleSchema (JStr (role_text r)) = Some r.
Proof. by destruct r. Qed.
Lemma status_reads s : messageStatusSchema (JStr (status_text s)) = Some s.
Proof. by destruct s. Qed.

Lemma message_prints m : message_ok m = true → json_ok (message_value m) = true.
Proof.
  unfold message_ok. rewrite !andb_true_iff. intros [[[[[H1 H2] [[[T1 T2] T3] T4]] H4] H5] H6].
  apply object_of_ok; [literal_fields|]. rewrite !Forall_cons, Forall_nil. cbn [snd]. split_and!; auto using times_print.
  - right. by destruct (from m).
  - right. eapply json_ok_list; [apply version_prints|done].
  - eapply optional_ok; [|exact H4]. intros l Hl. eapply json_ok_list; [|exact Hl]. apply source_prints.
  - eapply optional_ok; [|exact H5]. intros r Hr. by apply reasoning_laws.
  - by destruct (isReasoningStreaming m); [right|left].
  - by destruct (isReasoningComplete m); [right|left].
  - by destruct (isContentComplete m); [right|left].
  - by destruct (status m) as [[]|]; [right..|left].
  - eapply optional_ok; [|exact H6]. by intros [].
Qed.

Lemma message_reads m : message_ok m = true → message_checked m = true → messageSchema (message_value m) = Some m.
Proof.
  unfold message_ok, message_checked. rewrite !andb_true_iff, negb_true_iff, bool_decide_eq_false.
  intros [[[[[H1 H2] [[[T1 T2] T3] T4]] H4] H5] H6] Hv.
  apply read_object_of; [literal_fields|]. intros get Hget.
  rewrite (Hget "key"%string : _ = JStr (key m)), (Hget "from"%string : _ = JStr (role_text (from m))),
    (Hget "versions"%string : _ = JArr (version_value <$> versions m)), (Hget "createdAt"%string : _ = optional time (createdAt m)),
    (Hget "startedAt"%string : _ = optional time (startedAt m)), (Hget "completedAt"%string : _ = optional time (completedAt m)),
    (Hget "durationMs"%string : _ = optional time (durationMs m)),
    (Hget "sources"%string : _ = optional (λ l, JArr (source_value <$> l)) (sources m)),
    (Hget "reasoning"%string : _ = optional reasoning_value (reasoning m)),
    (Hget "isReasoningStreaming"%string : _ = optional JBool (isReasoningStreaming m)),
    (Hget "isReasoningComplete"%string : _ = optional JBool (isReasoningComplete m)),
    (Hget "isContentComplete"%string : _ = optional JBool (isContentComplete m)),
    (Hget "status"%string : _ = optional (λ s, JStr (status_text s)) (status m)),
    (Hget "errorCode"%string : _ = optional nullable (errorCode m)).
  rewrite role_reads, !times_read by done.
  assert (∀ o, read_optional read_bool (optional JBool o) = Some o) as Hbool by by intros [[]|].
  assert (read_optional messageStatusSchema (optional (λ s, JStr (status_text s)) (status m)) = Some (status m)) as ->
    by by destruct (status m) as [[]|].
  assert (read_optional (read_nullable as_string) (optional nullable (errorCode m)) = Some (errorCode m)) as ->
    by by destruct (errorCode m) as [[]|].
  rewrite !Hbool, (read_list_of _ version_ok messageVersionSchema) by (intros; try apply version_reads; done).
  rewrite (read_optional_of _ reasoning_ok reasoningSchema).
  2: { intros r Hr. split; [by apply reasoning_laws|done]. }
  2: done.
  rewrite (read_optional_of _ (forallb (λ s, units_ok s.1 && units_ok s.2)) (read_list sourceSchema)).
  2: { intros l Hl. split; [|done]. eapply read_list_of; [|exact Hl]. intros x _. apply source_reads. }
  2: done.
  cbn. destruct m as [? ? vs]. cbn in *. by destruct vs.
Qed.

#[export] Instance messages_laws : SchemaLaws (list Message).
Proof.
  refine {| storable := λ ms, forallb message_ok ms = true |}.
  - intros x y. cbn. destruct (forallb _ x); [by intros [= <-]|done].
  - intros ms Hms. eapply json_ok_list; [apply message_prints|done].
  - intros ms Hms Hc. cbn in Hc |- *. destruct (forallb message_checked ms) eqn:E; [|done].
    apply (read_list_of message_value (λ m, message_ok m && message_checked m)).
    + intros m [H1 H2]%andb_true_iff. by apply message_reads.
    + rewrite forallb_Forall in *. apply Forall_forall. intros m Hm. rewrite Forall_forall in Hms, E. by rewrite Hms, E.
Defined.

(** ** The configuration *)

(** [Partial<PlaygroundConfig>] and [Partial<ParameterEnabled>]. *)
Record StoredConfig := mkStoredConfig {
  sc_model : option jsstring; sc_group : option jsstring; sc_temperature : option jsnum; sc_top_p : option jsnum;
  sc_max_tokens : option jsnum; sc_frequency_penalty : option jsnum; sc_presence_penalty : option jsnum;
  sc_seed : option (option jsnum); sc_stream : option bool }.
Record StoredParameters := mkStoredParameters {
  sp_temperature : option bool; sp_top_p : option bool; sp_max_tokens : option bool; sp_frequency_penalty : option bool;
  sp_presence_penalty : option bool; sp_seed : option bool }.

Definition null_or_number (x : option jsnum) : jsval := match x with Some x => JNum x | None => JNull end.

Definition config_value (c : StoredConfig) : jsval :=
  object_of [("model"%string, optional JStr (sc_model c)); ("group"%string, optional JStr (sc_group c));
    ("temperature"%string, optional JNum (sc_temperature c)); ("top_p"%string, optional JNum (sc_top_p c));
    ("max_tokens"%string, optional JNum (sc_max_tokens c)); ("frequency_penalty"%string, optional JNum (sc_frequency_penalty c));
    ("presence_penalty"%string, optional JNum (sc_presence_penalty c)); ("seed"%string, optional null_or_number (sc_seed c));
    ("stream"%string, optional JBool (sc_stream c))].
Definition read_config : jsval → option StoredConfig := read_object (λ get,
  model ← read_optional as_string (get "model"%string); group ← read_optional as_string (get "group"%string);
  temperature ← read_optional read_finite (get "temperature"%string); top_p ← read_optional read_finite (get "top_p"%string);
  tokens ← read_optional read_finite (get "max_tokens"%string); frequency ← read_optional read_finite (get "frequency_penalty"%string);
  presence ← read_optional read_finite (get "presence_penalty"%string); seed ← read_optional (read_nullable read_finite) (get "seed"%string);
  stream ← read_optional read_bool (get "stream"%string);
  Some (mkStoredConfig model group temperature top_p tokens frequency presence seed stream)).

(** What the numbers of a typed configuration must satisfy. *)
Definition config_numbers (f : jsnum → bool) (c : StoredConfig) : bool :=
  opt_ok f (sc_temperature c) && opt_ok f (sc_top_p c) && opt_ok f (sc_max_tokens c) && opt_ok f (sc_frequency_penalty c)
  && opt_ok f (sc_presence_penalty c) && opt_ok (opt_ok f) (sc_seed c).

#[export] Instance playgroundConfigSchema : Schema StoredConfig := {|
  schema_parse := read_config;
  schema_check c := if config_numbers is_finite c then Some c else None;
  schema_value := config_value |}.

Definition parameters_value (p : StoredParameters) : jsval :=
  object_of [("temperature"%string, optional JBool (sp_temperature p)); ("top_p"%string, optional JBool (sp_top_p p));
    ("max_tokens"%string, optional JBool (sp_max_tokens p)); ("frequency_penalty"%string, optional JBool (sp_frequency_penalty p));
    ("presence_penalty"%string, optional JBool (sp_presence_penalty p)); ("seed"%string, optional JBool (sp_seed p))].
Definition read_parameters : jsval → option StoredParameters := read_object (λ get,
  temperature ← read_optional read_bool (get "temperature"%string); top_p ← read_optional read_bool (get "top_p"%string);
  tokens ← read_optional read_bool (get "max_tokens"%string); frequency ← read_optional read_bool (get "frequency_penalty"%string);
  presence ← read_optional read_bool (get "presence_penalty"%string); seed ← read_optional read_bool (get "seed"%string);
  Some (mkStoredParameters temperature top_p tokens frequency presence seed)).

#[export] Instance parameterEnabledSchema : Schema StoredParameters := {|
  schema_parse := read_parameters; schema_check := Some; schema_value := parameters_value |}.

Definition stored_config_ok (c : StoredConfig) : bool :=
  opt_ok units_ok (sc_model c) && opt_ok units_ok (sc_group c) && config_numbers num_ok c.

Lemma numbers_read o : opt_ok num_ok o = true → read_optional read_finite (optional JNum o) = Some o.
Proof. apply read_optional_of. intros x [Hx _]%andb_true_iff. split; [cbn; by rewrite Hx|done]. Qed.
Lemma numbers_print o : opt_ok num_ok o = true → optional JNum o = JUndef ∨ json_ok (optional JNum o) = true.
Proof. by apply optional_ok. Qed.
Lemma texts_read o : read_optional as_string (optional JStr o) = Some o.
Proof. by destruct o. Qed.
Lemma texts_print o : opt_ok units_ok o = true → optional JStr o = JUndef ∨ json_ok (optional JStr o) = true.
Proof. by apply optional_ok. Qed.
Lemma bools_read o : read_optional read_bool (optional JBool o) = Some o.
Proof. by destruct o as [[]|]. Qed.
Lemma bools_print o : optional JBool o = JUndef ∨ json_ok (optional JBool o) = true.
Proof. by destruct o; [right|left]. Qed.

#[export] Instance config_laws : SchemaLaws StoredConfig.
Proof.
  refine {| storable := λ c, stored_config_ok c = true |}.
  - intros x y. cbn. destruct (config_numbers _ x); [by intros [= <-]|done].
  - intros c. unfold stored_config_ok, config_numbers. rewrite !andb_true_iff. intros [[Hm Hg] [[[[[H1 H2] H3] H4] H5] H6]].
    apply object_of_ok; [literal_fields|]. rewrite !Forall_cons, Forall_nil. cbn [snd].
    split_and!; auto using texts_print, numbers_print, bools_print. by eapply optional_ok; [|exact H6]; intros [].
  - intros c Hc _. revert Hc. unfold stored_config_ok, config_numbers. rewrite !andb_true_iff. intros [_ [[[[[H1 H2] H3] H4] H5] H6]].
    apply read_object_of; [literal_fields|]. intros get Hget.
    rewrite (Hget "model"%string : _ = optional JStr (sc_model c)), (Hget "group"%string : _ = optional JStr (sc_group c)),
      (Hget "temperature"%string : _ = optional JNum (sc_temperature c)), (Hget "top_p"%string : _ = optional JNum (sc_top_p c)),
      (Hget "max_tokens"%string : _ = optional JNum (sc_max_tokens c)), (Hget "frequency_penalty"%string : _ = optional JNum (sc_frequency_penalty c)),
      (Hget "presence_penalty"%string : _ = optional JNum (sc_presence_penalty c)), (Hget "seed"%string : _ = optional null_or_number (sc_seed c)),
      (Hget "stream"%string : _ = optional JBool (sc_stream c)).
    rewrite !texts_read, !numbers_read, bools_read by done.
    rewrite (read_optional_of _ (opt_ok num_ok) (read_nullable read_finite)); [by destruct c| |done].
    intros [x|]; [|by split]. cbn. intros [Hx _]%andb_true_iff. by rewrite Hx.
Defined.

#[export] Instance parameters_laws : SchemaLaws StoredParameters.
Proof.
  refine {| storable := λ _, True |}.
  - intros x y. cbn. by intros [= <-].
  - intros p _. apply object_of_ok; [literal_fields|]. rewrite !Forall_cons, Forall_nil. cbn [snd]. split_and!; auto using bools_print.
  - intros p _ _. apply read_object_of; [literal_fields|]. intros get Hget.
    rewrite (Hget "temperature"%string : _ = optional JBool (sp_temperature p)), (Hget "top_p"%string : _ = optional JBool (sp_top_p p)),
      (Hget "max_tokens"%string : _ = optional JBool (sp_max_tokens p)), (Hget "frequency_penalty"%string : _ = optional JBool (sp_frequency_penalty p)),
      (Hget "presence_penalty"%string : _ = optional JBool (sp_presence_penalty p)), (Hget "seed"%string : _ = optional JBool (sp_seed p)).
    rewrite !bools_read. by destruct p.
Defined.
