(* ===== verification/ChatStorage.v ===== *)
(** The playground's persistence: what is read from and written to the browser's local
    storage, and how stored messages are trimmed and repaired when they are loaded
    (web/src/features/playground/lib/storage, lib/state).

    The local storage is a finite map from names to texts.  Writing may be refused (the
    quota): [fits] is the browser's decision.  The schemas and the texts that are stored
    are those of StorageSchema.v.  The functions that read the clock take what the clock
    shows, message by message.

    Arrays are compared by reference when the code decides whether to write back, so the
    functions that may return their argument say whether they did. *)
From S2P Require Import Prelude JsString JsValue Json JsPrint JsonQuote JsonPrint JsInteger RegExp ChatMessages ChatFacts StorageSchema.

(** ** constants.ts *)
Inductive StorageKey := CONFIG | MESSAGES | PARAMETER_ENABLED.
Definition STORAGE_KEYS (k : StorageKey) : jsstring :=
  match k with
  | CONFIG => js "playground_config"
  | MESSAGES => js "playground_messages"
  | PARAMETER_ENABLED => js "playground_parameter_enabled"
  end.

Abbreviation storage := (gmap jsstring jsstring).

(** ** Reading and writing *)

(** A parsed value, or the [null] of nothing stored; [None] is the error of JSON.parse. *)
Definition readStoredValue (k : StorageKey) (st : storage) : option jsval :=
  match st !! STORAGE_KEYS k with
  | None | Some [] => Some JNull
  | Some saved => JSON_parse saved
  end.

Definition readStoredMessagesValue (st : storage) : storage * option jsval :=
  match st !! STORAGE_KEYS MESSAGES with
  | None | Some [] => (st, Some JNull)
  | Some saved =>
      if (MAX_STORED_MESSAGES_BYTES <? Z.of_nat (length saved))%Z
      then (delete (STORAGE_KEYS MESSAGES) st, Some JNull)
      else (st, JSON_parse saved)
  end.

Definition unwrapStoredValue (value : jsval) : jsval :=
  match value with
  | JObj ps => if jhas (js "version") ps && jhas (js "data") ps then prop "data" value else value
  | _ => value
  end.

(** ** Trimming *)

(** The last hundred messages, and whether the argument itself was returned. *)
Definition trimMessages (ms : list Message) : list Message * bool :=
  if (length ms <=? MAX_STORED_MESSAGES)%nat then (ms, true)
  else (drop (length ms - MAX_STORED_MESSAGES) ms, false).

Definition getMessageSize (m : Message) : Z :=
  let versionsSize := foldl (λ total v, (total + Z.of_nat (length (content v)))%Z) 0%Z (versions m) in
  let reasoningSize := match reasoning m with Some r => Z.of_nat (length (r_content r)) | None => 0%Z end in
  (versionsSize + reasoningSize)%Z.

Definition TRUNCATED_CONTENT_SUFFIX : jsstring := [10; 10]%N ++ js "[...]".

Definition truncateText (text : jsstring) (maxLength : nat) : jsstring :=
  if (length text <=? maxLength)%nat then text
  else if (maxLength <=? length TRUNCATED_CONTENT_SUFFIX)%nat then take maxLength text
  else take (maxLength - length TRUNCATED_CONTENT_SUFFIX) text ++ TRUNCATED_CONTENT_SUFFIX.

(** ** Repeated sections *)
Definition MIN_PREFIX_COLLAPSE_LENGTH : Z := 2000.
Definition MIN_REPEATED_SECTION_COUNT : nat := 3.

Local Open Scope re_scope.

(** A line of two to six hashes, a number with a point, and a title. *)
Definition SECTION_HEADING_LINE_PATTERN : regex :=
  BolM ⋅ lit "##" ⋅ Opt (lit "#" ⋅ Opt (lit "#" ⋅ Opt (lit "#" ⋅ Opt (lit "#")))) ⋅
  Plus (Cls is_ws) ⋅ Plus (Cls is_digit) ⋅ lit "." ⋅ Plus (Cls is_ws) ⋅ Plus (Cls not_newline) ⋅ EolM.

Record SectionOccurrence := { so_heading : jsstring; so_index : nat }.

Definition getSectionOccurrences (text : jsstring) : list SectionOccurrence :=
  (λ '(i, h), {| so_heading := h; so_index := i |}) <$> match_all SECTION_HEADING_LINE_PATTERN text.

Definition getHeadingCounts (occurrences : list SectionOccurrence) : list (jsstring * nat) :=
  foldl (λ counts o, jset (so_heading o) (S (default O (jget (so_heading o) counts))) counts)
        [] occurrences.

(** The loop from the last occurrence down: the places where each heading that occurs
    often enough occurs last. *)
Fixpoint last_repeated (counts : list (jsstring * nat)) (seen : list jsstring)
    (occurrences : list SectionOccurrence) : list nat :=
  match occurrences with
  | [] => []
  | o :: rest =>
      let count := default O (jget (so_heading o) counts) in
      if (count <? MIN_REPEATED_SECTION_COUNT)%nat || set_has (so_heading o) seen
      then last_repeated counts seen rest
      else so_index o :: last_repeated counts (set_add (so_heading o) seen) rest
  end.

(** [None] is the code's [-1]. *)
Definition findLastRepeatedSectionRunStart (text : jsstring) : option nat :=
  let occurrences := getSectionOccurrences text in
  match last_repeated (getHeadingCounts occurrences) [] (reverse occurrences) with
  | [] => None
  | i :: l => Some (foldl Nat.min i l)
  end.

Definition collapseRepeatedSectionSnapshots (text : jsstring) : jsstring :=
  if (Z.of_nat (length text) <? MIN_PREFIX_COLLAPSE_LENGTH)%Z then text
  else match findLastRepeatedSectionRunStart text with
       | None => text
       | Some start => drop start text
       end.

(** ** Loading *)

(** [a ?? b] *)
Definition first_some (a b : option Z) : option Z := match a with Some _ => a | None => b end.

Definition load_text (text : jsstring) : jsstring :=
  truncateText (collapseRepeatedSectionSnapshots text) MAX_LOADED_MESSAGE_CHARS.

(** The first half of [normalizeStoredMessageForLoad]: texts collapsed and cut, and
    whether any changed. *)
Definition shorten (m : Message) : Message * bool :=
  let versionChanged v :=
    negb (bool_decide (load_text (content v) = content v) &&
          bool_decide (collapseRepeatedSectionSnapshots (content v) = content v)) in
  let vs := (λ v, mkVersion (v_id v) (load_text (content v))) <$> versions m in
  let r := (λ r, mkReasoning (truncateText (r_content r) MAX_LOADED_MESSAGE_CHARS) (r_duration r)
                   (r_startedAt r) (r_completedAt r) (r_durationMs r)) <$> reasoning m in
  let changed := existsb versionChanged (versions m) ||
                 negb (bool_decide (r_content <$> r = r_content <$> reasoning m)) in
  if changed then (set_reasoning r (set_versions vs m), true) else (m, false).

(** What the clock shows during the normalization of one message. *)
Record clock := { at_fallback : Z; at_finalize1 : Z; at_finalize2 : Z }.

(** The message, and whether it is another object than the argument. *)
Definition normalizeStoredMessageForLoad (now : clock) (m : Message) : Message * bool :=
  let '(normalized, changed) := shorten m in
  if negb (isAssistantMessagePending normalized) then (normalized, changed)
  else
    let hasReasoning := match reasoning normalized with
                        | Some r => negb (bool_decide (trim (r_content r) = []))
                        | None => false
                        end in
    if negb (hasMessageContent normalized) && negb hasReasoning then (normalized, changed)
    else
      let completed :=
        default (at_fallback now)
          (first_some (completedAt normalized)
             (first_some (reasoning normalized ≫= r_completedAt)
                (first_some (startedAt normalized) (createdAt normalized)))) in
      (completeAssistantTiming
         (set_isReasoningStreaming false (set_status complete
            (finalizeMessage (at_finalize1 now) (at_finalize2 now) normalized []))) completed, true).

(** The loop from the last message down, with the size so far and the messages kept. *)
Fixpoint size_loop (total : Z) (result : list Message) (ms : list Message) : list Message :=
  match ms with
  | [] => result
  | m :: rest =>
      if bool_decide (result ≠ []) && (MAX_LOADED_MESSAGES_CHARS <? total + getMessageSize m)%Z
      then result
      else size_loop (total + getMessageSize m) (m :: result) rest
  end.

(** The messages kept; always a new array. *)
Definition trimMessagesByContentSize (ms : list Message) : list Message * bool :=
  (size_loop 0 [] (reverse ms), false).

Section storage_operations.
Context (fits : storage → jsstring → jsstring → bool) (t : jsstring → jsstring).

Definition writeStoredValue {T} `{Schema T} (k : StorageKey) (x : T) (st : storage) : option storage :=
  if fits st (STORAGE_KEYS k) (envelope_text x) then Some (<[STORAGE_KEYS k := envelope_text x]> st)
  else None.

(** Checking and writing; an error of either is reported and changes nothing. *)
Definition save_with {T} `{Schema T} (k : StorageKey) (x : T) (st : storage) : storage :=
  default st (checked ← schema_check x; writeStoredValue k checked st).

(** Reading; [empty] stands for nothing stored and for every error. *)
Definition load_with {T} `{Schema T} (k : StorageKey) (empty : T) (st : storage) : T :=
  default empty
    (saved ← readStoredValue k st;
     if negb (truthy saved) then Some empty else schema_parse (unwrapStoredValue saved)).

(** A configuration or a set of flags that is empty. *)
Definition no_config : StoredConfig := mkStoredConfig None None None None None None None None None.
Definition no_parameters : StoredParameters := mkStoredParameters None None None None None None.

Definition loadConfig : storage → StoredConfig := load_with CONFIG no_config.
Definition saveConfig : StoredConfig → storage → storage := save_with CONFIG.
Definition loadParameterEnabled : storage → StoredParameters := load_with PARAMETER_ENABLED no_parameters.
Definition saveParameterEnabled : StoredParameters → storage → storage := save_with PARAMETER_ENABLED.

Definition saveMessages (ms : list Message) (st : storage) : storage :=
  save_with MESSAGES (trimMessages ms).1 st.

(** The state the code compares by reference: whether sanitizing returned its argument. *)
Definition sanitize_same (ms : list Message) : bool :=
  match last_index isPendingAssistantMessage ms with None => true | Some _ => false end.

(** The repair of parsed messages and the write-back. *)
Definition load_parsed (clocks : nat → clock) (now1 now2 now3 : Z) (parsed : list Message)
    (st : storage) : storage * list Message :=
  let normalized := imap (λ i m, normalizeStoredMessageForLoad (clocks i) m) parsed in
  let normalizedChanged := existsb snd normalized in
  let '(trimmed, trimmedSame) := trimMessages normalized.*1 in
  let '(sizeTrimmed, sizeSame) := trimMessagesByContentSize trimmed in
  let sanitized := sanitizeMessagesOnLoad t now1 now2 now3 sizeTrimmed in
  (if normalizedChanged || negb trimmedSame || negb sizeSame || negb (sanitize_same sizeTrimmed)
   then saveMessages sanitized st else st, sanitized).

Definition loadMessages (clocks : nat → clock) (now1 now2 now3 : Z) (st : storage) :
    storage * option (list Message) :=
  let '(st, saved) := readStoredMessagesValue st in
  match saved with
  | None => (st, None)
  | Some saved =>
      if negb (truthy saved) then (st, None)
      else
        match schema_parse (unwrapStoredValue saved) with
        | None => (st, None)
        | Some parsed =>
            let '(st', sanitized) := load_parsed clocks now1 now2 now3 parsed st in (st', Some sanitized)
        end
  end.

Definition clearPlaygroundData (st : storage) : storage :=
  delete (STORAGE_KEYS MESSAGES) (delete (STORAGE_KEYS PARAMETER_ENABLED) (delete (STORAGE_KEYS CONFIG) st)).

(** ** playground-state-utils.ts *)
Definition getInitialMessages (clocks : nat → clock) (now1 now2 now3 : Z) (st : storage) :
    storage * list Message :=
  let '(st', loaded) := loadMessages clocks now1 now2 now3 st in (st', default [] loaded).

End storage_operations.

Inductive MessageStateUpdater :=
  | updater_value (ms : list Message)
  | updater_function (f : list Message → list Message).

Definition applyMessageStateUpdate (previous : list Message) (updater : MessageStateUpdater) : list Message :=
  match updater with updater_function f => f previous | updater_value ms => ms end.
