(* ===== verification/ChatStorageFacts.v ===== *)
(** Facts of the playground's persistence: what is kept and what is cut, that whatever is
    written can be read again, and that the stored conversation refines a cell
    (StorageSchema.v, ChatStorage.v). *)
From S2P Require Import Prelude JsString JsValue Json JsPrint JsonQuote JsonPrint JsInteger RegExp ChatMessages ChatFacts StorageSchema ChatStorage.

Local Open Scope nat_scope.

Lemma truncate_length text n : length (truncateText text n) <= n.
Proof.
  unfold truncateText. destruct (Nat.leb_spec (length text) n); [done|].
  destruct (Nat.leb_spec n (length TRUNCATED_CONTENT_SUFFIX)).
  - rewrite length_take. lia.
  - rewrite length_app, length_take. lia.
Qed.

Lemma trim_messages_spec ms :
  (trimMessages ms).1 = drop (length ms - MAX_STORED_MESSAGES) ms ∧
  length (trimMessages ms).1 <= MAX_STORED_MESSAGES.
Proof.
  unfold trimMessages. destruct (Nat.leb_spec (length ms) MAX_STORED_MESSAGES) as [Hl|Hl]; cbn [fst].
  - replace (length ms - MAX_STORED_MESSAGES) with 0 by lia. done.
  - split; [done|]. rewrite length_drop. lia.
Qed.

(** *** Trimming by size *)
Definition total_size (ms : list Message) : Z := Zsum (getMessageSize <$> ms).

Lemma versions_size_nonneg vs a :
  (0 <= a)%Z → (0 <= foldl (λ total v, total + Z.of_nat (length (content v))) a vs)%Z.
Proof. revert a. induction vs as [|v vs IH]; intros a Ha; [done|]. cbn [foldl]. apply IH. lia. Qed.

Lemma message_size_nonneg m : (0 <= getMessageSize m)%Z.
Proof.
  unfold getMessageSize. pose proof (versions_size_nonneg (versions m) 0 ltac:(lia)).
  destruct (reasoning m); lia.
Qed.

Lemma total_size_nonneg ms : (0 <= total_size ms)%Z.
Proof.
  apply Zsum_nonneg, Forall_fmap, Forall_forall. intros m _. apply message_size_nonneg.
Qed.

Lemma total_size_app a b : total_size (a ++ b) = (total_size a + total_size b)%Z.
Proof. unfold total_size. by rewrite fmap_app, Zsum_app. Qed.

Lemma total_size_cons m ms : total_size (m :: ms) = (getMessageSize m + total_size ms)%Z.
Proof. done. Qed.

(** Once a message is kept, the loop keeps a prefix of what it scans, as long as it
    fits. *)
Lemma size_loop_spec result ms :
  result ≠ [] →
  ∃ taken left, ms = taken ++ left ∧
    size_loop (total_size result) result ms = reverse taken ++ result ∧
    (taken = [] ∨ (total_size (reverse taken ++ result) <= MAX_LOADED_MESSAGES_CHARS)%Z) ∧
    (∀ m rest, left = m :: rest →
       (MAX_LOADED_MESSAGES_CHARS < total_size (m :: reverse taken ++ result))%Z).
Proof.
  revert result. induction ms as [|m ms IH]; intros result Hne.
  - exists [], []. by split_and!; [| |left|].
  - cbn [size_loop]. rewrite bool_decide_eq_true_2 by done. cbn [andb].
    destruct (Z.ltb_spec MAX_LOADED_MESSAGES_CHARS (total_size result + getMessageSize m)) as [Hl|Hl].
    + exists [], (m :: ms). split_and!; [done|done|by left|].
      intros m' rest [= <- <-]. rewrite total_size_cons. change (reverse [] ++ result) with result. lia.
    + destruct (IH (m :: result)) as (tk & lf & -> & Heq & Hb & Hmax); [done|].
      rewrite total_size_cons in Heq.
      exists (m :: tk), lf.
      assert (reverse (m :: tk) ++ result = reverse tk ++ m :: result) as Hr
        by by rewrite reverse_cons, <- app_assoc.
      rewrite Hr. split_and!; [done| | |done].
      * rewrite <- Heq. f_equal. lia.
      * right. destruct Hb as [->|Hb]; [|done]. change (reverse [] ++ m :: result) with (m :: result).
        rewrite total_size_cons. lia.
Qed.

(** The abstract contract of trimming by size: the longest suffix of the messages whose
    total size is within the limit, but at least the last message. *)
Record longest_fitting (ms kept : list Message) : Prop := {
  lf_suffix : ∃ dropped, ms = dropped ++ kept;
  lf_nonempty : ms ≠ [] → kept ≠ [];
  lf_fits : (total_size kept <= MAX_LOADED_MESSAGES_CHARS)%Z ∨ length kept = 1;
  lf_longest : ∀ dropped m, ms = dropped ++ m :: kept → kept ≠ [] →
                 (MAX_LOADED_MESSAGES_CHARS < total_size (m :: kept))%Z
}.

Lemma size_trim_spec ms : longest_fitting ms (trimMessagesByContentSize ms).1.
Proof.
  unfold trimMessagesByContentSize. cbn [fst].
  destruct (decide (ms = [])) as [->|Hne].
  { split; [by exists []|done|by left; vm_compute|done]. }
  destruct (reverse ms) as [|m rest] eqn:Er.
  { exfalso. apply Hne. by rewrite <- (reverse_involutive ms), Er. }
  cbn [size_loop]. rewrite bool_decide_eq_false_2 by (by intros H; apply H). cbn [andb].
  destruct (size_loop_spec [m] rest) as (tk & lf & Hrest & Heq & Hb & Hmax); [done|].
  replace (0 + getMessageSize m)%Z with (total_size [m]) by (unfold total_size; cbn; lia).
  rewrite Heq. assert (ms = reverse lf ++ reverse tk ++ [m]) as Hms.
  { rewrite <- (reverse_involutive ms), Er, Hrest. by rewrite reverse_cons, reverse_app, <- app_assoc. }
  split.
  - by exists (reverse lf).
  - intros _. by destruct (reverse tk).
  - destruct Hb as [->|Hb]; [by right|by left].
  - intros dropped m' Hm' _. destruct lf as [|m2 lf'].
    { rewrite Hms in Hm'. apply (f_equal length) in Hm'.
      repeat (rewrite ?length_app, ?length_cons, ?length_reverse, ?length_nil in Hm'). lia. }
    rewrite Hms, reverse_cons, <- app_assoc in Hm'. cbn in Hm'.
    apply app_inj_2 in Hm' as [_ [= <-]]; [|done]. by apply (Hmax m2 lf').
Qed.

(** Trimming by size meets its contract on every list of messages: it keeps the
    longest suffix within the limit of characters, and never drops the last message. *)
Theorem size_trim_longest ms : longest_fitting ms (trimMessagesByContentSize ms).1.
Proof. apply size_trim_spec. Qed.

(** ** Texts and times survive loading *)
Lemma units_ok_sub s s' : (∀ c, c ∈ s' → c ∈ s) → units_ok s = true → units_ok s' = true.
Proof. unfold units_ok. rewrite !forallb_Forall, !Forall_forall. auto. Qed.
Lemma units_ok_app s s' : units_ok s = true → units_ok s' = true → units_ok (s ++ s') = true.
Proof. unfold units_ok. rewrite forallb_app. by intros -> ->. Qed.
Lemma units_ok_drop n s : units_ok s = true → units_ok (drop n s) = true.
Proof. apply units_ok_sub. intros c Hc. rewrite <- (take_drop n s). apply elem_of_app. by right. Qed.
Lemma units_ok_take n s : units_ok s = true → units_ok (take n s) = true.
Proof. apply units_ok_sub. intros c Hc. rewrite <- (take_drop n s). apply elem_of_app. by left. Qed.

Lemma collapse_units s : units_ok s = true → units_ok (collapseRepeatedSectionSnapshots s) = true.
Proof. intros Hs. unfold collapseRepeatedSectionSnapshots. repeat case_match; auto using units_ok_drop. Qed.

(** A text, or its beginning with a mark that it was cut. *)
Definition cut (n : nat) (s : jsstring) : jsstring :=
  if (length s <=? n)%nat then s else take (n - 7) s ++ [10; 10]%N ++ js "[...]".

Lemma truncate_cut s n : 7 < n → truncateText s n = cut n s.
Proof.
  intros Hn. unfold truncateText, cut. destruct (Nat.leb_spec (length s) n); [done|].
  change (length TRUNCATED_CONTENT_SUFFIX) with 7. by rewrite (proj2 (Nat.leb_gt _ _)).
Qed.
Lemma cut_units n s : units_ok s = true → units_ok (cut n s) = true.
Proof. intros Hs. unfold cut. case_match; [done|]. apply units_ok_app; [by apply units_ok_take|by vm_compute]. Qed.

Lemma thinkLoop_units fuel text pos vis rs vis' rs' b :
  units_ok text = true → Forall (λ s, units_ok s = true) vis → Forall (λ s, units_ok s = true) rs →
  thinkLoop fuel text pos vis rs = Some (vis', rs', b) →
  Forall (λ s, units_ok s = true) vis' ∧ Forall (λ s, units_ok s = true) rs'.
Proof.
  intros Ht. revert pos vis rs. induction fuel as [|fuel IH]; intros pos vis rs Hv Hr; [done|]. cbn [thinkLoop].
  assert (∀ a b, units_ok (slice a b text) = true) as Hs by (intros; by apply units_ok_take, units_ok_drop).
  assert (∀ (c : bool) l s, Forall (λ s, units_ok s = true) l → units_ok s = true → Forall (λ s, units_ok s = true) (if c then l ++ [s] else l)) as Hif.
  { intros [] l s Hl Hs'; [|done]. apply Forall_app. by repeat constructor. }
  destruct (index_from open_tag text pos) as [o|].
  - destruct (index_from close_tag text _) as [c|].
    + apply IH; [by apply Hif|]. apply (Hif true); [done|apply Hs].
    + intros [= <- <- <-]. split; [by apply Hif|]. apply (Hif true); [done|by apply units_ok_drop].
  - intros [= <- <- <-]. split; [|done]. apply Hif; [done|by apply units_ok_drop].
Qed.

Lemma join_units sep l : units_ok sep = true → Forall (λ s, units_ok s = true) l → units_ok (join sep l) = true.
Proof.
  intros Hsep. induction 1 as [|s l Hs Hl IH]; [done|]. destruct l as [|s' l]; [done|].
  change (units_ok (s ++ sep ++ join sep (s' :: l)) = true). auto using units_ok_app.
Qed.
Lemma concat_units l : Forall (λ s, units_ok s = true) l → units_ok (concat l) = true.
Proof. induction 1; [done|]. cbn. by apply units_ok_app. Qed.

Lemma think_units text : units_ok text = true →
  units_ok (visibleContent (parseThinkTags text)) = true ∧ units_ok (parsed_reasoning (parseThinkTags text)) = true.
Proof.
  intros Ht. unfold parseThinkTags. destruct (negb _); [done|].
  destruct (thinkLoop _ text 0 [] []) as [[[vis rs] b]|] eqn:E; cbn [default]; [|done].
  apply thinkLoop_units in E as [Hv Hr]; [|done|constructor..]. split; apply units_ok_trim; [by apply concat_units|by apply join_units].
Qed.

(** *** Setting properties of a message *)
Record message_fine (m : Message) : Prop := {
  fine_key : units_ok (key m) = true;
  fine_versions : forallb version_ok (versions m) = true;
  fine_created : opt_ok time_ok (createdAt m) = true;
  fine_started : opt_ok time_ok (startedAt m) = true;
  fine_completed : opt_ok time_ok (completedAt m) = true;
  fine_duration : opt_ok time_ok (durationMs m) = true;
  fine_sources : opt_ok (forallb (λ s, units_ok s.1 && units_ok s.2)) (sources m) = true;
  fine_reasoning : opt_ok reasoning_ok (reasoning m) = true;
  fine_error : opt_ok (opt_ok units_ok) (errorCode m) = true }.

Lemma message_fine_ok m : message_ok m = true ↔ message_fine m.
Proof.
  unfold message_ok. rewrite !andb_true_iff. split.
  - intros [[[[[H1 H2] [[[T1 T2] T3] T4]] H4] H5] H6]. by split.
  - intros []. by split_and!.
Qed.

Lemma fine_set_versions vs m : forallb version_ok vs = true → message_fine m → message_fine (set_versions vs m).
Proof. intros Hv []. by split. Qed.
Lemma fine_set_reasoning r m : opt_ok reasoning_ok r = true → message_fine m → message_fine (set_reasoning r m).
Proof. intros Hv []. by split. Qed.
Lemma fine_set_timing a b c m : opt_ok time_ok a = true → opt_ok time_ok b = true → opt_ok time_ok c = true →
  message_fine m → message_fine (set_timing a b c m).
Proof. intros Ha Hb Hc []. by split. Qed.
Lemma fine_set_status st m : message_fine m → message_fine (set_status st m).
Proof. intros []. by split. Qed.
Lemma fine_set_streaming b m : message_fine m → message_fine (set_isReasoningStreaming b m).
Proof. intros []. by split. Qed.

Lemma time_ok_iff z : time_ok z = true ↔ (0 <= z < 2 ^ 53)%Z.
Proof. unfold time_ok. rewrite andb_true_iff, Z.leb_le, Z.ltb_lt. done. Qed.
Lemma time_ok_elapsed a b : time_ok a = true → time_ok b = true → time_ok (Z.max 0 (a - b)) = true.
Proof. rewrite !time_ok_iff. lia. Qed.
Lemma time_ok_seconds a : time_ok a = true → time_ok (ceil_seconds a) = true.
Proof.
  rewrite !time_ok_iff. unfold ceil_seconds. intros [H1 H2]. pose proof (Z.div_le_lower_bound (- a) 1000 (- a) ltac:(lia) ltac:(lia)).
  assert ((- a) / 1000 <= 0)%Z by (apply Z.div_le_upper_bound; lia). lia.
Qed.

Section survives.
Context (n1 n2 : Z) (H1 : time_ok n1 = true) (H2 : time_ok n2 = true).

Lemma current_ok m : message_fine m → units_ok (v_id (getCurrentVersion m)) = true ∧ units_ok (getMessageContent m) = true.
Proof.
  intros [_ Hv _ _ _ _ _ _ _]. unfold getMessageContent, getCurrentVersion. destruct (versions m) as [|v vs]; [by vm_compute|].
  cbn in Hv |- *. apply andb_true_iff in Hv as [Hv _]. by apply andb_true_iff in Hv.
Qed.

Lemma fine_update m text : units_ok text = true → message_fine m → message_fine (updateCurrentVersionContent m text).
Proof.
  intros Ht Hm. apply fine_set_versions; [|done]. unfold version_ok. cbn [forallb v_id content]. by rewrite (proj1 (current_ok m Hm)), Ht.
Qed.

Lemma fine_reasoning_timing m : message_fine m → message_fine (completeReasoningTiming m n2).
Proof.
  intros Hm. unfold completeReasoningTiming. destruct (reasoning m) as [r|] eqn:Er; [|done]. destruct (r_durationMs r) eqn:Ed; [done|].
  pose proof (fine_reasoning m Hm) as Hr. rewrite Er in Hr. cbn in Hr. unfold reasoning_ok in Hr. rewrite !andb_true_iff in Hr. destruct Hr as [[[[Hc Hd] Hs] _] _].
  apply fine_set_reasoning; [|done]. set (start := match r_startedAt r with Some s => s | None => _ end).
  assert (time_ok start = true) as Hst.
  { subst start. destruct (r_startedAt r); [done|]. pose proof (fine_started m Hm). by destruct (startedAt m). }
  unfold reasoning_ok. cbn [opt_ok r_content r_duration r_startedAt r_completedAt r_durationMs].
  by rewrite Hc, Hst, H2, time_ok_elapsed, time_ok_seconds by auto using time_ok_elapsed.
Qed.

Lemma fine_start_reasoning m : message_fine m → reasoning_ok (startReasoningTiming m n1) = true.
Proof.
  intros Hm. unfold startReasoningTiming. pose proof (fine_reasoning m Hm) as Hr. destruct (reasoning m) as [r|].
  - cbn in Hr. unfold reasoning_ok in *. rewrite !andb_true_iff in Hr. destruct Hr as [[[[Hc Hd] Hs] Hco] Hdu]. cbn [opt_ok r_content r_duration r_startedAt r_completedAt r_durationMs].
    rewrite Hc, Hd, Hco, Hdu. by destruct (r_startedAt r); cbn [opt_ok] in *; rewrite ?Hs, ?H1.
  - unfold reasoning_ok. cbn [opt_ok r_content r_duration r_startedAt r_completedAt r_durationMs]. by rewrite H1.
Qed.

Lemma fine_finalize m : message_fine m → message_fine (finalizeMessage n1 n2 m []).
Proof.
  intros Hm. unfold finalizeMessage. cbn zeta. fold (getMessageContent m). rewrite reasoning_finalize, visible_finalize.
  pose proof (proj2 (current_ok m Hm)) as Ht. destruct (think_units _ Ht) as [Hv Hp]. apply fine_reasoning_timing, fine_set_streaming.
  apply fine_set_reasoning; [|by apply fine_update]. set (text := or_else [] _).
  assert (units_ok text = true) as Hx.
  { subst text. cbn [or_else]. pose proof (fine_reasoning m Hm) as Hr. destruct (reasoning m) as [r|]; cbn [fmap option_fmap option_map default]; [|done].
    cbn [opt_ok] in Hr. unfold reasoning_ok in Hr. rewrite !andb_true_iff in Hr. destruct Hr as [[[[Hc _] _] _] _]. unfold id. by destruct (r_content r). }
  destruct text as [|c text]; [done|]. cbn [opt_ok]. pose proof (fine_start_reasoning m Hm) as Hr. unfold reasoning_ok in *.
  rewrite !andb_true_iff in Hr. destruct Hr as [[[[_ Hd] Hs] Hco] Hdu]. cbn [r_content r_duration r_startedAt r_completedAt r_durationMs].
  by rewrite Hx, Hd, Hs, Hco, Hdu.
Qed.

Lemma fine_complete m n : time_ok n = true → message_fine m → message_fine (completeAssistantTiming m n).
Proof.
  intros Hn Hm. unfold completeAssistantTiming. destruct (bool_decide _); [|done].
  set (start := match startedAt m with Some s => s | None => _ end). assert (time_ok start = true) as Hst.
  { subst start. pose proof (fine_started m Hm). pose proof (fine_created m Hm). destruct (startedAt m); [done|]. by destruct (createdAt m). }
  apply fine_set_timing; cbn; auto using time_ok_elapsed.
Qed.
End survives.

(** ** What loading makes of a message *)

(** Its texts, without the repeated sections and cut to their limit. *)
Definition cut_message (m : Message) : Message :=
  set_reasoning ((λ r, mkReasoning (cut MAX_LOADED_MESSAGE_CHARS (r_content r)) (r_duration r) (r_startedAt r) (r_completedAt r) (r_durationMs r))
                   <$> reasoning m)
    (set_versions ((λ v, mkVersion (v_id v) (cut MAX_LOADED_MESSAGE_CHARS (collapseRepeatedSectionSnapshots (content v)))) <$> versions m) m).

Lemma limit_above : 7 < MAX_LOADED_MESSAGE_CHARS.
Proof. unfold MAX_LOADED_MESSAGE_CHARS. lia. Qed.

Lemma shorten_cut m : (shorten m).1 = cut_message m.
Proof.
  unfold cut_message. set (vs := (λ v, mkVersion (v_id v) (load_text (content v))) <$> versions m).
  set (r := (λ r, mkReasoning (truncateText (r_content r) MAX_LOADED_MESSAGE_CHARS) (r_duration r) (r_startedAt r) (r_completedAt r) (r_durationMs r)) <$> reasoning m).
  assert (vs = (λ v, mkVersion (v_id v) (cut MAX_LOADED_MESSAGE_CHARS (collapseRepeatedSectionSnapshots (content v)))) <$> versions m) as <-.
  { subst vs. apply list_fmap_ext. intros _ v _. unfold load_text. by rewrite truncate_cut by apply limit_above. }
  assert (r = (λ r, mkReasoning (cut MAX_LOADED_MESSAGE_CHARS (r_content r)) (r_duration r) (r_startedAt r) (r_completedAt r) (r_durationMs r)) <$> reasoning m) as <-.
  { subst r. destruct (reasoning m); [|done]. cbn [fmap option_fmap option_map]. by rewrite truncate_cut by apply limit_above. }
  unfold shorten. cbv zeta. fold vs. fold r.
  destruct (_ || _) eqn:E; [done|]. apply orb_false_iff in E as [Ev Er]. cbn [fst].
  assert (vs = versions m) as ->.
  { subst vs. induction (versions m) as [|v l IH]; [done|]. cbn [existsb] in Ev. apply orb_false_iff in Ev as [Hv Hl]. rewrite fmap_cons, IH by done. f_equal.
    apply negb_false_iff, andb_true_iff in Hv as [Hv%bool_decide_eq_true _]. rewrite Hv. by destruct v. }
  assert (r = reasoning m) as ->; [|by destruct m].
  apply negb_false_iff, bool_decide_eq_true in Er. subst r. destruct (reasoning m) as [x|]; [|done]. cbn [fmap option_fmap option_map] in Er |- *.
  injection Er as Er. cbn [r_content] in Er. rewrite Er. by destruct x.
Qed.

Definition has_text (m : Message) : Prop :=
  trim (getMessageContent m) ≠ [] ∨ ∃ r, reasoning m = Some r ∧ trim (r_content r) ≠ [].

(** When an answer that was interrupted counts as over. *)
Definition over_at (now : clock) (m : Message) : Z :=
  default (at_fallback now) (first_some (completedAt m) (first_some (reasoning m ≫= r_completedAt) (first_some (startedAt m) (createdAt m)))).

(** A message comes back with its texts cut and nothing else changed; an answer that was
    still pending and has something to show comes back complete, with the visible part of
    its text, its reasoning, and its time. *)
Record reopens (now : clock) (m m' : Message) : Prop := {
  reopens_same : key m' = key m ∧ from m' = from m ∧ createdAt m' = createdAt m;
  reopens_still : isAssistantMessagePending m = false ∨ ¬ has_text (cut_message m) → m' = cut_message m;
  reopens_done : isAssistantMessagePending m = true → has_text (cut_message m) →
    status m' = Some complete ∧ isReasoningStreaming m' = Some false ∧ length (versions m') = 1 ∧
    getMessageContent m' = visibleContent (parseThinkTags (getMessageContent (cut_message m))) ∧
    r_content <$> reasoning m' =
      nonempty (or_else (default [] (r_content <$> reasoning (cut_message m)))
                  (parsed_reasoning (parseThinkTags (getMessageContent (cut_message m))))) ∧
    (from m = assistant → completedAt m' = Some (over_at now (cut_message m)) ∧ is_Some (startedAt m') ∧ is_Some (durationMs m')) }.

Lemma pending_cut m : isAssistantMessagePending (cut_message m) = isAssistantMessagePending m.
Proof. done. Qed.

Lemma has_text_spec m :
  hasMessageContent m || match reasoning m with Some r => negb (bool_decide (trim (r_content r) = [])) | None => false end = true ↔ has_text m.
Proof.
  unfold has_text, hasMessageContent. rewrite orb_true_iff, negb_true_iff, bool_decide_eq_false. apply or_iff_compat_l. destruct (reasoning m) as [r|].
  - rewrite negb_true_iff, bool_decide_eq_false. split; [eauto|]. by intros (? & [= <-] & ?).
  - split; [done|]. by intros (? & ? & _).
Qed.

Lemma versions_finalize n1 n2 m api : length (versions (finalizeMessage n1 n2 m api)) = 1.
Proof. unfold finalizeMessage. cbv zeta. match goal with |- context [completeReasoningTiming ?x n2] => by destruct (completeReasoning_keeps x n2) as (_ & _ & _ & _ & _ & _ & -> & _) end. Qed.

Lemma normalize_reopens now m : reopens now m (normalizeStoredMessageForLoad now m).1.
Proof.
  unfold normalizeStoredMessageForLoad. pose proof (shorten_cut m) as Hs. destruct (shorten m) as [m1 changed]. cbn [fst] in Hs. subst m1.
  set (m1 := cut_message m). change (isAssistantMessagePending m1) with (isAssistantMessagePending m).
  destruct (isAssistantMessagePending m) eqn:Hp; cbn [negb fst].
  2: { split; [done|done|]. congruence. }
  set (hr := match reasoning m1 with Some r => _ | None => false end).
  destruct (negb (hasMessageContent m1) && negb hr) eqn:Eh; cbn [fst].
  - split; [done|done|]. intros _ Ht%has_text_spec. fold m1 in Ht. fold hr in Ht. exfalso. apply andb_true_iff in Eh as [E1%negb_true_iff E2%negb_true_iff].
    by rewrite E1, E2 in Ht.
  - assert (has_text m1) as Ht.
    { apply has_text_spec. fold hr. apply andb_false_iff in Eh as [E|E]; apply negb_false_iff in E; rewrite E; [done|apply orb_true_r]. }
    set (f := finalizeMessage (at_finalize1 now) (at_finalize2 now) m1 []).
    destruct (finalize_spec (at_finalize1 now) (at_finalize2 now) m1 []) as (Hk & Hf & Hc & _ & _ & Hcont & Hre & _). fold f in Hk, Hf, Hc, Hcont, Hre.
    fold (over_at now m1). set (g := set_isReasoningStreaming false (set_status complete f)).
    assert (∀ n, let g' := completeAssistantTiming g n in key g' = key g ∧ from g' = from g ∧ createdAt g' = createdAt g ∧ status g' = status g ∧
      isReasoningStreaming g' = isReasoningStreaming g ∧ versions g' = versions g ∧ reasoning g' = reasoning g ∧
      (from g = assistant → completedAt g' = Some n ∧ is_Some (startedAt g') ∧ is_Some (durationMs g'))) as Hg.
    { intros n. unfold completeAssistantTiming. case_bool_decide; cbv zeta; split_and!; try done; intros; split_and!; by eexists. }
    destruct (Hg (over_at now m1)) as (G1 & G2 & G3 & G4 & G5 & G6 & G7 & G8). split.
    + rewrite G1, G2, G3. split_and!; [exact Hk|exact Hf|exact Hc].
    + intros [|Hno]; [congruence|]. by destruct Hno.
    + intros _ _. rewrite G4, G5, G6, G7. split_and!; [done|done|apply versions_finalize| |exact Hre|].
      * unfold getMessageContent, getCurrentVersion. rewrite G6. exact Hcont.
      * intros Ha. apply G8. exact (eq_trans Hf Ha).
Qed.

(** *** A message that loading leaves is as storable as it was *)
Definition clock_ok (now : clock) : Prop :=
  time_ok (at_fallback now) = true ∧ time_ok (at_finalize1 now) = true ∧ time_ok (at_finalize2 now) = true.

Lemma fine_cut m : message_fine m → message_fine (cut_message m).
Proof.
  intros Hm. apply fine_set_reasoning; [|apply fine_set_versions; [|done]].
  - pose proof (fine_reasoning m Hm) as Hr. destruct (reasoning m) as [r|]; [|done]. cbn [fmap option_fmap option_map opt_ok] in *.
    unfold reasoning_ok in *. rewrite !andb_true_iff in Hr. destruct Hr as [[[[Hc Hd] Hs] Hco] Hdu].
    cbn [r_content r_duration r_startedAt r_completedAt r_durationMs]. by rewrite cut_units, Hd, Hs, Hco, Hdu.
  - pose proof (fine_versions m Hm) as Hv. rewrite forallb_Forall in *. apply Forall_fmap. eapply Forall_impl; [exact Hv|].
    intros v [H1 H2]%andb_true_iff. unfold version_ok, compose. cbn [v_id content]. by rewrite H1, cut_units by by apply collapse_units.
Qed.

Lemma fine_over now m : clock_ok now → message_fine m → time_ok (over_at now m) = true.
Proof.
  intros [Hf _] Hm. unfold over_at. destruct Hm as [_ _ Hcr Hst Hco _ _ Hr _].
  destruct (completedAt m); [done|]. cbn [first_some]. destruct (reasoning m) as [r|]; cbn [mbind option_bind].
  - cbn [opt_ok] in Hr. unfold reasoning_ok in Hr. rewrite !andb_true_iff in Hr. destruct Hr as [[[_ _] Hrc] _].
    destruct (r_completedAt r); [done|]. cbn [first_some]. destruct (startedAt m); [done|]. by destruct (createdAt m).
  - cbn [first_some]. destruct (startedAt m); [done|]. by destruct (createdAt m).
Qed.

Lemma fine_normalize now m : clock_ok now → message_fine m → message_fine (normalizeStoredMessageForLoad now m).1.
Proof.
  intros Hn Hm. unfold normalizeStoredMessageForLoad. pose proof (shorten_cut m) as Hs. destruct (shorten m) as [m1 changed]. cbn [fst] in Hs. subst m1.
  apply fine_cut in Hm. destruct (negb (isAssistantMessagePending _)); [done|]. destruct (negb _ && negb _); [done|]. cbn [fst].
  fold (over_at now (cut_message m)). pose proof (fine_over _ _ Hn Hm). destruct Hn as (_ & H1 & H2).
  by apply fine_complete, fine_set_streaming, fine_set_status, fine_finalize.
Qed.

Lemma checked_normalize now m : message_checked m = true → message_checked (normalizeStoredMessageForLoad now m).1 = true.
Proof.
  unfold message_checked. rewrite !negb_true_iff, !bool_decide_eq_false. intros Hm. pose proof (normalize_reopens now m) as [_ Hs Hd].
  destruct (isAssistantMessagePending m) eqn:Hp.
  - destruct (decide (hasMessageContent (cut_message m) || match reasoning (cut_message m) with Some r => negb (bool_decide (trim (r_content r) = [])) | None => false end = true))
      as [Ht%has_text_spec|Ht].
    + destruct (Hd eq_refl Ht) as (_ & _ & Hl & _). intros E. by rewrite E in Hl.
    + rewrite Hs by (right; by intros ?%has_text_spec). cbn. by destruct (versions m).
  - rewrite Hs by by left. cbn. by destruct (versions m).
Qed.

(** ** An answer that never began *)
Section interrupted.
Context (t : jsstring → jsstring) (n1 n2 n3 : Z).

Definition interrupted_as (m m' : Message) : Prop :=
  key m' = key m ∧ from m' = assistant ∧ status m' = Some error ∧ isReasoningStreaming m' = Some false ∧ length (versions m') = 1 ∧
  getMessageContent m' = t API_REQUEST_ERROR ++ js ": " ++ t INTERRUPTED ∧ completedAt m' = Some n3.

Lemma trim_start_nil s : trim_start s = [] → ∀ c, c ∈ s → is_ws c = true.
Proof.
  induction s as [|x s IH]; [intros _ c Hc; by apply not_elem_of_nil in Hc|]. cbn [trim_start]. destruct (is_ws x) eqn:E; [|done].
  intros Hs c [->|Hc]%elem_of_cons; [done|by apply IH].
Qed.
Lemma trim_blank s : trim s = [] → ∀ c, c ∈ s → is_ws c = true.
Proof.
  unfold trim, trim_end. intros H. apply trim_start_nil. destruct (trim_start s) as [|c s'] eqn:E; [done|]. exfalso.
  assert (is_ws c = true) as Hc; [|by rewrite (trim_start_head _ _ _ E) in Hc].
  apply (trim_start_nil (reverse (c :: s'))); [by apply (f_equal reverse) in H; rewrite reverse_involutive in H|]. apply elem_of_reverse. by left.
Qed.
Lemma blank_no_tag s : trim s = [] → includes open_tag s = false.
Proof.
  intros H. unfold includes. destruct (index_of open_tag s) as [i|] eqn:E; [|done]. exfalso. apply index_of_Some in E as [rest Hr].
  assert (60%N ∈ drop i s) as Hin by (rewrite Hr; by left). assert (60%N ∈ s) as Hs by (rewrite <- (take_drop i s); apply elem_of_app; by right).
  by pose proof (trim_blank s H _ Hs).
Qed.

Lemma sanitized_blank m : from m = assistant → ¬ has_text m → interrupted_as m (sanitized t n1 n2 n3 m).
Proof.
  intros Hf Ht. destruct (finalize_spec n1 n2 m []) as (Hk & Hf' & _ & _ & _ & Hc & Hr & _). unfold sanitized.
  set (f := finalizeMessage n1 n2 m []) in *. assert (trim (getMessageContent m) = []) as Hb.
  { destruct (trim (getMessageContent m)) eqn:E; [done|]. destruct Ht. left. by rewrite E. }
  assert (parseThinkTags (getMessageContent m) = mkParsed (getMessageContent m) [] false) as Hp
    by (unfold parseThinkTags; by rewrite blank_no_tag).
  rewrite Hp in Hc, Hr. cbn [visibleContent parsed_reasoning] in Hc, Hr.
  assert (hasMessageContent f = false) as -> by (unfold hasMessageContent; by rewrite Hc, bool_decide_eq_true_2).
  assert (match reasoning f with Some r => negb (bool_decide (trim (r_content r) = [])) | None => false end = false) as ->.
  { destruct (reasoning f) as [r|]; [|done]. apply negb_false_iff, bool_decide_eq_true. cbn in Hr. destruct (reasoning m) as [r0|] eqn:Er; cbn in Hr.
    - assert (r_content r = r_content r0) as -> by (by destruct (r_content r0); [|injection Hr]).
      destruct (trim (r_content r0)) eqn:E; [done|]. destruct Ht. right. exists r0. by rewrite E.
    - done. }
  cbn [orb]. unfold completeAssistantTiming. rewrite bool_decide_true by exact (eq_trans Hf' Hf). split_and!; try done. exact (eq_trans Hf' Hf).
Qed.

(** Of the messages left, the last answer that is still pending is marked so. *)
Definition marked (kept out : list Message) : Prop :=
  (Forall (λ m, isPendingAssistantMessage m = false) kept ∧ out = kept) ∨
  ∃ before m m' after, kept = before ++ m :: after ∧ isPendingAssistantMessage m = true ∧
    Forall (λ m, isPendingAssistantMessage m = false) after ∧ out = before ++ m' :: after ∧ interrupted_as m m'.

Lemma sanitize_marked kept : (∀ m, m ∈ kept → isPendingAssistantMessage m = true → ¬ has_text m) →
  marked kept (sanitizeMessagesOnLoad t n1 n2 n3 kept).
Proof.
  intros Hk. unfold sanitizeMessagesOnLoad. destruct (last_index _ kept) as [i|] eqn:Ei; [|left; split; [by apply last_index_None|done]].
  right. apply last_index_Some in Ei as (m & Hm & Hp & Hlater). rewrite Hm. pose proof (lookup_lt_Some _ _ _ Hm) as Hlt.
  exists (take i kept), m, (sanitized t n1 n2 n3 m), (drop (S i) kept). split_and!.
  - by rewrite take_drop_middle.
  - done.
  - apply Forall_lookup. intros j x Hx. rewrite lookup_drop in Hx. apply (Hlater (S i + j) x); [lia|done].
  - by rewrite insert_take_drop.
  - apply sanitized_blank; [|apply Hk; [by eapply list_elem_of_lookup_2|done]].
    unfold isPendingAssistantMessage in Hp. by apply andb_true_iff in Hp as [Hp%bool_decide_eq_true _].
Qed.

Lemma fine_sanitized m : time_ok n1 = true → time_ok n2 = true → time_ok n3 = true → units_ok (t API_REQUEST_ERROR) = true → units_ok (t INTERRUPTED) = true →
  message_fine m → message_fine (sanitized t n1 n2 n3 m) ∧ message_checked (sanitized t n1 n2 n3 m) = true.
Proof.
  intros H1 H2 H3 Ht1 Ht2 Hm. pose proof (fine_finalize n1 n2 H1 H2 m Hm) as Hf. pose proof (versions_finalize n1 n2 m []) as Hl.
  unfold sanitized. set (f := finalizeMessage n1 n2 m []) in *.
  assert (∀ x n, message_checked x = true → message_checked (completeAssistantTiming x n) = true) as Hc
    by (intros x n Hx; unfold completeAssistantTiming; by case_match).
  destruct (_ || _); split.
  - by apply fine_complete, fine_set_streaming, fine_set_status.
  - apply Hc. unfold message_checked. cbn. by destruct (versions f).
  - apply fine_complete; [done|]. apply fine_set_streaming, fine_set_status, fine_update; [|done]. by repeat apply units_ok_app.
  - by apply Hc.
Qed.
End interrupted.

(** ** The storage as a cell *)
Section storage_facts.
Context (fits : storage → jsstring → jsstring → bool) (t : jsstring → jsstring).

Definition last_hundred (ms : list Message) : list Message := drop (length ms - 100) ms.

Lemma last_hundred_length ms : length (last_hundred ms) <= 100.
Proof. unfold last_hundred. rewrite length_drop. lia. Qed.
Lemma last_hundred_short ms : length ms <= 100 → last_hundred ms = ms.
Proof. intros H. unfold last_hundred. by replace (length ms - 100) with 0 by lia. Qed.
Lemma trim_hundred ms : (trimMessages ms).1 = last_hundred ms.
Proof. apply trim_messages_spec. Qed.

(** What a load makes of the messages that are stored: each is reopened; of the last
    hundred, the longest end within the limit is kept, and the last answer still pending
    there is marked as interrupted. *)
Definition repaired (clocks : nat → clock) (n1 n2 n3 : Z) (ms out : list Message) : Prop :=
  ∃ normal kept, length normal = length ms ∧
    (∀ i m m', ms !! i = Some m → normal !! i = Some m' → reopens (clocks i) m m') ∧
    longest_fitting (last_hundred normal) kept ∧ marked t n3 kept out.

(** What a client does with the stored conversation. *)
Inductive storage_op := Save (ms : list Message) | Load (clocks : nat → clock) (n1 n2 n3 : Z) | Clear.

Definition run_op (op : storage_op) (st : storage) : storage * option (option (list Message)) :=
  match op with
  | Save ms => (saveMessages fits ms st, None)
  | Load clocks n1 n2 n3 => let '(st', r) := loadMessages fits t clocks n1 n2 n3 st in (st', Some r)
  | Clear => (clearPlaygroundData st, None)
  end.

(** The abstract cell holds a conversation or nothing; [accepts] is whether the browser
    has room for a text.  A save puts the last hundred messages in, unless one of them has
    no version or there is no room.  A load shows nothing of an empty cell, empties a
    cell whose text is beyond the limit, and otherwise shows the repaired conversation and
    puts it in if there is room. *)
Inductive cell_step (accepts : jsstring → bool) : storage_op → option (list Message) → option (option (list Message)) → option (list Message) → Prop :=
| cell_saved ms cell : Forall (λ m, versions m ≠ []) (last_hundred ms) → accepts (envelope_text (last_hundred ms)) = true →
    cell_step accepts (Save ms) cell None (Some (last_hundred ms))
| cell_refused ms cell : ¬ Forall (λ m, versions m ≠ []) (last_hundred ms) ∨ accepts (envelope_text (last_hundred ms)) = false →
    cell_step accepts (Save ms) cell None cell
| cell_empty clocks n1 n2 n3 : cell_step accepts (Load clocks n1 n2 n3) None (Some None) None
| cell_too_long clocks n1 n2 n3 ms : (MAX_STORED_MESSAGES_BYTES < Z.of_nat (length (envelope_text ms)))%Z →
    cell_step accepts (Load clocks n1 n2 n3) (Some ms) (Some None) None
| cell_loaded clocks n1 n2 n3 ms out : (Z.of_nat (length (envelope_text ms)) <= MAX_STORED_MESSAGES_BYTES)%Z →
    repaired clocks n1 n2 n3 ms out →
    cell_step accepts (Load clocks n1 n2 n3) (Some ms) (Some (Some out)) (Some (if accepts (envelope_text out) then out else ms))
| cell_cleared cell : cell_step accepts Clear cell None None.

(** Over a sequence of operations every step of the storage is one of the cell. *)
Fixpoint refines_cell (ops : list storage_op) (st : storage) (cell : option (list Message)) : Prop :=
  match ops with
  | [] => True
  | op :: ops => ∃ cell', cell_step (fits st (STORAGE_KEYS MESSAGES)) op cell (run_op op st).2 cell' ∧
                          refines_cell ops (run_op op st).1 cell'
  end.

(** The simulation: the storage holds the envelope of what the cell holds. *)
Definition holds (st : storage) (cell : option (list Message)) : Prop :=
  match cell with
  | None => st !! STORAGE_KEYS MESSAGES = None
  | Some ms => forallb message_ok ms = true ∧ forallb message_checked ms = true ∧ st !! STORAGE_KEYS MESSAGES = Some (envelope_text ms)
  end.

(** Texts of 16-bit units, and times in milliseconds below 2^53. *)
Definition op_ok (op : storage_op) : Prop :=
  match op with
  | Save ms => forallb message_ok ms = true
  | Load clocks n1 n2 n3 => (∀ i, clock_ok (clocks i)) ∧ time_ok n1 = true ∧ time_ok n2 = true ∧ time_ok n3 = true
  | Clear => True
  end.

Lemma save_spec ms st : saveMessages fits ms st =
  if forallb message_checked (last_hundred ms) && fits st (STORAGE_KEYS MESSAGES) (envelope_text (last_hundred ms))
  then <[STORAGE_KEYS MESSAGES := envelope_text (last_hundred ms)]> st else st.
Proof.
  unfold saveMessages, save_with. rewrite trim_hundred. cbn [schema_check messagesSchema].
  destruct (forallb message_checked (last_hundred ms)); [|done]. cbn [mbind option_bind andb]. unfold writeStoredValue. by destruct (fits _ _ _).
Qed.

Lemma checked_Forall ms : forallb message_checked ms = true ↔ Forall (λ m, versions m ≠ []) ms.
Proof. rewrite forallb_Forall. apply Forall_iff. intros m. unfold message_checked. by rewrite negb_true_iff, bool_decide_eq_false. Qed.

Lemma save_simulates ms st cell : forallb message_ok ms = true → holds st cell →
  ∃ cell', cell_step (fits st (STORAGE_KEYS MESSAGES)) (Save ms) cell None cell' ∧ holds (saveMessages fits ms st) cell'.
Proof.
  intros Hok Hst. rewrite save_spec. destruct (_ && _) eqn:E.
  - apply andb_true_iff in E as [E1 E2]. exists (Some (last_hundred ms)). split; [constructor; [by apply checked_Forall|done]|].
    split_and!; [|done|apply lookup_insert_eq]. rewrite forallb_Forall in *. by apply Forall_drop.
  - exists cell. split; [|done]. constructor. apply andb_false_iff in E as [E|E]; [left|by right]. rewrite <- checked_Forall. by rewrite E.
Qed.

(** Reading what was written. *)
Lemma read_stored st ms : forallb message_ok ms = true → forallb message_checked ms = true →
  st !! STORAGE_KEYS MESSAGES = Some (envelope_text ms) → (Z.of_nat (length (envelope_text ms)) <= MAX_STORED_MESSAGES_BYTES)%Z →
  ∃ saved, readStoredMessagesValue st = (st, Some saved) ∧ truthy saved = true ∧ schema_parse (unwrapStoredValue saved) = Some ms.
Proof.
  intros Hok Hch Hst Hlen. unfold readStoredMessagesValue. rewrite Hst.
  assert (JSON_parse (envelope_text ms) = Some (JObj [(js "version", JNum (num_of_Z STORAGE_VERSION)); (js "data", schema_value ms)])) as Hp by by apply envelope_parse.
  destruct (envelope_text ms) as [|c e] eqn:E; [discriminate Hp|]. rewrite (proj2 (Z.ltb_ge _ _)) by done. eexists. rewrite Hp. split_and!; [done|done|].
  change (unwrapStoredValue _) with (schema_value ms). apply value_reads; [done|]. cbn [schema_check messagesSchema]. by rewrite Hch.
Qed.

Lemma sanitize_length n1 n2 n3 ms : length (sanitizeMessagesOnLoad t n1 n2 n3 ms) = length ms.
Proof.
  unfold sanitizeMessagesOnLoad. destruct (last_index _ ms); [|done].
  destruct (ms !! _); [|done]. apply length_insert.
Qed.

(** The messages a load returns. *)
Definition load_result (clocks : nat → clock) (n1 n2 n3 : Z) (ms : list Message) : list Message :=
  sanitizeMessagesOnLoad t n1 n2 n3
    (trimMessagesByContentSize (last_hundred (imap (λ i m, normalizeStoredMessageForLoad (clocks i) m) ms).*1)).1.

Lemma load_stored clocks n1 n2 n3 st ms : forallb message_ok ms = true → forallb message_checked ms = true →
  st !! STORAGE_KEYS MESSAGES = Some (envelope_text ms) → (Z.of_nat (length (envelope_text ms)) <= MAX_STORED_MESSAGES_BYTES)%Z →
  let out := load_result clocks n1 n2 n3 ms in
  loadMessages fits t clocks n1 n2 n3 st = (saveMessages fits out st, Some out).
Proof.
  intros Hok Hch Hst Hlen out. destruct (read_stored st ms Hok Hch Hst Hlen) as (saved & Hr & Ht & Hp).
  unfold loadMessages. rewrite Hr, Ht, Hp. cbn [negb]. unfold load_parsed. cbv zeta.
  rewrite (surjective_pairing (trimMessages _)), trim_hundred. unfold trimMessagesByContentSize at 1. cbn [negb]. by rewrite !orb_true_r.
Qed.

Lemma normal_lookup clocks ms i m' : (imap (λ i m, normalizeStoredMessageForLoad (clocks i) m) ms).*1 !! i = Some m' →
  ∃ m, ms !! i = Some m ∧ m' = (normalizeStoredMessageForLoad (clocks i) m).1.
Proof.
  rewrite list_lookup_fmap, list_lookup_imap. destruct (ms !! i) as [m|]; [|done]. cbn. intros [= <-]. eauto.
Qed.

Lemma load_repaired clocks n1 n2 n3 ms : repaired clocks n1 n2 n3 ms (load_result clocks n1 n2 n3 ms).
Proof.
  set (normal := (imap (λ i m, normalizeStoredMessageForLoad (clocks i) m) ms).*1).
  exists normal, (trimMessagesByContentSize (last_hundred normal)).1.
  pose proof (size_trim_spec (last_hundred normal)) as Hsize. split_and!; [|intros i m m' Hm Hm'|done|].
  - unfold normal. by rewrite length_fmap, length_imap.
  - apply normal_lookup in Hm' as (m0 & Hm0 & ->). assert (m0 = m) as -> by congruence. apply normalize_reopens.
  - apply sanitize_marked. intros m Hm Hp Ht. destruct (lf_suffix _ _ Hsize) as [dropped Hd].
    assert (m ∈ normal) as (i & Hi)%list_elem_of_lookup.
    { rewrite <- (take_drop (length normal - 100) normal). apply elem_of_app. right. fold (last_hundred normal). rewrite Hd. apply elem_of_app. by right. }
    apply normal_lookup in Hi as (m0 & _ & ->). destruct (normalize_reopens (clocks i) m0) as [_ Hs Hdone].
    unfold isPendingAssistantMessage in Hp. apply andb_true_iff in Hp as [_ Hp].
    destruct (isAssistantMessagePending m0) eqn:Ep; [|rewrite Hs in Hp by (by left); rewrite pending_cut in Hp; congruence].
    destruct (decide (hasMessageContent (cut_message m0) || match reasoning (cut_message m0) with Some r => negb (bool_decide (trim (r_content r) = [])) | None => false end = true))
      as [Ht0%has_text_spec|Ht0].
    + destruct (Hdone eq_refl Ht0) as [Hst _]. unfold isAssistantMessagePending in Hp. by rewrite Hst in Hp.
    + rewrite has_text_spec in Ht0. rewrite Hs in Ht by by right. done.
Qed.

Context (Ht1 : units_ok (t API_REQUEST_ERROR) = true) (Ht2 : units_ok (t INTERRUPTED) = true).

Lemma load_result_ok clocks n1 n2 n3 ms : (∀ i, clock_ok (clocks i)) → time_ok n1 = true → time_ok n2 = true → time_ok n3 = true →
  forallb message_ok ms = true → forallb message_checked ms = true →
  let out := load_result clocks n1 n2 n3 ms in
  forallb message_ok out = true ∧ forallb message_checked out = true ∧ length out <= 100.
Proof.
  intros Hc H1 H2 H3 Hok Hch out. rewrite forallb_Forall, Forall_forall in Hok, Hch. unfold out, load_result.
  set (normal := (imap (λ i m, normalizeStoredMessageForLoad (clocks i) m) ms).*1). set (kept := (trimMessagesByContentSize (last_hundred normal)).1).
  assert (∃ dropped, last_hundred normal = dropped ++ kept) as [dropped Hd] by apply size_trim_spec.
  assert (∀ m, m ∈ kept → message_fine m ∧ message_checked m = true) as Hk.
  { intros m Hm. assert (m ∈ normal) as (i & Hi)%list_elem_of_lookup.
    { rewrite <- (take_drop (length normal - 100) normal). apply elem_of_app. right. fold (last_hundred normal). rewrite Hd. apply elem_of_app. by right. }
    apply normal_lookup in Hi as (m0 & Hm0 & ->). apply list_elem_of_lookup_2 in Hm0.
    split; [apply fine_normalize; [done|]; by apply message_fine_ok, Hok|by apply checked_normalize, Hch]. }
  assert (∀ m, m ∈ sanitizeMessagesOnLoad t n1 n2 n3 kept → message_fine m ∧ message_checked m = true) as Hs.
  { unfold sanitizeMessagesOnLoad. destruct (last_index _ kept) as [i|]; [|done]. destruct (kept !! i) as [m0|] eqn:Em; [|done].
    intros m (j & Hj)%list_elem_of_lookup. apply list_lookup_insert_Some in Hj as [(-> & <- & _)|[_ Hj]]; [|by apply Hk; eapply list_elem_of_lookup_2].
    apply fine_sanitized; try done. apply Hk. by eapply list_elem_of_lookup_2. }
  split_and!.
  - apply forallb_Forall, Forall_forall. intros m Hm. by apply message_fine_ok, Hs.
  - apply forallb_Forall, Forall_forall. intros m Hm. by apply Hs.
  - rewrite sanitize_length. pose proof (last_hundred_length normal) as Hl. rewrite Hd, length_app in Hl. lia.
Qed.

Lemma load_simulates clocks n1 n2 n3 st cell : op_ok (Load clocks n1 n2 n3) → holds st cell →
  let r := loadMessages fits t clocks n1 n2 n3 st in
  ∃ cell', cell_step (fits st (STORAGE_KEYS MESSAGES)) (Load clocks n1 n2 n3) cell (Some r.2) cell' ∧ holds r.1 cell'.
Proof.
  intros (Hc & H1 & H2 & H3) Hst. destruct cell as [ms|].
  2: { cbn [holds] in Hst. unfold loadMessages, readStoredMessagesValue. rewrite Hst. exists None. split; [constructor|done]. }
  destruct Hst as (Hok & Hch & Hst). destruct (Z.le_gt_cases (Z.of_nat (length (envelope_text ms))) MAX_STORED_MESSAGES_BYTES) as [Hl|Hl].
  - rewrite (load_stored clocks n1 n2 n3 st ms) by done. cbv zeta. cbn [fst snd]. set (out := load_result clocks n1 n2 n3 ms).
    destruct (load_result_ok clocks n1 n2 n3 ms Hc H1 H2 H3 Hok Hch) as (O1 & O2 & O3). fold out in O1, O2, O3.
    eexists. split; [by apply cell_loaded, load_repaired|]. rewrite save_spec, last_hundred_short by done. rewrite O2. cbn [andb].
    destruct (fits _ _ _); [|done]. split_and!; [done|done|apply lookup_insert_eq].
  - assert (loadMessages fits t clocks n1 n2 n3 st = (delete (STORAGE_KEYS MESSAGES) st, None)) as ->.
    { unfold loadMessages, readStoredMessagesValue. rewrite Hst. destruct (envelope_text ms) as [|c e]; [by vm_compute in Hl|].
      by rewrite (proj2 (Z.ltb_lt _ _)). }
    exists None. split; [by constructor|]. apply lookup_delete_eq.
Qed.

(** C6: the stored conversation refines a cell.  Over any sequence of saves, loads and
    clearings, from a store without a conversation, every step of the storage is the step
    of a cell: a save puts the last hundred messages in (refused when one of them has no
    version, or when the browser refuses the text), and a load returns exactly what the
    cell holds, repaired: texts without repeated sections and cut, answers that were
    pending finished, the longest end within the limit, the last answer that never began
    marked as interrupted; the repaired conversation is put in unless the browser refuses,
    and a text beyond the limit is removed.  For texts of 16-bit units and times in
    milliseconds below 2^53, and any browser. *)
Theorem storage_refines_cell ops st :
  st !! STORAGE_KEYS MESSAGES = None → Forall op_ok ops → refines_cell ops st None.
Proof.
  intros Hst. assert (∀ st cell, holds st cell → Forall op_ok ops → refines_cell ops st cell) as H; [|by apply H].
  clear st Hst. induction ops as [|op ops IH]; intros st cell Hst Hops; [done|]. apply Forall_cons in Hops as [Hop Hops]. cbn [refines_cell].
  destruct op as [ms|clocks n1 n2 n3|].
  - destruct (save_simulates ms st cell Hop Hst) as (cell' & Hs & Hh). exists cell'. split; [done|]. by apply IH.
  - destruct (load_simulates clocks n1 n2 n3 st cell Hop Hst) as (cell' & Hs & Hh). exists cell'. cbn [run_op].
    destruct (loadMessages fits t clocks n1 n2 n3 st) as [st' r]. split; [done|]. by apply IH.
  - exists None. split; [constructor|]. apply IH; [|done]. cbn. apply lookup_delete_eq.
Qed.

Lemma load_some clocks n1 n2 n3 st st' ms :
  loadMessages fits t clocks n1 n2 n3 st = (st', Some ms) →
  ∃ parsed, load_parsed fits t clocks n1 n2 n3 parsed st = (st', ms).
Proof.
  unfold loadMessages, readStoredMessagesValue.
  destruct (st !! STORAGE_KEYS MESSAGES) as [[|c saved]|]; [done| |done].
  destruct (Z.ltb _ _); [done|]. destruct (JSON_parse _) as [v|]; [|done].
  destruct (truthy v); [|done]. cbn [negb]. destruct (schema_parse _) as [parsed|]; [|done].
  intros H. exists parsed. destruct (load_parsed _ _ _ _ _ _ _ _). by injection H as -> ->.
Qed.

Lemma load_none clocks n1 n2 n3 st st' :
  loadMessages fits t clocks n1 n2 n3 st = (st', None) →
  st' = st ∨ st' = delete (STORAGE_KEYS MESSAGES) st.
Proof.
  unfold loadMessages, readStoredMessagesValue.
  destruct (st !! STORAGE_KEYS MESSAGES) as [[|c saved]|]; [intros [= <-]; by left| |intros [= <-]; by left].
  destruct (Z.ltb _ _); [intros [= <-]; by right|]. destruct (JSON_parse _) as [v|]; [|intros [= <-]; by left].
  destruct (truthy v); [|intros [= <-]; by left]. cbn [negb].
  destruct (schema_parse _) as [parsed|]; [|intros [= <-]; by left]. by destruct (load_parsed _ _ _ _ _ _ _ _).
Qed.

Lemma load_parsed_writes clocks n1 n2 n3 parsed st st' ms :
  load_parsed fits t clocks n1 n2 n3 parsed st = (st', ms) → st' = saveMessages fits ms st.
Proof.
  unfold load_parsed. destruct (trimMessages _) as [trimmed same]. unfold trimMessagesByContentSize.
  cbn [negb]. rewrite !orb_true_r. cbn [orb]. by intros [= <- <-].
Qed.

Lemma save_frame ms st k : k ≠ STORAGE_KEYS MESSAGES → saveMessages fits ms st !! k = st !! k.
Proof.
  intros Hk. unfold saveMessages, save_with. destruct (schema_check _) as [x|]; [|done]. cbn.
  unfold writeStoredValue. destruct (fits _ _ _); [|done]. cbn. by apply lookup_insert_ne.
Qed.

(** A load that returns messages has always written them back, whether or not
    anything changed: the array of the size trimming is new every time, so the comparison
    by reference that should skip the write never does. *)
Theorem load_always_saves clocks n1 n2 n3 st st' ms :
  loadMessages fits t clocks n1 n2 n3 st = (st', Some ms) → st' = saveMessages fits ms st.
Proof.
  intros H. destruct (load_some _ _ _ _ _ _ _ H) as (parsed & Hl). by eapply load_parsed_writes.
Qed.

(** What a load returns is bounded: at most a hundred messages, which are the
    sanitized form of messages whose texts together are within the limit, unless a single
    one is left. *)
Theorem load_bounded clocks n1 n2 n3 st st' ms :
  loadMessages fits t clocks n1 n2 n3 st = (st', Some ms) →
  length ms <= MAX_STORED_MESSAGES ∧
  ∃ kept, ms = sanitizeMessagesOnLoad t n1 n2 n3 kept ∧
    ((total_size kept <= MAX_LOADED_MESSAGES_CHARS)%Z ∨ length kept = 1).
Proof.
  intros H. destruct (load_some _ _ _ _ _ _ _ H) as (parsed & Hl). revert Hl. unfold load_parsed.
  set (normalized := imap _ parsed). pose proof (trim_messages_spec normalized.*1) as [_ Hc].
  destruct (trimMessages normalized.*1) as [trimmed same]. cbn [fst] in Hc.
  destruct (size_trim_spec trimmed) as [[dropped Hd] _ Hf _].
  rewrite (surjective_pairing (trimMessagesByContentSize trimmed)).
  set (kept := (trimMessagesByContentSize trimmed).1) in *. intros [= _ <-]. split.
  - rewrite sanitize_length. rewrite Hd, length_app in Hc. lia.
  - by exists kept.
Qed.

(** *** Errors and other keys *)

(** Nothing a stored text can hold makes a load fail: a text that is not JSON, or a
    value the schema refuses, gives no messages and leaves the store as it is; a text
    beyond the limit gives none and is removed; a value is never lost by a refused save;
    and no operation touches a key that is not the conversation's. *)
Theorem storage_errors clocks n1 n2 n3 st ms k :
  (∀ text, st !! STORAGE_KEYS MESSAGES = Some text →
     (Z.of_nat (length text) <= MAX_STORED_MESSAGES_BYTES)%Z →
     text ≠ [] → (JSON_parse text ≫= λ v, schema_parse (T:=list Message) (unwrapStoredValue v)) = None →
     loadMessages fits t clocks n1 n2 n3 st = (st, None)) ∧
  (∀ text, st !! STORAGE_KEYS MESSAGES = Some text →
     (MAX_STORED_MESSAGES_BYTES < Z.of_nat (length text))%Z →
     loadMessages fits t clocks n1 n2 n3 st = (delete (STORAGE_KEYS MESSAGES) st, None)) ∧
  ((∀ st' key text, fits st' key text = false) → saveMessages fits ms st = st) ∧
  (k ≠ STORAGE_KEYS MESSAGES →
     saveMessages fits ms st !! k = st !! k ∧
     (loadMessages fits t clocks n1 n2 n3 st).1 !! k = st !! k).
Proof.
  split_and!.
  - intros text Hst Hl Hne Hp. unfold loadMessages, readStoredMessagesValue. rewrite Hst.
    destruct text as [|c text]; [done|]. rewrite (proj2 (Z.ltb_ge _ _)) by done.
    destruct (JSON_parse (c :: text)) as [v|]; [|done]. cbn [mbind option_bind] in Hp. rewrite Hp. by destruct (truthy v).
  - intros text Hst Hl. unfold loadMessages, readStoredMessagesValue. rewrite Hst.
    destruct text as [|c text]; [by vm_compute in Hl|]. by rewrite (proj2 (Z.ltb_lt _ _)) by done.
  - intros Hf. unfold saveMessages, save_with. destruct (schema_check _); [|done]. cbn.
    unfold writeStoredValue. by rewrite Hf.
  - intros Hk. split; [by apply save_frame|].
    destruct (loadMessages fits t clocks n1 n2 n3 st) as [st' [ms'|]] eqn:E; cbn [fst].
    + apply load_some in E as (parsed & ->%load_parsed_writes). by apply save_frame.
    + apply load_none in E as [->| ->]; [done|by apply lookup_delete_ne].
Qed.

End storage_facts.

(** *** The configuration *)

(** A configuration, or a set of flags, that the browser accepted is read again as it was. *)
Theorem settings_stored_reopen fits c p st :
  (stored_config_ok c = true → config_numbers is_finite c = true → fits st (STORAGE_KEYS CONFIG) (envelope_text c) = true →
     loadConfig (saveConfig fits c st) = c) ∧
  (fits st (STORAGE_KEYS PARAMETER_ENABLED) (envelope_text p) = true →
     loadParameterEnabled (saveParameterEnabled fits p st) = p).
Proof.
  assert (∀ T `{SchemaLaws T} k (x empty : T), storable x → schema_check x = Some x → fits st (STORAGE_KEYS k) (envelope_text x) = true →
    load_with k empty (save_with fits k x st) = x) as Hreopen.
  { intros T HS HL k x empty Hx Hc Hf. unfold save_with, load_with, readStoredValue, writeStoredValue. rewrite Hc. cbn [mbind option_bind]. rewrite Hf. cbn [default].
    unfold id. rewrite lookup_insert_eq. pose proof (envelope_parse x Hx) as Hp. destruct (envelope_text x); [discriminate Hp|]. rewrite Hp.
    cbn [mbind option_bind truthy negb]. change (unwrapStoredValue _) with (schema_value x). by rewrite value_reads. }
  split; [intros Hok Hn Hf; apply (Hreopen StoredConfig _ _); try done; cbn [schema_check playgroundConfigSchema]; by rewrite Hn|intros Hf; by apply (Hreopen StoredParameters _ _)].
Qed.

(** ** Witnesses *)
Definition plain (k : string) (r : MessageRole) (text : string) : Message :=
  mkMessage (js k) r [mkVersion (js "v1") (js text)] (Some 1000%Z) None None None None None None None None None None.
Definition first_turn : list Message :=
  [plain "m1" user "What is 2 + 2?"; createLoadingAssistantMessage (js "m2", js "v1") 2000].
Definition first_turn_reopened : list Message :=
  [plain "m1" user "What is 2 + 2?";
   set_timing (Some 2000%Z) (Some 9000%Z) (Some 7000%Z)
     (set_status error (set_versions [mkVersion (js "v1") (js "Request error occurred: Generation was interrupted")]
        (createLoadingAssistantMessage (js "m2", js "v1") 2000)))].

(** A browser with room for a small text only. *)
Definition small_quota (st : storage) (key text : jsstring) : bool := (length text <=? 500)%nat.
Definition stopped : nat → clock := λ _, {| at_fallback := 0; at_finalize1 := 0; at_finalize2 := 0 |}.
Definition session : list storage_op := [Load stopped 0 0 9000; Save first_turn; Load stopped 0 0 9000; Clear; Load stopped 0 0 9000].

Lemma storage_refines_cell_witness :
  refines_cell small_quota (λ x, x) session ∅ None ∧
  (run_op small_quota (λ x, x) (Load stopped 0 0 9000) (run_op small_quota (λ x, x) (Save first_turn) ∅).1).2 = Some (Some first_turn_reopened).
Proof.
  split; [|vm_compute; reflexivity].
  refine (storage_refines_cell small_quota (λ x, x) eq_refl eq_refl session ∅ (lookup_empty _) _).
  assert (∀ i, clock_ok (stopped i)) as Hc by (intros i; split; [reflexivity|split; reflexivity]).
  repeat (apply Forall_cons; split; [first [exact I|reflexivity|split; [exact Hc|split; [reflexivity|split; reflexivity]]]|]). apply Forall_nil. exact I.
Defined.

Definition stored : storage := {[STORAGE_KEYS MESSAGES := envelope_text first_turn_reopened]}.

Lemma load_always_saves_witness : stored = saveMessages small_quota first_turn_reopened stored.
Proof.
  apply (load_always_saves small_quota (λ x, x) stopped 0 0 0 stored stored first_turn_reopened). vm_compute. reflexivity.
Defined.

Lemma load_bounded_witness : length first_turn_reopened <= MAX_STORED_MESSAGES.
Proof.
  apply (load_bounded small_quota (λ x, x) stopped 0 0 0 stored stored first_turn_reopened). vm_compute. reflexivity.
Defined.

Lemma storage_errors_witness :
  loadMessages small_quota (λ x, x) stopped 0 0 0 {[STORAGE_KEYS MESSAGES := js "[oops"]} =
  ({[STORAGE_KEYS MESSAGES := js "[oops"]}, None).
Proof.
  apply (storage_errors small_quota (λ x, x) stopped 0 0 0 {[STORAGE_KEYS MESSAGES := js "[oops"]} []
           (js "theme")) with (text := js "[oops").
  - vm_compute. reflexivity.
  - vm_compute. discriminate.
  - discriminate.
  - vm_compute. reflexivity.
Defined.

