(* ===== verification/JsDynamic.v ===== *)
(** Operations on values whose type is only known at run time, and the URL parser of the
    browser.

    TypeScript types are erased: what the program reads out of parsed JSON may be any
    value, and a read that the types promise to be safe may throw a TypeError. *)
From S2P Require Import Prelude JsString JsValue.

(** [v.k] of a plain property. *)
Definition get_prop (k : string) (v : jsval) : res js_error jsval :=
  match v with JUndef | JNull => Throw TypeError | _ => Ok (prop k v) end.

(** [v?.trim()]: no value in the model is a function, so only a text has the method. *)
Definition opt_trim (v : jsval) : res js_error jsval :=
  match v with
  | JUndef | JNull => Ok JUndef
  | JStr s => Ok (JStr (trim s))
  | _ => Throw TypeError
  end.

(** [v.trim()]. *)
Definition call_trim (v : jsval) : res js_error jsstring :=
  match v with JStr s => Ok (trim s) | _ => Throw TypeError end.

(** [a || b]. *)
Definition or_else (a b : jsval) : jsval := if truthy a then a else b.

(** [v?.trim() || '']. *)
Definition trimmed_or_empty (v : jsval) : res js_error jsstring :=
  t ← opt_trim v; Ok (match t with JStr s => s | _ => [] end).

(** [try { m } catch { e }]. *)
Definition recover {A} (m : res js_error A) (e : A) : A := match m with Ok a => a | Throw _ => e end.

(** The properties that [{...v}] copies. *)
Definition spread (v : jsval) : list (jsstring * jsval) :=
  match v with
  | JObj ps => ps
  | JArr l => imap (λ i x, (show_N (N.of_nat i), x)) l
  | JStr s => imap (λ i c, (show_N (N.of_nat i), JStr [c])) s
  | _ => []
  end.

(** [v[k]] of an own property. *)
Definition own (k : jsstring) (v : jsval) : jsval := default JUndef (jget k (spread v)).

(** [new URL(s)] of the browser, [None] where it throws: the parts the program reads. *)
Record UrlParts := { u_protocol : jsstring; u_host : jsstring; u_hostname : jsstring; u_port : jsstring }.

Class UrlParser := new_URL : jsstring → option UrlParts.

Lemma trimmed_or_empty_Ok v s :
  trimmed_or_empty v = Ok s ↔ (∃ t, v = JStr t ∧ s = trim t) ∨ ((v = JUndef ∨ v = JNull) ∧ s = []).
Proof.
  unfold trimmed_or_empty. destruct v; cbn; split; try naive_solver;
    try (intros [= <-]; naive_solver); intros [(? & [=] & ?)|[[[=]|[=]] ?]]; congruence.
Qed.

Lemma get_prop_Ok k v x : get_prop k v = Ok x → x = prop k v.
Proof. by destruct v; simpl; intros [= <-]. Qed.

Lemma trim_not_nil c s : is_ws c = false → trim (c :: s) ≠ [].
Proof.
  intros Hc H. unfold trim, trim_end in H. rewrite trim_start_noop in H by done.
  apply (f_equal (@reverse N)) in H. rewrite reverse_involutive, reverse_cons, reverse_nil in H.
  revert H. generalize (reverse s). intros t.
  induction t as [|d t IH]; cbn; [by rewrite Hc|]. case_match; [done|]. done.
Qed.
