(* ===== verification/AdvancedCustom.v ===== *)
(** Advanced custom channels (web/src/features/channels/lib/advanced-custom.ts): routes
    that map an incoming API path, for all or some models, to an upstream path through a
    converter with its own authentication.

    The configuration is read from JSON, so its values are dynamic ([jsval]); an operation
    returns [Throw TypeError] where the code would.  The registries, templates, defaults,
    normalisation, parsing, printing and the validator are executable.  The theorems are in
    AdvancedCustomFacts.v. *)
From S2P Require Import Prelude JsString JsValue Json JsonQuote JsonPrint JsDynamic.
Local Open Scope nat_scope.

Definition CHANNEL_TYPE_ADVANCED_CUSTOM : Z := 58.
Definition ADVANCED_CUSTOM_MODEL_LIST_PATH : jsstring := js "/v1/models".
Definition ADVANCED_CUSTOM_MODEL_LIST_LABEL : jsstring := js "OpenAI Models".
Definition ADVANCED_CUSTOM_MODEL_REGEX_PREFIX : jsstring := js "re:".

(** ** Converters, authentication modes and incoming paths *)
Record ConverterOption := { co_value : jsstring; co_label : jsstring; co_triggerLabel : jsstring }.

Definition converter_option (v l t : string) : ConverterOption :=
  {| co_value := js v; co_label := js l; co_triggerLabel := js t |}.

Definition ADVANCED_CUSTOM_CONVERTER_OPTIONS : list ConverterOption := [
  converter_option "none" "Native forwarding" "Native forwarding";
  converter_option "anthropic_messages_to_openai_chat_completions"
    "Anthropic Messages to OpenAI Chat" "To OpenAI Chat";
  converter_option "openai_chat_completions_to_anthropic_messages"
    "OpenAI Chat to Anthropic Messages" "To Anthropic Messages";
  converter_option "openai_chat_completions_to_openai_responses"
    "OpenAI Chat to OpenAI Responses" "To OpenAI Responses";
  converter_option "openai_responses_to_openai_chat_completions"
    "OpenAI Responses to OpenAI Chat" "To OpenAI Chat";
  converter_option "openai_responses_to_gemini_generate_content"
    "OpenAI Responses to Gemini Generate Content" "To Gemini Generate Content";
  converter_option "gemini_generate_content_to_openai_chat_completions"
    "Gemini Generate Content to OpenAI Chat" "To OpenAI Chat";
  converter_option "openai_chat_completions_to_gemini_generate_content"
    "OpenAI Chat to Gemini Generate Content" "To Gemini Generate Content" ].

Definition ADVANCED_CUSTOM_AUTH_MODE_OPTIONS : list (jsstring * jsstring) := [
  (js "default", js "Default Bearer"); (js "none", js "No Auth");
  (js "header", js "Header"); (js "query", js "Query") ].

(** Value and label. *)
Definition ADVANCED_CUSTOM_INCOMING_PATH_OPTIONS : list (jsstring * jsstring) := [
  (js "/v1/chat/completions", js "OpenAI Chat");
  (js "/v1/responses", js "OpenAI Responses");
  (js "/v1/responses/compact", js "OpenAI Responses Compact");
  (ADVANCED_CUSTOM_MODEL_LIST_PATH, ADVANCED_CUSTOM_MODEL_LIST_LABEL);
  (js "/v1/embeddings", js "OpenAI Embeddings");
  (js "/v1/images/generations", js "OpenAI Image Generations");
  (js "/v1/images/edits", js "OpenAI Image Edits");
  (js "/v1/completions", js "OpenAI Completions");
  (js "/v1/audio/speech", js "OpenAI Audio Speech");
  (js "/v1/audio/transcriptions", js "OpenAI Audio Transcriptions");
  (js "/v1/audio/translations", js "OpenAI Audio Translations");
  (js "/v1/rerank", js "OpenAI Rerank");
  (js "/v1/realtime", js "OpenAI Realtime");
  (js "/v1/messages", js "Claude Messages");
  (js "/v1beta/models/{model}:generateContent", js "Gemini Generate Content");
  (js "/v1beta/models/{model}:embedContent", js "Gemini Embed Content");
  (js "/v1beta/models/{model}:batchEmbedContents", js "Gemini Batch Embed Contents") ].

Definition ADVANCED_CUSTOM_ROUTE_SUMMARY_LABELS : list (jsstring * jsstring) := [
  (js "/v1/chat/completions", js "OpenAI Chat");
  (ADVANCED_CUSTOM_MODEL_LIST_PATH, ADVANCED_CUSTOM_MODEL_LIST_LABEL) ].

Definition openAIChatPath : jsstring := js "/v1/chat/completions".
Definition openAIResponsesPath : jsstring := js "/v1/responses".
Definition claudeMessagesPath : jsstring := js "/v1/messages".
Definition geminiGenerateContentPath : jsstring := js "/v1beta/models/{model}:generateContent".

(** ** Routes as the objects the code builds *)
Definition auth_value (type name value : string) : jsval :=
  JObj [(js "type", JStr (js type)); (js "name", JStr (js name)); (js "value", JStr (js value))].

Definition bearerHeaderAuth : jsval := auth_value "header" "Authorization" "Bearer {api_key}".
Definition apiKeyHeaderAuth : jsval := auth_value "header" "x-api-key" "{api_key}".
Definition geminiQueryAuth : jsval := auth_value "query" "key" "{api_key}".

Definition template_route (incoming upstream converter : string) (auth : jsval) : jsval :=
  JObj [(js "incoming_path", JStr (js incoming)); (js "upstream_path", JStr (js upstream));
        (js "converter", JStr (js converter)); (js "auth", auth)].

Definition routes_config (routes : list jsval) : jsval := JObj [(js "advanced_routes", JArr routes)].

Record TemplateOption := { to_value : jsstring; to_label : jsstring; to_config : jsval }.

(** A native route forwards a path to itself. *)
Definition native_route (path : string) (auth : jsval) : jsval := template_route path path "none" auth.

Definition ADVANCED_CUSTOM_TEMPLATE_OPTIONS : list TemplateOption := [
  {| to_value := js "official_openai_chat"; to_label := js "Official OpenAI Chat";
     to_config := routes_config [native_route "/v1/chat/completions" bearerHeaderAuth] |};
  {| to_value := js "official_openai_responses"; to_label := js "Official OpenAI Responses";
     to_config := routes_config [native_route "/v1/responses" bearerHeaderAuth] |};
  {| to_value := js "official_openai_embeddings"; to_label := js "Official OpenAI Embeddings";
     to_config := routes_config [native_route "/v1/embeddings" bearerHeaderAuth] |};
  {| to_value := js "official_openai_images"; to_label := js "Official OpenAI Images";
     to_config := routes_config [native_route "/v1/images/generations" bearerHeaderAuth;
                                 native_route "/v1/images/edits" bearerHeaderAuth] |};
  {| to_value := js "official_claude_messages"; to_label := js "Official Claude Messages";
     to_config := routes_config [native_route "/v1/messages" apiKeyHeaderAuth] |};
  {| to_value := js "official_gemini_native"; to_label := js "Official Gemini Native";
     to_config := routes_config
       [native_route "/v1beta/models/{model}:generateContent" geminiQueryAuth;
        native_route "/v1beta/models/{model}:embedContent" geminiQueryAuth;
        native_route "/v1beta/models/{model}:batchEmbedContents" geminiQueryAuth] |};
  {| to_value := js "official_gemini_from_openai_chat"; to_label := js "Official Gemini from OpenAI Chat";
     to_config := routes_config
       [template_route "/v1/chat/completions" "/v1beta/models/{model}:generateContent"
          "openai_chat_completions_to_gemini_generate_content" geminiQueryAuth] |} ].

(** [JSON.parse(JSON.stringify(config))]. *)
Definition cloneAdvancedCustomConfig (config : jsval) : res js_error jsval :=
  match JSON_parse (JSON_stringify 0 config) with Some v => Ok v | None => Throw SyntaxError end.

Definition getAdvancedCustomTemplateConfig (templateKey : jsstring) : res js_error jsval :=
  match List.find (λ o, bool_decide (to_value o = templateKey)) ADVANCED_CUSTOM_TEMPLATE_OPTIONS,
        ADVANCED_CUSTOM_TEMPLATE_OPTIONS with
  | Some o, _ | None, o :: _ => cloneAdvancedCustomConfig (to_config o)
  | None, [] => Throw TypeError
  end.

Definition createAdvancedCustomRoute : jsval :=
  JObj [(js "incoming_path", JStr openAIChatPath); (js "upstream_path", JStr openAIChatPath);
        (js "converter", JStr (js "none"))].

Definition createAdvancedCustomConfig : jsval := routes_config [createAdvancedCustomRoute].

(** ** Which converter serves which path *)
Definition isConverterPathAllowed (incomingPath converter : jsstring) : bool :=
  if bool_decide (converter = js "none") then true
  else if bool_decide (converter = js "anthropic_messages_to_openai_chat_completions") then
    bool_decide (incomingPath = js "/v1/messages")
  else if bool_decide (converter = js "openai_chat_completions_to_anthropic_messages")
       || bool_decide (converter = js "openai_chat_completions_to_openai_responses")
       || bool_decide (converter = js "openai_chat_completions_to_gemini_generate_content") then
    bool_decide (incomingPath = js "/v1/chat/completions")
  else if bool_decide (converter = js "openai_responses_to_openai_chat_completions") then
    bool_decide (incomingPath = js "/v1/responses")
  else if bool_decide (converter = js "openai_responses_to_gemini_generate_content") then
    bool_decide (incomingPath = js "/v1/responses")
  else includes (js ":generateContent") incomingPath || includes (js ":streamGenerateContent") incomingPath.

Definition isAdvancedCustomIncomingPathAllowed (incomingPath converter : jsstring) : bool :=
  isConverterPathAllowed incomingPath converter.

Definition getAdvancedCustomIncomingPathOptions (converter : jsstring) : list (jsstring * jsstring) :=
  filter (λ o, isConverterPathAllowed o.1 converter = true) ADVANCED_CUSTOM_INCOMING_PATH_OPTIONS.

Definition getDefaultAdvancedCustomIncomingPath (converter : jsstring) : jsstring :=
  match head (getAdvancedCustomIncomingPathOptions converter) with
  | Some ((_ :: _) as value, _) => value
  | _ => js "/v1/chat/completions"
  end.

Definition getAdvancedCustomConverterOptions (incomingPath : jsstring) : list ConverterOption :=
  let normalizedIncomingPath := trim incomingPath in
  filter (λ o, bool_decide (co_value o = js "none") || isConverterPathAllowed normalizedIncomingPath (co_value o) = true)
    ADVANCED_CUSTOM_CONVERTER_OPTIONS.

Definition getAdvancedCustomIncomingPathLabel (value : jsstring) : jsstring :=
  match List.find (λ o, bool_decide (o.1 = value)) ADVANCED_CUSTOM_INCOMING_PATH_OPTIONS with
  | Some (_, (_ :: _) as label) => label
  | _ => value
  end.

Definition getAdvancedCustomNativeAuth (incomingPath : jsstring) : jsval :=
  if bool_decide (incomingPath = claudeMessagesPath) then apiKeyHeaderAuth
  else if includes (js ":generateContent") incomingPath || includes (js ":streamGenerateContent") incomingPath
       || includes (js ":embedContent") incomingPath || includes (js ":batchEmbedContents") incomingPath then
    geminiQueryAuth
  else bearerHeaderAuth.

(** Upstream path and authentication. *)
Definition getAdvancedCustomConverterDefaults (converter incomingPath : jsstring) : jsstring * jsval :=
  let normalizedIncomingPath := match trim incomingPath with
                                | [] => getDefaultAdvancedCustomIncomingPath converter
                                | p => p
                                end in
  if bool_decide (converter = js "none") then
    (normalizedIncomingPath, getAdvancedCustomNativeAuth normalizedIncomingPath)
  else if bool_decide (converter = js "anthropic_messages_to_openai_chat_completions")
       || bool_decide (converter = js "gemini_generate_content_to_openai_chat_completions")
       || bool_decide (converter = js "openai_responses_to_openai_chat_completions") then
    (openAIChatPath, bearerHeaderAuth)
  else if bool_decide (converter = js "openai_chat_completions_to_openai_responses") then
    (openAIResponsesPath, bearerHeaderAuth)
  else if bool_decide (converter = js "openai_chat_completions_to_anthropic_messages") then
    (claudeMessagesPath, apiKeyHeaderAuth)
  else if bool_decide (converter = js "openai_chat_completions_to_gemini_generate_content")
       || bool_decide (converter = js "openai_responses_to_gemini_generate_content") then
    (geminiGenerateContentPath, geminiQueryAuth)
  else
    (match normalizedIncomingPath with [] => openAIChatPath | p => p end,
     getAdvancedCustomNativeAuth normalizedIncomingPath).

(** The second argument defaults to the default path of the converter. *)
Definition getAdvancedCustomUpstreamPathPlaceholder (converter : jsstring) (incomingPath : option jsstring) : jsstring :=
  (getAdvancedCustomConverterDefaults converter
     (default (getDefaultAdvancedCustomIncomingPath converter) incomingPath)).1.

(** ** Normalisation *)
Definition getAdvancedCustomRouteUpstreamPath (route : jsval) : res js_error jsstring :=
  p ← get_prop "upstream_path" route; call_trim (or_else p (JStr [])).

Definition normalizeAdvancedCustomRouteModels (models : jsval) : res js_error (list jsstring) :=
  match models with
  | JArr l => ms ← mapM_res call_trim l; Ok (filter (λ m, m ≠ []) ms)
  | _ => Ok []
  end.

Definition normalizeAdvancedCustomAuth (auth : jsval) : jsval :=
  JObj [(js "type", prop "type" auth); (js "name", or_else (prop "name" auth) (JStr []));
        (js "value", or_else (prop "value" auth) (JStr []))].

(** [nextRoute]: the models and the authentication are only set when there are any. *)
Definition next_route (incoming : jsval) (upstream : jsstring) (converter : jsval) (models : list jsstring)
    (auth : jsval) : jsval :=
  JObj ([(js "incoming_path", or_else incoming (JStr [])); (js "upstream_path", JStr upstream);
         (js "converter", or_else converter (JStr (js "none")))]
        ++ (if bool_decide (models = []) then [] else [(js "models", JArr (JStr <$> models))])
        ++ (if truthy auth then [(js "auth", normalizeAdvancedCustomAuth auth)] else [])).

Definition normalizeAdvancedCustomRoute (route : jsval) : res js_error jsval :=
  incoming ← get_prop "incoming_path" route;
  upstream ← getAdvancedCustomRouteUpstreamPath route;
  models ← normalizeAdvancedCustomRouteModels (prop "models" route);
  Ok (next_route incoming upstream (prop "converter" route) models (prop "auth" route)).

Definition normalizeAdvancedCustomConfig (config : jsval) : res js_error jsval :=
  advanced_routes ← get_prop "advanced_routes" config;
  match advanced_routes with
  | JArr l => routes ← mapM_res normalizeAdvancedCustomRoute l; Ok (routes_config routes)
  | _ => Ok (routes_config [])
  end.

(** ** Parsing and printing *)
Definition parseAdvancedCustomConfig (value : option jsstring) : option jsval :=
  match value with
  | None => None
  | Some text =>
      if bool_decide (trim text = []) then None
      else
        match JSON_parse text with
        | Some ((JObj _) as parsed) => recover (c ← normalizeAdvancedCustomConfig parsed; Ok (Some c)) None
        | _ => None
        end
  end.

Definition stringifyAdvancedCustomConfig (config : jsval) : res js_error jsstring :=
  c ← normalizeAdvancedCustomConfig config; Ok (JSON_stringify 2 c).

Definition parseAdvancedCustomRouteModels (value : jsstring) : list jsstring :=
  set_of (filter (λ m, m ≠ []) (trim <$> split_on 44 value)).

Inductive ModelRuleKind := exact | regex.
#[export] Instance ModelRuleKind_eq_dec : EqDecision ModelRuleKind.
Proof. solve_decision. Defined.

Definition getAdvancedCustomModelRuleKind (modelRule : jsstring) : ModelRuleKind :=
  if starts_with ADVANCED_CUSTOM_MODEL_REGEX_PREFIX modelRule then regex else exact.

Definition getAdvancedCustomRegexModelPattern (modelRule : jsstring) : jsstring :=
  drop (length ADVANCED_CUSTOM_MODEL_REGEX_PREFIX) modelRule.

(** ** The validator *)
Record ValidationError := { message : jsstring; routeIndex : option nat }.

Definition at_route (index : nat) (m : string) : ValidationError :=
  {| message := js m; routeIndex := Some index |}.

(** What is known of an incoming path: its catch-all route and the models of its other routes. *)
Record PathState := { catchAllIndex : option nat; path_models : list (jsstring * nat) }.

(** The loop over the models of one route; [seenInRoute] are those before. *)
Fixpoint check_models (index : nat) (seenInRoute models : list jsstring) (known : list (jsstring * nat)) :
    ValidationError + list (jsstring * nat) :=
  match models with
  | [] => inr known
  | model :: models =>
      if bool_decide (getAdvancedCustomModelRuleKind model = regex)
         && bool_decide (getAdvancedCustomRegexModelPattern model = []) then
        inl (at_route index "Model regex cannot be empty")
      else if set_has model seenInRoute then inl (at_route index "Duplicate model in route models")
      else if jhas model known then
        inl (at_route index "Route models must be unique for the same incoming path")
      else check_models index (set_add model seenInRoute) models (jset model index known)
  end.

Definition validateAdvancedCustomRouteModels (index : nat) (incomingPath : jsstring) (models : list jsstring)
    (byPath : list (jsstring * PathState)) : ValidationError + list (jsstring * PathState) :=
  let state := default {| catchAllIndex := None; path_models := [] |} (jget incomingPath byPath) in
  match models, catchAllIndex state with
  | [], Some _ => inl (at_route index "Only one catch-all route is allowed for the same incoming path")
  | [], None =>
      inr (jset incomingPath {| catchAllIndex := Some index; path_models := path_models state |} byPath)
  | _, Some _ => inl (at_route index "Catch-all route must be last for the same incoming path")
  | _, None =>
      match check_models index [] models (path_models state) with
      | inl e => inl e
      | inr known => inr (jset incomingPath {| catchAllIndex := None; path_models := known |} byPath)
      end
  end.

Definition isAdvancedCustomConverter (value : jsval) : bool :=
  match value with
  | JStr s => existsb (λ o, bool_decide (co_value o = s)) ADVANCED_CUSTOM_CONVERTER_OPTIONS
  | _ => false
  end.

(** The check of the path a value that is a text gets; other values are refused before. *)
Definition converter_allowed (incomingPath : jsstring) (converter : jsval) : bool :=
  match converter with JStr c => isConverterPathAllowed incomingPath c | _ => false end.

Definition validateRouteAuth (auth : jsval) : res js_error (option jsstring) :=
  if negb (truthy auth) then Ok None
  else
    let type := prop "type" auth in
    if is_lit type "none" then Ok None
    else if negb (is_lit type "header") && negb (is_lit type "query") then Ok (Some (js "Auth type is invalid"))
    else
      name ← trimmed_or_empty (prop "name" auth);
      if bool_decide (name = []) then Ok (Some (js "Auth name is required"))
      else
        value ← trimmed_or_empty (prop "value" auth);
        Ok (if bool_decide (value = []) then Some (js "Auth value is required") else None).

Section validator.
Context {URL : UrlParser}.

Definition isFullHttpURLOrAbsolutePath (value : jsstring) : bool :=
  if starts_with (js "/") value then negb (starts_with (js "//") value)
  else
    match new_URL value with
    | Some parsed =>
        negb (bool_decide (u_host parsed = []))
        && (bool_decide (u_protocol parsed = js "http:") || bool_decide (u_protocol parsed = js "https:"))
    | None => false
    end.

(** What the loop keeps: the paths seen and the route of the model list. *)
Record LoopState := { byPath : list (jsstring * PathState); modelListRouteIndex : option nat }.

(** The checks that only concern the route of the model list. *)
Definition check_model_list (index : nat) (upstreamPath : jsstring) (converter : jsval) (models : list jsstring)
    (seen : option nat) : option ValidationError :=
  match seen with
  | Some _ => Some (at_route index "Only one OpenAI Models route is allowed")
  | None =>
      if negb (bool_decide (models = [])) then
        Some (at_route index "OpenAI Models route does not support client model rules")
      else if negb (is_lit converter "none") then
        Some (at_route index "OpenAI Models route must use native forwarding")
      else if includes (js "{model}") upstreamPath then
        Some (at_route index "OpenAI Models upstream path must not contain {model}")
      else None
  end.

(** The checks after those of the models. *)
Definition check_upstream (index : nat) (incomingPath upstreamPath : jsstring) (converter auth : jsval) :
    res js_error (option ValidationError) :=
  if bool_decide (upstreamPath = []) then Ok (Some (at_route index "Upstream path is required"))
  else if negb (isFullHttpURLOrAbsolutePath upstreamPath) then
    Ok (Some (at_route index "Upstream path must be a full URL or a path starting with /"))
  else if negb (isAdvancedCustomConverter converter) then
    Ok (Some (at_route index "Converter is not registered"))
  else if negb (converter_allowed incomingPath converter) then
    Ok (Some (at_route index "Converter does not match incoming path"))
  else
    authError ← validateRouteAuth auth;
    Ok (option_map (λ m, {| message := m; routeIndex := Some index |}) authError).

(** One turn of the loop over the routes. *)
Definition validate_route (index : nat) (route : jsval) (st : LoopState) :
    res js_error (ValidationError + LoopState) :=
  incomingPath ← trimmed_or_empty (prop "incoming_path" route);
  upstreamPath ← getAdvancedCustomRouteUpstreamPath route;
  let converter := or_else (prop "converter" route) (JStr (js "none")) in
  routeModels ← normalizeAdvancedCustomRouteModels (prop "models" route);
  if bool_decide (incomingPath = []) then Ok (inl (at_route index "Incoming path is required"))
  else if negb (starts_with (js "/") incomingPath) then Ok (inl (at_route index "Incoming path must start with /"))
  else if includes (js "?") incomingPath then Ok (inl (at_route index "Incoming path must not include query"))
  else
    let isModelList := bool_decide (incomingPath = ADVANCED_CUSTOM_MODEL_LIST_PATH) in
    match (if isModelList then check_model_list index upstreamPath converter routeModels (modelListRouteIndex st)
           else None) with
    | Some e => Ok (inl e)
    | None =>
        let listIndex := if isModelList then Some index else modelListRouteIndex st in
        match validateAdvancedCustomRouteModels index incomingPath routeModels (byPath st) with
        | inl e => Ok (inl e)
        | inr byPath' =>
            e ← check_upstream index incomingPath upstreamPath converter (prop "auth" route);
            Ok (match e with
                | Some e => inl e
                | None => inr {| byPath := byPath'; modelListRouteIndex := listIndex |}
                end)
        end
    end.

Fixpoint validate_routes (index : nat) (routes : list jsval) (st : LoopState) :
    res js_error (option ValidationError) :=
  match routes with
  | [] => Ok None
  | route :: routes =>
      r ← validate_route index route st;
      match r with inl e => Ok (Some e) | inr st' => validate_routes (S index) routes st' end
  end.

(** The routes of a normalised configuration. *)
Definition config_routes (config : jsval) : list jsval :=
  match prop "advanced_routes" config with JArr l => l | _ => [] end.

Definition validateAdvancedCustomConfig (config : option jsval) : res js_error (option ValidationError) :=
  match config with
  | None => Ok (Some {| message := js "Advanced custom configuration is required"; routeIndex := None |})
  | Some config =>
      normalized ← normalizeAdvancedCustomConfig config;
      match config_routes normalized with
      | [] => Ok (Some {| message := js "Advanced custom configuration requires at least one route";
                          routeIndex := None |})
      | routes => validate_routes 0 routes {| byPath := []; modelListRouteIndex := None |}
      end
  end.

(** [routes.some]: an error of the predicate escapes unless an earlier route satisfies it. *)
Fixpoint some_route (p : jsval → res js_error bool) (routes : list jsval) : res js_error bool :=
  match routes with
  | [] => Ok false
  | r :: routes => b ← p r; if b : bool then Ok true else some_route p routes
  end.

Definition hasValidAdvancedCustomModelListRoute (config : option jsval) : res js_error bool :=
  match config with
  | None => Ok false
  | Some c =>
      e ← validateAdvancedCustomConfig (Some c);
      match e with
      | Some _ => Ok false
      | None =>
          normalized ← normalizeAdvancedCustomConfig c;
          some_route (λ route, p ← opt_trim (prop "incoming_path" route); Ok (is_lit p "/v1/models"))
            (config_routes normalized)
      end
  end.

Definition advancedCustomConfigUsesRelativeUpstreamPath (config : option jsval) : res js_error bool :=
  match config with
  | None => Ok false
  | Some c =>
      normalized ← normalizeAdvancedCustomConfig c;
      some_route (λ route, p ← getAdvancedCustomRouteUpstreamPath route; Ok (starts_with (js "/") p))
        (config_routes normalized)
  end.

(** The table is an object: the names every object inherits are not paths. *)
Definition getAdvancedCustomRouteSummaryLabel (route : jsval) : res js_error (option jsstring) :=
  incomingPath ← trimmed_or_empty (prop "incoming_path" route);
  Ok (if bool_decide (incomingPath = []) then None
      else Some (match jget incomingPath ADVANCED_CUSTOM_ROUTE_SUMMARY_LABELS with
                 | Some ((_ :: _) as label) => label
                 | _ => getAdvancedCustomIncomingPathLabel incomingPath
                 end)).

Record AdvancedCustomStats := { routeCount : nat; valid : bool; routeTypeLabels : list jsstring }.

Definition getAdvancedCustomStats (value : option jsstring) : res js_error AdvancedCustomStats :=
  match parseAdvancedCustomConfig value with
  | None => Ok {| routeCount := 0; valid := false; routeTypeLabels := [] |}
  | Some config =>
      normalized ← normalizeAdvancedCustomConfig config;
      let routes := config_routes normalized in
      labels ← mapM_res getAdvancedCustomRouteSummaryLabel routes;
      e ← validateAdvancedCustomConfig (Some normalized);
      Ok {| routeCount := length routes;
            valid := match e with None => true | Some _ => false end;
            routeTypeLabels := set_of (filter (λ l, l ≠ []) (omap id labels)) |}
  end.

End validator.

(** ** Authentication modes *)
Definition getAdvancedCustomAuthMode (route : jsval) : res js_error jsval :=
  auth ← get_prop "auth" route;
  Ok (or_else (prop "type" auth) (JStr (js "default"))).

(** [previousAuth] is undefined or an object. *)
Definition buildAdvancedCustomAuth (mode : jsstring) (previousAuth : jsval) : jsval :=
  let previous k d := or_else (prop k previousAuth) (JStr (js d)) in
  if bool_decide (mode = js "default") then JUndef
  else if bool_decide (mode = js "none") then JObj [(js "type", JStr (js "none"))]
  else if bool_decide (mode = js "header") then
    JObj [(js "type", JStr (js "header")); (js "name", previous "name"%string "Authorization"%string);
          (js "value", previous "value"%string "Bearer {api_key}"%string)]
  else
    JObj [(js "type", JStr (js "query")); (js "name", previous "name"%string "api_key"%string);
          (js "value", previous "value"%string "{api_key}"%string)].
