(* ===== verification/AdvancedCustomFacts.v ===== *)
(** Facts of advanced custom channels: normalisation is stable and survives JSON; the
    validator accepts exactly the configurations of its contract [valid_routes] and reports
    the first route at fault; templates and menus are valid; a path that is no text makes
    the validator throw. *)
From S2P Require Import Prelude JsString JsValue Json JsonQuote JsonPrint JsDynamic AdvancedCustom.
Local Open Scope nat_scope.

(** ** Normalisation is stable *)
Lemma or_else_idemp a b : or_else (or_else a b) b = or_else a b.
Proof. unfold or_else. destruct (truthy a) eqn:E; [by rewrite E|]. by destruct (truthy b). Qed.

Lemma call_trim_texts ms : mapM_res call_trim (JStr <$> ms) = Ok (trim <$> ms).
Proof. induction ms as [|m ms IH]; [done|]. rewrite !fmap_cons. cbn [mapM_res call_trim]. by rewrite IH. Qed.

(** Rules as the code keeps them: trimmed and not empty. *)
Definition clean_rule (m : jsstring) : Prop := trim m = m ∧ m ≠ [].

Lemma route_models_clean v ms : normalizeAdvancedCustomRouteModels v = Ok ms → Forall clean_rule ms.
Proof.
  destruct v as [| | | | |l|]; cbn; try (by intros [= <-]; constructor).
  destruct (mapM_res call_trim l) as [ts|] eqn:E; cbn; [|done]. intros [= <-].
  apply mapM_res_Forall2 in E. apply Forall_forall. intros m [Hm Hin]%list_elem_of_filter. split; [|done].
  apply list_elem_of_lookup_1 in Hin as [i Hi]. destruct (Forall2_lookup_r _ _ _ _ _ E Hi) as (x & _ & Hx).
  destruct x; try done. injection Hx as <-. apply trim_idemp.
Qed.

Lemma route_models_stable ms :
  Forall clean_rule ms → normalizeAdvancedCustomRouteModels (JArr (JStr <$> ms)) = Ok ms.
Proof.
  intros H. cbn. rewrite call_trim_texts. cbn. f_equal.
  assert (trim <$> ms = ms) as ->.
  { induction H as [|m ms [Hm _] _ IH]; [done|]. by rewrite fmap_cons, Hm, IH. }
  apply filter_all. eapply Forall_impl; [exact H|]. by intros m [_ Hm].
Qed.

(** The fields of a normalised route. *)
Lemma next_route_props inc up conv ms auth :
  let n := next_route inc up conv ms auth in
  prop "incoming_path" n = or_else inc (JStr []) ∧ prop "upstream_path" n = JStr up ∧
  prop "converter" n = or_else conv (JStr (js "none")) ∧
  prop "models" n = (if bool_decide (ms = []) then JUndef else JArr (JStr <$> ms)) ∧
  prop "auth" n = (if truthy auth then normalizeAdvancedCustomAuth auth else JUndef).
Proof. unfold next_route. case_bool_decide; destruct (truthy auth); by split_and!. Qed.

Lemma normalize_auth_idemp auth :
  normalizeAdvancedCustomAuth (normalizeAdvancedCustomAuth auth) = normalizeAdvancedCustomAuth auth.
Proof.
  unfold normalizeAdvancedCustomAuth at 1 3. cbn [prop].
  change (prop "type" (normalizeAdvancedCustomAuth auth)) with (prop "type" auth).
  change (prop "name" (normalizeAdvancedCustomAuth auth)) with (or_else (prop "name" auth) (JStr [])).
  change (prop "value" (normalizeAdvancedCustomAuth auth)) with (or_else (prop "value" auth) (JStr [])).
  by rewrite !or_else_idemp.
Qed.

Lemma next_route_stable inc up conv ms auth :
  trim up = up → Forall clean_rule ms →
  normalizeAdvancedCustomRoute (next_route inc up conv ms auth) = Ok (next_route inc up conv ms auth).
Proof.
  intros Hu Hm. destruct (next_route_props inc up conv ms auth) as (E1 & E2 & E3 & E4 & E5).
  unfold normalizeAdvancedCustomRoute, getAdvancedCustomRouteUpstreamPath.
  change (get_prop ?k (next_route inc up conv ms auth)) with (Ok (E:=js_error) (prop k (next_route inc up conv ms auth))).
  rewrite E1, E2, E3, E4, E5. cbn [mbind res_bind].
  assert (call_trim (or_else (JStr up) (JStr [])) = Ok up) as ->
    by (destruct up; [done|]; cbn [or_else truthy call_trim]; by rewrite Hu).
  cbn [mbind res_bind].
  assert (normalizeAdvancedCustomRouteModels (if bool_decide (ms = []) then JUndef else JArr (JStr <$> ms)) = Ok ms) as ->
    by (case_bool_decide; [by subst|by apply route_models_stable]).
  cbn [mbind res_bind]. unfold next_route. rewrite !or_else_idemp.
  destruct (truthy auth); cbn [truthy normalizeAdvancedCustomAuth];
    [by rewrite normalize_auth_idemp|done].
Qed.

Lemma normalize_route_stable route n :
  normalizeAdvancedCustomRoute route = Ok n → normalizeAdvancedCustomRoute n = Ok n.
Proof.
  unfold normalizeAdvancedCustomRoute at 1. destruct (get_prop _ route) as [inc|]; [|done]. cbn [mbind res_bind].
  destruct (getAdvancedCustomRouteUpstreamPath route) as [up|] eqn:Eu; [|done]. cbn [mbind res_bind].
  destruct (normalizeAdvancedCustomRouteModels _) as [ms|] eqn:Em; [|done]. cbn [mbind res_bind].
  intros [= <-]. apply next_route_stable; [|by eapply route_models_clean].
  unfold getAdvancedCustomRouteUpstreamPath in Eu. destruct (get_prop _ _) as [p|]; [|done].
  cbn [mbind res_bind] in Eu. destruct (or_else p (JStr [])); try done. injection Eu as <-. apply trim_idemp.
Qed.

Lemma normalize_routes_stable l routes :
  mapM_res normalizeAdvancedCustomRoute l = Ok routes → mapM_res normalizeAdvancedCustomRoute routes = Ok routes.
Proof.
  rewrite !mapM_res_Forall2. induction 1 as [|x y l k Hx _ IH]; [constructor|].
  constructor; [by eapply normalize_route_stable|done].
Qed.

(** The shape of a normalised configuration. *)
Lemma normalize_config_shape c n :
  normalizeAdvancedCustomConfig c = Ok n →
  ∃ routes, n = routes_config routes ∧ mapM_res normalizeAdvancedCustomRoute routes = Ok routes.
Proof.
  unfold normalizeAdvancedCustomConfig. destruct (get_prop _ c) as [v|]; [|done]. cbn [mbind res_bind].
  destruct v; try (intros [= <-]; by exists []).
  destruct (mapM_res _ _) as [routes|] eqn:E; [|done]. cbn [mbind res_bind]. intros [= <-].
  exists routes. split; [done|]. by eapply normalize_routes_stable.
Qed.

Lemma normalize_routes_config routes :
  mapM_res normalizeAdvancedCustomRoute routes = Ok routes →
  normalizeAdvancedCustomConfig (routes_config routes) = Ok (routes_config routes).
Proof.
  intros H. unfold normalizeAdvancedCustomConfig.
  change (get_prop "advanced_routes" (routes_config routes)) with (Ok (E:=js_error) (JArr routes)).
  cbn [mbind res_bind]. by rewrite H.
Qed.

(** ** Through JSON *)
Lemma prop_ok k v : json_ok v = true → k ≠ "length"%string → prop k v = JUndef ∨ json_ok (prop k v) = true.
Proof.
  intros Hv Hk. destruct v as [| | | | |l|ps]; cbn [prop]; try (by left).
  - rewrite decide_False by done. by left.
  - cbn [json_ok] in Hv. apply andb_true_iff in Hv as [Hv _]. apply forallb_Forall in Hv.
    destruct (jget (js k) ps) as [v|] eqn:E; [|by left]. right. apply jget_elem_of in E.
    rewrite Forall_forall in Hv. specialize (Hv _ E). by apply andb_true_iff in Hv as [_ Hv].
Qed.

Lemma or_else_ok a b : a = JUndef ∨ json_ok a = true → json_ok b = true → json_ok (or_else a b) = true.
Proof. unfold or_else. intros [->|Ha] Hb; [done|]. by destruct (truthy a). Qed.

Lemma or_else_defined a s : is_undef (or_else a (JStr s)) = false.
Proof. unfold or_else. by destruct a as [| |[]|[]|[]| |]. Qed.

Lemma route_models_ok v ms :
  v = JUndef ∨ json_ok v = true → normalizeAdvancedCustomRouteModels v = Ok ms → Forall (λ m, units_ok m = true) ms.
Proof.
  intros Hv. destruct v as [| | | | |l|]; cbn; try (by intros [= <-]; constructor).
  destruct Hv as [?|Hv]; [done|]. cbn [json_ok] in Hv. apply forallb_Forall in Hv.
  destruct (mapM_res call_trim l) as [ts|] eqn:E; cbn; [|done]. intros [= <-].
  apply mapM_res_Forall2 in E. apply Forall_forall. intros m [_ Hin]%list_elem_of_filter.
  apply list_elem_of_lookup_1 in Hin as [i Hi]. destruct (Forall2_lookup_r _ _ _ _ _ E Hi) as (x & Hx & Ht).
  rewrite Forall_lookup in Hv. specialize (Hv i x Hx). destruct x; try done. injection Ht as <-.
  by apply units_ok_trim.
Qed.

(** An authentication as it comes back from JSON: without a type that was undefined. *)
Definition clean_auth (auth : jsval) : jsval := json_clean (normalizeAdvancedCustomAuth auth).

Definition auth_fields (t n v : jsval) : jsval :=
  JObj [(js "type", t); (js "name", or_else n (JStr [])); (js "value", or_else v (JStr []))].

Lemma clean_auth_spec auth :
  json_ok auth = true →
  json_ok (clean_auth auth) = true ∧ normalizeAdvancedCustomAuth (clean_auth auth) = normalizeAdvancedCustomAuth auth.
Proof.
  intros Ha. pose proof (prop_ok "type" auth Ha ltac:(done)) as Ht.
  assert (json_ok (or_else (prop "name" auth) (JStr [])) = true) as Hn by (by apply or_else_ok; [apply prop_ok|]).
  assert (json_ok (or_else (prop "value" auth) (JStr [])) = true) as Hv by (by apply or_else_ok; [apply prop_ok|]).
  unfold clean_auth, normalizeAdvancedCustomAuth at 1 3. cbn [json_clean List.flat_map]. rewrite !or_else_defined.
  rewrite (json_clean_ok _ Hn), (json_clean_ok _ Hv). destruct Ht as [Ht|Ht].
  - rewrite Ht. cbn [is_undef app]. split.
    + cbn [json_ok forallb]. rewrite Hn, Hv. by apply members_ok_named; in_list.
    + transitivity (auth_fields JUndef (or_else (prop "name" auth) (JStr [])) (or_else (prop "value" auth) (JStr [])));
        [done|]. unfold auth_fields. by rewrite !or_else_idemp, <- Ht.
  - rewrite (json_clean_ok _ Ht). assert (is_undef (prop "type" auth) = false) as -> by (by destruct (prop "type" auth)).
    cbn [app]. split.
    + cbn [json_ok forallb]. rewrite Ht, Hn, Hv. by apply members_ok_named; in_list.
    + transitivity (auth_fields (prop "type" auth) (or_else (prop "name" auth) (JStr [])) (or_else (prop "value" auth) (JStr [])));
        [done|]. unfold auth_fields. by rewrite !or_else_idemp.
Qed.

(** Normalisation reads five properties. *)
Lemma normalize_by_props ps qs :
  (∀ k, k ∈ ["incoming_path"; "upstream_path"; "converter"; "models"]%string → prop k (JObj ps) = prop k (JObj qs)) →
  truthy (prop "auth" (JObj ps)) = truthy (prop "auth" (JObj qs)) →
  normalizeAdvancedCustomAuth (prop "auth" (JObj ps)) = normalizeAdvancedCustomAuth (prop "auth" (JObj qs)) →
  normalizeAdvancedCustomRoute (JObj ps) = normalizeAdvancedCustomRoute (JObj qs).
Proof.
  intros Hk Ht Ha. unfold normalizeAdvancedCustomRoute, getAdvancedCustomRouteUpstreamPath, next_route, get_prop.
  rewrite Ht, Ha. by rewrite !Hk by in_list.
Qed.

(** A normalised route as it comes back from JSON. *)
Definition clean_route (inc : jsval) (up : jsstring) (conv : jsval) (ms : list jsstring) (auth : jsval) :
    list (jsstring * jsval) :=
  [(js "incoming_path", inc); (js "upstream_path", JStr up); (js "converter", conv)]
  ++ (if bool_decide (ms = []) then [] else [(js "models", JArr (JStr <$> ms))])
  ++ (if truthy auth then [(js "auth", clean_auth auth)] else []).

Lemma json_clean_texts ms : List.map json_clean (JStr <$> ms) = JStr <$> ms.
Proof. induction ms as [|m ms IH]; [done|]. rewrite fmap_cons. cbn [List.map json_clean]. by rewrite IH. Qed.

Lemma json_ok_texts ms : Forall (λ m, units_ok m = true) ms → json_ok (JArr (JStr <$> ms)) = true.
Proof. intros H. cbn [json_ok]. apply forallb_Forall, Forall_fmap. exact H. Qed.

Lemma json_clean_route inc up conv ms auth :
  json_ok (or_else inc (JStr [])) = true → json_ok (or_else conv (JStr (js "none"))) = true →
  json_clean (next_route inc up conv ms auth) =
  JObj (clean_route (or_else inc (JStr [])) up (or_else conv (JStr (js "none"))) ms auth).
Proof.
  intros Hi Hc. unfold next_route, clean_route, clean_auth. cbn [json_clean]. f_equal.
  rewrite !List.flat_map_app. cbn [List.flat_map]. rewrite !or_else_defined, (json_clean_ok _ Hi), (json_clean_ok _ Hc).
  f_equal. f_equal; [|by destruct (truthy auth)]. case_bool_decide; [done|].
  cbn [List.flat_map is_undef json_clean app]. by rewrite json_clean_texts.
Qed.

(** A normalised route, through JSON and normalised again, is the same. *)
Lemma next_route_json inc up conv ms auth :
  json_ok (or_else inc (JStr [])) = true → units_ok up = true → trim up = up →
  json_ok (or_else conv (JStr (js "none"))) = true →
  Forall (λ m, units_ok m = true) ms → Forall clean_rule ms →
  (truthy auth = true → json_ok auth = true) →
  json_ok (json_clean (next_route inc up conv ms auth)) = true ∧
  normalizeAdvancedCustomRoute (json_clean (next_route inc up conv ms auth)) = Ok (next_route inc up conv ms auth).
Proof.
  intros Hi Hu Ht Hc Hms Hcl Ha. rewrite json_clean_route by done. split.
  - assert (members_ok (clean_route (or_else inc (JStr [])) up (or_else conv (JStr (js "none"))) ms auth) = true) as Hm.
    { apply members_ok_named; unfold clean_route; case_bool_decide; destruct (truthy auth); in_list. }
    cbn [json_ok]. rewrite Hm, andb_true_r. unfold clean_route. rewrite !forallb_app. cbn [forallb].
    rewrite Hi, Hc. change (json_ok (JStr up)) with (units_ok up). rewrite Hu. cbn [andb].
    case_bool_decide; [|cbn [forallb]; rewrite json_ok_texts by done]; (destruct (truthy auth); [|done]);
      cbn [forallb]; by rewrite (proj1 (clean_auth_spec auth (Ha eq_refl))).
  - rewrite <- (next_route_stable inc up conv ms auth) by done.
    unfold next_route. apply normalize_by_props; unfold clean_route.
    + intros k Hk. rewrite !elem_of_cons, elem_of_nil in Hk.
      destruct Hk as [->|[->|[->|[->|[]]]]]; case_bool_decide; by destruct (truthy auth).
    + case_bool_decide; by destruct (truthy auth).
    + case_bool_decide; (destruct (truthy auth) eqn:E; [|done]);
        (etransitivity; [exact (proj2 (clean_auth_spec auth (Ha eq_refl)))|]); symmetry; apply normalize_auth_idemp.
Qed.

Lemma normalize_route_json route n :
  json_ok route = true → normalizeAdvancedCustomRoute route = Ok n →
  json_ok (json_clean n) = true ∧ normalizeAdvancedCustomRoute (json_clean n) = Ok n.
Proof.
  intros Hr. pose proof (λ k, prop_ok k route Hr) as Hp. unfold normalizeAdvancedCustomRoute at 1.
  destruct (get_prop "incoming_path" route) as [inc|] eqn:Ei; [|done]. cbn [mbind res_bind].
  apply get_prop_Ok in Ei as ->.
  destruct (getAdvancedCustomRouteUpstreamPath route) as [up|] eqn:Eu; [|done]. cbn [mbind res_bind].
  destruct (normalizeAdvancedCustomRouteModels _) as [ms|] eqn:Em; [|done]. cbn [mbind res_bind].
  intros [= <-].
  assert (units_ok up = true ∧ trim up = up) as [Hu Ht].
  { unfold getAdvancedCustomRouteUpstreamPath in Eu. destruct (get_prop "upstream_path" route) as [p|] eqn:Ep; [|done].
    apply get_prop_Ok in Ep as ->.
    cbn [mbind res_bind] in Eu.
    assert (json_ok (or_else (prop "upstream_path" route) (JStr [])) = true) as Ho by (apply or_else_ok; auto).
    destruct (or_else _ _); try done. injection Eu as <-. split; [by apply units_ok_trim|apply trim_idemp]. }
  apply next_route_json; try done.
  - apply or_else_ok; auto.
  - apply or_else_ok; auto.
  - by apply (route_models_ok (prop "models" route)); [apply Hp|].
  - by eapply route_models_clean.
  - by destruct (Hp "auth"%string ltac:(done)) as [->|?].
Qed.

Lemma normalize_routes_json l routes :
  Forall (λ r, json_ok r = true) l → mapM_res normalizeAdvancedCustomRoute l = Ok routes →
  json_ok (JArr (List.map json_clean routes)) = true ∧
  mapM_res normalizeAdvancedCustomRoute (List.map json_clean routes) = Ok routes.
Proof.
  rewrite !mapM_res_Forall2. intros Hl H. induction H as [|x y l k Hx _ IH]; [by split; [|constructor]|].
  inversion Hl; subst. destruct IH as [Ho Hk]; [done|]. destruct (normalize_route_json x y) as [Hy Hn]; [done|done|].
  split; [|by constructor]. cbn [json_ok List.map forallb] in *. by rewrite Ho, Hy.
Qed.

Lemma normalize_config_json c n :
  json_ok c = true → normalizeAdvancedCustomConfig c = Ok n →
  json_ok (json_clean n) = true ∧ normalizeAdvancedCustomConfig (json_clean n) = Ok n.
Proof.
  intros Hc. pose proof (prop_ok "advanced_routes" c Hc ltac:(done)) as Hp.
  unfold normalizeAdvancedCustomConfig at 1. destruct (get_prop _ c) as [v|] eqn:Ev; [|done]. cbn [mbind res_bind].
  apply get_prop_Ok in Ev as ->.
  destruct (prop "advanced_routes" c) as [| | | | |l|]; try by intros [= <-].
  destruct Hp as [?|Hp]; [done|]. apply forallb_Forall in Hp.
  destruct (mapM_res normalizeAdvancedCustomRoute l) as [routes|] eqn:E; [|done]. cbn [mbind res_bind]. intros [= <-].
  destruct (normalize_routes_json l routes Hp E) as [H1 H2].
  change (json_clean (routes_config routes)) with (routes_config (List.map json_clean routes)). split.
  - unfold routes_config. cbn [json_ok forallb] in *. rewrite H1. cbn. by apply members_ok_named; in_list.
  - unfold normalizeAdvancedCustomConfig.
    change (get_prop _ _) with (Ok (E:=js_error) (JArr (List.map json_clean routes))).
    cbn [mbind res_bind]. by rewrite H2.
Qed.

(** ** The contract of the validator *)

(** What the validator reads of a route. *)
Record RouteView := {
  v_path : jsstring; v_upstream : jsstring; v_converter : jsval; v_models : list jsstring; v_auth : jsval
}.

Definition view_route (route : jsval) : res js_error RouteView :=
  p ← trimmed_or_empty (prop "incoming_path" route);
  u ← getAdvancedCustomRouteUpstreamPath route;
  ms ← normalizeAdvancedCustomRouteModels (prop "models" route);
  Ok {| v_path := p; v_upstream := u; v_converter := or_else (prop "converter" route) (JStr (js "none"));
        v_models := ms; v_auth := prop "auth" route |}.

(** A text with something in it. *)
Definition is_filled (v : jsval) : Prop := ∃ s, v = JStr s ∧ trim s ≠ [].

Definition auth_ok (auth : jsval) : Prop :=
  truthy auth = false ∨ prop "type" auth = JStr (js "none") ∨
  ((prop "type" auth = JStr (js "header") ∨ prop "type" auth = JStr (js "query")) ∧
   is_filled (prop "name" auth) ∧ is_filled (prop "value" auth)).

(** A model rule is a name or a regular expression that is not empty. *)
Definition rule_ok (m : jsstring) : Prop := m ≠ ADVANCED_CUSTOM_MODEL_REGEX_PREFIX.

Record route_ok `{UrlParser} (r : RouteView) : Prop := {
  ok_slash : starts_with (js "/") (v_path r) = true;
  ok_query : includes (js "?") (v_path r) = false;
  ok_model_list : v_path r = ADVANCED_CUSTOM_MODEL_LIST_PATH →
    v_models r = [] ∧ v_converter r = JStr (js "none") ∧ includes (js "{model}") (v_upstream r) = false;
  ok_models : NoDup (v_models r) ∧ Forall rule_ok (v_models r);
  ok_upstream : v_upstream r ≠ [] ∧ isFullHttpURLOrAbsolutePath (v_upstream r) = true;
  ok_converter : isAdvancedCustomConverter (v_converter r) = true ∧
    converter_allowed (v_path r) (v_converter r) = true;
  ok_auth : auth_ok (v_auth r)
}.

(** Two routes of one path, in their order: the first is no catch-all, and no model is in
    both. *)
Definition compatible (r r' : RouteView) : Prop :=
  v_path r = v_path r' → v_models r ≠ [] ∧ ∀ m, m ∈ v_models r → m ∉ v_models r'.

Definition valid_routes `{UrlParser} (rs : list RouteView) : Prop :=
  rs ≠ [] ∧ Forall route_ok rs ∧ StronglySorted compatible rs.

(** ** The validator meets its contract *)
Lemma regex_rule_ok m :
  bool_decide (getAdvancedCustomModelRuleKind m = regex)
  && bool_decide (getAdvancedCustomRegexModelPattern m = []) = false ↔ rule_ok m.
Proof.
  unfold getAdvancedCustomModelRuleKind, getAdvancedCustomRegexModelPattern, rule_ok, starts_with.
  destruct (decide (ADVANCED_CUSTOM_MODEL_REGEX_PREFIX `prefix_of` m)) as [Hp|Hp].
  - rewrite (bool_decide_eq_true_2 (_ `prefix_of` _)) by done. rewrite bool_decide_eq_true_2 by done.
    cbn [andb]. rewrite bool_decide_eq_false. destruct Hp as [k ->]. rewrite drop_app_length.
    split; [intros Hk Hm|intros Hm ->; by rewrite app_nil_r in Hm].
    apply Hk. by destruct k.
  - rewrite (bool_decide_eq_false_2 (_ `prefix_of` _)) by done. rewrite bool_decide_eq_false_2 by done.
    split; [|done]. by intros _ ->.
Qed.

(** Checking the models of a route succeeds exactly for distinct rules that are new for
    the path, and records them. *)
Lemma check_models_spec i seen ms known :
  (∀ known', (check_models i seen ms known = inr known') →
     ∀ m, m ∈ jkeys known' ↔ m ∈ jkeys known ∨ m ∈ ms) ∧
  ((∃ known', (check_models i seen ms known = inr known')) ↔
   NoDup ms ∧ Forall rule_ok ms ∧ (∀ m, m ∈ ms → m ∉ seen ∧ m ∉ jkeys known)).
Proof.
  revert seen known. induction ms as [|m ms IH]; intros seen known; cbn [check_models].
  { split; [intros ? [= <-]; set_solver|]. split; [intros _|by eexists].
    split_and!; [constructor|constructor|set_solver]. }
  destruct (_ && _) eqn:Er.
  { split; [done|]. split; [by intros [? ?]|]. intros (_ & Hr & _). inversion Hr as [|? ? Hm]; subst.
    apply regex_rule_ok in Hm. congruence. }
  apply regex_rule_ok in Er. destruct (set_has m seen) eqn:Es.
  { apply set_has_spec in Es. split; [done|]. split; [by intros [? ?]|]. intros (_ & _ & H). set_solver. }
  apply set_has_false in Es. destruct (jhas m known) eqn:Ek.
  { split; [done|]. split; [by intros [? ?]|]. intros (_ & _ & H).
    apply jhas_spec in Ek. set_solver. }
  apply jhas_false in Ek.
  destruct (IH (set_add m seen) (jset m i known)) as [IH1 IH2]. split.
  - intros known' H m'. rewrite (IH1 _ H), elem_of_jkeys_jset. set_solver.
  - rewrite IH2, NoDup_cons, Forall_cons. setoid_rewrite elem_of_set_add. setoid_rewrite elem_of_jkeys_jset.
    split.
    + intros (Hd & Hr & Hn). split_and!; [|done|done|done|].
      * intros Hm. destruct (Hn m Hm) as [Hne _]. apply Hne. by left.
      * intros m' [->|Hm']%elem_of_cons; [done|]. destruct (Hn m' Hm') as [H1 H2]. split; naive_solver.
    + intros ((Hm & Hd) & (_ & Hr) & Hn). split_and!; [done|done|]. intros m' Hm'.
      assert (m' ≠ m) by (by intros ->). destruct (Hn m') as [H1 H2]; [by apply elem_of_cons; right|].
      split; intros [?|?]; done.
Qed.

Lemma filled_trim v : (∃ s, trimmed_or_empty v = Ok s ∧ s ≠ []) ↔ is_filled v.
Proof.
  unfold is_filled. split.
  - intros (s & [(t & -> & ->)|[_ ->]]%trimmed_or_empty_Ok & Hs); [by exists t|done].
  - intros (t & -> & Ht). exists (trim t). split; [|done]. apply trimmed_or_empty_Ok. left. by exists t.
Qed.

(** The check of an authentication succeeds exactly when it is complete. *)
Lemma validateRouteAuth_spec auth : validateRouteAuth auth = Ok None ↔ auth_ok auth.
Proof.
  unfold validateRouteAuth, auth_ok. rewrite <- !filled_trim. destruct (truthy auth); cbn [negb]; [|naive_solver].
  destruct (is_lit _ "none") eqn:E0. { apply is_lit_spec in E0. naive_solver. }
  assert (prop "type" auth ≠ JStr (js "none")) as Hn by (rewrite <- is_lit_spec; congruence).
  destruct (is_lit _ "header") eqn:E1, (is_lit _ "query") eqn:E2; cbn [negb andb];
    try (apply is_lit_spec in E1); try (apply is_lit_spec in E2).
  4: { split; [done|]. intros [?|[?|[[H|H] _]]]; [done|done|..]; apply is_lit_spec in H; congruence. }
  all: destruct (trimmed_or_empty (prop "name" auth)) as [[|c n]|] eqn:En; cbn; [naive_solver| |naive_solver].
  all: destruct (trimmed_or_empty (prop "value" auth)) as [[|d v]|] eqn:Ev; cbn; naive_solver.
Qed.

Section contract.
Context `{UrlParser}.

(** What the state of the loop says of the routes before. *)
Record reflects (st : LoopState) (seen : list RouteView) : Prop := {
  reflects_catch_all p :
    (jget p (byPath st) ≫= catchAllIndex) = None ↔ ∀ r, r ∈ seen → v_path r = p → v_models r ≠ [];
  reflects_models p m :
    m ∈ jkeys (from_option path_models [] (jget p (byPath st))) ↔
    ∃ r, r ∈ seen ∧ v_path r = p ∧ m ∈ v_models r;
  reflects_model_list :
    modelListRouteIndex st = None ↔ ∀ r, r ∈ seen → v_path r ≠ ADVANCED_CUSTOM_MODEL_LIST_PATH
}.

Lemma reflects_start : reflects {| byPath := []; modelListRouteIndex := None |} [].
Proof. split; [|intros p m|]; cbn; set_solver. Qed.

(** The state of one path. *)
Definition path_state (p : jsstring) (st : LoopState) : PathState :=
  default {| catchAllIndex := None; path_models := [] |} (jget p (byPath st)).

Lemma reflects_path st seen p :
  reflects st seen →
  (catchAllIndex (path_state p st) = None ↔ ∀ r, r ∈ seen → v_path r = p → v_models r ≠ []) ∧
  (∀ m, m ∈ jkeys (path_models (path_state p st)) ↔ ∃ r, r ∈ seen ∧ v_path r = p ∧ m ∈ v_models r).
Proof.
  intros [Hc Hm _]. specialize (Hc p). specialize (Hm p). unfold path_state.
  by destruct (jget p (byPath st)).
Qed.

(** Recording the models of a route succeeds exactly when its rules are distinct and new,
    and there is no catch-all before. *)
Lemma route_models_succeed i p ms st seen :
  reflects st seen →
  ((∃ by', validateAdvancedCustomRouteModels i p ms (byPath st) = inr by') ↔
   NoDup ms ∧ Forall rule_ok ms ∧
   ∀ r, r ∈ seen → v_path r = p → v_models r ≠ [] ∧ ∀ m, m ∈ v_models r → m ∉ ms).
Proof.
  intros Hr. destruct (reflects_path _ _ p Hr) as [Hc Hm]. unfold validateAdvancedCustomRouteModels.
  change (default _ (jget p (byPath st))) with (path_state p st).
  destruct (catchAllIndex (path_state p st)) as [j|].
  - split; [destruct ms; by intros [? ?]|]. intros (_ & _ & Hs).
    enough (Some j = None) by done. apply Hc. intros r Hin Hp. by apply (Hs r Hin Hp).
  - pose proof (proj1 Hc eq_refl) as Hne. destruct ms as [|m ms].
    + split; [intros _|by eexists]. split_and!; [constructor|constructor|].
      intros r Hin Hp. split; [by apply Hne|]. intros; apply not_elem_of_nil.
    + destruct (check_models_spec i [] (m :: ms) (path_models (path_state p st))) as [_ Hs].
      split.
      * intros [by' Hb]. destruct (check_models _ _ _ _) as [e|known]; [done|].
        destruct (proj1 Hs) as (Hd & Hf & Hk); [by eexists|]. split_and!; [done|done|].
        intros r Hin Hp. split; [by apply Hne|]. intros m' Hm' Hms. destruct (Hk m' Hms) as [_ Hn].
        apply Hn, Hm. by exists r.
      * intros (Hd & Hf & Hk). destruct (proj2 Hs) as [known ->]; [|by eexists].
        split_and!; [done|done|]. intros m' Hm'. split; [apply not_elem_of_nil|].
        intros (r & Hin & Hp & Hr')%Hm. by apply (Hk r Hin Hp) in Hr'.
Qed.

Lemma route_models_record i p ms st by' :
  validateAdvancedCustomRouteModels i p ms (byPath st) = inr by' →
  ∃ x, by' = jset p x (byPath st) ∧
    (catchAllIndex x = None ↔ ms ≠ []) ∧ catchAllIndex (path_state p st) = None ∧
    ∀ m, m ∈ jkeys (path_models x) ↔ m ∈ jkeys (path_models (path_state p st)) ∨ m ∈ ms.
Proof.
  unfold validateAdvancedCustomRouteModels. change (default _ (jget p (byPath st))) with (path_state p st).
  destruct ms as [|m ms]; destruct (catchAllIndex (path_state p st)) as [j|]; try done.
  - intros [= <-]. eexists. split_and!; [done|done|done|set_solver].
  - destruct (check_models_spec i [] (m :: ms) (path_models (path_state p st))) as [Hs _].
    destruct (check_models _ _ _ _) as [e|known] eqn:E; [done|]. intros [= <-]. eexists.
    split_and!; [done|done|done|]. by apply Hs.
Qed.

(** Passing a route extends what the state says. *)
Lemma reflects_extend i st seen r by' lst :
  reflects st seen →
  validateAdvancedCustomRouteModels i (v_path r) (v_models r) (byPath st) = inr by' →
  (lst = None ↔ modelListRouteIndex st = None ∧ v_path r ≠ ADVANCED_CUSTOM_MODEL_LIST_PATH) →
  reflects {| byPath := by'; modelListRouteIndex := lst |} (seen ++ [r]).
Proof.
  intros Hr (x & -> & Hx & Hnone & Hm)%route_models_record Hl.
  destruct (reflects_path _ _ (v_path r) Hr) as [Hc Hp]. destruct Hr as [Rc Rm Rl].
  assert (∀ P : RouteView → Prop, (∀ r', r' ∈ seen ++ [r] → P r') ↔ (∀ r', r' ∈ seen → P r') ∧ P r) as Hall.
  { intros P. setoid_rewrite elem_of_app. setoid_rewrite list_elem_of_singleton. naive_solver. }
  split; [intros p|intros p m|]; cbn [byPath modelListRouteIndex].
  - rewrite jget_jset, Hall. case_decide as Hd.
    + subst p. cbn. rewrite Hx, <- Hc, Hnone. naive_solver.
    + rewrite Rc. naive_solver.
  - rewrite jget_jset. setoid_rewrite elem_of_app. setoid_rewrite list_elem_of_singleton. case_decide as Hd.
    + subst p. cbn. rewrite Hm, Hp. naive_solver.
    + rewrite Rm. naive_solver.
  - rewrite Hall, <- Rl. exact Hl.
Qed.

Lemma check_model_list_spec i u c ms seen :
  check_model_list i u c ms seen = None ↔
  seen = None ∧ ms = [] ∧ c = JStr (js "none") ∧ includes (js "{model}") u = false.
Proof.
  unfold check_model_list. destruct seen; [naive_solver|]. case_bool_decide; cbn [negb]; [|naive_solver].
  destruct (is_lit c "none") eqn:E; cbn [negb].
  - apply is_lit_spec in E. destruct (includes _ u); naive_solver.
  - split; [done|]. intros (_ & _ & Hc & _). apply is_lit_spec in Hc. congruence.
Qed.

Lemma check_upstream_spec i p u c a :
  check_upstream i p u c a = Ok None ↔
  (u ≠ [] ∧ isFullHttpURLOrAbsolutePath u = true) ∧
  (isAdvancedCustomConverter c = true ∧ converter_allowed p c = true) ∧ auth_ok a.
Proof.
  rewrite <- validateRouteAuth_spec. unfold check_upstream. case_bool_decide; [naive_solver|].
  destruct (isFullHttpURLOrAbsolutePath u); cbn [negb]; [|naive_solver].
  destruct (isAdvancedCustomConverter c); cbn [negb]; [|naive_solver].
  destruct (converter_allowed p c); cbn [negb]; [|naive_solver].
  destruct (validateRouteAuth a) as [[m|]|]; cbn; naive_solver.
Qed.

(** One turn of the loop passes exactly the routes that are in order and compatible with
    those before. *)
Lemma validate_route_spec i route st seen :
  reflects st seen → Forall route_ok seen →
  (∀ st', validate_route i route st = Ok (inr st') → ∃ r, view_route route = Ok r ∧ reflects st' (seen ++ [r])) ∧
  ((∃ st', validate_route i route st = Ok (inr st')) ↔
   ∃ r, view_route route = Ok r ∧ route_ok r ∧ Forall (λ s, compatible s r) seen).
Proof.
  intros Hr Hseen. unfold validate_route, view_route.
  destruct (trimmed_or_empty _) as [p|]; cbn; [|naive_solver].
  destruct (getAdvancedCustomRouteUpstreamPath route) as [u|]; cbn; [|naive_solver].
  destruct (normalizeAdvancedCustomRouteModels _) as [ms|]; cbn; [|naive_solver].
  set (r := {| v_path := p; v_upstream := u; v_converter := _; v_models := ms; v_auth := prop "auth" route |}).
  change (or_else _ _) with (v_converter r). change (prop "auth" route) with (v_auth r).
  change ms with (v_models r). change u with (v_upstream r). change p with (v_path r). clearbody r. clear p u ms.
  assert (∀ P : RouteView → Prop, (∃ r', Ok (E:=js_error) r = Ok r' ∧ P r') ↔ P r) as Hex by naive_solver.
  rewrite Hex. setoid_rewrite Hex. clear Hex.
  case_bool_decide as Hp.
  { split; [done|]. split; [by intros [? ?]|]. intros [[Hs _ _ _ _ _ _] _]. by rewrite Hp in Hs. }
  destruct (starts_with (js "/") (v_path r)) eqn:Es; cbn [negb].
  2: { split; [done|]. split; [by intros [? ?]|]. intros [[Hs _ _ _ _ _ _] _]. congruence. }
  destruct (includes (js "?") (v_path r)) eqn:Eq.
  { split; [done|]. split; [by intros [? ?]|]. intros [[_ Hs _ _ _ _ _] _]. congruence. }
  set (listed := if bool_decide _ then check_model_list _ _ _ _ _ else None).
  assert (listed = None ↔ (v_path r = ADVANCED_CUSTOM_MODEL_LIST_PATH →
    modelListRouteIndex st = None ∧ v_models r = [] ∧ v_converter r = JStr (js "none") ∧
    includes (js "{model}") (v_upstream r) = false)) as Hlisted.
  { subst listed. case_bool_decide; [|naive_solver]. rewrite check_model_list_spec. naive_solver. }
  (* a route of the model list before would be a catch-all before *)
  assert (Forall (λ s, compatible s r) seen → route_ok r → listed = None) as Hnone.
  { intros Hc Hok. apply Hlisted. intros Hl. split; [|by apply Hok].
    apply Hr. intros s Hs Hsl. rewrite Forall_forall in Hseen, Hc.
    destruct (ok_model_list _ (Hseen s Hs) Hsl) as [Hms _]. by destruct (Hc s Hs ltac:(congruence)). }
  pose proof (route_models_succeed i (v_path r) (v_models r) st seen Hr) as Hm.
  destruct listed as [e|].
  { split; [done|]. split; [by intros [? ?]|]. intros [Hok Hc]. by specialize (Hnone Hc Hok). }
  clear Hnone. destruct (validateAdvancedCustomRouteModels _ _ _ _) as [e|by'] eqn:Eb.
  { split; [done|]. split; [by intros [? ?]|]. intros [Hok Hc]. destruct (proj2 Hm) as [? [=]].
    split_and!; [apply Hok|apply Hok|]. intros s Hs Hsp. rewrite Forall_forall in Hc. by apply Hc. }
  pose proof (check_upstream_spec i (v_path r) (v_upstream r) (v_converter r) (v_auth r)) as Hu.
  destruct (check_upstream _ _ _ _ _) as [[e|]|e]; cbn.
  1,3: split; [done|]; split; [by intros [? ?]|]; intros [Hok _];
    by discriminate (proj2 Hu (conj (ok_upstream _ Hok) (conj (ok_converter _ Hok) (ok_auth _ Hok)))).
  split.
  - intros st' [= <-]. apply (reflects_extend i st); [done|done|]. case_bool_decide; [naive_solver|naive_solver].
  - split; [|by eexists]. intros _. destruct (proj1 Hm) as (Hd & Hf & Hc); [by eexists|].
    destruct (proj1 Hu eq_refl) as (? & ? & ?). split.
    + split; try done. intros Hl. by apply Hlisted.
    + apply Forall_forall. intros s Hs Hsp. by apply Hc.
Qed.

Lemma validate_routes_spec i routes st seen :
  reflects st seen → Forall route_ok seen →
  validate_routes i routes st = Ok None ↔
  ∃ rs, mapM_res view_route routes = Ok rs ∧ Forall route_ok rs ∧
    Forall (λ s, Forall (compatible s) rs) seen ∧ StronglySorted compatible rs.
Proof.
  revert i st seen. induction routes as [|route routes IH]; intros i st seen Hst Hseen;
    cbn [validate_routes mapM_res].
  { split; [|done]. intros _. exists []. split_and!; [done|done| |constructor].
    by apply Forall_forall. }
  destruct (validate_route_spec i route st seen Hst Hseen) as [Hpass Hiff].
  set (accepted := ∃ rs, _).
  assert (accepted → ∃ st', validate_route i route st = Ok (inr st')) as Hacc.
  { intros (rs & Hrs & Hok & Hc & Hs). apply Hiff. destruct (view_route route) as [r|]; [|done].
    destruct (mapM_res view_route routes); [|done]. injection Hrs as <-. inversion Hok; subst.
    exists r. split_and!; [done|done|]. eapply Forall_impl; [exact Hc|]. by intros s Hs'; inversion Hs'. }
  destruct (validate_route i route st) as [[e|st']|e]; cbn [mbind res_bind].
  1,3: split; [done|]; by intros [? [=]]%Hacc.
  clear Hacc. destruct (Hpass st' eq_refl) as (r & Hv & Hst'). destruct (proj1 Hiff) as (r' & Hv' & Hok & Hc);
    [by eexists|]. subst accepted. rewrite Hv in Hv' |- *. injection Hv' as <-.
  rewrite (IH (S i) st' (seen ++ [r])) by (done || (apply Forall_app; split; [done|by apply Forall_singleton])).
  split.
  - intros (rs & -> & Hoks & Hcs & Hs). exists (r :: rs). apply Forall_app in Hcs as [Hcs Hr]. rewrite Forall_singleton in Hr.
    split_and!; [done|by constructor| |by apply SSorted_cons].
    apply Forall_forall. intros s Hin. rewrite Forall_forall in Hc, Hcs. constructor; [by apply Hc|by apply Hcs].
  - intros (rs & Hrs & Hoks & Hcs & Hs). destruct (mapM_res view_route routes) as [rs'|]; [|done].
    injection Hrs as <-. inversion Hs; subst. inversion Hoks; subst. exists rs'. split_and!; [done|done| |done].
    apply Forall_app. split; [|by apply Forall_singleton]. eapply Forall_impl; [exact Hcs|].
    by intros s Hs'; inversion Hs'.
Qed.

Lemma check_models_index i seen ms known e : check_models i seen ms known = inl e → routeIndex e = Some i.
Proof.
  revert seen known. induction ms as [|m ms IH]; intros seen known; cbn [check_models]; [done|].
  repeat case_match; naive_solver.
Qed.

Lemma route_models_index i p ms bp e :
  validateAdvancedCustomRouteModels i p ms bp = inl e → routeIndex e = Some i.
Proof.
  unfold validateAdvancedCustomRouteModels. repeat case_match; intros [= <-]; try done.
  by eapply check_models_index.
Qed.

Lemma check_upstream_index i p u c a e : check_upstream i p u c a = Ok (Some e) → routeIndex e = Some i.
Proof.
  unfold check_upstream. repeat (case_match; [by intros [= <-]|]).
  destruct (validateRouteAuth a) as [[m|]|]; cbn; [by intros [= <-]|done|done].
Qed.

Lemma route_error_index i route st e : validate_route i route st = Ok (inl e) → routeIndex e = Some i.
Proof.
  unfold validate_route. destruct (trimmed_or_empty _) as [p|]; [|done]. cbn.
  destruct (getAdvancedCustomRouteUpstreamPath _) as [u|]; [|done]. cbn.
  destruct (normalizeAdvancedCustomRouteModels _) as [ms|]; [|done]. cbn.
  repeat (case_match; [by intros [= <-]|]).
  destruct (if bool_decide _ then _ else _) as [e'|] eqn:El.
  { intros [= <-]. case_bool_decide; [|done]. unfold check_model_list in El.
    repeat case_match; by simplify_eq. }
  destruct (validateAdvancedCustomRouteModels _ _ _ _) as [e'|] eqn:Em.
  { intros [= <-]. by eapply route_models_index. }
  destruct (check_upstream _ _ _ _ _) as [[e'|]|] eqn:Eu; cbn; [|done|done].
  intros [= <-]. by eapply check_upstream_index.
Qed.

(** The errors of the loop name the first route at fault. *)
Lemma validate_routes_error i routes st e :
  validate_routes i routes st = Ok (Some e) →
  ∃ k, routeIndex e = Some (i + k) ∧ k < length routes ∧
    validate_routes i (take k routes) st = Ok None ∧
    validate_routes i (take (S k) routes) st = Ok (Some e).
Proof.
  revert i st. induction routes as [|route routes IH]; intros i st; [done|]. cbn [validate_routes].
  destruct (validate_route i route st) as [[e'|st']|] eqn:E; cbn [mbind res_bind]; [| |done].
  - intros [= <-]. exists 0. rewrite Nat.add_0_r. cbn [take validate_routes]. rewrite E.
    split_and!; [|cbn; lia|done|done]. by eapply route_error_index.
  - intros (k & Hi & Hk & H1 & H2)%IH. exists (S k). rewrite Nat.add_succ_r.
    cbn [length take validate_routes] in *. rewrite E. cbn [mbind res_bind]. split_and!; [done|lia|done|done].
Qed.
End contract.

(** ** Theorems *)
Section theorems.
Context `{UrlParser}.

Lemma validate_exact_iff c :
  validateAdvancedCustomConfig (Some c) = Ok None ↔
  ∃ n rs, normalizeAdvancedCustomConfig c = Ok n ∧ mapM_res view_route (config_routes n) = Ok rs ∧
    valid_routes rs.
Proof.
  unfold validateAdvancedCustomConfig. destruct (normalizeAdvancedCustomConfig c) as [n|] eqn:En; cbn [mbind res_bind].
  2: { split; [done|]. by intros (? & ? & ? & _). }
  destruct (config_routes n) as [|route routes] eqn:Er.
  { split; [done|]. intros (n' & rs & [= <-] & Hrs & Hne & _). rewrite Er in Hrs. by injection Hrs as <-. }
  rewrite (validate_routes_spec _ _ _ [] reflects_start (List.Forall_nil _)).
  split.
  - intros (rs & Hrs & Hok & _ & Hs). exists n, rs. rewrite Er. split_and!; [done|done|].
    split_and!; [|done|done]. intros ->. cbn [mapM_res] in Hrs. destruct (view_route route); [|done].
    by destruct (mapM_res view_route routes).
  - intros (n' & rs & [= <-] & Hrs & Hne & Hok & Hs). rewrite Er in Hrs. exists rs. by split_and!.
Qed.

(** C7: the validator accepts exactly the configurations that meet the contract: at least
    one route, every route in order by itself, and of two routes of one path the first has
    model rules and shares none with the second. *)
Theorem validate_exact c :
  validateAdvancedCustomConfig (Some c) = Ok None ↔
  ∃ n rs, normalizeAdvancedCustomConfig c = Ok n ∧ mapM_res view_route (config_routes n) = Ok rs ∧
    valid_routes rs.
Proof. apply validate_exact_iff. Qed.

(** An error of the validator that names a route names the first at fault: the routes
    before it alone are accepted, and with it the same error is reported. *)
Theorem validate_first_error c e i :
  validateAdvancedCustomConfig (Some c) = Ok (Some e) → routeIndex e = Some i →
  ∃ routes, normalizeAdvancedCustomConfig c = Ok (routes_config routes) ∧ i < length routes ∧
    (i ≠ 0 → validateAdvancedCustomConfig (Some (routes_config (take i routes))) = Ok None) ∧
    validateAdvancedCustomConfig (Some (routes_config (take (S i) routes))) = Ok (Some e).
Proof.
  intros Hv Hi. unfold validateAdvancedCustomConfig in Hv.
  destruct (normalizeAdvancedCustomConfig c) as [n|] eqn:En; [|done]. cbn [mbind res_bind] in Hv.
  destruct (normalize_config_shape _ _ En) as (routes & -> & Hst). exists routes. split; [done|].
  assert (∀ k, mapM_res normalizeAdvancedCustomRoute (take k routes) = Ok (take k routes)) as Htake.
  { intros k. rewrite mapM_res_Forall2 in *. by apply Forall2_take. }
  change (config_routes (routes_config routes)) with routes in Hv.
  destruct routes as [|r routes]; [by injection Hv as <-|].
  apply validate_routes_error in Hv as (k & Hk & Hlen & H1 & H2). rewrite Hi in Hk. injection Hk as ->.
  split; [done|]. unfold validateAdvancedCustomConfig. rewrite !normalize_routes_config by done.
  cbn [mbind res_bind]. split.
  - intros Hne. destruct k as [|k]; [done|]. exact H1.
  - exact H2.
Qed.
End theorems.

Lemma roundtrip_text c n :
  json_ok c = true → normalizeAdvancedCustomConfig c = Ok n →
  ∃ text, stringifyAdvancedCustomConfig c = Ok text ∧ parseAdvancedCustomConfig (Some text) = Some n.
Proof.
  intros Hc Hn. destruct (normalize_config_json c n Hc Hn) as [Hj Hs].
  destruct (normalize_config_shape c n Hn) as (routes & -> & Hst).
  unfold stringifyAdvancedCustomConfig. rewrite Hn. cbn [mbind res_bind].
  eexists. split; [done|]. unfold parseAdvancedCustomConfig.
  assert (trim (JSON_stringify 2 (routes_config routes)) ≠ []) as Htrim by by apply trim_not_nil.
  rewrite bool_decide_eq_false_2 by done. rewrite JSON_parse_stringify_clean by done.
  change (json_clean (routes_config routes)) with (routes_config (List.map json_clean routes)) in *.
  change (recover (c ← normalizeAdvancedCustomConfig (routes_config (List.map json_clean routes)); Ok (Some c)) None
          = Some (routes_config routes)). by rewrite Hs.
Qed.

(** The text the editor shows for a configuration reads back as the normalised
    configuration, whatever the configuration read from JSON holds; normalising it again
    changes nothing. *)
Theorem config_text_roundtrip c n :
  json_ok c = true → normalizeAdvancedCustomConfig c = Ok n →
  (∃ text, stringifyAdvancedCustomConfig c = Ok text ∧ parseAdvancedCustomConfig (Some text) = Some n) ∧
  normalizeAdvancedCustomConfig n = Ok n.
Proof.
  intros Hc Hn. split; [by apply roundtrip_text|].
  destruct (normalize_config_shape c n Hn) as (routes & -> & Hst). by apply normalize_routes_config.
Qed.

(** Every template, cloned, is the template, and validates; so does the route a new
    configuration starts with; an unknown key gives the first template. *)
Theorem templates_valid `{UrlParser} :
  Forall (λ o, cloneAdvancedCustomConfig (to_config o) = Ok (to_config o) ∧
               getAdvancedCustomTemplateConfig (to_value o) = Ok (to_config o) ∧
               validateAdvancedCustomConfig (Some (to_config o)) = Ok None) ADVANCED_CUSTOM_TEMPLATE_OPTIONS ∧
  validateAdvancedCustomConfig (Some createAdvancedCustomConfig) = Ok None ∧
  (∀ k, k ∉ to_value <$> ADVANCED_CUSTOM_TEMPLATE_OPTIONS →
     getAdvancedCustomTemplateConfig k = getAdvancedCustomTemplateConfig (js "official_openai_chat")).
Proof.
  split_and!.
  - repeat (constructor; [split_and!; vm_compute; reflexivity|]). constructor.
  - vm_compute. reflexivity.
  - intros k Hk. unfold getAdvancedCustomTemplateConfig at 1.
    destruct (List.find _ _) as [o|] eqn:E; [|vm_compute; reflexivity].
    apply List.find_some in E as [Ho Hb]. apply bool_decide_eq_true in Hb. exfalso. apply Hk. subst k.
    by apply list_elem_of_fmap_2, list_elem_of_In.
Qed.

(** The route the editor makes of the defaults of a converter at a path. *)
Definition default_route (converter path : jsstring) : jsval :=
  let '(upstream, auth) := getAdvancedCustomConverterDefaults converter path in
  JObj [(js "incoming_path", JStr path); (js "upstream_path", JStr upstream);
        (js "converter", JStr converter); (js "auth", auth)].

(** The menus fit the validator: for every converter there is a path, the default path
    is one of them, the path offers the converter back, and the route with the defaults of
    the converter at the path validates. *)
Theorem defaults_valid `{UrlParser} :
  Forall (λ o,
    getDefaultAdvancedCustomIncomingPath (co_value o) ∈ (getAdvancedCustomIncomingPathOptions (co_value o)).*1 ∧
    Forall (λ p,
      co_value o ∈ co_value <$> getAdvancedCustomConverterOptions p.1 ∧
      validateAdvancedCustomConfig (Some (routes_config [default_route (co_value o) p.1])) = Ok None)
      (getAdvancedCustomIncomingPathOptions (co_value o))) ADVANCED_CUSTOM_CONVERTER_OPTIONS.
Proof.
  repeat (constructor; [split; [in_list|]|]); try constructor.
  all: match goal with |- Forall _ ?l => let l' := eval vm_compute in l in change l with l' end.
  all: repeat (constructor; [split; [in_list|vm_compute; reflexivity]|]); constructor.
Qed.

Section more_theorems.
Context `{UrlParser}.

Lemma some_route_true (p : jsval → res js_error bool) routes :
  some_route p routes = Ok true → ∃ r, r ∈ routes ∧ p r = Ok true.
Proof.
  induction routes as [|r routes IH]; cbn [some_route]; [done|].
  destruct (p r) as [[]|] eqn:E; cbn [mbind res_bind]; [|intros (r' & ? & ?)%IH; exists r'; set_solver|done].
  intros _. exists r. set_solver.
Qed.

(** A configuration with a valid route of the model list has exactly one: it forwards
    natively, without model rules, to an upstream path without a model in it. *)
Theorem model_list_route_unique c :
  hasValidAdvancedCustomModelListRoute (Some c) = Ok true →
  ∃ n before r after,
    normalizeAdvancedCustomConfig c = Ok n ∧
    mapM_res view_route (config_routes n) = Ok (before ++ r :: after) ∧
    v_path r = ADVANCED_CUSTOM_MODEL_LIST_PATH ∧ v_models r = [] ∧ v_converter r = JStr (js "none") ∧
    includes (js "{model}") (v_upstream r) = false ∧
    Forall (λ r', v_path r' ≠ ADVANCED_CUSTOM_MODEL_LIST_PATH) (before ++ after).
Proof.
  unfold hasValidAdvancedCustomModelListRoute.
  destruct (validateAdvancedCustomConfig (Some c)) as [[e|]|] eqn:Ev; cbn [mbind res_bind]; [done| |done].
  apply validate_exact_iff in Ev as (n & rs & Hn & Hrs & _ & Hok & Hs). rewrite Hn. cbn [mbind res_bind].
  intros (route & Hin & Hp)%some_route_true. apply list_elem_of_lookup_1 in Hin as [i Hi].
  rewrite mapM_res_Forall2 in Hrs. destruct (Forall2_lookup_l _ _ _ _ _ Hrs Hi) as (r & Hr & Hv).
  assert (v_path r = ADVANCED_CUSTOM_MODEL_LIST_PATH) as Hpath.
  { unfold view_route, trimmed_or_empty in Hv. destruct (opt_trim _) as [t|]; [|done]. cbn [mbind res_bind] in *.
    injection Hp as Hp. apply is_lit_spec in Hp as ->. destruct (getAdvancedCustomRouteUpstreamPath _); [|done].
    cbn [mbind res_bind] in Hv. destruct (normalizeAdvancedCustomRouteModels _); [|done]. by injection Hv as <-. }
  apply list_elem_of_split_length in Hr as (before & after & -> & _). exists n, before, r, after.
  apply Forall_app in Hok as [Hb Hra]. inversion Hra as [|? ? Hr Ha]; subst.
  destruct (ok_model_list _ Hr Hpath) as (Hm & Hc & Hu). split_and!; [done|by apply mapM_res_Forall2|done|done|done|done|].
  apply StronglySorted_app in Hs as (Hba & _ & Hs). inversion Hs as [|? ? _ Hafter]; subst.
  apply Forall_app. split; apply Forall_forall; intros r' Hr' Hp'.
  - rewrite Forall_forall in Hb. destruct (ok_model_list _ (Hb r' Hr') Hp') as [Hm' _].
    destruct (Hba r' r Hr' ltac:(set_solver)) as [? _]; [congruence|done].
  - rewrite Forall_forall in Hafter. destruct (Hafter r' Hr') as [? _]; [congruence|done].
Qed.
End more_theorems.

(** A configuration with one route whose incoming path is a given value. *)
Definition path_config (v : jsval) : jsval :=
  routes_config [JObj [(js "incoming_path", v); (js "upstream_path", JStr (js "/v1/models"))]].

Lemma path_config_throws `{UrlParser} v :
  json_ok v = true → truthy v = true → is_string v = false →
  ∃ c, parseAdvancedCustomConfig (Some (JSON_stringify 0 (path_config v))) = Some c ∧
       validateAdvancedCustomConfig (Some c) = Throw TypeError.
Proof.
  intros Hok Ht Hs. set (n := next_route v (js "/v1/models") JUndef [] JUndef).
  exists (routes_config [n]).
  assert (json_ok (path_config v) = true) as Hj.
  { unfold path_config, routes_config. cbn [json_ok forallb]. rewrite Hok. cbn [andb].
    rewrite !members_ok_named by in_list. done. }
  assert (normalizeAdvancedCustomConfig (routes_config [n]) = Ok (routes_config [n])) as Hn.
  { apply normalize_routes_config. cbn [mapM_res]. subst n. by rewrite next_route_stable. }
  split.
  - unfold parseAdvancedCustomConfig. rewrite bool_decide_eq_false_2 by by apply trim_not_nil.
    rewrite JSON_parse_stringify by done. done.
  - unfold validateAdvancedCustomConfig. rewrite Hn. cbn [mbind res_bind].
    change (config_routes (routes_config [n])) with [n]. cbn [validate_routes]. unfold validate_route.
    subst n. destruct (next_route_props v (js "/v1/models") JUndef [] JUndef) as [-> _]. unfold or_else. rewrite Ht.
    by destruct v.
Qed.

(** An incoming path that is set but no text (a number, true, an array, an object) gets
    past the parser, which only checks that the whole is an object, and makes the validator
    throw a TypeError instead of reporting the route. *)
Theorem path_type_error `{UrlParser} v :
  json_ok v = true → truthy v = true → is_string v = false →
  ∃ c, parseAdvancedCustomConfig (Some (JSON_stringify 0 (path_config v))) = Some c ∧
       validateAdvancedCustomConfig (Some c) = Throw TypeError.
Proof. apply path_config_throws. Qed.

(** ** Witnesses *)
Section witnesses.
#[local] Instance no_url : UrlParser := λ _, None.

(** The second route of this configuration repeats a catch-all. *)
Definition twice : jsval :=
  routes_config [native_route "/v1/responses" bearerHeaderAuth; native_route "/v1/responses" bearerHeaderAuth].

Lemma validate_first_error_witness :
  ∃ routes, normalizeAdvancedCustomConfig twice = Ok (routes_config routes) ∧ 1 < length routes ∧
    (1 ≠ 0 → validateAdvancedCustomConfig (Some (routes_config (take 1 routes))) = Ok None) ∧
    validateAdvancedCustomConfig (Some (routes_config (take 2 routes))) =
      Ok (Some (at_route 1 "Only one catch-all route is allowed for the same incoming path")).
Proof. apply (validate_first_error twice _ 1); vm_compute; reflexivity. Defined.

Lemma config_text_roundtrip_witness :
  normalizeAdvancedCustomConfig twice = Ok twice.
Proof. apply (config_text_roundtrip twice twice); vm_compute; reflexivity. Defined.

Lemma model_list_route_unique_witness :
  ∃ n before r after,
    normalizeAdvancedCustomConfig (routes_config [native_route "/v1/models" bearerHeaderAuth]) = Ok n ∧
    mapM_res view_route (config_routes n) = Ok (before ++ r :: after) ∧
    v_path r = ADVANCED_CUSTOM_MODEL_LIST_PATH ∧ v_models r = [] ∧ v_converter r = JStr (js "none") ∧
    includes (js "{model}") (v_upstream r) = false ∧
    Forall (λ r', v_path r' ≠ ADVANCED_CUSTOM_MODEL_LIST_PATH) (before ++ after).
Proof. apply model_list_route_unique. vm_compute. reflexivity. Defined.

Lemma path_type_error_witness :
  ∃ c, parseAdvancedCustomConfig (Some (JSON_stringify 0 (path_config (JBool true)))) = Some c ∧
       validateAdvancedCustomConfig (Some c) = Throw TypeError.
Proof. by apply path_type_error. Defined.
End witnesses.
