(* ===== verification/Channels.v ===== *)
(** Channels: the data of web/src/features/channels/types.ts and the tables of
    constants.ts that the form and the helpers read. *)
From S2P Require Import Prelude JsString JsValue.
Local Open Scope Z_scope.

Record ChannelInfo := {
  is_multi_key : bool; multi_key_size : jsnum; multi_key_status_list : option (list (jsstring * jsnum));
  multi_key_mode : jsstring
}.

(** A channel; [None] is null or undefined. *)
Record Channel := {
  c_id : jsval; c_type : Z; c_key : jsstring; c_openai_organization : option jsstring;
  c_test_model : option jsstring; c_status : jsval; c_name : jsstring; c_weight : option jsnum;
  c_created_time : jsnum; c_test_time : jsnum; c_response_time : jsnum; c_base_url : option jsstring;
  c_other : jsstring; c_balance : jsnum; c_balance_updated_time : jsnum; c_models : jsstring; c_group : jsstring;
  c_used_quota : jsnum; c_model_mapping : option jsstring; c_status_code_mapping : option jsstring;
  c_priority : option jsnum; c_auto_ban : option jsnum; c_other_info : jsstring; c_tag : option jsstring;
  c_setting : option jsstring; c_param_override : option jsstring; c_header_override : option jsstring;
  c_remark : jsstring; c_max_input_tokens : jsnum; c_channel_info : ChannelInfo; c_settings : jsstring
}.

(** ** constants.ts *)
Definition CHANNEL_TYPES : list (Z * jsstring) := [
  (0, js "Unknown"); (1, js "OpenAI"); (2, js "MjProxy"); (3, js "Azure"); (4, js "Ollama"); (5, js "MjProxyPlus");
  (7, js "OhMyGPT"); (8, js "Custom"); (14, js "Anthropic"); (15, js "Baidu"); (16, js "Zhipu"); (17, js "Ali");
  (18, js "Xunfei"); (19, js "360"); (20, js "OpenRouter"); (22, js "FastGPT"); (23, js "Tencent");
  (24, js "Gemini"); (25, js "Moonshot"); (26, js "Zhipu V4"); (27, js "Perplexity"); (31, js "LingYiWanWu");
  (33, js "AWS"); (34, js "Cohere"); (35, js "MiniMax"); (36, js "SunoAPI"); (37, js "Dify"); (38, js "Jina");
  (39, js "Cloudflare"); (40, js "SiliconFlow"); (41, js "Vertex AI"); (42, js "Mistral"); (43, js "DeepSeek");
  (44, js "MokaAI"); (45, js "VolcEngine"); (46, js "Baidu V2"); (47, js "Xinference"); (48, js "xAI");
  (49, js "Coze"); (50, js "Kling"); (51, js "Jimeng"); (52, js "Vidu"); (53, js "Submodel");
  (54, js "DoubaoVideo"); (55, js "Sora"); (56, js "Replicate"); (57, js "ChatGPT Subscription (Codex)");
  (58, js "Advanced Custom"); (59, js "AICC Seedance"); (60, js "VolcEngine Agent Plan") ].

Definition CHANNEL_TYPE_DISPLAY_ORDER : list Z := [
  1; 14; 33; 24; 43; 3; 41; 48; 58; 42; 34; 20; 4; 40; 27; 25; 17; 26; 15; 46;
  23; 18; 45; 60; 31; 35; 49; 19; 47; 37; 38; 39; 11; 8; 57; 22; 21; 44; 2; 5;
  36; 50; 51; 52; 53; 54; 59; 55; 56 ].

(** The first loop: types in display order that have a label, and the set of those seen. *)
Definition ordered_types : list (Z * jsstring) :=
  omap (λ id, label ← jget id CHANNEL_TYPES; Some (id, label)) CHANNEL_TYPE_DISPLAY_ORDER.

(** The second loop appends the types that are not in the display order; the entries of
    the table come in increasing order. *)
Definition CHANNEL_TYPE_OPTIONS : list (Z * jsstring) :=
  ordered_types ++
  filter (λ e, e.1 ≠ 0 ∧ set_has e.1 (set_of ordered_types.*1) = false) CHANNEL_TYPES.

Definition CHANNEL_STATUS_UNKNOWN : Z := 0.
Definition CHANNEL_STATUS_ENABLED : Z := 1.
Definition CHANNEL_STATUS_MANUAL_DISABLED : Z := 2.
Definition CHANNEL_STATUS_AUTO_DISABLED : Z := 3.

(** Variant and label. *)
Definition CHANNEL_STATUS_CONFIG : list (Z * (jsstring * jsstring)) := [
  (CHANNEL_STATUS_UNKNOWN, (js "neutral", js "Unknown"));
  (CHANNEL_STATUS_ENABLED, (js "success", js "Enabled"));
  (CHANNEL_STATUS_MANUAL_DISABLED, (js "danger", js "Disabled"));
  (CHANNEL_STATUS_AUTO_DISABLED, (js "warning", js "Auto Disabled")) ].

Definition MULTI_KEY_STATUS_CONFIG : list (Z * (jsstring * jsstring)) := [
  (1, (js "success", js "Enabled")); (2, (js "neutral", js "Manual Disabled"));
  (3, (js "danger", js "Auto Disabled")) ].

Definition RESPONSE_TIME_EXCELLENT : Z := 500.
Definition RESPONSE_TIME_GOOD : Z := 1000.
Definition RESPONSE_TIME_FAIR : Z := 2000.
Definition RESPONSE_TIME_POOR : Z := 5000.

Inductive ResponseTimeRating := Excellent | Good | Fair | Poor | UnknownTime.

Definition RESPONSE_TIME_CONFIG (r : ResponseTimeRating) : jsstring * jsstring :=
  match r with
  | Excellent => (js "success", js "Excellent")
  | Good => (js "success", js "Good")
  | Fair => (js "warning", js "Fair")
  | Poor => (js "danger", js "Poor")
  | UnknownTime => (js "neutral", js "Not tested")
  end.

Definition MODEL_FETCHABLE_TYPES : list Z :=
  [1; 4; 14; 17; 20; 23; 24; 25; 26; 27; 31; 34; 35; 40; 42; 43; 47; 48; 57; 58].

Definition CHANNEL_TYPE_VOLCENGINE_AGENT_PLAN : Z := 60.

Definition TYPE_TO_KEY_PROMPT : list (Z * jsstring) := [
  (15, js "Format: APIKey|SecretKey");
  (18, js "Format: APPID|APISecret|APIKey");
  (22, js "Format: APIKey-AppId, e.g., fastgpt-0sp2gtvfdgyi4k30jwlgwf1i-64f335d84283f05518e9e041");
  (23, js "Format: AppId|SecretId|SecretKey");
  (33, js "Format: Ak|Sk|Region");
  (50, js "Format: AccessKey|SecretKey (or just ApiKey if upstream is The One)");
  (51, js "Format: Access Key ID|Secret Access Key");
  (57, js "Paste Codex OAuth JSON credential (access_token / refresh_token / account_id)");
  (60, js "Enter Agent Plan API Key") ].

(** The menu of channel types lists every type but the unknown one, once each. *)
Lemma type_options_complete :
  CHANNEL_TYPE_OPTIONS ≡ₚ filter (λ e, e.1 ≠ 0) CHANNEL_TYPES ∧ NoDup CHANNEL_TYPE_OPTIONS.*1.
Proof.
  split; [|apply (proj1 (bool_decide_eq_true _)); vm_compute; reflexivity].
  apply (proj1 (bool_decide_eq_true _)). vm_compute. reflexivity.
Qed.
