(* ===== verification/ChannelForm.v ===== *)
(** The channel form (web/src/features/channels/lib/channel-form.ts): field checks, the
    cross-field rules of the schema, the defaults of the form of an existing channel, and
    the payloads that create and update a channel.

    The form keeps two JSON texts of a channel: [setting] (six extra settings) and
    [settings] (settings that depend on the channel type, and settings of other programs,
    which are kept).  A field that is read out of JSON may hold any value ([jsval]); the
    other fields have their declared types, [None] for undefined. *)
From S2P Require Import Prelude JsString JsValue Json JsPrint JsNumber JsonPrint JsDynamic AdvancedCustom Channels.
Local Open Scope Z_scope.

Record ChannelFormValues := {
  f_name : jsstring; f_type : Z; f_base_url : option jsstring; f_key : jsstring;
  f_openai_organization : option jsstring; f_models : jsstring; f_group : list jsstring;
  f_model_mapping : option jsstring; f_priority : option jsnum; f_weight : option jsnum;
  f_test_model : option jsstring; f_auto_ban : option jsnum; f_status : jsval;
  f_status_code_mapping : option jsstring; f_tag : option jsstring; f_remark : option jsstring;
  f_setting : option jsstring; f_param_override : option jsstring; f_header_override : option jsstring;
  f_settings : option jsstring; f_advanced_custom : option jsstring; f_other : option jsstring;
  f_agent_plan_access_key : option jsstring; f_agent_plan_secret_key : option jsstring;
  f_multi_key_mode : option jsstring; f_multi_key_type : option jsstring;
  f_batch_add_set_key_prefix_2_name : option bool; f_key_mode : option jsstring;
  f_force_format : jsval; f_thinking_to_content : jsval; f_proxy : jsval;
  f_pass_through_body_enabled : jsval; f_system_prompt : jsval; f_system_prompt_override : jsval;
  f_is_enterprise_account : option bool; f_vertex_key_type : jsval; f_vertex_project_id : jsval;
  f_aws_key_type : jsval; f_azure_responses_version : jsval;
  f_allow_service_tier : option bool; f_disable_store : option bool; f_allow_safety_identifier : option bool;
  f_allow_include_obfuscation : option bool; f_allow_inference_geo : option bool; f_allow_speed : option bool;
  f_claude_beta_query : option bool; f_disable_task_polling_sleep : option bool;
  f_upstream_model_update_check_enabled : option bool; f_upstream_model_update_auto_sync_enabled : option bool;
  f_upstream_model_update_ignored_models : option jsstring; f_agent_plan_usage_enabled : option bool
}.

(** ** Checks of single fields *)
Definition SUPPORTED_PROXY_PROTOCOLS : list jsstring := [js "http:"; js "https:"; js "socks5:"; js "socks5h:"].

(** [value?.trim()] of a text that may be undefined. *)
Definition filled (value : option jsstring) : bool := negb (bool_decide (trim (default [] value) = [])).

(** The rest of the text from the first of the units [/], [?] and [#]. *)
Fixpoint url_suffix (s : jsstring) : option jsstring :=
  match s with
  | [] => None
  | c :: t => if bool_decide (c ∈ [47; 63; 35]%N) then Some s else url_suffix t
  end.

Definition isOptionalProxyURL `{UrlParser} (value : option jsstring) : bool :=
  let trimmedValue := trim (default [] value) in
  if bool_decide (trimmedValue = []) then true
  else
    match index_of (js "://") trimmedValue with
    | None | Some O => false
    | Some schemeSeparatorIndex =>
        let authorityAndSuffix := drop (schemeSeparatorIndex + 3) trimmedValue in
        if bool_decide (default (js "/") (url_suffix authorityAndSuffix) ≠ js "/") then false
        else
          match new_URL trimmedValue with
          | Some parsedURL =>
              set_has (u_protocol parsedURL) SUPPORTED_PROXY_PROTOCOLS
              && negb (bool_decide (u_hostname parsedURL = []))
              && negb (bool_decide (u_port parsedURL = js "0"))
          | None => false
          end
    end.

Definition parseOptionalJson (value : option jsstring) : res js_error jsval :=
  match value with
  | Some text => if bool_decide (trim text = []) then Ok JUndef
                 else match JSON_parse text with Some v => Ok v | None => Throw SyntaxError end
  | None => Ok JUndef
  end.

Definition isJsonObjectValue (value : jsval) : bool := is_plain_object value.

Definition isOptionalJsonObject (value : option jsstring) : bool :=
  recover (parsed ← parseOptionalJson value; Ok (is_undef parsed || isJsonObjectValue parsed)) false.

Definition isOptionalModelMapping (value : option jsstring) : bool :=
  recover (parsed ← parseOptionalJson value;
    Ok (match parsed with
        | JUndef => true
        | JObj ps => forallb is_string (jvalues ps)
        | _ => false
        end)) false.

Definition is_status_code (x : jsnum) : bool :=
  is_integer x && num_leb (num_of_Z 100) x && num_leb x (num_of_Z 599).

Definition isOptionalStatusCodeMapping (value : option jsstring) : bool :=
  recover (parsed ← parseOptionalJson value;
    Ok (match parsed with
        | JUndef => true
        | JObj ps => forallb (λ e, is_status_code (string_to_number e.1) && is_status_code (to_number e.2)) ps
        | _ => false
        end)) false.

Definition nonblank_text (v : jsval) : bool :=
  match v with JStr s => negb (bool_decide (trim s = [])) | _ => false end.

Definition isCodexCredential (value : option jsstring) : bool :=
  recover (parsed ← parseOptionalJson value;
    Ok (is_undef parsed ||
        isJsonObjectValue parsed && nonblank_text (prop "access_token" parsed)
        && nonblank_text (prop "account_id" parsed))) false.

Definition isVertexJsonKey (value : option jsstring) : bool :=
  recover (parsed ← parseOptionalJson value;
    Ok (match parsed with
        | JUndef => true
        | JArr l => forallb isJsonObjectValue l
        | _ => isJsonObjectValue parsed
        end)) false.

(** ** The rules across fields: the issues the [superRefine] callback adds, in order *)
Definition issue : Type := jsstring * jsstring.

Definition addRequiredIssue (path message : string) : list issue := [(js path, js message)].

Definition when_issue (b : bool) (path message : string) : list issue :=
  if b then addRequiredIssue path message else [].

Definition multi_key_on (data : ChannelFormValues) : bool :=
  match f_multi_key_mode data with
  | Some ((_ :: _) as m) => negb (bool_decide (m = js "single"))
  | _ => false
  end.

Section schema.
Context `{UrlParser}.

Definition advanced_issues (data : ChannelFormValues) : res js_error (list issue) :=
  let advancedCustomConfig := parseAdvancedCustomConfig (f_advanced_custom data) in
  advancedCustomError ← validateAdvancedCustomConfig advancedCustomConfig;
  relative ← advancedCustomConfigUsesRelativeUpstreamPath advancedCustomConfig;
  listed ← (if bool_decide (f_upstream_model_update_check_enabled data = Some true)
            then hasValidAdvancedCustomModelListRoute advancedCustomConfig else Ok true);
  Ok ((match advancedCustomError with Some e => [(js "advanced_custom", message e)] | None => [] end)
      ++ when_issue (relative && negb (filled (f_base_url data))) "base_url"
           "Base URL is required when an advanced route uses an upstream path"
      ++ when_issue (negb listed) "upstream_model_update_check_enabled"
           "OpenAI Models route is required to enable upstream model checks").

Definition codex_issues (data : ChannelFormValues) : list issue :=
  when_issue (multi_key_on data) "multi_key_mode" "Codex channels do not support batch creation"
  ++ when_issue (filled (Some (f_key data)) && negb (isCodexCredential (Some (f_key data)))) "key"
       "Codex credential must be a JSON object with access_token and account_id".

Definition vertex_issues (data : ChannelFormValues) : res js_error (list issue) :=
  projectID ← (if is_lit (f_vertex_key_type data) "api_key" then trimmed_or_empty (f_vertex_project_id data)
               else Ok (js "-"));
  Ok (when_issue (is_lit (f_vertex_key_type data) "json" && filled (Some (f_key data))
                  && negb (isVertexJsonKey (Some (f_key data)))) "key"
        "Vertex AI service account key must be valid JSON"
      ++ when_issue (is_lit (f_vertex_key_type data) "api_key" && multi_key_on data) "multi_key_mode"
           "Vertex AI API Key mode does not support batch creation"
      ++ when_issue (is_lit (f_vertex_key_type data) "api_key" && bool_decide (projectID = [])) "vertex_project_id"
           "GCP Project ID is required for Vertex AI API Key mode").

Definition channelFormIssues (data : ChannelFormValues) : res js_error (list issue) :=
  advanced ← (if f_type data =? CHANNEL_TYPE_ADVANCED_CUSTOM then advanced_issues data else Ok []);
  vertex ← (if f_type data =? 41 then vertex_issues data else Ok []);
  Ok (when_issue (set_has (f_type data) [3; 8; 36; 45] && negb (filled (f_base_url data))) "base_url"
        "Base URL is required for this channel type"
      ++ advanced
      ++ when_issue (set_has (f_type data) [3; 18; 21; 39; 41; 49] && negb (filled (f_other data))) "other"
           "This channel type requires additional configuration"
      ++ (if f_type data =? 57 then codex_issues data else [])
      ++ when_issue ((f_type data =? CHANNEL_TYPE_VOLCENGINE_AGENT_PLAN) && multi_key_on data) "multi_key_mode"
           "Agent Plan channels do not support batch creation"
      ++ vertex).

End schema.

(** ** The form of a new channel *)
Definition CHANNEL_FORM_DEFAULT_VALUES : ChannelFormValues := {|
  f_name := []; f_type := 1; f_base_url := Some []; f_key := []; f_openai_organization := Some [];
  f_models := []; f_group := [js "default"]; f_model_mapping := Some []; f_priority := Some num0;
  f_weight := Some num0; f_test_model := Some []; f_auto_ban := Some (num_of_Z 1);
  f_status := JNum (num_of_Z CHANNEL_STATUS_ENABLED); f_status_code_mapping := Some []; f_tag := Some [];
  f_remark := Some []; f_setting := Some []; f_param_override := Some []; f_header_override := Some [];
  f_settings := Some (js "{}"); f_advanced_custom := Some []; f_other := Some [];
  f_agent_plan_access_key := Some []; f_agent_plan_secret_key := Some [];
  f_multi_key_mode := Some (js "single"); f_multi_key_type := Some (js "random");
  f_batch_add_set_key_prefix_2_name := Some false; f_key_mode := Some (js "append");
  f_force_format := JBool false; f_thinking_to_content := JBool false; f_proxy := JStr [];
  f_pass_through_body_enabled := JBool false; f_system_prompt := JStr []; f_system_prompt_override := JBool false;
  f_is_enterprise_account := Some false; f_vertex_key_type := JStr (js "json"); f_vertex_project_id := JStr [];
  f_aws_key_type := JStr (js "ak_sk"); f_azure_responses_version := JStr [];
  f_allow_service_tier := Some false; f_disable_store := Some false; f_allow_safety_identifier := Some false;
  f_allow_include_obfuscation := Some false; f_allow_inference_geo := Some false; f_allow_speed := Some false;
  f_claude_beta_query := Some false; f_disable_task_polling_sleep := Some false;
  f_upstream_model_update_check_enabled := Some false; f_upstream_model_update_auto_sync_enabled := Some false;
  f_upstream_model_update_ignored_models := Some []; f_agent_plan_usage_enabled := Some false |}.

(** ** The two JSON texts of a channel *)

(** *** Reading [setting] *)
Record ExtraSettings := {
  x_force_format : jsval; x_thinking_to_content : jsval; x_proxy : jsval; x_pass_through_body_enabled : jsval;
  x_system_prompt : jsval; x_system_prompt_override : jsval
}.

Definition no_extra_settings : ExtraSettings :=
  {| x_force_format := JBool false; x_thinking_to_content := JBool false; x_proxy := JStr [];
     x_pass_through_body_enabled := JBool false; x_system_prompt := JStr []; x_system_prompt_override := JBool false |}.

Definition extra_settings_of (parsed : jsval) : res js_error ExtraSettings :=
  force_format ← get_prop "force_format" parsed;
  Ok {| x_force_format := or_else force_format (JBool false);
        x_thinking_to_content := or_else (prop "thinking_to_content" parsed) (JBool false);
        x_proxy := or_else (prop "proxy" parsed) (JStr []);
        x_pass_through_body_enabled := or_else (prop "pass_through_body_enabled" parsed) (JBool false);
        x_system_prompt := or_else (prop "system_prompt" parsed) (JStr []);
        x_system_prompt_override := or_else (prop "system_prompt_override" parsed) (JBool false) |}.

(** A text that is null, undefined or empty is not read; an error leaves the defaults. *)
Definition read_extra_settings (setting : option jsstring) : ExtraSettings :=
  match setting with
  | Some ((_ :: _) as text) =>
      match JSON_parse text with
      | Some parsed => recover (extra_settings_of parsed) no_extra_settings
      | None => no_extra_settings
      end
  | _ => no_extra_settings
  end.

(** *** Reading [settings] *)
Record TypeSettings := {
  t_vertexKeyType : jsval; t_azureResponsesVersion : jsval; t_isEnterpriseAccount : bool; t_awsKeyType : jsval;
  t_vertexProjectID : jsval; t_allowServiceTier : bool; t_disableStore : bool; t_allowSafetyIdentifier : bool;
  t_allowIncludeObfuscation : bool; t_allowInferenceGeo : bool; t_allowSpeed : bool; t_claudeBetaQuery : bool;
  t_disableTaskPollingSleep : bool; t_upstreamModelUpdateCheckEnabled : bool;
  t_upstreamModelUpdateAutoSyncEnabled : bool; t_upstreamModelUpdateIgnoredModels : jsstring;
  t_agentPlanUsageEnabled : bool; t_advancedCustom : jsstring
}.

Definition no_type_settings (type : Z) : TypeSettings :=
  {| t_vertexKeyType := JStr (js "json"); t_azureResponsesVersion := JStr []; t_isEnterpriseAccount := false;
     t_awsKeyType := JStr (js "ak_sk"); t_vertexProjectID := JStr []; t_allowServiceTier := false;
     t_disableStore := false; t_allowSafetyIdentifier := false; t_allowIncludeObfuscation := false;
     t_allowInferenceGeo := false; t_allowSpeed := false; t_claudeBetaQuery := false;
     t_disableTaskPollingSleep := false; t_upstreamModelUpdateCheckEnabled := false;
     t_upstreamModelUpdateAutoSyncEnabled := false; t_upstreamModelUpdateIgnoredModels := [];
     t_agentPlanUsageEnabled := type =? CHANNEL_TYPE_VOLCENGINE_AGENT_PLAN; t_advancedCustom := [] |}.

(** [v === true], [v === false]. *)
Definition is_true (v : jsval) : bool := match v with JBool b => b | _ => false end.
Definition is_false (v : jsval) : bool := match v with JBool b => negb b | _ => false end.

(** The assignments of the [try] block on a value that is not null; the last may throw,
    and leaves the advanced configuration empty then. *)
Definition type_settings_of (type : Z) (parsed : jsval) : TypeSettings :=
  let flag k := is_true (prop k parsed) in
  {| t_vertexKeyType := or_else (prop "vertex_key_type" parsed) (JStr (js "json"));
     t_azureResponsesVersion := or_else (prop "azure_responses_version" parsed) (JStr []);
     t_isEnterpriseAccount := flag "openrouter_enterprise"%string;
     t_awsKeyType := or_else (prop "aws_key_type" parsed) (JStr (js "ak_sk"));
     t_vertexProjectID := or_else (prop "vertex_project_id" parsed) (JStr []);
     t_allowServiceTier := flag "allow_service_tier"%string;
     t_disableStore := flag "disable_store"%string;
     t_allowSafetyIdentifier := flag "allow_safety_identifier"%string;
     t_allowIncludeObfuscation := flag "allow_include_obfuscation"%string;
     t_allowInferenceGeo := flag "allow_inference_geo"%string;
     t_allowSpeed := flag "allow_speed"%string;
     t_claudeBetaQuery := flag "claude_beta_query"%string;
     t_disableTaskPollingSleep := flag "disable_task_polling_sleep"%string;
     t_upstreamModelUpdateCheckEnabled := flag "upstream_model_update_check_enabled"%string;
     t_upstreamModelUpdateAutoSyncEnabled := flag "upstream_model_update_auto_sync_enabled"%string;
     t_upstreamModelUpdateIgnoredModels :=
       match prop "upstream_model_update_ignored_models" parsed with
       | (JArr _) as l => to_string l
       | _ => []
       end;
     t_agentPlanUsageEnabled :=
       if type =? CHANNEL_TYPE_VOLCENGINE_AGENT_PLAN then negb (is_false (prop "agent_plan_usage_enabled" parsed))
       else flag "agent_plan_usage_enabled"%string;
     t_advancedCustom :=
       let a := prop "advanced_custom" parsed in
       if truthy a then recover (stringifyAdvancedCustomConfig a) [] else [] |}.

Definition read_type_settings (type : Z) (settings : jsstring) : TypeSettings :=
  match settings with
  | [] => no_type_settings type
  | _ => match JSON_parse settings with
         | None | Some (JUndef | JNull) => no_type_settings type
         | Some parsed => type_settings_of type parsed
         end
  end.

(** ** The form of an existing channel *)

(** [x || '']. *)
Definition text_or (x : option jsstring) (d : jsstring) : jsstring :=
  match x with Some ((_ :: _) as s) => s | _ => d end.

Definition num_or_0 (x : option jsnum) : jsnum := num_or_zero (default num0 x).

Definition parseModels (models : jsstring) : list jsstring :=
  match models with [] => [] | _ => filter (λ m, m ≠ []) (trim <$> split_on 44 models) end.

Definition parseGroups (groups : jsstring) : list jsstring :=
  match groups with [] => [] | _ => filter (λ g, g ≠ []) (trim <$> split_on 44 groups) end.

Definition formatModels (models : list jsstring) : jsstring := join (js ",") models.
Definition formatGroups (groups : list jsstring) : jsstring := join (js ",") groups.

Definition transformChannelToFormDefaults (channel : Channel) : ChannelFormValues :=
  let extra := read_extra_settings (c_setting channel) in
  let t := read_type_settings (c_type channel) (c_settings channel) in {|
  f_name := c_name channel; f_type := c_type channel; f_base_url := Some (text_or (c_base_url channel) []);
  f_key := []; f_openai_organization := Some (text_or (c_openai_organization channel) []);
  f_models := c_models channel; f_group := parseGroups (text_or (Some (c_group channel)) (js "default"));
  f_model_mapping := Some (text_or (c_model_mapping channel) []);
  f_priority := Some (num_or_0 (c_priority channel)); f_weight := Some (num_or_0 (c_weight channel));
  f_test_model := Some (text_or (c_test_model channel) []);
  f_auto_ban := Some (default (num_of_Z 1) (c_auto_ban channel)); f_status := c_status channel;
  f_status_code_mapping := Some (text_or (c_status_code_mapping channel) []);
  f_tag := Some (text_or (c_tag channel) []); f_remark := Some (c_remark channel);
  f_setting := Some (text_or (c_setting channel) []);
  f_param_override := Some (text_or (c_param_override channel) []);
  f_header_override := Some (text_or (c_header_override channel) []);
  f_settings := Some (text_or (Some (c_settings channel)) (js "{}")); f_other := Some (c_other channel);
  f_agent_plan_access_key := Some []; f_agent_plan_secret_key := Some [];
  f_multi_key_mode := Some (js "single");
  f_multi_key_type := Some (text_or (Some (multi_key_mode (c_channel_info channel))) (js "random"));
  f_batch_add_set_key_prefix_2_name := Some false; f_key_mode := Some (js "append");
  f_force_format := x_force_format extra; f_thinking_to_content := x_thinking_to_content extra;
  f_proxy := x_proxy extra; f_pass_through_body_enabled := x_pass_through_body_enabled extra;
  f_system_prompt := x_system_prompt extra; f_system_prompt_override := x_system_prompt_override extra;
  f_is_enterprise_account := Some (t_isEnterpriseAccount t); f_vertex_key_type := t_vertexKeyType t;
  f_vertex_project_id := t_vertexProjectID t; f_azure_responses_version := t_azureResponsesVersion t;
  f_aws_key_type := t_awsKeyType t; f_allow_service_tier := Some (t_allowServiceTier t);
  f_disable_store := Some (t_disableStore t); f_allow_include_obfuscation := Some (t_allowIncludeObfuscation t);
  f_allow_inference_geo := Some (t_allowInferenceGeo t); f_allow_speed := Some (t_allowSpeed t);
  f_claude_beta_query := Some (t_claudeBetaQuery t);
  f_disable_task_polling_sleep := Some (t_disableTaskPollingSleep t);
  f_allow_safety_identifier := Some (t_allowSafetyIdentifier t);
  f_upstream_model_update_check_enabled := Some (t_upstreamModelUpdateCheckEnabled t);
  f_upstream_model_update_auto_sync_enabled := Some (t_upstreamModelUpdateAutoSyncEnabled t);
  f_upstream_model_update_ignored_models := Some (t_upstreamModelUpdateIgnoredModels t);
  f_agent_plan_usage_enabled := Some (t_agentPlanUsageEnabled t);
  f_advanced_custom := Some (t_advancedCustom t) |}.

(** *** Writing [setting] *)
Definition buildSettingJSON (formData : ChannelFormValues) : res js_error jsstring :=
  proxy ← trimmed_or_empty (f_proxy formData);
  Ok (JSON_stringify 0 (JObj [
    (js "force_format", or_else (f_force_format formData) (JBool false));
    (js "thinking_to_content", or_else (f_thinking_to_content formData) (JBool false));
    (js "proxy", JStr proxy);
    (js "pass_through_body_enabled", or_else (f_pass_through_body_enabled formData) (JBool false));
    (js "system_prompt", or_else (f_system_prompt formData) (JStr []));
    (js "system_prompt_override", or_else (f_system_prompt_override formData) (JBool false)) ])).

(** *** Writing [settings]: one step per group of settings *)
Abbreviation props := (list (jsstring * jsval)).

Definition put (k : string) (v : jsval) (ps : props) : props := jset (js k) v ps.

(** [if (k in o) delete o[k]]. *)
Definition remove (k : string) (ps : props) : props := filter (λ p, p.1 ≠ js k) ps.

Definition put_flag (k : string) (b : option bool) (ps : props) : props := put k (JBool (bool_decide (b = Some true))) ps.

Definition vertex_step (f : ChannelFormValues) (ps : props) : res js_error props :=
  if f_type f =? 41 then
    let ps := put "vertex_key_type" (or_else (f_vertex_key_type f) (JStr (js "json"))) ps in
    if is_lit (f_vertex_key_type f) "api_key" then
      id ← trimmed_or_empty (f_vertex_project_id f); Ok (put "vertex_project_id" (JStr id) ps)
    else Ok (remove "vertex_project_id" ps)
  else if jhas (js "vertex_key_type") ps then Ok (remove "vertex_project_id" (remove "vertex_key_type" ps))
  else Ok ps.

Definition azure_step (f : ChannelFormValues) (ps : props) : props :=
  if (f_type f =? 3) && truthy (f_azure_responses_version f)
  then put "azure_responses_version" (f_azure_responses_version f) ps
  else remove "azure_responses_version" ps.

Definition openrouter_step (f : ChannelFormValues) (ps : props) : props :=
  if f_type f =? 20 then put_flag "openrouter_enterprise" (f_is_enterprise_account f) ps
  else remove "openrouter_enterprise" ps.

Definition aws_step (f : ChannelFormValues) (ps : props) : props :=
  if f_type f =? 33 then put "aws_key_type" (or_else (f_aws_key_type f) (JStr (js "ak_sk"))) ps
  else remove "aws_key_type" ps.

Definition tier_step (f : ChannelFormValues) (ps : props) : props :=
  if set_has (f_type f) [1; 14; 57] then put_flag "allow_service_tier" (f_allow_service_tier f) ps
  else remove "allow_service_tier" ps.

Definition openai_step (f : ChannelFormValues) (ps : props) : props :=
  if set_has (f_type f) [1; 57] then
    put_flag "allow_inference_geo" (f_allow_inference_geo f)
      (put_flag "allow_include_obfuscation" (f_allow_include_obfuscation f)
        (put_flag "allow_safety_identifier" (f_allow_safety_identifier f)
          (put_flag "disable_store" (f_disable_store f) ps)))
  else
    let ps := remove "allow_include_obfuscation" (remove "allow_safety_identifier" (remove "disable_store" ps)) in
    if negb (f_type f =? 14) then remove "allow_inference_geo" ps else ps.

Definition anthropic_step (f : ChannelFormValues) (ps : props) : props :=
  if f_type f =? 14 then
    put_flag "claude_beta_query" (f_claude_beta_query f)
      (put_flag "allow_speed" (f_allow_speed f) (put_flag "allow_inference_geo" (f_allow_inference_geo f) ps))
  else remove "claude_beta_query" (remove "allow_speed" ps).

Definition polling_step (f : ChannelFormValues) (ps : props) : props :=
  put_flag "disable_task_polling_sleep" (f_disable_task_polling_sleep f) ps.

Definition agent_step (f : ChannelFormValues) (ps : props) : props :=
  if set_has (f_type f) [45; CHANNEL_TYPE_ADVANCED_CUSTOM; CHANNEL_TYPE_VOLCENGINE_AGENT_PLAN]
  then put_flag "agent_plan_usage_enabled" (f_agent_plan_usage_enabled f) ps
  else remove "agent_plan_usage_enabled" ps.

(** The models of a comma-separated text, once each. *)
Definition ignored_models (f : ChannelFormValues) : list jsstring :=
  set_of (filter (λ m, m ≠ []) (trim <$> split_on 44 (default [] (f_upstream_model_update_ignored_models f)))).

Definition upstream_step (f : ChannelFormValues) (ps : props) : props :=
  if set_has (f_type f) MODEL_FETCHABLE_TYPES then
    let check := bool_decide (f_upstream_model_update_check_enabled f = Some true) in
    let ps := put "upstream_model_update_check_enabled" (JBool check) ps in
    let ps := put "upstream_model_update_auto_sync_enabled"
                (JBool (check && bool_decide (f_upstream_model_update_auto_sync_enabled f = Some true))) ps in
    let ps := put "upstream_model_update_ignored_models" (JArr (JStr <$> ignored_models f)) ps in
    let detected := prop "upstream_model_update_last_detected_models" (JObj ps) in
    let ps := if negb (bool_decide (is_Some (as_array detected))) || negb check
              then put "upstream_model_update_last_detected_models" (JArr []) ps else ps in
    match prop "upstream_model_update_last_check_time" (JObj ps) with
    | JNum _ => ps
    | _ => put "upstream_model_update_last_check_time" (JNum num0) ps
    end
  else ps.

Definition advanced_step (f : ChannelFormValues) (ps : props) : props :=
  if f_type f =? CHANNEL_TYPE_ADVANCED_CUSTOM then
    match parseAdvancedCustomConfig (f_advanced_custom f) with
    | Some config => put "advanced_custom" config ps
    | None => ps
    end
  else remove "advanced_custom" ps.

Definition settings_steps (f : ChannelFormValues) (ps : props) : res js_error props :=
  ps ← vertex_step f ps;
  Ok (advanced_step f (upstream_step f (agent_step f (polling_step f (anthropic_step f
       (openai_step f (tier_step f (aws_step f (openrouter_step f (azure_step f ps)))))))))).

(** The settings the form starts from: an empty object when there are none or they are no
    JSON. *)
Definition existing_settings (f : ChannelFormValues) : jsval :=
  match f_settings f with
  | None | Some [] => JObj []
  | Some text => if bool_decide (text = js "{}") then JObj [] else default (JObj []) (JSON_parse text)
  end.

(** On an array the settings become named properties, which are not printed; on null, a
    number, a text or a boolean the first access throws. *)
Definition buildSettingsJSON (f : ChannelFormValues) : res js_error jsstring :=
  match existing_settings f with
  | JObj ps => ps' ← settings_steps f ps; Ok (JSON_stringify 0 (JObj ps'))
  | JArr l => _ ← settings_steps f []; Ok (JSON_stringify 0 (JArr l))
  | _ => Throw TypeError
  end.

(** ** Payloads *)
Definition strip_slashes (s : jsstring) : jsstring :=
  reverse ((fix go s := match s with c :: t => if (c =? 47)%N then go t else s | [] => [] end) (reverse s)).

Definition normalizeBaseUrl (value : option jsstring) : jsstring := strip_slashes (trim (default [] value)).

Definition text_or_null (s : jsstring) : jsval := match s with [] => JNull | _ => JStr s end.
Definition num_or_null (x : option jsnum) : jsval :=
  match x with Some x => if truthy (JNum x) then JNum x else JNull | None => JNull end.

(** The secrets of an agent plan are only sent when there are any. *)
Definition with_secret (k : string) (x : option jsstring) (ps : props) : props :=
  if filled x then put k (JStr (trim (default [] x))) ps else ps.

(** Empty texts become null. *)
Definition nullify (ps : props) : props :=
  (λ p, (p.1, if is_lit p.2 "" then JNull else p.2)) <$> ps.

Record CreatePayload := {
  p_mode : jsstring; p_multi_key_mode : option jsstring; p_batch_add_set_key_prefix_2_name : option bool;
  p_channel : props
}.

Definition transformFormDataToCreatePayload (f : ChannelFormValues) : res js_error CreatePayload :=
  let mode := text_or (f_multi_key_mode f) (js "single") in
  setting ← buildSettingJSON f;
  settings ← buildSettingsJSON f;
  let channel : props := [
    (js "name", JStr (f_name f)); (js "type", JNum (num_of_Z (f_type f)));
    (js "base_url", text_or_null (normalizeBaseUrl (f_base_url f))); (js "key", JStr (f_key f));
    (js "openai_organization", text_or_null (text_or (f_openai_organization f) []));
    (js "models", JStr (f_models f)); (js "group", JStr (formatGroups (f_group f)));
    (js "model_mapping", text_or_null (text_or (f_model_mapping f) []));
    (js "priority", num_or_null (f_priority f)); (js "weight", num_or_null (f_weight f));
    (js "test_model", text_or_null (text_or (f_test_model f) []));
    (js "auto_ban", JNum (default (num_of_Z 1) (f_auto_ban f))); (js "status", f_status f);
    (js "status_code_mapping", text_or_null (text_or (f_status_code_mapping f) []));
    (js "tag", text_or_null (text_or (f_tag f) [])); (js "remark", JStr (text_or (f_remark f) []));
    (js "setting", JStr setting); (js "param_override", text_or_null (text_or (f_param_override f) []));
    (js "header_override", text_or_null (text_or (f_header_override f) []));
    (js "settings", JStr settings); (js "other", JStr (text_or (f_other f) [])) ] in
  let channel := with_secret "agent_plan_access_key" (f_agent_plan_access_key f) channel in
  let channel := with_secret "agent_plan_secret_key" (f_agent_plan_secret_key f) channel in
  Ok {| p_mode := mode;
        p_multi_key_mode := if bool_decide (mode = js "multi_to_single") then f_multi_key_type f else None;
        p_batch_add_set_key_prefix_2_name :=
          if bool_decide (mode = js "batch") then f_batch_add_set_key_prefix_2_name f else None;
        p_channel := nullify channel |}.

(** The fields sent as explicit empty texts, so that an update can clear them. *)
Definition put_cleared (f : ChannelFormValues) (ps : props) : props :=
  let ps := put "base_url" (JStr (normalizeBaseUrl (f_base_url f))) ps in
  let ps := put "openai_organization" (JStr (text_or (f_openai_organization f) [])) ps in
  let ps := put "test_model" (JStr (text_or (f_test_model f) [])) ps in
  let ps := put "tag" (JStr (text_or (f_tag f) [])) ps in
  let ps := put "remark" (JStr (text_or (f_remark f) [])) ps in
  let ps := put "model_mapping" (JStr (text_or (f_model_mapping f) [])) ps in
  let ps := put "status_code_mapping" (JStr (text_or (f_status_code_mapping f) [])) ps in
  let ps := put "param_override" (JStr (text_or (f_param_override f) [])) ps in
  put "header_override" (JStr (text_or (f_header_override f) [])) ps.

Definition transformFormDataToUpdatePayload (f : ChannelFormValues) (channelId : jsnum) : res js_error props :=
  setting ← buildSettingJSON f;
  settings ← buildSettingsJSON f;
  let payload : props := [
    (js "id", JNum channelId); (js "name", JStr (f_name f)); (js "type", JNum (num_of_Z (f_type f)));
    (js "base_url", text_or_null (normalizeBaseUrl (f_base_url f)));
    (js "openai_organization", text_or_null (text_or (f_openai_organization f) []));
    (js "models", JStr (f_models f)); (js "group", JStr (formatGroups (f_group f)));
    (js "model_mapping", text_or_null (text_or (f_model_mapping f) []));
    (js "priority", JNum (default num0 (f_priority f))); (js "weight", JNum (default num0 (f_weight f)));
    (js "test_model", text_or_null (text_or (f_test_model f) []));
    (js "auto_ban", JNum (default (num_of_Z 1) (f_auto_ban f)));
    (js "status_code_mapping", text_or_null (text_or (f_status_code_mapping f) []));
    (js "tag", text_or_null (text_or (f_tag f) [])); (js "remark", JStr (text_or (f_remark f) []));
    (js "setting", JStr setting); (js "param_override", text_or_null (text_or (f_param_override f) []));
    (js "header_override", text_or_null (text_or (f_header_override f) []));
    (js "settings", JStr settings); (js "other", JStr (text_or (f_other f) [])) ] in
  let payload := if filled (Some (f_key f)) then put "key" (JStr (f_key f)) payload else payload in
  let payload := with_secret "agent_plan_access_key" (f_agent_plan_access_key f) payload in
  let payload := with_secret "agent_plan_secret_key" (f_agent_plan_secret_key f) payload in
  Ok (put_cleared f (nullify payload)).

(** ** Validation helpers *)
Definition validateJSON (value : jsstring) : bool :=
  if bool_decide (trim value = []) then true
  else match JSON_parse value with Some _ => true | None => false end.

Definition validateModelMapping (value : jsstring) : bool :=
  if bool_decide (trim value = []) then true else validateJSON value.
