(* ===== verification/ChannelFormFacts.v ===== *)
(** Facts of the channel form: which settings a save writes, removes and keeps; that a
    saved channel opens with the settings it was saved with; what payloads hold; what the
    checks across fields accept. *)
From S2P Require Import Prelude JsString JsValue Json JsPrint JsNumber JsonQuote JsonPrint JsDynamic.
From S2P Require Import AdvancedCustom AdvancedCustomFacts Channels ChannelForm.
Local Open Scope Z_scope.

(** ** Properties of an object under the steps *)
Lemma jget_put q k v ps : jget q (put k v ps) = if decide (js k = q) then Some v else jget q ps.
Proof. apply jget_jset. Qed.

Lemma jget_remove q k ps : jget q (remove k ps) = if decide (js k = q) then None else jget q ps.
Proof. apply jget_delete. Qed.

#[local] Ltac frame :=
  intros Hq; repeat case_match; repeat first [rewrite jget_put | rewrite jget_remove];
  repeat (rewrite decide_False by (intros <-; apply Hq; set_solver)); done.

Definition vertex_keys : list string := ["vertex_key_type"; "vertex_project_id"]%string.
Definition openai_keys : list string :=
  ["disable_store"; "allow_safety_identifier"; "allow_include_obfuscation"; "allow_inference_geo"]%string.
Definition anthropic_keys : list string := ["allow_inference_geo"; "allow_speed"; "claude_beta_query"]%string.
Definition upstream_keys : list string :=
  ["upstream_model_update_check_enabled"; "upstream_model_update_auto_sync_enabled";
   "upstream_model_update_ignored_models"; "upstream_model_update_last_detected_models";
   "upstream_model_update_last_check_time"]%string.

Section frames.
Context (f : ChannelFormValues) (q : jsstring).

Lemma azure_frame ps : q ∉ js <$> ["azure_responses_version"%string] → jget q (azure_step f ps) = jget q ps.
Proof. unfold azure_step. frame. Qed.
Lemma openrouter_frame ps : q ∉ js <$> ["openrouter_enterprise"%string] → jget q (openrouter_step f ps) = jget q ps.
Proof. unfold openrouter_step, put_flag. frame. Qed.
Lemma aws_frame ps : q ∉ js <$> ["aws_key_type"%string] → jget q (aws_step f ps) = jget q ps.
Proof. unfold aws_step. frame. Qed.
Lemma tier_frame ps : q ∉ js <$> ["allow_service_tier"%string] → jget q (tier_step f ps) = jget q ps.
Proof. unfold tier_step, put_flag. frame. Qed.
Lemma openai_frame ps : q ∉ js <$> openai_keys → jget q (openai_step f ps) = jget q ps.
Proof. unfold openai_step, put_flag. frame. Qed.
Lemma anthropic_frame ps : q ∉ js <$> anthropic_keys → jget q (anthropic_step f ps) = jget q ps.
Proof. unfold anthropic_step, put_flag. frame. Qed.
Lemma polling_frame ps : q ∉ js <$> ["disable_task_polling_sleep"%string] → jget q (polling_step f ps) = jget q ps.
Proof. unfold polling_step, put_flag. frame. Qed.
Lemma agent_frame ps : q ∉ js <$> ["agent_plan_usage_enabled"%string] → jget q (agent_step f ps) = jget q ps.
Proof. unfold agent_step, put_flag. frame. Qed.
Lemma upstream_frame ps : q ∉ js <$> upstream_keys → jget q (upstream_step f ps) = jget q ps.
Proof.
  unfold upstream_keys. rewrite !fmap_cons, !not_elem_of_cons. intros (H1 & H2 & H3 & H4 & H5 & _).
  unfold upstream_step. destruct (set_has _ _); [|done]. set (ps3 := put "upstream_model_update_ignored_models" _ _).
  assert (jget q ps3 = jget q ps) as <- by (subst ps3; by rewrite !jget_put, !decide_False by done).
  clearbody ps3. cbv zeta. destruct (negb _ || _); destruct (prop _ (JObj _)); by rewrite ?jget_put, ?decide_False by done.
Qed.
Lemma advanced_frame ps : q ∉ js <$> ["advanced_custom"%string] → jget q (advanced_step f ps) = jget q ps.
Proof. unfold advanced_step. frame. Qed.
Lemma vertex_frame ps ps' : vertex_step f ps = Ok ps' → q ∉ js <$> vertex_keys → jget q ps' = jget q ps.
Proof.
  unfold vertex_step. destruct (f_type f =? 41).
  - destruct (is_lit _ _); [destruct (trimmed_or_empty _); [|done]|]; cbn [mbind res_bind]; intros [= <-]; frame.
  - destruct (jhas _ _); intros [= <-]; frame.
Qed.
End frames.

(** The keys the steps write or remove. *)
Definition managed_keys : list string :=
  vertex_keys ++ ["azure_responses_version"; "openrouter_enterprise"; "aws_key_type"; "allow_service_tier"]%string
  ++ openai_keys ++ anthropic_keys ++ ["disable_task_polling_sleep"; "agent_plan_usage_enabled"]%string
  ++ upstream_keys ++ ["advanced_custom"%string].

(** Move a read through the steps that do not touch its key. *)
#[local] Ltac skip_steps :=
  repeat first
    [ rewrite advanced_frame by in_list | rewrite upstream_frame by in_list | rewrite agent_frame by in_list
    | rewrite polling_frame by in_list | rewrite anthropic_frame by in_list | rewrite openai_frame by in_list
    | rewrite tier_frame by in_list | rewrite aws_frame by in_list | rewrite openrouter_frame by in_list
    | rewrite azure_frame by in_list ].

#[local] Ltac decide_keys :=
  repeat first [rewrite jget_put | rewrite jget_remove];
  repeat (first [rewrite decide_True by done | rewrite decide_False by in_list]).

(** The flags: name, the channel types that have it, and the value of the form. *)
Definition flag_rules (f : ChannelFormValues) : list (string * list Z * option bool) := [
  ("openrouter_enterprise"%string, [20], f_is_enterprise_account f);
  ("allow_service_tier"%string, [1; 14; 57], f_allow_service_tier f);
  ("disable_store"%string, [1; 57], f_disable_store f);
  ("allow_safety_identifier"%string, [1; 57], f_allow_safety_identifier f);
  ("allow_include_obfuscation"%string, [1; 57], f_allow_include_obfuscation f);
  ("allow_inference_geo"%string, [1; 14; 57], f_allow_inference_geo f);
  ("allow_speed"%string, [14], f_allow_speed f);
  ("claude_beta_query"%string, [14], f_claude_beta_query f);
  ("agent_plan_usage_enabled"%string, [45; 58; 60], f_agent_plan_usage_enabled f) ].

Definition on (b : option bool) : jsval := JBool (bool_decide (b = Some true)).

Lemma set_has_1 (x y : Z) : set_has x [y] = (x =? y).
Proof. unfold set_has. case_bool_decide; set_unfold; symmetry; [apply Z.eqb_eq|apply Z.eqb_neq]; naive_solver. Qed.

(** The settings of the flags after all steps but the first. *)
Lemma flags_written f ps k types b :
  (k, types, b) ∈ flag_rules f →
  jget (js k) (advanced_step f (upstream_step f (agent_step f (polling_step f (anthropic_step f
       (openai_step f (tier_step f (aws_step f (openrouter_step f (azure_step f ps)))))))))) =
  if set_has (f_type f) types then Some (on b) else None.
Proof.
  unfold flag_rules. rewrite !elem_of_cons, elem_of_nil.
  intros [[= -> -> ->]|[[= -> -> ->]|[[= -> -> ->]|[[= -> -> ->]|[[= -> -> ->]|[[= -> -> ->]|[[= -> -> ->]|[[= -> -> ->]|[[= -> -> ->]|[]]]]]]]]]];
    skip_steps.
  - unfold openrouter_step, put_flag, on. rewrite <- set_has_1. destruct (set_has _ _); by decide_keys.
  - unfold tier_step, put_flag, on. destruct (set_has _ _); by decide_keys.
  - unfold openai_step, put_flag, on. destruct (set_has _ _); [|destruct (negb _)]; by decide_keys.
  - unfold openai_step, put_flag, on. destruct (set_has _ _); [|destruct (negb _)]; by decide_keys.
  - unfold openai_step, put_flag, on. destruct (set_has _ _); [|destruct (negb _)]; by decide_keys.
  - unfold anthropic_step, openai_step, put_flag, on. rewrite <- set_has_1.
    replace (set_has (f_type f) [1; 14; 57]) with (set_has (f_type f) [1; 57] || set_has (f_type f) [14]).
    2: { unfold set_has. repeat case_bool_decide; set_solver. }
    destruct (set_has _ [14]) eqn:E; [by decide_keys; destruct (set_has _ [1; 57])|]. cbn [negb orb].
    destruct (set_has _ [1; 57]); by decide_keys.
  - unfold anthropic_step, put_flag, on. rewrite <- set_has_1. destruct (set_has _ _); by decide_keys.
  - unfold anthropic_step, put_flag, on. rewrite <- set_has_1. destruct (set_has _ _); by decide_keys.
  - unfold agent_step, put_flag, on. destruct (set_has _ _); by decide_keys.
Qed.

(** The models detected at the last check are kept while the check is on, and the time of
    the last check when it is a number. *)
Definition detected_after (f : ChannelFormValues) (ps : props) : jsval :=
  match jget (js "upstream_model_update_last_detected_models") ps with
  | Some (JArr l) => if bool_decide (f_upstream_model_update_check_enabled f = Some true) then JArr l else JArr []
  | _ => JArr []
  end.
Definition checked_after (ps : props) : jsval :=
  match jget (js "upstream_model_update_last_check_time") ps with Some (JNum x) => JNum x | _ => JNum num0 end.

(** What every setting is after all steps. *)
Record settings_spec (f : ChannelFormValues) (ps ps' : props) : Prop := {
  spec_flags k types b : (k, types, b) ∈ flag_rules f →
    jget (js k) ps' = if set_has (f_type f) types then Some (on b) else None;
  spec_polling : jget (js "disable_task_polling_sleep") ps' = Some (on (f_disable_task_polling_sleep f));
  spec_aws : jget (js "aws_key_type") ps' =
    if f_type f =? 33 then Some (or_else (f_aws_key_type f) (JStr (js "ak_sk"))) else None;
  spec_azure : jget (js "azure_responses_version") ps' =
    if (f_type f =? 3) && truthy (f_azure_responses_version f) then Some (f_azure_responses_version f) else None;
  spec_vertex_key_type : jget (js "vertex_key_type") ps' =
    if f_type f =? 41 then Some (or_else (f_vertex_key_type f) (JStr (js "json"))) else None;
  (** The project of another type goes with its key type. *)
  spec_vertex_project :
    if f_type f =? 41 then
      if is_lit (f_vertex_key_type f) "api_key"
      then ∃ id, trimmed_or_empty (f_vertex_project_id f) = Ok id ∧ jget (js "vertex_project_id") ps' = Some (JStr id)
      else jget (js "vertex_project_id") ps' = None
    else jget (js "vertex_project_id") ps' =
         if jhas (js "vertex_key_type") ps then None else jget (js "vertex_project_id") ps;
  spec_upstream : if set_has (f_type f) MODEL_FETCHABLE_TYPES then
      jget (js "upstream_model_update_check_enabled") ps' = Some (on (f_upstream_model_update_check_enabled f)) ∧
      jget (js "upstream_model_update_auto_sync_enabled") ps' =
        Some (JBool (bool_decide (f_upstream_model_update_check_enabled f = Some true)
                     && bool_decide (f_upstream_model_update_auto_sync_enabled f = Some true))) ∧
      jget (js "upstream_model_update_ignored_models") ps' = Some (JArr (JStr <$> ignored_models f)) ∧
      jget (js "upstream_model_update_last_detected_models") ps' = Some (detected_after f ps) ∧
      jget (js "upstream_model_update_last_check_time") ps' = Some (checked_after ps)
    else ∀ k, k ∈ upstream_keys → jget (js k) ps' = jget (js k) ps;
  spec_advanced : jget (js "advanced_custom") ps' =
    if f_type f =? CHANNEL_TYPE_ADVANCED_CUSTOM then
      match parseAdvancedCustomConfig (f_advanced_custom f) with
      | Some config => Some config
      | None => jget (js "advanced_custom") ps
      end
    else None;
  spec_others k : k ∉ js <$> managed_keys → jget k ps' = jget k ps
}.

Lemma vertex_written f ps ps' :
  vertex_step f ps = Ok ps' →
  (jget (js "vertex_key_type") ps' =
    if f_type f =? 41 then Some (or_else (f_vertex_key_type f) (JStr (js "json"))) else None) ∧
  (if f_type f =? 41 then
     if is_lit (f_vertex_key_type f) "api_key"
     then ∃ id, trimmed_or_empty (f_vertex_project_id f) = Ok id ∧ jget (js "vertex_project_id") ps' = Some (JStr id)
     else jget (js "vertex_project_id") ps' = None
   else jget (js "vertex_project_id") ps' =
        if jhas (js "vertex_key_type") ps then None else jget (js "vertex_project_id") ps).
Proof.
  unfold vertex_step. destruct (Z.eqb_spec (f_type f) 41) as [E|E].
  - destruct (is_lit _ _).
    + destruct (trimmed_or_empty _) as [id|]; [|done]. cbn [mbind res_bind]. intros [= <-].
      split; [by decide_keys|]. exists id. split; [done|]. by decide_keys.
    + intros [= <-]. split; by decide_keys.
  - destruct (jhas _ _) eqn:Eh; intros [= <-].
    + split; by decide_keys.
    + split; [|done]. apply jget_None. by apply jhas_false.
Qed.

Lemma upstream_written f ps :
  set_has (f_type f) MODEL_FETCHABLE_TYPES = true →
  jget (js "upstream_model_update_check_enabled") (upstream_step f ps) = Some (on (f_upstream_model_update_check_enabled f)) ∧
  jget (js "upstream_model_update_auto_sync_enabled") (upstream_step f ps) =
    Some (JBool (bool_decide (f_upstream_model_update_check_enabled f = Some true)
                 && bool_decide (f_upstream_model_update_auto_sync_enabled f = Some true))) ∧
  jget (js "upstream_model_update_ignored_models") (upstream_step f ps) = Some (JArr (JStr <$> ignored_models f)) ∧
  jget (js "upstream_model_update_last_detected_models") (upstream_step f ps) = Some (detected_after f ps) ∧
  jget (js "upstream_model_update_last_check_time") (upstream_step f ps) = Some (checked_after ps).
Proof.
  intros E. unfold upstream_step. rewrite E. cbv zeta.
  set (ps3 := put "upstream_model_update_ignored_models" _ _).
  set (ps4 := if negb _ || _ then _ else ps3).
  set (ps5 := match prop _ (JObj ps4) with JNum _ => ps4 | _ => _ end).
  assert (jget (js "upstream_model_update_last_detected_models") ps4 = Some (detected_after f ps)) as H4.
  { assert (jget (js "upstream_model_update_last_detected_models") ps3 = jget (js "upstream_model_update_last_detected_models") ps)
      as E3 by (subst ps3; by decide_keys).
    subst ps4. unfold detected_after. unfold prop. rewrite E3.
    destruct (jget (js "upstream_model_update_last_detected_models") ps) as [[]|] eqn:Ed; cbn; try (by decide_keys).
    destruct (bool_decide (f_upstream_model_update_check_enabled f = _)); cbn; [by rewrite E3|by decide_keys]. }
  assert (jget (js "upstream_model_update_last_check_time") ps5 = Some (checked_after ps)) as H5.
  { assert (jget (js "upstream_model_update_last_check_time") ps4 = jget (js "upstream_model_update_last_check_time") ps) as E4.
    { subst ps4 ps3. destruct (negb _ || _); by decide_keys. }
    subst ps5. unfold checked_after, prop. rewrite E4.
    destruct (jget (js "upstream_model_update_last_check_time") ps) as [[]|] eqn:Ed; cbn; by decide_keys. }
  assert (jget (js "upstream_model_update_last_detected_models") ps5 = Some (detected_after f ps)) as H4'.
  { rewrite <- H4. subst ps5. destruct (prop _ (JObj ps4)); by decide_keys. }
  assert (∀ k, js k ∉ js <$> ["upstream_model_update_last_detected_models"; "upstream_model_update_last_check_time"]%string →
    jget (js k) ps5 = jget (js k) ps3) as Hk.
  { intros k. rewrite !fmap_cons, !not_elem_of_cons. intros (H1 & H2 & _).
    assert (jget (js k) ps4 = jget (js k) ps3) as <-
      by (subst ps4; destruct (negb _ || _); by rewrite ?jget_put, ?decide_False by done).
    subst ps5. destruct (prop _ (JObj ps4)); by rewrite ?jget_put, ?decide_False by done. }
  clearbody ps5. clear H4. subst ps3. split_and!; [..|done|done]; (rewrite Hk by in_list); by decide_keys.
Qed.

Lemma steps_spec f ps ps' : settings_steps f ps = Ok ps' → settings_spec f ps ps'.
Proof.
  unfold settings_steps. destruct (vertex_step f ps) as [ps1|] eqn:Ev; [|done]. cbn [mbind res_bind]. intros [= <-].
  destruct (vertex_written f ps ps1 Ev) as [Hv1 Hv2].
  assert (∀ q, q ∉ js <$> vertex_keys → jget q ps1 = jget q ps) as Hv by (intros q Hq; by eapply vertex_frame).
  split.
  - intros k types b Hin. by apply flags_written.
  - skip_steps. unfold polling_step, put_flag. by decide_keys.
  - skip_steps. unfold aws_step. destruct (f_type f =? 33); by decide_keys.
  - skip_steps. unfold azure_step. destruct (_ && _); by decide_keys.
  - by skip_steps.
  - by skip_steps.
  - destruct (set_has _ MODEL_FETCHABLE_TYPES) eqn:E.
    + skip_steps. set (x := agent_step f _). destruct (upstream_written f x E) as (H1 & H2 & H3 & H4 & H5).
      assert (detected_after f ps = detected_after f x ∧ checked_after ps = checked_after x) as [-> ->]; [|done].
      unfold detected_after, checked_after. subst x. skip_steps. by rewrite !Hv by in_list.
    + intros k Hk. unfold upstream_keys in Hk. rewrite !elem_of_cons, elem_of_nil in Hk.
      assert (∀ x, upstream_step f x = x) as Hid by (intros x; unfold upstream_step; by rewrite E).
      rewrite Hid. destruct Hk as [->|[->|[->|[->|[->|[]]]]]]; skip_steps; by apply Hv; in_list.
  - assert (∀ x, jget (js "advanced_custom") (advanced_step f x) = if f_type f =? CHANNEL_TYPE_ADVANCED_CUSTOM then
      match parseAdvancedCustomConfig (f_advanced_custom f) with
      | Some config => Some config | None => jget (js "advanced_custom") x end else None) as ->.
    { intros x. unfold advanced_step. destruct (f_type f =? CHANNEL_TYPE_ADVANCED_CUSTOM); [|by decide_keys].
      destruct (parseAdvancedCustomConfig _); by decide_keys. }
    skip_steps. by rewrite Hv by in_list.
  - intros k Hk. unfold managed_keys in Hk. rewrite !fmap_app, !not_elem_of_app in Hk.
    destruct Hk as (K1 & K2 & K3 & K4 & K5 & K6 & K7).
    rewrite advanced_frame, upstream_frame, agent_frame, polling_frame, anthropic_frame, openai_frame, tier_frame,
      aws_frame, openrouter_frame, azure_frame by set_solver. by apply Hv.
Qed.

(** ** The settings written can be printed and read back *)
Definition obj_ok (ps : props) : Prop := json_ok (JObj ps) = true.

Definition member_ok (p : jsstring * jsval) : bool := units_ok p.1 && json_ok p.2.

Lemma obj_ok_iff ps : obj_ok ps ↔ Forall (λ p, member_ok p = true) ps ∧ members_ok ps = true.
Proof.
  unfold obj_ok. cbn [json_ok]. rewrite andb_true_iff, forallb_Forall. apply and_iff_compat_r.
  apply Forall_iff. by intros [k v].
Qed.

(** A name that is printed as it is and is no array index. *)
Definition named (k : string) : bool := units_ok (js k) && bool_decide (array_index (js k) = None).

Lemma put_ok k v ps : named k = true → json_ok v = true → obj_ok ps → obj_ok (put k v ps).
Proof.
  unfold named. rewrite andb_true_iff, bool_decide_eq_true. intros [Hu Hi] Hv Hps. by apply json_ok_jset.
Qed.

Lemma remove_ok k ps : obj_ok ps → obj_ok (remove k ps).
Proof. rewrite !obj_ok_iff. intros [Hf Hm]. split; [by apply filter_Forall|by apply members_ok_filter]. Qed.

Lemma put_flag_ok k b ps : named k = true → obj_ok ps → obj_ok (put_flag k b ps).
Proof. intros Hk Hp. by apply put_ok. Qed.

(** The values of the form are printable. *)
Record form_printable (f : ChannelFormValues) : Prop := {
  printable_vertex : f_vertex_key_type f = JUndef ∨ json_ok (f_vertex_key_type f) = true;
  printable_project : f_vertex_project_id f = JUndef ∨ json_ok (f_vertex_project_id f) = true;
  printable_azure : f_azure_responses_version f = JUndef ∨ json_ok (f_azure_responses_version f) = true;
  printable_aws : f_aws_key_type f = JUndef ∨ json_ok (f_aws_key_type f) = true;
  printable_ignored : units_ok (default [] (f_upstream_model_update_ignored_models f)) = true;
  printable_advanced c : parseAdvancedCustomConfig (f_advanced_custom f) = Some c → json_ok c = true
}.

Lemma trimmed_ok v s : v = JUndef ∨ json_ok v = true → trimmed_or_empty v = Ok s → units_ok s = true.
Proof.
  intros Hv [(t & -> & ->)|[_ ->]]%trimmed_or_empty_Ok; [|done].
  destruct Hv as [?|Hv]; [done|]. by apply units_ok_trim.
Qed.

Lemma ignored_models_ok f :
  units_ok (default [] (f_upstream_model_update_ignored_models f)) = true →
  json_ok (JArr (JStr <$> ignored_models f)) = true.
Proof.
  intros H. apply json_ok_texts. apply Forall_forall. intros m Hm. unfold ignored_models in Hm.
  apply elem_of_set_of, list_elem_of_filter in Hm as [_ (x & -> & Hx)%list_elem_of_fmap].
  apply units_ok_trim. revert H. unfold units_ok. rewrite !forallb_Forall, !Forall_forall. intros H c Hc.
  apply H. by eapply split_on_sub.
Qed.

#[local] Ltac printable :=
  repeat first [apply put_flag_ok; [done|] | apply remove_ok | apply put_ok; [done| |]];
  try done; try (by apply or_else_ok).

Lemma steps_ok f ps ps' : form_printable f → obj_ok ps → settings_steps f ps = Ok ps' → obj_ok ps'.
Proof.
  intros [Hv Hid Hz Ha Hi Hc] Hp. unfold settings_steps.
  destruct (vertex_step f ps) as [ps1|] eqn:Ev; [|done]. cbn [mbind res_bind]. intros [= <-].
  assert (obj_ok ps1) as H1.
  { revert Ev. unfold vertex_step. destruct (f_type f =? 41).
    - destruct (is_lit _ _).
      + destruct (trimmed_or_empty _) as [id|] eqn:Et; [|done]. cbn [mbind res_bind]. intros [= <-].
        apply put_ok; [done| |printable]. by apply (trimmed_ok (f_vertex_project_id f)).
      + intros [= <-]. printable.
    - destruct (jhas _ _); intros [= <-]; printable. }
  clear Hp Ev. assert (obj_ok (azure_step f ps1)) as H2.
  { unfold azure_step. destruct (_ && _) eqn:E; [|printable]. apply put_ok; [done| |done].
    apply andb_true_iff in E as [_ E]. by destruct Hz as [Hz|]; [rewrite Hz in E|]. }
  revert H2. generalize (azure_step f ps1). clear H1 ps1. intros ps1 H1.
  assert (obj_ok (anthropic_step f (openai_step f (tier_step f (aws_step f (openrouter_step f ps1)))))) as H2.
  { unfold anthropic_step, openai_step, tier_step, aws_step, openrouter_step.
    repeat case_match; printable. }
  revert H2. generalize (anthropic_step f (openai_step f (tier_step f (aws_step f (openrouter_step f ps1))))).
  clear H1 ps1. intros ps1 H1.
  assert (obj_ok (agent_step f (polling_step f ps1))) as H2 by (unfold agent_step, polling_step; case_match; printable).
  revert H2. generalize (agent_step f (polling_step f ps1)). clear H1 ps1. intros ps1 H1.
  assert (obj_ok (upstream_step f ps1)) as H2.
  { unfold upstream_step. case_match; [|done]. cbv zeta. set (ps3 := put "upstream_model_update_ignored_models" _ _).
    assert (obj_ok ps3) as H3 by (subst ps3; printable; by apply ignored_models_ok).
    clearbody ps3. destruct (negb _ || _); destruct (prop _ (JObj _)); printable. }
  unfold advanced_step. case_match; [|printable]. case_match; [|done]. printable. by apply Hc.
Qed.

(** ** Theorems *)

(** C9: saving settings that were an object writes exactly this for every key: each flag
    is there for the types that have it, with the value of the form, and gone for the
    others; so for the key types, the versions and the advanced routes (of which routes
    that cannot be read leave the stored ones); the project identifier goes with the key
    type; for types that can fetch models the upstream settings are those of the form, the
    detected models are emptied when the check is off and the time of the last check is
    kept when it is a number; for the other types all five upstream settings are kept; and
    every setting the form does not know is kept. *)
Theorem settings_written f ps text :
  existing_settings f = JObj ps → buildSettingsJSON f = Ok text →
  ∃ ps', text = JSON_stringify 0 (JObj ps') ∧ settings_spec f ps ps'.
Proof.
  intros He. unfold buildSettingsJSON. rewrite He.
  destruct (settings_steps f ps) as [ps'|] eqn:E; [|done]. cbn [mbind res_bind]. intros [= <-].
  exists ps'. split; [done|]. by apply steps_spec.
Qed.

(** The settings a form shows that opens on what was stored before the save. *)
Definition before (f : ChannelFormValues) (ps : props) : TypeSettings := type_settings_of (f_type f) (JObj ps).

(** The settings a form shows after it was saved, each of them: those of the type as they
    were saved; of the others, the flags, key types and versions as their defaults, and as
    they were stored before the save the upstream settings of a type that cannot fetch
    models and a project identifier that was stored without a key type. *)
Definition shown (f : ChannelFormValues) (types : list Z) (b : option bool) : bool :=
  set_has (f_type f) types && bool_decide (b = Some true).

Record reopened (f : ChannelFormValues) (ps : props) (t : TypeSettings) : Prop := {
  re_enterprise : t_isEnterpriseAccount t = shown f [20] (f_is_enterprise_account f);
  re_tier : t_allowServiceTier t = shown f [1; 14; 57] (f_allow_service_tier f);
  re_store : t_disableStore t = shown f [1; 57] (f_disable_store f);
  re_safety : t_allowSafetyIdentifier t = shown f [1; 57] (f_allow_safety_identifier f);
  re_obfuscation : t_allowIncludeObfuscation t = shown f [1; 57] (f_allow_include_obfuscation f);
  re_geo : t_allowInferenceGeo t = shown f [1; 14; 57] (f_allow_inference_geo f);
  re_speed : t_allowSpeed t = shown f [14] (f_allow_speed f);
  re_beta : t_claudeBetaQuery t = shown f [14] (f_claude_beta_query f);
  re_agent : t_agentPlanUsageEnabled t = shown f [45; 58; 60] (f_agent_plan_usage_enabled f);
  re_polling : t_disableTaskPollingSleep t = bool_decide (f_disable_task_polling_sleep f = Some true);
  re_vertex : t_vertexKeyType t =
    if f_type f =? 41 then or_else (f_vertex_key_type f) (JStr (js "json")) else JStr (js "json");
  re_aws : t_awsKeyType t =
    if f_type f =? 33 then or_else (f_aws_key_type f) (JStr (js "ak_sk")) else JStr (js "ak_sk");
  re_azure : t_azureResponsesVersion t =
    if f_type f =? 3 then or_else (f_azure_responses_version f) (JStr []) else JStr [];
  re_vertex_project :
    if f_type f =? 41 then
      if is_lit (f_vertex_key_type f) "api_key"
      then ∃ id, trimmed_or_empty (f_vertex_project_id f) = Ok id ∧ t_vertexProjectID t = JStr id
      else t_vertexProjectID t = JStr []
    else t_vertexProjectID t =
         if jhas (js "vertex_key_type") ps then JStr [] else t_vertexProjectID (before f ps);
  re_upstream : if set_has (f_type f) MODEL_FETCHABLE_TYPES then
      t_upstreamModelUpdateCheckEnabled t = bool_decide (f_upstream_model_update_check_enabled f = Some true) ∧
      t_upstreamModelUpdateAutoSyncEnabled t =
        bool_decide (f_upstream_model_update_check_enabled f = Some true)
        && bool_decide (f_upstream_model_update_auto_sync_enabled f = Some true) ∧
      t_upstreamModelUpdateIgnoredModels t = join (js ",") (ignored_models f)
    else
      t_upstreamModelUpdateCheckEnabled t = t_upstreamModelUpdateCheckEnabled (before f ps) ∧
      t_upstreamModelUpdateAutoSyncEnabled t = t_upstreamModelUpdateAutoSyncEnabled (before f ps) ∧
      t_upstreamModelUpdateIgnoredModels t = t_upstreamModelUpdateIgnoredModels (before f ps);
  re_advanced : if f_type f =? CHANNEL_TYPE_ADVANCED_CUSTOM then
      match parseAdvancedCustomConfig (f_advanced_custom f) with
      | Some c => parseAdvancedCustomConfig (Some (t_advancedCustom t)) = Some c
      | None => t_advancedCustom t = t_advancedCustom (before f ps)
      end
    else t_advancedCustom t = []
}.

Lemma prop_jget k v ps : jget (js k) ps = v → prop k (JObj ps) = default JUndef v.
Proof. by intros <-. Qed.

Lemma flag_shown f ps ps' k types b :
  settings_spec f ps ps' → (k, types, b) ∈ flag_rules f → is_true (prop k (JObj ps')) = shown f types b.
Proof.
  intros Hs Hin. rewrite (prop_jget k _ _ (spec_flags _ _ _ Hs _ _ _ Hin)). unfold shown.
  by destruct (set_has _ _).
Qed.

Lemma to_string_texts ms : to_string (JArr (JStr <$> ms)) = join (js ",") ms.
Proof.
  cbn [to_string]. f_equal. induction ms as [|m ms IH]; [done|]. rewrite fmap_cons. cbn [List.map to_string].
  by rewrite IH.
Qed.

Lemma parsed_config_normal text c :
  parseAdvancedCustomConfig text = Some c →
  (∃ routes, c = routes_config routes) ∧ normalizeAdvancedCustomConfig c = Ok c.
Proof.
  unfold parseAdvancedCustomConfig. destruct text as [text|]; [|done]. case_bool_decide; [done|].
  destruct (JSON_parse text) as [[| | | | | |ps]|]; try done.
  destruct (normalizeAdvancedCustomConfig (JObj ps)) as [n|] eqn:E; [|done]. cbn. intros [= ->].
  destruct (normalize_config_shape _ _ E) as (routes & -> & Hr). split; [by eexists|].
  by apply normalize_routes_config.
Qed.

Lemma reopened_spec f ps ps' :
  form_printable f → settings_spec f ps ps' → reopened f ps (type_settings_of (f_type f) (JObj ps')).
Proof.
  intros Hf Hs. assert (∀ k types b, (k, types, b) ∈ flag_rules f → is_true (prop k (JObj ps')) = shown f types b) as Hflag
    by (intros; by eapply flag_shown).
  assert (∀ i k types b, flag_rules f !! i = Some (k, types, b) → is_true (prop k (JObj ps')) = shown f types b) as Hi.
  { intros i k types b Hl. by eapply Hflag, list_elem_of_lookup_2. }
  split; cbn [type_settings_of t_isEnterpriseAccount t_allowServiceTier t_disableStore t_allowSafetyIdentifier
    t_allowIncludeObfuscation t_allowInferenceGeo t_allowSpeed t_claudeBetaQuery t_agentPlanUsageEnabled
    t_disableTaskPollingSleep t_vertexKeyType t_awsKeyType t_azureResponsesVersion t_vertexProjectID
    t_upstreamModelUpdateCheckEnabled t_upstreamModelUpdateAutoSyncEnabled t_upstreamModelUpdateIgnoredModels
    t_advancedCustom].
  - by apply (Hi 0%nat).
  - by apply (Hi 1%nat).
  - by apply (Hi 2%nat).
  - by apply (Hi 3%nat).
  - by apply (Hi 4%nat).
  - by apply (Hi 5%nat).
  - by apply (Hi 6%nat).
  - by apply (Hi 7%nat).
  - rewrite <- (Hi 8%nat _ _ _ eq_refl). case_match eqn:E; [|done]. boolify.
    assert (("agent_plan_usage_enabled"%string, [45; 58; 60], f_agent_plan_usage_enabled f) ∈ flag_rules f) as Hin
      by by apply (list_elem_of_lookup_2 _ 8).
    rewrite (prop_jget _ _ _ (spec_flags _ _ _ Hs _ _ _ Hin)). rewrite E. by destruct (f_agent_plan_usage_enabled f) as [[]|].
  - rewrite (prop_jget _ _ _ (spec_polling _ _ _ Hs)). done.
  - rewrite (prop_jget _ _ _ (spec_vertex_key_type _ _ _ Hs)). case_match; [apply or_else_idemp|done].
  - rewrite (prop_jget _ _ _ (spec_aws _ _ _ Hs)). case_match; [apply or_else_idemp|done].
  - rewrite (prop_jget _ _ _ (spec_azure _ _ _ Hs)). destruct (f_type f =? 3); [|done]. cbn [andb].
    unfold or_else. destruct (truthy (f_azure_responses_version f)) eqn:E; cbn; [by rewrite E|done].
  - pose proof (spec_vertex_project _ _ _ Hs) as Hv. destruct (f_type f =? 41).
    + destruct (is_lit _ _); [|by rewrite (prop_jget _ _ _ Hv)]. destruct Hv as (id & Hid & Hv). exists id.
      split; [done|]. rewrite (prop_jget _ _ _ Hv). by destruct id.
    + rewrite (prop_jget _ _ _ Hv). by destruct (jhas _ _).
  - pose proof (spec_upstream _ _ _ Hs) as Hu. destruct (set_has _ MODEL_FETCHABLE_TYPES).
    + destruct Hu as (H1 & H2 & H3 & _). rewrite (prop_jget _ _ _ H1), (prop_jget _ _ _ H2), (prop_jget _ _ _ H3).
      split_and!; [done|done|]. apply to_string_texts.
    + assert (∀ k, k ∈ upstream_keys → prop k (JObj ps') = prop k (JObj ps)) as Hk.
      { intros k Hk. unfold prop. by rewrite Hu. }
      cbn [before type_settings_of t_upstreamModelUpdateCheckEnabled t_upstreamModelUpdateAutoSyncEnabled
        t_upstreamModelUpdateIgnoredModels]. by rewrite !Hk by (unfold upstream_keys; set_solver).
  - pose proof (spec_advanced _ _ _ Hs) as Ha. destruct (f_type f =? CHANNEL_TYPE_ADVANCED_CUSTOM);
      [|by rewrite (prop_jget _ _ _ Ha)].
    destruct (parseAdvancedCustomConfig (f_advanced_custom f)) as [c|] eqn:Hc; [|by rewrite (prop_jget _ _ _ Ha)].
    rewrite (prop_jget _ _ _ Ha). destruct (parsed_config_normal _ _ Hc) as [[routes Hr] Hn]. cbn [default id].
    destruct (roundtrip_text c c (printable_advanced _ Hf c Hc) Hn) as (text & Htext & Hp).
    rewrite Htext. cbn [recover]. subst c. exact Hp.
Qed.

(** C8: what a save writes into the settings, the next form of the channel shows: the
    flags, key types, versions, project identifier, upstream settings and advanced routes
    of the channel type come back as they were saved.  Of the settings of other types, the
    flags, key types, versions and advanced routes come back as their defaults; the upstream
    settings of a type that cannot fetch models, and a project identifier that was stored
    without a key type, come back as they were stored before the save.  For settings that
    were an object, and texts that survive their JSON. *)
Theorem settings_reopen f ps text :
  form_printable f → existing_settings f = JObj ps → json_ok (JObj ps) = true → buildSettingsJSON f = Ok text →
  reopened f ps (read_type_settings (f_type f) text).
Proof.
  intros Hf He Hp. unfold buildSettingsJSON. rewrite He.
  destruct (settings_steps f ps) as [ps'|] eqn:E; [|done]. cbn [mbind res_bind]. intros [= <-].
  pose proof (steps_ok f ps ps' Hf Hp E) as Ho. apply steps_spec in E.
  assert (read_type_settings (f_type f) (JSON_stringify 0 (JObj ps')) = type_settings_of (f_type f) (JObj ps')) as ->;
    [|by eapply reopened_spec].
  unfold read_type_settings. destruct (stringify_obj_cons 0 ps') as [s Es]. rewrite Es.
  rewrite <- Es, JSON_parse_stringify by done. done.
Qed.

(** The six extra settings come back as they were saved, the proxy without blanks at
    its ends. *)
Theorem extra_settings_reopen f text :
  Forall (λ v, v = JUndef ∨ json_ok v = true)
    [f_force_format f; f_thinking_to_content f; f_proxy f; f_pass_through_body_enabled f; f_system_prompt f;
     f_system_prompt_override f] →
  buildSettingJSON f = Ok text →
  ∃ proxy, trimmed_or_empty (f_proxy f) = Ok proxy ∧
    read_extra_settings (Some text) =
    {| x_force_format := or_else (f_force_format f) (JBool false);
       x_thinking_to_content := or_else (f_thinking_to_content f) (JBool false);
       x_proxy := JStr proxy;
       x_pass_through_body_enabled := or_else (f_pass_through_body_enabled f) (JBool false);
       x_system_prompt := or_else (f_system_prompt f) (JStr []);
       x_system_prompt_override := or_else (f_system_prompt_override f) (JBool false) |}.
Proof.
  rewrite !Forall_cons, Forall_nil. intros (H1 & H2 & H3 & H4 & H5 & H6 & _). unfold buildSettingJSON.
  destruct (trimmed_or_empty (f_proxy f)) as [proxy|] eqn:Ep; [|done]. cbn [mbind res_bind]. intros [= <-].
  exists proxy. split; [done|]. pose proof (trimmed_ok _ _ H3 Ep) as Hp. set (ps := [_; _; _; _; _; _]).
  assert (json_ok (JObj ps) = true) as Ho.
  { apply obj_ok_iff. split; [|apply members_ok_named; in_list].
    subst ps. rewrite !Forall_cons, Forall_nil. unfold member_ok. cbn [fst snd].
    split_and!; try done; apply andb_true_iff; (split; [done|]); by apply or_else_ok. }
  unfold read_extra_settings. destruct (stringify_obj_cons 0 ps) as [s Es]. rewrite Es.
  rewrite <- Es, JSON_parse_stringify by done. subst ps. unfold extra_settings_of.
  change (get_prop _ (JObj _)) with (Ok (E:=js_error) (or_else (f_force_format f) (JBool false))).
  cbn [mbind res_bind recover].
  assert (or_else (JStr proxy) (JStr []) = JStr proxy) as Hproxy by (by destruct proxy).
  transitivity {| x_force_format := or_else (or_else (f_force_format f) (JBool false)) (JBool false);
       x_thinking_to_content := or_else (or_else (f_thinking_to_content f) (JBool false)) (JBool false);
       x_proxy := or_else (JStr proxy) (JStr []);
       x_pass_through_body_enabled := or_else (or_else (f_pass_through_body_enabled f) (JBool false)) (JBool false);
       x_system_prompt := or_else (or_else (f_system_prompt f) (JStr [])) (JStr []);
       x_system_prompt_override := or_else (or_else (f_system_prompt_override f) (JBool false)) (JBool false) |};
    [reflexivity|]. by rewrite !or_else_idemp, Hproxy.
Qed.

(** ** Payloads *)
Lemma jget_nullify q ps :
  jget q (nullify ps) = (λ v, if is_lit v "" then JNull else v) <$> jget q ps.
Proof. induction ps as [|[k v] ps IH]; [done|]. cbn [nullify fmap list_fmap fst snd jget] in *. by case_decide. Qed.

Lemma secret_frame k q x ps : q ≠ js k → jget q (with_secret k x ps) = jget q ps.
Proof. intros Hq. unfold with_secret. case_match; [|done]. by rewrite jget_put, decide_False by congruence. Qed.

(** The fields an update can clear, with the texts it sends. *)
Definition clearable (f : ChannelFormValues) : list (string * jsstring) := [
  ("base_url"%string, normalizeBaseUrl (f_base_url f));
  ("openai_organization"%string, text_or (f_openai_organization f) []);
  ("test_model"%string, text_or (f_test_model f) []);
  ("tag"%string, text_or (f_tag f) []);
  ("remark"%string, text_or (f_remark f) []);
  ("model_mapping"%string, text_or (f_model_mapping f) []);
  ("status_code_mapping"%string, text_or (f_status_code_mapping f) []);
  ("param_override"%string, text_or (f_param_override f) []);
  ("header_override"%string, text_or (f_header_override f) []) ].

Definition clearable_keys : list string :=
  ["base_url"; "openai_organization"; "test_model"; "tag"; "remark"; "model_mapping"; "status_code_mapping";
   "param_override"; "header_override"]%string.

Lemma cleared_frame f q ps : q ∉ js <$> clearable_keys → jget q (put_cleared f ps) = jget q ps.
Proof.
  unfold clearable_keys. rewrite !fmap_cons, !not_elem_of_cons. intros (? & ? & ? & ? & ? & ? & ? & ? & ? & _).
  unfold put_cleared. by rewrite !jget_put, !decide_False by congruence.
Qed.

Lemma cleared_written f ps k t : (k, t) ∈ clearable f → jget (js k) (put_cleared f ps) = Some (JStr t).
Proof.
  unfold clearable. rewrite !elem_of_cons, elem_of_nil. unfold put_cleared.
  intros [[= -> ->]|[[= -> ->]|[[= -> ->]|[[= -> ->]|[[= -> ->]|[[= -> ->]|[[= -> ->]|[[= -> ->]|[[= -> ->]|[]]]]]]]]]];
    by decide_keys.
Qed.

(** An update sends the nine fields that can be cleared as texts, empty when they are
    to be cleared, and no other field as an empty text; it sends the key only when one was
    entered, and never the status. *)
Theorem update_payload f id p :
  transformFormDataToUpdatePayload f id = Ok p →
  (∀ k t, (k, t) ∈ clearable f → jget (js k) p = Some (JStr t)) ∧
  (∀ k, jget k p = Some (JStr []) → k ∈ js <$> (clearable f).*1) ∧
  jget (js "key") p = (if filled (Some (f_key f)) then Some (JStr (f_key f)) else None) ∧
  jget (js "status") p = None.
Proof.
  unfold transformFormDataToUpdatePayload. destruct (buildSettingJSON f) as [setting|]; [|done]. cbn [mbind res_bind].
  destruct (buildSettingsJSON f) as [settings|]; [|done]. cbn [mbind res_bind]. cbv zeta.
  set (base := _ :: _). intros [= <-]. split_and!.
  - intros k t Hin. by apply cleared_written.
  - intros k. change ((clearable f).*1) with clearable_keys.
    destruct (decide (k ∈ js <$> clearable_keys)) as [?|Hk]; [done|]. rewrite cleared_frame, jget_nullify by done.
    destruct (jget k _) as [v|]; [|done]. cbn. destruct (is_lit v "") eqn:E; [done|]. intros [= ->]. done.
  - rewrite cleared_frame by in_list. rewrite jget_nullify, !secret_frame by done.
    assert (jget (js "key") base = None) as Hb by reflexivity.
    destruct (filled (Some (f_key f))) eqn:E; [|by rewrite Hb]. rewrite jget_put, decide_True by done. cbn.
    destruct (f_key f); [done|]. done.
  - rewrite cleared_frame by in_list. rewrite jget_nullify, !secret_frame by done.
    assert (jget (js "status") base = None) as Hb by reflexivity.
    destruct (filled (Some (f_key f))); [rewrite jget_put, decide_False by done|]; by rewrite Hb.
Qed.

(** A creation sends no empty text; the key mode is only sent for several keys in one
    channel, the name prefix only for one channel per key. *)
Theorem create_payload f p :
  transformFormDataToCreatePayload f = Ok p →
  Forall (λ e, e.2 ≠ JStr []) (p_channel p) ∧
  jget (js "key") (p_channel p) = Some (text_or_null (f_key f)) ∧
  jget (js "base_url") (p_channel p) = Some (text_or_null (normalizeBaseUrl (f_base_url f))) ∧
  (p_multi_key_mode p ≠ None → p_mode p = js "multi_to_single") ∧
  (p_batch_add_set_key_prefix_2_name p ≠ None → p_mode p = js "batch").
Proof.
  unfold transformFormDataToCreatePayload. destruct (buildSettingJSON f) as [setting|]; [|done]. cbn [mbind res_bind].
  destruct (buildSettingsJSON f) as [settings|]; [|done]. cbn [mbind res_bind]. cbv zeta.
  set (base := _ :: _). intros [= <-]. cbn [p_channel p_multi_key_mode p_mode p_batch_add_set_key_prefix_2_name].
  split_and!.
  - unfold nullify. apply Forall_fmap, Forall_true. intros [k v]. cbn. destruct (is_lit v "") eqn:E; [done|].
    intros ->. done.
  - rewrite jget_nullify, !secret_frame by done. change (jget (js "key") base) with (Some (JStr (f_key f))).
    by destruct (f_key f).
  - rewrite jget_nullify, !secret_frame by done.
    change (jget (js "base_url") base) with (Some (text_or_null (normalizeBaseUrl (f_base_url f)))).
    by destruct (normalizeBaseUrl (f_base_url f)).
  - by case_bool_decide.
  - by case_bool_decide.
Qed.

(** ** The rules across fields *)
Section rules.
Context `{UrlParser}.

(** What the form needs to be accepted, by channel type. *)
Record form_accepted (f : ChannelFormValues) : Prop := {
  acc_base_url : f_type f ∈ [3; 8; 36; 45] → filled (f_base_url f) = true;
  acc_advanced : f_type f = CHANNEL_TYPE_ADVANCED_CUSTOM → ∃ c relative,
    parseAdvancedCustomConfig (f_advanced_custom f) = Some c ∧ validateAdvancedCustomConfig (Some c) = Ok None ∧
    advancedCustomConfigUsesRelativeUpstreamPath (Some c) = Ok relative ∧
    (relative = true → filled (f_base_url f) = true) ∧
    (f_upstream_model_update_check_enabled f = Some true → hasValidAdvancedCustomModelListRoute (Some c) = Ok true);
  acc_other : f_type f ∈ [3; 18; 21; 39; 41; 49] → filled (f_other f) = true;
  acc_codex : f_type f = 57 → multi_key_on f = false ∧
    (filled (Some (f_key f)) = true → isCodexCredential (Some (f_key f)) = true);
  acc_agent_plan : f_type f = CHANNEL_TYPE_VOLCENGINE_AGENT_PLAN → multi_key_on f = false;
  acc_vertex_json : f_type f = 41 → f_vertex_key_type f = JStr (js "json") →
    filled (Some (f_key f)) = true → isVertexJsonKey (Some (f_key f)) = true;
  acc_vertex_api_key : f_type f = 41 → f_vertex_key_type f = JStr (js "api_key") →
    multi_key_on f = false ∧ is_filled (f_vertex_project_id f)
}.

Lemma when_issue_nil b path m : when_issue b path m = [] ↔ b = false.
Proof. by destruct b. Qed.

Lemma advanced_issues_nil f :
  advanced_issues f = Ok [] ↔ ∃ c relative,
    parseAdvancedCustomConfig (f_advanced_custom f) = Some c ∧ validateAdvancedCustomConfig (Some c) = Ok None ∧
    advancedCustomConfigUsesRelativeUpstreamPath (Some c) = Ok relative ∧
    (relative = true → filled (f_base_url f) = true) ∧
    (f_upstream_model_update_check_enabled f = Some true → hasValidAdvancedCustomModelListRoute (Some c) = Ok true).
Proof.
  unfold advanced_issues. destruct (parseAdvancedCustomConfig _) as [c|].
  2: { split; [cbn [validateAdvancedCustomConfig advancedCustomConfigUsesRelativeUpstreamPath mbind res_bind];
         destruct (if bool_decide _ then _ else _); cbn [mbind res_bind app]; intros [=]|]. by intros (? & ? & [=] & _). }
  destruct (validateAdvancedCustomConfig (Some c)) as [[e|]|] eqn:Ev; cbn [mbind res_bind].
  2: destruct (advancedCustomConfigUsesRelativeUpstreamPath (Some c)) as [relative|] eqn:Er; cbn [mbind res_bind].
  - split; [|intros (? & ? & [= <-] & Hv & _); congruence].
    destruct (advancedCustomConfigUsesRelativeUpstreamPath (Some c)); [|done]. cbn [mbind res_bind].
    destruct (if bool_decide _ then _ else _); cbn [mbind res_bind app]; intros [=].
  - destruct (hasValidAdvancedCustomModelListRoute (Some c)) as [listed|] eqn:El.
    + split.
      * intros Hi. exists c, relative. split_and!; [done|done|done| |].
        -- intros ->. destruct (filled _); [done|]. exfalso. revert Hi. case_bool_decide; by cbn.
        -- intros Hb. rewrite bool_decide_eq_true_2 in Hi by done. cbn in Hi. destruct listed; [done|].
           exfalso. revert Hi. destruct (relative && _); by cbn.
      * intros (c' & relative' & [= <-] & _ & Er' & Hr & Hl). rewrite Er in Er'. injection Er' as <-.
        assert (relative && negb (filled (f_base_url f)) = false) as -> by (destruct relative; [by rewrite Hr|done]).
        case_bool_decide as Hb; cbn; [|done]. apply Hl in Hb. rewrite El in Hb. by injection Hb as ->.
    + case_bool_decide as Hb; cbn [mbind res_bind].
      * split; [done|]. intros (? & ? & [= <-] & _ & _ & _ & Hl). apply Hl in Hb. by rewrite El in Hb.
      * split.
        -- intros Hi. exists c, relative. split_and!; [done|done|done| |done].
           intros ->. by destruct (filled (f_base_url f)).
        -- intros (c' & relative' & [= <-] & _ & Er' & Hr & _). rewrite Er in Er'. injection Er' as <-.
           destruct relative; [by rewrite Hr|done].
  - split; [done|]. intros (? & ? & [= <-] & _ & Hr & _). congruence.
  - split; [done|]. intros (? & ? & [= <-] & Hv & _). congruence.
Qed.

Lemma vertex_issues_nil f :
  vertex_issues f = Ok [] ↔
  (f_vertex_key_type f = JStr (js "json") → filled (Some (f_key f)) = true → isVertexJsonKey (Some (f_key f)) = true) ∧
  (f_vertex_key_type f = JStr (js "api_key") → multi_key_on f = false ∧ is_filled (f_vertex_project_id f)).
Proof.
  unfold vertex_issues. rewrite <- filled_trim, <- !is_lit_spec.
  destruct (is_lit _ "api_key") eqn:Ea.
  - assert (is_lit (f_vertex_key_type f) "json" = false) as ->.
    { apply is_lit_spec in Ea. by rewrite Ea. }
    destruct (trimmed_or_empty _) as [id|]; cbn [mbind res_bind andb app when_issue].
    + split.
      * intros Hi. split; [done|]. intros _. case_bool_decide as Hid; [by destruct (multi_key_on f)|].
        split; [by destruct (multi_key_on f)|by exists id].
      * intros [_ Hk]. destruct (Hk eq_refl) as [-> (id' & [= <-] & Hid)]. by rewrite bool_decide_eq_false_2.
    + split; [done|]. intros [_ Hk]. by destruct (Hk eq_refl) as [_ (? & [=] & _)].
  - cbn [mbind res_bind andb app when_issue]. rewrite app_nil_r.
    destruct (is_lit _ "json"); cbn [andb]; [|by cbn].
    destruct (filled _), (isVertexJsonKey _); cbn; naive_solver.
Qed.

Lemma all_issues_nil (A V : res js_error (list issue)) l1 l2 l3 l4 :
  (a ← A; v ← V; Ok (l1 ++ a ++ l2 ++ l3 ++ l4 ++ v)) = Ok [] ↔
  l1 = [] ∧ A = Ok [] ∧ l2 = [] ∧ l3 = [] ∧ l4 = [] ∧ V = Ok [].
Proof.
  destruct A as [a|]; cbn [mbind res_bind]; [|naive_solver]. destruct V as [v|]; cbn [mbind res_bind]; [|naive_solver].
  split.
  - intros [= H1%app_nil]. rewrite !app_nil in H1. naive_solver.
  - by intros (-> & [= ->] & -> & -> & -> & [= ->]).
Qed.

(** The rules across fields add no issue exactly for the forms that have what their
    channel type needs: a base URL, valid advanced routes, extra configuration, a Codex
    credential, a Vertex key and project, and one key at a time where batches are not
    supported. *)
Theorem form_issues_exact f : channelFormIssues f = Ok [] ↔ form_accepted f.
Proof.
  unfold channelFormIssues. rewrite all_issues_nil, !when_issue_nil.
  assert (∀ b path, (b = true → filled path = true) ↔ b && negb (filled path) = false) as Hreq
    by (intros [] path; destruct (filled path); naive_solver).
  assert ((if f_type f =? CHANNEL_TYPE_ADVANCED_CUSTOM then advanced_issues f else Ok []) = Ok [] ↔
    (f_type f = CHANNEL_TYPE_ADVANCED_CUSTOM → advanced_issues f = Ok [])) as ->
    by (destruct (Z.eqb_spec (f_type f) CHANNEL_TYPE_ADVANCED_CUSTOM); naive_solver).
  assert ((if f_type f =? 41 then vertex_issues f else Ok []) = Ok [] ↔ (f_type f = 41 → vertex_issues f = Ok [])) as ->
    by (destruct (Z.eqb_spec (f_type f) 41); naive_solver).
  assert ((if f_type f =? 57 then codex_issues f else []) = [] ↔ (f_type f = 57 → multi_key_on f = false ∧
    (filled (Some (f_key f)) = true → isCodexCredential (Some (f_key f)) = true))) as ->.
  { destruct (Z.eqb_spec (f_type f) 57); [|naive_solver]. unfold codex_issues.
    destruct (multi_key_on f), (filled (Some (f_key f))), (isCodexCredential _); cbn; naive_solver. }
  rewrite advanced_issues_nil, vertex_issues_nil, <- !Hreq, !set_has_spec.
  rewrite andb_false_iff, Z.eqb_neq. split.
  - intros (Hb & Hadv & Ho & Hc & Hp & Hv). split; try done; [|naive_solver|naive_solver].
    intros Ht. by destruct Hp.
  - intros [Hb Hadv Ho Hc Hp Hj Hk]. split_and!; try done; [|naive_solver].
    destruct (decide (f_type f = CHANNEL_TYPE_VOLCENGINE_AGENT_PLAN)); auto.
Qed.
End rules.

(** The form of an advanced custom channel with a given text of routes. *)
Definition advanced_form (text : jsstring) (settings : jsstring) (check : bool) : ChannelFormValues :=
  let d := CHANNEL_FORM_DEFAULT_VALUES in {|
  f_name := js "routes"; f_type := CHANNEL_TYPE_ADVANCED_CUSTOM; f_base_url := Some (js "https://api.example.com/ ");
  f_key := js "sk-1"; f_openai_organization := None; f_models := js "m"; f_group := f_group d;
  f_model_mapping := None; f_priority := None; f_weight := f_weight d; f_test_model := None; f_auto_ban := None;
  f_status := f_status d; f_status_code_mapping := None; f_tag := Some (js "t"); f_remark := None;
  f_setting := None; f_param_override := None; f_header_override := None; f_settings := Some settings;
  f_advanced_custom := Some text; f_other := None; f_agent_plan_access_key := None; f_agent_plan_secret_key := None;
  f_multi_key_mode := f_multi_key_mode d; f_multi_key_type := f_multi_key_type d;
  f_batch_add_set_key_prefix_2_name := None; f_key_mode := None;
  f_force_format := JBool true; f_thinking_to_content := JUndef; f_proxy := JStr (js " http://p:1 ");
  f_pass_through_body_enabled := JUndef; f_system_prompt := JUndef; f_system_prompt_override := JUndef;
  f_is_enterprise_account := None; f_vertex_key_type := JUndef; f_vertex_project_id := JUndef;
  f_aws_key_type := JUndef; f_azure_responses_version := JUndef; f_allow_service_tier := Some true;
  f_disable_store := None; f_allow_safety_identifier := None; f_allow_include_obfuscation := None;
  f_allow_inference_geo := None; f_allow_speed := None; f_claude_beta_query := None;
  f_disable_task_polling_sleep := Some true; f_upstream_model_update_check_enabled := Some check;
  f_upstream_model_update_auto_sync_enabled := Some true;
  f_upstream_model_update_ignored_models := Some (js "a, b,a"); f_agent_plan_usage_enabled := Some true |}.

(** Routes whose incoming path is set but no text make the check of the form throw a
    TypeError: the form neither accepts nor reports them. *)
Theorem form_check_throws `{UrlParser} f v :
  f_type f = CHANNEL_TYPE_ADVANCED_CUSTOM →
  f_advanced_custom f = Some (JSON_stringify 0 (path_config v)) →
  json_ok v = true → truthy v = true → is_string v = false →
  channelFormIssues f = Throw TypeError.
Proof.
  intros Ht Ha Hv Htr Hs. unfold channelFormIssues, advanced_issues. rewrite Ht, Z.eqb_refl, Ha.
  destruct (path_config_throws v Hv Htr Hs) as (c & -> & Hc). by rewrite Hc.
Qed.

(** ** Witnesses *)
Section form_witnesses.
#[local] Instance no_urls : UrlParser := λ _, None.

Definition sample_routes : jsstring := js "{}".
Definition sample_settings : jsstring := JSON_stringify 0 (JObj [(js "other", JBool true); (js "aws_key_type", JNull)]).
Definition sample_form : ChannelFormValues := advanced_form sample_routes sample_settings true.

Lemma settings_written_witness :
  ∃ ps', JSON_stringify 0 (JObj ps') = recover (buildSettingsJSON sample_form) [] ∧
    jget (js "other") ps' = Some (JBool true) ∧ jget (js "aws_key_type") ps' = None.
Proof.
  destruct (settings_written sample_form [(js "other", JBool true); (js "aws_key_type", JNull)]
    (recover (buildSettingsJSON sample_form) [])) as (ps' & Ht & Hs); [vm_compute; reflexivity..|].
  exists ps'. split_and!; [done| |].
  - by rewrite (spec_others _ _ _ Hs) by in_list.
  - by rewrite (spec_aws _ _ _ Hs).
Defined.

Lemma settings_reopen_witness :
  t_upstreamModelUpdateIgnoredModels (read_type_settings CHANNEL_TYPE_ADVANCED_CUSTOM
    (recover (buildSettingsJSON sample_form) [])) = js "a,b".
Proof.
  destruct (settings_reopen sample_form [(js "other", JBool true); (js "aws_key_type", JNull)]
    (recover (buildSettingsJSON sample_form) [])) as [? ? ? ? ? ? ? ? ? ? ? ? ? ? Hu _].
  - split; try (by left); [by vm_compute|]. intros c Hc. vm_compute in Hc. injection Hc as <-. by vm_compute.
  - by vm_compute.
  - by vm_compute.
  - by vm_compute.
  - exact (proj2 (proj2 Hu)).
Defined.

Lemma extra_settings_reopen_witness :
  ∃ proxy, trimmed_or_empty (f_proxy sample_form) = Ok proxy ∧
    x_proxy (read_extra_settings (Some (recover (buildSettingJSON sample_form) []))) = JStr proxy.
Proof.
  destruct (extra_settings_reopen sample_form (recover (buildSettingJSON sample_form) [])) as (proxy & Hp & Hx).
  - repeat constructor; (by left) || (by right).
  - by vm_compute.
  - exists proxy. by rewrite Hx.
Defined.

Lemma update_payload_witness :
  ∃ p, transformFormDataToUpdatePayload sample_form num0 = Ok p ∧
    jget (js "base_url") p = Some (JStr (js "https://api.example.com")) ∧ jget (js "status") p = None.
Proof.
  destruct (transformFormDataToUpdatePayload sample_form num0) as [p|] eqn:E; [|by vm_compute in E].
  exists p. destruct (update_payload sample_form num0 p E) as (Hc & _ & _ & Hs). split_and!; [done| |done].
  by apply (Hc "base_url"%string), (list_elem_of_lookup_2 _ 0).
Defined.

Lemma create_payload_witness :
  ∃ p, transformFormDataToCreatePayload sample_form = Ok p ∧ jget (js "key") (p_channel p) = Some (JStr (js "sk-1")).
Proof.
  destruct (transformFormDataToCreatePayload sample_form) as [p|] eqn:E; [|by vm_compute in E].
  exists p. destruct (create_payload sample_form p E) as (_ & Hk & _). by split.
Defined.

Lemma form_check_throws_witness :
  channelFormIssues (advanced_form (JSON_stringify 0 (path_config (JNum (num_of_Z 5)))) [] false) = Throw TypeError.
Proof. apply (form_check_throws _ (JNum (num_of_Z 5))); vm_compute; reflexivity. Defined.
End form_witnesses.
