(* ===== verification/ChannelUtils.v ===== *)
(** Channel helpers (web/src/features/channels/lib/channel-utils.ts): labels, key masking,
    lists in texts, attention, the rows of channels grouped by tag, and the deduplication
    of keys.

    [Map] values are objects that the result array shares; the model keeps one list of rows
    by tag, whose order is that of both.  Numbers are binary64 with the arithmetic of
    [SpecFloat]. *)
From S2P Require Import Prelude JsString JsValue Json JsPrint JsDynamic Channels.
Local Open Scope Z_scope.

Definition num_add (x y : jsnum) : jsnum := SFadd 53 1024 x y.
Definition num_mul (x y : jsnum) : jsnum := SFmul 53 1024 x y.
Definition num_div (x y : jsnum) : jsnum := SFdiv 53 1024 x y.

(** ** Labels *)
Definition getChannelTypeLabel (type : Z) : jsstring := default (js "Unknown") (jget type CHANNEL_TYPES).

Definition TYPE_TO_ICON : list (Z * jsstring) := [
  (1, js "OpenAI"); (6, js "OpenAI"); (7, js "OpenAI"); (8, js "OpenAI"); (58, js "TheOne"); (3, js "Azure");
  (14, js "Claude");
  (24, js "Gemini"); (11, js "Google"); (41, js "Gemini");
  (33, js "Aws"); (39, js "Cloudflare");
  (15, js "Baidu"); (46, js "Baidu"); (16, js "Zhipu"); (26, js "Zhipu"); (17, js "Qwen"); (18, js "Spark");
  (23, js "Hunyuan"); (19, js "Ai360"); (25, js "Moonshot"); (31, js "Yi"); (35, js "Minimax");
  (45, js "Volcengine"); (60, js "Volcengine");
  (4, js "Ollama"); (27, js "Perplexity"); (34, js "Cohere"); (42, js "Mistral"); (43, js "DeepSeek");
  (48, js "XAI"); (49, js "Coze"); (40, js "SiliconCloud"); (44, js "OpenAI"); (20, js "OpenRouter");
  (2, js "Midjourney"); (5, js "Midjourney"); (50, js "Kling"); (51, js "Jimeng"); (52, js "Vidu"); (36, js "Suno");
  (55, js "OpenAI"); (54, js "Doubao"); (59, js "Doubao"); (56, js "Replicate");
  (37, js "Dify"); (38, js "Jina"); (22, js "FastGPT"); (47, js "Xinference"); (53, js "OpenAI");
  (10, js "OpenAI"); (21, js "OpenAI"); (12, js "OpenAI"); (13, js "OpenAI"); (9, js "OpenAI") ].

Definition getChannelTypeIcon (type : Z) : jsstring := default (js "OpenAI") (jget type TYPE_TO_ICON).

Definition getChannelStatusBadge (status : Z) : jsstring * jsstring :=
  match jget status CHANNEL_STATUS_CONFIG with
  | Some b => b
  | None => (js "neutral", js "Unknown")
  end.

Definition getMultiKeyStatusBadge (status : Z) : jsstring * jsstring :=
  match jget status MULTI_KEY_STATUS_CONFIG with
  | Some b => b
  | None => (js "success", js "Enabled")
  end.

Definition isChannelEnabled (channel : Channel) : bool := is_num_lit (c_status channel) 1.
Definition isMultiKeyChannel (channel : Channel) : bool := is_multi_key (c_channel_info channel).

(** ** Keys *)
Definition nonblank_lines (key : jsstring) : list jsstring := filter (λ k, trim k ≠ []) (split_on 10 key).

(** [s.slice(-n)]. *)
Definition slice_end (n : nat) (s : jsstring) : jsstring := drop (length s - n) s.

Definition formatChannelKey (key : jsstring) (isMultiKey : bool) : jsstring :=
  match key with
  | [] => []
  | _ =>
      if isMultiKey then show_N (N.of_nat (length (nonblank_lines key))) ++ js " keys"
      else if (length key <=? 16)%nat then take 4 key ++ js "..." ++ slice_end 4 key
      else take 8 key ++ js "..." ++ slice_end 8 key
  end.

Definition formatKeyPreview (key : jsstring) (maxLength : nat) : jsstring :=
  match key with
  | [] => []
  | _ => if (length key <=? maxLength)%nat then key else take maxLength key ++ js "..."
  end.

Definition countKeys (key : jsstring) : nat :=
  match key with [] => 0%nat | _ => length (nonblank_lines key) end.

(** ** Lists in texts *)
Definition parseModelsList (models : jsstring) : list jsstring :=
  match models with [] => [] | _ => filter (λ m, m ≠ []) (trim <$> split_on 44 models) end.

(** The comparison of the sort; [localeCompare] is that of the browser. *)
Definition group_compare (localeCompare : jsstring → jsstring → Z) (a b : jsstring) : Z :=
  if bool_decide (a = js "default") then -1
  else if bool_decide (b = js "default") then 1
  else localeCompare a b.

Definition parseGroupsList (localeCompare : jsstring → jsstring → Z) (groups : jsstring) : list jsstring :=
  match groups with
  | [] => []
  | _ => js_sort (group_compare localeCompare) (filter (λ g, g ≠ []) (trim <$> split_on 44 groups))
  end.

Definition formatModelsString (models : list jsstring) : jsstring := join (js ",") models.
Definition formatGroupsString (groups : list jsstring) : jsstring := join (js ",") groups.

(** ** Settings *)
Definition parseChannelSettings (settingStr : option jsstring) : jsval :=
  match settingStr with
  | None | Some [] => JObj []
  | Some text => default (JObj []) (JSON_parse text)
  end.

Definition parseChannelOtherSettings (settingsStr : option jsstring) : jsval :=
  match settingsStr with
  | None | Some [] => JObj []
  | Some text => if bool_decide (text = js "{}") then JObj [] else default (JObj []) (JSON_parse text)
  end.

Definition validateChannelSettings (settings : jsstring) : bool :=
  if bool_decide (trim settings = []) then true
  else match JSON_parse settings with Some _ => true | None => false end.

(** ** Ratings *)
Inductive BalanceVariant := success | warning | danger | neutral.

Definition getBalanceVariant (balance : jsnum) : BalanceVariant :=
  if num_eqb balance num0 then neutral
  else if num_ltb balance (num_of_Z 1) then danger
  else if num_ltb balance (num_of_Z 10) then warning
  else success.

Definition getResponseTimeConfig (timeMs : jsnum) : jsstring * jsstring :=
  if num_eqb timeMs num0 then RESPONSE_TIME_CONFIG UnknownTime
  else if num_leb timeMs (num_of_Z RESPONSE_TIME_EXCELLENT) then RESPONSE_TIME_CONFIG Excellent
  else if num_leb timeMs (num_of_Z RESPONSE_TIME_GOOD) then RESPONSE_TIME_CONFIG Good
  else if num_leb timeMs (num_of_Z RESPONSE_TIME_FAIR) then RESPONSE_TIME_CONFIG Fair
  else if num_leb timeMs (num_of_Z RESPONSE_TIME_POOR) then RESPONSE_TIME_CONFIG Poor
  else RESPONSE_TIME_CONFIG Poor.

Definition getPriorityDisplay (priority : option jsnum) : jsstring :=
  match priority with None => js "0" | Some x => show_num x end.

Definition getWeightDisplay (weight : option jsnum) : jsstring :=
  match weight with None => js "0" | Some x => show_num x end.

(** ** Validation and attention *)
Definition validateChannelName (name : jsstring) : bool := negb (bool_decide (trim name = [])).
Definition validateApiKey (key : jsstring) : bool := negb (bool_decide (trim key = [])).
Definition validateModels (models : jsstring) : bool := negb (bool_decide (parseModelsList models = [])).
Definition validateGroups (localeCompare : jsstring → jsstring → Z) (groups : jsstring) : bool :=
  negb (bool_decide (parseGroupsList localeCompare groups = [])).

Definition low_balance (channel : Channel) : bool :=
  num_ltb num0 (c_balance channel) && num_ltb (c_balance channel) (num_of_Z 1).

Definition all_keys_disabled (channel : Channel) : bool :=
  let info := c_channel_info channel in
  is_multi_key info &&
  match multi_key_status_list info with
  | Some l => num_leb (multi_key_size info) (num_of_Z (Z.of_nat (length l)))
  | None => false
  end.

Definition channelNeedsAttention (channel : Channel) : bool :=
  if is_num_lit (c_status channel) 3 then true
  else if low_balance channel then true
  else if all_keys_disabled channel then true
  else false.

Definition getAttentionReason (channel : Channel) : option jsstring :=
  if is_num_lit (c_status channel) 3 then Some (js "Auto-disabled")
  else if low_balance channel then Some (js "Low balance")
  else if all_keys_disabled channel then Some (js "All keys disabled")
  else None.

Definition getKeyPromptForType (type : Z) : jsstring :=
  default (js "Enter API key for this channel") (jget type TYPE_TO_KEY_PROMPT).

(** ** Rows by tag *)
Record TagRow := { row : Channel; children : list Channel }.

Definition minus_one : option jsnum := Some (num_of_Z (-1)).

(** The aggregate row a tag starts with, made of its first channel. *)
Definition new_row (tag : jsstring) (channel : Channel) : TagRow := {|
  row := {| c_id := JStr tag; c_type := 0; c_key := tag; c_openai_organization := c_openai_organization channel;
            c_test_model := c_test_model channel; c_status := JUndef; c_name := tag; c_weight := minus_one;
            c_created_time := num0; c_test_time := num0; c_response_time := num0; c_base_url := c_base_url channel;
            c_other := c_other channel; c_balance := num0; c_balance_updated_time := num0; c_models := [];
            c_group := []; c_used_quota := num0; c_model_mapping := c_model_mapping channel;
            c_status_code_mapping := c_status_code_mapping channel; c_priority := minus_one;
            c_auto_ban := c_auto_ban channel; c_other_info := c_other_info channel; c_tag := Some tag;
            c_setting := c_setting channel; c_param_override := c_param_override channel;
            c_header_override := c_header_override channel; c_remark := c_remark channel;
            c_max_input_tokens := c_max_input_tokens channel; c_channel_info := c_channel_info channel;
            c_settings := c_settings channel |};
  children := [] |}.

(** [a === b] of numbers or null. *)
Definition same_number (a b : option jsnum) : bool :=
  match a, b with
  | Some x, Some y => num_eqb x y
  | None, None => true
  | _, _ => false
  end.

(** The value of the row when it still has its start value, null when they differ. *)
Definition merge_number (row child : option jsnum) : option jsnum :=
  if same_number row minus_one then child else if same_number row child then row else None.

(** [group.split(',').filter(Boolean)]. *)
Definition group_names (g : jsstring) : list jsstring := filter (λ x, x ≠ []) (split_on 44 g).

Definition merge_group (rowGroup childGroup : jsstring) : jsstring :=
  match rowGroup with
  | [] => childGroup
  | _ =>
      let existingGroups := set_of (group_names rowGroup) in
      foldl (λ acc g, if set_has g existingGroups then acc else acc ++ js "," ++ g) rowGroup (group_names childGroup)
  end.

Definition merge_status (row child : jsval) : jsval :=
  if is_num_lit child 1 then JNum (num_of_Z 1) else if is_undef row then child else row.

(** A channel joins the row of its tag. *)
Definition add_child (r : TagRow) (channel : Channel) : TagRow :=
  let children' := children r ++ [channel] in
  let childCount := num_of_Z (Z.of_nat (length children')) in
  let o := row r in {|
  row := {| c_id := c_id o; c_type := c_type o; c_key := c_key o; c_openai_organization := c_openai_organization o;
            c_test_model := c_test_model o; c_status := merge_status (c_status o) (c_status channel); c_name := c_name o;
            c_weight := merge_number (c_weight o) (c_weight channel); c_created_time := c_created_time o;
            c_test_time := c_test_time o;
            c_response_time :=
              num_div (num_add (num_mul (c_response_time o) (num_of_Z (Z.of_nat (length children') - 1)))
                               (c_response_time channel)) childCount;
            c_base_url := c_base_url o; c_other := c_other o; c_balance := c_balance o;
            c_balance_updated_time := c_balance_updated_time o; c_models := c_models o;
            c_group := merge_group (c_group o) (c_group channel);
            c_used_quota := num_add (c_used_quota o) (c_used_quota channel);
            c_model_mapping := c_model_mapping o; c_status_code_mapping := c_status_code_mapping o;
            c_priority := merge_number (c_priority o) (c_priority channel); c_auto_ban := c_auto_ban o;
            c_other_info := c_other_info o; c_tag := c_tag o; c_setting := c_setting o;
            c_param_override := c_param_override o; c_header_override := c_header_override o; c_remark := c_remark o;
            c_max_input_tokens := c_max_input_tokens o; c_channel_info := c_channel_info o; c_settings := c_settings o |};
  children := children' |}.

Definition tag_of (channel : Channel) : jsstring := default [] (c_tag channel).

(** One turn of the loop over the channels. *)
Definition aggregate_step (rows : list (jsstring * TagRow)) (channel : Channel) : list (jsstring * TagRow) :=
  let tag := tag_of channel in
  jset tag (add_child (default (new_row tag channel) (jget tag rows)) channel) rows.

Definition aggregateChannelsByTag (channels : list Channel) : list TagRow :=
  jvalues (foldl aggregate_step [] channels).

(** ** Deduplication of keys *)
Record Dedup := { deduplicatedText : jsstring; beforeCount : nat; afterCount : nat; removedCount : nat }.

Definition deduplicateKeys (keysText : jsstring) : Dedup :=
  if bool_decide (trim keysText = []) then
    {| deduplicatedText := []; beforeCount := 0; afterCount := 0; removedCount := 0 |}
  else
    let keyLines := split_on 10 keysText in
    let deduplicatedKeys :=
      foldl (λ keys line, let trimmedLine := trim line in
               if negb (bool_decide (trimmedLine = [])) && negb (set_has trimmedLine keys)
               then keys ++ [trimmedLine] else keys) [] keyLines in
    {| deduplicatedText := join [10%N] deduplicatedKeys; beforeCount := length keyLines;
       afterCount := length deduplicatedKeys; removedCount := length keyLines - length deduplicatedKeys |}.

(** ** Grouping by tag *)

(** The row of a tag whose channels are [l]. *)
Definition row_of (tag : jsstring) (l : list Channel) : option TagRow :=
  match l with [] => None | c :: _ => Some (foldl add_child (new_row tag c) l) end.

Definition with_tag (tag : jsstring) (cs : list Channel) : list Channel := filter (λ c, tag_of c = tag) cs.

Definition grouped (cs : list Channel) : list (jsstring * TagRow) :=
  omap (λ t, r ← row_of t (with_tag t cs); Some (t, r)) (set_of (tag_of <$> cs)).

Lemma with_tag_app t cs c :
  with_tag t (cs ++ [c]) = with_tag t cs ++ (if decide (tag_of c = t) then [c] else []).
Proof. unfold with_tag. by rewrite filter_app, filter_cons, filter_nil. Qed.

Lemma with_tag_nil t cs : with_tag t cs = [] ↔ t ∉ tag_of <$> cs.
Proof.
  split.
  - intros H (c & -> & Hc)%list_elem_of_fmap. assert (c ∈ with_tag (tag_of c) cs) as Hin by by apply list_elem_of_filter.
    rewrite H in Hin. by apply elem_of_nil in Hin.
  - intros H. destruct (with_tag t cs) as [|c l] eqn:E; [done|]. exfalso.
    assert (c ∈ with_tag t cs) as [<- Hc]%list_elem_of_filter by (rewrite E; by left).
    apply H. by apply list_elem_of_fmap_2.
Qed.

Lemma row_of_app t l c :
  row_of t (l ++ [c]) = Some (add_child (default (new_row t c) (row_of t l)) c).
Proof.
  destruct l as [|d l]; [done|]. change (Some (foldl add_child (new_row t d) ((d :: l) ++ [c])) =
    Some (add_child (foldl add_child (new_row t d) (d :: l)) c)). by rewrite foldl_app.
Qed.

Lemma jget_omap_keys (h : jsstring → option TagRow) ts t :
  t ∈ ts → jget t (omap (λ t, r ← h t; Some (t, r)) ts) = h t.
Proof.
  induction ts as [|u ts IH]; [by intros ?%elem_of_nil|]. intros [->|Ht]%elem_of_cons; cbn [omap list_omap].
  - destruct (h u) as [r|] eqn:E; cbn; [by rewrite decide_True|].
    destruct (decide (u ∈ ts)); [by rewrite IH|]. apply jget_None. intros (p & -> & Hp)%list_elem_of_fmap.
    apply list_elem_of_omap in Hp as (x & Hx & Hh). destruct (h x); [|done]. cbn in Hh. injection Hh as <-. done.
  - destruct (h u) as [r|] eqn:E; cbn; [|by apply IH]. case_decide; [by subst|by apply IH].
Qed.

Lemma omap_ext_in {A B} (g g' : A → option B) (l : list A) : (∀ x, x ∈ l → g x = g' x) → omap g l = omap g' l.
Proof.
  intros H. induction l as [|x l IH]; [done|]. cbn [omap list_omap]. rewrite (H x) by by left.
  rewrite IH; [done|]. intros y Hy. apply H. by right.
Qed.

(** Setting the row of one tag among rows given by a function of the tag. *)
Lemma jset_omap_keys (h h' : jsstring → option TagRow) ts t r :
  NoDup ts → h' t = Some r → (∀ u, u ∈ ts → is_Some (h u)) → (∀ u, u ≠ t → h' u = h u) →
  jset t r (omap (λ t, r ← h t; Some (t, r)) ts) = omap (λ t, r ← h' t; Some (t, r)) (set_add t ts).
Proof.
  intros Hd Ht Hs Hne. unfold set_add. destruct (set_has t ts) eqn:E.
  - apply set_has_spec in E. induction ts as [|u ts IH]; [by apply elem_of_nil in E|].
    apply NoDup_cons in Hd as [Hu Hd]. destruct (Hs u) as [x Hx]; [by left|]. cbn [omap list_omap].
    rewrite Hx. cbn [mbind option_bind jset]. case_decide as Hut.
    + subst u. rewrite Ht. cbn. f_equal. apply omap_ext_in. intros v Hv. rewrite Hne; [done|]. by intros ->.
    + rewrite Hne, Hx by done. cbn. f_equal. apply IH; [done|set_solver|set_solver].
  - apply set_has_false in E. rewrite omap_app. cbn [omap list_omap]. rewrite Ht. cbn [mbind option_bind].
    induction ts as [|u ts IH]; [done|]. apply not_elem_of_cons in E as [Eu E].
    destruct (Hs u) as [x Hx]; [by left|]. cbn [omap list_omap]. rewrite Hx, Hne, Hx by done.
    cbn [mbind option_bind jset app]. rewrite decide_False by done. f_equal.
    apply NoDup_cons in Hd as [_ Hd]. apply IH; [done|set_solver|done].
Qed.

Lemma aggregate_grouped cs : foldl aggregate_step [] cs = grouped cs.
Proof.
  induction cs as [|c cs IH] using rev_ind; [done|]. rewrite foldl_app. cbn [foldl]. rewrite IH.
  unfold aggregate_step, grouped. rewrite fmap_app. cbn [fmap list_fmap]. unfold set_of. rewrite foldl_app. cbn [foldl].
  fold (set_of (tag_of <$> cs)).
  assert (jget (tag_of c) (omap (λ t, r ← row_of t (with_tag t cs); Some (t, r)) (set_of (tag_of <$> cs))) =
    row_of (tag_of c) (with_tag (tag_of c) cs)) as ->.
  { destruct (decide (tag_of c ∈ tag_of <$> cs)) as [Hin|Hn].
    - by apply (jget_omap_keys (λ t, row_of t (with_tag t cs))), elem_of_set_of.
    - rewrite (proj2 (with_tag_nil _ _) Hn). apply jget_None. intros (p & Hp & Hin)%list_elem_of_fmap.
      apply list_elem_of_omap in Hin as (x & Hx & Hh). rewrite elem_of_set_of in Hx. destruct (row_of _ _); [|done].
      cbn [mbind option_bind] in Hh. injection Hh as <-. cbn [fst] in Hp. by rewrite <- Hp in Hx. }
  rewrite (jset_omap_keys (λ t, row_of t (with_tag t cs)) (λ t, row_of t (with_tag t (cs ++ [c])))); [done|..].
  - apply NoDup_set_of.
  - rewrite with_tag_app, decide_True by done. apply row_of_app.
  - intros u Hu. rewrite elem_of_set_of in Hu. destruct (with_tag u cs) as [|d l] eqn:E; [|by eexists].
    by apply with_tag_nil in E.
  - intros u Hu. rewrite with_tag_app, decide_False by congruence. by rewrite app_nil_r.
Qed.

(** ** What a row shows *)
Lemma foldl_children l r : children (foldl add_child r l) = children r ++ l.
Proof. revert r. induction l as [|c l IH]; intros r; [by rewrite app_nil_r|]. cbn [foldl]. rewrite IH. cbn. by rewrite <- app_assoc. Qed.

Lemma foldl_tag l r : c_tag (row (foldl add_child r l)) = c_tag (row r).
Proof. revert r. induction l as [|c l IH]; intros r; [done|]. cbn [foldl]. by rewrite IH. Qed.

Lemma foldl_status l r :
  c_status (row (foldl add_child r l)) = foldl merge_status (c_status (row r)) (c_status <$> l).
Proof. revert r. induction l as [|c l IH]; intros r; [done|]. cbn [foldl]. rewrite IH. done. Qed.

Lemma merge_status_spec s l :
  is_undef s = false →
  foldl merge_status s l = if existsb (λ v, is_num_lit v 1) l then JNum (num_of_Z 1) else s.
Proof.
  revert s. induction l as [|v l IH]; intros s Hs; [done|]. cbn [foldl existsb]. unfold merge_status at 2.
  destruct (is_num_lit v 1); cbn [orb].
  - rewrite IH by done. by destruct (existsb _ _).
  - rewrite Hs. by apply IH.
Qed.

(** The status of a row: enabled when a channel of it is, else that of its first channel. *)
Definition row_status (l : list Channel) : jsval :=
  if existsb isChannelEnabled l then JNum (num_of_Z 1) else from_option c_status JUndef (head l).

Lemma existsb_fmap l : existsb (λ v, is_num_lit v 1) (c_status <$> l) = existsb isChannelEnabled l.
Proof. induction l as [|c l IH]; [done|]. rewrite fmap_cons. cbn [existsb]. by rewrite IH. Qed.

Lemma row_of_shows t l r :
  row_of t l = Some r → Forall (λ c, is_undef (c_status c) = false) l →
  c_tag (row r) = Some t ∧ children r = l ∧ c_status (row r) = row_status l.
Proof.
  destruct l as [|c l]; [done|]. cbn [row_of]. intros [= <-] Hs. inversion Hs as [|? ? Hc Hl]; subst. split_and!.
  - by rewrite foldl_tag.
  - by rewrite foldl_children.
  - rewrite foldl_status.
    change (c_status (row (add_child (new_row t c) c))) with (merge_status JUndef (c_status c)).
    unfold row_status. cbn [existsb head from_option].
    unfold isChannelEnabled at 1. unfold merge_status at 2. destruct (is_num_lit (c_status c) 1) eqn:E; cbn [orb].
    + rewrite merge_status_spec by done. by destruct (existsb _ _).
    + cbn. rewrite merge_status_spec by done. by rewrite existsb_fmap.
Qed.

Lemma grouped_fmap {A} (g : TagRow → A) (h : jsstring → A) cs :
  (∀ t r, t ∈ tag_of <$> cs → row_of t (with_tag t cs) = Some r → g r = h t) →
  g <$> jvalues (grouped cs) = h <$> set_of (tag_of <$> cs).
Proof.
  intros Hg. unfold grouped, jvalues.
  assert (∀ t, t ∈ set_of (tag_of <$> cs) → t ∈ tag_of <$> cs) as Hin by (intros t; apply elem_of_set_of).
  induction (set_of (tag_of <$> cs)) as [|t ts IH]; [done|]. cbn [omap list_omap].
  assert (t ∈ tag_of <$> cs) as Ht by (apply Hin; by left).
  destruct (with_tag t cs) as [|c l] eqn:E; [by apply with_tag_nil in E|].
  cbn [row_of mbind option_bind]. rewrite !fmap_cons. cbn [snd]. f_equal.
  - apply Hg; [done|]. by rewrite E.
  - apply IH. intros u Hu. apply Hin. by right.
Qed.

Lemma concat_with_tag_other ts c cs :
  tag_of c ∉ ts → concat ((λ t, with_tag t (c :: cs)) <$> ts) = concat ((λ t, with_tag t cs) <$> ts).
Proof.
  intros Hc. induction ts as [|t ts IH]; [done|]. apply not_elem_of_cons in Hc as [Ht Hc]. rewrite !fmap_cons.
  cbn [concat]. unfold with_tag at 1. rewrite filter_cons, decide_False by done. by rewrite IH.
Qed.

(** Splitting a list by the values of a function, over the values it has. *)
Lemma concat_with_tag ts cs :
  NoDup ts → (∀ c, c ∈ cs → tag_of c ∈ ts) → concat ((λ t, with_tag t cs) <$> ts) ≡ₚ cs.
Proof.
  intros Hd. induction cs as [|c cs IH]; intros Hin.
  - clear. induction ts as [|t ts IH]; [done|]. by rewrite fmap_cons.
  - transitivity (c :: concat ((λ t, with_tag t cs) <$> ts)); [|by rewrite IH by set_solver]. assert (tag_of c ∈ ts) as Hc by set_solver. clear IH Hin.
    induction ts as [|t ts IHt]; [by apply elem_of_nil in Hc|]. rewrite !fmap_cons. cbn [concat].
    apply NoDup_cons in Hd as [Ht Hd]. unfold with_tag at 1. rewrite filter_cons. case_decide as Htc.
    + rewrite <- app_comm_cons, concat_with_tag_other by by rewrite Htc. done.
    + apply elem_of_cons in Hc as [?|Hc]; [done|]. rewrite IHt by done. by rewrite <- Permutation_middle.
Qed.

(** Grouping gives one row per tag, in the order in which the tags first occur; a row
    has the channels of its tag as children, in their order, so that every channel is in
    exactly one row; and it is enabled exactly when one of them is. *)
Theorem tag_rows_exact cs :
  Forall (λ c, is_undef (c_status c) = false) cs →
  (tag_of ∘ row <$> aggregateChannelsByTag cs) = set_of (tag_of <$> cs) ∧
  (children <$> aggregateChannelsByTag cs) = (λ t, with_tag t cs) <$> set_of (tag_of <$> cs) ∧
  ((c_status ∘ row) <$> aggregateChannelsByTag cs) = (λ t, row_status (with_tag t cs)) <$> set_of (tag_of <$> cs) ∧
  concat (children <$> aggregateChannelsByTag cs) ≡ₚ cs.
Proof.
  intros Hs. unfold aggregateChannelsByTag. rewrite aggregate_grouped.
  assert (∀ t r, row_of t (with_tag t cs) = Some r →
    c_tag (row r) = Some t ∧ children r = with_tag t cs ∧ c_status (row r) = row_status (with_tag t cs)) as Hr.
  { intros t r Hr. apply (row_of_shows t _ r Hr). unfold with_tag. apply Forall_forall.
    intros c [_ Hc]%list_elem_of_filter. rewrite Forall_forall in Hs. by apply Hs. }
  assert (children <$> jvalues (grouped cs) = (λ t, with_tag t cs) <$> set_of (tag_of <$> cs)) as Hc
    by (apply grouped_fmap; intros t r _ H; by apply Hr).
  split_and!.
  - rewrite (grouped_fmap _ id), list_fmap_id; [done|]. intros t r _ H%Hr. cbn. unfold tag_of. by rewrite (proj1 H).
  - exact Hc.
  - apply grouped_fmap. intros t r _ H. by apply Hr.
  - rewrite Hc. apply concat_with_tag; [apply NoDup_set_of|]. intros c Hin. by apply elem_of_set_of, list_elem_of_fmap_2.
Qed.

Lemma foldl_priority l r :
  c_priority (row (foldl add_child r l)) = foldl merge_number (c_priority (row r)) (c_priority <$> l).
Proof. revert r. induction l as [|c l IH]; intros r; [done|]. cbn [foldl]. rewrite IH. done. Qed.

Lemma merge_number_none l : foldl merge_number None l = None.
Proof. induction l as [|x l IH]; [done|]. cbn [foldl]. by destruct x. Qed.

Lemma merge_number_spec p l :
  same_number p minus_one = false → foldl merge_number p l = if forallb (same_number p) l then p else None.
Proof.
  intros Hp. induction l as [|x l IH]; [done|]. cbn [foldl forallb]. unfold merge_number at 2. rewrite Hp.
  destruct (same_number p x); cbn [andb]; [done|]. apply merge_number_none.
Qed.

(** A row shows the priority its channels share, and none when they differ; but minus
    one doubles as the start value: when the first channel of the tag has priority minus
    one, the row shows what it would show without that channel. *)
Theorem tag_row_priority t c l r :
  row_of t (c :: l) = Some r →
  (same_number (c_priority c) minus_one = false →
     c_priority (row r) = if forallb (same_number (c_priority c)) (c_priority <$> l) then c_priority c else None) ∧
  (c_priority c = minus_one → l ≠ [] → ∃ r', row_of t l = Some r' ∧ c_priority (row r) = c_priority (row r')).
Proof.
  cbn [row_of]. intros [= <-]. rewrite foldl_priority.
  change (c_priority (row (add_child (new_row t c) c))) with (merge_number minus_one (c_priority c)).
  change (merge_number minus_one (c_priority c)) with (c_priority c). split.
  - apply merge_number_spec.
  - intros -> Hl. destruct l as [|d l]; [done|]. eexists. split; [done|].
    change (row_of t (d :: l)) with (Some (foldl add_child (new_row t d) (d :: l))). by rewrite foldl_priority.
Qed.

(** ** Attention *)
Lemma attention_has_reason channel : channelNeedsAttention channel = true ↔ getAttentionReason channel ≠ None.
Proof. unfold channelNeedsAttention, getAttentionReason. by repeat case_match. Qed.

(** ** Masked keys *)

(** The mask of a key of up to eight units shows all of it: two such keys of one length
    with the same mask are the same key.  A longer key hides its middle: keys that agree in
    length and in the first and last eight units have the same mask. *)
Theorem key_mask_shows k1 k2 :
  length k1 = length k2 →
  (length k1 <= 8 → formatChannelKey k1 false = formatChannelKey k2 false → k1 = k2)%nat ∧
  (16 < length k1 → take 8 k1 = take 8 k2 → slice_end 8 k1 = slice_end 8 k2 →
   formatChannelKey k1 false = formatChannelKey k2 false)%nat.
Proof.
  intros Hlen. split.
  - intros H8 Hf. destruct k1 as [|a k1]; [by destruct k2|]. destruct k2 as [|b k2]; [done|].
    unfold formatChannelKey in Hf. rewrite !(proj2 (Nat.leb_le _ 16)) in Hf by lia.
    apply app_inj_1 in Hf as [Ht Hr]; [|rewrite !length_take; lia]. apply app_inv_head in Hr.
    unfold slice_end in Hr. apply list_eq. intros i. destruct (decide (i < 4)%nat) as [Hi|Hi].
    + rewrite <- (lookup_take_lt _ 4), <- (lookup_take_lt (b :: k2) 4) by done. by rewrite Ht.
    + replace i with ((length (a :: k1) - 4) + (i - (length (a :: k1) - 4)))%nat by lia.
      rewrite <- lookup_drop, Hlen, <- lookup_drop, <- Hlen. rewrite Hlen at 1. by rewrite <- Hlen, Hr, Hlen.
  - intros H16 Ht Hs. destruct k1 as [|a k1]; [cbn in H16; lia|]. destruct k2 as [|b k2]; [done|].
    unfold formatChannelKey. rewrite !(proj2 (Nat.leb_gt _ 16)) by lia. by rewrite Ht, Hs.
Qed.

(** ** Deduplicated keys *)

(** The keys of a text: its lines without blanks at their ends, those that are not empty,
    once each. *)
Definition keys_of (text : jsstring) : list jsstring :=
  set_of (filter (λ k, k ≠ []) (trim <$> split_on 10 text)).

Lemma dedup_loop lines keys :
  foldl (λ keys line, let trimmedLine := trim line in
           if negb (bool_decide (trimmedLine = [])) && negb (set_has trimmedLine keys)
           then keys ++ [trimmedLine] else keys) keys lines =
  foldl (λ s x, set_add x s) keys (filter (λ k, k ≠ []) (trim <$> lines)).
Proof.
  revert keys. induction lines as [|l lines IH]; intros keys; [done|]. rewrite fmap_cons, filter_cons. cbn [foldl].
  destruct (decide (trim l ≠ [])) as [Hl|Hl].
  - rewrite (bool_decide_eq_false_2 (trim l = [])) by done. cbn [negb andb foldl]. rewrite IH. f_equal.
    unfold set_add. by destruct (set_has (trim l) keys).
  - rewrite (bool_decide_eq_true_2 (trim l = [])) by (by apply dec_stable). cbn [negb andb]. apply IH.
Qed.

Lemma keys_of_clean text : NoDup (keys_of text) ∧ Forall (λ k, trim k = k ∧ k ≠ [] ∧ 10%N ∉ k) (keys_of text).
Proof.
  split; [apply NoDup_set_of|]. apply Forall_forall. intros k Hk. unfold keys_of in Hk.
  rewrite elem_of_set_of, list_elem_of_filter in Hk. destruct Hk as [Hk (l & -> & Hl)%list_elem_of_fmap].
  split_and!; [apply trim_idemp|done|]. intros Hc%elem_of_trim. by apply split_on_pieces in Hl.
Qed.

Lemma trim_nil_ws s : trim s = [] → Forall (λ c, is_ws c = true) s.
Proof.
  intros H. unfold trim in H. destruct (trim_start s) as [|c t] eqn:E.
  - clear H. induction s as [|c s IH]; [constructor|]. cbn [trim_start] in E.
    destruct (is_ws c) eqn:Ec; [|done]. constructor; [done|by apply IH].
  - exfalso. pose proof (trim_start_head _ _ _ E) as Hc. unfold trim_end in H.
    apply (f_equal reverse) in H. rewrite reverse_involutive, reverse_cons in H. revert H.
    generalize (reverse t). intros u. induction u as [|d u IH]; cbn; [by rewrite Hc|]. by case_match.
Qed.

Lemma blank_keys text : trim text = [] → keys_of text = [].
Proof.
  intros H%trim_nil_ws. unfold keys_of.
  enough (filter (λ k, k ≠ []) (trim <$> split_on 10 text) = []) as -> by done.
  apply elem_of_nil_inv. intros k [Hk (l & -> & Hl)%list_elem_of_fmap]%list_elem_of_filter. apply Hk. clear Hk.
  assert (Forall (λ c, is_ws c = true) l) as Hws.
  { apply Forall_forall. intros c Hc. rewrite Forall_forall in H. apply H. by apply (split_on_sub 10 text l). }
  unfold trim. enough (trim_start l = []) as -> by done. clear -Hws.
  induction Hws as [|c l Hc _ IH]; [done|]. cbn [trim_start]. by rewrite Hc.
Qed.

(** Keys in a text, one per line, are the keys of the text. *)
Lemma keys_of_join ks :
  NoDup ks → Forall (λ k, trim k = k ∧ k ≠ [] ∧ 10%N ∉ k) ks → keys_of (join [10%N] ks) = ks.
Proof.
  intros Hd Hc. destruct (decide (ks = [])) as [->|Hne]; [done|]. unfold keys_of.
  rewrite split_join by (done || (eapply Forall_impl; [exact Hc|naive_solver])).
  assert (trim <$> ks = ks) as ->.
  { clear -Hc. induction Hc as [|k ks [Hk _] _ IH]; [done|]. by rewrite fmap_cons, Hk, IH. }
  rewrite filter_all by (eapply Forall_impl; [exact Hc|naive_solver]). by apply set_of_NoDup.
Qed.

Lemma dedup_spec text :
  trim text ≠ [] →
  deduplicateKeys text =
    {| deduplicatedText := join [10%N] (keys_of text); beforeCount := length (split_on 10 text);
       afterCount := length (keys_of text); removedCount := length (split_on 10 text) - length (keys_of text) |}.
Proof. intros Hb. unfold deduplicateKeys. rewrite bool_decide_eq_false_2 by done. by rewrite dedup_loop. Qed.

Lemma keys_of_length text : (length (keys_of text) <= length (split_on 10 text))%nat.
Proof.
  unfold keys_of. rewrite set_of_length, length_filter, length_fmap. done.
Qed.

(** Deduplication keeps the keys of the text, once each, in the order in which they
    first occur, one per line; the counts add up; and doing it again changes nothing. *)
Theorem dedup_keys text :
  let d := deduplicateKeys text in
  deduplicatedText d = join [10%N] (keys_of text) ∧ afterCount d = length (keys_of text) ∧
  beforeCount d = (afterCount d + removedCount d)%nat ∧
  deduplicateKeys (deduplicatedText d) =
    {| deduplicatedText := deduplicatedText d; beforeCount := afterCount d; afterCount := afterCount d;
       removedCount := 0 |}.
Proof.
  destruct (keys_of_clean text) as [Hd Hc]. pose proof (keys_of_join _ Hd Hc) as Hj. cbv zeta.
  destruct (decide (trim text = [])) as [Hb|Hb].
  { rewrite (blank_keys text Hb).
    assert (deduplicateKeys text =
      {| deduplicatedText := []; beforeCount := 0; afterCount := 0; removedCount := 0 |}) as ->
      by (unfold deduplicateKeys; by rewrite bool_decide_eq_true_2). done. }
  rewrite dedup_spec by done. cbn [deduplicatedText beforeCount afterCount removedCount].
  pose proof (keys_of_length text) as Hlen. split_and!; [done|done|lia|].
  destruct (decide (keys_of text = [])) as [->|Hne]; [done|]. rewrite dedup_spec.
  - rewrite Hj, split_join by (done || (eapply Forall_impl; [exact Hc|naive_solver])). f_equal. lia.
  - destruct (keys_of text) as [|k ks]; [done|]. inversion Hc as [|? ? (Ht & Hk & _) _]; subst.
    destruct k as [|c k]; [done|]. assert (is_ws c = false) as Hw
      by (destruct (trimmed_trim (c :: k)) as [Hh _]; rewrite Ht in Hh; by apply Hh).
    destruct ks; by apply trim_not_nil.
Qed.

(** ** Witnesses *)
Definition sample_channel (tag : string) (status priority : Z) : Channel :=
  row {| row := {| c_id := JNull; c_type := 1; c_key := []; c_openai_organization := None; c_test_model := None;
    c_status := JNum (num_of_Z status); c_name := []; c_weight := None; c_created_time := num0; c_test_time := num0;
    c_response_time := num0; c_base_url := None; c_other := []; c_balance := num0; c_balance_updated_time := num0;
    c_models := []; c_group := js "default"; c_used_quota := num0; c_model_mapping := None;
    c_status_code_mapping := None; c_priority := Some (num_of_Z priority); c_auto_ban := None; c_other_info := [];
    c_tag := Some (js tag); c_setting := None; c_param_override := None; c_header_override := None; c_remark := [];
    c_max_input_tokens := num0; c_channel_info := {| is_multi_key := false; multi_key_size := num0;
      multi_key_status_list := None; multi_key_mode := js "random" |}; c_settings := [] |}; children := [] |}.

Lemma tag_rows_exact_witness :
  (tag_of ∘ row <$> aggregateChannelsByTag
     [sample_channel "a" 2 0; sample_channel "b" 1 0; sample_channel "a" 1 0]) = [js "a"; js "b"].
Proof.
  apply (tag_rows_exact [sample_channel "a" 2 0; sample_channel "b" 1 0; sample_channel "a" 1 0]).
  by repeat constructor.
Defined.

(** Priorities minus one and five are shown as five. *)
Lemma tag_row_priority_witness :
  ∃ r', row_of (js "a") [sample_channel "a" 1 5] = Some r' ∧
    c_priority (row (foldl add_child (new_row (js "a") (sample_channel "a" 1 (-1)))
      [sample_channel "a" 1 (-1); sample_channel "a" 1 5])) = c_priority (row r').
Proof. by apply (tag_row_priority (js "a") (sample_channel "a" 1 (-1)) [sample_channel "a" 1 5] _ eq_refl). Defined.

Lemma key_mask_shows_witness : formatChannelKey (js "12345678") false = js "1234...5678" ∧
  (formatChannelKey (js "12345678") false = formatChannelKey (js "12345678") false → js "12345678" = js "12345678").
Proof. split; [by vm_compute|]. apply (key_mask_shows (js "12345678") (js "12345678")); [done|]. by apply Nat.leb_le. Defined.
