(* ===== verification/HttpClient.v ===== *)
(** The HTTP client of the console (web/src/lib/http-client.ts, with
    server-error-message.ts and the shared refresh of auth-session.ts), as a state machine.

    The state is the authentication store, the map of GET requests in flight, the requests
    made, the refresh in flight with the requests that await it, and the page's path.  A
    request is queued (the client calls its request interceptor later), sent, awaiting the
    refresh after a 401, or settled.  Events are calls of the page, replies of the server,
    the steps of the refresh (its lock, its replies, its delays), and changes that other
    code makes to the store or the path.

    A response, and an error with its response, are values of type unknown; whether an
    error carries its configuration is part of the event.  A request that the client sends
    again is the same request: its promise is that of the first. *)
From S2P Require Import Prelude JsString JsValue Json JsonQuote JsonPrint Actions AuthSession.
Open Scope Z_scope.

(** ** server-error-message.ts *)
Definition serverErrorMessageKeys : list (jsstring * jsstring) := [
  (js "AUTH_SESSION_LIMIT",
   js "Too many active login sessions. On a device where you are already signed in, open Login sessions and use "
   ++ [8220%N] ++ js "Sign out other sessions" ++ [8221%N]
   ++ js " to revoke them. If you cannot access a signed-in device, reset your password to sign out all sessions.");
  (js "AUTH_SESSION_ISSUANCE_LIMIT",
   js "Too many login sessions were created recently. Please wait for the rolling window to pass, then try again.");
  (js "TELEGRAM_BIND_DISABLED", js "Telegram binding is disabled.");
  (js "TELEGRAM_BIND_INVALID_REQUEST", js "The Telegram authorization request is invalid or expired.");
  (js "TELEGRAM_BIND_FLOW_INVALID", js "This Telegram binding request has expired or has already been used.");
  (js "TELEGRAM_BIND_SESSION_INVALID",
   js "The login session that started this Telegram binding is no longer valid.");
  (js "TELEGRAM_BIND_ALREADY_BOUND", js "This Telegram account is already bound.");
  (js "TELEGRAM_BIND_USER_DELETED", js "This user account no longer exists.");
  (js "TELEGRAM_BIND_USER_DISABLED", js "This user account is disabled.");
  (js "TELEGRAM_BIND_INTERNAL_ERROR", js "Telegram binding failed. Please try again.")].

Definition serverErrorPayload (v : jsval) : option jsval :=
  if is_object v then
    let response := prop "response" v in
    if is_object response && is_object (prop "data" response) then Some (prop "data" response) else Some v
  else None.

Definition getServerErrorMessageKey (v : jsval) : option jsstring :=
  payload ← serverErrorPayload v;
  code ← as_string (prop "code" payload);
  jget code serverErrorMessageKeys.

Module Client.

(** ** Requests *)
Record Config := mkConfig {
  skipBusinessError : bool; skipErrorHandler : bool; disableDuplicate : bool; skipAuthRefresh : bool;
  authRetry : bool; acceptAuthRotation : bool; params : jsval; authorization : option jsstring }.

Inductive Result :=
| Resolved (data : jsval)
| Rejected (err : jsval)
| RotationRejected (e : RotationError).

Inductive Phase :=
| queued
| sent
| refreshing (err : jsval)
| settled (r : Result).

(** [key] is the entry of the map that the request deletes when it settles. *)
Record Req := mkReq { url : jsstring; config : Config; key : option jsstring; phase : Phase }.

(** The refresh in flight: the epoch it began in, the attempt it is at, what it waits for,
    and the requests that await its promise, in order. *)
Inductive Stage := locking | posted | delayed.
Record Refresh := mkRefresh {
  refreshEpoch : nat; raceAttempt : nat; allowMismatchRetry : bool; stage : Stage; waiters : list nat }.

Record State := mkState {
  web : Web; inFlightGet : list (jsstring * nat); requests : list Req; refreshPromise : option Refresh;
  pathname : jsstring; callers : list (jsstring * nat) }.

Definition set_web (x : Web) (s : State) : State :=
  mkState x (inFlightGet s) (requests s) (refreshPromise s) (pathname s) (callers s).
Definition set_inFlightGet (x : list (jsstring * nat)) (s : State) : State :=
  mkState (web s) x (requests s) (refreshPromise s) (pathname s) (callers s).
Definition set_requests (x : list Req) (s : State) : State :=
  mkState (web s) (inFlightGet s) x (refreshPromise s) (pathname s) (callers s).
Definition set_refresh (x : option Refresh) (s : State) : State :=
  mkState (web s) (inFlightGet s) (requests s) x (pathname s) (callers s).
Definition set_pathname (x : jsstring) (s : State) : State :=
  mkState (web s) (inFlightGet s) (requests s) (refreshPromise s) x (callers s).
Definition set_callers (x : list (jsstring * nat)) (s : State) : State :=
  mkState (web s) (inFlightGet s) (requests s) (refreshPromise s) (pathname s) x.

(** What is shown: a text of the translations, or a value of the response as it is. *)
Inductive Msg := Translated (k : jsstring) | Verbatim (v : jsval).

Inductive Out :=
| sendRequest (rid : nat) (authorization : option jsstring)
| postRefresh (expectedSID : option jsstring)
| requestLock
| setTimeout (delay : Z)
| toastError (m : Msg)
| redirect
| settle_promise (rid : nat) (r : Result).

Abbreviation A := (act State Out).
Open Scope act_scope.

Definition update_request (rid : nat) (f : Req → Req) (s : State) : State :=
  match requests s !! rid with
  | Some r => set_requests (<[rid := f r]> (requests s)) s
  | None => s
  end.
Definition with_phase (p : Phase) (r : Req) : Req := mkReq (url r) (config r) (key r) p.
Definition with_config (c : Config) (r : Req) : Req := mkReq (url r) c (key r) (phase r).
Definition set_phase (rid : nat) (p : Phase) : State → State := update_request rid (with_phase p).

Definition with_authorization (t : option jsstring) (c : Config) : Config :=
  mkConfig (skipBusinessError c) (skipErrorHandler c) (disableDuplicate c) (skipAuthRefresh c) (authRetry c)
    (acceptAuthRotation c) (params c) t.
Definition with_authRetry (c : Config) : Config :=
  mkConfig (skipBusinessError c) (skipErrorHandler c) (disableDuplicate c) (skipAuthRefresh c) true
    (acceptAuthRotation c) (params c) (authorization c).

(** [Authorization] set to the token of the store, when there is one. *)
Definition bearer (w : Web) (c : Config) : Config :=
  match token (auth w) with Some t => with_authorization (Some (js "Bearer " ++ t)) c | None => c end.

(** ** Calls *)

(** [sid || 'anonymous']. *)
Definition sessionSID (w : Web) : jsstring :=
  match current_sid w with Some (c :: s) => c :: s | _ => js "anonymous" end.
Definition request_key (w : Web) (u : jsstring) (c : Config) : jsstring :=
  let params := if truthy (params c) then JSON_stringify 0 (params c) else js "{}" in
  sessionSID w ++ js ":" ++ u ++ js "?" ++ params.

(** A request is made; its caller, with the session it called under, gets its promise. *)
Definition start (u : jsstring) (c : Config) (k : option jsstring) : A := upd (λ s,
  let rid := length (requests s) in
  set_callers (callers s ++ [(sessionSID (web s), rid)])
    (set_requests (requests s ++ [mkReq u c k queued]) s)).

(** [api.request] and the methods other than [get]. *)
Definition request (u : jsstring) (c : Config) : A := start u c None.

Definition get (u : jsstring) (c : Config) : A :=
  if disableDuplicate c then start u c None
  else λ s,
    let key := request_key (web s) u c in
    match jget key (inFlightGet s) with
    | Some rid => (set_callers (callers s ++ [(sessionSID (web s), rid)]) s, [])
    | None =>
        (reading (λ s, length (requests s)) (λ rid,
           start u c (Some key) ;; upd (λ s, set_inFlightGet (jset key rid (inFlightGet s)) s))) s
    end.

(** The request interceptor, and the request leaves. *)
Definition dispatch (rid : nat) : A := λ s,
  let s := update_request rid (λ r, with_phase sent (with_config (bearer (web s) (config r)) r)) s in
  (s, [sendRequest rid (r ← requests s !! rid; authorization (config r))]).

(** ** Settling *)
Definition settle (rid : nat) (r : Result) : A := λ s,
  let key := q ← requests s !! rid; key q in
  let s := set_phase rid (settled r) s in
  (match key with
   | Some k => set_inFlightGet (filter (λ p, p.1 ≠ k) (inFlightGet s)) s
   | None => s
   end, [settle_promise rid r]).

Definition redirectToSignIn : A :=
  when (λ s, negb (bool_decide (pathname s = js "/sign-in"))) (emit redirect).
Definition sessionExpired (c : Config) : A :=
  if skipErrorHandler c then skip else emit (toastError (Translated (js "Session expired!"))).

(** ** The refresh *)

(** The steps of the runner use no operation of the network: replies are events here. *)
#[local] Instance by_events : AuthHost := {|
  post_refresh _ w := (mkResponse 0 JUndef JUndef, w); timeout _ w := w; lock_acquired w := w |}.

Definition refreshAuthentication (waiter : list nat) : A := λ s,
  match refreshPromise s with
  | Some f => (set_refresh (Some (mkRefresh (refreshEpoch f) (raceAttempt f) (allowMismatchRetry f) (stage f)
                                    (waiters f ++ waiter))) s, [])
  | None => (set_refresh (Some (mkRefresh (authEpoch (web s)) 0 true locking waiter)) s, [requestLock])
  end.

(** What the interceptor of a request does when the refresh it awaits ends. *)
Definition resume (outcome : RefreshOutcome) (rid : nat) : A := λ s,
  match requests s !! rid with
  | Some r =>
      match phase r with
      | refreshing err =>
          match outcome with
          | Authenticated _ =>
              (update_request rid (λ r, with_phase queued (with_config (bearer (web s) (config r)) r)) s, [])
          | Anonymous | OutOfSync _ =>
              (sessionExpired (config r) ;; redirectToSignIn ;; settle rid (Rejected err)) s
          | TransientError _ | Superseded => settle rid (Rejected err) s
          end
      | _ => (s, [])
      end
  | None => (s, [])
  end.

Definition for_each (f : nat → A) (l : list nat) : A := foldr (λ rid a, f rid ;; a) skip l.

(** The promise of the refresh is fulfilled, or rejected. *)
Definition refresh_done (outcome : RefreshOutcome) (f : Refresh) : A :=
  upd (set_refresh None) ;; for_each (resume outcome) (waiters f).
Definition refresh_rejected (err : jsval) (f : Refresh) : A :=
  upd (set_refresh None) ;; for_each (λ rid, settle rid (Rejected err)) (waiters f).

(** [run(raceAttempt, allowMismatchRetry)] up to its request. *)
Definition run_attempt (i : nat) (allow : bool) (f : Refresh) : A := λ s,
  if isCurrent (runtime_of (refreshEpoch f)) (web s) then
    (set_refresh (Some (mkRefresh (refreshEpoch f) i allow posted (waiters f))) s,
     [postRefresh (current_sid (web s))])
  else refresh_done Superseded f s.

(** The rest of [run]. *)
Definition run_replied (response : AuthRefreshHTTPResponse) (f : Refresh) : A := λ s,
  if isCurrent (runtime_of (refreshEpoch f)) (web s) then
    match verdict (runtime_of (refreshEpoch f)) (raceAttempt f) (allowMismatchRetry f) response with
    | Finish change outcome => (upd (λ s, set_web (change (web s)) s) ;; refresh_done outcome f) s
    | RetryRace delay =>
        (set_refresh (Some (mkRefresh (refreshEpoch f) (raceAttempt f) (allowMismatchRetry f) delayed (waiters f))) s,
         [setTimeout delay])
    | RetryMismatch change => (upd (λ s, set_web (change (web s)) s) ;; run_attempt 0 false f) s
    end
  else refresh_done Superseded f s.

(** ** The response interceptor *)

(** [v === b]. *)
Definition is_bool_lit (v : jsval) (b : bool) : bool :=
  match v with JBool x => Bool.eqb x b | _ => false end.

Definition shown (key : option jsstring) (texts : list jsval) : Msg :=
  match key with
  | Some k => Translated k
  | None => match filter (λ v, truthy v = true) texts with
            | v :: _ => Verbatim v
            | [] => Translated (js "Request failed")
            end
  end.

Definition businessError (c : Config) (data : jsval) : A :=
  if negb (skipBusinessError c) && is_bool_lit (prop "success" data) false
  then emit (toastError (shown (getServerErrorMessageKey data) [prop "message" data])) else skip.

Definition onFulfilled (rid : nat) (r : Req) (data : jsval) : A := λ s,
  let accepted :=
    if acceptAuthRotation (config r) && is_bool_lit (prop "success" data) true
    then applyAuthRotation (prop "data" data) (web s) else Ok (web s) in
  match accepted with
  | Throw e => settle rid (RotationRejected e) s
  | Ok w => (upd (set_web w) ;; businessError (config r) data ;; settle rid (Resolved data)) s
  end.

Definition onRejected (rid : nat) (r : Req) (err : jsval) (has_config : bool) : A :=
  let c := config r in
  let silent := has_config && skipErrorHandler c in
  let response := prop "response" err in
  if is_num_lit (prop "status" response) 401 then
    if has_config && negb (skipAuthRefresh c) && negb (authRetry c) then
      upd (update_request rid (λ r, with_phase (refreshing err) (with_config (with_authRetry (config r)) r))) ;;
      refreshAuthentication [rid]
    else if has_config && authRetry c then
      upd (λ s, set_web (clearAuthentication false complete (web s)) s) ;;
      sessionExpired c ;; redirectToSignIn ;; settle rid (Rejected err)
    else
      (if silent then skip else emit (toastError (Translated (js "Session expired!")))) ;;
      settle rid (Rejected err)
  else
    (if silent then skip
     else emit (toastError (shown (getServerErrorMessageKey err)
                              [prop "message" (prop "data" response); prop "message" err]))) ;;
    settle rid (Rejected err).

(** ** Runs *)
Inductive Event :=
| Get (u : jsstring) (c : Config)
| Request (u : jsstring) (c : Config)
| RefreshElsewhere
| StoreChanged (w : Web)
| Navigated (p : jsstring)
| Dispatched (rid : nat)
| Fulfilled (rid : nat) (data : jsval)
| Failed (rid : nat) (err : jsval) (has_config : bool)
| LockThrew (err : jsval)
| LockFailed (err : jsval)
| LockAcquired
| RefreshReplied (response : AuthRefreshHTTPResponse)
| DelayOver.

(** The promise of a refresh without waiters of this client is [RefreshElsewhere]'s. *)
Definition handle (e : Event) : A := λ s,
  let pending rid (k : Req → A) := match requests s !! rid with Some r => k r s | None => (s, []) end in
  let refreshing_ (k : Refresh → A) := match refreshPromise s with Some f => k f s | None => (s, []) end in
  match e with
  | Get u c => get u c s
  | Request u c => request u c s
  | RefreshElsewhere => refreshAuthentication [] s
  | StoreChanged w => (set_web w s, [])
  | Navigated p => (set_pathname p s, [])
  | Dispatched rid => dispatch rid s
  | Fulfilled rid data => pending rid (λ r, onFulfilled rid r data)
  | Failed rid err has_config => pending rid (λ r, onRejected rid r err has_config)
  | LockThrew err =>
      refreshing_ (λ f, upd (λ s, set_web (with_auth (setBootstrapState idle) (web s)) s) ;;
                        refresh_done (TransientError err) f)
  | LockFailed err => refreshing_ (refresh_rejected err)
  | LockAcquired => refreshing_ (run_attempt 0 true)
  | RefreshReplied response => refreshing_ (run_replied response)
  | DelayOver => refreshing_ (λ f, run_attempt (S (raceAttempt f)) (allowMismatchRetry f) f)
  end.

Definition enabled (e : Event) (s : State) : Prop :=
  let has_phase rid p := ∃ r, requests s !! rid = Some r ∧ phase r = p in
  let at_stage g := ∃ f, refreshPromise s = Some f ∧ stage f = g in
  match e with
  | Get _ _ | Request _ _ | RefreshElsewhere | StoreChanged _ | Navigated _ => True
  | Dispatched rid => has_phase rid queued
  | Fulfilled rid _ | Failed rid _ _ => has_phase rid sent
  | LockThrew _ | LockFailed _ | LockAcquired => at_stage locking
  | RefreshReplied _ => at_stage posted
  | DelayOver => at_stage delayed
  end.

Definition step : State → Event * list Out → State → Prop := machine_step enabled handle.
Definition init (w : Web) (p : jsstring) : State := mkState w [] [] None p [].

(** ** Facts of the combinators *)
Definition is_settled (r : Req) : bool := match phase r with settled _ => true | _ => false end.
Definition is_refreshing (r : Req) : bool := match phase r with refreshing _ => true | _ => false end.

Lemma update_request_eq rid r f s : requests s !! rid = Some r →
  update_request rid f s = set_requests (<[rid := f r]> (requests s)) s.
Proof. intros Hr. unfold update_request. by rewrite Hr. Qed.

Lemma lookup_update (rid : nat) (r r' : Req) (l : list Req) i x : l !! rid = Some r →
  <[rid := r']> l !! i = Some x ↔ (i = rid ∧ x = r') ∨ (i ≠ rid ∧ l !! i = Some x).
Proof.
  intros Hr. destruct (decide (i = rid)) as [->|Hi].
  - rewrite list_lookup_insert_eq by (by eapply lookup_lt_Some). naive_solver.
  - rewrite list_lookup_insert_ne by done. naive_solver.
Qed.

(** ** The invariant *)

(** The requests that await the refresh are those of [W]. *)
Record linv (W : list nat) (s : State) : Prop := {
  l_NoDup : NoDup W;
  l_waiters : ∀ rid, rid ∈ W ↔ ∃ r, requests s !! rid = Some r ∧ is_refreshing r = true;
  l_retry : ∀ rid r, requests s !! rid = Some r → is_refreshing r = true → authRetry (config r) = true;
  (** The map holds exactly the requests that share their promise and are not settled. *)
  l_map : ∀ k rid, jget k (inFlightGet s) = Some rid ↔
            ∃ r, requests s !! rid = Some r ∧ key r = Some k ∧ is_settled r = false;
  (** Callers of one promise asked under the key of the request, or there is only one. *)
  l_callers : ∀ i x rid, callers s !! i = Some (x, rid) → ∃ r, requests s !! rid = Some r ∧
                ∀ k, key r = Some k → ∃ rest, k = x ++ js ":" ++ rest;
  l_single : ∀ i j x y rid r, callers s !! i = Some (x, rid) → callers s !! j = Some (y, rid) →
                requests s !! rid = Some r → key r = None → i = j;
}.

Definition waiting (s : State) : list nat := match refreshPromise s with Some f => waiters f | None => [] end.

Record inv (s : State) : Prop := {
  i_linv : linv (waiting s) s;
  i_race : ∀ f, refreshPromise s = Some f → (raceAttempt f <= 3)%nat ∧ (stage f = delayed → (raceAttempt f < 3)%nat);
}.

Lemma linv_same W s s' :
  inFlightGet s' = inFlightGet s → requests s' = requests s → callers s' = callers s → linv W s → linv W s'.
Proof. intros E1 E2 E3 [H1 H2 H3 H4 H5 H6]. split; rewrite ?E1, ?E2, ?E3; done. Qed.

(** One request changes, neither its key nor whether it is settled. *)
Lemma linv_update W W' s rid r r' :
  linv W s → requests s !! rid = Some r → key r' = key r → is_settled r = false → is_settled r' = false →
  NoDup W' → (∀ i, i ≠ rid → i ∈ W' ↔ i ∈ W) → (rid ∈ W' ↔ is_refreshing r' = true) →
  (is_refreshing r' = true → authRetry (config r') = true) →
  linv W' (set_requests (<[rid := r']> (requests s)) s).
Proof.
  intros Hl Hr Hk Hs Hs' HN HW Hrid Hret.
  pose proof (λ i x, lookup_update rid r r' (requests s) i x Hr) as Hlook.
  split; cbn; [done| | | | |].
  - intros i. setoid_rewrite Hlook. destruct (decide (i = rid)) as [->|Hi].
    + rewrite Hrid. naive_solver.
    + rewrite HW, (l_waiters _ _ Hl) by done. naive_solver.
  - intros i x [[-> ->]|[_ Hx]]%Hlook; [done|by eapply l_retry].
  - intros k i. rewrite (l_map _ _ Hl). destruct (decide (i = rid)) as [->|Hi].
    + split; intros (x & Hx & Hkx & _).
      * simplify_eq. exists r'. rewrite Hlook, Hk. auto.
      * apply Hlook in Hx as [[_ ->]|[? _]]; [|done]. exists r. by rewrite <- Hk.
    + split; intros (x & Hx & Hrest); exists x; (split; [|done]); [apply Hlook; auto|].
      by apply Hlook in Hx as [[? _]|[_ ?]].
  - intros i x j Hc. destruct (l_callers _ _ Hl i x j Hc) as (q & Hq & Hkey). setoid_rewrite Hlook.
    destruct (decide (j = rid)) as [->|Hj]; [|by eauto]. simplify_eq. exists r'. rewrite Hk. eauto.
  - intros i j x y q r0 Hi Hj [[-> ->]|[_ Hq]]%Hlook; [rewrite Hk|]; by eapply l_single.
Qed.

Lemma linv_settle W s rid r res :
  linv W s → requests s !! rid = Some r → is_settled r = false →
  linv (filter (λ i, i ≠ rid) W) (settle rid res s).1.
Proof.
  intros Hl Hr Hs. unfold settle, set_phase. rewrite Hr, (update_request_eq _ r) by done. cbn [mbind option_bind fst].
  pose proof (λ i x, lookup_update rid r (with_phase (settled res) r) (requests s) i x Hr) as Hlook.
  set (s1 := set_requests _ s).
  set (s2 := match key r with Some k => _ | None => _ end).
  assert (requests s2 = <[rid := with_phase (settled res) r]> (requests s) ∧ callers s2 = callers s) as [E4 E5]
    by (unfold s2; by destruct (key r)).
  assert (∀ k, jget k (inFlightGet s2) = if decide (key r = Some k) then None else jget k (inFlightGet s)) as Hmap.
  { intros k. unfold s2. destruct (key r) as [k'|]; cbn; [|by rewrite decide_False].
    rewrite jget_delete. by repeat case_decide; simplify_eq. }
  clearbody s2. clear s1. split; rewrite ?E4, ?E5.
  - apply NoDup_filter, Hl.
  - intros i. rewrite list_elem_of_filter, (l_waiters _ _ Hl). setoid_rewrite Hlook. naive_solver.
  - intros i x [[-> ->]|[_ Hx]]%Hlook; [done|by eapply l_retry].
  - intros k i. rewrite Hmap. setoid_rewrite Hlook. case_decide as Hk.
    + split; [done|]. intros (x & [[-> ->]|[Hi Hx]] & Hkx & Hsx); [done|]. exfalso. apply Hi.
      assert (jget k (inFlightGet s) = Some i) as H1 by (apply (l_map _ _ Hl); eauto).
      assert (jget k (inFlightGet s) = Some rid) as H2 by (apply (l_map _ _ Hl); eauto). congruence.
    + rewrite (l_map _ _ Hl). split.
      * intros (x & Hx & Hkx & Hsx). exists x. split; [|done]. right. split; [|done]. intros ->. naive_solver.
      * intros (x & [[-> ->]|[Hi Hx]] & Hkx & Hsx); [done|]. by exists x.
  - intros i x j Hc. destruct (l_callers _ _ Hl i x j Hc) as (q & Hq & Hkey). setoid_rewrite Hlook.
    destruct (decide (j = rid)) as [->|Hj]; [|exists q; auto]. simplify_eq. eexists. split; [by left|]. done.
  - intros i j x y q r0 Hi Hj [[-> ->]|[_ Hq]]%Hlook;
      [exact (l_single _ _ Hl i j x y rid r Hi Hj Hr)|exact (l_single _ _ Hl i j x y q r0 Hi Hj Hq)].
Qed.

(** ** The handlers keep the invariant *)
Lemma sessionExpired_fst c s : (sessionExpired c s).1 = s.
Proof. unfold sessionExpired. by case_match. Qed.
Lemma redirect_fst s : (redirectToSignIn s).1 = s.
Proof. unfold redirectToSignIn, when, ite. by case_match. Qed.
Lemma businessError_fst c v s : (businessError c v s).1 = s.
Proof. unfold businessError. by case_match. Qed.
Create Rewrite HintDb client.
Hint Rewrite @seq_fst sessionExpired_fst redirect_fst businessError_fst : client.

Lemma refreshing_unsettled r : is_refreshing r = true → is_settled r = false.
Proof. unfold is_refreshing, is_settled. by destruct (phase r). Qed.

(** A request that does not await the refresh settles. *)
Lemma settle_other W s rid r res :
  linv W s → requests s !! rid = Some r → is_settled r = false → is_refreshing r = false →
  linv W (settle rid res s).1.
Proof.
  intros Hl Hr Hs Hf. pose proof (linv_settle _ s rid r res Hl Hr Hs) as Hw.
  rewrite filter_all in Hw; [done|]. apply Forall_forall. intros i Hi ->.
  apply (l_waiters _ _ Hl) in Hi as (q & Hq & Hqf). congruence.
Qed.

(** The next request that awaits the refresh settles. *)
Lemma settle_next rid W s res : linv (rid :: W) s → linv W (settle rid res s).1.
Proof.
  intros Hl. pose proof (l_NoDup _ _ Hl) as [Hnot HN]%NoDup_cons.
  destruct (proj1 (l_waiters _ _ Hl rid) ltac:(left)) as (r & Hr & Hf).
  pose proof (linv_settle _ _ rid r res Hl Hr (refreshing_unsettled r Hf)) as Hw.
  rewrite filter_cons, decide_False in Hw by auto. rewrite filter_all in Hw; [done|].
  apply Forall_forall. intros i Hi ->. done.
Qed.

(** ... or is sent again. *)
Lemma requeue_next rid W s : linv (rid :: W) s →
  linv W (update_request rid (λ r, with_phase queued (with_config (bearer (web s) (config r)) r)) s).
Proof.
  intros Hl. pose proof (l_NoDup _ _ Hl) as [Hnot HN]%NoDup_cons.
  destruct (proj1 (l_waiters _ _ Hl rid) ltac:(left)) as (r & Hr & Hf).
  rewrite (update_request_eq _ r) by done. eapply (linv_update (rid :: W)); [done|done|done| |done|done| |done|done].
  - by apply refreshing_unsettled.
  - intros i Hi. rewrite elem_of_cons. naive_solver.
Qed.

Lemma resume_linv o rid W s : linv (rid :: W) s → linv W (resume o rid s).1.
Proof.
  intros Hl. destruct (proj1 (l_waiters _ _ Hl rid) ltac:(left)) as (r & Hr & Hf).
  unfold resume. rewrite Hr. unfold is_refreshing in Hf. destruct (phase r) as [| |err|]; try done.
  destruct o; cbn [fst]; autorewrite with client; by first [apply requeue_next | apply settle_next].
Qed.

Lemma for_each_linv (g : nat → A) W s :
  (∀ rid V s1, linv (rid :: V) s1 → linv V (g rid s1).1) → linv W s → linv [] (for_each g W s).1.
Proof.
  intros Hg. revert s. induction W as [|rid W IH]; intros s Hl; [done|].
  cbn [for_each foldr]. rewrite seq_fst. apply IH. by apply Hg.
Qed.

Lemma for_each_cons (g : nat → A) rid W s : for_each g (rid :: W) s = (g rid ;; for_each g W) s.
Proof. done. Qed.

(** After the refresh nothing awaits it. *)
Lemma for_each_idle (g : nat → A) W s : (∀ rid s1, refreshPromise (g rid s1).1 = refreshPromise s1) →
  refreshPromise (for_each g W s).1 = refreshPromise s.
Proof.
  intros Hg. revert s. induction W as [|rid W IH]; intros s; [done|].
  by rewrite for_each_cons, seq_fst, IH, Hg.
Qed.

Lemma update_refresh rid f s : refreshPromise (update_request rid f s) = refreshPromise s.
Proof. unfold update_request. by case_match. Qed.
Lemma settle_refresh rid res s : refreshPromise (settle rid res s).1 = refreshPromise s.
Proof. unfold settle, set_phase. cbn. case_match; cbn; apply update_refresh. Qed.
Lemma resume_refresh o rid s : refreshPromise (resume o rid s).1 = refreshPromise s.
Proof.
  unfold resume. destruct (requests s !! rid) as [r|]; [|done]. destruct (phase r); try done.
  destruct o; cbn [fst]; autorewrite with client; rewrite ?settle_refresh, ?update_refresh; done.
Qed.

Lemma inv_idle s : linv [] s → refreshPromise s = None → inv s.
Proof. intros Hl E. split; [|by rewrite E]. unfold waiting. by rewrite E. Qed.

Lemma refresh_done_inv o f s : linv (waiters f) s → inv (refresh_done o f s).1.
Proof.
  intros Hl. unfold refresh_done. rewrite seq_fst. cbn [upd fst]. apply inv_idle.
  - apply for_each_linv; [intros; by apply resume_linv|by apply (linv_same _ s)].
  - by rewrite for_each_idle by (intros; apply resume_refresh).
Qed.

Lemma refresh_rejected_inv err f s : linv (waiters f) s → inv (refresh_rejected err f s).1.
Proof.
  intros Hl. unfold refresh_rejected. rewrite seq_fst. cbn [upd fst]. apply inv_idle.
  - apply for_each_linv; [intros; by apply settle_next|by apply (linv_same _ s)].
  - by rewrite for_each_idle by (intros; apply settle_refresh).
Qed.

(** The refresh goes on. *)
Lemma inv_refreshing f s : linv (waiters f) s → (raceAttempt f <= 3)%nat →
  (stage f = delayed → (raceAttempt f < 3)%nat) → inv (set_refresh (Some f) s).
Proof. intros Hl H1 H2. split; [by apply (linv_same _ s)|]. cbn. by intros ? [= <-]. Qed.

Lemma run_attempt_inv i allow f s : linv (waiters f) s → (i <= 3)%nat → inv (run_attempt i allow f s).1.
Proof.
  intros Hl Hi. unfold run_attempt. case_match; [|by apply refresh_done_inv].
  cbn [fst]. by apply inv_refreshing.
Qed.

Lemma run_replied_inv resp f s : linv (waiters f) s → (raceAttempt f <= 3)%nat → inv (run_replied resp f s).1.
Proof.
  intros Hl Hi. unfold run_replied. case_match; [|by apply refresh_done_inv].
  destruct (verdict _ _ _ _) as [c o|d|c] eqn:Ev; [rewrite seq_fst; apply refresh_done_inv| |rewrite seq_fst].
  - by apply (linv_same _ s).
  - apply verdict_race, race_attempt_bound with (allow := false) in Ev as [Hlt _]. by apply inv_refreshing.
  - apply run_attempt_inv; [by apply (linv_same _ s)|lia].
Qed.

Lemma lookup_snoc_or {B} (l : list B) y i x :
  (l ++ [y]) !! i = Some x ↔ l !! i = Some x ∨ i = length l ∧ x = y.
Proof.
  rewrite lookup_snoc_Some. split; [naive_solver|]. intros [Hi|[-> ->]]; [left|by right].
  split; [by eapply lookup_lt_Some|done].
Qed.

(** A request is made, with a key that no request in flight has. *)
Lemma start_linv W s u c k :
  linv W s → (∀ x, k = Some x → jget x (inFlightGet s) = None ∧ x = request_key (web s) u c) →
  let s' := (start u c k s).1 in
  linv W match k with Some x => set_inFlightGet (jset x (length (requests s)) (inFlightGet s')) s' | None => s' end.
Proof.
  intros Hl Hk s'. set (n := length (requests s)).
  assert (∀ i x, (requests s ++ [mkReq u c k queued]) !! i = Some x ↔
     requests s !! i = Some x ∨ i = n ∧ x = mkReq u c k queued) as Hlook
    by (intros; apply lookup_snoc_or).
  assert (requests s !! n = None) as Hn by (apply lookup_ge_None; unfold n; lia).
  assert (∀ i x, (callers s ++ [(sessionSID (web s), n)]) !! i = Some x ↔
     callers s !! i = Some x ∨ i = length (callers s) ∧ x = (sessionSID (web s), n)) as Hcall
    by (intros; apply lookup_snoc_or).
  assert (∀ i x j, callers s !! i = Some (x, j) → j ≠ n) as Hold.
  { intros i x j Hi ->. destruct (l_callers _ _ Hl i x n Hi) as (r & Hr & _). congruence. }
  set (s2 := match k with Some x => _ | None => _ end).
  assert (requests s2 = requests s ++ [mkReq u c k queued] ∧
          callers s2 = callers s ++ [(sessionSID (web s), n)]) as [E1 E2] by (unfold s2; by destruct k).
  assert (∀ x, jget x (inFlightGet s2) = if decide (k = Some x) then Some n else jget x (inFlightGet s)) as Hmap.
  { intros x. unfold s2. destruct k as [y|]; cbn; [|by rewrite decide_False].
    rewrite jget_jset. by repeat case_decide; simplify_eq. }
  clearbody s2. split; rewrite ?E1, ?E2.
  - apply Hl.
  - intros i. rewrite (l_waiters _ _ Hl). setoid_rewrite Hlook. split; [naive_solver|].
    intros (r & [Hr|[_ ->]] & Hf); [by eauto|done].
  - intros i r [Hr|[_ ->]]%Hlook Hf; [by eapply l_retry|done].
  - intros x i. rewrite Hmap. setoid_rewrite Hlook. case_decide as Hkx.
    + destruct (Hk x Hkx) as [Hnone _]. split.
      * intros [= <-]. eexists. split; [by right|]. done.
      * intros (r & [Hr|[-> _]] & Hrk & Hrs); [|done].
        assert (jget x (inFlightGet s) = Some i) by (apply (l_map _ _ Hl); eauto). congruence.
    + rewrite (l_map _ _ Hl). split.
      * intros (r & Hr & Hrest). exists r. auto.
      * intros (r & [Hr|[-> ->]] & Hrk & Hrs); [by eauto|done].
  - intros i x j [Hi|[-> [= -> ->]]]%Hcall.
    + destruct (l_callers _ _ Hl i x j Hi) as (r & Hr & Hrk). exists r. rewrite Hlook. auto.
    + exists (mkReq u c k queued). rewrite Hlook. split; [auto|]. cbn. intros y Hy.
      destruct (Hk y Hy) as [_ ->]. unfold request_key. cbn. eauto.
  - intros i j x y m r Hi Hj Hr Hrk. apply Hcall in Hi, Hj.
    destruct Hi as [Hi|[-> [= -> ->]]], Hj as [Hj|[-> Ej]]; simplify_eq; try done.
    + apply Hlook in Hr as [Hr|[-> _]]; [|by destruct (Hold i x n)].
      exact (l_single _ _ Hl i j x y m r Hi Hj Hr Hrk).
    + by destruct (Hold i x n).
    + by destruct (Hold j y n).
Qed.

(** A caller joins a request in flight. *)
Lemma join_linv W s k rid rest :
  linv W s → jget k (inFlightGet s) = Some rid → k = sessionSID (web s) ++ js ":" ++ rest →
  linv W (set_callers (callers s ++ [(sessionSID (web s), rid)]) s).
Proof.
  intros Hl Hk Ek. apply (l_map _ _ Hl) in Hk as (r & Hr & Hrk & Hrs).
  assert (∀ i x, (callers s ++ [(sessionSID (web s), rid)]) !! i = Some x ↔
     callers s !! i = Some x ∨ i = length (callers s) ∧ x = (sessionSID (web s), rid)) as Hcall
    by (intros; apply lookup_snoc_or).
  split; try apply Hl.
  - intros i x j [Hi|[-> [= -> ->]]]%Hcall; [exact (l_callers _ _ Hl i x j Hi)|].
    exists r. split; [done|]. intros y Hy. simplify_eq. eauto.
  - intros i j x y m q Hi Hj Hr' Hrk'. cbn in Hr'. apply Hcall in Hi, Hj.
    destruct Hi as [Hi|[-> Ei]], Hj as [Hj|[-> Ej]]; simplify_eq; try done.
    exact (l_single _ _ Hl i j x y m q Hi Hj Hr' Hrk').
Qed.

Lemma get_linv W u c s : linv W s → linv W (get u c s).1 ∧ refreshPromise (get u c s).1 = refreshPromise s.
Proof.
  intros Hl. unfold get. destruct (disableDuplicate c).
  { split; [|done]. by apply (start_linv W s u c None). }
  destruct (jget _ _) as [rid|] eqn:Ek; cbn [fst].
  - split; [|done]. eapply join_linv; [done|exact Ek|reflexivity].
  - split; [|done]. unfold reading. rewrite seq_fst.
    by apply (start_linv W s u c (Some (request_key (web s) u c))); [|intros ? [= <-]].
Qed.

Lemma join_refresh_inv rid s : linv (waiting s ++ rid) s →
  (∀ f, refreshPromise s = Some f → (raceAttempt f <= 3)%nat ∧ (stage f = delayed → (raceAttempt f < 3)%nat)) →
  inv (refreshAuthentication rid s).1.
Proof.
  unfold refreshAuthentication, waiting. intros Hl Hr. destruct (refreshPromise s) as [f|]; cbn [fst].
  - destruct (Hr f) as [H1 H2]; [done|]. by apply inv_refreshing.
  - apply inv_refreshing; cbn; [done|lia|done].
Qed.

Lemma onRejected_inv rid r err b s : inv s → requests s !! rid = Some r → phase r = sent →
  inv (onRejected rid r err b s).1.
Proof.
  intros [Hl Hrace] Hr Hp.
  assert (is_settled r = false ∧ is_refreshing r = false) as [Hs Hf]
    by (unfold is_settled, is_refreshing; by rewrite Hp).
  assert (rid ∉ waiting s) as Hnot.
  { intros (q & Hq & Hqf)%(l_waiters _ _ Hl). congruence. }
  assert (∀ w, inv (settle rid (Rejected err) (set_web w s)).1) as Hset.
  { intros w. assert (linv (waiting s) (set_web w s)) as Hlw by by apply (linv_same _ s).
    split; [|rewrite settle_refresh; exact Hrace].
    unfold waiting. rewrite settle_refresh. by apply (settle_other _ (set_web w s) rid r). }
  pose proof (Hset (web s)) as Hset0. replace (set_web (web s) s) with s in Hset0 by by destruct s.
  unfold onRejected. destruct (is_num_lit _ _); [|rewrite seq_fst; by case_match].
  destruct (b && _ && _); [|destruct (b && _)]; autorewrite with client; cbn [upd fst]; [|done|by case_match].
  apply join_refresh_inv; [|unfold waiting; by rewrite update_refresh].
  unfold waiting. rewrite update_refresh, (update_request_eq _ r) by done.
  eapply (linv_update (waiting s)); try done.
  - apply NoDup_app. split; [apply Hl|]. split; [|apply NoDup_singleton]. intros i Hi ->%list_elem_of_singleton. done.
  - intros i Hi. rewrite elem_of_app, list_elem_of_singleton. naive_solver.
  - split; [done|]. intros _. apply elem_of_app. right. by apply list_elem_of_singleton.
Qed.

Lemma onFulfilled_inv rid r v s : inv s → requests s !! rid = Some r → phase r = sent →
  inv (onFulfilled rid r v s).1.
Proof.
  intros [Hl Hrace] Hr Hp.
  assert (is_settled r = false ∧ is_refreshing r = false) as [Hs Hf]
    by (unfold is_settled, is_refreshing; by rewrite Hp).
  assert (∀ w res, inv (settle rid res (set_web w s)).1) as Hset.
  { intros w res. split; [|rewrite settle_refresh; exact Hrace].
    unfold waiting. rewrite settle_refresh. apply (settle_other _ (set_web w s) rid r); try done.
    by apply (linv_same _ s). }
  unfold onFulfilled. 
  generalize (if acceptAuthRotation (config r) && is_bool_lit (prop "success" v) true
              then applyAuthRotation (prop "data" v) (web s) else Ok (web s)). intros [w|e].
  - autorewrite with client. apply Hset.
  - specialize (Hset (web s) (RotationRejected e)). by destruct s.
Qed.

Lemma dispatch_inv rid r s : inv s → requests s !! rid = Some r → phase r = queued → inv (dispatch rid s).1.
Proof.
  intros [Hl Hrace] Hr Hp. unfold dispatch. cbn [fst].
  assert (is_settled r = false ∧ is_refreshing r = false) as [Hs Hf]
    by (unfold is_settled, is_refreshing; by rewrite Hp).
  assert (rid ∉ waiting s) as Hnot.
  { intros (q & Hq & Hqf)%(l_waiters _ _ Hl). congruence. }
  split; [|by rewrite update_refresh]. unfold waiting. rewrite update_refresh, (update_request_eq _ r) by done.
  eapply (linv_update (waiting s)); try done. apply Hl.
Qed.

Lemma client_inv_step s l s' : inv s → step s l s' → inv s'.
Proof.
  intros Hi [He Hh]. destruct l as [e o]. cbn in He, Hh.
  assert (inv (handle e s).1) as H; [|by rewrite Hh in H]. clear Hh. pose proof Hi as [Hl Hrace].
  assert (∀ f, refreshPromise s = Some f → linv (waiters f) s ∧ (raceAttempt f <= 3)%nat) as Hf.
  { intros f E. split; [|by apply Hrace]. unfold waiting in Hl. by rewrite E in Hl. }
  destruct e; cbn [handle enabled] in He |- *; cbv zeta;
    try (destruct He as (f & Ef & Eg); rewrite Ef; destruct (Hf f Ef) as [Hlf Hrf]);
    try (destruct He as (r & Hr & Hp); rewrite ?Hr).
  - destruct (get_linv _ u c s Hl) as [H1 H2]. split; unfold waiting; by rewrite H2.
  - split; [|done]. by apply (start_linv _ s u c None).
  - apply join_refresh_inv; [by rewrite app_nil_r|done].
  - split; [|done]. by apply (linv_same _ s).
  - split; [|done]. by apply (linv_same _ s).
  - by eapply dispatch_inv.
  - by apply onFulfilled_inv.
  - by apply onRejected_inv.
  - rewrite seq_fst. apply refresh_done_inv. by apply (linv_same _ s).
  - by apply refresh_rejected_inv.
  - apply run_attempt_inv; [done|lia].
  - by apply run_replied_inv.
  - apply run_attempt_inv; [done|]. by apply Hrace.
Qed.

Lemma client_inv_init w p : inv (init w p).
Proof.
  apply inv_idle; [|done]. split; cbn; try done.
  - constructor.
  - intros rid. split; [by intros ?%not_elem_of_nil|]. by intros (r & Hr & _).
  - intros k rid. split; [done|]. by intros (r & Hr & _).
Qed.

Lemma client_inv w p ls s : reaches step (init w p) ls s → inv s.
Proof. apply reaches_inv; [apply client_inv_step|apply client_inv_init]. Qed.

(** ** Every request settles *)

(** The steps a request, and a refresh, may still take. *)
Definition weight (r : Req) : nat :=
  match phase r with
  | queued => if authRetry (config r) then 2 else 25
  | sent => if authRetry (config r) then 1 else 24
  | refreshing _ => 3
  | settled _ => 0
  end.
Definition refresh_work (f : Refresh) : nat :=
  match stage f with
  | locking => 17
  | posted => 2 * request_bound (raceAttempt f) (allowMismatchRetry f)
  | delayed => 2 * request_bound (S (raceAttempt f)) (allowMismatchRetry f) + 1
  end.
Definition load (s : State) : nat := sum_list_with weight (requests s).
Definition work (s : State) : nat := (load s + from_option refresh_work 0 (refreshPromise s))%nat.
Definition pending (s : State) : nat := length (filter (λ r, is_settled r = false) (requests s)).

(** The events that no call of the page and no other code causes. *)
Definition internal (e : Event) : bool :=
  match e with
  | Get _ _ | Request _ _ | RefreshElsewhere | StoreChanged _ | Navigated _ => false
  | _ => true
  end.

Lemma sum_insert {B} (f : B → nat) l i x y : l !! i = Some x →
  (sum_list_with f (<[i := y]> l) + f x = sum_list_with f l + f y)%nat.
Proof.
  revert i. induction l as [|z l IH]; intros [|i] Hi; simplify_eq/=; [lia|]. specialize (IH _ Hi). lia.
Qed.

Lemma load_update rid r f s : requests s !! rid = Some r →
  (load (update_request rid f s) + weight r = load s + weight (f r))%nat.
Proof. intros Hr. rewrite (update_request_eq _ r) by done. by apply sum_insert. Qed.

Lemma load_settle rid r res s : requests s !! rid = Some r →
  (load (settle rid res s).1 + weight r = load s)%nat.
Proof.
  intros Hr. unfold settle. cbn [fst]. pose proof (load_update rid r (with_phase (settled res)) s Hr) as E.
  change (weight (with_phase (settled res) r)) with 0%nat in E. fold (set_phase rid (settled res) s) in E.
  case_match; unfold load in *; cbn; lia.
Qed.

Lemma bearer_retry w c : authRetry (bearer w c) = authRetry c.
Proof. unfold bearer. by case_match. Qed.

Lemma load_resume o rid W s : linv (rid :: W) s → (load (resume o rid s).1 <= load s)%nat.
Proof.
  intros Hl. destruct (proj1 (l_waiters _ _ Hl rid) ltac:(left)) as (r & Hr & Hf).
  pose proof (l_retry _ _ Hl rid r Hr Hf) as Hret. unfold resume. rewrite Hr.
  unfold is_refreshing in Hf. destruct (phase r) as [| |err|] eqn:Ep; try done.
  pose proof (λ res, load_settle rid r res s Hr) as Hset.
  pose proof (load_update rid r (λ r, with_phase queued (with_config (bearer (web s) (config r)) r)) s Hr) as Hup.
  unfold weight in Hup at 1 2. cbn in Hup. rewrite Ep, bearer_retry, Hret in Hup.
  destruct o; cbn [fst]; autorewrite with client;
    first [specialize (Hset (Rejected err)); lia | lia].
Qed.

Lemma load_for_each (g : nat → A) W s :
  (∀ rid V s1, linv (rid :: V) s1 → linv V (g rid s1).1 ∧ (load (g rid s1).1 <= load s1)%nat) →
  linv W s → (load (for_each g W s).1 <= load s)%nat.
Proof.
  intros Hg. revert s. induction W as [|rid W IH]; intros s Hl; [done|].
  rewrite for_each_cons, seq_fst. destruct (Hg rid W s Hl) as [H1 H2]. specialize (IH _ H1). lia.
Qed.

Lemma work_done o f s : linv (waiters f) s → (work (refresh_done o f s).1 <= load s)%nat.
Proof.
  intros Hl. unfold work, refresh_done. rewrite seq_fst. cbn [upd fst].
  rewrite for_each_idle by (intros; apply resume_refresh). cbn [set_refresh refreshPromise from_option].
  assert (linv (waiters f) (set_refresh None s)) as Hl' by by apply (linv_same _ s).
  pose proof (load_for_each (resume o) _ _ (λ rid V s1 H1, conj (resume_linv o rid V s1 H1) (load_resume o rid V s1 H1)) Hl').
  unfold load in *. cbn in *. lia.
Qed.

Lemma load_settle_le rid res s : (load (settle rid res s).1 <= load s)%nat.
Proof.
  destruct (requests s !! rid) as [r|] eqn:Hr; [pose proof (load_settle rid r res s Hr); lia|].
  unfold settle, set_phase, update_request. by rewrite Hr.
Qed.

Lemma work_rejected err f s : linv (waiters f) s → (work (refresh_rejected err f s).1 <= load s)%nat.
Proof.
  intros Hl. unfold work, refresh_rejected. rewrite seq_fst. cbn [upd fst].
  rewrite for_each_idle by (intros; apply settle_refresh). cbn [set_refresh refreshPromise from_option].
  assert (linv (waiters f) (set_refresh None s)) as Hl' by by apply (linv_same _ s).
  pose proof (load_for_each (λ rid, settle rid (Rejected err)) _ _
    (λ rid V s1 H1, conj (settle_next rid V s1 _ H1) (load_settle_le rid _ s1)) Hl').
  unfold load in *. cbn in *. lia.
Qed.

Lemma work_attempt i allow f s : linv (waiters f) s →
  (work (run_attempt i allow f s).1 <= load s + 2 * request_bound i allow)%nat.
Proof.
  intros Hl. unfold run_attempt. case_match; [done|]. pose proof (work_done Superseded f s Hl). lia.
Qed.

Lemma work_replied resp f s : linv (waiters f) s → (raceAttempt f <= 3)%nat →
  (work (run_replied resp f s).1 < load s + 2 * request_bound (raceAttempt f) (allowMismatchRetry f))%nat.
Proof.
  intros Hl Hi. assert (1 <= request_bound (raceAttempt f) (allowMismatchRetry f))%nat as Hpos
    by (unfold request_bound; lia).
  pose proof (work_done Superseded f s Hl) as Hsup.
  unfold run_replied. case_match; [|lia].
  destruct (verdict _ _ _ _) as [c o|d|c] eqn:Ev; try rewrite seq_fst; cbn [upd fst].
  - assert (linv (waiters f) (set_web (c (web s)) s)) as Hl' by by apply (linv_same _ s).
    pose proof (work_done o f _ Hl') as Hd. unfold load in *. cbn in *. lia.
  - apply verdict_race, race_attempt_bound with (allow := false) in Ev as [Hlt _].
    unfold work, load. cbn. unfold request_bound. lia.
  - apply verdict_mismatch in Ev. assert (linv (waiters f) (set_web (c (web s)) s)) as Hl' by by apply (linv_same _ s).
    pose proof (work_attempt 0 false f _ Hl') as Hd. unfold load, request_bound in *. cbn in *. rewrite Ev. lia.
Qed.

Lemma work_settle rid r w res s : requests s !! rid = Some r → phase r = sent →
  (work (settle rid res (set_web w s)).1 < work s)%nat.
Proof.
  intros Hr Hp. unfold work. rewrite settle_refresh.
  change (refreshPromise (set_web w s)) with (refreshPromise s).
  pose proof (load_settle rid r res (set_web w s) Hr) as E. unfold weight in E. rewrite Hp in E.
  change (load (set_web w s)) with (load s) in E. destruct (authRetry (config r)); lia.
Qed.

Lemma work_onRejected rid r err b s : inv s → requests s !! rid = Some r → phase r = sent →
  (work (onRejected rid r err b s).1 < work s)%nat.
Proof.
  intros [Hl Hrace] Hr Hp.
  pose proof (λ w, work_settle rid r w (Rejected err) s Hr Hp) as Hset.
  pose proof (Hset (web s)) as Hset0. replace (set_web (web s) s) with s in Hset0 by by destruct s.
  unfold onRejected. destruct (is_num_lit _ _); [|rewrite seq_fst; by case_match].
  destruct (b && _ && _) eqn:Eb; [|destruct (b && authRetry (config r))]; autorewrite with client; cbn [upd fst]; [|apply Hset|by case_match].
  boolify. match goal with H : authRetry _ = false |- _ => rename H into Hret end.
  pose proof (load_update rid r (λ r, with_phase (refreshing err) (with_config (with_authRetry (config r)) r)) s Hr) as Hup.
  unfold weight in Hup at 1 2. cbn in Hup. rewrite Hp, Hret in Hup.
  set (s1 := update_request _ _ s) in *.
  assert (refreshPromise s1 = refreshPromise s) as Er by apply update_refresh.
  unfold work, refreshAuthentication. rewrite Er.
  destruct (refreshPromise s) as [f|]; cbn [fst set_refresh refreshPromise from_option];
    unfold load in *; cbn [set_refresh requests].
  - change (refresh_work (mkRefresh _ _ _ _ _)) with (refresh_work f). lia.
  - change (refresh_work _) with 17%nat. lia.
Qed.

Lemma work_onFulfilled rid r v s : requests s !! rid = Some r → phase r = sent →
  (work (onFulfilled rid r v s).1 < work s)%nat.
Proof.
  intros Hr Hp.
  pose proof (λ w res, work_settle rid r w res s Hr Hp) as Hset.
  unfold onFulfilled.
  generalize (if acceptAuthRotation (config r) && is_bool_lit (prop "success" v) true
              then applyAuthRotation (prop "data" v) (web s) else Ok (web s)). intros [w|e].
  - autorewrite with client. apply Hset.
  - specialize (Hset (web s) (RotationRejected e)). by destruct s.
Qed.

Lemma work_dispatch rid r s : requests s !! rid = Some r → phase r = queued → (work (dispatch rid s).1 < work s)%nat.
Proof.
  intros Hr Hp. unfold dispatch, work. cbn [fst]. rewrite update_refresh.
  pose proof (load_update rid r (λ r, with_phase sent (with_config (bearer (web s) (config r)) r)) s Hr) as Hup.
  unfold weight in Hup at 1 2. cbn in Hup. rewrite Hp, bearer_retry in Hup. destruct (authRetry (config r)); lia.
Qed.

(** Every internal event uses up work. *)
Lemma work_step s e : inv s → internal e = true → enabled e s → (work (handle e s).1 < work s)%nat.
Proof.
  intros Hi Hint He. pose proof Hi as [Hl Hrace].
  assert (∀ f, refreshPromise s = Some f → linv (waiters f) s ∧ (raceAttempt f <= 3)%nat ∧
    work s = (load s + refresh_work f)%nat) as Hf.
  { intros f E. split_and!; [|by apply Hrace|by unfold work; rewrite E]. unfold waiting in Hl. by rewrite E in Hl. }
  destruct e; try done; cbn [handle enabled] in He |- *; cbv zeta;
    try (destruct He as (f & Ef & Eg); rewrite Ef; destruct (Hf f Ef) as (Hlf & Hrf & ->);
         unfold refresh_work; rewrite Eg);
    try (destruct He as (r & Hr & Hp); rewrite ?Hr).
  - by eapply work_dispatch.
  - by apply work_onFulfilled.
  - by apply work_onRejected.
  - rewrite seq_fst. cbn [upd fst].
    pose proof (work_done (TransientError err) f _ (linv_same _ s
      (set_web (with_auth (setBootstrapState idle) (web s)) s) eq_refl eq_refl eq_refl Hlf)) as Hd.
    unfold load in *. cbn in *. lia.
  - pose proof (work_rejected err f s Hlf). lia.
  - pose proof (work_attempt 0 true f s Hlf) as Hd. unfold request_bound in Hd. lia.
  - by apply work_replied.
  - pose proof (work_attempt (S (raceAttempt f)) (allowMismatchRetry f) f s Hlf). lia.
Qed.

Lemma work_run s es s' : inv s → reaches step s es s' → Forall (λ l, internal l.1 = true) es →
  inv s' ∧ (length es + work s' <= work s)%nat.
Proof.
  intros Hi. induction 1 as [|es s1 l s2 _ IH Hs]; intros Hint; [split; [done|cbn; lia]|].
  apply Forall_app in Hint as [H1 H2]. destruct (IH H1) as [Hi1 Hw]. split; [by eapply client_inv_step|].
  destruct Hs as [He Hh]. apply Forall_cons in H2 as [H2 _]. pose proof (work_step s1 l.1 Hi1 H2 He) as Hd.
  rewrite Hh in Hd. rewrite length_app. cbn in *. lia.
Qed.

Lemma work_bound s : inv s → (work s <= 25 * pending s + 17)%nat.
Proof.
  intros [_ Hrace]. unfold work.
  assert (load s <= 25 * pending s)%nat.
  { unfold load, pending. induction (requests s) as [|r l IH]; [done|]. cbn [sum_list_with]. rewrite filter_cons.
    assert (weight r <= if is_settled r then 0 else 25)%nat
      by (unfold weight, is_settled; destruct (phase r), (authRetry (config r)); lia).
    destruct (is_settled r) eqn:Er; case_decide; try congruence; cbn; lia. }
  destruct (refreshPromise s) as [f|]; cbn; [|lia]. unfold refresh_work, request_bound.
  destruct (stage f), (allowMismatchRetry f); lia.
Qed.

(** Until all is settled something can happen. *)
Lemma progress s : inv s →
  (∀ rid r, requests s !! rid = Some r → is_settled r = true) ∨ ∃ e, internal e = true ∧ enabled e s.
Proof.
  intros [Hl _]. destruct (refreshPromise s) as [f|] eqn:Ef.
  { right. destruct (stage f) eqn:Es; [exists LockAcquired|exists (RefreshReplied (mkResponse 0 JUndef JUndef))|exists DelayOver];
      (split; [done|]); by exists f. }
  destruct (decide (Forall (λ r, is_settled r = true) (requests s))) as [Ha|Hn].
  { left. intros rid r Hr. rewrite Forall_lookup in Ha. by eapply Ha. }
  right. apply not_Forall_Exists in Hn; [|apply _]. apply Exists_exists in Hn as (r & [rid Hr]%list_elem_of_lookup & Hs).
  unfold is_settled in Hs. cbn in Hs. destruct (phase r) as [| |err|] eqn:Ep; [..|done].
  - exists (Dispatched rid). split; [done|]. by exists r.
  - exists (Fulfilled rid JUndef). split; [done|]. by exists r.
  - exfalso. assert (rid ∈ waiting s) as Hw.
    { apply (l_waiters _ _ Hl). exists r. unfold is_refreshing. by rewrite Ep. }
    unfold waiting in Hw. rewrite Ef in Hw. by apply not_elem_of_nil in Hw.
Qed.

(** C3: every request settles.  From any state the client can reach, replies, delays and
    the lock can occur at most twenty-five times for each request that is not settled and
    seventeen times more before new calls are made; and until every request is settled
    (and the map of requests in flight is empty) one of them can occur.  So a page that
    waits gets its answers, whatever the server answers, in whatever order. *)
Theorem client_settles w p ls s es s' :
  reaches step (init w p) ls s → reaches step s es s' → Forall (λ l, internal l.1 = true) es →
  (length es <= 25 * pending s + 17)%nat ∧
  ((∀ rid r, requests s' !! rid = Some r → is_settled r = true) ∧ (∀ k, jget k (inFlightGet s') = None) ∨
   ∃ e, internal e = true ∧ enabled e s').
Proof.
  intros Hi%client_inv Hes Hint. destruct (work_run s es s' Hi Hes Hint) as [Hi' Hw].
  pose proof (work_bound s Hi). split; [lia|]. destruct (progress s' Hi') as [Ha|He]; [|by right].
  left. split; [done|]. intros k. destruct (jget k (inFlightGet s')) as [rid|] eqn:Ek; [|done].
  apply (l_map _ _ (i_linv _ Hi')) in Ek as (r & Hr & _ & Hs). by rewrite (Ha rid r Hr) in Hs.
Qed.

(** ** How often a request is sent, and settles *)
Definition sends (rid : nat) (os : list Out) : nat :=
  length (filter (λ o, match o with sendRequest i _ => bool_decide (i = rid) | _ => false end = true) os).
Definition settles (rid : nat) (os : list Out) : nat :=
  length (filter (λ o, match o with settle_promise i _ => bool_decide (i = rid) | _ => false end = true) os).

Lemma settles_one i rid res : settles i [settle_promise rid res] = if decide (rid = i) then 1%nat else 0%nat.
Proof. unfold settles. rewrite filter_cons, filter_nil. by repeat case_decide; boolify; simplify_eq. Qed.
Lemma sends_one i rid a : sends i [sendRequest rid a] = if decide (rid = i) then 1%nat else 0%nat.
Proof. unfold sends. rewrite filter_cons, filter_nil. by repeat case_decide; boolify; simplify_eq. Qed.

(** Sends that may have been made of a request in its phase. *)
Definition sent_up_to (r : Req) : nat :=
  match phase r with
  | queued => if authRetry (config r) then 1 else 0
  | sent => if authRetry (config r) then 2 else 1
  | refreshing _ => 1
  | settled _ => 2
  end.
Definition budget (rid : nat) (s : State) : nat := from_option sent_up_to 0%nat (requests s !! rid).
Definition finished (rid : nat) (s : State) : nat :=
  from_option (λ r, if is_settled r then 1 else 0)%nat 0%nat (requests s !! rid).

(** The calls account for what became of the requests. *)
Definition accounts (s : State) (os : list Out) (s' : State) : Prop := ∀ rid,
  (settles rid os + finished rid s = finished rid s' ∧ sends rid os + budget rid s <= budget rid s')%nat.

Lemma accounts_app s o1 s1 o2 s2 : accounts s o1 s1 → accounts s1 o2 s2 → accounts s (o1 ++ o2) s2.
Proof.
  intros H1 H2 rid. destruct (H1 rid), (H2 rid). unfold sends, settles in *.
  rewrite !filter_app, !length_app. lia.
Qed.

Lemma accounts_seq (a b : A) s : accounts s (a s).2 (a s).1 → accounts (a s).1 (b (a s).1).2 (b (a s).1).1 →
  accounts s ((a ;; b) s).2 ((a ;; b) s).1.
Proof. rewrite seq_fst, seq_snd. apply accounts_app. Qed.

(** Calls that neither send nor settle. *)
Definition quiet (o : Out) : Prop := match o with sendRequest _ _ | settle_promise _ _ => False | _ => True end.

Lemma accounts_quiet s os s' : Forall quiet os → requests s' = requests s → accounts s os s'.
Proof.
  intros Hq E rid. unfold finished, budget. rewrite E. unfold sends, settles.
  induction Hq as [|o os Ho _ IH]; [cbn; lia|]. by destruct o.
Qed.

(** A request is changed, without being sent or settled. *)
Lemma accounts_update rid r f s : requests s !! rid = Some r → is_settled r = is_settled (f r) →
  (sent_up_to r <= sent_up_to (f r))%nat → accounts s [] (update_request rid f s).
Proof.
  intros Hr Hs Hb i. rewrite (update_request_eq _ r) by done. unfold finished, budget. cbn [set_requests requests].
  destruct (decide (i = rid)) as [->|Hi].
  - rewrite list_lookup_insert_eq, Hr by (by eapply lookup_lt_Some). cbn. rewrite Hs. lia.
  - rewrite list_lookup_insert_ne by done. cbn. lia.
Qed.

Lemma accounts_settle rid r res s : requests s !! rid = Some r → is_settled r = false →
  accounts s (settle rid res s).2 (settle rid res s).1.
Proof.
  intros Hr Hs i. assert (requests (settle rid res s).1 = <[rid := with_phase (settled res) r]> (requests s)) as E.
  { unfold settle, set_phase. rewrite (update_request_eq _ r) by done. cbn. by case_match. }
  unfold finished, budget. rewrite E. cbn [settle snd]. rewrite settles_one.
  change (sends i [settle_promise rid res]) with 0%nat. destruct (decide (rid = i)) as [<-|Hi].
  - rewrite list_lookup_insert_eq, Hr by (by eapply lookup_lt_Some). cbn [from_option]. rewrite Hs. cbn.
    unfold sent_up_to. destruct (phase r), (authRetry (config r)); lia.
  - rewrite list_lookup_insert_ne by done. lia.
Qed.

Lemma sessionExpired_quiet c s : Forall quiet (sessionExpired c s).2.
Proof. unfold sessionExpired. case_match; by repeat constructor. Qed.
Lemma redirect_quiet s : Forall quiet (redirectToSignIn s).2.
Proof. unfold redirectToSignIn, when, ite. case_match; by repeat constructor. Qed.
Lemma businessError_quiet c v s : Forall quiet (businessError c v s).2.
Proof. unfold businessError. case_match; by repeat constructor. Qed.

(** What is said before a request settles. *)
Lemma accounts_told (a : A) rid r res s : requests s !! rid = Some r → is_settled r = false →
  (a s).1 = s → Forall quiet (a s).2 → accounts s ((a ;; settle rid res) s).2 ((a ;; settle rid res) s).1.
Proof.
  intros Hr Hs Ha Hq. apply accounts_seq; [by apply accounts_quiet; rewrite ?Ha|].
  rewrite Ha. by eapply accounts_settle.
Qed.

Lemma expired_told c s : ((sessionExpired c ;; redirectToSignIn) s).1 = s ∧
  Forall quiet ((sessionExpired c ;; redirectToSignIn) s).2.
Proof.
  autorewrite with client. split; [done|]. rewrite seq_snd, Forall_app.
  split; [apply sessionExpired_quiet|apply redirect_quiet].
Qed.

Lemma seq_assoc (a b c : A) s : (a ;; (b ;; c)) s = ((a ;; b) ;; c) s.
Proof.
  unfold seq_act. destruct (a s) as [s1 o1]. destruct (b s1) as [s2 o2]. destruct (c s2) as [s3 o3].
  by rewrite app_assoc.
Qed.

Lemma resume_accounts o rid W s : linv (rid :: W) s → accounts s (resume o rid s).2 (resume o rid s).1.
Proof.
  intros Hl. destruct (proj1 (l_waiters _ _ Hl rid) ltac:(left)) as (r & Hr & Hf).
  pose proof (l_retry _ _ Hl rid r Hr Hf) as Hret. pose proof (refreshing_unsettled r Hf) as Hs.
  unfold resume. rewrite Hr. unfold is_refreshing in Hf. destruct (phase r) as [| |err|] eqn:Ep; try done.
  destruct (expired_told (config r) s) as [He1 He2].
  destruct o; first [by eapply accounts_settle | rewrite seq_assoc; by eapply accounts_told | idtac].
  eapply (accounts_update rid r); [done|by rewrite Hs|]. unfold sent_up_to. cbn. by rewrite Ep, bearer_retry, Hret.
Qed.

Lemma for_each_accounts (g : nat → A) W s :
  (∀ rid V s1, linv (rid :: V) s1 → linv V (g rid s1).1 ∧ accounts s1 (g rid s1).2 (g rid s1).1) →
  linv W s → accounts s (for_each g W s).2 (for_each g W s).1.
Proof.
  intros Hg. revert s. induction W as [|rid W IH]; intros s Hl; [by apply accounts_quiet|].
  rewrite for_each_cons. destruct (Hg rid W s Hl) as [H1 H2]. apply accounts_seq; [done|]. by apply IH.
Qed.

Lemma done_accounts o f s : linv (waiters f) s → accounts s (refresh_done o f s).2 (refresh_done o f s).1.
Proof.
  intros Hl. apply accounts_seq; [by apply accounts_quiet|]. apply for_each_accounts; [|by apply (linv_same _ s)].
  intros rid V s1 H1. split; [by apply resume_linv|by eapply resume_accounts].
Qed.

Lemma rejected_accounts err f s : linv (waiters f) s →
  accounts s (refresh_rejected err f s).2 (refresh_rejected err f s).1.
Proof.
  intros Hl. apply accounts_seq; [by apply accounts_quiet|]. apply for_each_accounts; [|by apply (linv_same _ s)].
  intros rid V s1 H1. split; [by apply settle_next|].
  destruct (proj1 (l_waiters _ _ H1 rid) ltac:(left)) as (r & Hr & Hf).
  eapply accounts_settle; [done|]. by apply refreshing_unsettled.
Qed.

Lemma attempt_accounts i allow f s : linv (waiters f) s →
  accounts s (run_attempt i allow f s).2 (run_attempt i allow f s).1.
Proof.
  intros Hl. unfold run_attempt. case_match; [|by apply done_accounts].
  apply accounts_quiet; [by repeat constructor|done].
Qed.

Lemma replied_accounts resp f s : linv (waiters f) s →
  accounts s (run_replied resp f s).2 (run_replied resp f s).1.
Proof.
  intros Hl. unfold run_replied. case_match; [|by apply done_accounts].
  destruct (verdict _ _ _ _) as [c o|d|c].
  - apply accounts_seq; [by apply accounts_quiet|]. apply done_accounts. by apply (linv_same _ s).
  - apply accounts_quiet; [by repeat constructor|done].
  - apply accounts_seq; [by apply accounts_quiet|]. apply attempt_accounts. by apply (linv_same _ s).
Qed.

Lemma join_accounts rid s : accounts s (refreshAuthentication rid s).2 (refreshAuthentication rid s).1.
Proof. unfold refreshAuthentication. case_match; apply accounts_quiet; by repeat constructor. Qed.

(** A request is made. *)
Lemma accounts_new s s' r : requests s' = requests s ++ [r] → phase r = queued → accounts s [] s'.
Proof.
  intros E Hp i. assert (is_settled r = false) as Hs by (unfold is_settled; by rewrite Hp).
  unfold finished, budget. rewrite E.
  destruct (decide (i < length (requests s))%nat) as [Hi|Hi]; [rewrite lookup_app_l by done; cbn; lia|].
  rewrite lookup_app_r by lia. rewrite (lookup_ge_None_2 (requests s)) by lia. cbn [from_option].
  change (settles i []) with 0%nat. change (sends i []) with 0%nat.
  destruct (i - length (requests s))%nat as [|n];
    [change ([r] !! 0%nat) with (Some r)|change ([r] !! S n) with (@None Req)]; cbn [from_option]; rewrite ?Hs; lia.
Qed.

Lemma get_accounts u c s : accounts s (get u c s).2 (get u c s).1.
Proof.
  unfold get. destruct (disableDuplicate c); [by eapply accounts_new|].
  destruct (jget _ _); [by apply accounts_quiet|]. unfold reading. rewrite seq_fst, seq_snd. by eapply accounts_new.
Qed.

Lemma dispatch_accounts rid r s : requests s !! rid = Some r → phase r = queued →
  accounts s (dispatch rid s).2 (dispatch rid s).1.
Proof.
  intros Hr Hp i. unfold dispatch. rewrite (update_request_eq _ r) by done. cbn [fst snd].
  unfold finished, budget. cbn [set_requests requests]. rewrite sends_one. change (settles i [_]) with 0%nat.
  destruct (decide (rid = i)) as [<-|Hi].
  - rewrite list_lookup_insert_eq, Hr by (by eapply lookup_lt_Some).
    cbn. unfold is_settled, sent_up_to. cbn. rewrite Hp, bearer_retry. destruct (authRetry (config r)); lia.
  - rewrite list_lookup_insert_ne by done. lia.
Qed.

Lemma onFulfilled_accounts rid r v s : requests s !! rid = Some r → phase r = sent →
  accounts s (onFulfilled rid r v s).2 (onFulfilled rid r v s).1.
Proof.
  intros Hr Hp. assert (is_settled r = false) as Hs by (unfold is_settled; by rewrite Hp). unfold onFulfilled.
  generalize (if acceptAuthRotation (config r) && is_bool_lit (prop "success" v) true
              then applyAuthRotation (prop "data" v) (web s) else Ok (web s)). intros [w|e];
    [|by eapply accounts_settle].
  apply accounts_seq; [by apply accounts_quiet|]. eapply accounts_told; [exact Hr|done| |].
  - apply businessError_fst.
  - apply businessError_quiet.
Qed.

Lemma onRejected_accounts rid r err b s : requests s !! rid = Some r → phase r = sent →
  accounts s (onRejected rid r err b s).2 (onRejected rid r err b s).1.
Proof.
  intros Hr Hp. assert (is_settled r = false) as Hs by (unfold is_settled; by rewrite Hp). unfold onRejected.
  destruct (is_num_lit _ _); [|eapply accounts_told; [done|done|by case_match|case_match; by repeat constructor]].
  destruct (b && negb _ && _) eqn:Eb; [|destruct (b && authRetry (config r))].
  - apply accounts_seq; [|apply join_accounts]. cbn [upd fst snd]. boolify.
    eapply (accounts_update rid r); [done|by rewrite Hs|]. unfold sent_up_to. cbn. rewrite Hp.
    destruct (authRetry (config r)); [done|lia].
  - destruct (expired_told (config r) (set_web (clearAuthentication false complete (web s)) s)) as [He1 He2].
    apply accounts_seq; [by apply accounts_quiet|]. rewrite seq_assoc. by eapply accounts_told.
  - eapply accounts_told; [done|done|by case_match|case_match; by repeat constructor].
Qed.

Lemma step_accounts s l s' : inv s → step s l s' → accounts s l.2 s'.
Proof.
  intros Hi [He Hh]. destruct l as [e o]. cbn in He, Hh.
  assert (accounts s (handle e s).2 (handle e s).1) as H; [|by rewrite Hh in H]. clear Hh. pose proof Hi as [Hl _].
  assert (∀ f, refreshPromise s = Some f → linv (waiters f) s) as Hf.
  { intros f E. unfold waiting in Hl. by rewrite E in Hl. }
  destruct e; cbn [handle enabled] in He |- *; cbv zeta;
    try (destruct He as (f & Ef & Eg); rewrite Ef; specialize (Hf f Ef));
    try (destruct He as (r & Hr & Hp); rewrite ?Hr).
  - apply get_accounts.
  - by eapply accounts_new.
  - apply join_accounts.
  - by apply accounts_quiet.
  - by apply accounts_quiet.
  - by eapply dispatch_accounts.
  - by apply onFulfilled_accounts.
  - by apply onRejected_accounts.
  - apply accounts_seq; [by apply accounts_quiet|]. apply done_accounts. by apply (linv_same _ s).
  - by apply rejected_accounts.
  - by apply attempt_accounts.
  - by apply replied_accounts.
  - by apply attempt_accounts.
Qed.

(** C5: whatever happens, a request reaches the server at most twice and its promise settles
    at most once; it is settled exactly when the promise did.  In particular an answer 401
    to a request that was sent again is never followed by another refresh for it. *)
Theorem client_sends_twice w p ls s rid :
  reaches step (init w p) ls s →
  (sends rid (outs ls) <= 2)%nat ∧ settles rid (outs ls) = finished rid s.
Proof.
  intros Hr. assert (accounts (init w p) (outs ls) s) as Ha.
  { induction Hr as [|ls s1 l s2 Hr IH Hs]; [by apply accounts_quiet|]. rewrite outs_snoc.
    eapply accounts_app; [done|]. eapply step_accounts; [by eapply client_inv|done]. }
  destruct (Ha rid) as [H1 H2]. change (finished rid (init w p)) with 0%nat in H1.
  split; [|lia].
  assert (budget rid s <= 2)%nat; [|lia]. unfold budget. destruct (requests s !! rid) as [r|]; cbn; [|lia].
  unfold sent_up_to. destruct (phase r), (authRetry (config r)); lia.
Qed.

(** ** What becomes of a request that was answered 401 *)
Definition resumed (o : RefreshOutcome) (w : Web) (r : Req) : Req :=
  match phase r with
  | refreshing err =>
      match o with
      | Authenticated _ => with_phase queued (with_config (bearer w (config r)) r)
      | _ => with_phase (settled (Rejected err)) r
      end
  | _ => r
  end.

Lemma update_alter rid f s : requests (update_request rid f s) = alter f rid (requests s).
Proof.
  unfold update_request. destruct (requests s !! rid) as [r|] eqn:Hr; cbn.
  - apply list_eq. intros i. destruct (decide (i = rid)) as [->|Hi].
    + by rewrite list_lookup_insert_eq, list_lookup_alter_eq, Hr by (by eapply lookup_lt_Some).
    + by rewrite list_lookup_insert_ne, list_lookup_alter_ne by done.
  - apply list_eq. intros i. destruct (decide (i = rid)) as [->|Hi].
    + by rewrite list_lookup_alter_eq, Hr.
    + by rewrite list_lookup_alter_ne by done.
Qed.

Lemma update_web rid f s : web (update_request rid f s) = web s.
Proof. unfold update_request. by case_match. Qed.

Lemma settle_alter rid res s :
  requests (settle rid res s).1 = alter (with_phase (settled res)) rid (requests s) ∧ web (settle rid res s).1 = web s.
Proof.
  unfold settle, set_phase. cbn [fst]. rewrite <- update_alter. case_match; cbn; by rewrite update_web.
Qed.

Lemma alter_when (g h : Req → Req) rid r (l : list Req) : l !! rid = Some r → g r = h r → alter g rid l = alter h rid l.
Proof.
  intros Hr Hg. apply list_eq. intros i. destruct (decide (i = rid)) as [->|Hi].
  - rewrite !list_lookup_alter_eq, Hr. cbn. by rewrite Hg.
  - by rewrite !list_lookup_alter_ne by done.
Qed.

Lemma resume_alter o rid s : requests (resume o rid s).1 = alter (resumed o (web s)) rid (requests s) ∧
  web (resume o rid s).1 = web s.
Proof.
  unfold resume. destruct (requests s !! rid) as [r|] eqn:Hr.
  2: { split; [|done]. apply list_eq. intros i. destruct (decide (i = rid)) as [->|Hi].
       - cbn. by rewrite list_lookup_alter_eq, Hr.
       - cbn. by rewrite list_lookup_alter_ne by done. }
  destruct (phase r) as [| |err|] eqn:Ep;
    try (split; [cbn [fst]|done]; rewrite (alter_when _ id rid r) by (by unfold resumed; rewrite ?Ep);
         symmetry; apply list_eq; intros i; destruct (decide (i = rid)) as [->|];
         [by rewrite list_lookup_alter_eq, Hr|by rewrite list_lookup_alter_ne by done]).
  destruct o; cbn [fst]; autorewrite with client; rewrite ?update_alter, ?update_web;
    try (destruct (settle_alter rid (Rejected err) s) as [-> ->]); (split; [|done]);
    apply (alter_when _ _ rid r); by rewrite ?Hr; unfold resumed; rewrite ?Ep.
Qed.

(** A handler that changes one request, for each of several. *)
Lemma for_each_alter (g : nat → A) (h : Web → Req → Req) W s :
  (∀ rid s1, requests (g rid s1).1 = alter (h (web s1)) rid (requests s1) ∧ web (g rid s1).1 = web s1) →
  NoDup W →
  web (for_each g W s).1 = web s ∧
  ∀ i r, requests s !! i = Some r →
    requests (for_each g W s).1 !! i = Some (if decide (i ∈ W) then h (web s) r else r).
Proof.
  intros Hg. revert s. induction W as [|rid W IH]; intros s HN.
  { split; [done|]. intros i r Hr. rewrite decide_False by apply not_elem_of_nil. done. }
  apply NoDup_cons in HN as [Hnot HN]. rewrite for_each_cons, seq_fst. destruct (Hg rid s) as [Hr Hw].
  destruct (IH (g rid s).1 HN) as [IHw IHr]. rewrite IHw, Hw. split; [done|]. intros i r Hi.
  rewrite Hw in IHr. destruct (decide (i = rid)) as [->|Hne].
  - rewrite (IHr rid (h (web s) r)) by (rewrite Hr, list_lookup_alter_eq, Hi; done).
    by rewrite decide_False, decide_True by (done || left).
  - rewrite (IHr i r) by (by rewrite Hr, list_lookup_alter_ne).
    destruct (decide (i ∈ W)) as [Hin|Hin]; [by rewrite decide_True by by right|].
    by rewrite decide_False by (rewrite elem_of_cons; naive_solver).
Qed.

Lemma refresh_done_requests o f s rid r : linv (waiters f) s → rid ∈ waiters f → requests s !! rid = Some r →
  web (refresh_done o f s).1 = web s ∧ refreshPromise (refresh_done o f s).1 = None ∧
  requests (refresh_done o f s).1 !! rid = Some (resumed o (web s) r).
Proof.
  intros Hl Hin Hr. unfold refresh_done. rewrite seq_fst. cbn [upd fst].
  destruct (for_each_alter (resume o) (resumed o) (waiters f) (set_refresh None s) (resume_alter o) (l_NoDup _ _ Hl))
    as [Hw Hq].
  rewrite Hw, for_each_idle by (intros; apply resume_refresh). split_and!; [done|done|].
  rewrite (Hq rid r Hr). by rewrite decide_True.
Qed.

Lemma refresh_rejected_requests err f s rid r : linv (waiters f) s → rid ∈ waiters f → requests s !! rid = Some r →
  web (refresh_rejected err f s).1 = web s ∧ refreshPromise (refresh_rejected err f s).1 = None ∧
  requests (refresh_rejected err f s).1 !! rid = Some (with_phase (settled (Rejected err)) r).
Proof.
  intros Hl Hin Hr. unfold refresh_rejected. rewrite seq_fst. cbn [upd fst].
  destruct (for_each_alter (λ rid, settle rid (Rejected err)) (λ _, with_phase (settled (Rejected err))) (waiters f)
    (set_refresh None s) (λ rid s1, settle_alter rid _ s1) (l_NoDup _ _ Hl)) as [Hw Hq].
  rewrite Hw, for_each_idle by (intros; apply settle_refresh). split_and!; [done|done|].
  rewrite (Hq rid r Hr). by rewrite decide_True.
Qed.

(** ** The events that do not belong to the refresh *)
Definition of_refresh (e : Event) : bool :=
  match e with LockThrew _ | LockFailed _ | LockAcquired | RefreshReplied _ | DelayOver => true | _ => false end.

Lemma alter_other {B} (h : B → B) rid i (x : B) (l : list B) : i ≠ rid → l !! i = Some x → alter h rid l !! i = Some x.
Proof. intros Hi Hx. by rewrite list_lookup_alter_ne. Qed.

Lemma settle_kept rid res s i r : i ≠ rid → requests s !! i = Some r →
  requests (settle rid res s).1 !! i = Some r ∧ refreshPromise (settle rid res s).1 = refreshPromise s.
Proof.
  intros Hi Hr. split; [|apply settle_refresh]. destruct (settle_alter rid res s) as [-> _]. by apply alter_other.
Qed.

Lemma onRejected_kept rid q err b s i r : i ≠ rid → requests s !! i = Some r →
  requests (onRejected rid q err b s).1 !! i = Some r ∧
  (is_Some (refreshPromise s) → is_Some (refreshPromise (onRejected rid q err b s).1)).
Proof.
  intros Hi Hr.
  assert (∀ w, requests (settle rid (Rejected err) (set_web w s)).1 !! i = Some r ∧
    (is_Some (refreshPromise s) → is_Some (refreshPromise (settle rid (Rejected err) (set_web w s)).1))) as Hset.
  { intros w. destruct (settle_kept rid (Rejected err) (set_web w s) i r Hi Hr) as [-> ->]. done. }
  pose proof (Hset (web s)) as Hset0. replace (set_web (web s) s) with s in Hset0 by by destruct s.
  unfold onRejected. destruct (is_num_lit _ _); [|rewrite seq_fst; by case_match].
  destruct (b && _ && _); [|destruct (b && _)]; autorewrite with client; cbn [upd fst]; [|apply Hset|by case_match].
  unfold refreshAuthentication. case_match; cbn [fst set_refresh requests refreshPromise]; rewrite update_alter;
    (split; [by apply alter_other|by eauto]).
Qed.

Lemma onFulfilled_kept rid q v s i r : i ≠ rid → requests s !! i = Some r →
  requests (onFulfilled rid q v s).1 !! i = Some r ∧
  refreshPromise (onFulfilled rid q v s).1 = refreshPromise s.
Proof.
  intros Hi Hr. unfold onFulfilled.
  generalize (if acceptAuthRotation (config q) && is_bool_lit (prop "success" v) true
              then applyAuthRotation (prop "data" v) (web s) else Ok (web s)). intros [w|e].
  - autorewrite with client. by destruct (settle_kept rid (Resolved v) (set_web w s) i r Hi Hr).
  - by apply settle_kept.
Qed.

Lemma other_kept s e i r : enabled e s → of_refresh e = false → requests s !! i = Some r → is_refreshing r = true →
  requests (handle e s).1 !! i = Some r ∧ (is_Some (refreshPromise s) → is_Some (refreshPromise (handle e s).1)).
Proof.
  intros He Ho Hr Hf.
  assert (∀ rid q p, requests s !! rid = Some q ∧ phase q = p → p = queued ∨ p = sent → i ≠ rid) as Hne.
  { intros rid q p [Hq Hp] Hp' ->. assert (q = r) as -> by congruence. unfold is_refreshing in Hf.
    rewrite Hp in Hf. by destruct Hp' as [-> | ->]. }
  destruct e; try done; cbn [handle enabled] in He |- *; cbv zeta.
  - unfold get. destruct (disableDuplicate c); [by split; [apply lookup_app_l_Some|]|].
    destruct (jget _ _); [done|]. unfold reading. rewrite seq_fst. split; [by apply lookup_app_l_Some|done].
  - split; [by apply lookup_app_l_Some|done].
  - unfold refreshAuthentication. case_match; cbn; by eauto.
  - destruct He as (q & Hq). unfold dispatch. cbn [fst]. rewrite update_alter, update_refresh.
    split; [|done]. apply alter_other; [|done]. eapply Hne; [exact Hq|by left].
  - destruct He as (q & Hq & Hp). rewrite Hq.
    destruct (onFulfilled_kept rid q data s i r) as [-> ->]; [eapply Hne; [done|by right]|done|done].
  - destruct He as (q & Hq & Hp). rewrite Hq. apply onRejected_kept; [eapply Hne; [done|by right]|done].
Qed.

(** A refresh that is over for a request it answered 401. *)
Lemma resumed_error o w r err : phase r = refreshing err → (∀ b, o ≠ Authenticated b) →
  resumed o w r = with_phase (settled (Rejected err)) r.
Proof. intros Hp Ho. unfold resumed. rewrite Hp. destruct o; try done. by destruct (Ho bundle). Qed.

Definition sent_again (b : AuthBundle) (r : Req) : Req :=
  with_phase queued (with_config (with_authorization (Some (js "Bearer " ++ access_token b)) (config r)) r).

(** The refresh asks again after this answer: a race was lost and a delay is left, or the
    answer is about another session and it is the first such. *)
Definition asks_again (f : Refresh) (resp : AuthRefreshHTTPResponse) : bool :=
  (lost_race resp && bool_decide (is_Some (refreshRaceDelays !! raceAttempt f)))
  || (mismatched resp && allowMismatchRetry f).

(** The refresh was not overtaken by a sign-in or sign-out. *)
Definition up_to_date (f : Refresh) (s : State) : bool := (authEpoch (web s) =? refreshEpoch f)%nat.

(** What an event does to a request that awaits the refresh [f] of [s]. *)
Definition awaited (e : Event) (s : State) (f : Refresh) (s' : State) (rid : nat) (r : Req) (err : jsval) : Prop :=
  let waits := is_Some (refreshPromise s') ∧ requests s' !! rid = Some r in
  let fails v := refreshPromise s' = None ∧ requests s' !! rid = Some (with_phase (settled (Rejected v)) r) in
  match e with
  | RefreshReplied resp =>
      if up_to_date f s then
        match bundle_of resp with
        | Some b => refreshPromise s' = None ∧ auth (web s') = signed_in_auth b ∧
                    requests s' !! rid = Some (sent_again b r)
        | None => if asks_again f resp then waits else fails err
        end
      else fails err
  | LockAcquired | DelayOver => if up_to_date f s then waits else fails err
  | LockThrew _ => fails err
  | LockFailed reason => fails reason
  | _ => waits
  end.

Section awaiting.
Context (s : State) (f : Refresh) (rid : nat) (r : Req) (err : jsval).
Context (Hl : linv (waiters f) s) (Ef : refreshPromise s = Some f) (Hin : rid ∈ waiters f).
Context (Hr : requests s !! rid = Some r) (Hp : phase r = refreshing err).

Lemma done_awaited o w : (∀ b, o ≠ Authenticated b) →
  refreshPromise (refresh_done o f (set_web w s)).1 = None ∧
  requests (refresh_done o f (set_web w s)).1 !! rid = Some (with_phase (settled (Rejected err)) r).
Proof.
  intros Ho. assert (linv (waiters f) (set_web w s)) as Hlw by by apply (linv_same _ s).
  destruct (refresh_done_requests o f (set_web w s) rid r Hlw Hin Hr) as (_ & Hn & Hq).
  split; [done|]. rewrite Hq. f_equal. by apply resumed_error.
Qed.

Lemma attempt_awaited i allow w : authEpoch w = authEpoch (web s) →
  if up_to_date f s then
    is_Some (refreshPromise (run_attempt i allow f (set_web w s)).1) ∧
    requests (run_attempt i allow f (set_web w s)).1 !! rid = Some r
  else refreshPromise (run_attempt i allow f (set_web w s)).1 = None ∧
       requests (run_attempt i allow f (set_web w s)).1 !! rid = Some (with_phase (settled (Rejected err)) r).
Proof.
  intros Hw. unfold run_attempt, up_to_date. cbn [isCurrent runtime_of set_web web]. rewrite Hw.
  destruct (_ =? _)%nat; [cbn; by eauto|by apply done_awaited].
Qed.

Lemma signed_in_awaited b w : access_token b ≠ [] → auth w = signed_in_auth b →
  refreshPromise (refresh_done (Authenticated b) f (set_web w s)).1 = None ∧
  auth (web (refresh_done (Authenticated b) f (set_web w s)).1) = signed_in_auth b ∧
  requests (refresh_done (Authenticated b) f (set_web w s)).1 !! rid = Some (sent_again b r).
Proof.
  intros Hb Hauth. assert (linv (waiters f) (set_web w s)) as Hlw by by apply (linv_same _ s).
  destruct (refresh_done_requests (Authenticated b) f (set_web w s) rid r Hlw Hin Hr) as (Hw & Hn & Hq).
  split_and!; [done|by rewrite Hw|]. rewrite Hq. unfold resumed, sent_again, bearer. rewrite Hp. cbn.
  rewrite Hauth. unfold token. cbn. by destruct (access_token b).
Qed.

Lemma replied_awaited resp : awaited (RefreshReplied resp) s f (run_replied resp f s).1 rid r err.
Proof.
  assert (s = set_web (web s) s) as Es by by destruct s.
  unfold run_replied, awaited. change (isCurrent _ (web s)) with (up_to_date f s).
  destruct (up_to_date f s) eqn:Ec; [|pose proof (done_awaited Superseded (web s)) as Hd; rewrite <- Es in Hd; by apply Hd].
  pose proof (verdict_ok (refreshEpoch f) (raceAttempt f) (allowMismatchRetry f) resp (web s)) as Hok.
  destruct (verdict _ _ _ _) as [c o|d|c]; rewrite ?seq_fst; cbn [upd fst].
  - destruct Hok as [Ho Hlast]. destruct (bundle_of resp) as [b|] eqn:Eb.
    + unfold outcome_ok in Ho. rewrite Eb in Ho. destruct Ho as [-> Ha].
      apply signed_in_awaited; [by eapply bundle_of_token|done].
    + assert (asks_again f resp = false) as ->; [|apply done_awaited; intros b ->; apply authenticated_ok in Ho; naive_solver].
      destruct (Hlast eq_refl) as [H1 H2]. unfold asks_again. apply orb_false_iff.
      split; [destruct (lost_race resp)|destruct (mismatched resp)]; try done; cbn; [by rewrite H1|by apply H2].
  - destruct Hok as (-> & Hrace & Hd). unfold asks_again. rewrite Hrace, Hd. cbn. by eauto.
  - destruct Hok as (-> & Hmis & Hallow & Hc). unfold asks_again. rewrite Hmis, Hallow, orb_true_r.
    pose proof (attempt_awaited 0 false (c (web s))) as Ha. rewrite Ec in Ha. apply Ha. by rewrite Hc.
Qed.
End awaiting.

(** C18: a request that the server answered 401 waits for the one refresh in flight.  When
    the refresh receives a valid bundle and was not overtaken, the store is signed in with
    that bundle and the request is sent again with exactly its token; when it receives an
    answer after which it asks again, the request keeps waiting, as it does through every
    event that is not of the refresh; in every other case (another answer, an overtaken
    refresh, a lock request that throws) it fails with the error of its own first answer,
    and when the browser's lock rejects, with the error of the lock. *)
Theorem refreshed_requests w p ls s e os s' rid r err :
  reaches step (init w p) ls s → step s (e, os) s' →
  requests s !! rid = Some r → phase r = refreshing err →
  ∃ f, refreshPromise s = Some f ∧ rid ∈ waiters f ∧ awaited e s f s' rid r err.
Proof.
  intros Hi%client_inv [He Hh] Hr Hp. cbn in He, Hh.
  assert (s' = (handle e s).1) as -> by by rewrite Hh.
  assert (is_refreshing r = true) as Hf by (unfold is_refreshing; by rewrite Hp).
  assert (rid ∈ waiting s) as Hin by (apply (l_waiters _ _ (i_linv _ Hi)); eauto).
  assert (∃ f, refreshPromise s = Some f ∧ rid ∈ waiters f ∧ linv (waiters f) s) as (f & Ef & Hin' & Hl).
  { pose proof (i_linv _ Hi) as Hl. unfold waiting in *. destruct (refreshPromise s) as [f|]; [by eauto|].
    by apply not_elem_of_nil in Hin. }
  exists f. split_and!; [done|done|]. assert (s = set_web (web s) s) as Es by by destruct s.
  destruct (of_refresh e) eqn:Eo.
  2: { destruct (other_kept s e rid r He Eo Hr Hf) as [H1 H2]. assert (is_Some (refreshPromise (handle e s).1)) by eauto.
       by destruct e. }
  destruct e; try done; cbn [handle awaited]; cbv zeta; rewrite Ef.
  - rewrite seq_fst. by apply done_awaited.
  - by apply (refresh_rejected_requests err0 f s rid r).
  - pose proof (attempt_awaited s f rid r err Hl Hin' Hr Hp 0 true (web s) eq_refl) as Ha. by rewrite <- Es in Ha.
  - by apply replied_awaited.
  - pose proof (attempt_awaited s f rid r err Hl Hin' Hr Hp (S (raceAttempt f)) (allowMismatchRetry f) (web s) eq_refl) as Ha.
    by rewrite <- Es in Ha.
Qed.

(** ** Sessions *)
(** No answer is shared between sessions: callers that get the same promise called under
    the same session, or both without one.  (Session identifiers without a colon.) *)
Theorem sessions_apart w p ls s i j x y rid :
  reaches step (init w p) ls s →
  callers s !! i = Some (x, rid) → callers s !! j = Some (y, rid) →
  58%N ∉ x → 58%N ∉ y → x = y.
Proof.
  intros Hi%client_inv H1 H2 Hx Hy. pose proof (i_linv _ Hi) as Hl.
  destruct (l_callers _ _ Hl i x rid H1) as (r & Hr & Hk1). destruct (l_callers _ _ Hl j y rid H2) as (q & Hq & Hk2).
  assert (q = r) as -> by congruence. destruct (key r) as [k|] eqn:Ek.
  - destruct (Hk1 k eq_refl) as [u ->]. destruct (Hk2 _ eq_refl) as [v E]. exact (proj1 (prefix_inj _ x y u v Hx Hy E)).
  - pose proof (l_single _ _ Hl i j x y rid r H1 H2 Hr Ek). naive_solver.
Qed.

(** When the browser refuses the lock by rejecting its promise, the handler written for
    that case does not run: every request that waited fails with the lock's error instead
    of its own, nothing is shown, and the store stays as it was, so a bootstrap that was
    under way stays under way. *)
Theorem lock_rejection w p ls s reason os s' rid r err :
  reaches step (init w p) ls s → step s (LockFailed reason, os) s' →
  requests s !! rid = Some r → phase r = refreshing err →
  requests s' !! rid = Some (with_phase (settled (Rejected reason)) r) ∧
  web s' = web s ∧ refreshPromise s' = None ∧ ∀ m, toastError m ∉ os.
Proof.
  intros Hi%client_inv [He Hh] Hr Hp. cbn [fst snd] in He, Hh. destruct He as (f & Ef & _).
  cbn [handle] in Hh. cbv zeta in Hh. rewrite Ef in Hh. pose proof (i_linv _ Hi) as Hl. unfold waiting in Hl.
  rewrite Ef in Hl. assert (rid ∈ waiters f) as Hin.
  { apply (l_waiters _ _ Hl). exists r. split; [done|]. unfold is_refreshing. by rewrite Hp. }
  destruct (refresh_rejected_requests reason f s rid r Hl Hin Hr) as (Hw & Hf & Hq).
  assert (∀ W s1 m, toastError m ∉ (for_each (λ i, settle i (Rejected reason)) W s1).2) as Hquiet.
  { induction W as [|i W IH]; intros s1 m; [apply not_elem_of_nil|]. rewrite for_each_cons, seq_snd.
    rewrite elem_of_app. intros [Hm|Hm]; [|by apply IH in Hm]. by apply list_elem_of_singleton in Hm. }
  assert (∀ m, toastError m ∉ (refresh_rejected reason f s).2) as Hm.
  { intros m. unfold refresh_rejected. rewrite seq_snd. apply Hquiet. }
  rewrite Hh in Hw, Hf, Hq, Hm. done.
Qed.

(** ** A run *)
Definition plain_config : Config := mkConfig false false false false false false JUndef None.
Definition error_401 : jsval := JObj [(js "response", JObj [(js "status", JNum (num_of_Z 401))])].
Definition sample_bundle : jsval := JObj [
  (js "access_token", JStr (js "fresh")); (js "token_type", JStr (js "Bearer"));
  (js "access_expires_at", JNum (num_of_Z 100));
  (js "user", JObj [(js "id", JNum (num_of_Z 7)); (js "username", JStr (js "ada")); (js "role", JNum (num_of_Z 1))]);
  (js "session", JObj [(js "sid", JStr (js "s1")); (js "current", JBool true); (js "login_method", JStr (js "password"));
     (js "ip", JStr []); (js "user_agent", JStr []); (js "created_at", JNum num0);
     (js "last_active_at", JNum num0); (js "expires_at", JNum num0)])].
Definition refresh_ok : AuthRefreshHTTPResponse :=
  mkResponse 200 (JObj [(js "success", JBool true); (js "data", sample_bundle)]) JUndef.

(** Two callers of one address, a 401, and a refresh. *)
Definition first_events : list Event := [
  Get (js "/api/user/self") plain_config; Get (js "/api/user/self") plain_config; Dispatched 0;
  Failed 0 error_401 true].
Definition client_after := run_after handle.
Definition client_trace := run_trace handle.
Definition first_state : State := client_after first_events (init sample_web (js "/")).
Definition refresh_events : list Event := [LockAcquired; RefreshReplied refresh_ok].
Definition posted_state : State := client_after [LockAcquired] first_state.

Lemma first_reaches : reaches step (init sample_web (js "/")) (client_trace first_events (init sample_web (js "/"))) first_state.
Proof. apply run_reaches. vm_compute. repeat split; repeat eexists; reflexivity. Qed.
Lemma posted_reaches : reaches step (init sample_web (js "/"))
  (client_trace (first_events ++ [LockAcquired]) (init sample_web (js "/"))) posted_state.
Proof. apply (run_reaches enabled handle (first_events ++ [LockAcquired])). vm_compute. repeat split; repeat eexists; reflexivity. Qed.
Lemma refresh_reaches : reaches step first_state (client_trace refresh_events first_state) (client_after refresh_events first_state).
Proof. apply run_reaches. vm_compute. repeat split; repeat eexists; reflexivity. Qed.

Lemma client_settles_witness :
  pending first_state = 1%nat ∧ (2 <= 25 * pending first_state + 17)%nat.
Proof.
  split; [vm_compute; reflexivity|].
  refine (proj1 (client_settles _ _ _ _ _ _ first_reaches refresh_reaches _)). by repeat constructor.
Defined.

Lemma client_sends_twice_witness :
  (sends 0 (outs (client_trace first_events (init sample_web (js "/")))) <= 2)%nat ∧
  settles 0 (outs (client_trace first_events (init sample_web (js "/")))) = finished 0 first_state.
Proof. exact (client_sends_twice _ _ _ _ 0 first_reaches). Defined.

Lemma refreshed_requests_witness : ∃ r, requests posted_state !! 0%nat = Some r ∧
  ∃ f, refreshPromise posted_state = Some f ∧ 0%nat ∈ waiters f ∧
    awaited (RefreshReplied refresh_ok) posted_state f (handle (RefreshReplied refresh_ok) posted_state).1 0 r error_401.
Proof.
  eexists. split; [vm_compute; reflexivity|].
  refine (refreshed_requests _ _ _ posted_state (RefreshReplied refresh_ok)
    (handle (RefreshReplied refresh_ok) posted_state).2 _ 0 _ error_401 posted_reaches _ _ _);
    [split; [vm_compute; repeat eexists; reflexivity|vm_compute; reflexivity]|vm_compute; reflexivity|reflexivity].
Defined.

Lemma sessions_apart_witness : sessionSID sample_web = sessionSID sample_web.
Proof.
  refine (sessions_apart _ _ _ _ 0 1 _ _ 0 first_reaches _ _ _ _); try (vm_compute; reflexivity);
    apply (bool_decide_unpack _); vm_compute; exact I.
Defined.

Lemma lock_rejection_witness : ∃ r,
  requests first_state !! 0%nat = Some r ∧
  requests (handle (LockFailed JNull) first_state).1 !! 0%nat = Some (with_phase (settled (Rejected JNull)) r).
Proof.
  eexists. split; [vm_compute; reflexivity|].
  refine (proj1 (lock_rejection _ _ _ first_state JNull (handle (LockFailed JNull) first_state).2 _ 0 _ error_401 first_reaches _ _ _));
    [split; [vm_compute; repeat eexists; reflexivity|vm_compute; reflexivity]|vm_compute; reflexivity|reflexivity].
Defined.

End Client.
