(* ===== verification/ParamOverride.v ===== *)
(** Parameter overrides of a channel: the data, the tables, the parsers and the builders of
    the editor (web/src/features/channels/components/dialogs/
    param-override-editor-dialog.tsx).

    The text of an override is JSON written by hand or by the editor, so what is read is
    dynamic; a read of a property of null throws.  Every rule and condition of the editor
    has an identifier drawn from a counter and the clock ([nextLocalId]); functions that
    draw one run in [fresh], which passes the counter and may throw. *)
From S2P Require Import Prelude JsString JsValue Json JsPrint JsNumber JsonQuote JsonPrint JsDynamic.
Local Open Scope nat_scope.

(** ** Drawing identifiers *)
Definition fresh (A : Type) : Type := nat → res js_error A * nat.

#[export] Instance fresh_ret : MRet fresh := λ A a n, (Ok a, n).
#[export] Instance fresh_bind : MBind fresh := λ A B k m n,
  match m n with (Ok a, n') => k a n' | (Throw e, n') => (Throw e, n') end.
Definition lift {A} (r : res js_error A) : fresh A := λ n, (r, n).

(** [Date.now()] when the n-th identifier is drawn. *)
Class Clock := date_now : nat → Z.

Definition local_id `{Clock} (n : nat) : jsstring :=
  js "po_" ++ show_Z (date_now n) ++ js "_" ++ show_N (N.of_nat n).
Definition nextLocalId `{Clock} : fresh jsstring := λ n, (Ok (local_id n), S n).

(** ** Data *)
Record ParamOverrideCondition := mkCondition {
  c_id : jsstring; c_path : jsstring; c_mode : jsstring; c_value_text : jsstring;
  c_invert : bool; c_pass_missing_key : bool }.

Record ParamOverrideOperation := mkOperation {
  o_id : jsstring; description : jsstring; path : jsstring; mode : jsstring; from : jsstring; to : jsstring;
  value_text : jsstring; keep_origin : bool; logic : jsstring; conditions : list ParamOverrideCondition }.

(** ** Tables *)
Definition OPERATION_MODE_OPTIONS : list (jsstring * jsstring) := [
  (js "set", js "Set Field"); (js "delete", js "Delete Field"); (js "append", js "Append to End");
  (js "prepend", js "Prepend to Start"); (js "copy", js "Copy Field"); (js "move", js "Move Field");
  (js "replace", js "String Replace"); (js "regex_replace", js "Regex Replace");
  (js "trim_prefix", js "Trim Prefix"); (js "trim_suffix", js "Trim Suffix");
  (js "ensure_prefix", js "Ensure Prefix"); (js "ensure_suffix", js "Ensure Suffix");
  (js "trim_space", js "Trim Space"); (js "to_lower", js "To Lowercase"); (js "to_upper", js "To Uppercase");
  (js "return_error", js "Return Custom Error"); (js "prune_objects", js "Prune Object Items");
  (js "pass_headers", js "Pass Through Headers"); (js "sync_fields", js "Sync Fields");
  (js "set_header", js "Set Request Header"); (js "delete_header", js "Delete Request Header");
  (js "copy_header", js "Copy Request Header"); (js "move_header", js "Move Request Header")].

Definition OPERATION_MODE_VALUES : list jsstring := set_of (fst <$> OPERATION_MODE_OPTIONS).
Definition OPERATION_MODE_LABEL_MAP : list (jsstring * jsstring) :=
  foldl (λ acc o, jset o.1 o.2 acc) [] OPERATION_MODE_OPTIONS.

Definition CONDITION_MODE_OPTIONS : list (jsstring * jsstring) := [
  (js "full", js "Exact Match"); (js "prefix", js "Prefix"); (js "suffix", js "Suffix");
  (js "contains", js "Contains"); (js "gt", js "Greater Than"); (js "gte", js "Greater Than or Equal");
  (js "lt", js "Less Than"); (js "lte", js "Less Than or Equal")].
Definition CONDITION_MODE_VALUES : list jsstring := set_of (fst <$> CONDITION_MODE_OPTIONS).

(** What a mode uses; [m_to] is [None] where the table does not say. *)
Record ModeMeta := mkMeta {
  m_path : bool; m_pathOptional : bool; m_value : bool; m_from : bool; m_to : option bool; m_keepOrigin : bool;
  m_pathAlias : bool }.

Definition meta_path : ModeMeta := mkMeta true false false false None false false.
Definition meta_path_value : ModeMeta := mkMeta true false true false None false false.
Definition meta_path_value_keep : ModeMeta := mkMeta true false true false None true false.
Definition meta_from_to : ModeMeta := mkMeta false false false true (Some true) false false.
Definition meta_replace : ModeMeta := mkMeta true false false true (Some false) false false.
Definition meta_alias : ModeMeta := mkMeta false false false true (Some true) true true.

Definition MODE_META : list (jsstring * ModeMeta) := [
  (js "delete", meta_path); (js "set", meta_path_value_keep); (js "append", meta_path_value_keep);
  (js "prepend", meta_path_value_keep); (js "copy", meta_from_to); (js "move", meta_from_to);
  (js "replace", meta_replace); (js "regex_replace", meta_replace);
  (js "trim_prefix", meta_path_value); (js "trim_suffix", meta_path_value);
  (js "ensure_prefix", meta_path_value); (js "ensure_suffix", meta_path_value);
  (js "trim_space", meta_path); (js "to_lower", meta_path); (js "to_upper", meta_path);
  (js "return_error", mkMeta false false true false None false false);
  (js "prune_objects", mkMeta false true true false None false false);
  (js "pass_headers", mkMeta false false true false None true false);
  (js "sync_fields", meta_from_to); (js "set_header", meta_path_value_keep); (js "delete_header", meta_path);
  (js "copy_header", meta_alias); (js "move_header", meta_alias)].

(** [MODE_META[mode] || MODE_META.set]. *)
Definition meta_of (m : jsstring) : ModeMeta := default meta_path_value_keep (jget m MODE_META).

Definition VALUE_REQUIRED_MODES : list jsstring :=
  js <$> ["trim_prefix"; "trim_suffix"; "ensure_prefix"; "ensure_suffix"; "set_header"; "return_error";
          "prune_objects"; "pass_headers"]%string.
Definition FROM_REQUIRED_MODES : list jsstring :=
  js <$> ["copy"; "move"; "replace"; "regex_replace"; "copy_header"; "move_header"; "sync_fields"]%string.
Definition TO_REQUIRED_MODES : list jsstring :=
  js <$> ["copy"; "move"; "copy_header"; "move_header"; "sync_fields"]%string.

Definition MODE_DESCRIPTIONS : list (jsstring * jsstring) := [
  (js "set", js "Write value to the target field"); (js "delete", js "Remove the target field");
  (js "append", js "Append value to array / string / object end");
  (js "prepend", js "Prepend value to array / string / object start");
  (js "copy", js "Copy source field to target field"); (js "move", js "Move source field to target field");
  (js "replace", js "Do string replacement in the target field");
  (js "regex_replace", js "Do regex replacement in the target field");
  (js "trim_prefix", js "Remove string prefix"); (js "trim_suffix", js "Remove string suffix");
  (js "ensure_prefix", js "Ensure the string has a specified prefix");
  (js "ensure_suffix", js "Ensure the string has a specified suffix");
  (js "trim_space", js "Trim leading/trailing whitespace");
  (js "to_lower", js "Convert string to lowercase"); (js "to_upper", js "Convert string to uppercase");
  (js "return_error", js "Return a custom error immediately");
  (js "prune_objects", js "Prune object items by conditions");
  (js "pass_headers", js "Pass specified request headers to upstream");
  (js "sync_fields", js "Auto-fill when one field exists and another is missing");
  (js "set_header", js "Set runtime request header: override entire value, or manipulate comma-separated tokens");
  (js "delete_header", js "Delete a runtime request header"); (js "copy_header", js "Copy a request header");
  (js "move_header", js "Move a request header")].

Definition SYNC_TARGET_TYPE_OPTIONS : list (jsstring * jsstring) := [
  (js "json", js "Request Body Field"); (js "header", js "Request Header Field")].

(** ** Templates *)
Definition num_literal (s : string) : jsnum := match parse_number (js s) with Some (x, _) => x | None => S754_nan end.
Definition str (s : string) : jsval := JStr (js s).
Definition obj (ps : list (string * jsval)) : jsval := JObj ((λ p, (js p.1, p.2)) <$> ps).

Definition LEGACY_TEMPLATE : jsval := obj [("temperature", JNum num0); ("max_tokens", JNum (num_of_Z 1000))]%string.

Definition template_condition (p m v : string) : jsval := obj [("path", str p); ("mode", str m); ("value", str v)]%string.
Definition OPERATION_TEMPLATE : jsval := obj [("operations", JArr [obj [
  ("description", str "Set default temperature for openai/* models."); ("path", str "temperature");
  ("mode", str "set"); ("value", JNum (num_literal "0.7"));
  ("conditions", JArr [template_condition "model" "prefix" "openai/"]); ("logic", str "AND")]])]%string.

Definition HEADER_PASSTHROUGH_TEMPLATE : jsval := obj [("operations", JArr [obj [
  ("description", str "Pass through X-Request-Id header to upstream."); ("mode", str "pass_headers");
  ("value", JArr [str "X-Request-Id"]); ("keep_origin", JBool true)]])]%string.

Definition GEMINI_IMAGE_4K_TEMPLATE : jsval := obj [("operations", JArr [obj [
  ("description", str "Set imageSize to 4K when model contains gemini/image and ends with 4k.");
  ("mode", str "set"); ("path", str "generationConfig.imageConfig.imageSize"); ("value", str "4K");
  ("conditions", JArr [template_condition "original_model" "contains" "gemini";
                       template_condition "original_model" "contains" "image";
                       template_condition "original_model" "suffix" "4k"]);
  ("logic", str "AND")]])]%string.

Definition CODEX_CLI_HEADER_PASSTHROUGH_HEADERS : list jsval := str <$> [
  "Originator"; "Session_id"; "Thread_id"; "Session-Id"; "Thread-Id"; "X-Client-Request-Id"; "User-Agent";
  "X-Codex-Beta-Features"; "X-Codex-Turn-State"; "X-Codex-Turn-Metadata"; "X-Codex-Window-Id";
  "X-Codex-Parent-Thread-Id"; "X-OpenAI-Subagent"; "X-OpenAI-Memgen-Request";
  "X-ResponsesAPI-Include-Timing-Metrics"; "X-OpenAI-Internal-Codex-Responses-Lite"]%string.
Definition CLAUDE_CLI_HEADER_PASSTHROUGH_HEADERS : list jsval := str <$> [
  "X-Stainless-Arch"; "X-Stainless-Lang"; "X-Stainless-Os"; "X-Stainless-Package-Version";
  "X-Stainless-Retry-Count"; "X-Stainless-Runtime"; "X-Stainless-Runtime-Version"; "X-Stainless-Timeout";
  "User-Agent"; "X-App"; "Anthropic-Beta"; "Anthropic-Dangerous-Direct-Browser-Access"; "Anthropic-Version"]%string.

Definition buildPassHeadersTemplate (headers : list jsval) : jsval := obj [("operations", JArr [obj [
  ("mode", str "pass_headers"); ("value", JArr headers); ("keep_origin", JBool true)]])]%string.
Definition CODEX_CLI_HEADER_PASSTHROUGH_TEMPLATE : jsval := obj [("operations", JArr [obj [
  ("mode", str "pass_headers"); ("value", JArr CODEX_CLI_HEADER_PASSTHROUGH_HEADERS);
  ("keep_origin", JBool true)]])]%string.
Definition CLAUDE_CLI_HEADER_PASSTHROUGH_TEMPLATE : jsval :=
  buildPassHeadersTemplate CLAUDE_CLI_HEADER_PASSTHROUGH_HEADERS.

Definition AWS_BEDROCK_ANTHROPIC_COMPAT_TEMPLATE : jsval := obj [("operations", JArr [obj [
  ("description", str "Normalize anthropic-beta header tokens for Bedrock compatibility.");
  ("mode", str "set_header"); ("path", str "anthropic-beta");
  ("value", obj [
     ("advanced-tool-use-2025-11-20", str "tool-search-tool-2025-10-19");
     ("bash_20241022", JNull); ("bash_20250124", JNull); ("code-execution-2025-08-25", JNull);
     ("compact-2026-01-12", str "compact-2026-01-12");
     ("computer-use-2025-01-24", str "computer-use-2025-01-24");
     ("computer-use-2025-11-24", str "computer-use-2025-11-24");
     ("context-1m-2025-08-07", str "context-1m-2025-08-07");
     ("context-management-2025-06-27", str "context-management-2025-06-27");
     ("effort-2025-11-24", JNull); ("fast-mode-2026-02-01", JNull); ("files-api-2025-04-14", JNull);
     ("fine-grained-tool-streaming-2025-05-14", JNull);
     ("interleaved-thinking-2025-05-14", str "interleaved-thinking-2025-05-14");
     ("mcp-client-2025-11-20", JNull); ("mcp-client-2025-04-04", JNull); ("mcp-servers-2025-12-04", JNull);
     ("output-128k-2025-02-19", JNull); ("structured-output-2024-03-01", JNull);
     ("prompt-caching-scope-2026-01-05", JNull); ("skills-2025-10-02", JNull);
     ("structured-outputs-2025-11-13", JNull); ("text_editor_20241022", JNull); ("text_editor_20250124", JNull);
     ("token-efficient-tools-2025-02-19", JNull);
     ("tool-search-tool-2025-10-19", str "tool-search-tool-2025-10-19");
     ("web-fetch-2025-09-10", JNull); ("web-search-2025-03-05", JNull); ("oauth-2025-04-20", JNull)])];
  obj [("description", str "Remove all tools[*].custom.input_examples before upstream relay.");
       ("mode", str "delete"); ("path", str "tools.*.custom.input_examples")]])]%string.

Inductive TemplateKind := kind_operations | kind_legacy.
Record TemplatePresetConfig := mkPreset { t_label : jsstring; t_kind : TemplateKind; t_payload : jsval }.

Definition TEMPLATE_PRESET_CONFIG : list (jsstring * TemplatePresetConfig) := [
  (js "operations_default", mkPreset (js "New Format Template") kind_operations OPERATION_TEMPLATE);
  (js "legacy_default", mkPreset (js "Legacy Format Template") kind_legacy LEGACY_TEMPLATE);
  (js "pass_headers_auth", mkPreset (js "Header Passthrough (X-Request-Id)") kind_operations HEADER_PASSTHROUGH_TEMPLATE);
  (js "gemini_image_4k", mkPreset (js "Gemini Image 4K") kind_operations GEMINI_IMAGE_4K_TEMPLATE);
  (js "claude_cli_headers_passthrough",
   mkPreset (js "Claude CLI Header Passthrough") kind_operations CLAUDE_CLI_HEADER_PASSTHROUGH_TEMPLATE);
  (js "codex_cli_headers_passthrough",
   mkPreset (js "Codex CLI Header Passthrough") kind_operations CODEX_CLI_HEADER_PASSTHROUGH_TEMPLATE);
  (js "aws_bedrock_anthropic_beta_override",
   mkPreset (js "AWS Bedrock Claude Compat") kind_operations AWS_BEDROCK_ANTHROPIC_COMPAT_TEMPLATE)].

(** ** Values and texts *)
Definition toValueText (v : jsval) : jsstring :=
  match v with JUndef => [] | JStr s => s | _ => JSON_stringify 0 v end.

Definition parseLooseValue (s : jsstring) : jsval :=
  let raw := trim s in
  match raw with [] => JStr [] | _ => default (JStr raw) (JSON_parse raw) end.

Definition verifyJSON (s : jsstring) : bool := match JSON_parse s with Some _ => true | None => false end.

(** [typeof v === 'string' ? v : '']. *)
Definition text_or_empty (v : jsval) : jsstring := match v with JStr s => s | _ => [] end.
(** [v === true]. *)
Definition true_flag (v : jsval) : bool := match v with JBool b => b | _ => false end.
(** [values.has(v) ? v : fallback]. *)
Definition known_or (values : list jsstring) (fallback : jsstring) (v : jsval) : jsstring :=
  match v with JStr s => if set_has s values then s else fallback | _ => fallback end.

(** The default of a parameter. *)
Definition or_empty_object (v : jsval) : jsval := match v with JUndef => JObj [] | _ => v end.

(** A rule that prunes objects has the fields of a condition. *)
Abbreviation PruneRule := ParamOverrideCondition.

Section editor.
Context `{Clock}.

Definition normalizeCondition (v : jsval) : fresh ParamOverrideCondition :=
  let v := or_empty_object v in
  id ← nextLocalId;
  p ← lift (get_prop "path" v);
  mret (mkCondition id (text_or_empty p) (known_or CONDITION_MODE_VALUES (js "full") (prop "mode" v))
          (toValueText (prop "value" v)) (true_flag (prop "invert" v)) (true_flag (prop "pass_missing_key" v))).

Definition createDefaultCondition : fresh ParamOverrideCondition := normalizeCondition (JObj []).

Definition logic_of (v : jsval) : jsstring :=
  if bool_decide (to_upper (to_string (or_else v (str "OR"))) = js "AND") then js "AND" else js "OR".

Definition normalizeOperation (v : jsval) : fresh ParamOverrideOperation :=
  let v := or_empty_object v in
  id ← nextLocalId;
  d ← lift (get_prop "description" v);
  cs ← (match prop "conditions" v with JArr l => mapM normalizeCondition l | _ => mret [] end);
  mret (mkOperation id (text_or_empty d) (text_or_empty (prop "path" v))
          (known_or OPERATION_MODE_VALUES (js "set") (prop "mode" v)) (text_or_empty (prop "from" v))
          (text_or_empty (prop "to" v)) (toValueText (prop "value" v)) (true_flag (prop "keep_origin" v))
          (logic_of (prop "logic" v)) cs).

Definition createDefaultOperation : fresh ParamOverrideOperation := normalizeOperation (obj [("mode", str "set")]%string).

(** ** The list of rules *)
Inductive Position := before | after.
Definition index_by_id (id : jsstring) (ops : list ParamOverrideOperation) : option nat :=
  fst <$> list_find (λ o, o_id o = id) ops.

Definition reorderOperations (ops : list ParamOverrideOperation) (sourceId targetId : jsstring) (position : Position) :
    list ParamOverrideOperation :=
  if bool_decide (sourceId = []) || bool_decide (targetId = []) || bool_decide (sourceId = targetId) then ops
  else
    match index_by_id sourceId ops with
    | None => ops
    | Some srcIdx =>
        let next := take srcIdx ops ++ drop (S srcIdx) ops in
        match ops !! srcIdx, index_by_id targetId next with
        | Some moved, Some i =>
            let insertIdx := match position with after => S i | before => i end in
            take insertIdx next ++ moved :: drop insertIdx next
        | _, _ => ops
        end
    end.

Definition blank (s : jsstring) : bool := bool_decide (trim s = []).

Definition isOperationBlank (o : ParamOverrideOperation) : bool :=
  let hasCondition := existsb (λ c, negb (blank (c_path c)) || negb (blank (c_value_text c)) ||
    negb (bool_decide (c_mode c = js "full")) || c_invert c || c_pass_missing_key c) (conditions o) in
  bool_decide (mode o = js "set") && blank (path o) && blank (from o) && blank (to o) && blank (value_text o) &&
  negb (keep_origin o) && negb hasCondition.

(** [a || b] on texts. *)
Definition or_text (a b : jsstring) : jsstring := match a with [] => b | _ => a end.

Definition getOperationSummary (o : ParamOverrideOperation) (index : nat) : jsstring :=
  let mode := or_text (mode o) (js "set") in
  let modeLabel := or_text (default [] (jget mode OPERATION_MODE_LABEL_MAP)) mode in
  let target :=
    if bool_decide (mode = js "sync_fields") then or_text (trim (from o)) (or_text (trim (to o)) (js "-"))
    else or_text (trim (path o)) (or_text (trim (from o)) (or_text (trim (to o)) (js "-"))) in
  show_N (N.of_nat (S index)) ++ js ". " ++ modeLabel ++ js " " ++ [183%N] ++ js " " ++ target.

(** ** Labels of a mode *)
Definition is_mode (m : jsstring) (names : list string) : bool := existsb (λ n, bool_decide (m = js n)) names.
Definition mentions (m : jsstring) (names : list string) : bool := existsb (λ n, includes (js n) m) names.

Definition getModeTagTailwind (m : jsstring) : jsstring :=
  if mentions m ["header"]%string then js "bg-cyan-500/15 text-cyan-700 dark:text-cyan-300 border-cyan-500/20"
  else if mentions m ["replace"; "trim"]%string then
    js "bg-violet-500/15 text-violet-700 dark:text-violet-300 border-violet-500/20"
  else if mentions m ["copy"; "move"]%string then
    js "bg-blue-500/15 text-blue-700 dark:text-blue-300 border-blue-500/20"
  else if mentions m ["error"; "prune"]%string then
    js "bg-red-500/15 text-red-700 dark:text-red-300 border-red-500/20"
  else if mentions m ["sync"]%string then
    js "bg-green-500/15 text-green-700 dark:text-green-300 border-green-500/20"
  else js "bg-muted text-muted-foreground".

Definition getModePathLabel (m : jsstring) : jsstring :=
  if is_mode m ["set_header"; "delete_header"]%string then js "Header Name"
  else if is_mode m ["prune_objects"]%string then js "Target Path (optional)" else js "Target Field Path".
Definition getModePathPlaceholder (m : jsstring) : jsstring :=
  if is_mode m ["set_header"]%string then js "Authorization"
  else if is_mode m ["delete_header"]%string then js "X-Debug-Mode"
  else if is_mode m ["prune_objects"]%string then js "messages" else js "temperature".
Definition getModeFromLabel (m : jsstring) : jsstring :=
  if is_mode m ["replace"]%string then js "Match Text"
  else if is_mode m ["regex_replace"]%string then js "Regex Pattern"
  else if is_mode m ["copy_header"; "move_header"]%string then js "Source Header" else js "Source Field".
Definition getModeFromPlaceholder (m : jsstring) : jsstring :=
  if is_mode m ["replace"]%string then js "openai/"
  else if is_mode m ["regex_replace"]%string then js "^gpt-"
  else if is_mode m ["copy_header"; "move_header"]%string then js "Authorization" else js "model".
Definition getModeToLabel (m : jsstring) : jsstring :=
  if is_mode m ["replace"; "regex_replace"]%string then js "Replace With"
  else if is_mode m ["copy_header"; "move_header"]%string then js "Target Header" else js "Target Field".
Definition getModeToPlaceholder (m : jsstring) : jsstring :=
  if is_mode m ["replace"]%string then js "(leave empty to delete)"
  else if is_mode m ["regex_replace"]%string then js "openai/gpt-"
  else if is_mode m ["copy_header"; "move_header"]%string then js "X-Upstream-Auth" else js "original_model".
Definition getModeValueLabel (m : jsstring) : jsstring :=
  if is_mode m ["set_header"]%string then js "Header Value (supports string or JSON mapping)"
  else if is_mode m ["pass_headers"]%string then js "Pass-through Headers (comma-separated or JSON array)"
  else if is_mode m ["trim_prefix"; "trim_suffix"; "ensure_prefix"; "ensure_suffix"]%string then js "Prefix/Suffix Text"
  else if is_mode m ["prune_objects"]%string then js "Prune Rule (string or JSON object)"
  else js "Value (supports JSON or plain text)".
Definition getModeValuePlaceholder (m : jsstring) : jsstring :=
  if is_mode m ["set_header"]%string then js "Bearer sk-xxx"
  else if is_mode m ["pass_headers"]%string then js "Authorization, X-Request-Id"
  else if is_mode m ["trim_prefix"; "trim_suffix"; "ensure_prefix"; "ensure_suffix"]%string then js "openai/"
  else if is_mode m ["prune_objects"]%string
  then js "{" ++ [34%N] ++ js "type" ++ [34%N; 58%N; 34%N] ++ js "redacted_thinking" ++ [34%N] ++ js "}"
  else js "0.7".

(** ** Fields to synchronise *)
Inductive SyncTarget := sync_json | sync_header.

Definition parseSyncTargetSpec (spec : jsstring) : SyncTarget * jsstring :=
  let raw := trim spec in
  match raw with
  | [] => (sync_json, [])
  | _ =>
      match index_of (js ":") raw with
      | None => (sync_json, raw)
      | Some idx =>
          let prefix := to_lower (trim (take idx raw)) in
          let key := trim (drop (S idx) raw) in
          (if bool_decide (prefix = js "header") then sync_header else sync_json, key)
      end
  end.

Definition buildSyncTargetSpec (type : SyncTarget) (key : jsstring) : jsstring :=
  match trim key with
  | [] => []
  | k => (match type with sync_header => js "header" | sync_json => js "json" end) ++ js ":" ++ k
  end.

(** ** Custom errors *)
Record ReturnErrorDraft := mkErrorDraft {
  e_message : jsstring; e_statusCode : jsnum; e_code : jsstring; e_type : jsstring; e_skipRetry : bool;
  e_simpleMode : bool }.

Definition status_or_400 (x : jsnum) : jsnum :=
  if is_integer x && num_leb (num_of_Z 100) x && num_leb x (num_of_Z 599) then x else num_of_Z 400.

(** [String(v || '').trim()]. *)
Definition text_of (v : jsval) : jsstring := trim (to_string (or_else v (JStr []))).

Definition error_defaults : ReturnErrorDraft := mkErrorDraft [] (num_of_Z 400) [] [] true true.

Definition parseReturnErrorDraft (s : jsstring) : ReturnErrorDraft :=
  let raw := trim s in
  match raw with
  | [] => error_defaults
  | _ =>
      match JSON_parse raw with
      | Some (JObj ps) =>
          let parsed := JObj ps in
          let statusRaw := match prop "status_code" parsed with JUndef => prop "status" parsed | v => v end in
          mkErrorDraft (text_of (or_else (prop "message" parsed) (prop "msg" parsed)))
            (status_or_400 (to_number statusRaw)) (text_of (prop "code" parsed)) (text_of (prop "type" parsed))
            (negb (match prop "skip_retry" parsed with JBool false => true | _ => false end)) false
      | _ => mkErrorDraft raw (num_of_Z 400) [] [] true true
      end
  end.

Definition assign (k : string) (v : jsval) (ps : list (jsstring * jsval)) : list (jsstring * jsval) := jset (js k) v ps.
Definition assign_when (b : bool) (k : string) (v : jsval) (ps : list (jsstring * jsval)) : list (jsstring * jsval) :=
  if b then assign k v ps else ps.
Definition nonempty (s : jsstring) : bool := match s with [] => false | _ => true end.

Definition buildReturnErrorValueText (d : ReturnErrorDraft) : jsstring :=
  let message := trim (e_message d) in
  if e_simpleMode d then message
  else
    let code := trim (e_code d) in
    let type := trim (e_type d) in
    let payload := [(js "message", JStr message); (js "status_code", JNum (status_or_400 (e_statusCode d)))] in
    let payload := assign_when (nonempty code) "code" (JStr code) payload in
    let payload := assign_when (nonempty type) "type" (JStr type) payload in
    let payload := assign_when (negb (e_skipRetry d)) "skip_retry" (JBool false) payload in
    JSON_stringify 0 (JObj payload).

(** ** Rules that prune objects *)
Record PruneObjectsDraft := mkPruneDraft {
  p_simpleMode : bool; p_typeText : jsstring; p_logic : jsstring; p_recursive : bool; p_rules : list PruneRule }.

Definition normalizePruneRule (v : jsval) : fresh PruneRule :=
  let v := or_empty_object v in
  id ← nextLocalId;
  p ← lift (get_prop "path" v);
  mret (mkCondition id (text_or_empty p) (known_or CONDITION_MODE_VALUES (js "full") (prop "mode" v))
          (toValueText (prop "value" v)) (true_flag (prop "invert" v)) (true_flag (prop "pass_missing_key" v))).

Definition prune_defaults : PruneObjectsDraft := mkPruneDraft true [] (js "AND") true [].
Definition with_typeText (t : jsstring) (d : PruneObjectsDraft) : PruneObjectsDraft :=
  mkPruneDraft (p_simpleMode d) t (p_logic d) (p_recursive d) (p_rules d).

(** The rules of an object that gives a value for each path. *)
Definition rules_of_entries (ps : list (jsstring * jsval)) : fresh (list PruneRule) :=
  mapM (λ p, normalizePruneRule (obj [("path", JStr p.1); ("mode", str "full"); ("value", p.2)]%string)) ps.

Definition defined (v : jsval) : bool := negb (is_undef v).

Definition parsePruneObjectsDraft (s : jsstring) : fresh PruneObjectsDraft :=
  let raw := trim s in
  match raw with
  | [] => mret prune_defaults
  | _ =>
      match JSON_parse raw with
      | None => mret (with_typeText raw prune_defaults)
      | Some (JStr t) => mret (with_typeText (trim t) prune_defaults)
      | Some (JObj ps) =>
          let parsed := JObj ps in
          where_ ← (match prop "where" parsed with JObj qs => rules_of_entries qs | _ => mret [] end);
          conds ← (match prop "conditions" parsed with
                   | JArr l => mapM normalizePruneRule (filter (λ v, is_object v = true) l)
                   | JObj qs => rules_of_entries qs
                   | _ => mret []
                   end);
          let typeText := if defined (prop "type" parsed) then trim (to_string (prop "type" parsed)) else [] in
          let logic := if bool_decide (to_upper (to_string (or_else (prop "logic" parsed) (str "AND"))) = js "OR")
                       then js "OR" else js "AND" in
          let recursive := negb (match prop "recursive" parsed with JBool false => true | _ => false end) in
          let hasAdvancedFields := defined (prop "logic" parsed) || defined (prop "recursive" parsed) ||
            defined (prop "where" parsed) || defined (prop "conditions" parsed) in
          mret (mkPruneDraft (negb hasAdvancedFields) typeText logic recursive (where_ ++ conds))
      | Some v => mret (with_typeText (trim (match v with JNull | JUndef => [] | _ => to_string v end)) prune_defaults)
      end
  end.

Definition rule_payload (r : PruneRule) : jsval :=
  let valueRaw := trim (c_value_text r) in
  let payload := [(js "path", JStr (trim (c_path r)));
                  (js "mode", JStr (if set_has (c_mode r) CONDITION_MODE_VALUES then c_mode r else js "full"))] in
  let payload := assign_when (nonempty valueRaw) "value" (parseLooseValue valueRaw) payload in
  let payload := assign_when (c_invert r) "invert" (JBool true) payload in
  JObj (assign_when (c_pass_missing_key r) "pass_missing_key" (JBool true) payload).

Definition buildPruneObjectsValueText (d : PruneObjectsDraft) : jsstring :=
  let typeText := trim (p_typeText d) in
  if p_simpleMode d then typeText
  else
    let conditions := rule_payload <$> filter (λ r, blank (c_path r) = false) (p_rules d) in
    let payload := assign_when (nonempty typeText) "type" (JStr typeText) [] in
    let payload := assign_when (bool_decide (to_upper (or_text (p_logic d) (js "AND")) = js "OR")) "logic" (str "OR") payload in
    let payload := assign_when (negb (p_recursive d)) "recursive" (JBool false) payload in
    let payload := assign_when (match conditions with [] => false | _ => true end) "conditions" (JArr conditions) payload in
    if negb (nonempty typeText) && (match conditions with [] => true | _ => false end)
    then JSON_stringify 0 (obj [("logic", str "AND")]%string)
    else JSON_stringify 0 (JObj payload).

(** ** Headers to pass *)
Definition header_name (v : jsval) : jsstring := trim (match v with JNull | JUndef => [] | _ => to_string v end).
Definition nonempties (l : list jsstring) : list jsstring := filter (λ s, nonempty s = true) l.

Definition parsePassHeaderNames (v : jsval) : list jsstring :=
  match v with
  | JArr l => nonempties (header_name <$> l)
  | JObj _ =>
      match prop "headers" v with
      | JArr l => nonempties (header_name <$> l)
      | _ => match prop "header" v with JUndef => [] | h => nonempties [header_name h] end
      end
  | JStr s => nonempties (trim <$> split_on 44 s)
  | _ => []
  end.

(** ** Payloads *)
Definition buildConditionPayload (c : ParamOverrideCondition) : option jsval :=
  match trim (c_path c) with
  | [] => None
  | p =>
      let payload := [(js "path", JStr p); (js "mode", JStr (or_text (c_mode c) (js "full")));
                      (js "value", parseLooseValue (c_value_text c))] in
      let payload := assign_when (c_invert c) "invert" (JBool true) payload in
      Some (JObj (assign_when (c_pass_missing_key c) "pass_missing_key" (JBool true) payload))
  end.

(** A text to translate, and the number of the rule it is about. *)
Definition Message : Type := jsstring * option nat.
Definition about (s : string) (line : nat) : Message := (js s, Some line).

(** The checks of one rule, in order. *)
Definition check_operation (line : nat) (op : ParamOverrideOperation) : option Message :=
  let mode := or_text (mode op) (js "set") in
  let meta := meta_of mode in
  let aliased := m_pathAlias meta && negb (blank (path op)) in
  let raw := trim (value_text op) in
  if m_path meta && blank (path op) then Some (about "Rule {{line}} is missing target path" line)
  else if set_has mode FROM_REQUIRED_MODES && blank (from op) && negb aliased
  then Some (about "Rule {{line}} is missing source field" line)
  else if set_has mode TO_REQUIRED_MODES && blank (to op) && negb aliased
  then Some (about "Rule {{line}} is missing target field" line)
  else if set_has mode VALUE_REQUIRED_MODES && blank (value_text op)
  then Some (about "Rule {{line}} is missing value" line)
  else if bool_decide (mode = js "return_error") && negb (nonempty raw)
  then Some (about "Rule {{line}} is missing value" line)
  else if bool_decide (mode = js "return_error") &&
          match JSON_parse raw with Some (JObj ps) => negb (nonempty (text_of (prop "message" (JObj ps)))) | _ => false end
  then Some (about "Rule {{line}} return_error requires a message field" line)
  else if bool_decide (mode = js "prune_objects") && negb (nonempty raw)
  then Some (about "Rule {{line}} prune_objects is missing conditions" line)
  else if bool_decide (mode = js "pass_headers") && negb (nonempty raw)
  then Some (about "Rule {{line}} pass_headers is missing header names" line)
  else if bool_decide (mode = js "pass_headers") &&
          match parsePassHeaderNames (parseLooseValue raw) with [] => true | _ => false end
  then Some (about "Rule {{line}} pass_headers format is invalid" line)
  else None.

Fixpoint validate_from (line : nat) (ops : list ParamOverrideOperation) : option Message :=
  match ops with
  | [] => None
  | op :: ops => match check_operation line op with Some m => Some m | None => validate_from (S line) ops end
  end.
Definition validateOperations (ops : list ParamOverrideOperation) : option Message := validate_from 1 ops.

Definition operation_payload (op : ParamOverrideOperation) : jsval :=
  let mode := or_text (mode op) (js "set") in
  let meta := meta_of mode in
  let descriptionValue := trim (description op) in
  let pathValue := trim (path op) in
  let fromValue := trim (from op) in
  let toValue := trim (to op) in
  let writes_to := bool_decide (m_to meta = Some true) in
  let payload := [(js "mode", JStr mode)] in
  let payload := assign_when (nonempty descriptionValue) "description" (JStr descriptionValue) payload in
  let payload := assign_when (m_path meta) "path" (JStr pathValue) payload in
  let payload := assign_when (m_pathOptional meta && nonempty pathValue) "path" (JStr pathValue) payload in
  let payload := assign_when (m_value meta) "value" (parseLooseValue (value_text op)) payload in
  let payload := assign_when (m_keepOrigin meta && keep_origin op) "keep_origin" (JBool true) payload in
  let payload := assign_when (m_from meta) "from" (JStr fromValue) payload in
  let payload := assign_when (negb writes_to && nonempty toValue) "to" (JStr toValue) payload in
  let payload := assign_when writes_to "to" (JStr toValue) payload in
  let payload := assign_when (m_pathAlias meta && negb (truthy (prop "from" (JObj payload))) && nonempty pathValue)
                   "from" (JStr pathValue) payload in
  let payload := assign_when (m_pathAlias meta && negb (truthy (prop "to" (JObj payload))) && nonempty pathValue)
                   "to" (JStr pathValue) payload in
  let conditions := omap buildConditionPayload (conditions op) in
  let conditional := match conditions with [] => false | _ => true end in
  let payload := assign_when conditional "conditions" (JArr conditions) payload in
  JObj (assign_when conditional "logic" (JStr (if bool_decide (logic op = js "AND") then js "AND" else js "OR")) payload).

Definition buildOperationsJson (ops : list ParamOverrideOperation) (validate : bool) : res Message jsstring :=
  let filteredOps := filter (λ o, isOperationBlank o = false) ops in
  match filteredOps with
  | [] => Ok []
  | _ =>
      match (if validate then validateOperations filteredOps else None) with
      | Some m => Throw m
      | None => Ok (JSON_stringify 2 (obj [("operations", JArr (operation_payload <$> filteredOps))]%string))
      end
  end.

(** ** Opening the editor *)
Inductive EditMode := visual_mode | json_mode.
Inductive VisualMode := operations_mode | legacy_mode.
Record EditorState := mkEditorState {
  s_editMode : EditMode; s_visualMode : VisualMode; s_legacyValue : jsstring;
  s_operations : list ParamOverrideOperation; s_jsonText : jsstring; s_jsonError : option Message }.

(** The rules of a list read from JSON, or one new rule. *)
Definition operations_of (l : list jsval) : fresh (list ParamOverrideOperation) :=
  match l with [] => o ← createDefaultOperation; mret [o] | _ => mapM normalizeOperation l end.

Definition parseInitialState (text : jsstring) : fresh EditorState :=
  let trimmed := trim text in
  match trimmed with
  | [] => o ← createDefaultOperation; mret (mkEditorState visual_mode operations_mode [] [o] [] None)
  | _ =>
      match JSON_parse trimmed with
      | None =>
          o ← createDefaultOperation;
          mret (mkEditorState json_mode operations_mode [] [o] text (Some (js "Invalid JSON format", None)))
      | Some parsed =>
          let pretty := JSON_stringify 2 parsed in
          match parsed with
          | JObj _ =>
              match prop "operations" parsed with
              | JArr l =>
                  ops ← operations_of l;
                  mret (mkEditorState visual_mode operations_mode [] ops pretty None)
              | _ =>
                  o ← createDefaultOperation;
                  mret (mkEditorState visual_mode legacy_mode pretty [o] pretty None)
              end
          | _ => o ← createDefaultOperation; mret (mkEditorState json_mode operations_mode [] [o] pretty None)
          end
      end
  end.
End editor.
