(* ===== verification/ParamOverrideEditor.v ===== *)
(** The dialog that edits parameter overrides (ParamOverrideEditorDialog of
    param-override-editor-dialog.tsx), as a machine whose state is that of the component
    and whose events are what the user does.

    A handler reads the state of the render it was made in and queues updates; events come
    one by one, each after the render of the one before.  After each the effect that keeps
    the selection valid runs.  [counter] is the module's counter of identifiers, which
    every render advances, since the initial value of the rules is computed by each. *)
From S2P Require Import Prelude JsString JsValue Json JsPrint JsNumber JsonQuote JsonPrint JsDynamic Actions ParamOverride.
Local Open Scope nat_scope.

Record Editor := mkEditor {
  editMode : EditMode; visualMode : VisualMode; legacyValue : jsstring; operations : list ParamOverrideOperation;
  jsonText : jsstring; jsonError : option Message; operationSearch : jsstring; selectedOperationId : jsstring;
  expandedConditions : list (jsstring * bool); draggedOperationId : jsstring; dragOverOperationId : jsstring;
  dragOverPosition : Position; templatePresetKey : jsstring; counter : nat }.

Inductive Out :=
| toastError (m : Message)
| onSave (text : jsstring)
| onClose
| uncaught (e : js_error).

Abbreviation A := (act Editor Out).
Open Scope act_scope.

Definition setEditMode (x : EditMode) (s : Editor) : Editor :=
  mkEditor x (visualMode s) (legacyValue s) (operations s) (jsonText s) (jsonError s) (operationSearch s)
    (selectedOperationId s) (expandedConditions s) (draggedOperationId s) (dragOverOperationId s)
    (dragOverPosition s) (templatePresetKey s) (counter s).
Definition setVisualMode (x : VisualMode) (s : Editor) : Editor :=
  mkEditor (editMode s) x (legacyValue s) (operations s) (jsonText s) (jsonError s) (operationSearch s)
    (selectedOperationId s) (expandedConditions s) (draggedOperationId s) (dragOverOperationId s)
    (dragOverPosition s) (templatePresetKey s) (counter s).
Definition setLegacyValue (x : jsstring) (s : Editor) : Editor :=
  mkEditor (editMode s) (visualMode s) x (operations s) (jsonText s) (jsonError s) (operationSearch s)
    (selectedOperationId s) (expandedConditions s) (draggedOperationId s) (dragOverOperationId s)
    (dragOverPosition s) (templatePresetKey s) (counter s).
Definition setOperations (x : list ParamOverrideOperation) (s : Editor) : Editor :=
  mkEditor (editMode s) (visualMode s) (legacyValue s) x (jsonText s) (jsonError s) (operationSearch s)
    (selectedOperationId s) (expandedConditions s) (draggedOperationId s) (dragOverOperationId s)
    (dragOverPosition s) (templatePresetKey s) (counter s).
Definition setJsonText (x : jsstring) (s : Editor) : Editor :=
  mkEditor (editMode s) (visualMode s) (legacyValue s) (operations s) x (jsonError s) (operationSearch s)
    (selectedOperationId s) (expandedConditions s) (draggedOperationId s) (dragOverOperationId s)
    (dragOverPosition s) (templatePresetKey s) (counter s).
Definition setJsonError (x : option Message) (s : Editor) : Editor :=
  mkEditor (editMode s) (visualMode s) (legacyValue s) (operations s) (jsonText s) x (operationSearch s)
    (selectedOperationId s) (expandedConditions s) (draggedOperationId s) (dragOverOperationId s)
    (dragOverPosition s) (templatePresetKey s) (counter s).
Definition setOperationSearch (x : jsstring) (s : Editor) : Editor :=
  mkEditor (editMode s) (visualMode s) (legacyValue s) (operations s) (jsonText s) (jsonError s) x
    (selectedOperationId s) (expandedConditions s) (draggedOperationId s) (dragOverOperationId s)
    (dragOverPosition s) (templatePresetKey s) (counter s).
Definition setSelectedOperationId (x : jsstring) (s : Editor) : Editor :=
  mkEditor (editMode s) (visualMode s) (legacyValue s) (operations s) (jsonText s) (jsonError s) (operationSearch s)
    x (expandedConditions s) (draggedOperationId s) (dragOverOperationId s) (dragOverPosition s)
    (templatePresetKey s) (counter s).
Definition setExpandedConditions (x : list (jsstring * bool)) (s : Editor) : Editor :=
  mkEditor (editMode s) (visualMode s) (legacyValue s) (operations s) (jsonText s) (jsonError s) (operationSearch s)
    (selectedOperationId s) x (draggedOperationId s) (dragOverOperationId s) (dragOverPosition s)
    (templatePresetKey s) (counter s).
Definition set_drag (dragged over : jsstring) (p : Position) (s : Editor) : Editor :=
  mkEditor (editMode s) (visualMode s) (legacyValue s) (operations s) (jsonText s) (jsonError s) (operationSearch s)
    (selectedOperationId s) (expandedConditions s) dragged over p (templatePresetKey s) (counter s).
Definition setTemplatePresetKey (x : jsstring) (s : Editor) : Editor :=
  mkEditor (editMode s) (visualMode s) (legacyValue s) (operations s) (jsonText s) (jsonError s) (operationSearch s)
    (selectedOperationId s) (expandedConditions s) (draggedOperationId s) (dragOverOperationId s)
    (dragOverPosition s) x (counter s).
Definition set_counter (x : nat) (s : Editor) : Editor :=
  mkEditor (editMode s) (visualMode s) (legacyValue s) (operations s) (jsonText s) (jsonError s) (operationSearch s)
    (selectedOperationId s) (expandedConditions s) (draggedOperationId s) (dragOverOperationId s)
    (dragOverPosition s) (templatePresetKey s) x.

(** Draw, then go on; an error that nothing catches ends the handler. *)
Definition drawing {B} (m : fresh B) (k : B → A) : A := λ s,
  match m (counter s) with
  | (Ok b, n) => k b (set_counter n s)
  | (Throw e, n) => (set_counter n s, [uncaught e])
  end.

Definition first_id (ops : list ParamOverrideOperation) : jsstring :=
  match ops with o :: _ => o_id o | [] => [] end.

(** What the user changes of a rule; its identifier is never among it. *)
Record OperationPatch := mkPatch {
  x_description : option jsstring; x_path : option jsstring; x_mode : option jsstring; x_from : option jsstring;
  x_to : option jsstring; x_value_text : option jsstring; x_keep_origin : option bool; x_logic : option jsstring }.
Definition patch_operation (x : OperationPatch) (o : ParamOverrideOperation) : ParamOverrideOperation :=
  mkOperation (o_id o) (default (description o) (x_description x)) (default (path o) (x_path x))
    (default (mode o) (x_mode x)) (default (from o) (x_from x)) (default (to o) (x_to x))
    (default (value_text o) (x_value_text x)) (default (keep_origin o) (x_keep_origin x))
    (default (logic o) (x_logic x)) (conditions o).

Record ConditionPatch := mkConditionPatch {
  y_path : option jsstring; y_mode : option jsstring; y_value_text : option jsstring; y_invert : option bool;
  y_pass_missing_key : option bool }.
Definition patch_condition (y : ConditionPatch) (c : ParamOverrideCondition) : ParamOverrideCondition :=
  mkCondition (c_id c) (default (c_path c) (y_path y)) (default (c_mode c) (y_mode y))
    (default (c_value_text c) (y_value_text y)) (default (c_invert c) (y_invert y))
    (default (c_pass_missing_key c) (y_pass_missing_key y)).

Definition with_conditions (cs : list ParamOverrideCondition) (o : ParamOverrideOperation) : ParamOverrideOperation :=
  mkOperation (o_id o) (description o) (path o) (mode o) (from o) (to o) (value_text o) (keep_origin o) (logic o) cs.
Definition with_value_text (t : jsstring) (o : ParamOverrideOperation) : ParamOverrideOperation :=
  mkOperation (o_id o) (description o) (path o) (mode o) (from o) (to o) t (keep_origin o) (logic o) (conditions o).

Section editor.
Context `{Clock}.

(** ** Rules *)
Definition map_operation (id : jsstring) (f : ParamOverrideOperation → ParamOverrideOperation) : A :=
  upd (λ s, setOperations ((λ o, if decide (o_id o = id) then f o else o) <$> operations s) s).

Definition updateOperation (id : jsstring) (x : OperationPatch) : A := map_operation id (patch_operation x).

Definition addOperation : A :=
  drawing createDefaultOperation (λ created,
    upd (λ s, setSelectedOperationId (o_id created) (setOperations (operations s ++ [created]) s))).

(** A rule as the object that [duplicateOperation] makes of it. *)
Definition condition_object (c : ParamOverrideCondition) : jsval := obj [
  ("path", JStr (c_path c)); ("mode", JStr (c_mode c)); ("value", parseLooseValue (c_value_text c));
  ("invert", JBool (c_invert c)); ("pass_missing_key", JBool (c_pass_missing_key c))]%string.
Definition operation_object (o : ParamOverrideOperation) : jsval := obj [
  ("description", JStr (description o)); ("path", JStr (path o)); ("mode", JStr (mode o));
  ("value", parseLooseValue (value_text o)); ("keep_origin", JBool (keep_origin o)); ("from", JStr (from o));
  ("to", JStr (to o)); ("logic", JStr (logic o)); ("conditions", JArr (condition_object <$> conditions o))]%string.

(** The update of the rules is a function that React calls at once or in the next render:
    only when it is called at once is the copy known in time to be selected. *)
Definition duplicateOperation (id : jsstring) (at_once : bool) : A := λ s,
  match index_by_id id (operations s) with
  | None => (s, [])
  | Some idx =>
      match operations s !! idx with
      | None => (s, [])
      | Some source =>
          drawing (normalizeOperation (operation_object source)) (λ cloned,
            upd (λ s, (if at_once then setSelectedOperationId (o_id cloned) else λ s, s)
                        (setOperations (take (S idx) (operations s) ++ cloned :: drop (S idx) (operations s)) s))) s
      end
  end.

Definition removeOperation (id : jsstring) : A := λ s,
  if length (operations s) <=? 1 then drawing createDefaultOperation (λ o, upd (setOperations [o])) s
  else (setOperations (filter (λ o, o_id o ≠ id) (operations s)) s, []).

(** ** Conditions *)
Definition addCondition (id : jsstring) : A :=
  drawing createDefaultCondition (λ created,
    map_operation id (λ o, with_conditions (conditions o ++ [created]) o) ;;
    upd (λ s, setExpandedConditions (jset (c_id created) true (expandedConditions s)) s)).
Definition updateCondition (id cid : jsstring) (y : ConditionPatch) : A :=
  map_operation id (λ o, with_conditions
    ((λ c, if decide (c_id c = cid) then patch_condition y c else c) <$> conditions o) o).
Definition removeCondition (id cid : jsstring) : A :=
  map_operation id (λ o, with_conditions (filter (λ c, c_id c ≠ cid) (conditions o)) o).
Definition set_expanded (b : bool) : A := upd (λ s,
  match list_find (λ o, o_id o = selectedOperationId s) (operations s) with
  | Some (_, o) => setExpandedConditions
      (foldl (λ m c, jset (c_id c) b m) (expandedConditions s) (conditions o)) s
  | None => s
  end).
Definition expandAllConditions : A := set_expanded true.
Definition collapseAllConditions : A := set_expanded false.

(** ** Drafts *)
Definition updateReturnErrorDraft (id : jsstring) (change : ReturnErrorDraft → ReturnErrorDraft) : A :=
  map_operation id (λ o, with_value_text
    (buildReturnErrorValueText (change (parseReturnErrorDraft (value_text o)))) o).

(** The draft of a rule is read from its text again, which draws identifiers again. *)
Definition prune_operation (id : jsstring) (updater : PruneObjectsDraft → fresh PruneObjectsDraft)
    (o : ParamOverrideOperation) : fresh ParamOverrideOperation :=
  if decide (o_id o = id) then
    draft ← parsePruneObjectsDraft (value_text o);
    nextDraft ← updater draft;
    mret (with_value_text (buildPruneObjectsValueText nextDraft) o)
  else mret o.
Definition updatePruneObjectsDraft (id : jsstring) (updater : PruneObjectsDraft → fresh PruneObjectsDraft) : A := λ s,
  drawing (mapM (prune_operation id updater) (operations s)) (λ ops, upd (setOperations ops)) s.

Definition add_rule (draft : PruneObjectsDraft) : fresh PruneObjectsDraft :=
  r ← normalizePruneRule (JObj []);
  mret (mkPruneDraft false (p_typeText draft) (p_logic draft) (p_recursive draft) (p_rules draft ++ [r])).
Definition update_rule (rid : jsstring) (y : ConditionPatch) (draft : PruneObjectsDraft) : fresh PruneObjectsDraft :=
  mret (mkPruneDraft (p_simpleMode draft) (p_typeText draft) (p_logic draft) (p_recursive draft)
          ((λ r, if decide (c_id r = rid) then patch_condition y r else r) <$> p_rules draft)).
Definition remove_rule (rid : jsstring) (draft : PruneObjectsDraft) : fresh PruneObjectsDraft :=
  mret (mkPruneDraft (p_simpleMode draft) (p_typeText draft) (p_logic draft) (p_recursive draft)
          (filter (λ r, c_id r ≠ rid) (p_rules draft))).

Definition addPruneRule (id : jsstring) : A := updatePruneObjectsDraft id add_rule.
Definition updatePruneRule (id rid : jsstring) (y : ConditionPatch) : A := updatePruneObjectsDraft id (update_rule rid y).
Definition removePruneRule (id rid : jsstring) : A := updatePruneObjectsDraft id (remove_rule rid).

(** ** Dragging *)
Definition resetDragState : A := upd (set_drag [] [] before).
Definition handleDragStart (id : jsstring) : A :=
  upd (λ s, setSelectedOperationId id (set_drag id (dragOverOperationId s) (dragOverPosition s) s)).
(** [lower] tells whether the pointer is in the lower half of the rule. *)
Definition handleDragOver (id : jsstring) (lower : bool) : A := λ s,
  if bool_decide (draggedOperationId s = []) || bool_decide (draggedOperationId s = id) then (s, [])
  else (set_drag (draggedOperationId s) id (if lower then after else before) s, []).
(** [transferred] is the text that the browser carried. *)
Definition handleDrop (id transferred : jsstring) : A := λ s,
  let sourceId := or_text (draggedOperationId s) transferred in
  let position := if bool_decide (dragOverOperationId s = id) then dragOverPosition s else before in
  (when (λ _, nonempty sourceId && nonempty id && negb (bool_decide (sourceId = id)))
     (upd (λ s, setSelectedOperationId sourceId
                  (setOperations (reorderOperations (operations s) sourceId id position) s))) ;;
   resetDragState) s.

(** ** Modes and templates *)
Definition buildVisualJson (s : Editor) : res Message jsstring :=
  match visualMode s with
  | legacy_mode =>
      match trim (legacyValue s) with
      | [] => Ok []
      | trimmed =>
          match JSON_parse trimmed with
          | None => Throw (js "Parameter override must be valid JSON format", None)
          | Some (JObj ps) => Ok (JSON_stringify 2 (JObj ps))
          | Some _ => Throw (js "Legacy format must be a JSON object", None)
          end
      end
  | operations_mode => buildOperationsJson (operations s) true
  end.

Definition switchToJsonMode : A := λ s,
  match editMode s with
  | json_mode => (s, [])
  | visual_mode =>
      match buildVisualJson s with
      | Ok text => (setEditMode json_mode (setJsonError None (setJsonText text s)), [])
      | Throw m =>
          let text := match visualMode s with
                      | legacy_mode => legacyValue s
                      | operations_mode => match buildOperationsJson (operations s) false with Ok t => t | Throw _ => [] end
                      end in
          (setEditMode json_mode (setJsonError (Some m) (setJsonText text s)), [toastError m])
      end
  end.

(** The editor shows one new rule. *)
Definition show_new_rule (o : ParamOverrideOperation) : Editor → Editor := λ s,
  setEditMode visual_mode (setJsonError None (setSelectedOperationId (o_id o) (setOperations [o] s))).

Definition switchToVisualMode : A := λ s,
  match editMode s with
  | visual_mode => (s, [])
  | json_mode =>
      match trim (jsonText s) with
      | [] => drawing createDefaultOperation (λ o,
                upd (λ s, show_new_rule o (setLegacyValue [] (setVisualMode operations_mode s)))) s
      | trimmed =>
          match JSON_parse trimmed with
          | None => (s, [toastError (js "Parameter override must be valid JSON format", None)])
          | Some (JObj ps) =>
              match prop "operations" (JObj ps) with
              | JArr l => drawing (operations_of l) (λ ops,
                  upd (λ s, setTemplatePresetKey (js "operations_default") (setEditMode visual_mode
                    (setJsonError None (setLegacyValue [] (setSelectedOperationId (first_id ops)
                      (setOperations ops (setVisualMode operations_mode s)))))))) s
              | _ => drawing createDefaultOperation (λ o,
                  upd (λ s, setTemplatePresetKey (js "legacy_default")
                    (show_new_rule o (setLegacyValue (JSON_stringify 2 (JObj ps)) (setVisualMode legacy_mode s))))) s
              end
          | Some _ => (s, [toastError (js "Parameter override must be a valid JSON object", None)])
          end
      end
  end.

Inductive FillMode := fill | append.

Definition show_legacy (text : jsstring) : A :=
  drawing createDefaultOperation (λ o, upd (λ s,
    setEditMode visual_mode (setJsonError None (setJsonText text (setOperations [o]
      (setLegacyValue text (setVisualMode legacy_mode s))))))).

Definition fillTemplate (m : FillMode) : A := λ s,
  let preset := default (mkPreset (js "New Format Template") kind_operations OPERATION_TEMPLATE)
                  (jget (templatePresetKey s) TEMPLATE_PRESET_CONFIG) in
  let payload := t_payload preset in
  match t_kind preset with
  | kind_legacy =>
      match m, visualMode s with
      | append, legacy_mode =>
          match trim (legacyValue s) with
          | [] => show_legacy (JSON_stringify 2 (make_obj (spread payload))) s
          | trimmed =>
              match JSON_parse trimmed with
              | None => (s, [toastError (js "Current legacy JSON is invalid, cannot append", None)])
              | Some current => show_legacy (JSON_stringify 2 (make_obj (spread payload ++ spread current))) s
              end
          end
      | _, _ => show_legacy (JSON_stringify 2 payload) s
      end
  | kind_operations =>
      let operationsPayload := match prop "operations" payload with JArr l => l | _ => [] end in
      match m with
      | append => drawing (mapM normalizeOperation operationsPayload) (λ appended,
          reading (λ s, match visualMode s with
                        | operations_mode => filter (λ o, isOperationBlank o = false) (operations s)
                        | legacy_mode => []
                        end) (λ existing,
          let nextOps := existing ++ appended in
          upd (λ s, setJsonText [] (setEditMode visual_mode (setJsonError None (setLegacyValue []
            (setSelectedOperationId (or_text (first_id nextOps) (first_id appended))
              (setOperations (match nextOps with [] => appended | _ => nextOps end)
                (setVisualMode operations_mode s))))))))) s
      | fill => drawing (operations_of operationsPayload) (λ finalOps,
          upd (λ s, setEditMode visual_mode (setJsonError None
            (setJsonText (JSON_stringify 2 (obj [("operations", JArr operationsPayload)]%string))
              (setSelectedOperationId (first_id finalOps) (setOperations finalOps
                (setVisualMode operations_mode s))))))) s
      end
  end.

Definition resetEditorState : A :=
  drawing createDefaultOperation (λ o, upd (λ s,
    setTemplatePresetKey (js "operations_default") (setJsonText []
      (show_new_rule o (setLegacyValue [] (setVisualMode operations_mode s)))))).

Definition handleJsonChange (text : jsstring) : A := upd (λ s,
  setJsonError (match trim text with
                | [] => None
                | trimmed => if verifyJSON trimmed then None else Some (js "JSON format error", None)
                end) (setJsonText text s)).

Definition visualValidationError (s : Editor) : option Message :=
  match editMode s with
  | json_mode => None
  | visual_mode => match buildVisualJson s with Ok _ => None | Throw m => Some m end
  end.

Definition saved (s : Editor) : res Message jsstring :=
  match editMode s with
  | json_mode =>
      match trim (jsonText s) with
      | [] => Ok []
      | trimmed =>
          match JSON_parse trimmed with
          | None => Throw (js "Parameter override must be valid JSON format", None)
          | Some v => Ok (JSON_stringify 2 v)
          end
      end
  | visual_mode => buildVisualJson s
  end.
Definition handleSave : A := λ s,
  (s, match saved s with Ok text => [onSave text; onClose] | Throw m => [toastError m] end).

(** ** Opening *)
Definition open_dialog (value : jsstring) : A :=
  drawing (parseInitialState value) (λ st, upd (λ s,
    mkEditor (s_editMode st) (s_visualMode st) (s_legacyValue st) (s_operations st) (s_jsonText st) (s_jsonError st)
      [] (first_id (s_operations st)) [] [] [] before
      (match s_visualMode st with legacy_mode => js "legacy_default" | operations_mode => js "operations_default" end)
      (counter s))).

(** The effect that keeps the selection valid. *)
Definition keep_selection : A := upd (λ s,
  match operations s with
  | [] => setSelectedOperationId [] s
  | o :: _ =>
      if existsb (λ o, bool_decide (o_id o = selectedOperationId s)) (operations s) then s
      else setSelectedOperationId (o_id o) s
  end).

(** ** What is shown *)
Definition operationCount (s : Editor) : nat := length (filter (λ o, isOperationBlank o = false) (operations s)).

Definition filteredOperations (s : Editor) : list ParamOverrideOperation :=
  match to_lower (trim (operationSearch s)) with
  | [] => operations s
  | keyword =>
      filter (λ o, includes keyword (to_lower (join (js " ")
        (nonempties [description o; mode o; path o; from o; to o; value_text o]))) = true) (operations s)
  end.

(** The modes used most, with their numbers. *)
Definition topOperationModes (s : Editor) : list (jsstring * Z) :=
  let counts := foldl (λ m o, let k := or_text (mode o) (js "set") in jset k (default 0%Z (jget k m) + 1)%Z m)
                  [] (operations s) in
  take 4 (js_sort (λ a b, (b.2 - a.2)%Z) counts).

(** ** Events *)
Inductive Event :=
| Opened (value : jsstring)
| Rendered
| AddOperation
| DuplicateOperation (id : jsstring) (at_once : bool)
| RemoveOperation (id : jsstring)
| UpdateOperation (id : jsstring) (x : OperationPatch)
| AddCondition (id : jsstring)
| UpdateCondition (id cid : jsstring) (y : ConditionPatch)
| RemoveCondition (id cid : jsstring)
| ExpandAll
| CollapseAll
| UpdateReturnError (id : jsstring) (change : ReturnErrorDraft → ReturnErrorDraft)
| UpdatePruneDraft (id : jsstring) (change : PruneObjectsDraft → PruneObjectsDraft)
| AddPruneRule (id : jsstring)
| UpdatePruneRule (id rid : jsstring) (y : ConditionPatch)
| RemovePruneRule (id rid : jsstring)
| DragStart (id : jsstring)
| DragOver (id : jsstring) (lower : bool)
| Drop (id transferred : jsstring)
| DragEnd
| Select (id : jsstring)
| Search (text : jsstring)
| ChooseTemplate (key : jsstring)
| ChangeLegacy (text : jsstring)
| ToJson
| ToVisual
| Fill (m : FillMode)
| Reset
| ChangeJson (text : jsstring)
| Save.

Definition respond (e : Event) : A :=
  match e with
  | Opened value => open_dialog value
  | Rendered => drawing createDefaultOperation (λ _, skip)
  | AddOperation => addOperation
  | DuplicateOperation id b => duplicateOperation id b
  | RemoveOperation id => removeOperation id
  | UpdateOperation id x => updateOperation id x
  | AddCondition id => addCondition id
  | UpdateCondition id cid y => updateCondition id cid y
  | RemoveCondition id cid => removeCondition id cid
  | ExpandAll => expandAllConditions
  | CollapseAll => collapseAllConditions
  | UpdateReturnError id change => updateReturnErrorDraft id change
  | UpdatePruneDraft id change => updatePruneObjectsDraft id (λ d, mret (change d))
  | AddPruneRule id => addPruneRule id
  | UpdatePruneRule id rid y => updatePruneRule id rid y
  | RemovePruneRule id rid => removePruneRule id rid
  | DragStart id => handleDragStart id
  | DragOver id lower => handleDragOver id lower
  | Drop id transferred => handleDrop id transferred
  | DragEnd => resetDragState
  | Select id => upd (setSelectedOperationId id)
  | Search text => upd (setOperationSearch text)
  | ChooseTemplate key => upd (setTemplatePresetKey (or_text key (js "operations_default")))
  | ChangeLegacy text => upd (setLegacyValue text)
  | ToJson => switchToJsonMode
  | ToVisual => switchToVisualMode
  | Fill m => fillTemplate m
  | Reset => resetEditorState
  | ChangeJson text => handleJsonChange text
  | Save => handleSave
  end.

Definition handle (e : Event) : A := respond e ;; keep_selection.

Definition step : Editor → Event * list Out → Editor → Prop := machine_step (λ _ _, True) handle.

(** The state after the first render and its effects, the counter at [n]. *)
Definition init (n : nat) : Editor :=
  let o := mkOperation (local_id n) [] [] (js "set") [] [] [] false (js "OR") [] in
  mkEditor visual_mode operations_mode [] [o] [] None [] (o_id o) [] [] [] before (js "operations_default") (S n).
End editor.
