(* ===== verification/ParamOverrideFacts.v ===== *)
(** Facts of parameter overrides: what a saved override is when it is opened again, and
    which values change on the way; the order of rules; the drafts of custom errors and of
    rules that prune objects; the invariant of the editor. *)
From S2P Require Import Prelude JsString JsValue Json JsPrint JsNumber JsonQuote JsonPrint JsDynamic Actions.
From S2P Require Import ParamOverride ParamOverrideEditor.
Local Open Scope nat_scope.

(** ** Identifiers *)
Lemma show_Z_no_underscore z : 95%N ∉ show_Z z.
Proof.
  intros Hin. unfold show_Z in Hin.
  assert (∀ n, 95%N ∉ show_N n) as Hn.
  { intros n Hn. pose proof (show_N_digits n) as Hd. rewrite Forall_forall in Hd. by specialize (Hd _ Hn). }
  destruct z as [|p|p]; [by vm_compute in Hin; repeat (apply elem_of_cons in Hin as [Hin|Hin]; [done|]); apply not_elem_of_nil in Hin| |].
  - by apply Hn in Hin.
  - apply elem_of_app in Hin as [Hin|Hin]; [|by apply Hn in Hin]. by apply list_elem_of_singleton in Hin.
Qed.

Lemma local_id_inj `{Clock} n m : local_id n = local_id m → n = m.
Proof.
  unfold local_id. intros E. apply (app_inv_head (js "po_")) in E.
  destruct (prefix_inj 95%N _ _ _ _ (show_Z_no_underscore _) (show_Z_no_underscore _) E) as [_ En].
  apply show_N_inj in En. lia.
Qed.

Lemma local_id_not_nil `{Clock} n : local_id n ≠ [].
Proof. done. Qed.

(** ** Objects that are built property by property *)
Lemma prop_assign_when k k' b v ps :
  prop k (JObj (assign_when b k' v ps)) = if b && bool_decide (k' = k) then v else prop k (JObj ps).
Proof.
  unfold assign_when, assign. destruct b; [|done]. cbn. rewrite jget_jset. case_decide as E; case_bool_decide as E'.
  - done.
  - by apply (inj js) in E.
  - subst. done.
  - done.
Qed.

Lemma json_ok_assign_when b k v ps : json_ok (JObj ps) = true → units_ok (js k) = true → array_index (js k) = None →
  (b = true → json_ok v = true) → json_ok (JObj (assign_when b k v ps)) = true.
Proof. unfold assign_when, assign. intros Hps Hk Hi Hv. destruct b; [|done]. apply json_ok_jset; auto. Qed.

(** ** Values *)
Lemma parseLooseValue_trim s : parseLooseValue (trim s) = parseLooseValue s.
Proof. unfold parseLooseValue. by rewrite trim_idemp. Qed.

Lemma parse_nil : JSON_parse [] = None.
Proof. done. Qed.

(** The text and the value of an object agree. *)
Lemma loose_object s ps : parseLooseValue s = JObj ps ↔ JSON_parse (trim s) = Some (JObj ps).
Proof.
  unfold parseLooseValue. destruct (trim s) as [|c t] eqn:E; [by rewrite parse_nil|].
  destruct (JSON_parse (c :: t)) as [v|]; cbn; [|done]. naive_solver.
Qed.

(** ** Opening a saved override *)

(** The text of a value that means the same when it is shown again: it is no text that
    looks like JSON, or has blanks around it. *)
Definition steady_value (v : jsval) : Prop := json_ok v = true ∧ parseLooseValue (toValueText v) = v.
Definition steady_text (t : jsstring) : Prop :=
  steady_value (parseLooseValue t) ∧ (parseLooseValue t = JStr [] → blank t = true).

Record steady_condition (c : ParamOverrideCondition) : Prop := {
  sc_mode : c_mode c ∈ CONDITION_MODE_VALUES;
  sc_path : units_ok (c_path c) = true;
  sc_value : steady_value (parseLooseValue (c_value_text c)) }.

Record steady_operation (o : ParamOverrideOperation) : Prop := {
  so_mode : mode o ∈ OPERATION_MODE_VALUES;
  so_texts : units_ok (description o) && units_ok (path o) && units_ok (from o) && units_ok (to o) = true;
  so_value : m_value (meta_of (mode o)) = true → steady_text (value_text o);
  so_conditions : Forall steady_condition (conditions o) }.

(** A rule without identifiers. *)
Definition erase_condition (c : ParamOverrideCondition) : ParamOverrideCondition :=
  mkCondition [] (c_path c) (c_mode c) (c_value_text c) (c_invert c) (c_pass_missing_key c).
Definition erase (o : ParamOverrideOperation) : ParamOverrideOperation :=
  mkOperation [] (description o) (path o) (mode o) (from o) (to o) (value_text o) (keep_origin o) (logic o)
    (erase_condition <$> conditions o).

(** The condition, and the rule, that the editor shows for what was saved: texts without
    blanks around them, only what the mode uses, an aliased path where it was meant. *)
Definition reopened_condition (c : ParamOverrideCondition) : ParamOverrideCondition :=
  mkCondition [] (trim (c_path c)) (c_mode c) (toValueText (parseLooseValue (c_value_text c))) (c_invert c)
    (c_pass_missing_key c).
Definition kept_conditions (o : ParamOverrideOperation) : list ParamOverrideCondition :=
  filter (λ c, blank (c_path c) = false) (conditions o).
Definition reopened (o : ParamOverrideOperation) : ParamOverrideOperation :=
  let meta := meta_of (mode o) in
  let aliased t := if m_pathAlias meta then or_text t (trim (path o)) else t in
  mkOperation [] (trim (description o)) (if m_path meta || m_pathOptional meta then trim (path o) else []) (mode o)
    (if m_from meta then aliased (trim (from o)) else []) (aliased (trim (to o)))
    (if m_value meta then toValueText (parseLooseValue (value_text o)) else []) (m_keepOrigin meta && keep_origin o)
    (match kept_conditions o with [] => js "OR" | _ => if bool_decide (logic o = js "AND") then js "AND" else js "OR" end)
    (reopened_condition <$> kept_conditions o).

Lemma blank_spec s : blank s = false ↔ ∃ c t, trim s = c :: t.
Proof.
  unfold blank. rewrite bool_decide_eq_false. destruct (trim s) as [|c t]; [|by split; eauto].
  split; [done|by intros (? & ? & ?)].
Qed.

Lemma prop_single k k' v : prop k (JObj [(js k', v)]) = if bool_decide (k' = k) then v else JUndef.
Proof.
  cbn. case_decide as E; case_bool_decide as E'; [done| |by subst|done]. by apply (inj js) in E as ->.
Qed.

Ltac props := repeat (first [rewrite prop_assign_when | rewrite prop_single];
  first [rewrite bool_decide_true by done | rewrite bool_decide_false by done]); rewrite ?andb_true_r, ?andb_false_r.

Lemma condition_payload_kept c : buildConditionPayload c = None ↔ blank (c_path c) = true.
Proof. unfold buildConditionPayload, blank. rewrite bool_decide_eq_true. by destruct (trim (c_path c)). Qed.

Lemma known_mode v values fallback : v ∈ values → known_or values fallback (JStr v) = v.
Proof. intros Hv. unfold known_or. by rewrite (proj2 (set_has_spec v values) Hv). Qed.

Lemma mode_texts m fallback : m ∈ CONDITION_MODE_VALUES ∨ m ∈ OPERATION_MODE_VALUES →
  or_text m fallback = m ∧ units_ok m = true.
Proof.
  intros Hm. assert (m ∈ CONDITION_MODE_VALUES ++ OPERATION_MODE_VALUES) as Hin by by apply elem_of_app.
  assert (Forall (λ m, nonempty m && units_ok m = true) (CONDITION_MODE_VALUES ++ OPERATION_MODE_VALUES)) as Hall
    by (apply forallb_Forall; vm_compute; done).
  rewrite Forall_forall in Hall. specialize (Hall m Hin). apply andb_true_iff in Hall as [Hn ->].
  by destruct m.
Qed.

Lemma fresh_bind_Ok {B C} (m : fresh B) (k : B → fresh C) n a n' : m n = (Ok a, n') → (m ≫= k) n = k a n'.
Proof. intros E. unfold mbind, fresh_bind. by rewrite E. Qed.

Section facts.
Context `{Clock}.

Lemma condition_reopens c p n : steady_condition c → buildConditionPayload c = Some p →
  json_ok p = true ∧
  ∃ c', normalizeCondition p n = (Ok c', S n) ∧ erase_condition c' = reopened_condition c ∧ c_id c' = local_id n.
Proof.
  intros [Hm Hp [Hv Hs]] E. unfold buildConditionPayload in E. pose proof (units_ok_trim _ Hp) as Hu.
  destruct (trim (c_path c)) as [|x t] eqn:Et; [done|]. injection E as <-.
  destruct (mode_texts (c_mode c) (js "full") (or_introl Hm)) as [Em Hmu]. rewrite Em. set (v := parseLooseValue (c_value_text c)) in *. set (base := [(js "path", _); _; _]).
  assert (json_ok (JObj base) = true) as Hb.
  { subst base. cbn [json_ok forallb]. rewrite Hu, Hmu, Hv. done. }
  split.
  { do 2 (apply json_ok_assign_when; [|done|done|done]). done. }
  unfold normalizeCondition, or_empty_object. cbn [nextLocalId mbind fresh_bind lift get_prop].
  eexists. split; [reflexivity|]. split; [|done]. unfold erase_condition, reopened_condition. cbn [c_path c_mode c_value_text c_invert c_pass_missing_key].
  props. rewrite Et. change (prop "path" (JObj base)) with (JStr (x :: t)).
  change (prop "mode" (JObj base)) with (JStr (c_mode c)). change (prop "value" (JObj base)) with v.
  change (prop "invert" (JObj base)) with JUndef. change (prop "pass_missing_key" (JObj base)) with JUndef.
  rewrite known_mode by done. cbn [text_or_empty]. f_equal; [by destruct (c_invert c)|by destruct (c_pass_missing_key c)].
Qed.

(** The properties of a rule's payload. *)
Definition payload_from (o : ParamOverrideOperation) : jsval :=
  if m_from (meta_of (mode o)) then JStr (trim (from o)) else JUndef.
Definition payload_to (o : ParamOverrideOperation) : jsval :=
  if bool_decide (m_to (meta_of (mode o)) = Some true) || nonempty (trim (to o)) then JStr (trim (to o)) else JUndef.
Definition aliased_to (o : ParamOverrideOperation) (v : jsval) : jsval :=
  if m_pathAlias (meta_of (mode o)) && negb (truthy v) && nonempty (trim (path o)) then JStr (trim (path o)) else v.
Definition payload_conditions (o : ParamOverrideOperation) : list jsval := omap buildConditionPayload (conditions o).

Lemma payload_props o : mode o ∈ OPERATION_MODE_VALUES →
  let p := operation_payload o in let meta := meta_of (mode o) in
  prop "mode" p = JStr (mode o) ∧
  prop "description" p = (if nonempty (trim (description o)) then JStr (trim (description o)) else JUndef) ∧
  prop "path" p = (if m_path meta || (m_pathOptional meta && nonempty (trim (path o))) then JStr (trim (path o)) else JUndef) ∧
  prop "value" p = (if m_value meta then parseLooseValue (value_text o) else JUndef) ∧
  prop "keep_origin" p = (if m_keepOrigin meta && keep_origin o then JBool true else JUndef) ∧
  prop "from" p = aliased_to o (payload_from o) ∧
  prop "to" p = aliased_to o (payload_to o) ∧
  prop "conditions" p = (match payload_conditions o with [] => JUndef | l => JArr l end) ∧
  prop "logic" p = (match payload_conditions o with
                    | [] => JUndef
                    | _ => JStr (if bool_decide (logic o = js "AND") then js "AND" else js "OR")
                    end).
Proof.
  intros Hm p meta. destruct (mode_texts (mode o) (js "set") (or_intror Hm)) as [Em _].
  subst p meta. unfold operation_payload, payload_from, payload_to, aliased_to, payload_conditions. rewrite Em.
  set (meta := meta_of (mode o)). generalize (bool_decide (logic o = js "AND")). intros l.
  generalize (bool_decide (m_to meta = Some true)). intros writes. props.
  split_and!; try done.
  - by destruct (m_path meta), (m_pathOptional meta), (nonempty (trim (path o))).
  - by destruct writes, (nonempty (trim (to o))).
  - by destruct (omap _ _).
  - by destruct (omap _ _).
Qed.

Lemma conditions_payload_ok cs : Forall steady_condition cs →
  forallb json_ok (omap buildConditionPayload cs) = true.
Proof.
  induction 1 as [|c cs Hc _ IH]; [done|]. cbn [omap list_omap]. destruct (buildConditionPayload c) as [p|] eqn:E; [|done].
  cbn. rewrite IH. by destruct (condition_reopens c p 0 Hc E) as [-> _].
Qed.

Lemma payload_ok o : steady_operation o → json_ok (operation_payload o) = true.
Proof.
  intros [Hm Ht Hv Hc]. destruct (mode_texts (mode o) (js "set") (or_intror Hm)) as [Em Hu].
  unfold operation_payload. rewrite Em. rewrite !andb_true_iff in Ht. destruct Ht as [[[Hd Hp] Hf] Hto].
  apply units_ok_trim in Hd, Hp, Hf, Hto.
  repeat (apply json_ok_assign_when; [|done|done|]); try done; intros;
    first [by apply Hv | by apply conditions_payload_ok | by destruct (bool_decide (logic o = js "AND")) | idtac].
  cbn [json_ok forallb]. by rewrite Hu.
Qed.

(** Reading the conditions of a payload. *)
Lemma conditions_reopen cs n : Forall steady_condition cs →
  ∃ cs', mapM normalizeCondition (omap buildConditionPayload cs) n = (Ok cs', n + length cs') ∧
    erase_condition <$> cs' = reopened_condition <$> filter (λ c, blank (c_path c) = false) cs.
Proof.
  intros Hcs. revert n. induction Hcs as [|c cs Hc _ IH]; intros n.
  { exists []. split; [|done]. cbn. by rewrite Nat.add_0_r. }
  cbn [omap list_omap]. rewrite filter_cons. destruct (buildConditionPayload c) as [p|] eqn:E.
  - assert (blank (c_path c) = false) as Hb.
    { apply not_true_iff_false. intros Hb%condition_payload_kept. congruence. }
    rewrite decide_True by done. destruct (condition_reopens c p n Hc E) as (_ & c' & Hn & He & _).
    destruct (IH (S n)) as (cs' & Hm & Hcs'). exists (c' :: cs'). cbn [mapM].
    unfold mbind, fresh_bind at 1. rewrite Hn. unfold mbind, fresh_bind. cbn in Hm |- *.
    unfold mbind, fresh_bind in Hm. rewrite Hm. split; [|by rewrite He, Hcs'].
    unfold mret, fresh_ret. f_equal. cbn. lia.
  - apply condition_payload_kept in E. rewrite decide_False by congruence. apply IH.
Qed.

Lemma nonempty_when (t : jsstring) : text_or_empty (if nonempty t then JStr t else JUndef) = t.
Proof. by destruct t. Qed.

Lemma aliased_text o v : (∃ t, v = JStr t) ∨ v = JUndef →
  text_or_empty (aliased_to o v) =
  if m_pathAlias (meta_of (mode o)) then or_text (text_or_empty v) (trim (path o)) else text_or_empty v.
Proof.
  intros Hv. unfold aliased_to. destruct (m_pathAlias _); [|done]. cbn [andb].
  destruct Hv as [[[|c t] ->]| ->]; cbn; by destruct (trim (path o)).
Qed.

Lemma kept_payloads o : payload_conditions o = [] ↔ kept_conditions o = [].
Proof.
  unfold payload_conditions, kept_conditions. induction (conditions o) as [|c cs IH]; [done|].
  cbn [omap list_omap]. rewrite filter_cons. destruct (buildConditionPayload c) as [p|] eqn:E.
  - rewrite decide_True; [done|]. apply not_true_iff_false. intros Hb%condition_payload_kept. congruence.
  - apply condition_payload_kept in E. rewrite decide_False by congruence. apply IH.
Qed.

Lemma logic_of_AND (b : bool) : logic_of (JStr (if b then js "AND" else js "OR")) = if b then js "AND" else js "OR".
Proof. by destruct b. Qed.

Lemma text_cases (b : bool) t : (∃ t', (if b then JStr t else JUndef) = JStr t') ∨ (if b then JStr t else JUndef) = JUndef.
Proof. destruct b; eauto. Qed.

(** The tables agree: an aliased path stands for a source and a target, and what a mode
    requires it also writes. *)
Lemma table_agrees m :
  (m_pathAlias (meta_of m) = true →
     m_from (meta_of m) = true ∧ m_to (meta_of m) = Some true ∧ m_path (meta_of m) = false ∧ m_pathOptional (meta_of m) = false) ∧
  (set_has m FROM_REQUIRED_MODES = true → m_from (meta_of m) = true) ∧
  (set_has m VALUE_REQUIRED_MODES = true → m_value (meta_of m) = true).
Proof.
  split_and!.
  - unfold meta_of. destruct (jget m MODE_META) as [meta|] eqn:E; [|done]. cbn. apply jget_elem_of in E.
    assert (Forall (λ p : jsstring * ModeMeta, implb (m_pathAlias p.2) (m_from p.2 && bool_decide (m_to p.2 = Some true) &&
      negb (m_path p.2) && negb (m_pathOptional p.2)) = true) MODE_META) as Hall by (apply forallb_Forall; vm_compute; done).
    rewrite Forall_forall in Hall. specialize (Hall _ E). cbn in Hall. intros Ha. rewrite Ha in Hall. cbn in Hall.
    boolify. done.
  - intros Hin%set_has_spec. assert (Forall (λ m, m_from (meta_of m) = true) FROM_REQUIRED_MODES) as Hall
      by (apply forallb_Forall; vm_compute; done). rewrite Forall_forall in Hall. by apply Hall.
  - intros Hin%set_has_spec. assert (Forall (λ m, m_value (meta_of m) = true) VALUE_REQUIRED_MODES) as Hall
      by (apply forallb_Forall; vm_compute; done). rewrite Forall_forall in Hall. by apply Hall.
Qed.

(** A payload reads as the rule shown for it. *)
Lemma operation_reopens o n : steady_operation o →
  ∃ o' n', normalizeOperation (operation_payload o) n = (Ok o', n') ∧ erase o' = reopened o.
Proof.
  intros Ho. pose proof Ho as [Hm _ _ Hc].
  destruct (payload_props o Hm) as (E1 & E2 & E3 & E4 & E5 & E6 & E7 & E8 & E9).
  assert (∃ ps, operation_payload o = JObj ps) as [ps Ep] by (unfold operation_payload; eauto).
  rewrite Ep in *.
  assert (∃ cs', (match match payload_conditions o with [] => JUndef | l => JArr l end with
                  | JArr l => mapM normalizeCondition l | _ => mret [] end) (S n) = (Ok cs', S n + length cs') ∧
    erase_condition <$> cs' = reopened_condition <$> kept_conditions o) as (cs' & Hcs & He).
  { destruct (conditions_reopen (conditions o) (S n) Hc) as (cs' & Hcs & He). fold (payload_conditions o) in Hcs.
    exists cs'. split; [|done]. destruct (payload_conditions o); [|done]. exact Hcs. }
  unfold normalizeOperation, or_empty_object.
  rewrite (fresh_bind_Ok _ _ n (local_id n) (S n)) by done.
  rewrite (fresh_bind_Ok _ _ (S n) (prop "description" (JObj ps)) (S n)) by done.
  rewrite E8. rewrite (fresh_bind_Ok _ _ _ _ _ Hcs). eexists _, _. split; [reflexivity|].
  rewrite E1, E2, E3, E4, E5, E6, E7, E9. unfold erase, reopened. cbn [description path mode from to value_text keep_origin logic conditions].
  rewrite nonempty_when, He, known_mode by done.
  rewrite !aliased_text by apply text_cases.
  f_equal.
  - destruct (m_path _), (m_pathOptional _); cbn; try done. apply nonempty_when.
  - unfold payload_from. destruct (m_pathAlias (meta_of (mode o))) eqn:Ea.
    + destruct (table_agrees (mode o)) as (Ht & _). by destruct (Ht Ea) as (-> & _).
    + by destruct (m_from (meta_of (mode o))).
  - unfold payload_to. by destruct (bool_decide (m_to (meta_of (mode o)) = Some true)), (trim (to o)).
  - by destruct (m_value (meta_of (mode o))).
  - by destruct (m_keepOrigin (meta_of (mode o)) && keep_origin o).
  - pose proof (kept_payloads o) as Hk. destruct (payload_conditions o), (kept_conditions o);
      [done|by destruct Hk as [Hk _]; specialize (Hk eq_refl)|by destruct Hk as [_ Hk]; specialize (Hk eq_refl)|apply logic_of_AND].
Qed.

Lemma blank_trim s : blank (trim s) = blank s.
Proof. unfold blank. by rewrite trim_idemp. Qed.

Lemma trim_nil : trim [] = [].
Proof. done. Qed.

(** The condition shown is saved as the condition was. *)
Lemma condition_payload_reopened c : steady_value (parseLooseValue (c_value_text c)) →
  buildConditionPayload (reopened_condition c) = buildConditionPayload c.
Proof.
  intros [_ Hv]. unfold buildConditionPayload, reopened_condition. cbn [c_path c_mode c_value_text c_invert c_pass_missing_key].
  by rewrite trim_idemp, Hv.
Qed.

Lemma conditions_payload_reopened o : Forall steady_condition (conditions o) →
  omap buildConditionPayload (conditions (reopened o)) = omap buildConditionPayload (conditions o).
Proof.
  intros Hc. cbn [reopened conditions]. unfold kept_conditions. induction Hc as [|c cs Hc _ IH]; [done|].
  rewrite filter_cons. cbn [omap list_omap]. destruct (buildConditionPayload c) as [p|] eqn:E.
  - rewrite decide_True.
    + cbn [fmap list_fmap omap list_omap]. rewrite condition_payload_reopened, E by apply Hc. by f_equal.
    + apply not_true_iff_false. intros Hb%condition_payload_kept. congruence.
  - apply condition_payload_kept in E. rewrite decide_False by congruence. apply IH.
Qed.

(** Only the properties of a payload are compared: they are written in one order. *)
Lemma assign_when_same b k v v' ps : (b = true → v = v') → assign_when b k v ps = assign_when b k v' ps.
Proof. intros Hv. unfold assign_when. destruct b; [by rewrite Hv|done]. Qed.

Lemma reopened_logic o : omap buildConditionPayload (conditions o) ≠ [] →
  bool_decide (logic (reopened o) = js "AND") = bool_decide (logic o = js "AND").
Proof.
  intros Hne. pose proof (kept_payloads o) as Hk. unfold payload_conditions in Hk. cbn [reopened logic].
  destruct (kept_conditions o) as [|c cs]; [by destruct Hk as [_ Hk]; specialize (Hk eq_refl)|].
  destruct (bool_decide (logic o = js "AND")); done.
Qed.

(** Where the path is an alias: it was written as source and target. *)
Definition alias_written (f t p : jsstring) (ps : list (jsstring * jsval)) : list (jsstring * jsval) :=
  let ps := assign_when true "from" (JStr f) ps in
  let ps := assign_when true "to" (JStr t) ps in
  let ps := assign_when (negb (truthy (prop "from" (JObj ps))) && nonempty p) "from" (JStr p) ps in
  assign_when (negb (truthy (prop "to" (JObj ps))) && nonempty p) "to" (JStr p) ps.

Lemma alias_written_eq f t p ps :
  alias_written f t p ps = jset (js "to") (JStr (or_text t p)) (jset (js "from") (JStr (or_text f p)) ps).
Proof.
  assert (js "to" ≠ js "from") as Hne by done.
  unfold alias_written. props. unfold assign_when at 3 4, assign. cbn [andb].
  destruct f as [|a f], t as [|b t], p as [|c p]; cbn [truthy negb andb nonempty or_text assign_when assign];
    unfold assign_when, assign; rewrite ?jset_twice; try done.
  - rewrite (jset_comm_in (js "from") (js "to")); [|done|rewrite jget_jset_eq; eauto].
    by rewrite !jset_twice.
  - rewrite (jset_comm_in (js "from") (js "to")); [|done|rewrite jget_jset_eq; eauto].
    by rewrite !jset_twice.
Qed.

(** The rule shown is saved as the rule was. *)
Lemma payload_reopened o : steady_operation o → operation_payload (reopened o) = operation_payload o.
Proof.
  intros [Hm _ Hv Hc]. destruct (mode_texts (mode o) (js "set") (or_intror Hm)) as [Em _].
  unfold operation_payload. rewrite conditions_payload_reopened by done.
  change (mode (reopened o)) with (mode o). rewrite Em. cbv zeta.
  set (cs := omap buildConditionPayload (conditions o)).
  assert (match cs with [] => false | _ => true end = true →
    JStr (if bool_decide (logic (reopened o) = js "AND") then js "AND" else js "OR") =
    JStr (if bool_decide (logic o = js "AND") then js "AND" else js "OR")) as Hl.
  { intros Hcs. rewrite reopened_logic; [done|]. fold cs. by destruct cs. }
  rewrite (assign_when_same _ "logic" _ _ _ Hl). clear Hl. f_equal. f_equal. f_equal.
  cbn [reopened description path from to value_text keep_origin]. set (meta := meta_of (mode o)) in *.
  rewrite trim_idemp.
  rewrite (assign_when_same (m_value meta) "value" _ (parseLooseValue (value_text o)))
    by (intros E; rewrite E in *; by apply Hv).
  rewrite andb_assoc, andb_diag.
  destruct (m_pathAlias meta) eqn:Ea.
  - destruct (table_agrees (mode o)) as (Ht & _). destruct (Ht Ea) as (Ef & Eto & Ep & Eo). fold meta in Ef, Eto, Ep, Eo.
    rewrite Ef, Eto, Ep, Eo, bool_decide_true by done. cbn [orb andb negb assign_when].
    match goal with |- ?l = ?r => change l with (alias_written (trim (or_text (trim (from o)) (trim (path o))))
      (trim (or_text (trim (to o)) (trim (path o)))) (trim []) (assign_when (m_keepOrigin meta && keep_origin o) "keep_origin" (JBool true)
        (assign_when (m_value meta) "value" (parseLooseValue (value_text o))
          (assign_when (nonempty (trim (description o))) "description" (JStr (trim (description o))) [(js "mode", JStr (mode o))]))));
      change r with (alias_written (trim (from o)) (trim (to o)) (trim (path o)) (assign_when (m_keepOrigin meta && keep_origin o) "keep_origin" (JBool true)
        (assign_when (m_value meta) "value" (parseLooseValue (value_text o))
          (assign_when (nonempty (trim (description o))) "description" (JStr (trim (description o))) [(js "mode", JStr (mode o))])))) end.
    rewrite !alias_written_eq. f_equal; [|f_equal]; f_equal.
    + destruct (trim (to o)) eqn:E; cbn [or_text]; [|by rewrite <- E, trim_idemp; cbn; rewrite E].
      rewrite trim_idemp. by destruct (trim (path o)).
    + destruct (trim (from o)) eqn:E; cbn [or_text]; [|by rewrite <- E, trim_idemp; cbn; rewrite E].
      rewrite trim_idemp. by destruct (trim (path o)).
  - cbn [andb assign_when]. rewrite trim_idemp.
    rewrite (assign_when_same (m_from meta) "from" _ (JStr (trim (from o))))
      by (intros ->; by rewrite trim_idemp).
    destruct (m_path meta), (m_pathOptional meta); cbn [orb andb assign_when]; rewrite ?trim_idemp; done.
Qed.

Lemma blank_or_text f p : blank (or_text (trim f) (trim p)) = blank f && blank p.
Proof.
  unfold or_text. destruct (trim f) as [|c t] eqn:E.
  - rewrite blank_trim. assert (blank f = true) as -> by (unfold blank; by rewrite bool_decide_true). done.
  - assert (blank f = false) as Ef by (apply blank_spec; eauto). rewrite <- E, blank_trim, Ef. done.
Qed.

(** The checks see only whether texts are blank, and the values. *)
Lemma value_blank t : steady_text t → blank (toValueText (parseLooseValue t)) = blank t.
Proof.
  intros [[_ Hv] Hb]. destruct (blank t) eqn:E.
  - unfold blank in E. apply bool_decide_eq_true in E. unfold parseLooseValue. by rewrite E.
  - apply not_true_iff_false. intros Hbl. unfold blank in Hbl. apply bool_decide_eq_true in Hbl.
    assert (parseLooseValue t = JStr []) as Ht.
    { rewrite <- Hv. unfold parseLooseValue at 1. by rewrite Hbl. }
    by specialize (Hb Ht).
Qed.

Lemma nonempty_blank s : nonempty (trim s) = negb (blank s).
Proof. unfold blank. by destruct (trim s). Qed.

(** The message check of a custom error. *)
Definition unnamed_error (raw : jsstring) : bool :=
  match JSON_parse raw with Some (JObj ps) => negb (nonempty (text_of (prop "message" (JObj ps)))) | _ => false end.

Lemma unnamed_error_loose t : unnamed_error (trim t) =
  match parseLooseValue t with JObj ps => negb (nonempty (text_of (prop "message" (JObj ps)))) | _ => false end.
Proof.
  unfold unnamed_error. destruct (parseLooseValue t) as [| | | | | |ps] eqn:E.
  7: by apply loose_object in E as ->.
  all: destruct (JSON_parse (trim t)) as [[| | | | | |ps]|] eqn:Ep; try done;
    apply loose_object in Ep; congruence.
Qed.

Lemma check_reopened line o : steady_operation o → check_operation line (reopened o) = check_operation line o.
Proof.
  intros [Hm _ Hv _]. destruct (mode_texts (mode o) (js "set") (or_intror Hm)) as [Em _].
  destruct (table_agrees (mode o)) as (Halias & Hfrom & Hval).
  assert (set_has (mode o) VALUE_REQUIRED_MODES = true ∨ mode o = js "return_error" ∨ mode o = js "prune_objects" ∨
          mode o = js "pass_headers" → steady_text (value_text o) ∧
          value_text (reopened o) = toValueText (parseLooseValue (value_text o))) as Hsteady.
  { intros Hor. assert (m_value (meta_of (mode o)) = true) as Hmv.
    { destruct Hor as [Hs|[-> |[-> | ->]]]; [by apply Hval|done..]. }
    split; [by apply Hv|]. cbn [reopened value_text]. by rewrite Hmv. }
  unfold check_operation. change (mode (reopened o)) with (mode o). rewrite Em. cbv zeta.
  fold (unnamed_error (trim (value_text (reopened o)))) (unnamed_error (trim (value_text o))).
  rewrite !nonempty_blank, !unnamed_error_loose, !parseLooseValue_trim.
  assert (m_path (meta_of (mode o)) && blank (path (reopened o)) = m_path (meta_of (mode o)) && blank (path o)) as ->.
  { cbn [reopened path]. destruct (m_path _); [|done]. cbn. by rewrite blank_trim. }
  assert (set_has (mode o) FROM_REQUIRED_MODES && blank (from (reopened o)) &&
            negb (m_pathAlias (meta_of (mode o)) && negb (blank (path (reopened o)))) =
          set_has (mode o) FROM_REQUIRED_MODES && blank (from o) && negb (m_pathAlias (meta_of (mode o)) && negb (blank (path o)))) as ->.
  { destruct (set_has (mode o) FROM_REQUIRED_MODES) eqn:Es; [|done]. cbn [reopened from path andb].
    rewrite (Hfrom eq_refl). destruct (m_pathAlias _) eqn:Ea; [|by rewrite blank_trim].
    destruct (Halias eq_refl) as (_ & _ & -> & ->). cbn. rewrite blank_or_text, andb_true_r, negb_involutive. done. }
  assert (set_has (mode o) TO_REQUIRED_MODES && blank (to (reopened o)) &&
            negb (m_pathAlias (meta_of (mode o)) && negb (blank (path (reopened o)))) =
          set_has (mode o) TO_REQUIRED_MODES && blank (to o) && negb (m_pathAlias (meta_of (mode o)) && negb (blank (path o)))) as ->.
  { cbn [reopened to path]. destruct (m_pathAlias _) eqn:Ea; [|by rewrite blank_trim].
    destruct (Halias eq_refl) as (_ & _ & -> & ->). cbn. rewrite blank_or_text, andb_true_r, negb_involutive.
    by rewrite andb_assoc. }
  assert (∀ b, (b = true → set_has (mode o) VALUE_REQUIRED_MODES = true ∨ mode o = js "return_error" ∨
      mode o = js "prune_objects" ∨ mode o = js "pass_headers") →
    b && blank (value_text (reopened o)) = b && blank (value_text o)) as Hbl.
  { intros [] Hb; [|done]. destruct (Hsteady (Hb eq_refl)) as [Hst ->]. cbn. by apply value_blank. }
  rewrite !negb_involutive. rewrite !Hbl by (intros Hb; boolify; auto).
  assert (∀ b (f : jsval → bool), (b = true → mode o = js "return_error" ∨ mode o = js "pass_headers") →
    b && f (parseLooseValue (value_text (reopened o))) = b && f (parseLooseValue (value_text o))) as Hf.
  { intros [] f Hb; [|done]. destruct (Hsteady ltac:(destruct (Hb eq_refl); auto)) as [[[_ Hst] _] ->]. by rewrite Hst. }
  rewrite (Hf (bool_decide (mode o = js "return_error")) (λ v, match v with JObj ps => negb (nonempty (text_of (prop "message" (JObj ps)))) | _ => false end)) by (intros Hb; boolify; auto).
  rewrite (Hf (bool_decide (mode o = js "pass_headers")) (λ v, match parsePassHeaderNames v with [] => true | _ => false end)) by (intros Hb; boolify; auto).
  done.
Qed.

(** Identifiers do not matter to what is saved. *)
Lemma payload_erase o : operation_payload (erase o) = operation_payload o.
Proof.
  unfold operation_payload. cbn [erase mode description path from to value_text keep_origin logic conditions].
  assert (omap buildConditionPayload (erase_condition <$> conditions o) = omap buildConditionPayload (conditions o)) as ->; [|done].
  induction (conditions o) as [|c cs IH]; [done|]. cbn [fmap list_fmap omap list_omap].
  change (buildConditionPayload (erase_condition c)) with (buildConditionPayload c).
  destruct (buildConditionPayload c); [f_equal|]; apply IH.
Qed.

Lemma blank_erase o : isOperationBlank (erase o) = isOperationBlank o.
Proof.
  unfold isOperationBlank. cbn [erase mode path from to value_text keep_origin conditions]. f_equal. f_equal.
  induction (conditions o) as [|c cs IH]; [done|]. cbn [fmap list_fmap existsb]. by f_equal.
Qed.

Definition nonblank (ops : list ParamOverrideOperation) : list ParamOverrideOperation :=
  filter (λ o, isOperationBlank o = false) ops.

(** A rule that passes the checks is shown as a rule that is not blank. *)
Lemma reopened_nonblank line o : mode o ∈ OPERATION_MODE_VALUES → check_operation line o = None →
  isOperationBlank (reopened o) = false.
Proof.
  intros Hm Hc. destruct (mode_texts (mode o) (js "set") (or_intror Hm)) as [Em _].
  unfold isOperationBlank. change (mode (reopened o)) with (mode o).
  destruct (decide (mode o = js "set")) as [Es|Es]; [|by rewrite bool_decide_false].
  rewrite bool_decide_true by done. cbn [andb].
  assert (blank (path (reopened o)) = false) as ->; [|done]. cbn [reopened path]. rewrite Es.
  change (m_path (meta_of (js "set"))) with true. cbn [orb].
  unfold check_operation in Hc. rewrite Em, Es in Hc. cbn in Hc. destruct (blank (path o)) eqn:Eb; [done|].
  by rewrite blank_trim.
Qed.

Lemma validate_from_None line ops : validate_from line ops = None ↔
  ∀ i o, ops !! i = Some o → check_operation (line + i) o = None.
Proof.
  revert line. induction ops as [|o ops IH]; intros line; cbn; [done|]. split.
  - destruct (check_operation line o) eqn:E; [done|]. intros Hv [|i] x Hx; simplify_eq/=; [by rewrite Nat.add_0_r|].
    replace (line + S i) with (S line + i) by lia. by apply IH.
  - intros Hall. pose proof (Hall 0 o eq_refl) as H0. rewrite Nat.add_0_r in H0. rewrite H0. apply IH. intros i x Hx.
    replace (S line + i) with (line + S i) by lia. by apply Hall.
Qed.

Lemma operations_reopened ops n : Forall steady_operation ops →
  ∃ ops' n', mapM normalizeOperation (operation_payload <$> ops) n = (Ok ops', n') ∧ erase <$> ops' = reopened <$> ops.
Proof.
  intros Hops. revert n. induction Hops as [|o ops Ho _ IH]; intros n; [by exists [], n|].
  destruct (operation_reopens o n Ho) as (o' & n1 & H1 & He). destruct (IH n1) as (ops' & n2 & H2 & Hes).
  exists (o' :: ops'), n2. split; [|by cbn; rewrite He, Hes]. rewrite fmap_cons. cbn [mapM].
  by rewrite (fresh_bind_Ok _ _ _ _ _ H1), (fresh_bind_Ok _ _ _ _ _ H2).
Qed.

Lemma nonblank_all ops : Forall (λ o, isOperationBlank o = false) ops → nonblank ops = ops.
Proof. apply filter_all. Qed.

(** A rule shown for [y], which passed the checks, is saved and checked as [y] was. *)
Lemma shown_same line x y : steady_operation y → check_operation line y = None → erase x = reopened y →
  operation_payload x = operation_payload y ∧ check_operation line x = None ∧ isOperationBlank x = false.
Proof.
  intros Hy Hc Hxy. rewrite <- payload_erase, Hxy, payload_reopened by done. split; [done|].
  change (check_operation line x) with (check_operation line (erase x)). rewrite Hxy, check_reopened by done.
  split; [done|]. rewrite <- blank_erase, Hxy. by eapply reopened_nonblank, Hc; apply Hy.
Qed.

(** C4: an override that the editor saved opens again as rules, in the visual editor: the
    rules that are not blank, in order, each with its texts trimmed, with the fields its
    mode uses and with an aliased path written out; and saving them again writes the same
    text.  This is for rules of known modes whose values are read from their own text as they
    were written ([steady_operation]); a string that looks like a number is not such a value. *)
Theorem operations_reopen ops text n :
  Forall steady_operation (nonblank ops) → buildOperationsJson ops true = Ok text → text ≠ [] →
  ∃ st n', parseInitialState text n = (Ok st, n') ∧
    s_editMode st = visual_mode ∧ s_visualMode st = operations_mode ∧ s_jsonError st = None ∧
    erase <$> s_operations st = reopened <$> nonblank ops ∧
    buildOperationsJson (s_operations st) true = Ok text.
Proof.
  intros Hs Hb Ht. unfold buildOperationsJson in Hb. fold (nonblank ops) in Hb.
  destruct (nonblank ops) as [|o os]; [by injection Hb as <-|]. remember (o :: os) as kept eqn:Ek.
  destruct (validateOperations kept) as [m|] eqn:Ev; [done|]. injection Hb as Hb.
  set (root := obj [("operations", JArr (operation_payload <$> kept))]%string) in Hb.
  assert (json_ok root = true) as Hok.
  { assert (forallb json_ok (operation_payload <$> kept) = true) as Hall.
    { apply forallb_Forall, Forall_fmap. eapply Forall_impl; [exact Hs|]. intros x Hx. by apply payload_ok. }
    subst root. unfold obj. cbn [fmap list_fmap json_ok forallb fst snd]. by rewrite Hall. }
  destruct (operations_reopened kept n Hs) as (ops' & n' & Hn & He).
  unfold validateOperations in Ev. rewrite validate_from_None in Ev.
  assert (∀ i x, ops' !! i = Some x → ∃ y, kept !! i = Some y ∧ erase x = reopened y) as Hpair.
  { intros i x Hx. pose proof (f_equal (.!! i) He) as Hi. rewrite !list_lookup_fmap, Hx in Hi.
    destruct (kept !! i) as [y|]; [|done]. exists y. cbn in Hi. split; [done|]. congruence. }
  assert (∀ i x y, kept !! i = Some y → erase x = reopened y →
    operation_payload x = operation_payload y ∧ check_operation (1 + i) x = None ∧ isOperationBlank x = false) as Hsame.
  { intros i x y Hy Hxy. rewrite Forall_lookup in Hs. by apply shown_same; [apply (Hs i)|apply Ev|]. }
  exists (mkEditorState visual_mode operations_mode [] ops' text None), n'.
  assert (JSON_parse text = Some root) as Hp by (rewrite <- Hb; by apply JSON_parse_stringify).
  assert (trim text = text) as Htr by (rewrite <- Hb; apply stringify_obj_trimmed).
  split_and!; try done.
  - unfold parseInitialState. rewrite Htr. destruct text as [|c t]; [done|]. rewrite Hp.
    assert (prop "operations" root = JArr (operation_payload <$> kept)) as Hprop by done.
    assert (∃ ps, root = JObj ps) as [ps Hroot] by (subst root; unfold obj; eauto). rewrite Hroot in *. rewrite Hprop.
    assert (operations_of (operation_payload <$> kept) n = (Ok ops', n')) as Ho by by rewrite Ek in Hn |- *.
    rewrite (fresh_bind_Ok _ _ _ _ _ Ho). by rewrite <- Hb.
  - cbn [s_operations]. unfold buildOperationsJson. fold (nonblank ops').
    rewrite nonblank_all; [|apply Forall_lookup; intros i x Hx; destruct (Hpair i x Hx) as (y & Hy & Hxy); by eapply Hsame].
    assert (operation_payload <$> ops' = operation_payload <$> kept) as ->.
    { apply list_eq. intros i. rewrite !list_lookup_fmap. destruct (ops' !! i) as [x|] eqn:Ex.
      - destruct (Hpair i x Ex) as (y & Hy & Hxy). rewrite Hy. cbn. f_equal. by eapply Hsame.
      - pose proof (f_equal (.!! i) He) as Hi. rewrite !list_lookup_fmap, Ex in Hi. by destruct (kept !! i). }
    assert (validateOperations ops' = None) as ->.
    { apply validate_from_None. intros i x Hx. destruct (Hpair i x Hx) as (y & Hy & Hxy). by eapply Hsame. }
    destruct ops' as [|x ops']; [by rewrite Ek in He|]. f_equal. exact Hb.
Qed.

(** ** Values that change *)
Lemma quote_trimmed s : trim (JSON_quote s) = JSON_quote s.
Proof.
  apply trim_trimmed. unfold JSON_quote. split; intros c Hc.
  - by injection Hc as <-.
  - assert (∃ u, last (u ++ [34%N]) = Some c) as [u Hu] by (eexists; rewrite app_comm_cons in Hc; exact Hc).
    rewrite last_snoc in Hu. by injection Hu as <-.
Qed.

Lemma loose_quote s : units_ok s = true → parseLooseValue (JSON_quote s) = JStr s.
Proof.
  intros Hs. unfold parseLooseValue. rewrite quote_trimmed.
  assert (JSON_parse (JSON_quote s) = Some (JStr s)) as E by by apply (JSON_parse_stringify 0 (JStr s)).
  rewrite E. unfold JSON_quote. done.
Qed.

(** A rule whose value is a quoted text that looks like JSON (a number, true, null, an
    object in quotes) is saved with that text as its value; opened and saved again, without
    any edit, its value is what the text means: the number, true, null, the object. *)
Theorem value_retyped o s v :
  m_value (meta_of (mode o)) = true → mode o ∈ OPERATION_MODE_VALUES → value_text o = JSON_quote s →
  units_ok s = true → trim s = s → JSON_parse s = Some v →
  prop "value" (operation_payload o) = JStr s ∧ value_text (reopened o) = s ∧
  prop "value" (operation_payload (reopened o)) = v.
Proof.
  intros Hval Hm Ht Hs Htr Hp.
  destruct (payload_props o Hm) as (_ & _ & _ & E & _). rewrite Hval, Ht, loose_quote in E by done.
  assert (value_text (reopened o) = s) as Hr by (cbn [reopened value_text]; by rewrite Hval, Ht, loose_quote by done).
  destruct (payload_props (reopened o) Hm) as (_ & _ & _ & E' & _). change (mode (reopened o)) with (mode o) in E'.
  rewrite Hval, Hr in E'. split_and!; [done|done|]. rewrite E'. unfold parseLooseValue. rewrite Htr.
  destruct s; [done|]. by rewrite Hp.
Qed.

(** ** The order of rules *)
Lemma index_by_id_Some id ops i : index_by_id id ops = Some i →
  ∃ l1 o l2, ops = l1 ++ o :: l2 ∧ i = length l1 ∧ o_id o = id ∧ id ∉ (o_id <$> l1).
Proof.
  unfold index_by_id. destruct (list_find _ ops) as [[j o]|] eqn:E; [|done]. intros [= <-].
  apply list_find_Some in E as (Ho & Hid & Hpre). exists (take j ops), o, (drop (S j) ops).
  assert (j < length ops) by by eapply lookup_lt_Some. rewrite length_take. split_and!; [by symmetry; apply take_drop_middle|lia|done|].
  intros (x & -> & Hx)%list_elem_of_fmap. apply list_elem_of_lookup in Hx as [k Hk].
  assert (k < j) by (apply lookup_lt_Some in Hk; rewrite length_take in Hk; lia).
  rewrite lookup_take_lt in Hk by done. by eapply Hpre.
Qed.

Lemma index_by_id_mid l1 o l2 : o_id o ∉ (o_id <$> l1) → index_by_id (o_id o) (l1 ++ o :: l2) = Some (length l1).
Proof.
  intros Hnot. unfold index_by_id. erewrite (proj2 (list_find_Some _ _ (length l1) o)); [done|]. split_and!.
  - by rewrite list_lookup_middle.
  - done.
  - intros j x Hx Hj Hxo. rewrite lookup_app_l in Hx by done. apply Hnot, list_elem_of_fmap. exists x. split; [done|].
    by eapply list_elem_of_lookup_2.
Qed.

(** Dropping a rule on another moves it, and nothing else, to the place before or after
    that rule: the rules without it are as they were. *)
Theorem reorder_exact ops source target position src tgt :
  NoDup (o_id <$> ops) → src ∈ ops → tgt ∈ ops → o_id src = source → o_id tgt = target →
  source ≠ [] → target ≠ [] → source ≠ target →
  ∃ l1 l2, filter (λ o, o_id o ≠ source) ops = l1 ++ tgt :: l2 ∧
    reorderOperations ops source target position =
      l1 ++ match position with before => [src; tgt] | after => [tgt; src] end ++ l2.
Proof.
  intros HN Hs Ht <- <- Hs0 Ht0 Hne.
  apply list_elem_of_split in Hs as (a & b & ->). rewrite fmap_app, fmap_cons in HN.
  apply NoDup_app in HN as (Ha & Hab & Hb). apply NoDup_cons in Hb as [Hb0 Hb].
  assert (filter (λ o, o_id o ≠ o_id src) (a ++ src :: b) = a ++ b) as Hf.
  { rewrite filter_app, filter_cons_False by naive_solver.
    rewrite !filter_all; [done|..]; apply Forall_forall; intros x Hx E.
    - apply Hb0. rewrite <- E. by apply list_elem_of_fmap_2.
    - apply (Hab (o_id x)); [by apply list_elem_of_fmap_2|]. rewrite E. left. }
  assert (tgt ∈ a ++ b) as Ht'.
  { rewrite <- Hf. apply list_elem_of_filter. split; [congruence|done]. }
  apply list_elem_of_split in Ht' as (l1 & l2 & E). exists l1, l2. rewrite Hf. split; [done|].
  assert (o_id tgt ∉ (o_id <$> l1)) as Hl1.
  { assert (NoDup (o_id <$> (a ++ b))) as Hn.
    { rewrite fmap_app. apply NoDup_app. split_and!; [done|intros x Hx Hx'; apply (Hab x Hx); by right|done]. }
    rewrite E, fmap_app, fmap_cons in Hn. apply NoDup_app in Hn as (_ & Hd & _). intros Hin. apply (Hd _ Hin). left. }
  unfold reorderOperations. rewrite !bool_decide_false by done. cbn [orb].
  rewrite index_by_id_mid by (intros Hin; apply (Hab _ Hin); left).
  rewrite list_lookup_middle by done. rewrite take_app_length, drop_app_ge by lia.
  replace (S (length a) - length a) with 1 by lia.
  change (drop 1 (src :: b)) with b. rewrite E, index_by_id_mid by done.
  destruct position; [by rewrite take_app_length, drop_app_length|].
  rewrite take_app_ge, drop_app_ge by lia. replace (S (length l1) - length l1) with 1 by lia. cbn.
  by rewrite <- app_assoc.
Qed.

(** ** Custom errors *)
Lemma status_idemp x : status_or_400 (status_or_400 x) = status_or_400 x.
Proof.
  unfold status_or_400 at 2 3. destruct (is_integer x && _ && _) eqn:E; [|done]. unfold status_or_400. by rewrite E.
Qed.

Lemma text_of_str s : trim s = s → text_of (JStr s) = s.
Proof. intros Hs. unfold text_of, or_else. destruct s; [done|]. done. Qed.

(** A custom error that the form writes reads back as the form: trimmed texts, a valid
    status or 400, and whether to retry. *)
Theorem return_error_roundtrip d :
  e_simpleMode d = false → units_ok (e_message d) && units_ok (e_code d) && units_ok (e_type d) = true →
  num_ok (e_statusCode d) = true →
  parseReturnErrorDraft (buildReturnErrorValueText d) =
  mkErrorDraft (trim (e_message d)) (status_or_400 (e_statusCode d)) (trim (e_code d)) (trim (e_type d))
    (e_skipRetry d) false.
Proof.
  intros Hsimple Hu Hnum. unfold buildReturnErrorValueText. rewrite Hsimple. boolify.
  set (base := [(js "message", JStr (trim (e_message d))); (js "status_code", JNum (status_or_400 (e_statusCode d)))]).
  match goal with |- parseReturnErrorDraft (JSON_stringify 0 ?o) = _ => set (root := o) end.
  assert (json_ok root = true) as Hok.
  { subst root. repeat (apply json_ok_assign_when; [|done|done|]); [|intros _; by apply units_ok_trim..|done].
    subst base. cbn [json_ok forallb]. rewrite units_ok_trim by done.
    assert (num_ok (status_or_400 (e_statusCode d)) = true) as ->; [|done].
    unfold status_or_400. by case_match. }
  assert (trim (JSON_stringify 0 root) = JSON_stringify 0 root) as Htr by apply stringify_obj_trimmed.
  unfold parseReturnErrorDraft. rewrite Htr. rewrite (JSON_parse_stringify 0 root Hok).
  destruct (stringify_obj_cons 0 (assign_when (negb (e_skipRetry d)) "skip_retry" (JBool false)
    (assign_when (nonempty (trim (e_type d))) "type" (JStr (trim (e_type d)))
       (assign_when (nonempty (trim (e_code d))) "code" (JStr (trim (e_code d))) base)))) as [u Eu].
  change (JSON_stringify 0 root = 123%N :: u) in Eu. rewrite Eu. subst root. cbv iota beta. props.
  change (prop "status_code" (JObj base)) with (JNum (status_or_400 (e_statusCode d))).
  change (prop "message" (JObj base)) with (JStr (trim (e_message d))).
  change (prop "msg" (JObj base)) with JUndef. change (prop "code" (JObj base)) with JUndef.
  change (prop "type" (JObj base)) with JUndef. change (prop "skip_retry" (JObj base)) with JUndef.
  cbn [to_number]. rewrite status_idemp. f_equal.
  - unfold or_else. destruct (truthy _) eqn:E; [by apply text_of_str, trim_idemp|].
    destruct (trim (e_message d)); [done|by cbn in E].
  - destruct (trim (e_code d)) eqn:E; [done|]. cbn [nonempty]. rewrite <- E. apply text_of_str, trim_idemp.
  - destruct (trim (e_type d)) eqn:E; [done|]. cbn [nonempty]. rewrite <- E. apply text_of_str, trim_idemp.
  - by destruct (e_skipRetry d).
Qed.
End facts.

(** ** Concrete overrides *)
Definition clock_zero : Clock := λ _, 0%Z.

Definition sample_condition : ParamOverrideCondition :=
  mkCondition (js "c") (js "model ") (js "prefix") (js "gpt") true false.
Definition sample_operation : ParamOverrideOperation :=
  mkOperation (js "a") (js " cool down") (js "temperature ") (js "set") [] [] (js "0.5") true (js "AND") [sample_condition].
Definition blank_operation : ParamOverrideOperation :=
  mkOperation (js "b") [] [] (js "set") [] [] [] false (js "OR") [].
Definition moved_operation : ParamOverrideOperation :=
  mkOperation (js "d") [] (js "x") (js "delete") [] [] [] false (js "OR") [].

Lemma sample_steady : Forall steady_operation (nonblank [blank_operation; sample_operation]).
Proof.
  assert (nonblank [blank_operation; sample_operation] = [sample_operation]) as -> by by vm_compute.
  constructor; [|constructor]. split; [by apply (bool_decide_unpack _); vm_compute|by vm_compute| |].
  - intros _. split; [|by vm_compute]. by split; vm_compute.
  - constructor; [|constructor]. split; [by apply (bool_decide_unpack _); vm_compute|by vm_compute|]. by split; vm_compute.
Qed.

Lemma operations_reopen_witness : ∃ text st n',
  buildOperationsJson [blank_operation; sample_operation] true = Ok text ∧
  parseInitialState (H := clock_zero) text 7 = (Ok st, n') ∧
  erase <$> s_operations st = reopened <$> [sample_operation] ∧ buildOperationsJson (s_operations st) true = Ok text.
Proof.
  destruct (buildOperationsJson [blank_operation; sample_operation] true) as [text|] eqn:E; [|by vm_compute in E].
  destruct (operations_reopen (H := clock_zero) [blank_operation; sample_operation] text 7 sample_steady E)
    as (st & n' & H1 & _ & _ & _ & H2 & H3).
  - intros ->. by vm_compute in E.
  - exists text, st, n'. by split_and!.
Defined.

Definition quoted_operation : ParamOverrideOperation :=
  mkOperation (js "q") [] (js "seed") (js "set") [] [] (JSON_quote (js "42")) false (js "OR") [].

Lemma value_retyped_witness :
  prop "value" (operation_payload quoted_operation) = JStr (js "42") ∧ value_text (reopened quoted_operation) = js "42" ∧
  prop "value" (operation_payload (reopened quoted_operation)) = JNum (num_of_Z 42).
Proof.
  apply (value_retyped quoted_operation (js "42")); try by vm_compute. by apply (bool_decide_unpack _); vm_compute.
Defined.

Lemma reorder_exact_witness : ∃ l1 l2,
  filter (λ o, o_id o ≠ js "a") [sample_operation; blank_operation; moved_operation] = l1 ++ moved_operation :: l2 ∧
  reorderOperations [sample_operation; blank_operation; moved_operation] (js "a") (js "d") after =
    l1 ++ [moved_operation; sample_operation] ++ l2.
Proof.
  apply (reorder_exact [sample_operation; blank_operation; moved_operation] (js "a") (js "d") after sample_operation moved_operation);
    try done; [|left|right; right; left]. by apply (bool_decide_unpack _); vm_compute.
Defined.

Definition sample_error : ReturnErrorDraft :=
  mkErrorDraft (js " no quota ") (num_of_Z 99) (js "quota") [] false false.

Lemma return_error_roundtrip_witness :
  parseReturnErrorDraft (buildReturnErrorValueText sample_error) =
  mkErrorDraft (js "no quota") (num_of_Z 400) (js "quota") [] false false.
Proof. by apply (return_error_roundtrip sample_error). Defined.
