(* ===== verification/ParamEditorFacts.v ===== *)
(** Facts of the editor of parameter overrides: its invariant, and the edits of pruning
    rules that have no effect. *)
From S2P Require Import Prelude JsString JsValue Json JsPrint JsNumber JsonQuote JsonPrint JsDynamic Actions.
From S2P Require Import ParamOverride ParamOverrideEditor ParamOverrideFacts.
Local Open Scope nat_scope.

(** That the handlers keep the invariant. *)
Create HintDb keeps.

Section editor_facts.
Context `{Clock}.

(** ** Pruning rules *)

(** A rule read from an object. *)
Definition rule_of (id : jsstring) (v : jsval) : PruneRule :=
  mkCondition id (text_or_empty (prop "path" v)) (known_or CONDITION_MODE_VALUES (js "full") (prop "mode" v))
    (toValueText (prop "value" v)) (true_flag (prop "invert" v)) (true_flag (prop "pass_missing_key" v)).

Lemma prune_rule_eq v n : is_object v = true → normalizePruneRule v n = (Ok (rule_of (local_id n) v), S n).
Proof. by destruct v. Qed.

Lemma prune_rules_eq {B} (f : B → jsval) l n : Forall (λ x, is_object (f x) = true) l →
  mapM (λ x, normalizePruneRule (f x)) l n = (Ok (imap (λ i x, rule_of (local_id (n + i)) (f x)) l), n + length l).
Proof.
  intros Hl. revert n. induction Hl as [|x l Hx _ IH]; intros n; [by rewrite Nat.add_0_r|].
  cbn [mapM]. rewrite (fresh_bind_Ok _ _ _ _ _ (prune_rule_eq (f x) n Hx)), (fresh_bind_Ok _ _ _ _ _ (IH (S n))).
  cbn [imap length]. unfold mret, fresh_ret. f_equal; [|lia]. f_equal. f_equal; [by rewrite Nat.add_0_r|].
  apply imap_ext. intros i y _. cbn. by rewrite Nat.add_succ_r.
Qed.

(** The draft of a text: the same rules whatever the counter, with identifiers from it on. *)
Definition erase_draft (d : PruneObjectsDraft) : PruneObjectsDraft :=
  mkPruneDraft (p_simpleMode d) (p_typeText d) (p_logic d) (p_recursive d) (erase_condition <$> p_rules d).

Definition drawn_from (n : nat) (r : PruneRule) : Prop := ∃ k, n <= k ∧ c_id r = local_id k.

Lemma imap_erase {B} (f : B → jsval) l n m :
  erase_condition <$> imap (λ i x, rule_of (local_id (n + i)) (f x)) l =
  erase_condition <$> imap (λ i x, rule_of (local_id (m + i)) (f x)) l.
Proof. apply list_eq. intros i. rewrite !list_lookup_fmap, !list_lookup_imap. by destruct (l !! i). Qed.

Lemma imap_drawn {B} (f : B → jsval) l n m : n <= m →
  Forall (drawn_from n) (imap (λ i x, rule_of (local_id (m + i)) (f x)) l).
Proof.
  intros Hnm. apply Forall_lookup. intros i r. rewrite list_lookup_imap. destruct (l !! i) as [x|]; [|done].
  intros [= <-]. exists (m + i). split; [lia|done].
Qed.

(** Rules are read: how many identifiers they draw, and what they are but for their
    identifiers, does not depend on the counter. *)
Definition reads (m : fresh (list PruneRule)) : Prop := ∃ k, ∀ n, ∃ rs, m n = (Ok rs, n + k) ∧
  (∀ n0, n0 <= n → Forall (drawn_from n0) rs) ∧
  ∀ n', ∃ rs', m n' = (Ok rs', n' + k) ∧ erase_condition <$> rs' = erase_condition <$> rs.

Lemma rules_read {B} (f : B → jsval) l : Forall (λ x, is_object (f x) = true) l →
  reads (mapM (λ x, normalizePruneRule (f x)) l).
Proof.
  intros Hl. exists (length l). intros n. eexists. rewrite prune_rules_eq by done. split; [done|].
  split; [intros n0 Hn; by apply imap_drawn|]. intros n'. eexists. rewrite prune_rules_eq by done.
  split; [done|]. apply imap_erase.
Qed.

Lemma no_rules : reads (mret []).
Proof.
  exists 0. intros n. exists []. rewrite Nat.add_0_r. split; [done|]. split; [by constructor|].
  intros n'. exists []. by rewrite Nat.add_0_r.
Qed.

Lemma entries_read ps : reads (rules_of_entries ps).
Proof. apply rules_read. by apply Forall_forall. Qed.

Lemma draft_read t n : ∃ d n', parsePruneObjectsDraft t n = (Ok d, n') ∧ n <= n' ∧ Forall (drawn_from n) (p_rules d) ∧
  ∀ m, ∃ d' m', parsePruneObjectsDraft t m = (Ok d', m') ∧ m <= m' ∧ erase_draft d' = erase_draft d.
Proof.
  unfold parsePruneObjectsDraft. destruct (trim t) as [|c s] eqn:Et.
  { exists prune_defaults, n. split_and!; [done|done|constructor|]. intros m. by exists prune_defaults, m. }
  rewrite <- Et. clear Et c s.
  destruct (JSON_parse (trim t)) as [[| |b|x|s|l|ps]|];
    try (eexists _, n; split_and!; [reflexivity|done|constructor|]; intros m; by eexists _, m).
  set (parsed := JObj ps).
  assert (reads (match prop "where" parsed with JObj qs => rules_of_entries qs | _ => mret [] end)) as [k1 Hw].
  { destruct (prop "where" parsed); try apply no_rules. apply entries_read. }
  assert (reads (match prop "conditions" parsed with
      | JArr l => mapM normalizePruneRule (filter (λ v, is_object v = true) l)
      | JObj qs => rules_of_entries qs | _ => mret [] end)) as [k2 Hc].
  { destruct (prop "conditions" parsed) as [| | | | |l|qs]; try apply no_rules; [|apply entries_read].
    apply (rules_read id). apply Forall_forall. by intros x [Hx _]%list_elem_of_filter. }
  destruct (Hw n) as (ws & E1 & Hd1 & Hall1). destruct (Hc (n + k1)) as (cs & E2 & Hd2 & Hall2).
  rewrite (fresh_bind_Ok _ _ _ _ _ E1), (fresh_bind_Ok _ _ _ _ _ E2). eexists _, _. split; [reflexivity|].
  split; [lia|]. cbn [p_rules]. split.
  { apply Forall_app. split; [by apply Hd1|apply Hd2; lia]. }
  intros m. destruct (Hall1 m) as (ws' & E1' & He1). destruct (Hall2 (m + k1)) as (cs' & E2' & He2).
  rewrite (fresh_bind_Ok _ _ _ _ _ E1'), (fresh_bind_Ok _ _ _ _ _ E2'). eexists _, _. split; [reflexivity|].
  split; [lia|]. unfold erase_draft. cbn [p_simpleMode p_typeText p_logic p_recursive p_rules].
  by rewrite !fmap_app, He1, He2.
Qed.

(** What a draft is written as does not depend on its identifiers. *)
Lemma build_erase d : buildPruneObjectsValueText (erase_draft d) = buildPruneObjectsValueText d.
Proof.
  unfold buildPruneObjectsValueText. cbn [erase_draft p_simpleMode p_typeText p_logic p_recursive p_rules].
  assert (rule_payload <$> filter (λ r, blank (c_path r) = false) (erase_condition <$> p_rules d) =
          rule_payload <$> filter (λ r, blank (c_path r) = false) (p_rules d)) as ->; [|done].
  induction (p_rules d) as [|r rs IH]; [done|]. cbn [fmap list_fmap]. rewrite !filter_cons. cbn [erase_condition c_path].
  case_decide; [|done]. cbn [fmap list_fmap]. by f_equal.
Qed.

Lemma build_same d d' : erase_draft d = erase_draft d' → buildPruneObjectsValueText d = buildPruneObjectsValueText d'.
Proof. intros E. by rewrite <- (build_erase d), <- (build_erase d'), E. Qed.

(** Two changes of a draft that are written alike, for drafts read when the counter has
    reached [n0]. *)
Definition alike (n0 : nat) (u u' : PruneObjectsDraft → fresh PruneObjectsDraft) : Prop :=
  ∀ d d' n m, Forall (drawn_from n0) (p_rules d) → erase_draft d = erase_draft d' →
    ∃ e e' n' m', u d n = (Ok e, n') ∧ u' d' m = (Ok e', m') ∧ n <= n' ∧ m <= m' ∧
      buildPruneObjectsValueText e = buildPruneObjectsValueText e'.

Lemma drawn_weaken n n' r : n <= n' → drawn_from n' r → drawn_from n r.
Proof. intros Hn (k & Hk & E). exists k. split; [lia|done]. Qed.

Lemma alike_operation n0 id u u' o n m : alike n0 u u' → n0 <= n → n0 <= m →
  ∃ o' n' m', prune_operation id u o n = (Ok o', n') ∧ prune_operation id u' o m = (Ok o', m') ∧ n <= n' ∧ m <= m'.
Proof.
  intros Hu Hn Hm. unfold prune_operation. case_decide; [|by eexists _, n, m].
  destruct (draft_read (value_text o) n) as (d & n1 & E1 & Hn1 & Hd & Hall). destruct (Hall m) as (d' & m1 & E2 & Hm1 & He).
  destruct (Hu d d' n1 m1) as (e & e' & n2 & m2 & F1 & F2 & Hn2 & Hm2 & Hb); [|done|].
  { eapply Forall_impl; [exact Hd|]. intros r. by apply drawn_weaken. }
  rewrite (fresh_bind_Ok _ _ _ _ _ E1), (fresh_bind_Ok _ _ _ _ _ F1), (fresh_bind_Ok _ _ _ _ _ E2), (fresh_bind_Ok _ _ _ _ _ F2).
  eexists _, n2, m2. split; [done|]. rewrite Hb. split; [done|]. lia.
Qed.

Lemma alike_operations n0 id u u' ops n m : alike n0 u u' → n0 <= n → n0 <= m →
  ∃ ops' n' m', mapM (prune_operation id u) ops n = (Ok ops', n') ∧ mapM (prune_operation id u') ops m = (Ok ops', m').
Proof.
  intros Hu. revert n m. induction ops as [|o ops IH]; intros n m Hn Hm; [by eexists [], n, m|]. cbn [mapM].
  destruct (alike_operation n0 id u u' o n m) as (o' & n1 & m1 & E1 & E2 & ? & ?); [done..|].
  destruct (IH n1 m1) as (ops' & n2 & m2 & F1 & F2); [lia..|].
  rewrite (fresh_bind_Ok _ _ _ _ _ E1), (fresh_bind_Ok _ _ _ _ _ F1), (fresh_bind_Ok _ _ _ _ _ E2), (fresh_bind_Ok _ _ _ _ _ F2).
  by eexists _, n2, m2.
Qed.

Lemma alike_update id u u' s : alike (counter s) u u' →
  set_counter 0 (updatePruneObjectsDraft id u s).1 = set_counter 0 (updatePruneObjectsDraft id u' s).1 ∧
  (updatePruneObjectsDraft id u s).2 = [] ∧ (updatePruneObjectsDraft id u' s).2 = [].
Proof.
  intros Hu. destruct (alike_operations (counter s) id u u' (operations s) (counter s) (counter s)) as (ops & n & m & E1 & E2); [done..|].
  unfold updatePruneObjectsDraft, drawing. by rewrite E1, E2.
Qed.

(** The draft in the detailed mode. *)
Definition detailed (d : PruneObjectsDraft) : PruneObjectsDraft :=
  mkPruneDraft false (p_typeText d) (p_logic d) (p_recursive d) (p_rules d).

Lemma drawn_other n k r : k < n → drawn_from n r → c_id r ≠ local_id k.
Proof. intros Hk (k' & Hk' & ->) E%local_id_inj. lia. Qed.

Lemma update_rule_alike k y n0 : k < n0 → alike n0 (update_rule (local_id k) y) mret.
Proof.
  intros Hk d d' n m Hd He. eexists _, _, n, m. split_and!; [done|done|done|done|]. apply build_same. rewrite <- He.
  destruct d as [a b c e rs]. cbn [p_rules] in *. unfold erase_draft. cbn. f_equal. f_equal.
  clear He; rewrite Forall_forall in Hd. induction rs as [|r rs IH]; [done|]. cbn [fmap list_fmap].
  rewrite decide_False by (eapply drawn_other; [exact Hk|apply Hd; left]). f_equal. apply IH. intros x Hx. apply Hd. by right.
Qed.

Lemma remove_rule_alike k n0 : k < n0 → alike n0 (remove_rule (local_id k)) mret.
Proof.
  intros Hk d d' n m Hd He. eexists _, _, n, m. split_and!; [done|done|done|done|]. apply build_same. rewrite <- He.
  destruct d as [a b c e rs]. cbn [p_rules] in *. unfold erase_draft. cbn. f_equal. f_equal.
  apply filter_all. eapply Forall_impl; [exact Hd|]. intros r. by apply drawn_other.
Qed.

Lemma add_rule_alike n0 : alike n0 add_rule (λ d, mret (detailed d)).
Proof.
  intros d d' n m _ He. unfold add_rule. rewrite (fresh_bind_Ok _ _ _ _ _ (prune_rule_eq (JObj []) n eq_refl)).
  eexists _, _, (S n), m. split_and!; [done|done|lia|lia|].
  transitivity (buildPruneObjectsValueText (detailed d)).
  - unfold buildPruneObjectsValueText. cbn [detailed p_simpleMode p_typeText p_logic p_recursive p_rules].
    rewrite filter_app, filter_cons, decide_False by (by vm_compute). by rewrite filter_nil, app_nil_r.
  - apply build_same. destruct d, d'. unfold erase_draft, detailed in *. simplify_eq/=. congruence.
Qed.

(** Pruning rules cannot be edited.  The panel shows the rules with the identifiers that
    its render drew; the change of a rule reads the rules from the text again, which draws
    other identifiers, so that changing or removing a rule that is shown does what writing
    the draft back unchanged does, and adding a rule only turns the detailed mode on, the
    new rule having no path and being left out. *)
Theorem prune_rules_stuck s id k y : k < counter s →
  set_counter 0 (updatePruneRule id (local_id k) y s).1 = set_counter 0 (updatePruneObjectsDraft id mret s).1 ∧
  set_counter 0 (removePruneRule id (local_id k) s).1 = set_counter 0 (updatePruneObjectsDraft id mret s).1 ∧
  set_counter 0 (addPruneRule id s).1 = set_counter 0 (updatePruneObjectsDraft id (λ d, mret (detailed d)) s).1.
Proof.
  intros Hk. split_and!.
  - by apply alike_update, update_rule_alike.
  - by apply alike_update, remove_rule_alike.
  - by apply alike_update, add_rule_alike.
Qed.

(** ** Identifiers *)

(** What a computation draws: the counter only grows, and a result is as [P] says for the
    counters before and after. *)
Definition draws {B} (m : fresh B) (P : nat → nat → B → Prop) : Prop :=
  ∀ n, n <= (m n).2 ∧ ∀ b, (m n).1 = Ok b → P n (m n).2 b.
Definition any {B} : nat → nat → B → Prop := λ _ _ _, True.

Lemma draws_ret {B} (b : B) (P : nat → nat → B → Prop) : (∀ n, P n n b) → draws (mret b) P.
Proof. intros HP n. split; [done|]. by intros ? [= <-]. Qed.

Lemma draws_lift {B} (r : res js_error B) : draws (lift r) any.
Proof. by split. Qed.

Lemma draws_bind {B C} (m : fresh B) (k : B → fresh C) (P : nat → nat → B → Prop) (R : nat → nat → C → Prop) : draws m P →
  (∀ b, draws (k b) (λ n1 n2 c, ∀ n, n <= n1 → n1 <= n2 → P n n1 b → R n n2 c)) → draws (m ≫= k) R.
Proof.
  intros Hm Hk n. destruct (Hm n) as [Hn HP]. unfold mbind, fresh_bind. destruct (m n) as [[b|e] n1] eqn:E; cbn in *; [|done].
  destruct (Hk b n1) as [Hn2 HR]. split; [lia|]. intros c Hc. apply HR; auto.
Qed.

Lemma draws_weaken {B} (m : fresh B) (P Q : nat → nat → B → Prop) :
  draws m P → (∀ n n' b, n <= n' → P n n' b → Q n n' b) → draws m Q.
Proof. intros Hm HPQ n. destruct (Hm n) as [Hn HP]. auto. Qed.

Lemma draws_mapM_any {B C} (f : B → fresh C) l : (∀ x, draws (f x) any) → draws (mapM f l) any.
Proof.
  intros Hf. induction l as [|x l IH]; [by apply draws_ret|]. cbn [mapM].
  eapply draws_bind; [apply Hf|]. intros y. eapply draws_bind; [exact IH|]. intros ys. by apply draws_ret.
Qed.

Lemma draws_id : draws nextLocalId (λ n n' id, id = local_id n ∧ n < n').
Proof. intros n. split; [cbn; lia|]. intros ? [= <-]. cbn. split; [done|lia]. Qed.

Lemma draws_condition v : draws (normalizeCondition v) any.
Proof.
  unfold normalizeCondition. eapply draws_bind; [apply draws_id|]. intros id. eapply draws_bind; [apply draws_lift|].
  intros p. by apply draws_ret.
Qed.

Lemma draws_operation v : draws (normalizeOperation v) (λ n n' o, o_id o = local_id n ∧ n < n').
Proof.
  unfold normalizeOperation. eapply draws_bind; [apply draws_id|]. intros id. eapply draws_bind; [apply draws_lift|].
  intros d. eapply draws_bind; [instantiate (1 := any)|].
  - destruct (prop "conditions" _); try by apply draws_ret. apply draws_mapM_any, draws_condition.
  - intros cs. apply draws_ret. cbn. intros n n1 ? ? _ n2 ? ? _ n3 ? ? [-> ?]. split; [done|lia].
Qed.

Lemma draws_default : draws createDefaultOperation (λ n n' o, o_id o = local_id n ∧ n < n').
Proof. apply draws_operation. Qed.

(** Rules with different identifiers, drawn from [n0] on and before [n]. *)
Definition ids_ok (n0 n : nat) (ops : list ParamOverrideOperation) : Prop :=
  NoDup (o_id <$> ops) ∧ Forall (λ o, ∃ k, n0 <= k < n ∧ o_id o = local_id k) ops.

Lemma ids_single n0 k n o : n0 <= k < n → o_id o = local_id k → ids_ok n0 n [o].
Proof. intros Hk Ho. split; [apply NoDup_singleton|]. apply Forall_singleton. by exists k. Qed.

Lemma ids_weaken n0 n m0 m ops : m0 <= n0 → n <= m → ids_ok n0 n ops → ids_ok m0 m ops.
Proof.
  intros H0 Hn [HN HF]. split; [done|]. eapply Forall_impl; [exact HF|]. intros o (k & ? & ?). exists k. split; [lia|done].
Qed.

Lemma ids_app a b c xs ys : a <= b → b <= c → ids_ok a b xs → ids_ok b c ys → ids_ok a c (xs ++ ys).
Proof.
  intros Hab Hbc [HNx HFx] [HNy HFy]. split.
  - rewrite fmap_app. apply NoDup_app. split_and!; [done| |done].
    intros i (x & -> & Hix)%list_elem_of_fmap (y & Exy & Hiy)%list_elem_of_fmap.
    destruct (proj1 (Forall_forall _ _) HFx x Hix) as (k & ? & Ek), (proj1 (Forall_forall _ _) HFy y Hiy) as (j & ? & Ej).
    rewrite Ek, Ej in Exy. apply local_id_inj in Exy. lia.
  - apply Forall_app. split; eapply Forall_impl; [exact HFx| |exact HFy|]; intros o (k & ? & ?); exists k; (split; [lia|done]).
Qed.

#[global] Instance ids_perm n0 n : Proper ((≡ₚ) ==> iff) (ids_ok n0 n).
Proof. intros xs ys E. unfold ids_ok. by rewrite E. Qed.

Lemma ids_filter n0 n (P : ParamOverrideOperation → Prop) `{∀ o, Decision (P o)} ops : ids_ok n0 n ops → ids_ok n0 n (filter P ops).
Proof.
  intros [HN HF]. split.
  - eapply sublist_NoDup; [exact HN|]. apply fmap_sublist, sublist_filter.
  - apply Forall_forall. intros o [_ Ho]%list_elem_of_filter. by apply (proj1 (Forall_forall _ _) HF).
Qed.

Lemma ids_same n0 n ops ops' : o_id <$> ops' = o_id <$> ops → ids_ok n0 n ops → ids_ok n0 n ops'.
Proof.
  intros E [HN HF]. split; [by rewrite E|]. apply Forall_lookup. intros i o' Hi.
  assert ((o_id <$> ops) !! i = Some (o_id o')) as Ho by by rewrite <- E, list_lookup_fmap, Hi.
  apply list_lookup_fmap_Some in Ho as (o & -> & Ho). by apply (Forall_lookup_1 _ _ _ _ HF Ho).
Qed.

Lemma draws_operations l : draws (mapM normalizeOperation l) (λ n n' ops, ids_ok n n' ops ∧ length ops = length l).
Proof.
  induction l as [|v l IH]; [by apply draws_ret; repeat constructor|]. cbn [mapM].
  eapply draws_bind; [apply draws_operation|]. intros o. eapply draws_bind; [exact IH|]. intros ops. apply draws_ret.
  intros n2 n1 ? ? [Hops Hl] n ? ? [Ho Hn]. split; [|cbn; by f_equal].
  apply (ids_app n n1 n2 [o] ops); [lia|lia| |done]. apply (ids_single n n n1); [lia|done].
Qed.

Lemma draws_operations_of l : draws (operations_of l) (λ n n' ops, ids_ok n n' ops ∧ ops ≠ []).
Proof.
  destruct l as [|v l]; cbn [operations_of].
  - eapply draws_bind; [apply draws_default|]. intros o. apply draws_ret. intros n1 n ? ? [Ho Hn]. split; [|done].
    apply (ids_single n n n1); [lia|done].
  - eapply draws_weaken; [apply (draws_operations (v :: l))|]. intros n n' ops _ [Hops Hl]. split; [done|]. by intros ->.
Qed.

(** ** The invariant of the editor *)
Record editor_ok (s : Editor) : Prop := {
  eo_some : operations s ≠ [];
  eo_ids : ids_ok 0 (counter s) (operations s) }.

Definition keeps (a : A) : Prop := ∀ s, editor_ok s → editor_ok (a s).1.

(** An update that leaves the rules and the counter. *)
Lemma editor_keeps_upd f : (∀ s, operations (f s) = operations s ∧ counter (f s) = counter s) → keeps (upd f).
Proof. intros Hf s [Hs Hi]. cbn. destruct (Hf s) as [Eo Ec]. split; by rewrite ?Eo, ?Ec. Qed.

Lemma keeps_same f s : (operations (f s), counter (f s)) = (operations s, counter s) → editor_ok s → editor_ok (f s).
Proof. intros [= Eo Ec] [Hs Hi]. split; by rewrite ?Eo, ?Ec. Qed.

Lemma keeps_drawing {B} (m : fresh B) (P : nat → nat → B → Prop) (k : B → A) s : draws m P → editor_ok s →
  (∀ b n', counter s <= n' → P (counter s) n' b → editor_ok (set_counter n' s) → editor_ok (k b (set_counter n' s)).1) →
  editor_ok (drawing m k s).1.
Proof.
  intros Hm Hs Hk. unfold drawing. destruct (Hm (counter s)) as [Hn HP].
  assert (∀ n, counter s <= n → editor_ok (set_counter n s)) as Hc.
  { intros n ?. destruct Hs as [? Hi]. split; [done|]. by apply (ids_weaken _ _ 0 n) in Hi; [|lia..]. }
  destruct (m (counter s)) as [[b|e] n]; cbn in *; [|by apply Hc]. apply Hk; auto.
Qed.

(** Rules that replace the others. *)
Lemma editor_ok_new n s ops : ids_ok n (counter s) ops → ops ≠ [] → editor_ok (setOperations ops s).
Proof. intros Hi Ho. split; [done|]. by apply (ids_weaken n (counter s)); [lia| |]. Qed.

Lemma editor_ok_ids s ops : o_id <$> ops = o_id <$> operations s → editor_ok s → editor_ok (setOperations ops s).
Proof.
  intros E [Hs Hi]. split; [|by apply (ids_same _ _ (operations s))]. cbn. intros ->. by destruct (operations s).
Qed.

Lemma keeps_map_operation id f : (∀ o, o_id (f o) = o_id o) → keeps (map_operation id f).
Proof.
  intros Hf s Hs. apply editor_ok_ids; [|done]. rewrite <- list_fmap_compose. apply list_fmap_ext. intros i o _. cbn.
  case_decide; [apply Hf|done].
Qed.

Lemma single_default n0 n' (o : ParamOverrideOperation) : o_id o = local_id n0 ∧ n0 < n' → ids_ok n0 n' [o].
Proof. intros [Ho Hn]. by apply (ids_single n0 n0); [lia|]. Qed.

(** The update of the rules that a new rule brings. *)
Lemma keeps_new (f : ParamOverrideOperation → Editor → Editor) s :
  (∀ o s, operations (f o s) = [o] ∧ counter (f o s) = counter s) →
  editor_ok s → editor_ok (drawing createDefaultOperation (λ o, upd (f o)) s).1.
Proof.
  intros Hf Hs. eapply keeps_drawing; [apply draws_default|done|]. intros o n _ Ho _. cbn.
  destruct (Hf o (set_counter n s)) as [Eo Ec]. split; rewrite Eo, ?Ec; [done|]. cbn.
  apply (ids_weaken (counter s) n); [lia..|]. by apply single_default.
Qed.

Lemma keeps_fill_ops (f : list ParamOverrideOperation → Editor → Editor) l s :
  (∀ ops s, operations (f ops s) = ops ∧ counter (f ops s) = counter s) →
  editor_ok s → editor_ok (drawing (operations_of l) (λ ops, upd (f ops)) s).1.
Proof.
  intros Hf Hs. eapply keeps_drawing; [apply draws_operations_of|done|]. intros ops n _ [Hi Hne] _. cbn.
  destruct (Hf ops (set_counter n s)) as [Eo Ec]. split; rewrite Eo, ?Ec; [done|]. cbn.
  by apply (ids_weaken (counter s) n); [lia..|].
Qed.

Lemma keeps_add : keeps addOperation.
Proof.
  intros s Hs. eapply keeps_drawing; [apply draws_default|done|]. intros o n Hn Ho [? Hi]. cbn in *. split; cbn.
  - by destruct (operations s).
  - destruct Hs as [_ Hs]. apply (ids_app 0 (counter s)); [lia|done|done|]. by apply single_default.
Qed.

Lemma keeps_duplicate id b : keeps (duplicateOperation id b).
Proof.
  intros s Hs. unfold duplicateOperation. destruct (index_by_id id _) as [i|]; [|done].
  destruct (operations s !! i) as [src|]; [|done]. eapply keeps_drawing; [apply draws_operation|done|].
  intros o n Hn Ho _. destruct Hs as [_ Hs].
  assert (ids_ok 0 n (take (S i) (operations s) ++ o :: drop (S i) (operations s))) as Hi.
  { rewrite <- Permutation_middle, take_drop, <- (Permutation_app_comm (operations s) [o]).
    apply (ids_app 0 (counter s)); [lia|done|done|]. by apply single_default. }
  assert (take (S i) (operations s) ++ o :: drop (S i) (operations s) ≠ []) as Hne by by destruct (take (S i) (operations s)).
  destruct b; by split.
Qed.

Lemma keeps_remove id : keeps (removeOperation id).
Proof.
  intros s Hs. unfold removeOperation. case_match eqn:El; [by apply keeps_new|]. apply Nat.leb_gt in El.
  destruct Hs as [_ Hs]. split; [|by apply ids_filter]. cbn. destruct Hs as [HN _].
  destruct (operations s) as [|a [|b l]]; [cbn in El; lia..|]. apply NoDup_cons in HN as [Hab _].
  intros Hf. assert (a ∉ filter (λ o, o_id o ≠ id) (a :: b :: l)) as Ha by (rewrite Hf; set_solver).
  assert (b ∉ filter (λ o, o_id o ≠ id) (a :: b :: l)) as Hb by (rewrite Hf; set_solver).
  rewrite list_elem_of_filter in Ha, Hb. apply Hab. assert (o_id a = o_id b) as ->; [|left].
  destruct (decide (o_id a = id)) as [->|]; [|by destruct Ha; split; [|left]].
  destruct (decide (o_id b = id)) as [->|]; [done|]. destruct Hb. split; [done|]. right. left.
Qed.

Lemma reorder_perm ops a b p : reorderOperations ops a b p ≡ₚ ops.
Proof.
  unfold reorderOperations. destruct (_ || _); [done|]. destruct (index_by_id a ops) as [i|]; [|done].
  destruct (ops !! i) as [o|] eqn:Eo; [|done]. destruct (index_by_id b _) as [j|]; [|done].
  rewrite <- Permutation_middle, take_drop. by rewrite Permutation_middle, take_drop_middle.
Qed.

Lemma keeps_drop id t : keeps (handleDrop id t).
Proof.
  intros s Hs. unfold handleDrop. rewrite seq_fst. apply keeps_same; [done|]. unfold when, ite. case_match; [|done]. cbn.
  destruct Hs as [Hne Hs]. split; cbn; [|by rewrite reorder_perm].
  intros E. pose proof (reorder_perm (operations s) (or_text (draggedOperationId s) t) id
    (if bool_decide (dragOverOperationId s = id) then dragOverPosition s else before)) as Hp.
  rewrite E in Hp. by apply Permutation_nil in Hp.
Qed.

Lemma draws_draft t : draws (parsePruneObjectsDraft t) any.
Proof. intros n. by destruct (draft_read t n) as (d & n' & -> & ? & _). Qed.

Lemma draws_prune id u o : (∀ d, draws (u d) any) → draws (prune_operation id u o) (λ _ _ o', o_id o' = o_id o).
Proof.
  intros Hu. unfold prune_operation. case_decide; [|by apply draws_ret].
  eapply draws_bind; [apply draws_draft|]. intros d. eapply draws_bind; [apply Hu|]. intros e. by apply draws_ret.
Qed.

Lemma draws_mapM_prune id u ops : (∀ d, draws (u d) any) →
  draws (mapM (prune_operation id u) ops) (λ _ _ ops', o_id <$> ops' = o_id <$> ops).
Proof.
  intros Hu. induction ops as [|o ops IH]; [by apply draws_ret|]. cbn [mapM].
  eapply draws_bind; [by apply draws_prune|]. intros o'. eapply draws_bind; [exact IH|]. intros ops'. apply draws_ret.
  intros ? ? ? ? E ? ? ? Eo. by rewrite !fmap_cons, E, Eo.
Qed.

Lemma keeps_prune id u : (∀ d, draws (u d) any) → keeps (updatePruneObjectsDraft id u).
Proof.
  intros Hu s Hs. eapply keeps_drawing; [by apply draws_mapM_prune|done|]. intros ops n _ E Hc. by apply editor_ok_ids.
Qed.

Lemma keeps_open value : keeps (open_dialog value).
Proof.
  intros s Hs. eapply keeps_drawing with (P := λ n n' st, ids_ok n n' (s_operations st) ∧ s_operations st ≠ []); [|done|].
  - assert (∀ f, (∀ o, s_operations (f o) = [o]) → draws (o ← createDefaultOperation; mret (f o))
        (λ n n' st, ids_ok n n' (s_operations st) ∧ s_operations st ≠ [])) as Hnew.
    { intros f Hf. eapply draws_bind; [apply draws_default|]. intros o. apply draws_ret. intros n1 n ? ? Ho. rewrite Hf.
      split; [by apply single_default|done]. }
    unfold parseInitialState. destruct (trim value) as [|c t]; [by apply Hnew|].
    destruct (JSON_parse (c :: t)) as [v|]; [|by apply Hnew]. destruct v as [| | | | | |ps]; try by apply Hnew.
    destruct (prop "operations" (JObj ps)); try by apply Hnew.
    eapply draws_bind; [apply draws_operations_of|]. intros ops. apply draws_ret. intros n1 n ? ?. done.
  - intros st n Hn [Hi Hne] _. split; [done|]. cbn. apply (ids_weaken (counter s) n); [lia..|done].
Qed.

(** No template is empty. *)
Definition template_rules (p : TemplatePresetConfig) : list jsval :=
  match prop "operations" (t_payload p) with JArr l => l | _ => [] end.

Lemma templates_nonempty k : let preset := default (mkPreset (js "New Format Template") kind_operations OPERATION_TEMPLATE)
    (jget k TEMPLATE_PRESET_CONFIG) in
  t_kind preset = kind_operations → template_rules preset ≠ [].
Proof.
  intros preset Hk.
  assert (forallb (λ p, match t_kind p with kind_legacy => true | _ => 0 <? length (template_rules p) end)
    (mkPreset (js "New Format Template") kind_operations OPERATION_TEMPLATE :: TEMPLATE_PRESET_CONFIG.*2) = true) as Hall
    by by vm_compute.
  rewrite forallb_Forall, Forall_forall in Hall. specialize (Hall preset). rewrite Hk in Hall.
  destruct (template_rules preset); [|done]. exfalso. cbn [length] in Hall. apply (Is_true_false_2 (0 <? 0)); [done|].
  apply Is_true_true, Hall. unfold preset.
  destruct (jget k TEMPLATE_PRESET_CONFIG) as [p|] eqn:E; [|left]. right. apply jget_elem_of in E.
  apply list_elem_of_fmap. by exists (k, p).
Qed.

Lemma keeps_legacy text : keeps (show_legacy text).
Proof. intros s Hs. by apply keeps_new. Qed.

Lemma keeps_fill m : keeps (fillTemplate m).
Proof.
  intros s Hs. unfold fillTemplate. pose proof (templates_nonempty (templatePresetKey s)) as Ht. cbv zeta in *.
  set (preset := default _ _) in *. destruct (t_kind preset).
  - specialize (Ht eq_refl). fold (template_rules preset). destruct m; [by apply keeps_fill_ops|].
    eapply keeps_drawing; [apply draws_operations|done|]. intros ops n Hn [Hi Hl] [Hne Hc]. unfold reading. cbn.
    assert (ops ≠ []) as Hops by (intros ->; by destruct (template_rules preset)).
    set (kept := match visualMode _ with legacy_mode => _ | _ => _ end).
    assert (ids_ok 0 n (kept ++ ops)) as Hall.
    { apply (ids_app 0 (counter s)); [lia|done| |done]. unfold kept. destruct Hs as [_ Hs].
      destruct (visualMode s); [by apply ids_filter|]. split; [apply NoDup_nil_2|constructor]. }
    split; cbn; destruct (kept ++ ops) eqn:E; try done. by apply app_eq_nil in E as [_ ->].
  - destruct m; [by apply keeps_legacy|]. destruct (visualMode s); [by apply keeps_legacy|].
    destruct (trim (legacyValue s)); [by apply keeps_legacy|]. destruct (JSON_parse _); [by apply keeps_legacy|done].
Qed.

Lemma keeps_to_visual : keeps switchToVisualMode.
Proof.
  intros s Hs. unfold switchToVisualMode. destruct (editMode s); [done|]. destruct (trim (jsonText s)) as [|c t]; [by apply keeps_new|].
  destruct (JSON_parse (c :: t)) as [[| | | | | |ps]|]; try done. destruct (prop "operations" (JObj ps)); try by apply keeps_new.
  by apply keeps_fill_ops.
Qed.

Lemma keeps_to_json : keeps switchToJsonMode.
Proof.
  intros s Hs. unfold switchToJsonMode. destruct (editMode s); [|done]. destruct Hs. destruct (buildVisualJson s); by split.
Qed.

Lemma keeps_selection : keeps keep_selection.
Proof. apply editor_keeps_upd. intros s. destruct (operations s) eqn:E; [by rewrite <- E|]. by case_match. Qed.

#[local] Hint Resolve keeps_open keeps_add keeps_duplicate keeps_remove keeps_drop keeps_fill keeps_to_visual keeps_to_json : keeps.

Lemma keeps_respond e : keeps (respond e).
Proof.
  destruct e; cbn [respond]; auto with keeps; try (by apply keeps_map_operation); try (by apply editor_keeps_upd);
    try (by apply keeps_prune; intros d; apply draws_ret).
  - intros s Hs. eapply keeps_drawing; [apply draws_default|done|]. done.
  - intros s Hs. eapply keeps_drawing; [apply draws_condition|done|]. intros c n _ _ Hc. rewrite seq_fst.
    apply keeps_same; [done|]. by apply keeps_map_operation.
  - apply editor_keeps_upd. intros s. by destruct (list_find _ _) as [[]|].
  - apply editor_keeps_upd. intros s. by destruct (list_find _ _) as [[]|].
  - apply keeps_prune. intros d. unfold add_rule. eapply (draws_bind _ _ any); [|by intros r; apply draws_ret].
    intros n. rewrite prune_rule_eq by done. split; [cbn; lia|done].
  - intros s Hs. unfold handleDragOver. by case_match; [|apply keeps_same].
  - intros s Hs. by apply keeps_new.
Qed.

(** C25: whatever the user does in the editor, there is a rule, no two rules share an
    identifier (an edit, a drag or a removal is of one rule), the identifiers are below the
    counter, so that a new rule gets another one, and the rule selected is one of them. *)
Theorem editor_invariant n ls s : reaches step (init n) ls s →
  operations s ≠ [] ∧ NoDup (o_id <$> operations s) ∧
  (∀ o, o ∈ operations s → ∃ k, k < counter s ∧ o_id o = local_id k) ∧
  selectedOperationId s ∈ o_id <$> operations s.
Proof.
  intros Hr. cut (editor_ok s ∧ selectedOperationId s ∈ o_id <$> operations s).
  { intros [[Hne [HN HF]] Hs]. split_and!; [done|done| |done]. intros o Ho.
    destruct (proj1 (Forall_forall _ _) HF o Ho) as (k & [_ ?] & ?). by exists k. }
  revert Hr. apply (reaches_inv step (λ s, editor_ok s ∧ selectedOperationId s ∈ o_id <$> operations s)).
  - intros s1 [e outs] s2 [Hs1 _] [_ E]. cbn [fst snd] in E. assert (s2 = (handle e s1).1) as -> by by rewrite E.
    unfold handle. rewrite seq_fst. pose proof (keeps_respond e s1 Hs1) as Hk. set (s' := (respond e s1).1) in *.
    split; [by apply keeps_selection|]. destruct Hk as [Hne _]. cbn. destruct (operations s') as [|o ops] eqn:Eo; [done|].
    rewrite <- Eo. case_match eqn:Ex; [|cbn; rewrite Eo; left]. apply existsb_exists in Ex as (x & Hx & Hid).
    apply bool_decide_eq_true in Hid. rewrite <- Hid. apply list_elem_of_fmap_2. by apply list_elem_of_In.
  - split; [|left]. split; [done|]. by apply (ids_single 0 n); cbn; [lia|].
Qed.
End editor_facts.

(** ** Concrete runs *)
Definition pruning_operation : ParamOverrideOperation :=
  mkOperation (js "p") [] (js "tools") (js "prune_objects") [] []
    (JSON_stringify 0 (obj [("conditions", JArr [obj [("path", str "type"); ("mode", str "full"); ("value", str "x")]])]%string)) false (js "OR") [].
Definition pruning_editor : Editor := setOperations [pruning_operation] (init (H := clock_zero) 4).

Lemma prune_rules_stuck_witness :
  set_counter 0 (updatePruneRule (H := clock_zero) (js "p") (local_id (H := clock_zero) 2)
    (mkConditionPatch (Some (js "name")) None None None None) pruning_editor).1 =
  set_counter 0 (updatePruneObjectsDraft (H := clock_zero) (js "p") mret pruning_editor).1.
Proof.
  apply (prune_rules_stuck (H := clock_zero) pruning_editor (js "p") 2 (mkConditionPatch (Some (js "name")) None None None None)).
  cbn. lia.
Defined.

Definition sample_run : list Event :=
  [AddOperation; Fill append; Rendered; DuplicateOperation (local_id (H := clock_zero) 1) true;
   RemoveOperation (local_id (H := clock_zero) 0); Select (js "gone")].

Lemma editor_invariant_witness :
  let s := run_after (handle (H := clock_zero)) sample_run (init (H := clock_zero) 0) in
  operations s ≠ [] ∧ selectedOperationId s ∈ o_id <$> operations s.
Proof.
  destruct (editor_invariant (H := clock_zero) 0
    (run_trace (handle (H := clock_zero)) sample_run (init (H := clock_zero) 0))
    (run_after (handle (H := clock_zero)) sample_run (init (H := clock_zero) 0))) as (H1 & _ & _ & H2).
  - apply run_reaches. cbn [enabled_all sample_run]. by repeat split.
  - by split.
Defined.
