(* ===== verification/RatioSync.v ===== *)
(** Taking over the prices of other sites (features/system-settings/models:
    upstream-ratio-sync-helpers.ts and the handlers of upstream-ratio-sync-table.tsx and
    upstream-ratio-sync.tsx).

    The server lists, for each model and each field of its price, what the sites of the
    administrator's choice say; the administrator picks values, one by one or a site at a
    time, and the picks are written to ten options of the system.

    Objects used as maps are lists of entries.  JavaScript moves keys that are array indices
    to the front; no statement depends on the order of the models.  Texts that are shown are
    given by the keys of their translations. *)
From S2P Require Import Prelude JsString JsValue Json JsPrint JsNumber JsonQuote JsonPrint JsDynamic Actions.
Local Open Scope nat_scope.

(** ** Data *)
Abbreviation RatioType := jsstring.

Record RatioDifferenceEntry := mkEntry {
  current : jsval; upstreams : list (jsstring * jsval); confidence : list (jsstring * bool) }.

Abbreviation RatioTypes := (list (RatioType * RatioDifferenceEntry)).
Abbreviation DifferencesMap := (list (jsstring * RatioTypes)).
Abbreviation ModelResolution := (list (RatioType * jsval)).
Abbreviation ResolutionsMap := (list (jsstring * ModelResolution)).

Record ResolutionSelection := mkSelection {
  s_model : jsstring; s_ratioType : RatioType; s_value : jsval; s_sourceName : jsstring }.
Record ResolutionRemoval := mkRemoval { r_model : jsstring; r_ratioType : RatioType }.
Abbreviation ResolutionRemovalPlan := (list (jsstring * list RatioType)).

Definition RATIO_SYNC_FIELDS : list RatioType := js <$>
  ["model_ratio"; "completion_ratio"; "cache_ratio"; "create_cache_ratio"; "image_ratio"; "audio_ratio";
   "audio_completion_ratio"]%string.
Definition SYNC_FIELD_ORDER : list RatioType :=
  RATIO_SYNC_FIELDS ++ (js <$> ["model_price"; "billing_mode"; "billing_expr"]%string).
Definition NUMERIC_SYNC_FIELDS : list RatioType := set_of (RATIO_SYNC_FIELDS ++ [js "model_price"]).

Definition RATIO_TYPE_OPTIONS : list (jsstring * jsstring) := (λ p, (js p.1, js p.2)) <$>
  [("Model ratio", "model_ratio"); ("Completion ratio", "completion_ratio"); ("Cache ratio", "cache_ratio");
   ("Create cache ratio", "create_cache_ratio"); ("Image ratio", "image_ratio"); ("Audio ratio", "audio_ratio");
   ("Audio completion ratio", "audio_completion_ratio"); ("Fixed price", "model_price");
   ("Expression billing", "billing_expr")]%string.

(** The text to translate, or the field itself. *)
Definition getSyncFieldLabel (ratioType : RatioType) : jsstring :=
  match list_find (λ o, o.2 = ratioType) RATIO_TYPE_OPTIONS with Some (_, o) => o.1 | None => ratioType end.

(** ** Fields *)

(** [ratioTypes[field]?.upstreams?.[source]]. *)
Definition upstream_of (ratioTypes : RatioTypes) (field : RatioType) (source : jsstring) : jsval :=
  match jget field ratioTypes with Some e => default JUndef (jget source (upstreams e)) | None => JUndef end.

Definition isSelectableUpstreamValue (v : jsval) : bool :=
  match v with JNull | JUndef => false | _ => negb (is_lit v "same") end.

Definition getOrderedRatioTypes (ratioTypes : RatioTypes) (filter_ : jsstring) : list RatioType :=
  let keys := jkeys ratioTypes in
  let ordered := filter (λ f, f ∈ keys) SYNC_FIELD_ORDER ++ filter (λ f, f ∉ SYNC_FIELD_ORDER) keys in
  if bool_decide (filter_ = []) || bool_decide (filter_ = js "__all__") then ordered
  else filter (λ f, f = filter_) ordered.

Definition getPreferredSyncField (ratioTypes : RatioTypes) (ratioType : RatioType) (sourceName : jsstring) : RatioType :=
  if negb (bool_decide (ratioType = js "billing_expr")) &&
     isSelectableUpstreamValue (upstream_of ratioTypes (js "billing_expr") sourceName)
  then js "billing_expr" else ratioType.

Definition getVisibleRatioTypesForSource (ratioTypes : RatioTypes) (sourceName filter_ : jsstring) : list RatioType :=
  filter (λ rt, getPreferredSyncField ratioTypes rt sourceName = rt) (getOrderedRatioTypes ratioTypes filter_).

Definition getAlignedRatioTypes (ratioTypes : RatioTypes) (sourceNames : list jsstring) (filter_ : jsstring) : list RatioType :=
  let ordered := getOrderedRatioTypes ratioTypes filter_ in
  match sourceNames with
  | [] => ordered
  | _ =>
      let visible := foldl (λ visible source,
        foldl (λ visible rt, set_add rt visible) visible (getVisibleRatioTypesForSource ratioTypes source filter_))
        [] sourceNames in
      filter (λ rt, rt ∈ visible) ordered
  end.

Inductive Category := price | ratio | tiered.
#[export] Instance Category_eq_dec : EqDecision Category.
Proof. solve_decision. Defined.

Definition getBillingCategory (ratioType : RatioType) : Category :=
  if decide (ratioType = js "model_price") then price
  else if decide (ratioType = js "billing_mode" ∨ ratioType = js "billing_expr") then tiered
  else ratio.

(** The presets of the server, with their numbers. *)
Definition OFFICIAL_CHANNEL_NAME : jsstring := [23448; 26041; 20493; 29575; 39044; 35774]%N.
Definition MODELS_DEV_PRESET_NAME : jsstring := js "models.dev " ++ [20215; 26684; 39044; 35774]%N.
Definition OFFICIAL_CHANNEL_ID : Z := -100.
Definition MODELS_DEV_PRESET_ID : Z := -101.

Definition getUpstreamDisplayName (sourceName : jsstring) : jsstring :=
  let presets := [(OFFICIAL_CHANNEL_NAME, OFFICIAL_CHANNEL_ID); (MODELS_DEV_PRESET_NAME, MODELS_DEV_PRESET_ID)] in
  match list_find (λ p, sourceName = p.1 ++ js "(" ++ show_Z p.2 ++ js ")") presets with
  | Some (_, p) => p.1
  | None => sourceName
  end.

(** [a === b] on numbers and texts, the values of a field. *)
Definition same_value (a b : jsval) : bool :=
  match a, b with JNum x, JNum y => num_eqb x y | JStr s, JStr t => bool_decide (s = t) | _, _ => false end.

Definition isSelectedResolutionValue (resolutions : ResolutionsMap) (model : jsstring) (ratioType : RatioType)
    (upstreamValue : jsval) : bool :=
  if isSelectableUpstreamValue upstreamValue then
    match jget model resolutions ≫= jget ratioType with
    | None | Some JUndef => false
    | Some selectedValue =>
        if set_has ratioType NUMERIC_SYNC_FIELDS then
          let selectedNumber := to_number selectedValue in
          let upstreamNumber := to_number upstreamValue in
          is_finite selectedNumber && is_finite upstreamNumber && num_eqb selectedNumber upstreamNumber
        else same_value selectedValue upstreamValue
    end
  else false.

(** ** Picking values *)

(** The field that a pick is of, and its value there. *)
Definition preferred (differences : DifferencesMap) (s : ResolutionSelection) : RatioType * jsval :=
  let modelDiffs := default [] (jget (s_model s) differences) in
  let preferredType := getPreferredSyncField modelDiffs (s_ratioType s) (s_sourceName s) in
  (preferredType,
   if bool_decide (preferredType = s_ratioType s) then s_value s
   else match upstream_of modelDiffs preferredType (s_sourceName s) with JUndef | JNull => s_value s | v => v end).

Definition resolveResolutionSelection (differences : DifferencesMap) (s : ResolutionSelection) : ResolutionSelection :=
  let '(rt, v) := preferred differences s in mkSelection (s_model s) rt v (s_sourceName s).

(** What a pick in [category] leaves of the others. *)
Definition compatible (category : Category) (rt : RatioType) : bool :=
  bool_decide (category = tiered) || bool_decide (getBillingCategory rt = tiered) ||
  bool_decide (getBillingCategory rt = category).

(** The draft of a model, once the pick is made. *)
Definition pick (differences : DifferencesMap) (s : ResolutionSelection) (draft : ModelResolution) : ModelResolution :=
  let modelDiffs := jget (s_model s) differences in
  let '(finalType, finalValue) := preferred differences s in
  let category := getBillingCategory finalType in
  let draft := filter (λ p, compatible category p.1 = true) draft in
  let draft := jset finalType finalValue draft in
  match category, modelDiffs with
  | tiered, Some diffs =>
      let modeVal := upstream_of diffs (js "billing_mode") (s_sourceName s) in
      let exprVal := upstream_of diffs (js "billing_expr") (s_sourceName s) in
      let draft := if isSelectableUpstreamValue modeVal then jset (js "billing_mode") modeVal draft
                   else if bool_decide (finalType = js "billing_expr")
                   then jset (js "billing_mode") (JStr (js "tiered_expr")) draft else draft in
      if isSelectableUpstreamValue exprVal then jset (js "billing_expr") exprVal draft else draft
  | _, _ => draft
  end.

Definition getDraftModelResolution (drafts resolutions : ResolutionsMap) (model : jsstring) : ModelResolution :=
  match jget model drafts with Some draft => draft | None => default [] (jget model resolutions) end.

Definition applyResolutionSelectionToDraft (resolutions : ResolutionsMap) (differences : DifferencesMap)
    (drafts : ResolutionsMap) (s : ResolutionSelection) : ResolutionsMap :=
  jset (s_model s) (pick differences s (getDraftModelResolution drafts resolutions (s_model s))) drafts.

(** The drafts replace the models they are of; an empty one removes its model. *)
Definition put_draft (next : ResolutionsMap) (p : jsstring * ModelResolution) : ResolutionsMap :=
  match p.2 with [] => jdel p.1 next | draft => jset p.1 draft next end.

Definition applyResolutionSelections (resolutions : ResolutionsMap) (differences : DifferencesMap)
    (selections : list ResolutionSelection) : ResolutionsMap :=
  match selections with
  | [] => resolutions
  | _ => foldl put_draft resolutions (foldl (applyResolutionSelectionToDraft resolutions differences) [] selections)
  end.

Definition applyResolutionSelection (resolutions : ResolutionsMap) (differences : DifferencesMap)
    (s : ResolutionSelection) : ResolutionsMap := applyResolutionSelections resolutions differences [s].

(** The picks that count, when several are made at once. *)
Definition effective_step (differences : DifferencesMap) (m : list (jsstring * ResolutionSelection))
    (s : ResolutionSelection) : list (jsstring * ResolutionSelection) :=
  let resolved := resolveResolutionSelection differences s in
  let category := getBillingCategory (s_ratioType resolved) in
  let m := filter (λ p, (bool_decide (s_model p.2 = s_model resolved) && negb (compatible category (s_ratioType p.2))) = false) m in
  jset (s_model resolved ++ [0%N] ++ s_ratioType resolved) resolved m.
Definition getEffectiveResolutionSelections (differences : DifferencesMap) (selections : list ResolutionSelection) :
    list ResolutionSelection := jvalues (foldl (effective_step differences) [] selections).

(** ** Taking picks back *)
Definition remove_field (draft : ModelResolution) (rt : RatioType) : ModelResolution :=
  let draft := jdel rt draft in
  let draft := if bool_decide (rt = js "billing_expr") then jdel (js "billing_mode") draft else draft in
  if bool_decide (rt = js "billing_mode") then jdel (js "billing_expr") draft else draft.

Definition applyResolutionRemovalPlan (resolutions : ResolutionsMap) (plan : ResolutionRemovalPlan) : ResolutionsMap :=
  foldl (λ next p, match jget p.1 resolutions with
                   | None => next
                   | Some draft => put_draft next (p.1, foldl remove_field draft p.2)
                   end) resolutions plan.

(** A field is added to the plan of its model. *)
Definition plan_add (plan : ResolutionRemovalPlan) (r : ResolutionRemoval) : ResolutionRemovalPlan :=
  match jget (r_model r) plan with
  | Some rts => jset (r_model r) (set_add (r_ratioType r) rts) plan
  | None => jset (r_model r) [r_ratioType r] plan
  end.
Definition applyResolutionRemovals (resolutions : ResolutionsMap) (removals : list ResolutionRemoval) : ResolutionsMap :=
  match removals with
  | [] => resolutions
  | _ => applyResolutionRemovalPlan resolutions (foldl plan_add [] removals)
  end.
Definition deleteResolutionField (resolutions : ResolutionsMap) (model : jsstring) (rt : RatioType) : ResolutionsMap :=
  applyResolutionRemovals resolutions [mkRemoval model rt].

(** ** The table *)
Record ModelRow := mkRow { row_model : jsstring; row_ratioTypes : RatioTypes; billingConflict : bool }.

Definition dataSource (differences : DifferencesMap) : list ModelRow :=
  (λ p, mkRow p.1 p.2 (jhas (js "model_price") p.2 && existsb (λ rt, jhas rt p.2) RATIO_SYNC_FIELDS)) <$> differences.

Definition filteredData (search ratioTypeFilter : jsstring) (rows : list ModelRow) : list ModelRow :=
  let data := if bool_decide (trim search = []) then rows
              else filter (λ r, includes (to_lower search) (to_lower (row_model r)) = true) rows in
  if bool_decide (ratioTypeFilter = []) || bool_decide (ratioTypeFilter = js "__all__") then data
  else filter (λ r, jhas ratioTypeFilter (row_ratioTypes r) = true) data.

Definition upstreamNames (ratioTypeFilter : jsstring) (rows : list ModelRow) : list jsstring :=
  set_of (rows ≫= λ r, getOrderedRatioTypes (row_ratioTypes r) ratioTypeFilter ≫= λ rt,
    from_option (λ e, jkeys (upstreams e)) [] (jget rt (row_ratioTypes r))).

Record UpstreamBulkSelectState := mkBulk {
  displayName : jsstring; selections : list ResolutionSelection; removalPlan : ResolutionRemovalPlan;
  selectableCount : nat; selectedCount : nat }.

(** What a site offers in the rows shown. *)
Definition offered (ratioTypeFilter upstreamName : jsstring) (rows : list ModelRow) : list ResolutionSelection :=
  rows ≫= λ r, omap (λ rt,
    let v := upstream_of (row_ratioTypes r) rt upstreamName in
    if isSelectableUpstreamValue v then Some (mkSelection (row_model r) rt v upstreamName) else None)
    (getAlignedRatioTypes (row_ratioTypes r) [upstreamName] ratioTypeFilter).

Definition is_selected (resolutions : ResolutionsMap) (s : ResolutionSelection) : bool :=
  isSelectedResolutionValue resolutions (s_model s) (s_ratioType s) (s_value s).

Definition bulk_state (differences : DifferencesMap) (resolutions : ResolutionsMap) (ratioTypeFilter : jsstring)
    (rows : list ModelRow) (upstreamName : jsstring) : UpstreamBulkSelectState :=
  let selections := offered ratioTypeFilter upstreamName rows in
  let removalPlan := foldl (λ plan s, plan_add plan (mkRemoval (s_model s) (s_ratioType s))) [] selections in
  let effectiveSelections := getEffectiveResolutionSelections differences selections in
  mkBulk (getUpstreamDisplayName upstreamName) effectiveSelections removalPlan (length effectiveSelections)
    (length (filter (λ s, is_selected resolutions s = true) effectiveSelections)).

(** ** Writing the picks *)
Abbreviation OptionMaps := (list (jsstring * list (jsstring * jsval))).

Definition OPTION_KEYS : list jsstring := js <$>
  ["ModelRatio"; "CompletionRatio"; "CacheRatio"; "CreateCacheRatio"; "ImageRatio"; "AudioRatio";
   "AudioCompletionRatio"; "ModelPrice"; "billing_setting.billing_mode"; "billing_setting.billing_expr"]%string.

Definition capitalize (w : jsstring) : jsstring :=
  match w with [] => [] | c :: w => to_upper [c] ++ w end.
Definition optionKeyBySyncField (ratioType : RatioType) : jsstring :=
  if decide (ratioType = js "billing_mode") then js "billing_setting.billing_mode"
  else if decide (ratioType = js "billing_expr") then js "billing_setting.billing_expr"
  else join [] (capitalize <$> split_on 95 ratioType).

Definition parseJsonRecord (raw : jsstring) : jsval :=
  default (JObj []) (JSON_parse (match raw with [] => js "{}" | _ => raw end)).

(** [modelRatios]: the text of each option. *)
Definition parsedRatios (modelRatios : jsstring → jsstring) : list (jsstring * jsval) :=
  (λ k, (k, parseJsonRecord (modelRatios k))) <$> OPTION_KEYS.

(** [record[model]] of a parsed option. *)
Definition record_get (key : string) (model : jsstring) (ratios : list (jsstring * jsval)) : res js_error jsval :=
  match jget (js key) ratios with
  | None | Some JNull | Some JUndef => Throw TypeError
  | Some v => Ok (default JUndef (jget model (spread v)))
  end.

(** Whether one of the options has a ratio for the model. *)
Fixpoint any_ratio (model : jsstring) (ratios : list (jsstring * jsval)) (keys : list string) : res js_error (option Category) :=
  match keys with
  | [] => Ok None
  | k :: keys => v ← record_get k model ratios; if is_undef v then any_ratio model ratios keys else Ok (Some ratio)
  end.

Definition getLocalBillingCategory (model : jsstring) (ratios : list (jsstring * jsval)) : res js_error (option Category) :=
  p ← record_get "ModelPrice" model ratios;
  if is_undef p
  then any_ratio model ratios ["ModelRatio"; "CompletionRatio"; "CacheRatio"; "CreateCacheRatio"; "ImageRatio"; "AudioRatio";
         "AudioCompletionRatio"]%string
  else Ok (Some price).

(** A change of one of the maps. *)
Definition alter_option (key : jsstring) (f : list (jsstring * jsval) → list (jsstring * jsval)) (m : OptionMaps) : OptionMaps :=
  match jget key m with Some x => jset key (f x) m | None => m end.

Definition has_ratio (r : ModelResolution) : bool := existsb (λ rt, bool_decide (rt ∈ RATIO_SYNC_FIELDS)) (jkeys r).

Definition written (rt : RatioType) (v : jsval) : jsval :=
  if set_has rt NUMERIC_SYNC_FIELDS then JNum (to_number v) else v.

Definition write_fields (model : jsstring) (r : ModelResolution) (m : OptionMaps) : res js_error OptionMaps :=
  foldl (λ acc p, m ← acc;
    match jget (optionKeyBySyncField p.1) m with
    | Some x => Ok (jset (optionKeyBySyncField p.1) (jset model (written p.1 p.2) x) m)
    | None => Throw TypeError
    end) (Ok m) r.

Definition sync_model (m : OptionMaps) (p : jsstring * ModelResolution) : res js_error OptionMaps :=
  let '(model, r) := p in
  let m := if jhas (js "model_price") r
           then foldl (λ m k, alter_option k (jdel model) m) m (take 7 OPTION_KEYS) else m in
  let m := if has_ratio r then alter_option (js "ModelPrice") (jdel model) m else m in
  write_fields model r m.

Definition finalRatios (ratios : list (jsstring * jsval)) (resolutions : ResolutionsMap) : res js_error OptionMaps :=
  foldl (λ acc p, m ← acc; sync_model m p) (Ok (prod_map id spread <$> ratios)) resolutions.

(** The options as they are sent. *)
Definition updates_of (m : OptionMaps) : list (jsstring * jsstring) :=
  (λ p, (p.1, JSON_stringify 2 (make_obj p.2))) <$> m.

(** ** The page *)
Record ConflictItem := mkConflict { channel : jsstring; model : jsstring; currentDesc : jsstring; newVal : jsstring }.

(** [syncing] tells of the write in flight whether the dialog awaits it. *)
Record Sync := mkSync {
  differences : DifferencesMap; resolutions : ResolutionsMap; conflictItems : list ConflictItem;
  conflictDialogOpen : bool; confirmLoading : bool; syncing : option bool }.

Inductive Out :=
| updateOptions (updates : list (jsstring * jsstring))
| toast (text : jsstring)
| uncaught (e : js_error).

Abbreviation A := (act Sync Out).
Open Scope act_scope.

Definition setDifferences (x : DifferencesMap) (s : Sync) : Sync :=
  mkSync x (resolutions s) (conflictItems s) (conflictDialogOpen s) (confirmLoading s) (syncing s).
Definition setResolutions (x : ResolutionsMap) (s : Sync) : Sync :=
  mkSync (differences s) x (conflictItems s) (conflictDialogOpen s) (confirmLoading s) (syncing s).
Definition setConflicts (items : list ConflictItem) (s : Sync) : Sync :=
  mkSync (differences s) (resolutions s) items true (confirmLoading s) (syncing s).
Definition setConflictDialogOpen (x : bool) (s : Sync) : Sync :=
  mkSync (differences s) (resolutions s) (conflictItems s) x (confirmLoading s) (syncing s).
Definition setConfirmLoading (x : bool) (s : Sync) : Sync :=
  mkSync (differences s) (resolutions s) (conflictItems s) (conflictDialogOpen s) x (syncing s).
Definition set_syncing (x : option bool) (s : Sync) : Sync :=
  mkSync (differences s) (resolutions s) (conflictItems s) (conflictDialogOpen s) (confirmLoading s) x.

(** What the server answered: sites that failed, and the differences. *)
Definition fetched (diffs : DifferencesMap) (errorMsg : jsstring) : A :=
  (if bool_decide (errorMsg = []) then skip else emit (toast (js "Some channels failed: {{errorMsg}}"))) ;;
  upd (λ s, setResolutions [] (setDifferences diffs s)) ;;
  emit (toast (match diffs with [] => js "No price differences found" | _ => js "Upstream prices fetched successfully" end)).

Definition handleSelectValue (x : ResolutionSelection) : A :=
  upd (λ s, setResolutions (applyResolutionSelection (resolutions s) (differences s) x) s).
Definition handleSelectValues (l : list ResolutionSelection) : A :=
  upd (λ s, setResolutions (applyResolutionSelections (resolutions s) (differences s) l) s).
Definition handleUnselectValue (m : jsstring) (rt : RatioType) : A :=
  upd (λ s, setResolutions (deleteResolutionField (resolutions s) m rt) s).
Definition handleUnselectValues (plan : ResolutionRemovalPlan) : A :=
  upd (λ s, setResolutions (applyResolutionRemovalPlan (resolutions s) plan) s).

Definition findSourceChannel (differences : DifferencesMap) (m : jsstring) (rt : RatioType) (value : jsval) : jsstring :=
  match jget m differences ≫= jget rt with
  | None => js "Unknown"
  | Some e => match list_find (λ p, same_value p.2 value = true) (upstreams e) with
              | Some (_, p) => p.1
              | None => js "Unknown"
              end
  end.

Definition new_category (r : ModelResolution) : Category :=
  if jhas (js "model_price") r then price else if has_ratio r then ratio else tiered.

(** [`${v ?? '-'}`]. *)
Definition or_dash (v : jsval) : jsstring := match v with JUndef | JNull => js "-" | _ => to_string v end.

(** Whether the picks of a model change the way it is billed, and what is said of it. *)
Definition conflict_of (ratios : list (jsstring * jsval)) (diffs : DifferencesMap) (p : jsstring * ModelResolution) :
    res js_error (option ConflictItem) :=
  let '(m, r) := p in
  localCat ← getLocalBillingCategory m ratios;
  match localCat with
  | Some c =>
      if decide (new_category r = tiered ∨ c = new_category r) then mret None
      else
        let line (label : string) (text : jsstring) := js label ++ js ": " ++ text in
        let of_pick rt := or_dash (default JUndef (jget (js rt) r)) in
        cp ← record_get "ModelPrice" m ratios; mr ← record_get "ModelRatio" m ratios;
        cr ← record_get "CompletionRatio" m ratios;
        let currentDesc := match c with
          | price => line "Fixed price" (to_string cp)
          | _ => line "Model ratio" (or_dash mr) ++ [10%N] ++ line "Completion ratio" (or_dash cr)
          end in
        let newDesc := match new_category r with
          | price => line "Fixed price" (to_string (default JUndef (jget (js "model_price") r)))
          | _ => line "Model ratio" (of_pick "model_ratio"%string) ++ [10%N] ++ line "Completion ratio" (of_pick "completion_ratio"%string)
          end in
        let names := set_of ((λ q, findSourceChannel diffs m q.1 q.2) <$> r) in
        mret (Some (mkConflict (join (js ", ") names) m currentDesc newDesc))
  | None => mret None
  end.

Definition conflicts_of (ratios : list (jsstring * jsval)) (diffs : DifferencesMap) (rs : ResolutionsMap) :
    res js_error (list ConflictItem) := items ← mapM (conflict_of ratios diffs) rs; mret (omap id items).

(** The write is begun; [dialog] tells whether the dialog awaits it. *)
Definition performSync (ratios : list (jsstring * jsval)) (dialog : bool) : A := λ s,
  match finalRatios ratios (resolutions s) with
  | Ok m => (set_syncing (Some dialog) s, [updateOptions (updates_of m)])
  | Throw e => (setConfirmLoading false s, [uncaught e])
  end.

Definition handleApplySync (ratios : list (jsstring * jsval)) : A := λ s,
  match conflicts_of ratios (differences s) (resolutions s) with
  | Throw e => (s, [uncaught e])
  | Ok [] => (emit (toast (js "Syncing prices, please wait...")) ;; performSync ratios false) s
  | Ok items => (setConflicts items s, [])
  end.

Definition handleConfirmConflict (ratios : list (jsstring * jsval)) : A :=
  upd (setConfirmLoading true) ;; performSync ratios true.

(** The differences that were resolved go, and the models without any left. *)
Definition resolved_diffs (rs : ResolutionsMap) (diffs : DifferencesMap) : DifferencesMap :=
  foldl (λ d p, foldl (λ d rt,
    match jget p.1 d with
    | Some rts => if jhas rt rts then match jdel rt rts with [] => jdel p.1 d | rest => jset p.1 rest d end else d
    | None => d
    end) d (jkeys p.2)) diffs rs.

(** The write ended. *)
Definition dialog_answered (closes : bool) (s : Sync) : Sync :=
  match syncing s with
  | Some true => set_syncing None (setConfirmLoading false (if closes then setConflictDialogOpen false s else s))
  | _ => set_syncing None s
  end.
Definition sync_succeeded : A :=
  emit (toast (js "Prices synced successfully")) ;;
  upd (λ s, setResolutions [] (setDifferences (resolved_diffs (resolutions s) (differences s)) s)) ;;
  upd (dialog_answered true).
Definition sync_failed (message : jsstring) : A :=
  emit (toast (match message with [] => js "Failed to sync prices" | _ => message end)) ;; upd (dialog_answered false).

(** ** Runs *)

(** A value that the table offers to pick. *)
Definition cell_offers (diffs : DifferencesMap) (x : ResolutionSelection) : Prop :=
  ∃ rts, jget (s_model x) diffs = Some rts ∧ s_ratioType x ∈ jkeys rts ∧
    getPreferredSyncField rts (s_ratioType x) (s_sourceName x) = s_ratioType x ∧
    s_value x = upstream_of rts (s_ratioType x) (s_sourceName x) ∧ isSelectableUpstreamValue (s_value x) = true.

Inductive Event :=
| Fetched (diffs : DifferencesMap) (errorMsg : jsstring)
| SelectValue (x : ResolutionSelection)
| BulkSelect (search filter_ upstream : jsstring)
| UnselectValue (m : jsstring) (rt : RatioType)
| BulkUnselect (search filter_ upstream : jsstring)
| ApplySync (ratios : list (jsstring * jsval))
| ConfirmConflict (ratios : list (jsstring * jsval))
| CloseConflict
| SyncSucceeded
| SyncFailed (message : jsstring).

Definition bulk_of (s : Sync) (search filter_ upstream : jsstring) : UpstreamBulkSelectState :=
  bulk_state (differences s) (resolutions s) filter_ (filteredData search filter_ (dataSource (differences s))) upstream.

Definition handle (e : Event) : A :=
  match e with
  | Fetched diffs errorMsg => fetched diffs errorMsg
  | SelectValue x => handleSelectValue x
  | BulkSelect search f u => λ s, handleSelectValues (selections (bulk_of s search f u)) s
  | UnselectValue m rt => handleUnselectValue m rt
  | BulkUnselect search f u => λ s, handleUnselectValues (removalPlan (bulk_of s search f u)) s
  | ApplySync ratios => handleApplySync ratios
  | ConfirmConflict ratios => handleConfirmConflict ratios
  | CloseConflict => upd (setConflictDialogOpen false)
  | SyncSucceeded => sync_succeeded
  | SyncFailed message => sync_failed message
  end.

(** The server sends each model and each field once, and fields of the known names. *)
Definition known_diffs (diffs : DifferencesMap) : Prop :=
  NoDup (jkeys diffs) ∧ ∀ m rts, jget m diffs = Some rts → NoDup (jkeys rts) ∧ jkeys rts ⊆ SYNC_FIELD_ORDER.

Definition enabled (e : Event) (s : Sync) : Prop :=
  match e with
  | Fetched diffs _ => known_diffs diffs
  | SelectValue x => cell_offers (differences s) x
  | SyncSucceeded | SyncFailed _ => is_Some (syncing s)
  | _ => True
  end.

Definition step : Sync → Event * list Out → Sync → Prop := machine_step enabled handle.
Definition init : Sync := mkSync [] [] [] false false None.
