(* ===== verification/RatioSyncFacts.v ===== *)
(** Facts of taking over prices: picks made at once are picks made in turn, the picks of a
    model are always of one way of billing, a site's picks are taken and taken back as a
    whole, and what is written is what was picked. *)
From S2P Require Import Prelude JsString JsValue Json JsPrint JsNumber JsonQuote JsonPrint JsDynamic Actions RatioSync.
Local Open Scope nat_scope.

(** ** Picks *)
Lemma jset_not_nil {K V} `{EqDecision K} (k : K) (v : V) m : jset k v m ≠ [].
Proof. destruct m as [|[k' v'] m]; cbn [jset]; [done|]. by case_decide. Qed.

Lemma pick_not_nil differences s d : pick differences s d ≠ [].
Proof.
  unfold pick. destruct (preferred differences s) as [rt v]. destruct (getBillingCategory rt); try apply jset_not_nil.
  destruct (jget (s_model s) differences); [|apply jset_not_nil]. repeat case_match; apply jset_not_nil.
Qed.

Lemma put_draft_get next m d k : jget k (put_draft next (m, d)) =
  if decide (m = k) then match d with [] => None | _ => Some d end else jget k next.
Proof. destruct d as [|p d]; cbn [put_draft snd fst]; [apply jget_delete|]. rewrite jget_jset. by case_decide. Qed.

(** The drafts of distinct models, put in place. *)
Lemma put_drafts_get drafts next k : NoDup (jkeys drafts) →
  jget k (foldl put_draft next drafts) =
  match jget k drafts with Some [] => None | Some d => Some d | None => jget k next end.
Proof.
  revert next. induction drafts as [|[m d] drafts IH]; intros next HN; [done|]. cbn [foldl jget].
  apply NoDup_cons in HN as [Hm HN]. rewrite IH by done. destruct (decide (k = m)) as [->|Hk].
  - assert (jget m drafts = None) as -> by by apply jget_None. rewrite put_draft_get, decide_True by done. by destruct d.
  - rewrite put_draft_get, decide_False by congruence. done.
Qed.

(** The picks of one model, in order. *)
Definition picks (differences : DifferencesMap) (m : jsstring) (l : list ResolutionSelection) (d : ModelResolution) : ModelResolution :=
  foldl (λ d s, if decide (s_model s = m) then pick differences s d else d) d l.

Lemma drafts_get resolutions differences l drafts m :
  jget m (foldl (applyResolutionSelectionToDraft resolutions differences) drafts l) =
  if decide (m ∈ s_model <$> l) then Some (picks differences m l (getDraftModelResolution drafts resolutions m))
  else jget m drafts.
Proof.
  revert drafts. induction l as [|s l IH]; intros drafts; [by rewrite decide_False by apply not_elem_of_nil|].
  cbn [foldl fmap list_fmap]. rewrite IH. cbn [picks foldl]. unfold applyResolutionSelectionToDraft at 1 2, getDraftModelResolution at 1.
  rewrite jget_jset. destruct (decide (s_model s = m)) as [<-|Hs].
  - rewrite (decide_True (P := s_model s ∈ _ :: _)) by left. case_decide as Hm; [done|].
    f_equal. unfold picks. clear IH. revert Hm. generalize (pick differences s (getDraftModelResolution drafts resolutions (s_model s))).
    induction l as [|x l IHl]; intros d Hm; [done|]. cbn [foldl fmap list_fmap] in *. apply not_elem_of_cons in Hm as [Hx Hm].
    rewrite decide_False by congruence. by apply IHl.
  - fold (getDraftModelResolution drafts resolutions m). destruct (decide (m ∈ s_model <$> l)) as [Hm|Hm].
    + by rewrite decide_True by by right.
    + rewrite decide_False; [done|]. intros [->|?]%elem_of_cons; done.
Qed.

Lemma drafts_NoDup resolutions differences l drafts : NoDup (jkeys drafts) →
  NoDup (jkeys (foldl (applyResolutionSelectionToDraft resolutions differences) drafts l)).
Proof.
  revert drafts. induction l as [|s l IH]; intros drafts HN; [done|]. cbn [foldl]. apply IH. by apply NoDup_jset.
Qed.

Lemma picks_not_nil differences m l d : m ∈ s_model <$> l ∨ d ≠ [] → picks differences m l d ≠ [].
Proof.
  revert d. induction l as [|s l IH]; intros d [Hm|Hd]; cbn [picks foldl]; try done.
  - by apply not_elem_of_nil in Hm.
  - apply IH. cbn in Hm. case_decide; [right; apply pick_not_nil|]. left.
    by apply elem_of_cons in Hm as [->|?].
  - apply IH. right. case_decide; [apply pick_not_nil|done].
Qed.

(** What picks make of a model. *)
Lemma selections_get resolutions differences l m :
  jget m (applyResolutionSelections resolutions differences l) =
  if decide (m ∈ s_model <$> l) then Some (picks differences m l (default [] (jget m resolutions))) else jget m resolutions.
Proof.
  unfold applyResolutionSelections. destruct l as [|s l]; [by rewrite decide_False by apply not_elem_of_nil|].
  remember (s :: l) as sels eqn:E. rewrite put_drafts_get by (apply drafts_NoDup; constructor).
  rewrite drafts_get. case_decide as Hm; [|done]. unfold getDraftModelResolution. cbn [jget].
  pose proof (picks_not_nil differences m sels (default [] (jget m resolutions)) (or_introl Hm)) as Hp. by destruct (picks _ _ _ _).
Qed.

Lemma picks_app differences m l1 l2 d : picks differences m (l1 ++ l2) d = picks differences m l2 (picks differences m l1 d).
Proof. unfold picks. by rewrite foldl_app. Qed.

Lemma picks_other differences m l d : m ∉ s_model <$> l → picks differences m l d = d.
Proof.
  revert d. induction l as [|s l IH]; intros d Hm; [done|]. cbn in *. apply not_elem_of_cons in Hm as [Hs Hm].
  rewrite decide_False by congruence. by apply IH.
Qed.

(** C37: picking several values at once, as the header of a site does, is picking them one by
    one in that order: every model ends with the same picks. *)
Theorem selections_in_turn resolutions differences l m :
  jget m (applyResolutionSelections resolutions differences l) =
  jget m (foldl (λ r s, applyResolutionSelection r differences s) resolutions l).
Proof.
  rewrite selections_get. revert resolutions. induction l as [|s l IH]; intros resolutions.
  { by rewrite decide_False by apply not_elem_of_nil. }
  cbn [foldl]. rewrite <- IH. unfold applyResolutionSelection. rewrite selections_get. cbn [fmap list_fmap].
  destruct (decide (s_model s = m)) as [<-|Hs].
  - rewrite (decide_True (P := s_model s ∈ _ :: _)) by left. rewrite (decide_True (P := s_model s ∈ [_])) by left.
    change (s :: l) with ([s] ++ l). rewrite picks_app. case_decide as Hm; [done|]. by rewrite (picks_other _ _ l).
  - rewrite (decide_False (P := m ∈ [_])) by (rewrite list_elem_of_singleton; congruence). cbn [picks foldl].
    rewrite (decide_False (P := s_model s = m)) by done. destruct (decide (m ∈ s_model <$> l)) as [Hm|Hm].
    + by rewrite decide_True by by right.
    + rewrite decide_False; [done|]. intros [->|?]%elem_of_cons; done.
Qed.

(** ** One way of billing *)
Abbreviation EXPR := (js "billing_expr").
Abbreviation MODE := (js "billing_mode").

(** The fields of a pick are known, not of a price and of ratios at once, and an expression
    comes with its mode. *)
Record wf_resolution (r : ModelResolution) : Prop := {
  w_some : r ≠ [];
  w_family : ∃ c, c ≠ tiered ∧ ∀ q, is_Some (jget q r) → getBillingCategory q = tiered ∨ getBillingCategory q = c;
  w_mode : is_Some (jget EXPR r) → is_Some (jget MODE r);
  w_known : ∀ q, is_Some (jget q r) → q ∈ SYNC_FIELD_ORDER;
  w_NoDup : NoDup (jkeys r) }.

Definition wf_or_empty (r : ModelResolution) : Prop := r = [] ∨ wf_resolution r.

Lemma tiered_fields q : getBillingCategory q = tiered ↔ q = MODE ∨ q = EXPR.
Proof.
  unfold getBillingCategory. destruct (decide (q = js "model_price")) as [->|]; [by split; [|intros [|]]|].
  by case_decide.
Qed.

(** What the picked field and value are, for a value that the table offers. *)
Lemma offered_preferred diffs x rts : jget (s_model x) diffs = Some rts →
  getPreferredSyncField rts (s_ratioType x) (s_sourceName x) = s_ratioType x →
  preferred diffs x = (s_ratioType x, s_value x).
Proof. intros Hr Hp. unfold preferred. rewrite Hr. change (default [] (Some rts)) with rts. cbv zeta. rewrite Hp. by rewrite bool_decide_true. Qed.

(** The source of a preferred field that is not an expression has none to offer. *)
Lemma no_expression rts rt source : getPreferredSyncField rts rt source = rt → rt ≠ EXPR →
  isSelectableUpstreamValue (upstream_of rts EXPR source) = false.
Proof.
  unfold getPreferredSyncField. intros Hp He. rewrite bool_decide_false in Hp by done. cbn [negb andb] in Hp.
  by destruct (isSelectableUpstreamValue _).
Qed.

(** A pick from the table, field by field. *)
Lemma pick_get diffs x rts d q : jget (s_model x) diffs = Some rts →
  getPreferredSyncField rts (s_ratioType x) (s_sourceName x) = s_ratioType x →
  s_value x = upstream_of rts (s_ratioType x) (s_sourceName x) → isSelectableUpstreamValue (s_value x) = true →
  jget q (pick diffs x d) =
  if decide (q = s_ratioType x) then Some (s_value x)
  else if decide (s_ratioType x = EXPR ∧ q = MODE) then
    let modeVal := upstream_of rts MODE (s_sourceName x) in
    Some (if isSelectableUpstreamValue modeVal then modeVal else JStr (js "tiered_expr"))
  else if compatible (getBillingCategory (s_ratioType x)) q then jget q d else None.
Proof.
  intros Hr Hp Hv Hs. unfold pick. rewrite (offered_preferred diffs x rts), Hr by done.
  set (rt := s_ratioType x) in *. set (cat := getBillingCategory rt). assert (jget q (jset rt (s_value x) (filter (λ p, compatible cat p.1 = true) d)) =
    if decide (q = rt) then Some (s_value x) else if compatible cat q then jget q d else None) as Hbase.
  { rewrite jget_jset, jget_filter_key. destruct (decide (rt = q)), (decide (q = rt)); congruence. }
  destruct (decide (rt = EXPR)) as [He|He].
  - assert (cat = tiered) as -> by (apply tiered_fields; by right). rewrite He in Hv. rewrite <- Hv, Hs, bool_decide_true by done. cbv iota.
    rewrite jget_jset. destruct (decide (q = rt)) as [->|Hq]; [by rewrite decide_True|]. rewrite decide_False by congruence.
    destruct (decide (rt = EXPR ∧ q = MODE)) as [[_ ->]|Hn].
    + destruct (isSelectableUpstreamValue (upstream_of rts MODE (s_sourceName x))); by rewrite jget_jset, decide_True.
    + assert (MODE ≠ q) by (intros <-; naive_solver).
      destruct (isSelectableUpstreamValue (upstream_of rts MODE (s_sourceName x))); rewrite jget_jset_ne by done; exact Hbase.
  - rewrite (decide_False (P := rt = EXPR ∧ q = MODE)) by naive_solver. rewrite <- Hbase.
    destruct cat eqn:Ecat; try done. apply tiered_fields in Ecat as [Hm|?]; [|done].
    rewrite (no_expression rts rt (s_sourceName x)) by done. rewrite Hm in *. rewrite <- Hv, Hs. by rewrite jset_twice.
Qed.

Lemma compatible_spec c q : compatible c q = true ↔ c = tiered ∨ getBillingCategory q = tiered ∨ getBillingCategory q = c.
Proof. unfold compatible. rewrite !orb_true_iff, !bool_decide_eq_true. tauto. Qed.

#[local] Hint Resolve NoDup_jset NoDup_jdel NoDup_filter_keys : core.

Lemma pick_NoDup diffs x d : NoDup (jkeys d) → NoDup (jkeys (pick diffs x d)).
Proof. intros HN. unfold pick. destruct (preferred diffs x). repeat case_match; auto. Qed.

Lemma remove_field_NoDup d rt : NoDup (jkeys d) → NoDup (jkeys (remove_field d rt)).
Proof. intros HN. unfold remove_field. repeat case_match; auto. Qed.

Lemma pick_wf diffs x d : known_diffs diffs → cell_offers diffs x → wf_or_empty d → wf_resolution (pick diffs x d).
Proof.
  intros [_ Hk] (rts & Hr & Hin & Hp & Hv & Hs) Hd. pose proof (pick_get diffs x rts d) as Hget.
  assert (∀ q, is_Some (jget q d) → wf_resolution d) as Hwd by (intros q Hq; destruct Hd as [->|]; [by destruct Hq|done]).
  set (rt := s_ratioType x) in *. set (c := getBillingCategory rt) in *.
  assert (∀ q, is_Some (jget q (pick diffs x d)) → q = rt ∨ (rt = EXPR ∧ q = MODE) ∨ (compatible c q = true ∧ is_Some (jget q d))) as Hq.
  { intros q. rewrite Hget by done. destruct (decide (q = rt)); [by left|]. destruct (decide (rt = EXPR ∧ q = MODE)); [by right; left|].
    destruct (compatible c q); [by right; right|by intros []]. }
  split.
  - apply pick_not_nil.
  - destruct (decide (c = tiered)) as [Hc|Hc].
    + assert (∃ c0, c0 ≠ tiered ∧ ∀ q, is_Some (jget q d) → getBillingCategory q = tiered ∨ getBillingCategory q = c0) as (c0 & Hc0 & Hall).
      { destruct Hd as [->|[]]; [|done]. exists ratio. split; [done|]. by intros q []. }
      exists c0. split; [done|]. intros q [->|[[_ ->]|[_ Hqd]]]%Hq; [by left|left; apply tiered_fields; by left|by apply Hall].
    + exists c. split; [done|]. intros q [->|[[? ->]|[Hcq _]]]%Hq; [by right|left; apply tiered_fields; by left|].
      apply compatible_spec in Hcq. tauto.
  - rewrite !Hget by done. destruct (decide (rt = EXPR)) as [He|He].
    + intros _. destruct (decide (MODE = rt)); [by eexists|]. rewrite decide_True by done. by eexists.
    + rewrite (decide_False (P := EXPR = rt)) by congruence. rewrite (decide_False (P := rt = EXPR ∧ EXPR = MODE)) by naive_solver.
      assert (∀ q, q = MODE ∨ q = EXPR → compatible c q = true) as Hcomp by (intros q ?; apply compatible_spec; right; left; by apply tiered_fields).
      rewrite (Hcomp EXPR) by by right. intros He'. destruct (decide (MODE = rt)); [by eexists|].
      rewrite decide_False by naive_solver. rewrite (Hcomp MODE) by by left. by apply (Hwd EXPR).
  - intros q [->|[[_ ->]|[_ Hqd]]]%Hq; [by apply (Hk _ _ Hr)|by vm_compute; set_solver|by apply (Hwd q)].
  - apply pick_NoDup. destruct Hd as [->|[]]; [by apply NoDup_nil_2|done].
Qed.

(** ** Taking picks back *)

(** The fields that go with a field. *)
Definition goes_with (rt q : RatioType) : Prop := q = rt ∨ (rt = EXPR ∧ q = MODE) ∨ (rt = MODE ∧ q = EXPR).
#[local] Instance goes_with_dec rt q : Decision (goes_with rt q).
Proof. unfold goes_with. apply _. Defined.

Lemma remove_field_get d rt q : jget q (remove_field d rt) = if decide (goes_with rt q) then None else jget q d.
Proof.
  unfold remove_field, goes_with. assert (MODE ≠ EXPR) as Hne by done.
  destruct (decide (rt = EXPR)) as [->|He]; [|destruct (decide (rt = MODE)) as [->|Hm]].
  - rewrite (bool_decide_true (EXPR = EXPR)), (bool_decide_false (EXPR = MODE)) by done. rewrite !jget_jdel. repeat case_decide; naive_solver.
  - rewrite (bool_decide_false (MODE = EXPR)), (bool_decide_true (MODE = MODE)) by done. rewrite !jget_jdel. repeat case_decide; naive_solver.
  - rewrite !bool_decide_false by done. rewrite jget_jdel. repeat case_decide; naive_solver.
Qed.

Lemma remove_fields_get rts d q :
  jget q (foldl remove_field d rts) = if decide (Exists (λ rt, goes_with rt q) rts) then None else jget q d.
Proof.
  revert d. induction rts as [|rt rts IH]; intros d; [by rewrite decide_False by (by intros ?%Exists_nil)|].
  cbn [foldl]. rewrite IH, remove_field_get. destruct (decide (Exists _ rts)) as [H|H].
  - by rewrite decide_True by by right.
  - case_decide as H'; [by rewrite decide_True by by left|]. rewrite decide_False; [done|]. by rewrite Exists_cons; intros [].
Qed.

Lemma remove_fields_wf rts d : wf_resolution d → wf_or_empty (foldl remove_field d rts).
Proof.
  intros [Hs (c & Hc & Hf) Hm Hk HN]. destruct (foldl remove_field d rts) as [|p l] eqn:E; [by left|]. right. rewrite <- E.
  assert (∀ q, is_Some (jget q (foldl remove_field d rts)) → is_Some (jget q d)) as Hsub.
  { intros q. rewrite remove_fields_get. case_decide; [by intros []|done]. }
  split; [by rewrite E|..].
  - exists c. split; [done|]. intros q Hq. by apply Hf, Hsub.
  - rewrite !remove_fields_get. destruct (decide (Exists (λ rt, goes_with rt EXPR) rts)) as [|Hne]; [by intros []|].
    intros He. rewrite decide_False; [by apply Hm|]. intros Hex. apply Hne. eapply Exists_impl; [exact Hex|].
    intros rt [Hr|[[Hr _]|[_ Hr]]]; [by right; right|by left|by vm_compute in Hr].
  - intros q Hq. by apply Hk, Hsub.
  - clear -HN. revert d HN. induction rts as [|rt rts IH]; intros d HN; [done|]. by apply IH, remove_field_NoDup.
Qed.

(** The picks left by a plan of distinct models. *)
Lemma removal_plan_get resolutions plan m : NoDup (jkeys plan) →
  jget m (applyResolutionRemovalPlan resolutions plan) =
  match jget m plan, jget m resolutions with
  | Some rts, Some d => match foldl remove_field d rts with [] => None | d' => Some d' end
  | _, r => r
  end.
Proof.
  intros HN. unfold applyResolutionRemovalPlan.
  assert (∀ next, (∀ k, k ∈ jkeys plan → jget k next = jget k resolutions) →
    jget m (foldl (λ next p, match jget p.1 resolutions with None => next
                             | Some draft => put_draft next (p.1, foldl remove_field draft p.2) end) next plan) =
    match jget m plan with
    | Some rts => match jget m resolutions with
                  | Some d => match foldl remove_field d rts with [] => None | d' => Some d' end
                  | None => None end
    | None => jget m next end) as Hgen.
  { induction plan as [|[k rts] plan IH]; intros next Hnext; [done|]. apply NoDup_cons in HN as [Hk HN]. cbn [foldl fst snd].
    rewrite IH; [|done|].
    - cbn [jget]. destruct (decide (m = k)) as [->|Hmk].
      + assert (jget k plan = None) as -> by by apply jget_None. destruct (jget k resolutions) as [d|] eqn:Ed.
        * rewrite put_draft_get, decide_True by done. by destruct (foldl remove_field d rts).
        * rewrite Hnext by left. done.
      + destruct (jget m plan); [done|]. destruct (jget k resolutions); [|done]. by rewrite put_draft_get, decide_False by congruence.
    - intros q Hq. destruct (jget k resolutions); [|apply Hnext; by right]. rewrite put_draft_get, decide_False.
      + apply Hnext. by right.
      + intros ->. done. }
  rewrite Hgen by done. by destruct (jget m plan), (jget m resolutions).
Qed.

(** Plans have distinct models, and the fields they were given. *)
Lemma plan_add_NoDup plan r : NoDup (jkeys plan) → NoDup (jkeys (plan_add plan r)).
Proof. intros HN. unfold plan_add. destruct (jget _ _); by apply NoDup_jset. Qed.

Lemma plan_adds_NoDup {B} (f : B → ResolutionRemoval) l plan : NoDup (jkeys plan) →
  NoDup (jkeys (foldl (λ plan s, plan_add plan (f s)) plan l)).
Proof. revert plan. induction l as [|x l IH]; intros plan HN; [done|]. by apply IH, plan_add_NoDup. Qed.


(** ** The values of a site *)
Lemma elem_of_set_adds {A} `{EqDecision A} (l : list A) s x : x ∈ foldl (λ v y, set_add y v) s l ↔ x ∈ s ∨ x ∈ l.
Proof.
  revert s. induction l as [|y l IH]; intros s; cbn [foldl]; [set_solver|]. rewrite IH, elem_of_set_add. set_solver.
Qed.

Lemma ordered_keys rts f rt : rt ∈ getOrderedRatioTypes rts f → rt ∈ jkeys rts.
Proof.
  unfold getOrderedRatioTypes. assert (∀ rt, rt ∈ filter (λ f, f ∈ jkeys rts) SYNC_FIELD_ORDER ++
    filter (λ f, f ∉ SYNC_FIELD_ORDER) (jkeys rts) → rt ∈ jkeys rts) as Hall.
  { intros q [Hq|Hq]%elem_of_app; apply list_elem_of_filter in Hq; tauto. }
  destruct (_ || _); [by apply Hall|]. intros [_ Hrt]%list_elem_of_filter. by apply Hall.
Qed.

Lemma aligned_spec rts u f rt : rt ∈ getAlignedRatioTypes rts [u] f ↔
  rt ∈ getOrderedRatioTypes rts f ∧ getPreferredSyncField rts rt u = rt.
Proof.
  unfold getAlignedRatioTypes. cbn [foldl]. rewrite list_elem_of_filter, elem_of_set_adds.
  unfold getVisibleRatioTypesForSource. rewrite list_elem_of_filter. set_solver.
Qed.

Lemma rows_are_models diffs search f r : NoDup (jkeys diffs) → r ∈ filteredData search f (dataSource diffs) →
  jget (row_model r) diffs = Some (row_ratioTypes r).
Proof.
  intros HN Hr. assert (r ∈ dataSource diffs) as Hin.
  { unfold filteredData in Hr. destruct (bool_decide (trim search = [])), (_ || _); rewrite ?list_elem_of_filter in Hr; tauto. }
  unfold dataSource in Hin. apply list_elem_of_fmap in Hin as ([m rts] & -> & Hp). by apply elem_of_jget.
Qed.

(** What a site offers in the table is what its cells offer. *)
Lemma offered_cells diffs search f u x : NoDup (jkeys diffs) →
  x ∈ offered f u (filteredData search f (dataSource diffs)) → cell_offers diffs x ∧ s_sourceName x = u.
Proof.
  intros HN Hx. unfold offered in Hx. apply list_elem_of_bind in Hx as (r & Hx & Hr).
  apply list_elem_of_omap in Hx as (rt & Hrt & E). cbv zeta in E.
  destruct (isSelectableUpstreamValue _) eqn:Es; [|done]. injection E as <-. split; [|done].
  apply aligned_spec in Hrt as [Ho Hp]. exists (row_ratioTypes r). cbn. split_and!; [|by eapply ordered_keys|done|done|done].
  by eapply rows_are_models.
Qed.

Lemma resolve_cell diffs x : cell_offers diffs x → resolveResolutionSelection diffs x = x.
Proof.
  intros (rts & Hr & _ & Hp & _). unfold resolveResolutionSelection. rewrite (offered_preferred diffs x rts) by done. by destruct x.
Qed.

(** ** The picks that count *)
Definition pick_key (x : ResolutionSelection) : jsstring := s_model x ++ [0%N] ++ s_ratioType x.



(** Picks that agree: two of the same model are the same or are of different fields that go
    together. *)
Definition agree (l : list ResolutionSelection) : Prop := ∀ x y, x ∈ l → y ∈ l → x ≠ y → s_model x = s_model y →
  s_ratioType x ≠ s_ratioType y ∧ compatible (getBillingCategory (s_ratioType y)) (s_ratioType x) = true.

Record effective_ok (diffs : DifferencesMap) (l : list ResolutionSelection) (m : list (jsstring * ResolutionSelection)) : Prop := {
  e_keys : ∀ k x, (k, x) ∈ m → k = pick_key x ∧ x ∈ l;
  e_NoDup : NoDup (jkeys m);
  e_compat : ∀ k x k' y, (k, x) ∈ m → (k', y) ∈ m → s_model x = s_model y →
    compatible (getBillingCategory (s_ratioType y)) (s_ratioType x) = true }.

Lemma compatible_sym a b : compatible (getBillingCategory a) b = true → compatible (getBillingCategory b) a = true.
Proof. rewrite !compatible_spec. intuition congruence. Qed.

Lemma elem_of_jset {K V} `{EqDecision K} (k : K) (v : V) m q w : NoDup (jkeys m) →
  (q, w) ∈ jset k v m ↔ (q = k ∧ w = v) ∨ (q ≠ k ∧ (q, w) ∈ m).
Proof.
  intros HN. assert (NoDup (jkeys (jset k v m))) as HN' by by apply NoDup_jset.
  assert (∀ n : list (K * V), NoDup (jkeys n) → ((q, w) ∈ n ↔ jget q n = Some w)) as Hg.
  { intros n Hn. split; [by apply elem_of_jget|apply jget_elem_of]. }
  rewrite !Hg by done. rewrite jget_jset. case_decide; naive_solver.
Qed.

Lemma effective_step_ok diffs l m x : effective_ok diffs l m → cell_offers diffs x → effective_ok diffs (l ++ [x]) (effective_step diffs m x).
Proof.
  intros [Hk HN Hc] Hx. unfold effective_step. rewrite (resolve_cell diffs x) by done. cbv zeta.
  set (m' := filter _ m). assert (NoDup (jkeys m')) as HN' by by apply NoDup_filter_keys.
  assert (∀ k y, (k, y) ∈ m' ↔ (k, y) ∈ m ∧
    (s_model y = s_model x → compatible (getBillingCategory (s_ratioType x)) (s_ratioType y) = true)) as Hm'.
  { intros k y. subst m'. rewrite list_elem_of_filter. cbn. rewrite andb_false_iff, bool_decide_eq_false, negb_false_iff.
    destruct (decide (s_model y = s_model x)); naive_solver. }
  fold (pick_key x). split.
  - intros k y [[-> ->]|[_ [Hy _]%Hm']]%elem_of_jset; [|apply Hk in Hy as [-> Hy]|done]; set_solver.
  - by apply NoDup_jset.
  - assert (∀ c, compatible (getBillingCategory c) c = true) as Hrefl by (intros c; apply compatible_spec; tauto).
    intros k y k' z Hy Hz Hyz. apply elem_of_jset in Hy; [|done]. apply elem_of_jset in Hz; [|done]. rewrite Hm' in Hy, Hz.
    destruct Hy as [[-> ->]|(_ & Hy & Hyx)], Hz as [[-> ->]|(_ & Hz & Hzx)].
    + apply Hrefl.
    + apply compatible_sym. by apply Hzx.
    + by apply Hyx.
    + by apply (Hc k y k' z).
Qed.

Lemma effective_all_ok diffs l : Forall (cell_offers diffs) l → effective_ok diffs l (foldl (effective_step diffs) [] l).
Proof.
  intros Hl. induction l as [|x l IH] using rev_ind.
  { split; [by intros ? ? ?%not_elem_of_nil|by apply NoDup_nil_2|by intros ? ? ? ? ?%not_elem_of_nil]. }
  apply Forall_app in Hl as [Hl Hx]. rewrite foldl_app. cbn [foldl]. apply effective_step_ok; [by apply IH|]. by apply (proj1 (Forall_singleton _ _)).
Qed.

Lemma effective_agrees diffs l : known_diffs diffs → Forall (cell_offers diffs) l →
  agree (getEffectiveResolutionSelections diffs l) ∧ ∀ x, x ∈ getEffectiveResolutionSelections diffs l → x ∈ l.
Proof.
  intros [_ Hd] Hl. destruct (effective_all_ok diffs l Hl) as [Hk HN Hc]. unfold getEffectiveResolutionSelections.
  set (m := foldl _ [] l) in *. unfold jvalues. split.
  - intros x y ([k x'] & -> & Hx)%list_elem_of_fmap ([k' y'] & -> & Hy)%list_elem_of_fmap Hne Hm. cbn in *.
    split; [|by apply (Hc k x' k' y')]. intros Ert. apply Hne.
    assert (k = k') as -> by (destruct (Hk _ _ Hx) as [-> _], (Hk _ _ Hy) as [-> _]; unfold pick_key; congruence).
    apply elem_of_jget in Hx, Hy; [congruence|done..].
  - intros x ([k x'] & -> & Hx)%list_elem_of_fmap. by apply (Hk _ _ Hx).
Qed.



(** ** Picking a whole site *)





Lemma bulk_offers diffs search f u : known_diffs diffs → let l := offered f u (filteredData search f (dataSource diffs)) in
  Forall (cell_offers diffs) l ∧ Forall (λ x, s_sourceName x = u) l.
Proof. intros [HN _] l. split; apply Forall_forall; intros x Hx; by apply (offered_cells diffs search f u x). Qed.



(** ** The page *)
Record page_ok (s : Sync) : Prop := {
  p_diffs : known_diffs (differences s);
  p_NoDup : NoDup (jkeys (resolutions s));
  p_wf : ∀ m r, jget m (resolutions s) = Some r → wf_resolution r }.

Lemma put_draft_NoDup next p : NoDup (jkeys next) → NoDup (jkeys (put_draft next p)).
Proof. intros HN. unfold put_draft. case_match; auto. Qed.

Lemma put_drafts_NoDup drafts next : NoDup (jkeys next) → NoDup (jkeys (foldl put_draft next drafts)).
Proof. revert next. induction drafts as [|p drafts IH]; intros next HN; [done|]. by apply IH, put_draft_NoDup. Qed.

Lemma picks_wf diffs m l d : known_diffs diffs → Forall (cell_offers diffs) l → wf_or_empty d → wf_or_empty (picks diffs m l d).
Proof.
  intros Hd Hl. revert d. induction Hl as [|x l Hx _ IH]; intros d Hwf; [done|]. cbn [picks foldl]. apply IH.
  case_decide; [|done]. right. by apply pick_wf.
Qed.

Lemma select_ok s l : page_ok s → Forall (cell_offers (differences s)) l →
  page_ok (setResolutions (applyResolutionSelections (resolutions s) (differences s) l) s).
Proof.
  intros [Hd HN Hwf] Hl. split; cbn; [done|..].
  - unfold applyResolutionSelections. destruct l; [done|]. by apply put_drafts_NoDup.
  - intros m r. rewrite selections_get. case_decide as Hm; [|by apply Hwf]. intros [= <-].
    destruct (picks_wf (differences s) m l (default [] (jget m (resolutions s)))) as [Hp|Hp]; [done|done| | |done].
    + destruct (jget m (resolutions s)) as [r|] eqn:Er; [right; by apply (Hwf m)|by left].
    + exfalso. revert Hp. apply picks_not_nil. by left.
Qed.

Lemma unselect_ok s plan : page_ok s → NoDup (jkeys plan) →
  page_ok (setResolutions (applyResolutionRemovalPlan (resolutions s) plan) s).
Proof.
  intros [Hd HN Hwf] Hplan. split; cbn; [done|..].
  - unfold applyResolutionRemovalPlan. generalize (resolutions s) at 1 as base. clear Hplan. revert HN. generalize (resolutions s) as next.
    induction plan as [|p plan IH]; intros next HN base; [done|]. cbn [foldl]. apply IH. case_match; [by apply put_draft_NoDup|done].
  - intros m r. rewrite removal_plan_get by done. destruct (jget m plan) as [rts|]; [|destruct (jget m (resolutions s)) eqn:E; [|done]; intros [= <-]; by apply (Hwf m)].
    destruct (jget m (resolutions s)) as [d|] eqn:Ed; [|done]. pose proof (remove_fields_wf rts d (Hwf m d Ed)) as [E|Hr]; [by rewrite E|].
    destruct (foldl remove_field d rts) eqn:E; [done|]. by intros [= <-].
Qed.

(** A field that is resolved goes. *)
Definition resolve_field (m : jsstring) (d : DifferencesMap) (rt : RatioType) : DifferencesMap :=
  match jget m d with
  | Some rts => if jhas rt rts then match jdel rt rts with [] => jdel m d | rest => jset m rest d end else d
  | None => d
  end.

Lemma resolve_field_known m d rt : known_diffs d → known_diffs (resolve_field m d rt).
Proof.
  intros [HN Hk]. unfold resolve_field. destruct (jget m d) as [rts|] eqn:E; [|done]. case_match; [|done].
  assert (NoDup (jkeys (jdel rt rts)) ∧ jkeys (jdel rt rts) ⊆ SYNC_FIELD_ORDER) as Hrest.
  { destruct (Hk m rts E) as [HN' Hs]. split; [auto|]. intros q (p & -> & Hp)%list_elem_of_fmap.
    apply list_elem_of_filter in Hp as [_ Hp]. apply Hs. by apply list_elem_of_fmap_2. }
  destruct (jdel rt rts) as [|p rest] eqn:Er.
  - split; [auto|]. intros k r. rewrite jget_jdel. case_decide; [done|]. apply Hk.
  - split; [auto|]. intros k r. rewrite jget_jset. case_decide; [by intros [= <-]|apply Hk].
Qed.

Lemma resolved_known rs diffs : known_diffs diffs → known_diffs (resolved_diffs rs diffs).
Proof.
  revert diffs. induction rs as [|[m r] rs IH]; intros d Hd; [done|]. cbn [resolved_diffs foldl]. apply IH. cbn [fst snd].
  change (known_diffs (foldl (resolve_field m) d (jkeys r))). revert d Hd.
  induction (jkeys r) as [|rt rts IHr]; intros d Hd; [done|]. cbn [foldl]. by apply IHr, resolve_field_known.
Qed.

Lemma page_ok_same f s : differences (f s) = differences s → resolutions (f s) = resolutions s → page_ok s → page_ok (f s).
Proof. intros E1 E2 [H1 H2 H3]. split; by rewrite ?E1, ?E2. Qed.

Lemma page_ok_reset s diffs : known_diffs diffs → page_ok (setResolutions [] (setDifferences diffs s)).
Proof. intros Hd. split; [done|by apply NoDup_nil_2|done]. Qed.

Lemma answered_ok b s : page_ok s → page_ok (dialog_answered b s).
Proof. intros Hs. unfold dialog_answered. destruct Hs, (syncing s) as [[]|], b; by split. Qed.

Lemma perform_ok ratios b s : page_ok s → page_ok (performSync ratios b s).1.
Proof. intros Hs. unfold performSync. destruct (finalRatios _ _); by apply page_ok_same. Qed.

Lemma handle_ok e s : page_ok s → enabled e s → page_ok (handle e s).1.
Proof.
  intros Hs He. pose proof (p_diffs s Hs) as Hd. destruct e; cbn [handle].
  - unfold fetched. rewrite !seq_fst. cbn. by apply page_ok_reset.
  - apply (select_ok s [x]); [done|]. by apply Forall_singleton.
  - apply select_ok; [done|]. destruct (bulk_offers (differences s) search filter_ upstream Hd) as [Hc _].
    apply Forall_forall. intros x Hx. apply (proj1 (Forall_forall _ _) Hc). by apply (effective_agrees _ _ Hd Hc).
  - apply (unselect_ok s (plan_add [] (mkRemoval m rt))); [done|]. by apply plan_add_NoDup, NoDup_nil_2.
  - apply unselect_ok; [done|]. apply (plan_adds_NoDup (λ x, mkRemoval (s_model x) (s_ratioType x))). by apply NoDup_nil_2.
  - unfold handleApplySync. destruct (conflicts_of _ _ _) as [[|c items]|err]; [|by apply page_ok_same|done].
    rewrite seq_fst. by apply perform_ok.
  - unfold handleConfirmConflict. rewrite seq_fst. apply perform_ok. by apply page_ok_same.
  - by apply page_ok_same.
  - unfold sync_succeeded. rewrite !seq_fst. apply answered_ok. cbn. by apply page_ok_reset, resolved_known.
  - unfold sync_failed. rewrite !seq_fst. by apply answered_ok.
Qed.

Lemma page_reachable ls s : reaches step init ls s → page_ok s.
Proof.
  apply (reaches_inv step page_ok).
  - intros s1 [e os] s2 Hs [He Hh]. cbn in He, Hh. assert (s2 = (handle e s1).1) as -> by by rewrite Hh. by apply handle_ok.
  - split; [|by apply NoDup_nil_2|done]. split; [by apply NoDup_nil_2|done].
Qed.

(** C15: whatever the administrator picks, one value at a time or a site at a time, and takes
    back, the picks of a model are never a fixed price together with ratios, an expression
    is never picked without its mode, and no model is left with no picks at all. *)
Theorem picks_one_family ls s m r : reaches step init ls s → jget m (resolutions s) = Some r →
  r ≠ [] ∧
  (is_Some (jget (js "model_price") r) → ∀ rt, rt ∈ RATIO_SYNC_FIELDS → jget rt r = None) ∧
  (is_Some (jget EXPR r) → is_Some (jget MODE r)).
Proof.
  intros Hs%page_reachable Hr. destruct (p_wf s Hs m r Hr) as [Hne (c & Hc & Hf) Hm _ _]. split_and!; [done| |done].
  intros Hp rt Hrt. destruct (jget rt r) eqn:E; [|done]. exfalso.
  assert (getBillingCategory rt = ratio) as Hcat.
  { clear E. revert rt Hrt. apply Forall_forall. apply (bool_decide_unpack _). by vm_compute. }
  destruct (Hf rt) as [|E1]; [by rewrite E|congruence|]. destruct (Hf (js "model_price") Hp) as [|E2]; [done|].
  rewrite Hcat in E1. by rewrite <- E1 in E2.
Qed.

(** ** What is written *)
Lemma option_keys : optionKeyBySyncField <$> SYNC_FIELD_ORDER = OPTION_KEYS.
Proof. by vm_compute. Qed.

Lemma ratio_keys : take 7 OPTION_KEYS = optionKeyBySyncField <$> RATIO_SYNC_FIELDS.
Proof. by vm_compute. Qed.

Lemma option_key_inj q q' : q ∈ SYNC_FIELD_ORDER → q' ∈ SYNC_FIELD_ORDER →
  optionKeyBySyncField q = optionKeyBySyncField q' → q = q'.
Proof.
  intros Hq Hq'. assert (Forall (λ q, Forall (λ q', optionKeyBySyncField q = optionKeyBySyncField q' → q = q') SYNC_FIELD_ORDER)
    SYNC_FIELD_ORDER) as Hall by (apply (bool_decide_unpack _); by vm_compute).
  rewrite Forall_forall in Hall. specialize (Hall q Hq). rewrite Forall_forall in Hall. by apply Hall.
Qed.

Lemma ratio_known q : q ∈ RATIO_SYNC_FIELDS → q ∈ SYNC_FIELD_ORDER.
Proof. intros Hq. unfold SYNC_FIELD_ORDER. apply elem_of_app. by left. Qed.

(** The value of a field of a model. *)
Definition field_of (m : OptionMaps) (q : RatioType) (mo : jsstring) : option jsval :=
  jget (optionKeyBySyncField q) m ≫= jget mo.

Lemma known_option (m : OptionMaps) q : jkeys m = OPTION_KEYS → q ∈ SYNC_FIELD_ORDER → is_Some (jget (optionKeyBySyncField q) m).
Proof. intros Hm Hq. apply jget_is_Some. rewrite Hm, <- option_keys. by apply list_elem_of_fmap_2. Qed.

Lemma jkeys_present {K V} `{EqDecision K} (k : K) (x : V) (m : list (K * V)) : is_Some (jget k m) → jkeys (jset k x m) = jkeys m.
Proof.
  intros Hk. rewrite jkeys_jset. unfold set_add, set_has. rewrite bool_decide_true; [done|]. by apply jget_is_Some.
Qed.

Lemma delete_field m q mo : jkeys m = OPTION_KEYS → q ∈ SYNC_FIELD_ORDER →
  let m' := alter_option (optionKeyBySyncField q) (jdel mo) m in
  jkeys m' = OPTION_KEYS ∧ ∀ q' mo', q' ∈ SYNC_FIELD_ORDER →
    field_of m' q' mo' = if decide (q' = q ∧ mo' = mo) then None else field_of m q' mo'.
Proof.
  intros Hm Hq m'. destruct (known_option m q Hm Hq) as [x Hx]. unfold m', alter_option. rewrite Hx. split.
  - by rewrite jkeys_present.
  - intros q' mo' Hq'. unfold field_of. rewrite jget_jset. destruct (decide (q' = q)) as [->|Hne].
    + rewrite decide_True by done. rewrite Hx. cbn. rewrite jget_jdel. repeat case_decide; naive_solver.
    + rewrite decide_False by (intros E; apply Hne; symmetry; by apply option_key_inj). by rewrite decide_False by naive_solver.
Qed.

Lemma delete_fields qs mo m : jkeys m = OPTION_KEYS → (∀ q, q ∈ qs → q ∈ SYNC_FIELD_ORDER) →
  let m' := foldl (λ m k, alter_option k (jdel mo) m) m (optionKeyBySyncField <$> qs) in
  jkeys m' = OPTION_KEYS ∧ ∀ q' mo', q' ∈ SYNC_FIELD_ORDER →
    field_of m' q' mo' = if decide (q' ∈ qs ∧ mo' = mo) then None else field_of m q' mo'.
Proof.
  revert m. induction qs as [|q qs IH]; intros m Hm Hqs; cbn [fmap list_fmap foldl].
  { split; [done|]. intros q' mo' _. by rewrite decide_False by (by intros [?%not_elem_of_nil _]). }
  destruct (delete_field m q mo Hm) as [Hk Hf]; [apply Hqs; left|].
  destruct (IH (alter_option (optionKeyBySyncField q) (jdel mo) m)) as [Hk' Hf']; [done|intros; apply Hqs; by right|].
  split; [done|]. intros q' mo' Hq'. rewrite Hf', Hf by done. repeat case_decide; set_solver.
Qed.

(** The fields of a pick. *)
Lemma write_fields_ok mo r m : jkeys m = OPTION_KEYS → NoDup (jkeys r) → (∀ q, q ∈ jkeys r → q ∈ SYNC_FIELD_ORDER) →
  ∃ m', write_fields mo r m = Ok m' ∧ jkeys m' = OPTION_KEYS ∧ ∀ q mo', q ∈ SYNC_FIELD_ORDER →
    field_of m' q mo' = if decide (mo' = mo) then match jget q r with Some v => Some (written q v) | None => field_of m q mo' end
                        else field_of m q mo'.
Proof.
  unfold write_fields. revert m. induction r as [|[rt v] r IH]; intros m Hm HN Hk.
  { exists m. split_and!; [done|done|]. intros. by case_decide. }
  apply NoDup_cons in HN as [Hrt HN]. cbn [foldl fst snd mbind res_bind].
  destruct (known_option m rt Hm) as [x Hx]; [apply Hk; left|]. rewrite Hx.
  set (m1 := jset _ _ m). destruct (IH m1) as (m' & E & Hk' & Hf); [by unfold m1; rewrite jkeys_present|done|intros; apply Hk; by right|].
  exists m'. split_and!; [done|done|]. intros q mo' Hq. rewrite Hf by done. cbn [jget].
  assert (field_of m1 q mo' = if decide (q = rt ∧ mo' = mo) then Some (written rt v) else field_of m q mo') as Hm1.
  { unfold field_of, m1. rewrite jget_jset. destruct (decide (q = rt)) as [->|Hne].
    - rewrite decide_True by done. rewrite Hx. cbn. rewrite jget_jset. repeat case_decide; naive_solver.
    - rewrite decide_False; [by rewrite decide_False by naive_solver|]. intros E'. apply Hne. symmetry.
      apply option_key_inj; [apply Hk; left|done|done]. }
  rewrite Hm1. destruct (decide (q = rt)) as [->|Hne].
  - assert (jget rt r = None) as -> by by apply jget_None. repeat case_decide; naive_solver.
  - rewrite (decide_False (P := q = rt ∧ _)) by naive_solver. done.
Qed.

(** Whether the picks of a model remove a field of it. *)
Definition removes (r : ModelResolution) (q : RatioType) : bool :=
  (jhas (js "model_price") r && bool_decide (q ∈ RATIO_SYNC_FIELDS)) || (has_ratio r && bool_decide (q = js "model_price")).

(** The value of a field once the picks are written. *)
Definition after_write (r : option ModelResolution) (q : RatioType) (old : option jsval) : option jsval :=
  match r with
  | None => old
  | Some r => match jget q r with Some v => Some (written q v) | None => if removes r q then None else old end
  end.

Lemma sync_model_ok m mo r : jkeys m = OPTION_KEYS → NoDup (jkeys r) → (∀ q, q ∈ jkeys r → q ∈ SYNC_FIELD_ORDER) →
  ∃ m', sync_model m (mo, r) = Ok m' ∧ jkeys m' = OPTION_KEYS ∧ ∀ q mo', q ∈ SYNC_FIELD_ORDER →
    field_of m' q mo' = if decide (mo' = mo) then after_write (Some r) q (field_of m q mo') else field_of m q mo'.
Proof.
  intros Hm HN Hk. unfold sync_model. cbv zeta.
  set (m1 := if jhas (js "model_price") r then _ else m).
  assert (jkeys m1 = OPTION_KEYS ∧ ∀ q mo', q ∈ SYNC_FIELD_ORDER →
    field_of m1 q mo' = if decide (jhas (js "model_price") r = true ∧ q ∈ RATIO_SYNC_FIELDS ∧ mo' = mo) then None else field_of m q mo') as [Hk1 Hf1].
  { unfold m1. rewrite ratio_keys. destruct (jhas (js "model_price") r).
    - destruct (delete_fields RATIO_SYNC_FIELDS mo m Hm ratio_known) as [H1 H2]. split; [done|]. intros q mo' Hq. rewrite H2 by done.
      repeat case_decide; naive_solver.
    - split; [done|]. intros. by rewrite decide_False by naive_solver. }
  set (m2 := if has_ratio r then _ else m1).
  assert (jkeys m2 = OPTION_KEYS ∧ ∀ q mo', q ∈ SYNC_FIELD_ORDER →
    field_of m2 q mo' = if decide (has_ratio r = true ∧ q = js "model_price" ∧ mo' = mo) then None else field_of m1 q mo') as [Hk2 Hf2].
  { unfold m2. destruct (has_ratio r).
    - destruct (delete_field m1 (js "model_price") mo Hk1) as [H1 H2]; [by apply (bool_decide_unpack _); vm_compute|].
      change (optionKeyBySyncField (js "model_price")) with (js "ModelPrice") in *.
      split; [done|]. intros q mo' Hq. rewrite H2 by done. repeat case_decide; naive_solver.
    - split; [done|]. intros. by rewrite decide_False by naive_solver. }
  destruct (write_fields_ok mo r m2 Hk2 HN Hk) as (m' & E & Hk' & Hf). exists m'. split_and!; [done|done|].
  intros q mo' Hq. rewrite Hf, Hf2, Hf1 by done. unfold after_write, removes. destruct (decide (mo' = mo)) as [->|Hmo].
  - destruct (jget q r); [done|]. destruct (jhas (js "model_price") r), (has_ratio r); cbn [andb orb];
      repeat case_bool_decide; repeat case_decide; naive_solver.
  - by rewrite !decide_False by naive_solver.
Qed.

Lemma final_ok rs m : jkeys m = OPTION_KEYS → NoDup (jkeys rs) → (∀ mo r, (mo, r) ∈ rs → wf_resolution r) →
  ∃ m', foldl (λ acc p, m ← acc; sync_model m p) (Ok m) rs = Ok m' ∧ jkeys m' = OPTION_KEYS ∧
    ∀ q mo, q ∈ SYNC_FIELD_ORDER → field_of m' q mo = after_write (jget mo rs) q (field_of m q mo).
Proof.
  revert m. induction rs as [|[mo r] rs IH]; intros m Hm HN Hwf; [by exists m|]. apply NoDup_cons in HN as [Hmo HN]. cbn [foldl mbind res_bind].
  destruct (Hwf mo r) as [_ _ _ Hk HNr]; [left|].
  destruct (sync_model_ok m mo r Hm HNr) as (m1 & E1 & Hk1 & Hf1); [intros q Hq; by apply Hk, jget_is_Some|]. rewrite E1.
  destruct (IH m1 Hk1 HN) as (m' & E & Hk' & Hf); [intros; apply (Hwf mo0); by right|]. exists m'. split_and!; [done|done|].
  intros q k Hq. rewrite Hf, Hf1 by done. cbn [jget]. destruct (decide (k = mo)) as [->|]; [|done].
  by assert (jget mo rs = None) as -> by by apply jget_None.
Qed.

Lemma jget_tabulated {K V} `{EqDecision K} (g : K → V) (l : list K) k : k ∈ l → jget k ((λ k, (k, g k)) <$> l) = Some (g k).
Proof.
  induction l as [|x l IH]; intros Hk; [by apply not_elem_of_nil in Hk|]. cbn [fmap list_fmap jget].
  case_decide as E; [by subst|]. apply IH. by apply elem_of_cons in Hk as [].
Qed.

(** What an option says of a field of a model. *)
Definition stored (texts : jsstring → jsstring) (q : RatioType) (mo : jsstring) : option jsval :=
  jget mo (spread (parseJsonRecord (texts (optionKeyBySyncField q)))).

Lemma parsed_field texts q mo : q ∈ SYNC_FIELD_ORDER → field_of (prod_map id spread <$> parsedRatios texts) q mo = stored texts q mo.
Proof.
  intros Hq. unfold field_of, stored. rewrite jget_fmap. unfold parsedRatios. rewrite (jget_tabulated (λ k, parseJsonRecord (texts k))); [done|].
  rewrite <- option_keys. by apply list_elem_of_fmap_2.
Qed.

(** C16: applying writes exactly the picks.  In every state of the page the ten options are
    written, none forgotten: a picked field of a model gets its value (as a number, for a
    number field), the other way of billing loses its fields for that model, and every other
    field of every model is as it was stored. *)
Theorem sync_writes_picks ls s texts : reaches step init ls s →
  ∃ m, finalRatios (parsedRatios texts) (resolutions s) = Ok m ∧ jkeys m = OPTION_KEYS ∧
    ∀ q mo, q ∈ SYNC_FIELD_ORDER → field_of m q mo = after_write (jget mo (resolutions s)) q (stored texts q mo).
Proof.
  intros Hs%page_reachable. unfold finalRatios.
  destruct (final_ok (resolutions s) (prod_map id spread <$> parsedRatios texts)) as (m & E & Hk & Hf); [by vm_compute|by apply p_NoDup| |].
  - intros mo r Hr. apply (p_wf s Hs mo). apply elem_of_jget; [by apply p_NoDup|done].
  - exists m. split_and!; [done|done|]. intros q mo Hq. by rewrite Hf, parsed_field.
Qed.

(** ** Asking first *)
Lemma no_conflicts ratios diffs rs : conflicts_of ratios diffs rs = Ok [] → ∀ p, p ∈ rs → conflict_of ratios diffs p = Ok None.
Proof.
  assert (∀ cs, mapM (conflict_of ratios diffs) rs = Ok cs → omap id cs = [] → ∀ p, p ∈ rs → conflict_of ratios diffs p = Ok None) as Hall.
  { induction rs as [|x rs IH]; intros cs E Hcs p Hp; [by apply not_elem_of_nil in Hp|]. cbn in E.
    destruct (conflict_of ratios diffs x) as [c|] eqn:Ex; [|done]. cbn in E.
    destruct (mapM (conflict_of ratios diffs) rs) as [cs'|]; [|done]. injection E as <-. destruct c as [c|]; [done|].
    apply elem_of_cons in Hp as [->|Hp]; [done|]. by apply (IH cs'). }
  unfold conflicts_of. intros E. destruct (mapM (conflict_of ratios diffs) rs) as [cs|]; [|done]. injection E as E. by apply (Hall cs).
Qed.

Lemma record_get_stored texts (k : string) q mo v : q ∈ SYNC_FIELD_ORDER → optionKeyBySyncField q = js k →
  record_get k mo (parsedRatios texts) = Ok v → v = default JUndef (stored texts q mo).
Proof.
  intros Hq Ek. unfold record_get, parsedRatios. rewrite (jget_tabulated (λ k, parseJsonRecord (texts k))).
  - unfold stored. rewrite Ek. by destruct (parseJsonRecord _); intros [= <-].
  - rewrite <- Ek, <- option_keys. by apply list_elem_of_fmap_2.
Qed.

Lemma any_ratio_spec texts mo c qs ks : any_ratio mo (parsedRatios texts) ks = Ok c →
  Forall2 (λ q k, q ∈ SYNC_FIELD_ORDER ∧ optionKeyBySyncField q = js k) qs ks →
  c ≠ Some price ∧ (c = None → ∀ q, q ∈ qs → is_undef (default JUndef (stored texts q mo)) = true).
Proof.
  intros E Hqk. revert E. induction Hqk as [|q k qs ks [Hq Hk] _ IH]; cbn [any_ratio].
  { intros [= <-]. split; [done|]. by intros _ ? ?%not_elem_of_nil. }
  destruct (record_get k mo _) as [v|] eqn:Ev; [|done]. apply (record_get_stored texts _ q) in Ev as ->; [|done|done]. cbn [mbind res_bind].
  destruct (is_undef (default JUndef (stored texts q mo))) eqn:Eq; [|by intros [= <-]].
  intros E. destruct (IH E) as [H1 H2]. split; [done|]. intros Hc q' [->|Hq']%elem_of_cons; [done|by apply H2].
Qed.

(** The way a model is billed now. *)
Lemma local_category texts mo c : getLocalBillingCategory mo (parsedRatios texts) = Ok c →
  (c = Some price ↔ is_undef (default JUndef (stored texts (js "model_price") mo)) = false) ∧
  (c = None → ∀ q, q ∈ RATIO_SYNC_FIELDS → is_undef (default JUndef (stored texts q mo)) = true).
Proof.
  unfold getLocalBillingCategory. intros E.
  destruct (record_get "ModelPrice" mo (parsedRatios texts)) as [p|] eqn:Ep; [|done]. cbn [mbind res_bind] in E.
  apply (record_get_stored texts _ (js "model_price")) in Ep as ->; [|by apply (bool_decide_unpack _); vm_compute|by vm_compute].
  destruct (is_undef (default JUndef (stored texts (js "model_price") mo))).
  - apply (any_ratio_spec texts mo c RATIO_SYNC_FIELDS) in E as [H1 H2]; [by split|].
    repeat constructor; by apply (bool_decide_unpack _); vm_compute.
  - injection E as <-. by split.
Qed.

(** Nothing is dropped unasked.  When applying goes on without the dialog, a stored value
    is removed only if it is a ratio of a model that has a fixed price stored as well, and a
    fixed price is picked for it. *)
Theorem sync_asks_first ls s texts s' os ups : reaches step init ls s →
  handle (ApplySync (parsedRatios texts)) s = (s', os) → updateOptions ups ∈ os →
  ∃ m, ups = updates_of m ∧ ∀ q mo old, q ∈ SYNC_FIELD_ORDER → stored texts q mo = Some old → old ≠ JUndef →
    field_of m q mo = None →
    q ∈ RATIO_SYNC_FIELDS ∧ is_undef (default JUndef (stored texts (js "model_price") mo)) = false ∧
    ∃ r, jget mo (resolutions s) = Some r ∧ is_Some (jget (js "model_price") r).
Proof.
  intros Hs Hh Hup. pose proof (page_reachable ls s Hs) as Hok.
  destruct (final_ok (resolutions s) (prod_map id spread <$> parsedRatios texts)) as (m & E & _ & Hf); [by vm_compute|by apply p_NoDup| |].
  { intros mo r Hr. apply (p_wf s Hok mo). apply elem_of_jget; [by apply p_NoDup|done]. }
  cbn [handle] in Hh. unfold handleApplySync in Hh. destruct (conflicts_of _ _ _) as [[|c items]|e] eqn:Ec; [|set_solver..].
  unfold seq_act, emit, performSync, finalRatios in Hh. rewrite E in Hh. injection Hh as <- <-. exists m.
  split; [set_solver|]. intros q mo old Hq Hold Hne Hnone. rewrite Hf, parsed_field, Hold in Hnone by done.
  destruct (jget mo (resolutions s)) as [r|] eqn:Er; [|done]. cbn in Hnone. destruct (jget q r) eqn:Eqr; [done|].
  destruct (removes r q) eqn:Erm; [|done].
  pose proof (no_conflicts _ _ _ Ec (mo, r) (jget_elem_of _ _ _ Er)) as Hc. unfold conflict_of in Hc.
  destruct (getLocalBillingCategory mo (parsedRatios texts)) as [c|] eqn:El; [|done]. destruct (local_category texts mo c El) as [H1 H2].
  cbn [mbind res_bind] in Hc. assert (is_undef (default JUndef (stored texts q mo)) = false) as Hdef by (rewrite Hold; by destruct old).
  unfold removes in Erm. apply orb_true_iff in Erm as [[Hp Hr]%andb_true_iff|[Hr Hp]%andb_true_iff]; apply bool_decide_eq_true in Hr || apply bool_decide_eq_true in Hp.
  - split; [done|]. assert (new_category r = price) as Hcat by (unfold new_category; by rewrite Hp). split.
    + apply H1. destruct c as [c|]; [|by rewrite (H2 eq_refl q Hr) in Hdef]. rewrite Hcat in Hc.
      destruct (decide (price = tiered ∨ c = price)) as [[|]|]; [done|congruence|]. by destruct (record_get "ModelPrice" _ _), (record_get "ModelRatio" _ _), (record_get "CompletionRatio" _ _).
    + exists r. split; [done|]. unfold jhas in Hp. destruct (jget (js "model_price") r); [by eexists|done].
  - subst q. assert (c = Some price) as -> by by apply H1. assert (new_category r = ratio) as Hcat.
    { unfold new_category, jhas. by rewrite Eqr, Hr. }
    rewrite Hcat in Hc. destruct (decide (ratio = tiered ∨ price = ratio)) as [[|]|]; [done..|]. by destruct (record_get "ModelPrice" _ _), (record_get "ModelRatio" _ _), (record_get "CompletionRatio" _ _).
Qed.

(** ** A concrete page *)
Definition site : jsstring := js "site".
Definition entry_of (v : jsval) : RatioDifferenceEntry := mkEntry JNull [(site, v)] [(site, true)].
Definition sample_diffs : DifferencesMap := [
  (js "gpt", [(js "model_ratio", entry_of (JNum (num_of_Z 2))); (js "cache_ratio", entry_of (JStr (js "0.5")))]);
  (js "mid", [(js "model_ratio", entry_of (JNum (num_of_Z 3))); (js "model_price", entry_of (JNum (num_of_Z 1)))]);
  (js "claude", [(js "model_ratio", entry_of (JNum (num_of_Z 4))); (EXPR, entry_of (JStr (js "tier(1)")))])].
Definition sample_events : list Event := [Fetched sample_diffs []; BulkSelect [] [] site].
Definition sample_page : Sync := run_after handle sample_events init.
Definition sample_texts (k : jsstring) : jsstring := if decide (k = js "ModelRatio") then JSON_stringify 0 (JObj [(js "gpt", JNum (num_of_Z 1))]) else [].

Lemma sample_known : known_diffs sample_diffs.
Proof.
  split; [by apply (bool_decide_unpack _); vm_compute|]. intros m rts Hm%jget_elem_of.
  assert (Forall (λ p, NoDup (jkeys p.2) ∧ jkeys p.2 ⊆ SYNC_FIELD_ORDER) sample_diffs) as Hall.
  { unfold sample_diffs. rewrite !Forall_cons. split_and!; try by apply (bool_decide_unpack _); vm_compute.
    all: first [by apply Forall_nil|intros q Hq; revert q Hq; apply Forall_forall; by apply (bool_decide_unpack _); vm_compute]. }
  exact (proj1 (Forall_forall _ _) Hall (m, rts) Hm).
Qed.

Lemma sample_reached : reaches step init (run_trace handle sample_events init) sample_page.
Proof. apply run_reaches. split; [apply sample_known|]. by split. Qed.


Lemma picks_one_family_witness : ∃ r, jget (js "mid") (resolutions sample_page) = Some r ∧ jget (js "model_ratio") r = None.
Proof.
  destruct (jget (js "mid") (resolutions sample_page)) as [r|] eqn:E; [|by vm_compute in E]. exists r. split; [done|].
  destruct (picks_one_family _ sample_page (js "mid") r sample_reached E) as (_ & H & _). apply H.
  - vm_compute in E. injection E as <-. by eexists.
  - left.
Defined.

Lemma sync_writes_picks_witness : ∃ m, finalRatios (parsedRatios sample_texts) (resolutions sample_page) = Ok m ∧
  field_of m (js "model_ratio") (js "gpt") = Some (JNum (num_of_Z 2)).
Proof.
  destruct (sync_writes_picks _ sample_page sample_texts sample_reached) as (m & E & _ & Hf). exists m. split; [done|].
  rewrite Hf by left. by vm_compute.
Defined.

Lemma sync_asks_first_witness : ∃ ups m, updateOptions ups ∈ (handle (ApplySync (parsedRatios sample_texts)) sample_page).2 ∧
  ups = updates_of m ∧ field_of m (js "model_ratio") (js "gpt") ≠ None.
Proof.
  destruct (handle (ApplySync (parsedRatios sample_texts)) sample_page) as [s' os] eqn:E.
  assert (∃ ups, updateOptions ups ∈ os) as [ups Hup].
  { vm_compute in E. injection E as <- <-. eexists. right. left. }
  destruct (sync_asks_first _ sample_page sample_texts s' os ups sample_reached E Hup) as (m & Em & Hm). exists ups, m.
  split_and!; [done|done|]. intros Hnone. destruct (Hm (js "model_ratio") (js "gpt") (JNum (num_of_Z 1))) as (_ & H & _).
  - left.
  - by vm_compute.
  - done.
  - done.
  - by vm_compute in H.
Defined.
