(* ===== verification/Navigation.v ===== *)
(** Navigation of the console: which links and pages a user sees and may open.

    lib/roles.ts, lib/admin-permissions.ts, lib/nav-modules.ts, hooks/use-sidebar-config.ts,
    hooks/use-sidebar-data.ts, hooks/use-sidebar-view.ts, hooks/use-top-nav-links.ts and the
    guards (beforeLoad) of the routes that the sidebar links to.

    Settings of the server and of the user are texts with JSON in them, so that what is read
    out of them may be of any type.  Icons and badges are left out; titles are given by the
    keys of their translations. *)
From S2P Require Import Prelude JsString JsValue Json JsPrint JsNumber JsonQuote JsonPrint JsDynamic AuthSession.
Local Open Scope nat_scope.

(** ** Roles and permissions *)
Definition GUEST : Z := 0.
Definition USER : Z := 1.
Definition ADMIN : Z := 10.
Definition SUPER_ADMIN : Z := 100.
Definition ROLES : list Z := [GUEST; USER; ADMIN; SUPER_ADMIN].

Definition getRoleLabelKey (role : option Z) : jsstring :=
  match role with
  | Some r => if decide (r = SUPER_ADMIN) then js "Super Admin" else if decide (r = ADMIN) then js "Admin"
              else if decide (r = USER) then js "User" else js "Guest"
  | None => js "Guest"
  end.

(** [user.role >= n], [user.role < n] and [user.role === n]. *)
Definition role_geb (u : AuthUser) (n : Z) : bool := num_leb (num_of_Z n) (role u).
Definition role_ltb (u : AuthUser) (n : Z) : bool := num_ltb (role u) (num_of_Z n).
Definition role_eqb (u : AuthUser) (n : Z) : bool := num_eqb (role u) (num_of_Z n).

Definition hasPermission (user : option AuthUser) (resource action : jsstring) : bool :=
  match user with
  | None => false
  | Some u =>
      role_eqb u SUPER_ADMIN ||
      match own action (own resource (prop "admin_permissions" (prop "permissions" (user_value u)))) with
      | JBool b => b
      | _ => false
      end
  end.

Abbreviation AdminPermissionMatrix := (list (jsstring * list (jsstring * bool))).
Record PermissionActionDef := mkAction { action : jsstring; a_label_key : jsstring; a_description_key : jsstring }.
Record PermissionResourceDef := mkResource { resource : jsstring; r_label_key : jsstring; actions : list PermissionActionDef }.
Record PermissionRoleDef := mkRole {
  r_key : jsstring; r_name : jsstring; built_in : bool; superuser : bool; grants : AdminPermissionMatrix }.
Record PermissionCatalog := mkCatalog { resources : list PermissionResourceDef; roles : list PermissionRoleDef }.

Definition roleGrants (catalog : PermissionCatalog) (roleKey : jsstring) : AdminPermissionMatrix :=
  match list_find (λ r, r_key r = roleKey) (roles catalog) with Some (_, r) => grants r | None => [] end.

(** [matrix[resource]?.[action]]. *)
Definition granted (m : AdminPermissionMatrix) (r a : jsstring) : option bool := jget r m ≫= jget a.

Definition normalized_actions (value : option AdminPermissionMatrix) (baseline : AdminPermissionMatrix)
    (r : PermissionResourceDef) : list (jsstring * bool) :=
  foldl (λ m a, jset (action a)
    (match value ≫= λ v, granted v (resource r) (action a) with
     | Some b => b
     | None => default false (granted baseline (resource r) (action a))
     end) m) [] (actions r).
Definition normalizeAdminPermissions (value : option AdminPermissionMatrix) (catalog : PermissionCatalog) : AdminPermissionMatrix :=
  let baseline := roleGrants catalog (js "admin") in
  foldl (λ m r, jset (resource r) (normalized_actions value baseline r) m) [] (resources catalog).

(** ** Modules of the header *)
Record ModuleAccess := mkAccess { enabled : bool; requireAuth : bool }.
Inductive NavValue := NavBool (b : bool) | NavAccess (a : ModuleAccess).
Abbreviation HeaderNavModules := (list (jsstring * NavValue)).
Inductive HeaderNavModule := pricing | rankings.
Definition module_key (m : HeaderNavModule) : jsstring := match m with pricing => js "pricing" | rankings => js "rankings" end.

Definition open_access : ModuleAccess := mkAccess true false.
Definition DEFAULT_HEADER_NAV_MODULES : HeaderNavModules := [
  (js "home", NavBool true); (js "console", NavBool true); (js "pricing", NavAccess open_access);
  (js "rankings", NavAccess open_access); (js "docs", NavBool true); (js "about", NavBool true)].

Definition parseHeaderNavBoolean (raw : jsval) (fallback : bool) : bool :=
  match raw with
  | JBool b => b
  | JNum _ => if is_num_lit raw 1 then true else if is_num_lit raw 0 then false else fallback
  | JStr s =>
      let normalized := to_lower (trim s) in
      if bool_decide (normalized = js "true") || bool_decide (normalized = js "1") then true
      else if bool_decide (normalized = js "false") || bool_decide (normalized = js "0") then false
      else fallback
  | _ => fallback
  end.

Definition parseAccess (raw : jsval) (fallback : ModuleAccess) : ModuleAccess :=
  match raw with
  | JBool _ | JNum _ | JStr _ => mkAccess (parseHeaderNavBoolean raw (enabled fallback)) (requireAuth fallback)
  | JArr _ | JObj _ =>
      mkAccess (parseHeaderNavBoolean (prop "enabled" raw) (enabled fallback))
        (parseHeaderNavBoolean (prop "requireAuth" raw) (requireAuth fallback))
  | JNull | JUndef => fallback
  end.

Definition parseHeaderNavRecord (raw : jsval) : option jsval :=
  if negb (truthy raw) || bool_decide (trim (to_string raw) = []) then None
  else if is_object raw then Some raw
  else JSON_parse (to_string raw).

(** [result[key]] of a module with its own access. *)
Definition access_of (key : jsstring) (m : HeaderNavModules) : ModuleAccess :=
  match jget key m with Some (NavAccess a) => a | _ => open_access end.

Definition is_primitive (v : jsval) : bool := match v with JBool _ | JNum _ | JStr _ => true | _ => false end.

Definition header_entry (result : HeaderNavModules) (p : jsstring * jsval) : HeaderNavModules :=
  let '(key, value) := p in
  if decide (key = js "pricing" ∨ key = js "rankings")
  then jset key (NavAccess (parseAccess value (access_of key result))) result
  else
    match jget key result with
    | Some (NavBool fallback) => jset key (NavBool (parseHeaderNavBoolean value fallback)) result
    | _ => if is_primitive value then jset key (NavBool (parseHeaderNavBoolean value true)) result else result
    end.

Definition parseHeaderNavModules (raw : jsval) : HeaderNavModules :=
  match parseHeaderNavRecord raw with
  | Some parsed => if truthy parsed then foldl header_entry DEFAULT_HEADER_NAV_MODULES (spread parsed)
                   else DEFAULT_HEADER_NAV_MODULES
  | None => DEFAULT_HEADER_NAV_MODULES
  end.

(** A status is null or the object of the server; [status?.k]. *)
Definition parseHeaderNavModulesFromStatus (status : jsval) : HeaderNavModules :=
  parseHeaderNavModules (prop "HeaderNavModules" status).

Definition getModuleAccessFromStatus (status : jsval) (m : HeaderNavModule) : ModuleAccess :=
  match jget (module_key m) (parseHeaderNavModulesFromStatus status) with Some (NavAccess a) => a | _ => open_access end.

(** The text of the browser's storage: [None] when reading it throws. *)
Definition getCachedStatus (item : option (option jsstring)) : jsval :=
  match item with
  | Some (Some (c :: s)) => default JNull (JSON_parse (c :: s))
  | _ => JNull
  end.
Definition getModuleAccess (item : option (option jsstring)) (m : HeaderNavModule) : ModuleAccess :=
  getModuleAccessFromStatus (getCachedStatus item) m.

(** The answer of the server, or its failure. *)
Definition getFreshModuleAccess (answer : option jsval) (m : HeaderNavModule) : ModuleAccess :=
  match answer with Some status => getModuleAccessFromStatus status m | None => mkAccess false true end.

(** [v === true] and [v === false]. *)
Definition is_true (v : jsval) : bool := match v with JBool b => b | _ => false end.
Definition is_false (v : jsval) : bool := match v with JBool b => negb b | _ => false end.

(** What a section says of a module. *)
Definition section_open (sectionConfig : jsval) (module_ : jsstring) : bool :=
  negb (truthy sectionConfig) ||
  negb (is_false (own (js "enabled") sectionConfig)) && negb (is_false (own module_ sectionConfig)).

Definition isSidebarModuleEnabled (item : option (option jsstring)) (section module_ : jsstring) : bool :=
  let status := getCachedStatus item in
  if negb (truthy status) then true
  else
    let raw := prop "SidebarModulesAdmin" status in
    if negb (truthy raw) || bool_decide (trim (to_string raw) = []) then true
    else
      match JSON_parse (to_string raw) with
      | None | Some JNull | Some JUndef => true
      | Some parsed => section_open (own section parsed) module_
      end.

(** ** Modules of the sidebar *)
Abbreviation Section := (list (jsstring * jsval)).
Abbreviation SidebarModulesConfig := (list (jsstring * jsval)).

Definition all_on (keys : list string) : Section := (λ k, (js k, JBool true)) <$> keys.
Definition DEFAULT_SIDEBAR_MODULES : list (jsstring * Section) := (λ p, (js p.1, all_on p.2)) <$> [
  ("chat", ["enabled"; "playground"; "chat"]);
  ("console", ["enabled"; "detail"; "token"; "log"; "midjourney"; "task"]);
  ("personal", ["enabled"; "topup"; "personal"]);
  ("admin", ["enabled"; "channel"; "models"; "redemption"; "user"; "setting"; "subscription"])]%string.
Definition default_config : SidebarModulesConfig := prod_map id JObj <$> DEFAULT_SIDEBAR_MODULES.

(** [{...a, ...b}]. *)
Definition assign_all (a b : list (jsstring * jsval)) : list (jsstring * jsval) := foldl (λ m p, jset p.1 p.2 m) a b.

(** A section with the defaults for what it leaves out. *)
Definition merge_section (defaults : Section) (existing : jsval) : Section :=
  foldl (λ m p, match default JUndef (jget p.1 m) with JUndef => jset p.1 p.2 m | _ => m end)
    (assign_all defaults (spread existing)) defaults.

Definition mergeWithDefaultSidebarModules (config : jsval) : SidebarModulesConfig :=
  foldl (λ merged p,
    let existing := default JUndef (jget p.1 merged) in
    jset p.1 (JObj (if truthy existing then merge_section p.2 existing else p.2)) merged)
    (spread config) DEFAULT_SIDEBAR_MODULES.

Definition URL_TO_CONFIG_MAP : list (jsstring * (jsstring * jsstring)) := (λ p, (js p.1, (js p.2.1, js p.2.2))) <$> [
  ("/playground", ("chat", "playground")); ("/dashboard", ("console", "detail"));
  ("/dashboard/overview", ("console", "detail")); ("/dashboard/models", ("console", "detail"));
  ("/dashboard/users", ("console", "detail")); ("/keys", ("console", "token")); ("/usage-logs", ("console", "log"));
  ("/usage-logs/common", ("console", "log")); ("/usage-logs/drawing", ("console", "midjourney"));
  ("/usage-logs/task", ("console", "task")); ("/wallet", ("personal", "topup")); ("/profile", ("personal", "personal"));
  ("/channels", ("admin", "channel")); ("/models", ("admin", "models")); ("/models/metadata", ("admin", "models"));
  ("/models/deployments", ("admin", "models")); ("/users", ("admin", "user"));
  ("/redemption-codes", ("admin", "redemption")); ("/subscriptions", ("admin", "subscription"));
  ("/agent-plan-quota-pools", ("admin", "subscription")); ("/system-settings", ("admin", "setting"));
  ("/system-settings/site", ("admin", "setting"))]%string.

(** [!value || value.trim() === '']. *)
Definition no_text (value : jsval) : res js_error bool :=
  if truthy value then t ← call_trim value; Ok (bool_decide (t = [])) else Ok true.

Definition parseSidebarConfig (value : jsval) : res js_error SidebarModulesConfig :=
  none ← no_text value;
  if (none : bool) then Ok default_config
  else match JSON_parse (to_string value) with
       | Some parsed => Ok (mergeWithDefaultSidebarModules parsed)
       | None => Ok default_config
       end.

Definition parseUserSidebarConfig (value : jsval) : res js_error (option jsval) :=
  none ← no_text value;
  if (none : bool) then Ok None
  else match JSON_parse (to_string value) with
       | Some parsed => Ok (if is_object parsed then Some parsed else None)
       | None => Ok None
       end.

Definition admin_allows (config : SidebarModulesConfig) (section module_ : jsstring) : bool :=
  let s := default JUndef (jget section config) in
  truthy s && truthy (own (js "enabled") s) && is_true (own module_ s).
Definition user_hides (config : option jsval) (section module_ : jsstring) : bool :=
  match config with
  | None => false
  | Some c =>
      let s := own section c in
      truthy s && (is_false (own (js "enabled") s) || is_false (own module_ s))
  end.

Definition isModuleEnabled (url : jsstring) (adminConfig : SidebarModulesConfig) (userConfig : option jsval) : bool :=
  match jget url URL_TO_CONFIG_MAP with
  | None => true
  | Some (section, module_) => admin_allows adminConfig section module_ && negb (user_hides userConfig section module_)
  end.

(** ** Links *)
Record BaseNavItem := mkBase {
  title : jsstring; activeUrls : list jsstring; configUrls : option (list jsstring); requiredRole : option Z }.
Inductive NavItem :=
| NavLink (b : BaseNavItem) (url : jsstring)
| NavCollapsible (b : BaseNavItem) (items : list (BaseNavItem * jsstring))
| NavChatPresets (b : BaseNavItem).
Record NavGroup := mkGroup { g_id : option jsstring; g_title : jsstring; g_items : list NavItem }.

Definition base (i : NavItem) : BaseNavItem := match i with NavLink b _ | NavCollapsible b _ | NavChatPresets b => b end.

Definition isNavItemVisible (adminConfig : SidebarModulesConfig) (userConfig : option jsval) (i : NavItem) : bool :=
  match i with
  | NavChatPresets _ => admin_allows adminConfig (js "chat") (js "chat") && negb (user_hides userConfig (js "chat") (js "chat"))
  | NavLink _ [] => true
  | NavLink b url => existsb (λ u, isModuleEnabled u adminConfig userConfig) (default [url] (configUrls b))
  | NavCollapsible _ items => existsb (λ s, isModuleEnabled s.2 adminConfig userConfig) items
  end.

Definition filterNavItems (adminConfig : SidebarModulesConfig) (userConfig : option jsval) (items : list NavItem) : list NavItem :=
  filter (λ i, isNavItemVisible adminConfig userConfig i = true)
    ((λ i, match i with
           | NavCollapsible b subs => NavCollapsible b (filter (λ s, isModuleEnabled s.2 adminConfig userConfig = true) subs)
           | _ => i
           end) <$> items).

(** The overlay of the user, unless the server says that the user cannot set it. *)
Definition user_config (user : option AuthUser) : res js_error (option jsval) :=
  match user with
  | None => Ok None
  | Some u => if is_false (prop "sidebar_settings" (prop "permissions" (user_value u))) then Ok None
              else parseUserSidebarConfig (prop "sidebar_modules" (user_value u))
  end.

Definition with_items (g : NavGroup) (items : list NavItem) : NavGroup := mkGroup (g_id g) (g_title g) items.
Definition visible_groups (adminConfig : SidebarModulesConfig) (userConfig : option jsval) (groups : list NavGroup) : list NavGroup :=
  filter (λ g, g_items g ≠ []) ((λ g, with_items g (filterNavItems adminConfig userConfig (g_items g))) <$> groups).

Definition useSidebarConfig (status : jsval) (user : option AuthUser) (groups : list NavGroup) : res js_error (list NavGroup) :=
  adminConfig ← parseSidebarConfig (prop "SidebarModulesAdmin" status);
  userConfig ← user_config user;
  Ok (visible_groups adminConfig userConfig groups).

Definition useIsSidebarModuleVisible (status : jsval) (user : option AuthUser) (url : jsstring) : res js_error bool :=
  adminConfig ← parseSidebarConfig (prop "SidebarModulesAdmin" status);
  userConfig ← user_config user;
  Ok (isModuleEnabled url adminConfig userConfig).

(** ** The sidebar *)
Definition link (t u : string) : NavItem := NavLink (mkBase (js t) [] None None) (js u).
Definition useSidebarData : list NavGroup := [
  mkGroup (Some (js "chat")) (js "Chat") [
    link "Playground" "/playground"; NavChatPresets (mkBase (js "Chat") [] None None)];
  mkGroup (Some (js "general")) (js "General") [
    link "Overview" "/dashboard/overview"; link "Dashboard" "/dashboard/models"; link "API Keys" "/keys";
    link "Usage Logs" "/usage-logs/common";
    NavLink (mkBase (js "Task Logs") [js "/usage-logs/drawing"] (Some [js "/usage-logs/drawing"; js "/usage-logs/task"]) None)
      (js "/usage-logs/task")];
  mkGroup (Some (js "personal")) (js "Personal") [
    link "Products" "/products"; link "My orders" "/products/orders"; link "Wallet" "/wallet"; link "Profile" "/profile"];
  mkGroup (Some (js "admin")) (js "Admin") [
    link "Channels" "/channels"; link "Models" "/models/metadata"; link "Users" "/users";
    link "Redemption Codes" "/redemption-codes"; link "Product Management" "/products/manage";
    link "Product Orders" "/products/orders/manage"; link "Subscriptions" "/subscriptions";
    link "Agent Plan quota pools" "/agent-plan-quota-pools";
    NavLink (mkBase (js "System Info") [] None (Some SUPER_ADMIN)) (js "/system-info");
    NavLink (mkBase (js "System Settings") [js "/system-settings"] None None) (js "/system-settings/site")]].

(** The groups that a role sees. *)
Definition role_allows (user : option AuthUser) (n : Z) : bool :=
  match user with Some u => role_geb u n | None => (n <=? GUEST)%Z end.
Definition role_filter (user : option AuthUser) (groups : list NavGroup) : list NavGroup :=
  (λ g, with_items g (filter (λ i, from_option (role_allows user) true (requiredRole (base i)) = true) (g_items g))) <$>
  filter (λ g, g_id g = Some (js "admin") → role_allows user ADMIN = true) groups.

Definition rootNavGroups (status : jsval) (user : option AuthUser) : res js_error (list NavGroup) :=
  groups ← useSidebarConfig status user useSidebarData; Ok (role_filter user groups).

(** ** Guards of the routes *)
Inductive Redirect := to_sign_in | to_403 | to_dashboard | to_home.

Definition authenticated_guard (user : option AuthUser) (accessToken : option jsstring) : option Redirect :=
  match user, accessToken with Some _, Some (_ :: _) => None | _, _ => Some to_sign_in end.
Definition admin_guard (user : option AuthUser) : option Redirect :=
  match user with Some u => if role_ltb u ADMIN then Some to_403 else None | None => Some to_403 end.
Definition super_guard (user : option AuthUser) : option Redirect :=
  match user with Some u => if role_eqb u SUPER_ADMIN then None else Some to_403 | None => Some to_403 end.
Definition playground_guard (item : option (option jsstring)) : option Redirect :=
  if isSidebarModuleEnabled item (js "chat") (js "playground") then None else Some to_dashboard.

(** The pages whose own route has a guard of a role. *)
Definition ADMIN_ROUTES : list jsstring := js <$>
  ["/channels"; "/models/metadata"; "/users"; "/redemption-codes"; "/products/manage"; "/subscriptions";
   "/agent-plan-quota-pools"]%string.
Definition SUPER_ROUTES : list jsstring := js <$> ["/system-info"; "/system-settings/site"]%string.

(** Where a user who opens a page is sent instead. *)
Definition route_guard (item : option (option jsstring)) (user : option AuthUser) (accessToken : option jsstring) (url : jsstring) :
    option Redirect :=
  match authenticated_guard user accessToken with
  | Some r => Some r
  | None =>
      if decide (url = js "/playground") then playground_guard item
      else if decide (url ∈ ADMIN_ROUTES) then admin_guard user
      else if decide (url ∈ SUPER_ROUTES) then super_guard user
      else None
  end.

(** ** Links of the header *)
Record TopNavLink := mkTop { t_title : jsstring; t_href : jsstring; requiresAuth : bool; external : bool }.

Definition not_false (v : option NavValue) : bool := match v with Some (NavBool false) => false | _ => true end.
Definition access_link (t h : string) (v : option NavValue) (authed : bool) : list TopNavLink :=
  match v with
  | Some (NavAccess a) => if enabled a then [mkTop (js t) (js h) (requireAuth a && negb authed) false] else []
  | _ => []
  end.
Definition useTopNavLinks (status : jsval) (user : option AuthUser) : list TopNavLink :=
  let modules := parseHeaderNavModulesFromStatus status in
  let docsLink := prop "docs_link" status in
  let authed := match user with Some _ => true | None => false end in
  let plain (t h : string) (on : bool) := if on then [mkTop (js t) (js h) false false] else [] in
  plain "Home" "/" (not_false (jget (js "home") modules)) ++
  plain "Console" "/dashboard" (not_false (jget (js "console") modules)) ++
  access_link "Model Square" "/pricing" (jget (js "pricing") modules) authed ++
  access_link "Rankings" "/rankings" (jget (js "rankings") modules) authed ++
  (if not_false (jget (js "docs") modules)
   then [if truthy docsLink then mkTop (js "Docs") (to_string docsLink) false true else mkTop (js "Docs") (js "/docs") false false]
   else []) ++
  plain "About" "/about" (not_false (jget (js "about") modules)).

(** The guard of a page with its own module (/pricing and /rankings). *)
Definition module_guard (answer : option jsval) (m : HeaderNavModule) (user : option AuthUser) : option Redirect :=
  let access := getFreshModuleAccess answer m in
  if negb (enabled access) then Some to_home
  else match user with None => if requireAuth access then Some to_sign_in else None | Some _ => None end.
