(* ===== verification/NavigationFacts.v ===== *)
(** Facts of the navigation: the links that are shown lead to pages that open, the user's
    settings only hide, and the matrix of permissions is complete. *)
From S2P Require Import Prelude JsString JsValue Json JsPrint JsNumber JsonQuote JsonPrint JsDynamic AuthSession Navigation.
Local Open Scope nat_scope.








Lemma visible_groups_elem a u groups g : g ∈ visible_groups a u groups →
  ∃ g0, g0 ∈ groups ∧ g_id g0 = g_id g ∧ g_title g0 = g_title g ∧ g_items g = filterNavItems a u (g_items g0).
Proof.
  unfold visible_groups. intros [_ Hg]%list_elem_of_filter. apply list_elem_of_fmap in Hg as (g0 & -> & Hg0). by exists g0.
Qed.





(** An administrator below the highest role who has not been refused anything in the
    settings is shown System Settings, and is sent to the page for forbidden requests when
    opening it. *)
Theorem settings_link_refused item u tok :
  role u = num_of_Z ADMIN → tok ≠ [] → user_value u = JObj [] →
  ∃ gs g b, rootNavGroups JNull (Some u) = Ok gs ∧ g ∈ gs ∧ NavLink b (js "/system-settings/site") ∈ g_items g ∧
    route_guard item (Some u) (Some tok) (js "/system-settings/site") = Some to_403.
Proof.
  intros Er Htok Eu. destruct u as [uid name r v]. cbn in Er, Eu. subst r v.
  destruct (rootNavGroups JNull (Some (mkUser uid name (num_of_Z ADMIN) (JObj [])))) as [gs|] eqn:E; [|by vm_compute in E].
  exists gs. destruct (last gs) as [g|] eqn:Eg; [|by vm_compute in E; injection E as <-].
  destruct (last (g_items g)) as [[b url| |]|] eqn:Ei; vm_compute in E; injection E as <-; vm_compute in Eg; injection Eg as <-; vm_compute in Ei; try done.
  injection Ei as <- <-. eexists _, _. split; [done|]. split; [do 3 right; left|]. split; [do 8 right; left|].
  destruct tok as [|c tok]; [done|]. by vm_compute.
Qed.

(** ** The overlay of the user *)
Lemma narrower url a u : isModuleEnabled url a u = true → isModuleEnabled url a None = true.
Proof.
  unfold isModuleEnabled. destruct (jget url URL_TO_CONFIG_MAP) as [[s m]|]; [|done]. intros [-> _]%andb_true_iff. done.
Qed.

(** What a user sets can only hide.  Every entry that the sidebar shows under the user's
    settings it would show without them, in the same group and, for an entry with
    sub-entries, with at least the same ones: so the administrator's settings bound what
    any user sees. *)
Theorem overlay_narrows a u groups g i : g ∈ visible_groups a u groups → i ∈ g_items g →
  ∃ g' i', g' ∈ visible_groups a None groups ∧ i' ∈ g_items g' ∧ g_id g' = g_id g ∧ g_title g' = g_title g ∧
    match i with
    | NavCollapsible b subs => ∃ subs', i' = NavCollapsible b subs' ∧ subs ⊆ subs'
    | _ => i' = i
    end.
Proof.
  intros Hg Hi. destruct (visible_groups_elem _ _ _ _ Hg) as (g0 & Hg0 & Eid & Et & Ei). rewrite Ei in Hi.
  unfold filterNavItems in Hi. apply list_elem_of_filter in Hi as [Hv Hi]. apply list_elem_of_fmap in Hi as (i0 & E & Hi0).
  assert (∃ i', i' ∈ filterNavItems a None (g_items g0) ∧
    match i with NavCollapsible b subs => ∃ subs', i' = NavCollapsible b subs' ∧ subs ⊆ subs' | _ => i' = i end) as (i' & Hi' & Hm).
  { assert (∀ P (l : list jsstring), existsb (λ u0, isModuleEnabled u0 a u) l = true → P → existsb (λ u0, isModuleEnabled u0 a None) l = true) as Hex.
    { intros P l Hx _. apply existsb_exists in Hx as (x & Hx & Hen). apply existsb_exists. exists x. split; [done|]. by eapply narrower. }
    destruct i0 as [b url|b subs|b]; subst i.
    - exists (NavLink b url). split; [|done]. apply list_elem_of_filter. split; [|apply list_elem_of_fmap; by exists (NavLink b url)].
      cbn in Hv |- *. destruct url; [done|]. by eapply (Hex True).
    - eexists (NavCollapsible b (filter (λ s, isModuleEnabled s.2 a None = true) subs)). split; [|eexists; split; [done|]].
      + apply list_elem_of_filter. split; [|apply list_elem_of_fmap; by exists (NavCollapsible b subs)].
        cbn in Hv |- *. apply existsb_exists in Hv as (x & Hx & Hen). apply existsb_exists. exists x. apply narrower in Hen. split; [|done].
        apply list_elem_of_In, list_elem_of_filter. apply list_elem_of_In, list_elem_of_filter in Hx as [_ Hx]. done.
      + intros x [Hen Hx]%list_elem_of_filter. apply list_elem_of_filter. split; [by eapply narrower|done].
    - exists (NavChatPresets b). split; [|done]. apply list_elem_of_filter. split; [|apply list_elem_of_fmap; by exists (NavChatPresets b)].
      cbn in Hv |- *. by apply andb_true_iff in Hv as [-> _]. }
  exists (with_items g0 (filterNavItems a None (g_items g0))), i'. split_and!; [|done|done|done|done].
  apply list_elem_of_filter. split; [cbn; intros E0; by rewrite E0 in Hi'; apply not_elem_of_nil in Hi'|].
  apply list_elem_of_fmap. by exists g0.
Qed.

(** ** Permissions *)
Lemma jget_foldl_jset {B V} (k : B → jsstring) (f : B → V) l m q : NoDup (k <$> l) →
  jget q (foldl (λ m x, jset (k x) (f x) m) m l) =
  match list_find (λ x, k x = q) l with Some (_, x) => Some (f x) | None => jget q m end.
Proof.
  revert m. induction l as [|x l IH]; intros m HN; [done|]. apply NoDup_cons in HN as [Hx HN]. cbn [foldl]. rewrite IH by done.
  cbn [list_find]. destruct (decide (k x = q)) as [<-|Hq].
  - destruct (list_find (λ y, k y = k x) l) as [[j y]|] eqn:E.
    + apply list_find_Some in E as (Hj & Ey & _). exfalso. apply Hx. rewrite <- Ey. apply list_elem_of_fmap_2. by eapply list_elem_of_lookup_2.
    + by rewrite jget_jset, decide_True.
  - destruct (list_find _ l) as [[j y]|]; [done|]. by rewrite jget_jset_ne.
Qed.

(** A catalog lists each resource once, with each action once. *)
Definition catalog_ok (c : PermissionCatalog) : Prop :=
  NoDup (resource <$> resources c) ∧ Forall (λ r, NoDup (action <$> actions r)) (resources c).

Definition in_catalog (c : PermissionCatalog) (r a : jsstring) : Prop :=
  Exists (λ rd, resource rd = r ∧ a ∈ action <$> actions rd) (resources c).
#[local] Instance in_catalog_dec c r a : Decision (in_catalog c r a).
Proof. unfold in_catalog. apply _. Defined.

Lemma in_catalog_resource c rd i a : NoDup (resource <$> resources c) → resources c !! i = Some rd →
  in_catalog c (resource rd) a ↔ a ∈ action <$> actions rd.
Proof.
  intros HN Hi. split; [|intros Ha; apply Exists_exists; exists rd; split; [by eapply list_elem_of_lookup_2|done]].
  intros (rd' & [j Hj]%list_elem_of_lookup & Er & Ha)%Exists_exists.
  assert ((resource <$> resources c) !! i = Some (resource rd)) as H1 by by rewrite list_lookup_fmap, Hi.
  assert ((resource <$> resources c) !! j = Some (resource rd)) as H2 by (rewrite list_lookup_fmap, Hj; cbn; by rewrite Er).
  assert (i = j) as -> by by eapply NoDup_lookup. congruence.
Qed.

(** The choice for an action, with the grants of the role below it. *)
Definition choice (value : option AdminPermissionMatrix) (base : AdminPermissionMatrix) (r a : jsstring) : bool :=
  default (default false (granted base r a)) (value ≫= λ v, granted v r a).

Lemma normalized_actions_eq value base rd :
  normalized_actions value base rd = foldl (λ m x, jset (action x) (choice value base (resource rd) (action x)) m) [] (actions rd).
Proof.
  unfold normalized_actions, choice. generalize (actions rd) as l, (@nil (jsstring * bool)) as m.
  induction l as [|x l IH]; intros m; [done|]. cbn [foldl]. by rewrite IH.
Qed.

Lemma normalized_granted value c r a : catalog_ok c → granted (normalizeAdminPermissions value c) r a =
  if decide (in_catalog c r a) then Some (choice value (roleGrants c (js "admin")) r a) else None.
Proof.
  intros [HN HA]. unfold granted at 1, normalizeAdminPermissions. rewrite (jget_foldl_jset resource) by done.
  destruct (list_find (λ x, resource x = r) (resources c)) as [[i rd]|] eqn:E; cbn [mbind option_bind jget].
  - apply list_find_Some in E as (Hi & <- & _). rewrite normalized_actions_eq.
    rewrite (jget_foldl_jset action) by (by apply (Forall_lookup_1 _ _ _ _ HA Hi)). pose proof (in_catalog_resource c rd i a HN Hi) as Hin.
    destruct (list_find (λ x, action x = a) (actions rd)) as [[j x]|] eqn:Ej.
    + apply list_find_Some in Ej as (Hj & <- & _). by rewrite decide_True by (apply Hin, list_elem_of_fmap_2; by eapply list_elem_of_lookup_2).
    + rewrite decide_False; [done|]. intros (x & -> & Hx)%Hin%list_elem_of_fmap. apply list_find_None in Ej.
      by apply (proj1 (Forall_forall _ _) Ej x Hx).
  - rewrite decide_False; [done|]. intros (rd & Hrd & Er & _)%Exists_exists. apply list_find_None in E.
    by apply (proj1 (Forall_forall _ _) E rd Hrd).
Qed.

Lemma foldl_jset_ext {B V} (k : B → jsstring) (f g : B → V) l m : (∀ x, x ∈ l → f x = g x) →
  foldl (λ m x, jset (k x) (f x) m) m l = foldl (λ m x, jset (k x) (g x) m) m l.
Proof.
  revert m. induction l as [|x l IH]; intros m Hl; [done|]. cbn [foldl]. rewrite (Hl x) by left. apply IH. intros y Hy. apply Hl. by right.
Qed.

(** The matrix that the form sends has a value for every action of every resource of the
    catalog and for nothing else: what was chosen, or what the role of administrators grants,
    or no; and completing it again changes nothing. *)
Theorem permissions_complete value c : catalog_ok c →
  (∀ r a, granted (normalizeAdminPermissions value c) r a =
    if decide (in_catalog c r a) then
      Some (choice value (roleGrants c (js "admin")) r a)
    else None) ∧
  normalizeAdminPermissions (Some (normalizeAdminPermissions value c)) c = normalizeAdminPermissions value c.
Proof.
  intros Hc. split; [intros r a; by apply normalized_granted|]. unfold normalizeAdminPermissions at 1 3.
  apply foldl_jset_ext. intros rd Hrd. rewrite !normalized_actions_eq. apply foldl_jset_ext. intros x Hx. unfold choice at 1.
  cbn [mbind option_bind]. rewrite normalized_granted, decide_True; [done| |done].
  apply Exists_exists. exists rd. split; [done|]. split; [done|]. by apply list_elem_of_fmap_2.
Qed.

(** ** Links of the header *)
Definition typed_modules (m : HeaderNavModules) : Prop :=
  (∀ k, k = js "pricing" ∨ k = js "rankings" → ∃ a, jget k m = Some (NavAccess a)).

Lemma header_entry_typed m p : typed_modules m → typed_modules (header_entry m p).
Proof.
  intros Hm k Hk. destruct p as [q v]. unfold header_entry. destruct (decide (q = js "pricing" ∨ q = js "rankings")) as [Hq|Hq].
  - rewrite jget_jset. case_decide; [by eexists|by apply Hm].
  - assert (q ≠ k) by (intros ->; done). destruct (Hm k Hk) as [a Ha]. exists a. repeat case_match; by rewrite ?jget_jset_ne.
Qed.

Lemma header_typed raw : typed_modules (parseHeaderNavModules raw).
Proof.
  assert (typed_modules DEFAULT_HEADER_NAV_MODULES) as Hd by (intros k [->| ->]; by eexists).
  unfold parseHeaderNavModules. destruct (parseHeaderNavRecord raw) as [v|]; [|done]. destruct (truthy v); [|done].
  revert Hd. generalize DEFAULT_HEADER_NAV_MODULES as m. induction (spread v) as [|p l IH]; intros m Hm; [done|].
  cbn [foldl]. by apply IH, header_entry_typed.
Qed.

Definition page (m : HeaderNavModule) : jsstring := match m with pricing => js "/pricing" | rankings => js "/rankings" end.

(** The links of the header within the console that lead to a page. *)
Definition links_to (href : jsstring) (l : list TopNavLink) : list TopNavLink :=
  filter (λ k, t_href k = href ∧ external k = false) l.

Lemma links_to_app h a b : links_to h (a ++ b) = links_to h a ++ links_to h b.
Proof. apply filter_app. Qed.

(** The header and the pages agree, whatever the text of the setting and whoever the
    user: Model Square and Rankings have one link in the header when the guard of the page
    does not send everybody home, and none otherwise, and the link is marked as needing a
    sign-in exactly when the guard would send this user to it. *)
Theorem header_links_open status user m :
  requiresAuth <$> links_to (page m) (useTopNavLinks status user) =
  match module_guard (Some status) m user with
  | Some to_home => []
  | Some to_sign_in => [true]
  | _ => [false]
  end.
Proof.
  unfold module_guard, getFreshModuleAccess, getModuleAccessFromStatus, useTopNavLinks.
  destruct (header_typed (prop "HeaderNavModules" status) (js "pricing")) as [ap Ep]; [by left|].
  destruct (header_typed (prop "HeaderNavModules" status) (js "rankings")) as [ar Er]; [by right|].
  fold (parseHeaderNavModulesFromStatus status) in Ep, Er. cbv zeta. rewrite Ep, Er. cbn [access_link].
  generalize (not_false (jget (js "home") (parseHeaderNavModulesFromStatus status))) as b1,
    (not_false (jget (js "console") (parseHeaderNavModulesFromStatus status))) as b2,
    (not_false (jget (js "docs") (parseHeaderNavModulesFromStatus status))) as b3,
    (not_false (jget (js "about") (parseHeaderNavModulesFromStatus status))) as b4, (truthy (prop "docs_link" status)) as b5,
    (to_string (prop "docs_link" status)) as d. intros.
  rewrite !links_to_app.
  assert (links_to (page m) (if b3 then [if b5 then mkTop (js "Docs") d false true else mkTop (js "Docs") (js "/docs") false false] else []) = []) as ->.
  { destruct b3, b5, m; try done; unfold links_to; rewrite filter_cons_False; try done; by intros [_ ?]. }
  destruct m; cbn [module_key page]; rewrite ?Ep, ?Er.
  - destruct b1, b2, b4, (enabled ap), (enabled ar), user, (requireAuth ap); done.
  - destruct b1, b2, b4, (enabled ap), (enabled ar), user, (requireAuth ar); done.
Qed.

(** ** Instances *)
Definition ada (r : Z) (settings : jsval) : AuthUser := mkUser (num_of_Z 7) (js "ada") (num_of_Z r) settings.


Lemma settings_link_refused_witness :
  ∃ gs g b, rootNavGroups JNull (Some (ada ADMIN (JObj []))) = Ok gs ∧ g ∈ gs ∧ NavLink b (js "/system-settings/site") ∈ g_items g ∧
    route_guard None (Some (ada ADMIN (JObj []))) (Some (js "t")) (js "/system-settings/site") = Some to_403.
Proof. apply (settings_link_refused None (ada ADMIN (JObj [])) (js "t")); [reflexivity|discriminate|reflexivity]. Defined.

Lemma overlay_narrows_witness :
  let hidden := Some (JObj [(js "console", JObj [(js "token", JBool false)])]) in
  let g := mkGroup None (js "General") [link "Usage Logs" "/usage-logs/common"] in
  let groups := [mkGroup None (js "General") [link "API Keys" "/keys"; link "Usage Logs" "/usage-logs/common"]] in
  visible_groups default_config hidden groups = [g] ∧
  ∃ g' i', g' ∈ visible_groups default_config None groups ∧ i' ∈ g_items g' ∧ g_id g' = g_id g ∧ g_title g' = g_title g ∧
    i' = link "Usage Logs" "/usage-logs/common".
Proof.
  split; [vm_compute; reflexivity|].
  apply (overlay_narrows default_config (Some (JObj [(js "console", JObj [(js "token", JBool false)])]))
    [mkGroup None (js "General") [link "API Keys" "/keys"; link "Usage Logs" "/usage-logs/common"]]
    (mkGroup None (js "General") [link "Usage Logs" "/usage-logs/common"]) (link "Usage Logs" "/usage-logs/common")).
  - vm_compute. left.
  - left.
Defined.

Definition sample_catalog : PermissionCatalog :=
  mkCatalog [mkResource (js "channel") (js "Channels") [mkAction (js "read") [] []; mkAction (js "write") [] []]]
    [mkRole (js "admin") (js "Admin") true false [(js "channel", [(js "read", true)])]].

Lemma permissions_complete_witness :
  catalog_ok sample_catalog ∧
  normalizeAdminPermissions None sample_catalog = [(js "channel", [(js "read", true); (js "write", false)])] ∧
  normalizeAdminPermissions (Some (normalizeAdminPermissions None sample_catalog)) sample_catalog = normalizeAdminPermissions None sample_catalog.
Proof.
  assert (catalog_ok sample_catalog) as Hc.
  { split; [|constructor; [|constructor]]; (eapply bool_decide_unpack; vm_compute; exact I). }
  split; [exact Hc|]. split; [vm_compute; reflexivity|]. exact (proj2 (permissions_complete None sample_catalog Hc)).
Defined.
