(* ===== verification/PricingFormat.v ===== *)
(** Numbers of the price settings: features/system-settings/models/pricing-format.ts and
    utils/json-parser.ts, with what they use of the language ([parseFloat], [toFixed],
    [Math.round], the operations on binary64). *)
From S2P Require Import Prelude JsString JsValue Json JsPrint JsNumber JsonQuote JsonPrint JsDynamic.
Local Open Scope Z_scope.

(** ** Operations of the language *)
Definition num_mul : jsnum → jsnum → jsnum := SFmul 53 1024.
Definition num_div : jsnum → jsnum → jsnum := SFdiv 53 1024.
Definition num_sub : jsnum → jsnum → jsnum := SFsub 53 1024.
Definition num_abs : jsnum → jsnum := SFabs.
(** [Math.max] of two numbers that are not [NaN]. *)
Definition num_max (x y : jsnum) : jsnum := if num_ltb x y then y else x.
Definition EPSILON : jsnum := binary_normalize 53 1024 1 (-52) false.

(** The absolute value of a finite number as a fraction. *)
Definition num_fraction (m : positive) (e : Z) : Z * Z := (Z.pos m * 2 ^ Z.max 0 e, 2 ^ Z.max 0 (- e)).

(** [Math.round]: the nearest integer, upwards from the middle; of a negative number that
    rounds to zero, minus zero. *)
Definition math_round (x : jsnum) : jsnum :=
  match x with
  | S754_finite neg m e =>
      let '(n, d) := num_fraction m e in
      let r := (2 * (if neg then - n else n) + d) / (2 * d) in
      if r =? 0 then S754_zero neg else num_of_Z r
  | _ => x
  end.

(** [parseFloat]: the longest prefix that is a decimal literal. *)
Definition parse_float (s : jsstring) : jsnum :=
  let '(neg, s1) := parse_sign true (trim_start s) in
  if starts_with (js "Infinity") s1 then S754_infinity neg
  else
    let '(ip, s2) := span_digits s1 in
    let '(fp, s3) := after_point s2 in
    if bool_decide (ip ++ fp = []) then S754_nan
    else
      let e := match parse_exponent s3 with Some (e, _) => e | None => 0 end in
      dec_to_num neg (parse_dec (ip ++ fp)) (e - Z.of_nat (length fp)).

(** [x.toFixed(digits)] with a positive number of digits; the larger decimal from the
    middle; a number from 10^21 on prints as usual. *)
Definition to_fixed (digits : nat) (x : jsnum) : jsstring :=
  let layout n :=
    let s := show_N (Z.to_N n) in
    let s := replicate (S digits - length s) 48%N ++ s in
    let k := (length s - digits)%nat in
    take k s ++ js "." ++ drop k s in
  match x with
  | S754_zero _ => layout 0
  | S754_finite neg m e =>
      let '(n, d) := num_fraction m e in
      if 10 ^ 21 * d <=? n then show_num x
      else (if neg then js "-" else []) ++ layout ((2 * n * 10 ^ Z.of_nat digits + d) / (2 * d))
  | _ => show_num x
  end.

(** ** pricing-format.ts *)
Definition DISPLAY_DECIMALS : nat := 12.
Definition SNAP_DECIMALS : nat := 8.
Definition SNAP_EPSILON : jsnum := dec_to_num false 1 (-12).

(** A value that is not the empty text, null, undefined or false. *)
Definition hasValue (v : jsval) : bool :=
  match v with JStr [] | JNull | JUndef | JBool false => false | _ => true end.

Definition toNumberOrNull (v : jsval) : option jsnum :=
  if hasValue v then let num := to_number v in if is_finite num then Some num else None else None.

Definition roundToDecimals (value : jsnum) (decimals : nat) : jsnum :=
  let factor := num_of_Z (10 ^ Z.of_nat decimals) in num_div (math_round (num_mul value factor)) factor.

(** The first rounding, with fewest decimals, that is within the tolerance. *)
Definition snapFloatDrift (value : jsnum) : jsnum :=
  let tolerance := num_max SNAP_EPSILON (num_mul (num_mul (num_abs value) EPSILON) (num_of_Z 8)) in
  let near decimals := num_leb (num_abs (num_sub value (roundToDecimals value decimals))) tolerance in
  match list_find (λ decimals, near decimals = true) (seq 0 (S SNAP_DECIMALS)) with
  | Some (_, decimals) => roundToDecimals value decimals
  | None => value
  end.

Definition formatPricingNumber (v : jsval) : jsstring :=
  match toNumberOrNull v with
  | None => []
  | Some num => show_num (parse_float (to_fixed DISPLAY_DECIMALS (snapFloatDrift num)))
  end.

(** ** json-parser.ts *)
Definition safeJsonParse (value : jsstring) (fallback : jsval) : jsval :=
  match trim value with [] => fallback | trimmedValue => default fallback (JSON_parse trimmedValue) end.

(** ** Facts *)
Lemma parse_sign_digit b c t : (c = 45%N ∨ is_digit c = true) → parse_sign b (c :: t) = if (c =? 45)%N then (true, t) else (false, c :: t).
Proof.
  intros Hc. cbn. destruct (c =? 45)%N eqn:E; [done|]. destruct Hc as [->|Hc]; [done|].
  destruct (c =? 43)%N eqn:E'; [|by rewrite andb_false_r]. apply N.eqb_eq in E'. by subst c.
Qed.

Lemma after_point_fraction s fp r : parse_fraction s = Some (fp, r) → after_point s = (fp, r).
Proof.
  unfold parse_fraction, after_point. destruct s as [|c t]; [by intros [= <- <-]|].
  destruct (c =? 46)%N; [|by intros [= <- <-]]. destruct (span_digits t) as [[|d ds] r']; [done|]. by intros [= <- <-].
Qed.

(** Every literal of JSON is read by [parseFloat] as the same number. *)
Lemma parse_float_number s x r : parse_number s = Some (x, r) → parse_float s = x.
Proof.
  intros H. destruct (parse_number_head _ _ H) as (c & t & -> & Hc). unfold parse_float.
  assert (trim_start (c :: t) = c :: t) as ->.
  { cbn. assert (is_ws c = false) as ->; [|done]. destruct Hc as [->|Hc]; [done|by apply is_digit_not_ws]. }
  unfold parse_number in H. rewrite (parse_sign_digit _ _ _ Hc) in H. rewrite (parse_sign_digit _ _ _ Hc).
  destruct (if (c =? 45)%N then _ else _) as [neg s1].
  destruct (span_digits s1) as [ip s2] eqn:Es. destruct (bool_decide (ip = [])) eqn:Ei; [done|].
  apply bool_decide_eq_false in Ei. destruct (_ && _); [done|]. cbn [orb] in H.
  destruct (parse_fraction s2) as [[fp s3]|] eqn:Ef; [|done]. destruct (parse_exponent s3) as [[e s4]|] eqn:Ee; [|done].
  injection H as <- <-. destruct (starts_with (js "Infinity") s1) eqn:Einf.
  - apply bool_decide_eq_true in Einf as [k ->]. injection Es as <- <-. done.
  - rewrite (after_point_fraction _ _ _ Ef), Ee. rewrite bool_decide_eq_false_2; [done|]. by destruct ip.
Qed.

(** A number that prints as itself is read back. *)
Lemma parse_float_show x : num_ok x = true → parse_float (show_num x) = x.
Proof. intros [_ H]%andb_true_iff. apply bool_decide_eq_true in H. by eapply parse_float_number. Qed.

Example format_examples :
  formatPricingNumber (JNum (num_div (num_of_Z 3) (num_of_Z 10))) = js "0.3" ∧
  formatPricingNumber (JNum (num_mul (num_div (num_of_Z 1) (num_of_Z 10)) (num_of_Z 3))) = js "0.3" ∧
  formatPricingNumber (JStr (js "2.50")) = js "2.5" ∧ formatPricingNumber (JStr []) = [] ∧
  formatPricingNumber (JStr (js "1e-13")) = js "0" ∧ formatPricingNumber (JStr (js "x")) = [] ∧
  formatPricingNumber (JNum (num_div (num_of_Z 1) (num_of_Z 3))) = js "0.333333333333" ∧
  to_fixed 12 (num_of_Z (-3)) = js "-3.000000000000" ∧ parse_float (js " 12.5e-1abc") = num_div (num_of_Z 5) (num_of_Z 4).
Proof. vm_compute. split_and!; reflexivity. Qed.
