(* ===== verification/ModelPricing.v ===== *)
(** Model prices: features/system-settings/models (model-pricing-core.ts,
    model-pricing-snapshots.ts, the panel of model-pricing-sheet.tsx and the table of
    model-ratio-visual-editor.tsx).

    The prices of all models are ten options, each the text of an object from model names
    to values: a fixed price, a base ratio, six ratios that hang on it (the lanes), a
    billing mode and a billing expression.  The table reads them as rows, the panel edits one
    model in prices, and its ratios are derived from these; a save rewrites the ten texts.

    The six fields with ratios of lanes are kept in a record indexed by the lane
    (ratioFieldByLane).  Texts of the interface are keys of translations, and one panel is
    modelled: on a narrow screen it stands in a drawer. *)
From S2P Require Import Prelude JsString JsValue Json JsPrint JsNumber JsonQuote JsonPrint JsDynamic BillingExpr PricingFormat.
Local Open Scope nat_scope.

(** ** Lanes *)
Inductive PricingMode := per_token | per_request | tiered_expr.
#[export] Instance PricingMode_eq_dec : EqDecision PricingMode. Proof. solve_decision. Defined.

Inductive LaneKey := completion | cache | createCache | image | audioInput | audioOutput.
#[export] Instance LaneKey_eq_dec : EqDecision LaneKey. Proof. solve_decision. Defined.

Record Lanes (A : Type) := mkLanes {
  l_completion : A; l_cache : A; l_createCache : A; l_image : A; l_audioInput : A; l_audioOutput : A }.
Arguments mkLanes {A}. Arguments l_completion {A}. Arguments l_cache {A}. Arguments l_createCache {A}.
Arguments l_image {A}. Arguments l_audioInput {A}. Arguments l_audioOutput {A}.

Definition lane {A} (l : Lanes A) (k : LaneKey) : A :=
  match k with
  | completion => l_completion l | cache => l_cache l | createCache => l_createCache l
  | image => l_image l | audioInput => l_audioInput l | audioOutput => l_audioOutput l
  end.
Definition lanes_of {A} (f : LaneKey → A) : Lanes A :=
  mkLanes (f completion) (f cache) (f createCache) (f image) (f audioInput) (f audioOutput).
(** [{...l, [k]: x}]. *)
Definition lane_set {A} (k : LaneKey) (x : A) (l : Lanes A) : Lanes A := lanes_of (λ j, if decide (j = k) then x else lane l j).

Definition EMPTY_LANE_PRICES : Lanes jsstring := lanes_of (λ _, []).
Definition EMPTY_LANE_ENABLED : Lanes bool := lanes_of (λ _, false).

Record LaneConfig := mkLane { key : LaneKey; titleKey : jsstring; descriptionKey : jsstring; placeholder : jsstring }.
Definition laneConfigs : list LaneConfig := [
  mkLane completion (js "Completion price") (js "Output token price for generated tokens.") (js "15");
  mkLane cache (js "Cache read price") (js "Token price for cache reads.") (js "0.3");
  mkLane createCache (js "Cache write price") (js "Token price for creating cache entries.") (js "3.75");
  mkLane image (js "Image input price") (js "Token price for image input.") (js "2.5");
  mkLane audioInput (js "Audio input price") (js "Token price for audio input.") (js "3.81");
  mkLane audioOutput (js "Audio output price") (js "Token price for audio output.") (js "15.11")].

(** A text that may be missing, as a value. *)
Definition val (o : option jsstring) : jsval := match o with Some s => JStr s | None => JUndef end.
(** [o || '']. *)
Definition or_empty (o : option jsstring) : jsstring := default [] o.

Record ModelRatioData := mkData {
  d_name : jsstring; d_price : option jsstring; d_ratio : option jsstring; d_lane : Lanes (option jsstring);
  d_mode : option PricingMode; d_expr : option jsstring; d_rules : option jsstring }.

(** [numericDraftRegex.test(s)]: empty, or digits with at most one point. *)
Definition numericDraft (s : jsstring) : bool :=
  match (span_digits s).2 with
  | [] => true
  | c :: t => (c =? 46)%N && forallb is_digit t
  end.

(** ** Prices and ratios *)
Definition ratioToBasePrice (ratio : jsval) : jsstring :=
  match toNumberOrNull ratio with None => [] | Some num => formatPricingNumber (JNum (num_mul num (num_of_Z 2))) end.

Definition deriveLanePrice (ratio denominator : jsval) : jsstring :=
  match toNumberOrNull ratio, toNumberOrNull denominator with
  | Some r, Some d => formatPricingNumber (JNum (num_mul r d))
  | _, _ => []
  end.

Record LaneState := mkLaneState { ls_prompt : jsstring; ls_prices : Lanes jsstring; ls_enabled : Lanes bool }.
Definition createInitialLaneState (data : option ModelRatioData) : LaneState :=
  match data with
  | None => mkLaneState [] EMPTY_LANE_PRICES EMPTY_LANE_ENABLED
  | Some d =>
      let promptPrice := ratioToBasePrice (val (d_ratio d)) in
      let from k denominator := deriveLanePrice (val (lane (d_lane d) k)) (JStr denominator) in
      let audioInputPrice := from audioInput promptPrice in
      mkLaneState promptPrice
        (lanes_of (λ k, if decide (k = audioOutput) then from k audioInputPrice else from k promptPrice))
        (lanes_of (λ k, hasValue (val (lane (d_lane d) k))))
  end.

(** ** The panel *)
Record FormValues := mkForm { f_name : jsstring; f_price : jsstring; f_ratio : jsstring; f_lane : Lanes jsstring }.
Definition setName (x : jsstring) (f : FormValues) : FormValues := mkForm x (f_price f) (f_ratio f) (f_lane f).
Definition setPrice (x : jsstring) (f : FormValues) : FormValues := mkForm (f_name f) x (f_ratio f) (f_lane f).
Definition setRatio (x : jsstring) (f : FormValues) : FormValues := mkForm (f_name f) (f_price f) x (f_lane f).
Definition setLane (k : LaneKey) (x : jsstring) (f : FormValues) : FormValues :=
  mkForm (f_name f) (f_price f) (f_ratio f) (lane_set k x (f_lane f)).

Record Panel := mkPanel {
  pricingMode : PricingMode; promptPrice : jsstring; lanePrices : Lanes jsstring; laneEnabled : Lanes bool;
  panelExpr : jsstring; panelRules : jsstring; form : FormValues }.
Definition with_form (f : FormValues → FormValues) (p : Panel) : Panel :=
  mkPanel (pricingMode p) (promptPrice p) (lanePrices p) (laneEnabled p) (panelExpr p) (panelRules p) (f (form p)).
Definition with_prompt (x : jsstring) (p : Panel) : Panel :=
  mkPanel (pricingMode p) x (lanePrices p) (laneEnabled p) (panelExpr p) (panelRules p) (form p).
Definition with_lanes (prices : Lanes jsstring) (enabled : Lanes bool) (p : Panel) : Panel :=
  mkPanel (pricingMode p) (promptPrice p) prices enabled (panelExpr p) (panelRules p) (form p).

(** The effect that fills the panel from the model to edit. *)
Definition open_panel (editData : option ModelRatioData) : Panel :=
  let st := createInitialLaneState editData in
  match editData with
  | Some d =>
      mkPanel
        (if decide (d_mode d = Some tiered_expr) then tiered_expr else match or_empty (d_price d) with [] => per_token | _ => per_request end)
        (ls_prompt st) (ls_prices st) (ls_enabled st) (or_empty (d_expr d)) (or_empty (d_rules d))
        (mkForm (d_name d) (or_empty (d_price d)) (or_empty (d_ratio d)) (lanes_of (λ k, or_empty (lane (d_lane d) k))))
  | None => mkPanel per_token (ls_prompt st) (ls_prices st) (ls_enabled st) [] [] (mkForm [] [] [] (lanes_of (λ _, [])))
  end.

Definition deriveLaneRatio (k : LaneKey) (price nextPromptPrice : jsstring) (nextLanePrices : Lanes jsstring) : jsstring :=
  match toNumberOrNull (JStr price) with
  | None => []
  | Some priceNumber =>
      let denominator := if decide (k = audioOutput) then lane nextLanePrices audioInput else nextPromptPrice in
      match toNumberOrNull (JStr denominator) with
      | None => []
      | Some d => if num_eqb d num0 then [] else formatPricingNumber (JNum (num_div priceNumber d))
      end
  end.

(** The ratios that a set of prices stands for. *)
Definition base_ratio (prompt : jsstring) : jsstring :=
  match toNumberOrNull (JStr prompt) with Some x => formatPricingNumber (JNum (num_div x (num_of_Z 2))) | None => [] end.
Definition syncLaneRatios (nextPromptPrice : jsstring) (nextLanePrices : Lanes jsstring) (nextLaneEnabled : Lanes bool) (f : FormValues) : FormValues :=
  foldl (λ f c, setLane (key c)
      (if lane nextLaneEnabled (key c) then deriveLaneRatio (key c) (lane nextLanePrices (key c)) nextPromptPrice nextLanePrices else []) f)
    (setRatio (base_ratio nextPromptPrice) f) laneConfigs.

Definition handlePromptPriceChange (value : jsstring) (p : Panel) : Panel :=
  if numericDraft value then with_form (syncLaneRatios value (lanePrices p) (laneEnabled p)) (with_prompt value p) else p.

Definition handleLanePriceChange (k : LaneKey) (value : jsstring) (p : Panel) : Panel :=
  if numericDraft value then
    let nextLanePrices := lane_set k value (lanePrices p) in
    let ratio j := deriveLaneRatio j (lane nextLanePrices j) (promptPrice p) nextLanePrices in
    let p := with_lanes nextLanePrices (laneEnabled p) p in
    let p := if lane (laneEnabled p) k then with_form (setLane k (ratio k)) p else p in
    if bool_decide (k = audioInput) && lane (laneEnabled p) audioOutput
    then with_form (setLane audioOutput (ratio audioOutput)) p else p
  else p.

Definition handleLaneToggle (k : LaneKey) (checked : bool) (p : Panel) : Panel :=
  let nextEnabled := lane_set k checked (laneEnabled p) in
  if checked then
    with_form (setLane k (deriveLaneRatio k (lane (lanePrices p) k) (promptPrice p) (lanePrices p))) (with_lanes (lanePrices p) nextEnabled p)
  else
    let nextPrices := lane_set k [] (lanePrices p) in
    let p := with_form (setLane k []) p in
    if decide (k = audioInput)
    then with_form (setLane audioOutput []) (with_lanes (lane_set audioOutput [] nextPrices) (lane_set audioOutput false nextEnabled) p)
    else with_lanes nextPrices nextEnabled p.

Definition DEFAULT_EXPR : jsstring := js "tier(" ++ [34%N] ++ js "base" ++ [34%N] ++ js ", p * 0 + c * 0)".
Definition handleModeChange (nextMode : PricingMode) (p : Panel) : Panel :=
  mkPanel nextMode (promptPrice p) (lanePrices p) (laneEnabled p)
    (match nextMode, panelExpr p with tiered_expr, [] => DEFAULT_EXPR | _, e => e end) (panelRules p) (form p).

Definition setBillingExpr (x : jsstring) (p : Panel) : Panel :=
  mkPanel (pricingMode p) (promptPrice p) (lanePrices p) (laneEnabled p) x (panelRules p) (form p).
Definition setRequestRuleExpr (x : jsstring) (p : Panel) : Panel :=
  mkPanel (pricingMode p) (promptPrice p) (lanePrices p) (laneEnabled p) (panelExpr p) x (form p).
(** The fields that are inputs of the form itself. *)
Definition typeName (x : jsstring) (p : Panel) : Panel := with_form (setName x) p.
Definition typePrice (x : jsstring) (p : Panel) : Panel := if numericDraft x then with_form (setPrice x) p else p.

(** What the user does in the panel. *)
Inductive PanelEvent :=
| PromptPrice (value : jsstring) | LanePrice (k : LaneKey) (value : jsstring) | LaneToggle (k : LaneKey) (checked : bool)
| ModeChange (m : PricingMode) | ExprChange (x : jsstring) | RulesChange (x : jsstring) | NameChange (x : jsstring) | PriceChange (x : jsstring).
Definition panel_step (p : Panel) (e : PanelEvent) : Panel :=
  match e with
  | PromptPrice v => handlePromptPriceChange v p
  | LanePrice k v => handleLanePriceChange k v p
  | LaneToggle k b => handleLaneToggle k b p
  | ModeChange m => handleModeChange m p
  | ExprChange x => setBillingExpr x p
  | RulesChange x => setRequestRuleExpr x p
  | NameChange x => typeName x p
  | PriceChange x => typePrice x p
  end.

(** ** Checks and what is submitted *)
Definition lanes_without_input (p : Panel) : bool :=
  bool_decide (pricingMode p = per_token) && bool_decide (toNumberOrNull (JStr (promptPrice p)) = None) &&
  existsb (λ c, lane (laneEnabled p) (key c) && hasValue (JStr (lane (lanePrices p) (key c)))) laneConfigs.
Definition output_without_input (p : Panel) : bool :=
  bool_decide (pricingMode p = per_token) && lane (laneEnabled p) audioOutput && negb (hasValue (JStr (lane (lanePrices p) audioInput))).

Definition CONFLICT : jsstring :=
  js "This model has both fixed-price and token-price settings. Saving the current mode will rewrite the conflicting fields.".
Definition INPUT_REQUIRED : jsstring := js "Input price is required before saving dependent prices.".
Definition AUDIO_REQUIRED : jsstring := js "Audio output price requires an audio input price.".

Definition has_conflict (d : ModelRatioData) : bool :=
  truthy (val (d_price d)) && existsb (λ o, hasValue (val o))
    [d_ratio d; l_completion (d_lane d); l_cache (d_lane d); l_createCache (d_lane d); l_image (d_lane d);
     l_audioInput (d_lane d); l_audioOutput (d_lane d)].
Definition warnings (editData : option ModelRatioData) (p : Panel) : list jsstring :=
  (if from_option has_conflict false editData then [CONFLICT] else []) ++
  (if lanes_without_input p then [INPUT_REQUIRED] else []) ++
  (if output_without_input p then [AUDIO_REQUIRED] else []).

Definition validatePricingValues (p : Panel) : option jsstring :=
  if lanes_without_input p then Some INPUT_REQUIRED else if output_without_input p then Some AUDIO_REQUIRED else None.

Definition buildSubmitData (p : Panel) : ModelRatioData :=
  let f := form p in
  let expr := if decide (pricingMode p = tiered_expr) then Some (panelExpr p) else None in
  let rules := if decide (pricingMode p = tiered_expr) then Some (panelRules p) else None in
  mkData (trim (f_name f)) (Some (f_price f)) (Some (f_ratio f)) (lanes_of (λ k, Some (lane (f_lane f) k))) (Some (pricingMode p)) expr rules.

(** The data of a draft that passes the schema of the form and the checks. *)
Definition commitDraft (p : Panel) : option ModelRatioData :=
  match f_name (form p), validatePricingValues p with
  | _ :: _, None => Some (buildSubmitData p)
  | _, _ => None
  end.

(** ** Preview *)
Record PreviewRow := mkPreview { p_key : jsstring; p_label : jsstring; p_value : jsstring; multiline : bool }.
Definition or_text (s fallback : jsstring) : jsstring := match s with [] => fallback | _ => s end.
Definition dollars (s fallback : jsstring) : jsstring := match s with [] => fallback | _ => js "$" ++ s end.

Definition buildPreviewRows (t : string → jsstring) (p : Panel) : list PreviewRow :=
  match pricingMode p with
  | tiered_expr => [
      mkPreview (js "mode") (js "BillingMode") (js "tiered_expr") false;
      mkPreview (js "expr") (t "Expression"%string) (or_text (combineBillingExpr (panelExpr p) (panelRules p)) (t "Empty"%string)) true]
  | per_request => [mkPreview (js "price") (js "ModelPrice") (or_text (f_price (form p)) (t "Empty"%string)) false]
  | per_token =>
      let row (k : string) (label : string) (l : LaneKey) :=
        mkPreview (js k) (t label) (if lane (laneEnabled p) l then dollars (lane (lanePrices p) l) (t "Empty"%string) else t "Empty"%string) false in
      mkPreview (js "inputPrice") (t "Input price"%string) (dollars (promptPrice p) (t "Empty"%string)) false :: [
        row "completion"%string "Completion price"%string completion; row "cache"%string "Cache read price"%string cache;
        row "createCache"%string "Cache write price"%string createCache; row "image"%string "Image input price"%string image;
        row "audio"%string "Audio input price"%string audioInput; row "audioCompletion"%string "Audio output price"%string audioOutput]
  end.

(** ** The options *)
Inductive OptionKey := ModelPrice | ModelRatio | LaneRatio (k : LaneKey) | BillingMode | BillingExpr_.
#[export] Instance OptionKey_eq_dec : EqDecision OptionKey. Proof. solve_decision. Defined.

Definition OPTION_ORDER : list OptionKey :=
  [ModelPrice; ModelRatio; LaneRatio cache; LaneRatio createCache; LaneRatio completion; LaneRatio image;
   LaneRatio audioInput; LaneRatio audioOutput; BillingMode; BillingExpr_].

(** The texts of the options, and the objects that are read from them. *)
Abbreviation Options := (OptionKey → jsstring).
Abbreviation Maps := (list (OptionKey * jsval)).
Definition read_maps (o : Options) : Maps := (λ k, (k, safeJsonParse (o k) (JObj []))) <$> OPTION_ORDER.
Definition map_at (k : OptionKey) (m : Maps) : jsval :=
  match list_find (λ p, p.1 = k) m with Some (_, p) => p.2 | None => JUndef end.

(** [Object.keys(v)]. *)
Definition object_keys (v : jsval) : res js_error (list jsstring) :=
  match v with JNull | JUndef => Throw TypeError | _ => Ok (jkeys (spread v)) end.

(** [delete v[name]]; the place of a deleted element prints as an undefined one. *)
Definition delete_key (name : jsstring) (v : jsval) : res js_error jsval :=
  match v with
  | JObj ps => Ok (JObj (jdel name ps))
  | JArr l =>
      match array_index name with
      | Some n => Ok (JArr (<[N.to_nat n := JUndef]> l))
      | None => if decide (name = js "length") then Throw TypeError else Ok v
      end
  | JStr s =>
      if decide (name ∈ js "length" :: jkeys (spread v)) then Throw TypeError else Ok v
  | JNum _ | JBool _ => Ok v
  | JNull | JUndef => Throw TypeError
  end.

(** [v[name] = x], after [delete v[name]]; an element past the end leaves undefined ones
    before it, and a property of an array that is not an element is not printed. *)
Definition assign_key (name : jsstring) (x : jsval) (v : jsval) : res js_error jsval :=
  match v with
  | JObj ps => Ok (JObj (order_props (jset name x ps)))
  | JArr l =>
      match array_index name with
      | Some n => Ok (JArr (<[N.to_nat n := x]> (resize (Nat.max (length l) (S (N.to_nat n))) JUndef l)))
      | None => if decide (name = js "length") then Throw TypeError else Ok v
      end
  | _ => Throw TypeError
  end.

Definition at_key (k : OptionKey) (f : jsval → res js_error jsval) (m : Maps) : res js_error Maps :=
  mapM_res (λ p, if decide (p.1 = k) then v ← f p.2; Ok (p.1, v) else Ok p) m.

(** ** Snapshots *)
Record ModelPricingSnapshot := mkSnapshot {
  name : jsstring; price : option jsstring; ratio : option jsstring; laneRatio : Lanes (option jsstring);
  billingMode : option PricingMode; s_expr : option jsstring; s_rules : option jsstring; hasConflict : bool }.

Definition hasPricingValue (value : option jsstring) : bool := match value with None | Some [] => false | _ => true end.

Definition isBasePricingUnset (snapshot : option ModelPricingSnapshot) : bool :=
  match snapshot with
  | None => true
  | Some s => negb (bool_decide (billingMode s = Some tiered_expr)) && negb (hasPricingValue (price s)) && negb (hasPricingValue (ratio s))
  end.

Definition ratioToPrice (ratio denominator : option jsstring) : jsstring :=
  match toNumberOrNull (val ratio), (match or_empty denominator with [] => Some (num_of_Z 2) | d => toNumberOrNull (JStr d) end) with
  | Some r, Some d => formatPricingNumber (JNum (num_mul r d))
  | _, _ => []
  end.

Definition getModeLabel (mode : option PricingMode) : jsstring :=
  match mode with Some per_request => js "Per-request" | Some tiered_expr => js "Expression" | _ => js "Per-token" end.
Definition getModeVariant (mode : option PricingMode) : jsstring :=
  match mode with Some per_request => js "warning" | Some tiered_expr => js "info" | _ => js "success" end.

(** The matches of the expression that counts tiers: occurrences of its text. *)
Fixpoint occurrences (p s : jsstring) : nat :=
  match s with [] => 0 | _ :: t => (if starts_with p s then 1 else 0) + occurrences p t end.
Definition DOT : jsstring := [32; 183; 32]%N.

Definition getExpressionSummary (row : ModelPricingSnapshot) (t : string → jsstring) : jsstring :=
  let tierCount := occurrences (js "tier(") (or_empty (s_expr row)) in
  if 0 <? tierCount then t "Tiered pricing"%string ++ DOT ++ show_N (N.of_nat tierCount) ++ js " " ++ t "tiers"%string
  else t "Expression pricing"%string.

Definition getPriceSummary (row : ModelPricingSnapshot) (t : string → jsstring) : jsstring :=
  match billingMode row with
  | Some tiered_expr => getExpressionSummary row t
  | Some per_request =>
      match or_empty (price row) with [] => t "Unset price"%string | p => js "$" ++ p ++ js " / " ++ t "request"%string end
  | _ =>
      match ratioToPrice (ratio row) None with
      | [] => t "Unset price"%string
      | inputPrice =>
          let l := laneRatio row in
          let extraCount := length (filter (λ o, hasPricingValue o = true)
            [l_completion l; l_cache l; l_createCache l; l_image l; l_audioInput l; l_audioOutput l]) in
          let base := t "Input"%string ++ js " $" ++ inputPrice in
          if 0 <? extraCount then base ++ DOT ++ show_N (N.of_nat extraCount) ++ js " " ++ t "extras"%string else base
      end
  end.

Definition getPriceDetail (row : ModelPricingSnapshot) (t : string → jsstring) : jsstring :=
  match billingMode row with
  | Some tiered_expr => match or_empty (s_rules row) with [] => t "Expression based"%string | _ => t "Includes request rules"%string end
  | Some per_request => t "Fixed request price"%string
  | _ =>
      match ratioToPrice (ratio row) None with
      | [] => t "No base input price"%string
      | inputPrice =>
          let detail (o : option jsstring) (label : string) :=
            match or_empty o with [] => [] | r => [t label ++ js " $" ++ ratioToPrice (Some r) (Some inputPrice)] end in
          let l := laneRatio row in
          match take 2 (detail (l_completion l) "Output"%string ++ detail (l_cache l) "Cache"%string ++ detail (l_createCache l) "Cache write"%string) with
          | [] => t "Base input price only"%string
          | details => join DOT details
          end
      end
  end.

(** [v?.toString() || '']. *)
Definition text_of (v : jsval) : res js_error jsstring :=
  match v with
  | JUndef | JNull => Ok []
  | JObj ps => match jget (js "toString") ps with Some _ => Throw TypeError | None => Ok (to_string v) end
  | _ => Ok (to_string v)
  end.

(** The text that an expression is split from. *)
Definition expr_of (v : jsval) : res js_error jsstring :=
  match v with JStr s => Ok s | _ => if truthy v then Throw TypeError else Ok [] end.

(** The row of a model from what the ten objects have for its name. *)
Definition snapshot_from (n : jsstring) (entry : OptionKey → jsval) : res js_error ModelPricingSnapshot :=
  let text k := text_of (entry k) in
  price ← text ModelPrice;
  ratio ← text ModelRatio;
  cacheR ← text (LaneRatio cache);
  createR ← text (LaneRatio createCache);
  complR ← text (LaneRatio completion);
  imageR ← text (LaneRatio image);
  audioR ← text (LaneRatio audioInput);
  audioOutR ← text (LaneRatio audioOutput);
  let lanes := mkLanes (Some complR) (Some cacheR) (Some createR) (Some imageR) (Some audioR) (Some audioOutR) in
  if is_lit (entry BillingMode) "tiered_expr" then
    fullExpr ← expr_of (entry BillingExpr_);
    split ← splitBillingExprAndRequestRules fullExpr;
    Ok (mkSnapshot n (Some price) (Some ratio) lanes (Some tiered_expr)
      (Some (BillingExpr.billingExpr split)) (Some (BillingExpr.requestRuleExpr split)) false)
  else
    let fixed := negb (bool_decide (price = [])) in
    Ok (mkSnapshot n (Some price) (Some ratio) lanes (Some (if fixed then per_request else per_token)) None None
      (fixed && existsb (λ s, negb (bool_decide (s = []))) [ratio; complR; cacheR; createR; imageR; audioR; audioOutR])).

Definition snapshot_of (m : Maps) (n : jsstring) : res js_error ModelPricingSnapshot :=
  snapshot_from n (λ k, own n (map_at k m)).

Definition buildModelSnapshots (o : Options) : res js_error (list ModelPricingSnapshot) :=
  let m := read_maps o in
  names ← mapM_res (λ p, object_keys p.2) m;
  mapM_res (snapshot_of m) (set_of (mjoin names)).

Definition mode_text (m : PricingMode) : jsstring :=
  match m with per_token => js "per-token" | per_request => js "per-request" | tiered_expr => js "tiered_expr" end.
Definition signature_object (s : ModelPricingSnapshot) : jsval :=
  let l := laneRatio s in
  JObj [
    (js "price", JStr (or_empty (price s))); (js "ratio", JStr (or_empty (ratio s)));
    (js "cacheRatio", JStr (or_empty (l_cache l))); (js "createCacheRatio", JStr (or_empty (l_createCache l)));
    (js "completionRatio", JStr (or_empty (l_completion l))); (js "imageRatio", JStr (or_empty (l_image l)));
    (js "audioRatio", JStr (or_empty (l_audioInput l))); (js "audioCompletionRatio", JStr (or_empty (l_audioOutput l)));
    (js "billingMode", JStr (mode_text (default per_token (billingMode s))));
    (js "billingExpr", JStr (or_empty (s_expr s))); (js "requestRuleExpr", JStr (or_empty (s_rules s)))].
Definition getSnapshotSignature (snapshot : option ModelPricingSnapshot) : jsstring :=
  match snapshot with None => [] | Some s => JSON_stringify 0 (signature_object s) end.

(** ** Saving *)
Definition setIfPresent (k : OptionKey) (n : jsstring) (value : option jsstring) (m : Maps) : res js_error Maps :=
  match or_empty value with
  | [] => Ok m
  | s => let parsed := parse_float s in
         if is_finite parsed then at_key k (assign_key n (JNum parsed)) m else Ok m
  end.

Definition LANE_ORDER : list LaneKey := [cache; createCache; completion; image; audioInput; audioOutput].
Fixpoint set_lanes (n : jsstring) (d : ModelRatioData) (ks : list LaneKey) (m : Maps) : res js_error Maps :=
  match ks with
  | [] => Ok m
  | k :: ks => m ← setIfPresent (LaneRatio k) n (lane (d_lane d) k) m; set_lanes n d ks m
  end.

Definition delete_all (n : jsstring) (m : Maps) : res js_error Maps := mapM_res (λ p, v ← delete_key n p.2; Ok (p.1, v)) m.

Definition persist_one (d : ModelRatioData) (m : Maps) (n : jsstring) : res js_error Maps :=
  m ← delete_all n m;
  if decide (d_mode d = Some tiered_expr) then
    m ← match combineBillingExpr (or_empty (d_expr d)) (or_empty (d_rules d)) with
        | [] => Ok m
        | combined =>
            m ← at_key BillingMode (assign_key n (JStr (js "tiered_expr"))) m;
            at_key BillingExpr_ (assign_key n (JStr combined)) m
        end;
    m ← setIfPresent ModelPrice n (d_price d) m;
    m ← setIfPresent ModelRatio n (d_ratio d) m;
    set_lanes n d LANE_ORDER m
  else
    match or_empty (d_price d) with
    | _ :: _ => setIfPresent ModelPrice n (d_price d) m
    | [] => m ← setIfPresent ModelRatio n (d_ratio d) m; set_lanes n d LANE_ORDER m
    end.

Fixpoint persist_all (d : ModelRatioData) (names : list jsstring) (m : Maps) : res js_error Maps :=
  match names with [] => Ok m | n :: names => m ← persist_one d m n; persist_all d names m end.

(** The calls of onChange, for the ten options in turn. *)
Definition write_maps (m : Maps) : Options := λ k, JSON_stringify 2 (map_at k m).
Definition persistPricingData (d : ModelRatioData) (targetNames : list jsstring) (o : Options) : res js_error Options :=
  m ← persist_all d targetNames (read_maps o); Ok (write_maps m).
Definition deletePricingData (n : jsstring) (o : Options) : res js_error Options :=
  m ← delete_all n (read_maps o); Ok (write_maps m).

(** ** The table *)
Record ModelRow := mkModelRow {
  displayed : ModelPricingSnapshot; saved : option ModelPricingSnapshot; draft : option ModelPricingSnapshot;
  isDraftChanged : bool; isDraftDeleted : bool; isDraftNew : bool }.
Inductive FilterMode := all_models | unset_models.

(** The row of a name in a map built from the rows: the last one. *)
Definition row_of (n : jsstring) (rows : list ModelPricingSnapshot) : option ModelPricingSnapshot :=
  list_find (λ r, name r = n) (reverse rows) ≫= λ p, Some p.2.

Definition unpriced (n : jsstring) : ModelPricingSnapshot := mkSnapshot n None None (lanes_of (λ _, None)) (Some per_token) None None false.
Definition model_row (savedRows draftRows : list ModelPricingSnapshot) (n : jsstring) : ModelRow :=
  let saved := row_of n savedRows in
  let draft := row_of n draftRows in
  mkModelRow (match saved, draft with Some s, _ => s | None, Some d => d | None, None => unpriced n end) saved draft
    (negb (bool_decide (getSnapshotSignature saved = getSnapshotSignature draft)))
    (match saved, draft with Some _, None => true | _, _ => false end)
    (match saved, draft with None, Some _ => true | _, _ => false end).

Section table.
Variable localeCompare : jsstring → jsstring → Z.

Definition models (savedOptions options : Options) (filterMode : FilterMode) (candidateModelNames : option (list jsstring)) :
    res js_error (list ModelRow) :=
  savedRows ← buildModelSnapshots savedOptions;
  draftRows ← buildModelSnapshots options;
  let modelNames := match filterMode with
    | unset_models => set_of (default [] candidateModelNames)
    | all_models => set_of ((name <$> savedRows) ++ (name <$> draftRows))
    end in
  let rows := filter (λ r, isDraftDeleted r = false) (model_row savedRows draftRows <$> modelNames) in
  let rows := match filterMode with unset_models => filter (λ r, isBasePricingUnset (saved r) = true) rows | all_models => rows end in
  Ok (js_sort (λ a b, localeCompare (name (displayed a)) (name (displayed b))) rows).
End table.

Record ModeCounts := mkCounts { c_per_token : nat; c_per_request : nat; c_tiered_expr : nat }.
Definition modeCounts (rows : list ModelRow) : ModeCounts :=
  foldl (λ acc r, match billingMode (displayed r) with
    | Some per_request => mkCounts (c_per_token acc) (S (c_per_request acc)) (c_tiered_expr acc)
    | Some tiered_expr => mkCounts (c_per_token acc) (c_per_request acc) (S (c_tiered_expr acc))
    | _ => mkCounts (S (c_per_token acc)) (c_per_request acc) (c_tiered_expr acc)
    end) (mkCounts 0 0 0) rows.

(** ** The editor: the table beside the panel *)
Record Editor := mkEditor {
  options : Options; editorOpen : bool; sheetOpen : bool; editData : option ModelRatioData; globalFilter : jsstring; panel : Panel }.

(** The panel is filled when it appears and when the model to edit changes. *)
Definition set_edit (d : option ModelRatioData) (e : Editor) : Editor :=
  mkEditor (options e) (editorOpen e) (sheetOpen e) d (globalFilter e)
    (match d, editData e with None, None => panel e | _, _ => open_panel d end).
Definition setEditorOpen (b : bool) (e : Editor) : Editor :=
  mkEditor (options e) b (sheetOpen e) (editData e) (globalFilter e) (if b && negb (editorOpen e) then open_panel (editData e) else panel e).
Definition setSheetOpen (b : bool) (e : Editor) : Editor :=
  mkEditor (options e) (editorOpen e) b (editData e) (globalFilter e) (panel e).
Definition set_options (o : Options) (e : Editor) : Editor :=
  mkEditor o (editorOpen e) (sheetOpen e) (editData e) (globalFilter e) (panel e).
Definition on_panel (f : Panel → Panel) (e : Editor) : Editor :=
  mkEditor (options e) (editorOpen e) (sheetOpen e) (editData e) (globalFilter e) (f (panel e)).
Definition close (e : Editor) : Editor := setSheetOpen false (setEditorOpen false (set_edit None e)).

Definition edit_data (r : ModelRow) : ModelRatioData :=
  let editableModel := match draft r, saved r with Some d, _ => d | None, Some s => s | None, None => displayed r end in
  let editBillingMode :=
    if decide (billingMode editableModel = Some tiered_expr) then tiered_expr
    else match or_empty (price editableModel) with [] => per_token | _ => per_request end in
  mkData (name editableModel) (price editableModel) (ratio editableModel) (laneRatio editableModel) (Some editBillingMode)
    (s_expr editableModel) (s_rules editableModel).

Definition handleEdit (isMobile : bool) (r : ModelRow) (e : Editor) : Editor :=
  let e := setEditorOpen true (set_edit (Some (edit_data r)) e) in if isMobile then setSheetOpen true e else e.
Definition handleAdd (isMobile : bool) (e : Editor) : Editor :=
  let e := setEditorOpen true (set_edit None e) in if isMobile then setSheetOpen true e else e.
Definition handleGlobalFilterChange (next : jsstring) (e : Editor) : Editor :=
  let e' := if decide (next = globalFilter e) then e else close e in
  mkEditor (options e') (editorOpen e') (sheetOpen e') (editData e') next (panel e').

Definition handleDelete (n : jsstring) (e : Editor) : res js_error Editor :=
  o ← deletePricingData n (options e);
  let e := set_options o e in
  Ok (if decide (d_name <$> editData e = Some n) then close e else e).

Inductive Toast := open_source_first | select_target | applied (source : jsstring) (count : nat).
Definition handleBatchCopy (targetNames : list jsstring) (e : Editor) : res js_error (Editor * list Toast) :=
  match editData e with
  | None => Ok (e, [open_source_first])
  | Some source =>
      match (if editorOpen e then commitDraft (panel e) else Some source) with
      | None => Ok (e, [])
      | Some sourceData =>
          let e := if editorOpen e then set_edit (Some sourceData) e else e in
          match targetNames with
          | [] => Ok (e, [select_target])
          | _ =>
              o ← persistPricingData sourceData (set_of (d_name sourceData :: targetNames)) (options e);
              Ok (set_options o e, [applied (d_name sourceData) (length targetNames)])
          end
      end
  end.

(** What the save of the page runs first; false keeps it from going on. *)
Definition commitOpenEditor (e : Editor) : res js_error (Editor * bool) :=
  if editorOpen e then
    match commitDraft (panel e) with
    | None => Ok (e, false)
    | Some data =>
        o ← persistPricingData data [d_name data] (options e);
        Ok (set_edit (Some data) (set_options o e), true)
    end
  else Ok (e, true).
