(* ===== verification/ModelPricingFacts.v ===== *)
(** Facts of the model prices: what a save and a deletion leave of the table, ratios that
    follow the prices of the panel, and rows that are marked as changed. *)
From S2P Require Import Prelude JsString JsValue Json JsPrint JsNumber JsonQuote JsonPrint JsDynamic BillingExpr PricingFormat ModelPricing.
Local Open Scope nat_scope.

(** ** Lanes *)
Lemma lane_lanes_of {A} (f : LaneKey → A) k : lane (lanes_of f) k = f k.
Proof. by destruct k. Qed.

Lemma lane_lane_set {A} k (x : A) l j : lane (lane_set k x l) j = if decide (j = k) then x else lane l j.
Proof. apply lane_lanes_of. Qed.

Lemma lanes_ext {A} (a b : Lanes A) : (∀ k, lane a k = lane b k) → a = b.
Proof.
  intros H. destruct a, b. pose proof (H completion). pose proof (H cache). pose proof (H createCache). pose proof (H image).
  pose proof (H audioInput). pose proof (H audioOutput). simpl in *. by subst.
Qed.

(** ** Ten objects *)
Lemma in_option_order k : k ∈ OPTION_ORDER.
Proof. destruct k as [| |[]| |]; unfold OPTION_ORDER; set_solver. Qed.

Abbreviation Members := (list (jsstring * jsval)).
(** The ten objects with the members [f]. *)
Definition objs (f : OptionKey → Members) : Maps := (λ k, (k, JObj (f k))) <$> OPTION_ORDER.

Lemma objs_ext f g : (∀ k, f k = g k) → objs f = objs g.
Proof. intros H. apply list_fmap_ext. intros i k _. by rewrite H. Qed.

Lemma Ok_objs f g : (∀ k, f k = g k) → Ok (objs f) = Ok (objs g) :> res js_error Maps.
Proof. intros H. by rewrite (objs_ext f g H). Qed.

Lemma map_at_objs k f : map_at k (objs f) = JObj (f k).
Proof. by destruct k as [| |[]| |]. Qed.

Lemma mapM_res_fmap {E A B C} (g : B → res E C) (F : A → B) (G : A → C) l :
  (∀ x, g (F x) = Ok (G x)) → mapM_res g (F <$> l) = Ok (G <$> l).
Proof. intros H. induction l as [|x l IH]; [done|]. cbn [fmap list_fmap mapM_res]. by rewrite H, IH. Qed.

(** Assigning a value that may be missing. *)
Definition put (n : jsstring) (v : option jsval) (m : Members) : Members :=
  match v with Some x => order_props (jset n x m) | None => m end.

Lemma at_key_objs k n x f :
  at_key k (assign_key n x) (objs f) = Ok (objs (λ j, if decide (j = k) then put n (Some x) (f j) else f j)).
Proof.
  apply mapM_res_fmap. intros j. cbn [fst snd]. destruct (decide (j = k)) as [->|]; [|done]. done.
Qed.

Lemma delete_all_objs n f : delete_all n (objs f) = Ok (objs (λ k, jdel n (f k))).
Proof. by apply mapM_res_fmap. Qed.

(** What a text field writes. *)
Definition number (value : option jsstring) : option jsval :=
  match or_empty value with [] => None | s => let x := parse_float s in if is_finite x then Some (JNum x) else None end.

Lemma setIfPresent_objs k n value f :
  setIfPresent k n value (objs f) = Ok (objs (λ j, if decide (j = k) then put n (number value) (f j) else f j)).
Proof.
  unfold setIfPresent, number. destruct (or_empty value) as [|c s].
  { apply Ok_objs. intros j. by case_decide. }
  cbv zeta. destruct (is_finite _); [apply at_key_objs|]. apply Ok_objs. intros j. by case_decide.
Qed.

Lemma set_lanes_objs n d ks f : NoDup ks →
  set_lanes n d ks (objs f) = Ok (objs (λ j, match j with
    | LaneRatio k => if decide (k ∈ ks) then put n (number (lane (d_lane d) k)) (f j) else f j
    | _ => f j
    end)).
Proof.
  revert f. induction ks as [|k ks IH]; intros f HN; cbn [set_lanes].
  { done. }
  apply NoDup_cons in HN as [Hk HN]. rewrite setIfPresent_objs. cbn [mbind res_bind]. rewrite IH by done. apply Ok_objs.
  intros [| |j| |]; try (rewrite decide_False by done; done). destruct (decide (j = k)) as [->|Hj].
  - destruct (decide (k ∈ ks)); [done|]. by rewrite (decide_True (P := k ∈ k :: ks)), decide_True by (done || left).
  - rewrite (decide_False (P := LaneRatio j = LaneRatio k)) by congruence. destruct (decide (j ∈ ks)) as [Hin|Hin].
    + by rewrite decide_True by (by right).
    + by rewrite decide_False by (by intros [|]%elem_of_cons).
Qed.

Lemma all_lanes k : k ∈ LANE_ORDER.
Proof. destruct k; unfold LANE_ORDER; set_solver. Qed.
Lemma lanes_distinct : NoDup LANE_ORDER.
Proof. by eapply bool_decide_unpack; vm_compute. Qed.

(** The whole expression of a model that is billed by one. *)
Definition combined (d : ModelRatioData) : jsstring := combineBillingExpr (or_empty (d_expr d)) (or_empty (d_rules d)).
Definition is_tiered (d : ModelRatioData) : bool := bool_decide (d_mode d = Some tiered_expr).
(** Whether ratios are saved too, or a fixed price alone. *)
Definition by_ratio (d : ModelRatioData) : bool := is_tiered d || bool_decide (or_empty (d_price d) = []).

(** What a save writes for a model in each option. *)
Definition written (d : ModelRatioData) (k : OptionKey) : option jsval :=
  match k with
  | ModelPrice => number (d_price d)
  | ModelRatio => if by_ratio d then number (d_ratio d) else None
  | LaneRatio l => if by_ratio d then number (lane (d_lane d) l) else None
  | BillingMode => if is_tiered d && negb (bool_decide (combined d = [])) then Some (JStr (js "tiered_expr")) else None
  | BillingExpr_ => if is_tiered d && negb (bool_decide (combined d = [])) then Some (JStr (combined d)) else None
  end.

Lemma persist_one_objs d f n : persist_one d (objs f) n = Ok (objs (λ k, put n (written d k) (jdel n (f k)))).
Proof.
  unfold persist_one. rewrite delete_all_objs. cbn [mbind res_bind]. unfold written, by_ratio, is_tiered. fold (combined d).
  destruct (decide (d_mode d = Some tiered_expr)) as [Ht|Ht].
  - rewrite bool_decide_eq_true_2 by done. cbn [andb orb].
    assert (∀ g : OptionKey → Members, (m ← setIfPresent ModelPrice n (d_price d) (objs g);
        m ← setIfPresent ModelRatio n (d_ratio d) m; set_lanes n d LANE_ORDER m) =
      Ok (objs (λ k, put n (match k with ModelPrice => number (d_price d) | ModelRatio => number (d_ratio d)
        | LaneRatio l => number (lane (d_lane d) l) | _ => None end) (g k)))) as Hrest.
    { intros g. rewrite setIfPresent_objs. cbn [mbind res_bind]. rewrite setIfPresent_objs. cbn [mbind res_bind].
      rewrite set_lanes_objs by apply lanes_distinct. apply Ok_objs.
      intros [| |l| |]; try done. by rewrite decide_True by apply all_lanes. }
    destruct (combined d) as [|c s] eqn:Ec; cbn [mbind res_bind].
    + rewrite Hrest. apply Ok_objs. by intros [].
    + rewrite at_key_objs. cbn [mbind res_bind]. rewrite at_key_objs. cbn [mbind res_bind]. rewrite Hrest. apply Ok_objs.
      by intros [].
  - rewrite bool_decide_eq_false_2 by done. cbn [andb orb]. destruct (or_empty (d_price d)) as [|c s] eqn:Ep.
    + rewrite setIfPresent_objs. cbn [mbind res_bind]. rewrite set_lanes_objs by apply lanes_distinct. apply Ok_objs.
      intros [| |l| |]; cbn [put]; try done; [|by rewrite decide_True by apply all_lanes]. unfold number. by rewrite Ep.
    + rewrite setIfPresent_objs. apply Ok_objs. by intros [].
Qed.

(** The members after a save under several names. *)
Definition put_all (v : option jsval) (names : list jsstring) (m : Members) : Members := foldl (λ m n, put n v (jdel n m)) m names.

Lemma persist_all_objs d names f : persist_all d names (objs f) = Ok (objs (λ k, put_all (written d k) names (f k))).
Proof.
  revert f. induction names as [|n names IH]; intros f; [done|]. cbn [persist_all]. rewrite persist_one_objs. cbn [mbind res_bind].
  by rewrite IH.
Qed.

Lemma put_NoDup n v m : NoDup (jkeys m) → NoDup (jkeys (put n v m)).
Proof. intros H. destruct v; [|done]. cbn. unfold jkeys. rewrite order_props_perm. by apply NoDup_jset. Qed.

Lemma jget_put_if q n v m : NoDup (jkeys m) → jget n m = None → jget q (put n v m) = if decide (n = q) then v else jget q m.
Proof.
  intros HN Hn. destruct v as [x|]; cbn [put]; [|by case_decide; subst].
  rewrite <- (jget_perm q (jset n x m) _); [apply jget_jset|by apply NoDup_jset|symmetry; apply order_props_perm].
Qed.

Lemma put_all_spec v names m : NoDup (jkeys m) →
  NoDup (jkeys (put_all v names m)) ∧ ∀ q, jget q (put_all v names m) = if decide (q ∈ names) then v else jget q m.
Proof.
  revert m. induction names as [|n names IH]; intros m HN.
  { split; [done|]. intros q. by rewrite decide_False by apply not_elem_of_nil. }
  destruct (IH (put n v (jdel n m))) as [H1 H2]; [by apply put_NoDup, NoDup_jdel|]. split; [exact H1|]. intros q. cbn [put_all foldl].
  change (foldl _ _ _) with (put_all v names (put n v (jdel n m))). rewrite H2.
  rewrite jget_put_if; [|by apply NoDup_jdel|by rewrite jget_jdel, decide_True]. rewrite jget_jdel.
  destruct (decide (q ∈ names)) as [Hq|Hq]; [by rewrite decide_True by (by right)|]. destruct (decide (n = q)) as [->|Hn].
  - by rewrite decide_True by left.
  - rewrite decide_False; [done|]. by intros [->|]%elem_of_cons.
Qed.

Lemma put_all_ok v names m : json_ok (JObj m) = true → forallb units_ok names = true → from_option json_ok true v = true →
  json_ok (JObj (put_all v names m)) = true.
Proof.
  revert m. induction names as [|n names IH]; intros m Hm Hn Hv; [done|]. cbn in Hn. apply andb_true_iff in Hn as [Hn Hns].
  apply IH; [|done|done]. destruct v; cbn [put]; [|by apply json_ok_jdel]. apply json_ok_put; [by apply json_ok_jdel|done|done].
Qed.

(** ** Texts that hold objects *)
Definition members (o : Options) (k : OptionKey) : Members :=
  match safeJsonParse (o k) (JObj []) with JObj ps => ps | _ => [] end.

(** Every option is the text of an object, or blank. *)
Definition options_ok (o : Options) : Prop :=
  ∀ k, safeJsonParse (o k) (JObj []) = JObj (members o k) ∧ json_ok (JObj (members o k)) = true.

Lemma read_maps_ok o : options_ok o → read_maps o = objs (members o).
Proof. intros H. apply list_fmap_ext. intros i k _. by rewrite (proj1 (H k)). Qed.

Lemma ok_NoDup m : json_ok (JObj m) = true → NoDup (jkeys m).
Proof. cbn [json_ok]. intros [_ H]%andb_true_iff. by apply members_ok_iff in H as [H _]. Qed.

Lemma write_read f k : json_ok (JObj (f k)) = true → safeJsonParse (write_maps (objs f) k) (JObj []) = JObj (f k).
Proof.
  intros H. unfold safeJsonParse, write_maps. rewrite map_at_objs, stringify_obj_trimmed.
  destruct (stringify_obj_cons 2 (f k)) as [s E]. rewrite E. rewrite <- E. by rewrite JSON_parse_stringify.
Qed.

Lemma members_written f k : json_ok (JObj (f k)) = true → members (write_maps (objs f)) k = f k.
Proof. intros H. unfold members. by rewrite write_read. Qed.

Lemma written_ok f : (∀ k, json_ok (JObj (f k)) = true) → options_ok (write_maps (objs f)).
Proof. intros H k. rewrite members_written by done. split; [by apply write_read|done]. Qed.

(** ** Rows *)
Definition entry (f : OptionKey → Members) (n : jsstring) (k : OptionKey) : jsval := default JUndef (jget n (f k)).
Definition named (f : OptionKey → Members) (n : jsstring) : Prop := ∃ k, is_Some (jget n (f k)).
Definition names_of (f : OptionKey → Members) : list jsstring := set_of (mjoin ((λ k, jkeys (f k)) <$> OPTION_ORDER)).

Lemma elem_of_names f n : n ∈ names_of f ↔ named f n.
Proof.
  unfold names_of, named. rewrite elem_of_set_of, list_elem_of_join. split.
  - intros (l & Hn & (k & -> & _)%list_elem_of_fmap). exists k. by apply jget_is_Some.
  - intros [k Hk]. exists (jkeys (f k)). split; [by apply jget_is_Some|]. apply list_elem_of_fmap. exists k.
    split; [done|apply in_option_order].
Qed.

Lemma snapshot_ext n e e' : (∀ k, e k = e' k) → snapshot_from n e = snapshot_from n e'.
Proof. intros H. unfold snapshot_from. by rewrite !H. Qed.

Lemma snapshot_name n e r : snapshot_from n e = Ok r → name r = n.
Proof.
  unfold snapshot_from, mbind, res_bind. intros H. repeat (case_match; simplify_eq; try done).
Qed.

Lemma build_ok o : options_ok o →
  buildModelSnapshots o = mapM_res (λ n, snapshot_from n (entry (members o) n)) (names_of (members o)).
Proof.
  intros H. unfold buildModelSnapshots. rewrite (read_maps_ok o H). cbv zeta.
  assert (mapM_res (λ p, object_keys p.2) (objs (members o)) = Ok ((λ k, jkeys (members o k)) <$> OPTION_ORDER)) as -> by by apply mapM_res_fmap.
  cbn [mbind res_bind].
  change (set_of _) with (names_of (members o)). generalize (names_of (members o)) as l.
  induction l as [|n l IH]; [done|]. cbn [mapM_res]. rewrite IH. unfold snapshot_of.
  by rewrite (snapshot_ext n _ (entry (members o) n)) by (intros k; by rewrite map_at_objs).
Qed.

Lemma rows_iff o rows r : options_ok o → buildModelSnapshots o = Ok rows →
  r ∈ rows ↔ named (members o) (name r) ∧ snapshot_from (name r) (entry (members o) (name r)) = Ok r.
Proof.
  intros Ho Hr. rewrite build_ok in Hr by done. apply mapM_res_Forall2 in Hr. split.
  - intros [i Hi]%list_elem_of_lookup. destruct (Forall2_lookup_r _ _ _ _ _ Hr Hi) as (n & Hn & Hs).
    rewrite (snapshot_name _ _ _ Hs). split; [|done]. apply elem_of_names. by eapply list_elem_of_lookup_2.
  - intros [Hn Hs]. apply elem_of_names, list_elem_of_lookup in Hn as [i Hi].
    destruct (Forall2_lookup_l _ _ _ _ _ Hr Hi) as (r' & Hr' & Hs'). assert (r' = r) as -> by congruence.
    by eapply list_elem_of_lookup_2.
Qed.

Lemma rows_exist o : options_ok o → (∀ n, named (members o) n → ∃ r, snapshot_from n (entry (members o) n) = Ok r) →
  ∃ rows, buildModelSnapshots o = Ok rows.
Proof.
  intros Ho H. rewrite build_ok by done. assert (∀ n, n ∈ names_of (members o) → ∃ r, snapshot_from n (entry (members o) n) = Ok r) as Hl.
  { intros n Hn. by apply H, elem_of_names. }
  revert Hl. generalize (names_of (members o)) as l. induction l as [|n l IH]; intros Hl; [by eexists|]. cbn [mapM_res].
  destruct (Hl n) as [r ->]; [by left|]. destruct IH as [rows ->]; [intros; apply Hl; by right|]. by eexists.
Qed.

(** A change of the entries of some names: what it leaves of the table. *)
Lemma rows_changed o f (names : list jsstring) (row : jsstring → ModelPricingSnapshot) rows :
  options_ok o → (∀ k, json_ok (JObj (f k)) = true) → buildModelSnapshots o = Ok rows →
  (∀ n, n ∉ names → ∀ k, jget n (f k) = jget n (members o k)) →
  (∀ n, n ∈ names → named f n → snapshot_from n (entry f n) = Ok (row n)) → (∀ n, name (row n) = n) →
  ∃ rows', buildModelSnapshots (write_maps (objs f)) = Ok rows' ∧
    ∀ r, r ∈ rows' ↔ ((name r ∉ names) ∧ r ∈ rows) ∨ (name r ∈ names ∧ named f (name r) ∧ r = row (name r)).
Proof.
  intros Ho Hf Hr Hsame Hrow Hname. pose proof (written_ok f Hf) as Ho'.
  assert (∀ k, members (write_maps (objs f)) k = f k) as Hm by (intros k; by apply members_written).
  assert (∀ n, named (members (write_maps (objs f))) n ↔ named f n) as Hnamed.
  { intros n. unfold named. by setoid_rewrite Hm. }
  assert (∀ n, snapshot_from n (entry (members (write_maps (objs f))) n) = snapshot_from n (entry f n)) as Hs.
  { intros n. apply snapshot_ext. intros k. unfold entry. by rewrite Hm. }
  assert (∀ n, n ∉ names → named f n ↔ named (members o) n) as Hold1.
  { intros n Hn. unfold named. by setoid_rewrite (Hsame n Hn). }
  assert (∀ n, n ∉ names → snapshot_from n (entry f n) = snapshot_from n (entry (members o) n)) as Hold2.
  { intros n Hn. apply snapshot_ext. intros k. unfold entry. by rewrite Hsame. }
  destruct (rows_exist _ Ho') as [rows' Hrows'].
  { intros n Hn%Hnamed. rewrite Hs. destruct (decide (n ∈ names)) as [Hin|Hin]; [eexists; by apply Hrow|].
    rewrite Hold2 by done. apply Hold1 in Hn; [|done]. rewrite build_ok in Hr by done. apply mapM_res_Forall2 in Hr.
    apply elem_of_names, list_elem_of_lookup in Hn as [i Hi]. destruct (Forall2_lookup_l _ _ _ _ _ Hr Hi) as (r & _ & E). by exists r. }
  exists rows'. split; [done|]. intros r. rewrite (rows_iff _ _ _ Ho' Hrows'), Hnamed, Hs.
  destruct (decide (name r ∈ names)) as [Hin|Hin].
  - split.
    + intros [Hn E]. right. split_and!; [done..|]. rewrite Hrow in E by done. congruence.
    + intros [[]|(_ & Hn & ->)]; [done|]. rewrite Hname in *. split; [done|by apply Hrow].
  - rewrite Hold1, Hold2 by done. rewrite <- (rows_iff _ _ r Ho Hr). split; [by left|]. intros [[_ ?]|[? _]]; done.
Qed.

(** What is left of a field: the number that its text starts with. *)
Definition kept (value : option jsstring) : jsstring := match number value with Some (JNum x) => show_num x | _ => [] end.

(** The row of a model that is saved with [d], whose expression splits into [sp]. *)
Definition saved_row (d : ModelRatioData) (sp : SplitBilling) (n : jsstring) : ModelPricingSnapshot :=
  let fixed := kept (d_price d) in
  let field v := if by_ratio d then kept v else [] in
  let lanes := lanes_of (λ k, field (lane (d_lane d) k)) in
  let expr := is_tiered d && negb (bool_decide (combined d = [])) in
  mkSnapshot n (Some fixed) (Some (field (d_ratio d))) (lanes_of (λ k, Some (lane lanes k)))
    (Some (if expr then tiered_expr else if decide (fixed = []) then per_token else per_request))
    (if expr then Some (BillingExpr.billingExpr sp) else None) (if expr then Some (BillingExpr.requestRuleExpr sp) else None)
    (negb expr && negb (bool_decide (fixed = [])) &&
     existsb (λ s, negb (bool_decide (s = []))) (field (d_ratio d) :: (lane lanes <$> [completion; cache; createCache; image; audioInput; audioOutput]))).

Lemma text_of_number v : text_of (default JUndef (number v)) = Ok (kept v).
Proof. unfold kept, number. destruct (or_empty v); [done|]. cbv zeta. by destruct (is_finite _). Qed.

Lemma saved_snapshot d sp n : splitBillingExprAndRequestRules (combined d) = Ok sp →
  snapshot_from n (λ k, default JUndef (written d k)) = Ok (saved_row d sp n).
Proof.
  intros Hsp. unfold snapshot_from. cbn [written].
  assert (∀ v, text_of (default JUndef (if by_ratio d then number v else None)) = Ok (if by_ratio d then kept v else [])) as Hf.
  { intros v. destruct (by_ratio d); [apply text_of_number|done]. }
  rewrite text_of_number. cbn [mbind res_bind]. rewrite !Hf. cbn [mbind res_bind]. unfold saved_row.
  destruct (is_tiered d && negb (bool_decide (combined d = []))) eqn:Ee; cbn [default from_option negb]; unfold id.
  - change (is_lit (JStr (js "tiered_expr")) "tiered_expr") with true. cbv iota. cbn [expr_of mbind res_bind]. rewrite Hsp. done.
  - cbn [is_lit andb]. destruct (decide (kept (d_price d) = [])) as [E|E].
    + by rewrite bool_decide_eq_true_2.
    + by rewrite bool_decide_eq_false_2.
Qed.

(** What may be saved: names and texts of code units, numbers that print as themselves. *)
Definition data_ok (d : ModelRatioData) : Prop := ∀ k, from_option json_ok true (written d k) = true.
(** Something is left to save. *)
Definition priced (d : ModelRatioData) : Prop := ∃ k, is_Some (written d k).

(** C13: saving a model's prices, under its name or copied to several, changes the table as it
    should.  If every option holds an object, the save does not throw and leaves objects; the
    rows of other models are exactly those of before; each target has the one row that its
    data describes (the fixed price alone when there is one, all ratios otherwise, all of
    them beside an expression), or none when nothing is left to save. *)
Theorem prices_saved d names o rows sp :
  options_ok o → forallb units_ok names = true → data_ok d → splitBillingExprAndRequestRules (combined d) = Ok sp →
  buildModelSnapshots o = Ok rows →
  ∃ o' rows', persistPricingData d names o = Ok o' ∧ options_ok o' ∧ buildModelSnapshots o' = Ok rows' ∧
    ∀ r, r ∈ rows' ↔ ((name r ∉ names) ∧ r ∈ rows) ∨ (name r ∈ names ∧ priced d ∧ r = saved_row d sp (name r)).
Proof.
  intros Ho Hn Hd Hsp Hr. unfold persistPricingData. rewrite (read_maps_ok o Ho), persist_all_objs. cbn [mbind res_bind].
  set (f := λ k, put_all (written d k) names (members o k)).
  assert (∀ k, json_ok (JObj (f k)) = true) as Hf by (intros k; apply put_all_ok; [apply Ho|done|apply Hd]).
  assert (∀ n k, jget n (f k) = if decide (n ∈ names) then written d k else jget n (members o k)) as Hget.
  { intros n k. apply put_all_spec, ok_NoDup, Ho. }
  destruct (rows_changed o f names (saved_row d sp) rows) as (rows' & Hrows' & Hiff); [done..| | |done|].
  - intros n Hin k. by rewrite Hget, decide_False.
  - intros n Hin _. rewrite <- (saved_snapshot d sp n Hsp). apply snapshot_ext. intros k. unfold entry. by rewrite Hget, decide_True.
  - exists (write_maps (objs f)), rows'. split_and!; [done|by apply written_ok|done|]. intros r. rewrite Hiff.
    enough (name r ∈ names → named f (name r) ↔ priced d) by naive_solver. intros Hin.
    split; intros [k Hk]; exists k; revert Hk; by rewrite Hget, decide_True.
Qed.

(** Deleting a model removes its row and no other. *)
Theorem prices_deleted n o rows : options_ok o → buildModelSnapshots o = Ok rows →
  ∃ o' rows', deletePricingData n o = Ok o' ∧ options_ok o' ∧ buildModelSnapshots o' = Ok rows' ∧
    ∀ r, r ∈ rows' ↔ name r ≠ n ∧ r ∈ rows.
Proof.
  intros Ho Hr. unfold deletePricingData. rewrite (read_maps_ok o Ho), delete_all_objs. cbn [mbind res_bind].
  set (f := λ k, jdel n (members o k)). assert (∀ k, json_ok (JObj (f k)) = true) as Hf by (intros k; apply json_ok_jdel, Ho).
  assert (¬ named f n) as Hgone by (intros [k [x Hk]]; unfold f in Hk; by rewrite jget_jdel, decide_True in Hk).
  destruct (rows_changed o f [n] unpriced rows) as (rows' & Hrows' & Hiff); [done..| | |done|].
  - intros q Hq k. unfold f. rewrite jget_jdel, decide_False; [done|]. intros ->. apply Hq. left.
  - intros q ->%list_elem_of_singleton Hq. done.
  - exists (write_maps (objs f)), rows'. split_and!; [done|by apply written_ok|done|]. intros r. rewrite Hiff.
    rewrite list_elem_of_singleton. split; [|naive_solver]. intros [?|(-> & ? & _)]; done.
Qed.

(** ** Ratios and prices of the panel *)

(** The ratio of a lane is the one that its price stands for. *)
Definition synced (p : Panel) (k : LaneKey) : Prop :=
  lane (f_lane (form p)) k =
  if lane (laneEnabled p) k then deriveLaneRatio k (lane (lanePrices p) k) (promptPrice p) (lanePrices p) else [].
Definition base_synced (p : Panel) : Prop := f_ratio (form p) = base_ratio (promptPrice p).
Definition all_synced (p : Panel) : Prop := base_synced p ∧ ∀ k, synced p k.

(** Nothing that a lane depends on has changed since the model was opened, and its ratio is
    the one that was stored. *)
Definition untouched (d : ModelRatioData) (p : Panel) (k : LaneKey) : Prop :=
  let p0 := open_panel (Some d) in
  lane (f_lane (form p)) k = or_empty (lane (d_lane d) k) ∧ lane (laneEnabled p) k = true ∧
  promptPrice p = promptPrice p0 ∧ lane (lanePrices p) k = lane (lanePrices p0) k ∧
  (k = audioOutput → lane (lanePrices p) audioInput = lane (lanePrices p0) audioInput).
Definition base_untouched (d : ModelRatioData) (p : Panel) : Prop :=
  f_ratio (form p) = or_empty (d_ratio d) ∧ promptPrice p = promptPrice (open_panel (Some d)).

Lemma sync_lanes v prices enabled f k :
  lane (f_lane (syncLaneRatios v prices enabled f)) k = if lane enabled k then deriveLaneRatio k (lane prices k) v prices else [].
Proof. destruct k; reflexivity. Qed.
Lemma sync_ratio v prices enabled f : f_ratio (syncLaneRatios v prices enabled f) = base_ratio v.
Proof. reflexivity. Qed.
Lemma sync_other v prices enabled f : f_price (syncLaneRatios v prices enabled f) = f_price f ∧ f_name (syncLaneRatios v prices enabled f) = f_name f.
Proof. done. Qed.

(** The lanes whose ratio hangs on the price of [j]. *)
Definition hangs (k j : LaneKey) : Prop := k = j ∨ (k = audioOutput ∧ j = audioInput).
#[local] Instance hangs_dec k j : Decision (hangs k j).
Proof. unfold hangs. apply _. Defined.

Lemma derive_ext k x v a b : (k = audioOutput → lane a audioInput = lane b audioInput) →
  deriveLaneRatio k x v a = deriveLaneRatio k x v b.
Proof. intros H. unfold deriveLaneRatio. destruct (decide (k = audioOutput)) as [E|]; [by rewrite H|done]. Qed.

Lemma lane_price_spec j v p : numericDraft v = true →
  let p' := handleLanePriceChange j v p in
  promptPrice p' = promptPrice p ∧ laneEnabled p' = laneEnabled p ∧ lanePrices p' = lane_set j v (lanePrices p) ∧
  ∀ k, lane (f_lane (form p')) k =
    if decide (hangs k j ∧ lane (laneEnabled p) k = true)
    then deriveLaneRatio k (lane (lanePrices p') k) (promptPrice p') (lanePrices p') else lane (f_lane (form p)) k.
Proof.
  intros Hv. unfold handleLanePriceChange. rewrite Hv. cbv zeta. set (next := lane_set j v (lanePrices p)).
  assert (∀ (b : bool) f q, promptPrice (if b then with_form f q else q) = promptPrice q ∧
    laneEnabled (if b then with_form f q else q) = laneEnabled q ∧ lanePrices (if b then with_form f q else q) = lanePrices q) as Hw by by intros [].
  split_and!; [by rewrite !(proj1 (Hw _ _ _))|by rewrite !(proj1 (proj2 (Hw _ _ _)))|by rewrite !(proj2 (proj2 (Hw _ _ _)))|].
  intros k. rewrite !(proj1 (Hw _ _ _)), !(proj2 (proj2 (Hw _ _ _))), !(proj1 (proj2 (Hw _ _ _))). cbn [promptPrice lanePrices laneEnabled with_lanes].
  destruct (lane (laneEnabled p) j) eqn:Ej, (bool_decide (j = audioInput) && lane (laneEnabled p) audioOutput) eqn:Ea;
    cbn [form with_form with_lanes f_lane setLane]; rewrite ?lane_lane_set; unfold hangs; boolify.
  all: repeat case_decide; try done; intuition (subst; try congruence).
  all: rewrite bool_decide_eq_true_2 in Ea by done; cbn [andb] in Ea; congruence.
Qed.

Lemma lane_toggle_spec j b p :
  let p' := handleLaneToggle j b p in
  promptPrice p' = promptPrice p ∧
  (∀ k, lane (laneEnabled p') k = if decide (k = j) then b else if decide (hangs k j ∧ b = false) then false else lane (laneEnabled p) k) ∧
  (∀ k, lane (lanePrices p') k = if decide (hangs k j ∧ b = false) then [] else lane (lanePrices p) k) ∧
  ∀ k, lane (f_lane (form p')) k =
    if decide (hangs k j ∧ b = false) then [] else if decide (k = j)
    then deriveLaneRatio k (lane (lanePrices p') k) (promptPrice p') (lanePrices p') else lane (f_lane (form p)) k.
Proof.
  unfold handleLaneToggle. destruct b; cbv zeta.
  - split_and!; [done| | |]; intros k; cbn [laneEnabled lanePrices promptPrice form with_form with_lanes f_lane setLane];
      rewrite ?lane_lane_set; rewrite ?(decide_False (P := hangs k j ∧ true = false)) by (by intros [_ ?]); repeat case_decide; by subst.
  - destruct (decide (j = audioInput)) as [->|Hj].
    all: split_and!; [done| | |]; intros k; cbn [laneEnabled lanePrices promptPrice form with_form with_lanes f_lane setLane];
      rewrite ?lane_lane_set; unfold hangs; repeat case_decide; subst; try done; naive_solver.
Qed.

Lemma synced_step p e k : synced p k → synced (panel_step p e) k.
Proof.
  intros H. destruct e as [v|j v|j b|m|x|x|x|x]; cbn [panel_step]; try exact H.
  - unfold handlePromptPriceChange. destruct (numericDraft v); [|exact H]. unfold synced. apply sync_lanes.
  - destruct (numericDraft v) eqn:Ev; [|unfold handleLanePriceChange; by rewrite Ev].
    destruct (lane_price_spec j v p Ev) as (Hp & He & Hl & Hf). unfold synced in *. rewrite Hf, He.
    destruct (lane (laneEnabled p) k) eqn:E; [|by rewrite decide_False by (by intros [_ ?])].
    destruct (decide (hangs k j)) as [Hk|Hk]; [by rewrite decide_True|]. rewrite decide_False by (by intros [? _]). rewrite H, Hp, Hl.
    unfold hangs in Hk. rewrite lane_lane_set, decide_False by tauto. apply derive_ext. intros ->.
    rewrite lane_lane_set, decide_False; [done|]. intros <-. apply Hk. by right.
  - destruct (lane_toggle_spec j b p) as (Hp & He & Hl & Hf). unfold synced in *. rewrite Hf, He. destruct (decide (hangs k j ∧ b = false)) as [[Hk ->]|Hk].
    { by destruct (decide (k = j)). }
    destruct (decide (k = j)) as [->|Hkj].
    { destruct b; [done|]. exfalso. apply Hk. split; [by left|done]. }
    rewrite Hl, Hp, H. rewrite decide_False by done. destruct (lane (laneEnabled p) k); [|done]. apply derive_ext. intros ->. rewrite Hl.
    rewrite decide_False; [done|]. intros [[?|[? _]] ->]; [|done]. subst j. apply Hk. split; [by right|done].
  - unfold typePrice. by destruct (numericDraft x).
Qed.

Lemma untouched_step d p e k : untouched d p k → synced (panel_step p e) k ∨ untouched d (panel_step p e) k.
Proof.
  intros H. destruct e as [v|j v|j b|m|x|x|x|x]; cbn [panel_step]; try (right; exact H).
  - unfold handlePromptPriceChange. destruct (numericDraft v); [|by right]. left. unfold synced. apply sync_lanes.
  - destruct (numericDraft v) eqn:Ev; [|unfold handleLanePriceChange; rewrite Ev; by right].
    destruct (lane_price_spec j v p Ev) as (Hp & He & Hl & Hf). destruct H as (Hr & Hen & Hpp & Hpl & Ha).
    destruct (decide (hangs k j)) as [Hk|Hk].
    + left. unfold synced. by rewrite Hf, He, Hen, decide_True.
    + right. unfold untouched. rewrite Hf, decide_False by (by intros [? _]). rewrite He, Hp, Hl, !lane_lane_set. unfold hangs in Hk.
      rewrite decide_False by tauto. split_and!; try done. intros ->. rewrite decide_False; [auto|]. intros <-. apply Hk. by right.
  - destruct (lane_toggle_spec j b p) as (Hp & He & Hl & Hf). destruct H as (Hr & Hen & Hpp & Hpl & Ha).
    destruct (decide (hangs k j ∧ b = false)) as [[Hk ->]|Hk].
    { left. unfold synced. rewrite Hf, He, !(decide_True (P := hangs k j ∧ false = false)) by done. by destruct (decide (k = j)). }
    destruct (decide (k = j)) as [->|Hkj].
    { left. unfold synced. rewrite Hf, He, !(decide_False (P := hangs j j ∧ b = false)), !(decide_True (P := j = j)) by done. destruct b; [done|]. exfalso. apply Hk. split; [by left|done]. }
    right. unfold untouched. rewrite Hf, He, Hp, !Hl, !(decide_False (P := hangs k j ∧ b = false)), !(decide_False (P := k = j)) by done.
    split_and!; try done. intros ->. rewrite decide_False; [auto|]. intros [[?|[? _]] ->]; [|done]. subst j. apply Hk. split; [by right|done].
  - unfold typePrice. destruct (numericDraft x); by right.
Qed.

Lemma base_step p e : base_synced p → base_synced (panel_step p e).
Proof.
  intros H. destruct e as [v|j v|j b|m|x|x|x|x]; cbn [panel_step]; try exact H.
  - unfold handlePromptPriceChange. by destruct (numericDraft v).
  - unfold handleLanePriceChange. destruct (numericDraft v); [|exact H]. cbv zeta. repeat case_match; exact H.
  - unfold handleLaneToggle. repeat case_match; exact H.
  - unfold typePrice. by destruct (numericDraft x).
Qed.

Lemma base_untouched_step d p e : base_untouched d p → base_synced (panel_step p e) ∨ base_untouched d (panel_step p e).
Proof.
  intros H. destruct e as [v|j v|j b|m|x|x|x|x]; cbn [panel_step]; try (by right).
  - unfold handlePromptPriceChange. destruct (numericDraft v); [by left|by right].
  - right. unfold handleLanePriceChange. destruct (numericDraft v); [|exact H]. cbv zeta. repeat case_match; exact H.
  - right. unfold handleLaneToggle. repeat case_match; exact H.
  - right. unfold typePrice. by destruct (numericDraft x).
Qed.

Lemma foldl_inv {A B} (f : A → B → A) (P : A → Prop) a l : P a → (∀ a b, P a → P (f a b)) → P (foldl f a l).
Proof. intros Ha Hf. revert a Ha. induction l as [|b l IH]; intros a Ha; [done|]. cbn. by apply IH, Hf. Qed.

Lemma all_synced_run p evs : all_synced p → all_synced (foldl panel_step p evs).
Proof. intros Hp. apply foldl_inv; [done|]. intros q e [Hb Hk]. split; [by apply base_step|]. intros k. by apply synced_step. Qed.

(** C14: whatever the user does in the panel, the ratios that will be saved are those of the
    prices that are shown: each is the one that its price stands for, or nothing when its
    lane is off; of a model that was opened, a ratio is the stored one as long as no price
    that it hangs on has changed.  From the first change of the input price on, and for
    a new model always, all are in step. *)
Theorem ratios_follow_prices d evs :
  let p := foldl panel_step (open_panel d) evs in
  (∀ k, synced p k ∨ ∃ m, d = Some m ∧ untouched m p k) ∧ (base_synced p ∨ ∃ m, d = Some m ∧ base_untouched m p) ∧
  (d = None ∨ (∃ v, PromptPrice v ∈ evs ∧ numericDraft v = true) → all_synced p).
Proof.
  assert (all_synced (open_panel None)) as Hnew by (split; [done|]; by intros []). split_and!.
  - intros k. apply (foldl_inv panel_step (λ p, synced p k ∨ ∃ m, d = Some m ∧ untouched m p k)).
    + destruct d as [m|]; [|left; apply Hnew]. destruct (hasValue (val (lane (d_lane m) k))) eqn:E.
      * right. exists m. split; [done|]. unfold untouched. cbn. rewrite !lane_lanes_of. done.
      * left. unfold synced. cbn. rewrite !lane_lanes_of, E. by destruct (lane (d_lane m) k) as [[]|].
    + intros p e [H|(m & -> & H)]; [left; by apply synced_step|]. destruct (untouched_step m p e k H); eauto.
  - apply (foldl_inv panel_step (λ p, base_synced p ∨ ∃ m, d = Some m ∧ base_untouched m p)).
    + destruct d as [m|]; [|left; apply Hnew]. right. by exists m.
    + intros p e [H|(m & -> & H)]; [left; by apply base_step|]. destruct (base_untouched_step m p e H); eauto.
  - intros [->|(v & Hv & Hn)]; [by apply all_synced_run|]. apply list_elem_of_split in Hv as (l & l' & ->). rewrite foldl_app. cbn [foldl].
    apply all_synced_run. cbn [panel_step]. unfold handlePromptPriceChange. rewrite Hn. split; [done|]. intros k. unfold synced. apply sync_lanes.
Qed.

(** ** A fixed price *)
Lemma price_kept p evs : (∀ x, PriceChange x ∉ evs) → f_price (form (foldl panel_step p evs)) = f_price (form p).
Proof.
  revert p. induction evs as [|e evs IH]; intros p He; [done|]. cbn [foldl]. rewrite IH by (intros x Hx; apply (He x); by right).
  destruct e as [v|j v|j b|m|x|x|x|x]; cbn [panel_step]; try done.
  - unfold handlePromptPriceChange. by destruct (numericDraft v).
  - unfold handleLanePriceChange. destruct (numericDraft v); [|done]. cbv zeta. by repeat case_match.
  - unfold handleLaneToggle. by repeat case_match.
  - exfalso. apply (He x). left.
Qed.

(** C28: a model with a fixed price cannot be turned to token prices by choosing that mode.
    As long as the field of the fixed price, which the mode does not show, is not changed,
    saving a draft in the mode of token prices that passes all checks writes the old fixed
    price again for every target (when its text is a number, and one that survives its JSON) and removes everything else:
    no ratio and no billing mode is left, whatever input price and other prices were
    entered. *)
Theorem fixed_price_sticks d evs data names o o' n k :
  or_empty (d_price d) ≠ [] → (∀ x, PriceChange x ∉ evs) → options_ok o → forallb units_ok names = true →
  pricingMode (foldl panel_step (open_panel (Some d)) evs) = per_token →
  commitDraft (foldl panel_step (open_panel (Some d)) evs) = Some data →
  persistPricingData data names o = Ok o' → n ∈ names →
  (k = ModelPrice → from_option json_ok true (number (d_price d)) = true) →
  own n (safeJsonParse (o' k) (JObj [])) =
    if decide (k = ModelPrice) then default JUndef (number (d_price d)) else JUndef.
Proof.
  intros Hp He Ho Hu Hm Hc Hs Hn Hj. pose proof (price_kept (open_panel (Some d)) evs He) as Hprice. change (f_price (form (open_panel (Some d)))) with (or_empty (d_price d)) in Hprice.
  set (p := foldl panel_step (open_panel (Some d)) evs) in *. unfold commitDraft in Hc.
  destruct (f_name (form p)); [done|]. destruct (validatePricingValues p); [done|]. injection Hc as <-.
  assert (written (buildSubmitData p) k = if decide (k = ModelPrice) then number (d_price d) else None) as Hw.
  { unfold written, by_ratio, is_tiered, number. cbn [buildSubmitData d_mode d_price or_empty default]. rewrite Hm, Hprice.
    rewrite !bool_decide_eq_false_2 by done. by destruct k; [|rewrite decide_False by done..]. }
  unfold persistPricingData in Hs. rewrite (read_maps_ok o Ho), persist_all_objs in Hs. injection Hs as <-.
  rewrite write_read.
  - unfold own. cbn [spread]. rewrite (proj2 (put_all_spec _ names _ (ok_NoDup _ (proj2 (Ho k))))). rewrite decide_True, Hw by done. by case_decide.
  - rewrite Hw. apply put_all_ok; [apply Ho|done|]. case_decide; [by apply Hj|done].
Qed.

(** With an input price of zero the other prices are lost without a word: the draft
    passes the checks, and every ratio but the one of audio output is empty. *)
Theorem zero_input_drops d evs v x data k :
  numericDraft v = true → toNumberOrNull (JStr v) = Some x → num_eqb x num0 = true →
  commitDraft (foldl panel_step (open_panel d) (evs ++ [PromptPrice v])) = Some data → k ≠ audioOutput →
  lane (d_lane data) k = Some [] ∧ ∀ n m, setIfPresent (LaneRatio k) n (lane (d_lane data) k) m = Ok m.
Proof.
  intros Hv Hx Hz Hc Hk. rewrite foldl_app in Hc. cbn [foldl panel_step] in Hc. set (p := foldl panel_step (open_panel d) evs) in *.
  unfold handlePromptPriceChange in Hc. rewrite Hv in Hc. unfold commitDraft in Hc. destruct (f_name _); [done|].
  destruct (validatePricingValues _); [done|]. injection Hc as <-. enough (lane (d_lane (buildSubmitData (with_form (syncLaneRatios v (lanePrices p) (laneEnabled p)) (with_prompt v p)))) k = Some []) as -> by done.
  unfold buildSubmitData. cbn [d_lane]. rewrite lane_lanes_of. cbn [form with_form]. rewrite sync_lanes. f_equal.
  destruct (lane (laneEnabled p) k); [|done]. unfold deriveLaneRatio. rewrite decide_False by done. rewrite Hx, Hz. by repeat case_match.
Qed.

(** ** Rows that are marked as changed *)
Definition pricing_of (s : ModelPricingSnapshot) : jsstring * jsstring * Lanes jsstring * PricingMode * jsstring * jsstring :=
  (or_empty (price s), or_empty (ratio s), lanes_of (λ k, or_empty (lane (laneRatio s) k)), default per_token (billingMode s),
   or_empty (s_expr s), or_empty (s_rules s)).
Definition snapshot_units (s : ModelPricingSnapshot) : bool :=
  forallb units_ok (or_empty (price s) :: or_empty (ratio s) :: or_empty (s_expr s) :: or_empty (s_rules s) ::
    ((λ k, or_empty (lane (laneRatio s) k)) <$> LANE_ORDER)).

Lemma signature_ok s : snapshot_units s = true → json_ok (signature_object s) = true.
Proof.
  intros H. unfold snapshot_units in H. cbn [fmap list_fmap LANE_ORDER forallb] in H.
  rewrite !andb_true_iff in H. cbn [lane] in H. destruct H as (? & ? & ? & ? & ? & ? & ? & ? & ? & ? & _).
  unfold signature_object. cbn [json_ok forallb]. rewrite !andb_true_iff. split_and!; try done; by destruct (billingMode s) as [[]|].
Qed.

Lemma signature_object_inj s t : signature_object s = signature_object t ↔ pricing_of s = pricing_of t.
Proof.
  assert (∀ m m', mode_text m = mode_text m' → m = m') as Hmode by by intros [] [].
  unfold signature_object, pricing_of, lanes_of. cbn [lane]. split.
  - intros E. injection E as -> -> -> -> -> -> -> -> E -> ->. by rewrite (Hmode _ _ E).
  - intros E. injection E as -> -> -> -> -> -> -> -> E -> ->. by rewrite E.
Qed.

Lemma signature_cons s : ∃ x, JSON_stringify 0 (signature_object s) = 123%N :: x.
Proof. apply stringify_obj_cons. Qed.

(** C32: a row of the table is marked as changed exactly when the pricing of the draft is not
    the saved one, taken field by field, and so never for a model whose draft was put
    back as it was. *)
Theorem changed_rows_exact savedRows draftRows n :
  Forall (λ r, snapshot_units r = true) savedRows → Forall (λ r, snapshot_units r = true) draftRows →
  isDraftChanged (model_row savedRows draftRows n) = false ↔ pricing_of <$> row_of n savedRows = pricing_of <$> row_of n draftRows.
Proof.
  intros Hs Hd. assert (∀ rows r, Forall (λ r, snapshot_units r = true) rows → row_of n rows = Some r → snapshot_units r = true) as Hrow.
  { intros rows r Hrows. unfold row_of. destruct (list_find _ (reverse rows)) as [[i x]|] eqn:E; [|done]. intros [= <-].
    apply list_find_Some in E as (Hi & _). apply list_elem_of_lookup_2 in Hi. rewrite elem_of_reverse in Hi. by apply (proj1 (Forall_forall _ _) Hrows). }
  unfold model_row. cbn [isDraftChanged]. rewrite negb_false_iff, bool_decide_eq_true.
  destruct (row_of n savedRows) as [s|] eqn:Es, (row_of n draftRows) as [t|] eqn:Et; cbn [getSnapshotSignature fmap option_fmap option_map].
  - apply Hrow in Es, Et; [|done..]. pose proof (signature_ok s Es) as Hs'. pose proof (signature_ok t Et) as Ht'. split.
    + intros E. f_equal. apply signature_object_inj. apply (f_equal JSON_parse) in E. rewrite !JSON_parse_stringify in E by done. congruence.
    + intros E. apply (inj Some), signature_object_inj in E. by rewrite E.
  - split; [|done]. by destruct (signature_cons s) as [x ->].
  - split; [|done]. by destruct (signature_cons t) as [x ->].
  - done.
Qed.

(** ** Instances *)
Definition sample_options : Options := λ k,
  match k with
  | ModelPrice => [123; 34; 97; 34; 58; 48; 46; 53; 125]%N
  | ModelRatio => [123; 34; 98; 34; 58; 49; 125]%N
  | _ => []
  end.

Definition sample_data : ModelRatioData := buildSubmitData (foldl panel_step (open_panel None)
  [NameChange (js "c"); PromptPrice (js "3"); LaneToggle completion true; LanePrice completion (js "15")]).

Lemma sample_options_ok : options_ok sample_options.
Proof. intros k. destruct k as [| |[]| |]; split; vm_compute; reflexivity. Defined.

Lemma prices_saved_witness :
  ∃ o' rows', persistPricingData sample_data [js "a"; js "c"] sample_options = Ok o' ∧ buildModelSnapshots o' = Ok rows' ∧
    ∀ r, r ∈ rows' ↔ ((name r ∉ [js "a"; js "c"]) ∧ r ∈ match buildModelSnapshots sample_options with Ok l => l | Throw _ => [] end) ∨
      (name r ∈ [js "a"; js "c"] ∧ priced sample_data ∧ r = saved_row sample_data {| billingExpr := []; requestRuleExpr := [] |} (name r)).
Proof.
  destruct (prices_saved sample_data [js "a"; js "c"] sample_options (match buildModelSnapshots sample_options with Ok l => l | Throw _ => [] end)
    {| billingExpr := []; requestRuleExpr := [] |}) as (o' & rows' & H1 & _ & H2 & H3).
  - exact sample_options_ok.
  - reflexivity.
  - intros k. destruct k as [| |[]| |]; vm_compute; reflexivity.
  - vm_compute. reflexivity.
  - vm_compute. reflexivity.
  - exists o', rows'. split; [exact H1|]. split; [exact H2|exact H3].
Defined.

Lemma prices_deleted_witness :
  ∃ o' rows', deletePricingData (js "a") sample_options = Ok o' ∧ buildModelSnapshots o' = Ok rows' ∧
    ∀ r, r ∈ rows' ↔ name r ≠ js "a" ∧ r ∈ match buildModelSnapshots sample_options with Ok l => l | Throw _ => [] end.
Proof.
  destruct (prices_deleted (js "a") sample_options (match buildModelSnapshots sample_options with Ok l => l | Throw _ => [] end)) as (o' & rows' & H1 & _ & H2 & H3).
  - exact sample_options_ok.
  - vm_compute. reflexivity.
  - exists o', rows'. split; [exact H1|]. split; [exact H2|exact H3].
Defined.

(** A model with a fixed price that is edited in the mode of token prices. *)
Definition fixed_model : ModelRatioData := mkData (js "a") (Some (js "0.5")) None (lanes_of (λ _, None)) (Some per_request) None None.
Definition to_token_prices : list PanelEvent := [ModeChange per_token; PromptPrice (js "3")].

Lemma fixed_price_sticks_witness :
  pricingMode (foldl panel_step (open_panel (Some fixed_model)) to_token_prices) = per_token ∧
  f_ratio (form (foldl panel_step (open_panel (Some fixed_model)) to_token_prices)) = js "1.5" ∧
  match commitDraft (foldl panel_step (open_panel (Some fixed_model)) to_token_prices) with
  | Some data => match persistPricingData data [js "a"] sample_options with
                 | Ok o' => ∀ k, own (js "a") (safeJsonParse (o' k) (JObj [])) = if decide (k = ModelPrice) then JNum (parse_float (js "0.5")) else JUndef
                 | Throw _ => False
                 end
  | None => False
  end.
Proof.
  split; [vm_compute; reflexivity|]. split; [vm_compute; reflexivity|].
  destruct (commitDraft _) as [data|] eqn:Ec; [|vm_compute in Ec; discriminate Ec].
  destruct (persistPricingData data [js "a"] sample_options) as [o'|] eqn:Eo.
  - intros k. apply (fixed_price_sticks fixed_model to_token_prices data [js "a"] sample_options o' (js "a") k).
    + discriminate.
    + intros x Hx. unfold to_token_prices in Hx. apply elem_of_cons in Hx as [Hx|Hx]; [discriminate|].
      apply elem_of_cons in Hx as [Hx|Hx]; [discriminate|]. by apply not_elem_of_nil in Hx.
    + exact sample_options_ok.
    + reflexivity.
    + vm_compute. reflexivity.
    + exact Ec.
    + exact Eo.
    + left.
    + intros _. vm_compute. reflexivity.
  - unfold persistPricingData in Eo. rewrite (read_maps_ok _ sample_options_ok), persist_all_objs in Eo. discriminate Eo.
Defined.

Lemma zero_input_drops_witness :
  match commitDraft (foldl panel_step (open_panel None)
      ([NameChange (js "c"); PromptPrice (js "3"); LaneToggle completion true; LanePrice completion (js "15")] ++ [PromptPrice (js "0")])) with
  | Some data => lane (d_lane data) completion = Some [] ∧ ∀ n m, setIfPresent (LaneRatio completion) n (lane (d_lane data) completion) m = Ok m
  | None => False
  end.
Proof.
  destruct (commitDraft _) as [data|] eqn:Ec; [|vm_compute in Ec; discriminate Ec].
  refine (zero_input_drops None [NameChange (js "c"); PromptPrice (js "3"); LaneToggle completion true; LanePrice completion (js "15")]
    (js "0") num0 data completion _ _ _ Ec _).
  - reflexivity.
  - vm_compute. reflexivity.
  - reflexivity.
  - discriminate.
Defined.

Lemma changed_rows_exact_witness :
  let row p := mkSnapshot (js "a") (Some (js p)) None (lanes_of (λ _, None)) (Some per_request) None None false in
  isDraftChanged (model_row [row "1"%string] [row "1"%string] (js "a")) = false ∧ isDraftChanged (model_row [row "1"%string] [row "2"%string] (js "a")) = true.
Proof.
  intros row. split; [|vm_compute; reflexivity].
  apply (changed_rows_exact [row "1"%string] [row "1"%string] (js "a")).
  - constructor; [reflexivity|constructor].
  - constructor; [reflexivity|constructor].
  - reflexivity.
Defined.
