(* ===== verification/ChannelTest.v ===== *)
(** Testing the models of a channel: components/dialogs/channel-test-dialog.tsx and
    handleTestChannel of lib/channel-actions.ts.

    The dialog tests one model at a time or all of them in batches of five, with a pause
    between batches, and can be stopped or closed at any time.  The requests, the pauses and
    the deletion of failed models are awaited: they are part of the state, and the event
    that settles one runs the rest of its function.  What follows one reply without
    waiting for the network or a timer happens before any other event.

    The state of the component ([View]) outlives the closing of the dialog, which stays
    mounted for the channel, and so do the functions that still wait. *)
From S2P Require Import Prelude JsString JsValue Json JsPrint JsNumber JsonQuote JsonPrint JsDynamic Actions PricingFormat.
Local Open Scope nat_scope.

(** ** Results *)
Inductive TestStatus := idle | testing | success | error.
#[export] Instance TestStatus_eq_dec : EqDecision TestStatus. Proof. solve_decision. Defined.

Record TestResult := mkResult {
  status : TestStatus; responseTime : option jsnum; completedAt : option Z; r_error : option jsstring; errorCode : option jsstring }.

Record BatchProgress := mkProgress { total : nat; completed : nat; succeeded : nat; failed : nat }.
Record ChannelTestCachePatch := mkPatch { p_responseTime : jsnum; testTime : Z }.

Definition createChannelTestCachePatch (time : option jsnum) (completedAt : Z) : option ChannelTestCachePatch :=
  match time with
  | Some x => if is_finite x then Some (mkPatch x (completedAt / 1000)) else None
  | None => None
  end.

(** The patch of the result that completed last, with the time of it. *)
Definition latest_step (latest : option (ChannelTestCachePatch * Z)) (r : TestResult) : option (ChannelTestCachePatch * Z) :=
  let at_ := default 0%Z (completedAt r) in
  match createChannelTestCachePatch (responseTime r) at_ with
  | None => latest
  | Some patch =>
      match latest with
      | Some (_, best) => if (best <=? at_)%Z then Some (patch, at_) else latest
      | None => Some (patch, at_)
      end
  end.
Definition getLatestChannelTestCachePatch (results : list TestResult) : option ChannelTestCachePatch :=
  fst <$> foldl latest_step None results.

(** ** Options of a test *)
Definition endpointTypeOptions : list (jsstring * jsstring) := (λ p, (js p.1, js p.2)) <$> [
  ("auto", "Auto detect (default)"); ("openai", "OpenAI (/v1/chat/completions)");
  ("openai-response", "OpenAI Responses (/v1/responses)");
  ("openai-response-compact", "OpenAI Response Compaction (/v1/responses/compact)"); ("anthropic", "Anthropic (/v1/messages)");
  ("gemini", "Gemini (/v1beta/models/{model}:generateContent)"); ("jina-rerank", "Jina Rerank (/v1/rerank)");
  ("image-generation", "Image Generation (/v1/images/generations)"); ("image-edit", "Image Edit (/v1/images/edits)");
  ("embeddings", "Embeddings (/v1/embeddings)")]%string.
Definition STREAM_INCOMPATIBLE_ENDPOINTS : list jsstring := js <$>
  ["embeddings"; "image-generation"; "image-edit"; "jina-rerank"; "openai-response-compact"]%string.
Definition MODEL_PRICE_ERROR_CODE : jsstring := js "model_price_error".
Definition FAILURE_SUMMARY_MAX_LENGTH : nat := 96.
Definition BATCH_TEST_CONCURRENCY : nat := 5.

(** ** How a failure is shown *)

(** [s.replaceAll(/\s+/g, ' ')]: each run of white space becomes a space. *)
Fixpoint squeeze (s : jsstring) : jsstring :=
  match s with
  | [] => []
  | c :: t => if is_ws c then match t with d :: _ => if is_ws d then squeeze t else 32%N :: squeeze t | [] => [32%N] end
              else c :: squeeze t
  end.
Definition normalizeInlineError (errorText : jsstring) : jsstring := trim (squeeze errorText).

(** [s.split(/\r?\n/)], each line trimmed: a carriage return before the end of a line is
    white space, so that splitting at the line feeds gives the same lines. *)
Definition getFirstErrorLine (errorText : jsstring) : option jsstring :=
  head (filter (λ l, l ≠ []) (trim <$> split_on 10%N errorText)).

Definition truncateFailureSummary (summary : jsstring) : jsstring :=
  if length summary <=? FAILURE_SUMMARY_MAX_LENGTH then summary
  else trim_end (take FAILURE_SUMMARY_MAX_LENGTH summary) ++ js "...".

Record FailureStatusDisplay := mkDisplay { summary : jsstring; details : option jsstring }.
Definition getFailureStatusDisplay (errorText : option jsstring) (fallbackSummary : jsstring) (isModelPriceError : bool)
    (modelPriceSummary : jsstring) : FailureStatusDisplay :=
  match trim (default [] errorText) with
  | [] => mkDisplay fallbackSummary None
  | rawError =>
      if isModelPriceError then mkDisplay modelPriceSummary (if decide (rawError = modelPriceSummary) then None else Some rawError)
      else
        let firstLine := default rawError (getFirstErrorLine rawError) in
        let summary := truncateFailureSummary (normalizeInlineError firstLine) in
        mkDisplay summary (if decide (summary = normalizeInlineError rawError) then None else Some rawError)
  end.

(** ** The request and its answer *)
Record Payload := mkPayload { model : option jsstring; endpoint_type : option jsstring; stream : bool }.
Definition nonempty (s : jsstring) : option jsstring := match s with [] => None | _ => Some s end.
Definition test_payload (testModel endpointType : jsstring) (stream : bool) : option Payload :=
  let p := mkPayload (nonempty testModel) (if decide (endpointType = js "auto") then None else nonempty endpointType) stream in
  match model p, endpoint_type p, stream with None, None, false => None | _, _, _ => Some p end.

Record ChannelTestResponse := mkResponse {
  ok : bool; message : option jsstring; error_code : option jsstring; data_response_time : option jsnum; time : option jsnum }.
Inductive Answer := Replied (r : ChannelTestResponse) | Rejected (message : option jsstring).

Definition finite_number (x : option jsnum) : option jsnum := x ≫= λ n, if is_finite n then Some n else None.
Definition getChannelTestResponseTime (r : ChannelTestResponse) : option jsnum :=
  match finite_number (data_response_time r) with
  | Some x => Some x
  | None =>
      match finite_number (time r) with
      | Some x => if num_ltb num0 x then Some (math_round (num_mul x (num_of_Z 1000))) else None
      | None => None
      end
  end.

Definition formatChannelTestDuration (responseTime : option jsnum) : option jsstring :=
  match responseTime with
  | None => None
  | Some x =>
      Some (if num_leb (num_of_Z 1000) x then to_fixed 2 (num_div x (num_of_Z 1000)) ++ js " s"
            else show_num (num_max (num_of_Z 1) (math_round x)) ++ js " ms")
  end.

Inductive Label := ChannelModel (name model : jsstring) | OfChannel (name : jsstring) | OfModel (model : jsstring) | AnyChannel.
Definition getChannelTestLabel (channelName testModel : jsstring) : Label :=
  match trim channelName, trim testModel with
  | [], [] => AnyChannel
  | [], m => OfModel m
  | c, [] => OfChannel c
  | c, m => ChannelModel c m
  end.

Definition TEST_FAILED : jsstring := js "Failed to test channel".
(** [message || default]. *)
Definition or_default (m : option jsstring) : jsstring := match m with None | Some [] => TEST_FAILED | Some s => s end.

Inductive Toast :=
| TestSucceeded (target : Label) (duration : option jsstring)
| TestFailed (target : Label) (description : jsstring)
| BatchStopped (p : BatchProgress) | BatchFailed (succeeded failed : nat) | BatchSucceeded (count : nat)
| Deleted (count : nat) | DeleteFailed (message : option jsstring).

(** What handleTestChannel reports and shows for an answer. *)
Definition answer_result (a : Answer) (now : Z) : TestResult :=
  match a with
  | Replied r =>
      let t := getChannelTestResponseTime r in
      if ok r then mkResult success t (Some now) None None
      else mkResult error t (Some now) (Some (or_default (message r))) (error_code r)
  | Rejected m => mkResult error None (Some now) (Some (or_default m)) None
  end.
Definition answer_toast (target : Label) (a : Answer) : Toast :=
  match a with
  | Replied r =>
      if ok r then TestSucceeded target (formatChannelTestDuration (getChannelTestResponseTime r))
      else TestFailed target (match error_code r with None | Some [] => or_default (message r) | Some c => or_default (message r) ++ js " (" ++ c ++ js ")" end)
  | Rejected m => TestFailed target (or_default m)
  end.

(** ** The cache of the lists of channels *)
Record CachedChannel := mkCached { c_id : Z; response_time : jsnum; test_time : Z }.
Definition updateChannelTestCache (currentChannelId : Z) (patch : option ChannelTestCachePatch) (items : list CachedChannel) : list CachedChannel :=
  match patch with
  | None => items
  | Some p => (λ c, if decide (c_id c = currentChannelId) then mkCached (c_id c) (p_responseTime p) (testTime p) else c) <$> items
  end.

(** ** The state *)
Record Channel := mkChannel { ch_id : Z; ch_name : jsstring; ch_models : jsstring }.

Record View := mkView {
  endpointType : jsstring; isStreamTest : bool; searchTerm : jsstring; testResults : list (jsstring * TestResult);
  rowSelection : list (jsstring * bool); testingModels : list jsstring; isBatchTesting : bool; isBatchStopRequested : bool;
  batchProgress : option BatchProgress; removedModels : list jsstring; isDeleteFailedDialogOpen : bool; isDeletingFailed : bool;
  failureDetails : option (jsstring * FailureStatusDisplay); pageIndex : nat }.
Definition initial_view : View := mkView (js "auto") false [] [] [] [] false false None [] false false None 0.

(** A test that is awaited, for itself or as part of a batch. *)
Record Test := mkTest { t_model : jsstring; t_run : option nat }.
(** A call of handleBatchTest: its models, the index its loop is at, whether it pauses, the
    options it was called with, and what it has counted. *)
Record Run := mkRun {
  r_models : list jsstring; startIndex : nat; pausing : bool; r_endpoint : jsstring; r_stream : bool;
  results : list TestResult; completedCount : nat; successCount : nat }.

Record Dialog := mkDialog {
  view : View; batchStopRequested : bool; tests : list (nat * Test); runs : list (nat * Run); deletions : list (nat * list jsstring); nextId : nat }.
Definition init : Dialog := mkDialog initial_view false [] [] [] 0.

Inductive Out :=
| Sent (id : nat) (run : option nat) (m : jsstring) (p : option Payload)
| Show (t : Toast)
| Started (run : nat) (models : list jsstring)
| Ended (run : nat) (stopped : bool) (p : BatchProgress)
| Refresh (patch : option ChannelTestCachePatch)
| UpdateModels (id : nat) (models : jsstring)
| Closed.
Abbreviation A := (act Dialog Out).

Section dialog.
Variable channel : Channel.

(** ** Fields *)
Definition set_view (f : View → View) (s : Dialog) : Dialog :=
  mkDialog (f (view s)) (batchStopRequested s) (tests s) (runs s) (deletions s) (nextId s).
Definition set_stop (b : bool) (s : Dialog) : Dialog := mkDialog (view s) b (tests s) (runs s) (deletions s) (nextId s).
Definition set_tests (l : list (nat * Test)) (s : Dialog) : Dialog := mkDialog (view s) (batchStopRequested s) l (runs s) (deletions s) (nextId s).
Definition set_runs (l : list (nat * Run)) (s : Dialog) : Dialog := mkDialog (view s) (batchStopRequested s) (tests s) l (deletions s) (nextId s).
Definition set_deletions (l : list (nat * list jsstring)) (s : Dialog) : Dialog :=
  mkDialog (view s) (batchStopRequested s) (tests s) (runs s) l (nextId s).
Definition take_id (s : Dialog) : Dialog := mkDialog (view s) (batchStopRequested s) (tests s) (runs s) (deletions s) (S (nextId s)).

Definition setOptions (e : jsstring) (b : bool) (v : View) : View :=
  mkView e b (searchTerm v) (testResults v) (rowSelection v) (testingModels v) (isBatchTesting v) (isBatchStopRequested v)
    (batchProgress v) (removedModels v) (isDeleteFailedDialogOpen v) (isDeletingFailed v) (failureDetails v) (pageIndex v).
Definition setSearch (t : jsstring) (v : View) : View :=
  mkView (endpointType v) (isStreamTest v) t (testResults v) (rowSelection v) (testingModels v) (isBatchTesting v) (isBatchStopRequested v)
    (batchProgress v) (removedModels v) (isDeleteFailedDialogOpen v) (isDeletingFailed v) (failureDetails v) 0.
Definition setResults (f : list (jsstring * TestResult) → list (jsstring * TestResult)) (d : option (jsstring * FailureStatusDisplay)) (v : View) : View :=
  mkView (endpointType v) (isStreamTest v) (searchTerm v) (f (testResults v)) (rowSelection v) (testingModels v) (isBatchTesting v)
    (isBatchStopRequested v) (batchProgress v) (removedModels v) (isDeleteFailedDialogOpen v) (isDeletingFailed v) d (pageIndex v).
Definition setSelection (l : list (jsstring * bool)) (v : View) : View :=
  mkView (endpointType v) (isStreamTest v) (searchTerm v) (testResults v) l (testingModels v) (isBatchTesting v) (isBatchStopRequested v)
    (batchProgress v) (removedModels v) (isDeleteFailedDialogOpen v) (isDeletingFailed v) (failureDetails v) (pageIndex v).
Definition setTesting (f : list jsstring → list jsstring) (v : View) : View :=
  mkView (endpointType v) (isStreamTest v) (searchTerm v) (testResults v) (rowSelection v) (f (testingModels v)) (isBatchTesting v)
    (isBatchStopRequested v) (batchProgress v) (removedModels v) (isDeleteFailedDialogOpen v) (isDeletingFailed v) (failureDetails v) (pageIndex v).
Definition setBatch (testing stopping : bool) (p : option BatchProgress) (v : View) : View :=
  mkView (endpointType v) (isStreamTest v) (searchTerm v) (testResults v) (rowSelection v) (testingModels v) testing stopping p
    (removedModels v) (isDeleteFailedDialogOpen v) (isDeletingFailed v) (failureDetails v) (pageIndex v).
Definition setBatchProgress (p : option BatchProgress) (v : View) : View := setBatch (isBatchTesting v) (isBatchStopRequested v) p v.
Definition setDeleting (dialog deleting : bool) (v : View) : View :=
  mkView (endpointType v) (isStreamTest v) (searchTerm v) (testResults v) (rowSelection v) (testingModels v) (isBatchTesting v)
    (isBatchStopRequested v) (batchProgress v) (removedModels v) dialog deleting (failureDetails v) (pageIndex v).
Definition setRemoved (l : list jsstring) (v : View) : View :=
  mkView (endpointType v) (isStreamTest v) (searchTerm v) (testResults v) (rowSelection v) (testingModels v) (isBatchTesting v)
    (isBatchStopRequested v) (batchProgress v) l (isDeleteFailedDialogOpen v) (isDeletingFailed v) (failureDetails v) (pageIndex v).

(** ** What is shown *)
Definition streamDisabled (v : View) : bool := set_has (endpointType v) STREAM_INCOMPATIBLE_ENDPOINTS.
Definition effectiveStreamTest (v : View) : bool := negb (streamDisabled v) && isStreamTest v.
Definition baseModels : list jsstring := filter (λ m, m ≠ []) (trim <$> split_on 44%N (ch_models channel)).
Definition models (v : View) : list jsstring := filter (λ m, m ∉ removedModels v) baseModels.
Definition with_status (st : TestStatus) (v : View) : list jsstring :=
  filter (λ m, status <$> jget m (testResults v) = Some st) (models v).
Definition successModels : View → list jsstring := with_status success.
Definition failedModels : View → list jsstring := with_status error.
Definition filteredModels (v : View) : list jsstring :=
  match searchTerm v with
  | [] => models v
  | keyword => filter (λ m, includes (to_lower keyword) (to_lower m) = true) (models v)
  end.
Definition isAnyTesting (v : View) : bool := negb (bool_decide (testingModels v = [])) || isBatchTesting v.

(** ** Handlers *)
Definition handleEndpointTypeChange (value : option jsstring) : A :=
  match value with
  | None => skip
  | Some e => upd (set_view (λ v, setOptions e (if set_has e STREAM_INCOMPATIBLE_ENDPOINTS then false else isStreamTest v) v))
  end.
Definition setIsStreamTest (b : bool) : A := upd (set_view (λ v, setOptions (endpointType v) b v)).
Definition handleSearchTermChange (t : jsstring) : A := upd (set_view (setSearch t)).

Definition markModelTesting (m : jsstring) (b : bool) : A := upd (set_view (setTesting (if b then set_add m else set_delete m))).
Definition updateTestResult (m : jsstring) (r : TestResult) : A :=
  upd (set_view (λ v, setResults (jset m r) (match failureDetails v with Some d => if decide (d.1 = m) then None else Some d | None => None end) v)).

Definition refreshChannelLists (patch : option ChannelTestCachePatch) : A := emit (Refresh patch).

(** testSingleModel up to its request; a test of a batch has the options of the batch. *)
Definition start_test (run : option nat) (endpoint : jsstring) (stream : bool) (m : jsstring) : A :=
  (markModelTesting m true ;; updateTestResult m (mkResult testing None None None None) ;;
   λ s, (take_id (set_tests (tests s ++ [(nextId s, mkTest m run)]) s), [Sent (nextId s) run m (test_payload m endpoint stream)]))%act.
Definition testSingleModel (m : jsstring) : A :=
  λ s, start_test None (endpointType (view s)) (effectiveStreamTest (view s)) m s.

Definition handleStopBatchTest : A :=
  when (λ s, isBatchTesting (view s) && negb (isBatchStopRequested (view s)))
    (upd (set_stop true) ;; upd (set_view (λ v, setBatch (isBatchTesting v) true (batchProgress v) v)))%act.

(** Starting the tests of a slice of the models. *)
Fixpoint start_tests (run : nat) (r : Run) (ms : list jsstring) : A :=
  match ms with [] => skip | m :: ms => (start_test (Some run) (r_endpoint r) (r_stream r) m ;; start_tests run r ms)%act end.
Definition batch (r : Run) : list jsstring := take BATCH_TEST_CONCURRENCY (drop (startIndex r) (r_models r)).

Definition progress (r : Run) : BatchProgress :=
  mkProgress (length (r_models r)) (completedCount r) (successCount r) (completedCount r - successCount r).

(** The end of handleBatchTest: the message, and its finally block. *)
Definition finish (run : nat) (r : Run) : A := λ s,
  let p := progress r in
  let stopped := batchStopRequested s && (completed p <? total p) in
  (emit (Ended run stopped p) ;;
   emit (Show (if stopped then BatchStopped p else if 0 <? failed p then BatchFailed (succeeded p) (failed p) else BatchSucceeded (succeeded p))) ;;
   upd (λ s, set_runs (jdel run (runs s)) (set_stop false (set_view (λ v, setSelection [] (setBatch false false None v)) s))) ;;
   refreshChannelLists (getLatestChannelTestCachePatch (results r)))%act s.

(** The head of the loop. *)
Definition loop (run : nat) (r : Run) : A :=
  ite (λ s, (startIndex r <? length (r_models r)) && negb (batchStopRequested s))
    (upd (λ s, set_runs (jset run r (runs s)) s) ;; start_tests run r (batch r))%act
    (finish run r).

Definition handleBatchTest (modelsToTest : list jsstring) : A := λ s,
  match set_of (filter (λ m, m ≠ []) (trim <$> modelsToTest)) with
  | [] => (s, [])
  | uniqueModels =>
      let run := nextId s in
      let r := mkRun uniqueModels 0 false (endpointType (view s)) (effectiveStreamTest (view s)) [] 0 0 in
      (upd take_id ;; upd (set_stop false) ;; upd (set_view (setBatch true false (Some (progress r)))) ;; emit (Started run uniqueModels) ;;
       loop run r)%act s
  end.

Definition recordBatchResult (res : TestResult) (r : Run) : Run :=
  mkRun (r_models r) (startIndex r) (pausing r) (r_endpoint r) (r_stream r) (results r ++ [res]) (S (completedCount r))
    (if decide (status res = success) then S (successCount r) else successCount r).

(** Whether a batch still awaits tests. *)
Definition awaits (run : nat) (s : Dialog) : bool := existsb (λ p, bool_decide (t_run p.2 = Some run)) (tests s).

Definition pause (r : Run) : Run :=
  mkRun (r_models r) (startIndex r) true (r_endpoint r) (r_stream r) (results r) (completedCount r) (successCount r).
Definition next_batch (r : Run) : Run :=
  mkRun (r_models r) (startIndex r + BATCH_TEST_CONCURRENCY) false (r_endpoint r) (r_stream r) (results r) (completedCount r) (successCount r).

(** A test of a batch has ended; when it was the last of its slice, the loop goes on. *)
Definition batch_result (run : nat) (res : TestResult) : A := λ s,
  match jget run (runs s) with
  | None => (s, [])
  | Some r =>
      let r := recordBatchResult res r in
      (upd (set_view (setBatchProgress (Some (progress r)))) ;; upd (λ s, set_runs (jset run r (runs s)) s) ;;
       when (λ s, negb (awaits run s))
         (ite (λ s, batchStopRequested s || (length (r_models r) <=? startIndex r + BATCH_TEST_CONCURRENCY))
           (finish run r) (upd (λ s, set_runs (jset run (pause r) (runs s)) s))))%act s
  end.

(** The answer to a test. *)
Definition answered (id : nat) (a : Answer) (now : Z) : A := λ s,
  match jget id (tests s) with
  | None => (s, [])
  | Some t =>
      let res := answer_result a now in
      (upd (λ s, set_tests (jdel id (tests s)) s) ;;
       match t_run t with
       | None => emit (Show (answer_toast (getChannelTestLabel (ch_name channel) (t_model t)) a))
       | Some _ => skip
       end ;;
       updateTestResult (t_model t) res ;; markModelTesting (t_model t) false ;;
       match t_run t with
       | None => refreshChannelLists (createChannelTestCachePatch (responseTime res) (default now (completedAt res)))
       | Some run => batch_result run res
       end)%act s
  end.

(** The pause between two slices is over. *)
Definition slept (run : nat) : A := λ s,
  match jget run (runs s) with Some r => if pausing r then loop run (next_batch r) s else (s, []) | None => (s, []) end.

Definition handleSelectSuccessfulModels : A :=
  upd (set_view (λ v, setSelection (foldl (λ m k, jset k true m) [] (successModels v)) v)).

Definition handleDeleteFailedModels : A := λ s,
  match failedModels (view s) with
  | [] => (set_view (λ v, setDeleting false (isDeletingFailed v) v) s, [])
  | failed =>
      let remaining := filter (λ m, m ∉ failed) (models (view s)) in
      (take_id (set_deletions (deletions s ++ [(nextId s, failed)]) (set_view (λ v, setDeleting (isDeleteFailedDialogOpen v) true v) s)),
       [UpdateModels (nextId s) (join [44%N] remaining)])
  end.
Inductive DeleteAnswer := DeleteOk | DeleteRefused (message : option jsstring).
Definition delete_answered (id : nat) (a : DeleteAnswer) : A := λ s,
  match jget id (deletions s) with
  | None => (s, [])
  | Some failed =>
      let drop_all {B} (m : list (jsstring * B)) := filter (λ p, p.1 ∉ failed) m in
      (upd (λ s, set_deletions (jdel id (deletions s)) s) ;;
       match a with
       | DeleteOk =>
           upd (set_view (λ v, setRemoved (foldl (λ l m, set_add m l) (removedModels v) failed) v)) ;;
           upd (set_view (λ v, setResults drop_all (failureDetails v) v)) ;;
           upd (set_view (λ v, setSelection (drop_all (rowSelection v)) v)) ;;
           emit (Show (Deleted (length failed))) ;; refreshChannelLists None ;;
           upd (set_view (λ v, setDeleting false (isDeletingFailed v) v))
       | DeleteRefused m => emit (Show (DeleteFailed m))
       end ;;
       upd (set_view (λ v, setDeleting (isDeleteFailedDialogOpen v) false v)))%act s
  end.

Definition resetState : A := (upd (set_stop true) ;; upd (set_view (λ _, initial_view)))%act.
Definition handleClose : A := (resetState ;; emit Closed)%act.

(** ** Events *)
Inductive Event :=
| Endpoint (value : option jsstring) | Stream (b : bool) | Search (t : jsstring) | Select (l : list (jsstring * bool))
| TestOne (m : jsstring) | TestAll | StopBatch | SelectSuccessful | AskDelete (b : bool) | DeleteFailedModels
| OpenDetails (d : option (jsstring * FailureStatusDisplay)) | Close
| Answered (id : nat) (a : Answer) (now : Z) | Slept (run : nat) | DeleteAnswered (id : nat) (a : DeleteAnswer).

Definition handle (e : Event) : A :=
  match e with
  | Endpoint v => handleEndpointTypeChange v
  | Stream b => setIsStreamTest b
  | Search t => handleSearchTermChange t
  | Select l => upd (set_view (setSelection l))
  | TestOne m => testSingleModel m
  | TestAll => λ s, handleBatchTest (filteredModels (view s)) s
  | StopBatch => handleStopBatchTest
  | SelectSuccessful => handleSelectSuccessfulModels
  | AskDelete b => upd (set_view (λ v, setDeleting b (isDeletingFailed v) v))
  | DeleteFailedModels => handleDeleteFailedModels
  | OpenDetails d => upd (set_view (setResults (λ m, m) d))
  | Close => handleClose
  | Answered id a now => answered id a now
  | Slept run => slept run
  | DeleteAnswered id a => delete_answered id a
  end.

(** What may happen: buttons that are not disabled, and what is awaited. *)
Definition enabled (e : Event) (s : Dialog) : Prop :=
  match e with
  | TestOne m => m ∈ filteredModels (view s) ∧ m ∉ testingModels (view s) ∧ isBatchTesting (view s) = false
  | TestAll => isAnyTesting (view s) = false ∧ filteredModels (view s) ≠ []
  | StopBatch => isBatchTesting (view s) = true ∧ isBatchStopRequested (view s) = false
  | Stream _ => streamDisabled (view s) = false
  | Answered id _ _ => is_Some (jget id (tests s))
  | Slept run => pausing <$> jget run (runs s) = Some true
  | DeleteAnswered id _ => is_Some (jget id (deletions s))
  | _ => True
  end.

Definition step : Dialog → Event * list Out → Dialog → Prop := machine_step enabled handle.
End dialog.
