(* ===== verification/ChannelTestFacts.v ===== *)
(** Facts of the dialog that tests the models of a channel: a batch tests each model once, at
    most five at a time, and always ends; what closing the dialog does to it. *)
From S2P Require Import Prelude JsString JsValue Json JsPrint JsNumber JsonQuote JsonPrint JsDynamic Actions PricingFormat ChannelTest.
Local Open Scope nat_scope.

(** ** Tests of a batch *)

(** The models that a batch has sent, in order, and those that it awaits. *)
Definition sent_in (run : nat) (os : list Out) : list jsstring :=
  omap (λ o, match o with Sent _ (Some r) m _ => if decide (r = run) then Some m else None | _ => None end) os.
Definition flight (run : nat) (s : Dialog) : list jsstring :=
  t_model <$> filter (λ t, t_run t = Some run) (snd <$> tests s).
Definition started_ids (os : list Out) : list nat := omap (λ o, match o with Started r _ => Some r | _ => None end) os.

(** A call that says nothing of a batch. *)
Definition quiet (o : Out) : bool :=
  match o with Sent _ (Some _) _ _ | Started _ _ | Ended _ _ _ => false | _ => true end.

Lemma sent_in_app r os os' : sent_in r (os ++ os') = sent_in r os ++ sent_in r os'.
Proof. apply omap_app. Qed.
Lemma sent_in_quiet r os : forallb quiet os = true → sent_in r os = [].
Proof.
  induction os as [|o os IH]; [done|]. cbn [forallb]. intros [Ho Hos]%andb_true_iff. unfold sent_in in *. cbn [omap list_omap].
  destruct o as [? [] | | | | | |]; try done; by apply IH.
Qed.
Lemma started_app os os' : started_ids (os ++ os') = started_ids os ++ started_ids os'.
Proof. apply omap_app. Qed.
Lemma started_quiet os : forallb quiet os = true → started_ids os = [].
Proof.
  induction os as [|o os IH]; [done|]. cbn [forallb]. intros [Ho Hos]%andb_true_iff. unfold started_ids in *. cbn [omap list_omap].
  destruct o as [? [] | | | | | |]; try done; by apply IH.
Qed.
Lemma quiet_elem os o : forallb quiet os = true → quiet o = false → o ∉ os.
Proof. intros H Ho Hin. apply forallb_Forall in H. rewrite Forall_forall in H. specialize (H o Hin). congruence. Qed.

(** A batch that runs. *)
Record run_ok (os : list Out) (s : Dialog) (r : nat) (run : Run) : Prop := {
  ok_started : Started r (r_models run) ∈ os;
  ok_distinct : NoDup (r_models run);
  ok_start : startIndex run < length (r_models run);
  ok_sent : sent_in r os = take (startIndex run + BATCH_TEST_CONCURRENCY) (r_models run);
  ok_count : completedCount run + length (flight r s) = length (sent_in r os);
  ok_window : length (flight r s) <= BATCH_TEST_CONCURRENCY;
  ok_success : successCount run <= completedCount run;
  ok_pausing : if pausing run then flight r s = [] ∧ startIndex run + BATCH_TEST_CONCURRENCY < length (r_models run) else flight r s ≠ [] }.

(** A batch that has ended. *)
Definition end_ok (os : list Out) (r : nat) (stopped : bool) (p : BatchProgress) : Prop :=
  ∃ ms, Started r ms ∈ os ∧ NoDup ms ∧ total p = length ms ∧ sent_in r os = take (completed p) ms ∧
    completed p = succeeded p + failed p ∧ if stopped then completed p < total p else completed p = total p.

(** Every batch is well, [x] apart. *)
Record Inv_but (x : option nat) (os : list Out) (s : Dialog) : Prop := {
  inv_tests : NoDup (jkeys (tests s)) ∧ Forall (λ i, i < nextId s) (jkeys (tests s));
  inv_runs : NoDup (jkeys (runs s)) ∧ Forall (λ i, i < nextId s) (jkeys (runs s));
  inv_started : NoDup (started_ids os) ∧ Forall (λ i, i < nextId s) (started_ids os);
  inv_owned : ∀ i t r, (i, t) ∈ tests s → t_run t = Some r → r ∈ jkeys (runs s);
  inv_alive : ∀ r run, jget r (runs s) = Some run → x ≠ Some r → run_ok os s r run;
  inv_ended : ∀ r b p, Ended r b p ∈ os → (r ∉ jkeys (runs s)) ∧ end_ok os r b p;
  inv_fresh : ∀ r, sent_in r os ≠ [] → r < nextId s;
  inv_told : ∀ r, r ∈ started_ids os → r ∈ jkeys (runs s) ∨ x = Some r ∨ ∃ b p, Ended r b p ∈ os }.

Abbreviation Inv := (Inv_but None).

Lemma Inv_init : Inv [] init.
Proof.
  split; cbn; try (split; constructor); try done.
  - intros i t r H. by apply not_elem_of_nil in H.
  - intros r b p H. by apply not_elem_of_nil in H.
  - intros r H. by apply not_elem_of_nil in H.
Qed.

(** Calls that say nothing of a batch, and changes of what is shown, keep it. *)
Lemma run_ok_app os os' s s' r run : sent_in r os' = [] → flight r s' = flight r s → run_ok os s r run → run_ok (os ++ os') s' r run.
Proof.
  intros Hs Hf []. assert (sent_in r (os ++ os') = sent_in r os) as E by by rewrite sent_in_app, Hs, app_nil_r.
  split; rewrite ?E, ?Hf; try done. apply elem_of_app. by left.
Qed.

Lemma run_ok_view os s s' r run : flight r s' = flight r s → run_ok os s r run → run_ok os s' r run.
Proof. intros Hf H. rewrite <- (app_nil_r os). by apply (run_ok_app os [] s). Qed.

Lemma end_ok_app os os' r b p : sent_in r os' = [] → end_ok os r b p → end_ok (os ++ os') r b p.
Proof.
  intros Hs (ms & H1 & H2 & H3 & H4 & H5). exists ms. rewrite sent_in_app, Hs, app_nil_r. split_and!; try done; try apply H5.
  apply elem_of_app. by left.
Qed.

Lemma Inv_quiet x os os' s s' : forallb quiet os' = true → tests s' = tests s → runs s' = runs s → nextId s <= nextId s' →
  Inv_but x os s → Inv_but x (os ++ os') s'.
Proof.
  intros Hq Ht Hr Hn []. assert (∀ r, flight r s' = flight r s) as Hf by (intros r; unfold flight; by rewrite Ht).
  assert (∀ r, sent_in r os' = []) as Hs by (intros r; by apply sent_in_quiet).
  assert (∀ l, Forall (λ i, i < nextId s) l → Forall (λ i, i < nextId s') l) as Hlt by (intros l Hl; eapply Forall_impl; [exact Hl|]; cbn; lia).
  split; rewrite ?Ht, ?Hr; try done.
  - destruct inv_tests0. auto.
  - destruct inv_runs0. auto.
  - rewrite started_app, (started_quiet os'), app_nil_r by done. destruct inv_started0. auto.
  - intros r run Hrun Hx. apply (run_ok_app os os' s); auto.
  - intros r b p [Hin|Hin]%elem_of_app.
    + destruct (inv_ended0 r b p Hin). split; [done|]. by apply end_ok_app.
    + exfalso. by apply (quiet_elem _ _ Hq (eq_refl : quiet (Ended r b p) = false)).
  - intros r. rewrite sent_in_app, Hs, app_nil_r. intros H. specialize (inv_fresh0 r H). lia.
  - intros r. rewrite started_app, (started_quiet os'), app_nil_r by done. intros H. destruct (inv_told0 r H) as [|[|(b & p & Hin)]]; auto.
    right; right. exists b, p. apply elem_of_app. by left.
Qed.

(** ** Starting tests *)
Lemma start_test_spec run e b m s :
  let '(s', os) := start_test run e b m s in
  tests s' = tests s ++ [(nextId s, mkTest m run)] ∧ runs s' = runs s ∧ nextId s' = S (nextId s) ∧
  batchStopRequested s' = batchStopRequested s ∧ isBatchTesting (view s') = isBatchTesting (view s) ∧
  os = [Sent (nextId s) run m (test_payload m e b)].
Proof. done. Qed.

Definition new_tests (run : nat) (n : nat) (ms : list jsstring) : list (nat * Test) := imap (λ i m, (n + i, mkTest m (Some run))) ms.

Lemma start_tests_spec run r ms s :
  let '(s', os) := start_tests run r ms s in
  tests s' = tests s ++ new_tests run (nextId s) ms ∧ runs s' = runs s ∧ nextId s' = nextId s + length ms ∧
  batchStopRequested s' = batchStopRequested s ∧ isBatchTesting (view s') = isBatchTesting (view s) ∧
  (∀ q, sent_in q os = if decide (q = run) then ms else []) ∧ started_ids os = [] ∧ (∀ q b p, Ended q b p ∉ os).
Proof.
  revert s. induction ms as [|m ms IH]; intros s; cbn [start_tests].
  { cbn. unfold new_tests. cbn [imap]. rewrite app_nil_r, Nat.add_0_r. split_and!; try done; [by intros q; case_decide|].
    intros q b p H. by apply not_elem_of_nil in H. }
  unfold seq_act. pose proof (start_test_spec (Some run) (r_endpoint r) (r_stream r) m s) as H1.
  destruct (start_test (Some run) (r_endpoint r) (r_stream r) m s) as [s1 o1]. destruct H1 as (T1 & R1 & N1 & B1 & V1 & ->).
  specialize (IH s1). destruct (start_tests run r ms s1) as [s2 o2]. destruct IH as (T2 & R2 & N2 & B2 & V2 & S2 & St2 & E2).
  split_and!.
  - rewrite T2, T1, N1, <- app_assoc. f_equal. cbn. rewrite Nat.add_0_r. f_equal. apply imap_ext. intros i x _. cbn. f_equal. lia.
  - congruence.
  - cbn. lia.
  - congruence.
  - congruence.
  - intros q. unfold sent_in in *. cbn [app omap list_omap]. rewrite S2. destruct (decide (run = q)) as [->|].
    + by rewrite !decide_True.
    + by rewrite !decide_False by congruence.
  - exact St2.
  - intros q b p [H|H]%elem_of_cons; [done|]. by apply (E2 q b p).
Qed.

Lemma flight_new q run n ms s s' : tests s' = tests s ++ new_tests run n ms →
  flight q s' = flight q s ++ (if decide (q = run) then ms else []).
Proof.
  intros E. unfold flight. rewrite E, fmap_app, filter_app, fmap_app. f_equal. unfold new_tests. rewrite fmap_imap. clear E.
  assert (imap (λ i m, (n + i, mkTest m (Some run)).2) ms = (λ m, mkTest m (Some run)) <$> ms) as E by (rewrite <- (imap_const (λ m, mkTest m (Some run))); done).
  change (imap _ ms) with (imap (λ i m, (n + i, mkTest m (Some run)).2) ms). rewrite E.
  induction ms as [|m ms IH]; [by case_decide|]. cbn [fmap list_fmap]. rewrite filter_cons. cbn [t_run].
  destruct (decide (q = run)) as [->|]; [rewrite decide_True by done|rewrite decide_False by congruence]; cbn [fmap list_fmap t_model];
    rewrite IH by (by apply imap_const); done.
Qed.

(** Fresh numbers keep the numbers of the tests apart. *)
Lemma new_ids_ok n (l : list nat) {B} (ms : list B) : NoDup l ∧ Forall (λ i, i < n) l →
  NoDup (l ++ imap (λ i _, n + i) ms) ∧ Forall (λ i, i < n + length ms) (l ++ imap (λ i _, n + i) ms).
Proof.
  intros [H1 H2]. assert (∀ x, x ∈ imap (λ i _, n + i) ms → n <= x < n + length ms) as Hx.
  { intros x (i & m & -> & Hi%lookup_lt_Some)%elem_of_lookup_imap. lia. }
  split.
  - apply NoDup_app. split_and!; [done| |].
    + intros x Hl Hm%Hx. rewrite Forall_forall in H2. specialize (H2 x Hl). cbn in H2. lia.
    + apply NoDup_alt. intros i j x Hi Hj. rewrite list_lookup_imap in Hi, Hj. apply fmap_Some in Hi as (? & _ & ->). apply fmap_Some in Hj as (? & _ & Hj). lia.
  - apply Forall_app. split; [eapply Forall_impl; [done|]; cbn; lia|]. apply Forall_forall. intros x Hm%Hx. lia.
Qed.

Lemma flight_elem r s m : m ∈ flight r s ↔ ∃ i t, (i, t) ∈ tests s ∧ t_run t = Some r ∧ t_model t = m.
Proof.
  unfold flight. rewrite list_elem_of_fmap. split.
  - intros (t & -> & (Hr & Ht)%list_elem_of_filter). apply list_elem_of_fmap in Ht as ([i t'] & -> & Ht). by exists i, t'.
  - intros (i & t & Ht & Hr & <-). exists t. split; [done|]. apply list_elem_of_filter. split; [done|]. apply list_elem_of_fmap. by exists (i, t).
Qed.

Lemma flight_owned x os s r : Inv_but x os s → r ∉ jkeys (runs s) → flight r s = [].
Proof.
  intros H Hr. destruct (flight r s) as [|m l] eqn:E; [done|]. assert (m ∈ flight r s) as Hm by (rewrite E; by left).
  apply flight_elem in Hm as (i & t & Ht & Er & _). destruct Hr. by eapply (inv_owned _ _ _ H).
Qed.

(** The end of a batch none of whose tests is awaited. *)
Lemma finish_ok os s run r : Inv_but (Some run) os s → flight run s = [] → Started run (r_models r) ∈ os → NoDup (r_models r) →
  sent_in run os = take (completedCount r) (r_models r) → completedCount r <= length (r_models r) → successCount r <= completedCount r →
  (∀ b p, Ended run b p ∉ os) → batchStopRequested s = true ∨ completedCount r = length (r_models r) →
  Inv (os ++ (finish run r s).2) (finish run r s).1.
Proof.
  intros H Hf Hst Hd Hs Hc Hsu Hne Hstop. unfold finish. set (b := batchStopRequested s && _).
  cbn [seq_act emit upd fst snd app refreshChannelLists]. set (o := Show _). set (rf := Refresh _).
  set (s' := set_runs _ _).
  assert (∀ q, sent_in q [Ended run b (progress r); o; rf] = []) as Hq by done.
  assert (∀ q, flight q s' = flight q s) as Hfl by done. destruct H. split.
  - done.
  - cbn. destruct inv_runs0 as [H1 H2]. split; [by apply NoDup_jdel|]. apply Forall_forall. intros i Hi. rewrite Forall_forall in H2. apply H2.
    apply jget_is_Some in Hi as [x Hx]. rewrite jget_jdel in Hx. case_decide; [done|]. apply jget_is_Some. by eexists.
  - rewrite started_app. cbn. by rewrite app_nil_r.
  - intros i t q Ht Eq. specialize (inv_owned0 i t q Ht Eq). apply jget_is_Some in inv_owned0 as [x Hx]. apply jget_is_Some.
    exists x. cbn. rewrite jget_jdel, decide_False; [done|]. intros <-. assert (t_model t ∈ flight run s) as Hin by (apply flight_elem; by exists i, t).
    rewrite Hf in Hin. by apply not_elem_of_nil in Hin.
  - intros q x Hx _. cbn in Hx. rewrite jget_jdel in Hx. case_decide as Hqr; [done|]. apply (run_ok_app os _ s); [done|done|]. apply inv_alive0; congruence.
  - intros q b' p' [Hin|Hin]%elem_of_app.
    + destruct (inv_ended0 q b' p' Hin) as [Hn He]. split; [|by apply end_ok_app]. intros [x Hx]%jget_is_Some. cbn in Hx. rewrite jget_jdel in Hx.
      case_decide; [done|]. apply Hn, jget_is_Some. by eexists.
    + repeat (apply elem_of_cons in Hin as [Hin|Hin]; [|try by apply not_elem_of_nil in Hin]); [|done|done]. injection Hin as -> -> ->. split.
      * intros [x Hx]%jget_is_Some. cbn in Hx. by rewrite jget_jdel, decide_True in Hx.
      * exists (r_models r). rewrite sent_in_app, Hq, app_nil_r. split_and!; [apply elem_of_app; by left|done|done|done|cbn; lia|].
        change (total (progress r)) with (length (r_models r)). change (completed (progress r)) with (completedCount r) in *.
        destruct b eqn:E; unfold b, progress in E; cbn [completed total] in E; clear - E Hc Hstop.
        { apply andb_true_iff in E as [_ E%Nat.ltb_lt]. exact E. }
        { apply andb_false_iff in E as [E|E%Nat.ltb_ge]; [|lia]. destruct Hstop; [congruence|lia]. }
  - intros q. rewrite sent_in_app, Hq, app_nil_r. apply inv_fresh0.
  - intros q Hin. rewrite started_app in Hin. cbn in Hin. rewrite app_nil_r in Hin. destruct (decide (q = run)) as [->|Hne'].
    { right; right. exists b, (progress r). apply elem_of_app. right. by left. }
    destruct (inv_told0 q Hin) as [[x Hx]%jget_is_Some|[|(b' & p' & Hin')]]; [|congruence|].
    + left. apply jget_is_Some. exists x. cbn. by rewrite jget_jdel, decide_False.
    + right; right. exists b', p'. apply elem_of_app. by left.
Qed.

(** The head of the loop, when none of the tests of a batch is awaited. *)
Lemma loop_ok os s run r : Inv_but (Some run) os s → flight run s = [] → Started run (r_models r) ∈ os → NoDup (r_models r) →
  run < nextId s → sent_in run os = take (startIndex r) (r_models r) → completedCount r = startIndex r →
  startIndex r < length (r_models r) → successCount r <= completedCount r → pausing r = false → (∀ b p, Ended run b p ∉ os) →
  Inv (os ++ (loop run r s).2) (loop run r s).1.
Proof.
  intros H Hf Hst Hd Hn Hs Hc Hlt Hsu Hp Hne. unfold loop, ite. destruct (batchStopRequested s) eqn:Eb; rewrite ?andb_false_r, ?andb_true_r.
  { apply finish_ok; auto; [by rewrite Hc|lia]. }
  apply Nat.ltb_lt in Hlt as Hlt'. rewrite Hlt'. cbn [negb andb]. rewrite seq_fst, seq_snd. cbn [upd fst snd app].
  pose proof (start_tests_spec run r (batch r) (set_runs (jset run r (runs s)) s)) as Hsp.
  destruct (start_tests run r (batch r) _) as [s2 o2]. destruct Hsp as (T & R & N & _ & _ & So & St & En). cbn [fst snd set_runs tests runs nextId] in *.
  assert (∀ q, flight q s2 = flight q s ++ (if decide (q = run) then batch r else [])) as Hfl by (intros q; by apply (flight_new q run (nextId s))).
  destruct H. split.
  - rewrite T, N. unfold jkeys in *. rewrite fmap_app. unfold new_tests. rewrite fmap_imap. apply new_ids_ok; done.
  - rewrite R, N. destruct inv_runs0 as [H1 H2]. split; [by apply NoDup_jset|]. rewrite jkeys_jset. apply Forall_forall. intros i Hi. cbn beta.
    apply elem_of_set_add in Hi as [->|Hi]; [lia|].
    rewrite Forall_forall in H2. specialize (H2 i Hi). cbn in H2. lia.
  - rewrite started_app, St, app_nil_r, N. destruct inv_started0. split; [done|]. eapply Forall_impl; [done|]. cbn. lia.
  - intros i t q Ht Eq. rewrite R. apply elem_of_jkeys_jset. rewrite T in Ht. apply elem_of_app in Ht as [Ht|Ht]; [right; by eapply inv_owned0|].
    left. unfold new_tests in Ht. apply elem_of_lookup_imap in Ht as (j & m & [= -> ->] & _). cbn in Eq. congruence.
  - intros q x Hx _. rewrite R, jget_jset in Hx. case_decide as Hqr.
    + injection Hx as <-. subst q. pose proof (Hfl run) as Hr. rewrite Hf, decide_True in Hr by done. cbn [app] in Hr.
      assert (sent_in run (os ++ o2) = take (startIndex r + BATCH_TEST_CONCURRENCY) (r_models r)) as E.
      { rewrite sent_in_app, Hs, So, decide_True by done. unfold batch. by rewrite take_take_drop. }
      split; rewrite ?E, ?Hr; try done.
      * apply elem_of_app. by left.
      * rewrite Hc. unfold batch. rewrite !length_take, length_drop. lia.
      * unfold batch. rewrite length_take. lia.
      * rewrite Hp. unfold batch. intros E0%(f_equal length). rewrite length_take, length_drop in E0. unfold BATCH_TEST_CONCURRENCY in E0. cbn [length] in E0. lia.
    + apply (run_ok_app os _ s); [by rewrite So, decide_False|by rewrite Hfl, decide_False, app_nil_r|]. apply inv_alive0; congruence.
  - intros q b p [Hin|Hin]%elem_of_app; [|by destruct (En q b p)].
    destruct (inv_ended0 q b p Hin) as [Hk He]. assert (q ≠ run) as Hqr by (intros ->; by apply (Hne b p)). split.
    + rewrite R, elem_of_jkeys_jset. intros [|]; done.
    + apply end_ok_app; [by rewrite So, decide_False|done].
  - intros q Hq. rewrite N. destruct (decide (q = run)) as [->|Hqr]; [lia|]. rewrite sent_in_app, So, decide_False, app_nil_r in Hq by done.
    specialize (inv_fresh0 q Hq). lia.
  - intros q Hin. rewrite started_app, St, app_nil_r in Hin. rewrite R, elem_of_jkeys_jset.
    destruct (inv_told0 q Hin) as [Hk|[[= ->]|(b' & p' & Hin')]]; auto. right; right. exists b', p'. apply elem_of_app. by left.
Qed.

(** ** Every event keeps the invariant *)
Lemma Inv_weaken run os s : Inv os s → Inv_but (Some run) os s.
Proof.
  intros []. split; try done; [intros r x Hx _; by apply inv_alive0|]. intros q Hin. destruct (inv_told0 q Hin) as [|[|]]; auto. done.
Qed.

Lemma Inv_close run os s : Inv_but (Some run) os s → run ∈ jkeys (runs s) → (∀ r, jget run (runs s) = Some r → run_ok os s run r) → Inv os s.
Proof.
  intros [] Hk H. split; try done.
  - intros q x Hx _. destruct (decide (q = run)) as [->|]; [by apply H|]. apply inv_alive0; congruence.
  - intros q Hin. destruct (inv_told0 q Hin) as [|[[= ->]|]]; auto.
Qed.

(** What a batch has counted is its own. *)
Lemma Inv_set_run run r os s : Inv_but (Some run) os s → run ∈ jkeys (runs s) → Inv_but (Some run) os (set_runs (jset run r (runs s)) s).
Proof.
  intros [] Hin. assert (∀ q, q ∈ jkeys (jset run r (runs s)) ↔ q ∈ jkeys (runs s)) as Hk.
  { intros q. rewrite elem_of_jkeys_jset. split; [by intros [->|]|auto]. }
  split; try done.
  - destruct inv_runs0 as [H1 H2]. split; [by apply NoDup_jset|]. apply Forall_forall. intros i Hi%Hk. rewrite Forall_forall in H2. by apply H2.
  - intros i t q Ht Eq. apply Hk. by eapply inv_owned0.
  - intros q x Hx Hne. cbn in Hx. rewrite jget_jset, decide_False in Hx by congruence. apply (run_ok_view os s); [done|]. by apply (inv_alive0 q x).
  - intros q b p Hin'. destruct (inv_ended0 q b p Hin') as [H1 H2]. split; [|done]. cbn. by rewrite Hk.
  - intros q Hs. cbn. rewrite Hk. by apply inv_told0.
Qed.

Lemma started_elem r ms os : Started r ms ∈ os → r ∈ started_ids os.
Proof. intros H. apply list_elem_of_omap. by exists (Started r ms). Qed.

(** A new batch. *)
Lemma Inv_start ms os s s' : Inv os s → tests s' = tests s → runs s' = runs s → nextId s' = S (nextId s) →
  let run := nextId s in
  Inv_but (Some run) (os ++ [Started run ms]) s' ∧ flight run s' = [] ∧ sent_in run (os ++ [Started run ms]) = [] ∧
  (∀ b p, Ended run b p ∉ os ++ [Started run ms]).
Proof.
  intros H Ht Hr Hn run. assert (run ∉ jkeys (runs s)) as Hk.
  { intros Hin. destruct (inv_runs _ _ _ H) as [_ H2]. rewrite Forall_forall in H2. specialize (H2 _ Hin). cbn in H2. unfold run in H2. lia. }
  assert (sent_in run os = []) as Hs.
  { destruct (sent_in run os) eqn:E; [done|]. pose proof (inv_fresh _ _ _ H run) as Hf. rewrite E in Hf. unfold run in Hf. specialize (Hf ltac:(done)). lia. }
  assert (∀ b p, Ended run b p ∉ os) as He.
  { intros b p Hin. destruct (inv_ended _ _ _ H run b p Hin) as [_ (ms' & Hst%started_elem & _)].
    destruct (inv_started _ _ _ H) as [_ H2]. rewrite Forall_forall in H2. specialize (H2 _ Hst). cbn in H2. unfold run in H2. lia. }
  assert (∀ q, flight q s' = flight q s) as Hf by (intros q; unfold flight; by rewrite Ht).
  assert (∀ q, sent_in q [Started run ms] = []) as Hq by done.
  split_and!.
  - destruct H. split; rewrite ?Ht, ?Hr, ?Hn; try done.
    + destruct inv_tests0. split; [done|]. eapply Forall_impl; [done|]. cbn. lia.
    + destruct inv_runs0. split; [done|]. eapply Forall_impl; [done|]. cbn. lia.
    + destruct inv_started0 as [H1 H2]. rewrite started_app. cbn. split.
      * apply NoDup_app. split_and!; [done| |apply NoDup_singleton]. intros i Hi ->%list_elem_of_singleton. rewrite Forall_forall in H2. specialize (H2 _ Hi). cbn in H2. unfold run in H2. lia.
      * apply Forall_app. split; [eapply Forall_impl; [done|]; cbn; lia|]. constructor; [unfold run; lia|constructor].
    + intros q x Hx _. apply (run_ok_app os _ s); [done|done|]. by apply inv_alive0.
    + intros q b p [Hin|Hin]%elem_of_app; [|by apply list_elem_of_singleton in Hin]. destruct (inv_ended0 q b p Hin). split; [done|]. by apply end_ok_app.
    + intros q. rewrite sent_in_app, Hq, app_nil_r. intros Hne. specialize (inv_fresh0 q Hne). lia.
    + intros q. rewrite started_app. cbn. intros [Hin|Hin]%elem_of_app; [|apply list_elem_of_singleton in Hin; subst; auto].
      destruct (inv_told0 q Hin) as [|[|(b & p & Hin')]]; [auto|done|]. right; right. exists b, p. apply elem_of_app. by left.
  - rewrite Hf. by apply (flight_owned None os).
  - by rewrite sent_in_app, Hq, Hs.
  - intros b p [Hin|Hin]%elem_of_app; [by apply (He b p)|by apply list_elem_of_singleton in Hin].
Qed.

Lemma handleBatchTest_ok ms os s : Inv os s → Inv (os ++ (handleBatchTest ms s).2) (handleBatchTest ms s).1.
Proof.
  intros H. unfold handleBatchTest. destruct (set_of _) as [|m l] eqn:E; [by rewrite app_nil_r|].
  assert (NoDup (m :: l)) as Hd by (rewrite <- E; apply NoDup_set_of). set (r := mkRun _ _ _ _ _ _ _ _).
  rewrite !seq_fst, !seq_snd. cbn [upd emit fst snd app]. rewrite cons_middle, app_assoc.
  set (s1 := set_view _ _). destruct (Inv_start (m :: l) os s s1 H) as (H1 & H2 & H3 & H4); [done..|].
  apply loop_ok; try done.
  - apply elem_of_app. right. by left.
  - cbn. lia.
  - cbn. lia.
Qed.

Lemma jdel_cons {V} (k i : nat) (x : V) l : jdel k ((i, x) :: l) = if decide (i = k) then jdel k l else (i, x) :: jdel k l.
Proof. unfold jdel. rewrite filter_cons. cbn [fst]. by destruct (decide (i = k)), (decide (i ≠ k)). Qed.
Lemma jdel_absent {V} (k : nat) (l : list (nat * V)) : k ∉ jkeys l → jdel k l = l.
Proof. intros Hk. apply filter_all, Forall_forall. intros [j y] Hj E. apply Hk. cbn in E. subst j. apply list_elem_of_fmap. by exists (k, y). Qed.

(** A test that is answered leaves those in flight. *)
Lemma flight_jdel id t q (l : list (nat * Test)) : NoDup (jkeys l) → jget id l = Some t →
  let keep l := filter (λ t, t_run t = Some q) (snd <$> l) in
  if decide (t_run t = Some q) then length (keep l) = S (length (keep (jdel id l))) else keep l = keep (jdel id l).
Proof.
  cbn zeta. induction l as [|[i x] l IH]; [done|]. intros [Hn Hd]%NoDup_cons. rewrite jdel_cons. cbn [jget].
  destruct (decide (id = i)) as [->|Hid]; intros Hg.
  - injection Hg as ->. rewrite (decide_True (P := i = i)), jdel_absent by done. cbn [fmap list_fmap snd]. rewrite filter_cons. by destruct (decide (t_run t = Some q)).
  - rewrite (decide_False (P := i = id)) by congruence. cbn [fmap list_fmap snd]. rewrite !filter_cons. specialize (IH Hd Hg).
    destruct (decide (t_run t = Some q)), (decide (t_run x = Some q)); cbn [length]; [by rewrite IH|done|by rewrite IH|done].
Qed.

Lemma Inv_answered id t os s s' : Inv os s → jget id (tests s) = Some t → tests s' = jdel id (tests s) → runs s' = runs s → nextId s' = nextId s →
  match t_run t with
  | None => Inv os s'
  | Some run => Inv_but (Some run) os s' ∧ length (flight run s) = S (length (flight run s'))
  end.
Proof.
  intros H Hg Ht Hr Hn.
  assert (∀ q, t_run t ≠ Some q → flight q s' = flight q s) as Hf.
  { intros q Hq. unfold flight. rewrite Ht. pose proof (flight_jdel id t q _ (proj1 (inv_tests _ _ _ H)) Hg) as E. rewrite decide_False in E by done. by rewrite E. }
  assert (Inv_but (t_run t) os s') as H'.
  { destruct H. split; rewrite ?Hr, ?Hn; try done.
    - destruct inv_tests0 as [H1 H2]. rewrite Ht. split; [by apply NoDup_jdel|]. apply Forall_forall. intros i Hi. rewrite Forall_forall in H2. apply H2.
      apply jget_is_Some in Hi as [x Hx]. rewrite jget_jdel in Hx. case_decide; [done|]. apply jget_is_Some. by eexists.
    - intros i x q Hx Eq. rewrite Ht in Hx. apply list_elem_of_filter in Hx as [_ Hx]. by eapply inv_owned0.
    - intros q x Hx Hne. apply (run_ok_view os s); [by apply Hf|]. by apply inv_alive0.
    - intros q Hin. destruct (inv_told0 q Hin) as [|[|]]; auto. done. }
  destruct (t_run t) as [run|] eqn:E; [|done]. split; [done|].
  unfold flight. rewrite Ht, !length_fmap. pose proof (flight_jdel id t run _ (proj1 (inv_tests _ _ _ H)) Hg) as E'. by rewrite decide_True in E'.
Qed.

Lemma awaits_flight run s : awaits run s = false ↔ flight run s = [].
Proof.
  unfold awaits, flight. induction (tests s) as [|[i t] l IH]; [done|]. cbn [existsb fmap list_fmap snd]. rewrite filter_cons, orb_false_iff, bool_decide_eq_false.
  destruct (decide (t_run t = Some run)); [split; [intros []; done|done]|]. rewrite IH. naive_solver.
Qed.

(** A result of a batch whose other tests are as they were. *)
Lemma batch_result_ok run res os s0 s r : jget run (runs s) = Some r → run_ok os s0 run r → length (flight run s0) = S (length (flight run s)) →
  Inv_but (Some run) os s → Inv (os ++ (batch_result run res s).2) (batch_result run res s).1.
Proof.
  intros Hg Hok Hl H. unfold batch_result. rewrite Hg. set (r' := recordBatchResult res r).
  rewrite !seq_fst, !seq_snd. cbn [upd fst snd app]. set (s1 := set_view _ s). set (s2 := set_runs _ s1).
  assert (run ∈ jkeys (runs s)) as Hin by (apply jget_is_Some; by eexists).
  assert (Inv_but (Some run) os s2) as H2.
  { apply Inv_set_run; [|done]. rewrite <- (app_nil_r os). by apply (Inv_quiet _ os [] s). }
  assert (successCount r' <= completedCount r') as Hsu by (pose proof (ok_success _ _ _ _ Hok); cbn; case_decide; lia).
  pose proof (ok_sent _ _ _ _ Hok) as Hs. pose proof (ok_count _ _ _ _ Hok) as Hc.
  assert (pausing r = false) as Hp.
  { pose proof (ok_pausing _ _ _ _ Hok) as Hp. destruct (pausing r); [|done]. destruct Hp as [E _]. rewrite E in Hl. done. }
  assert (completedCount r' + length (flight run s) = length (sent_in run os)) as Hc' by (cbn; lia).
  unfold when, ite. destruct (awaits run s2) eqn:Ea.
  - cbn [negb skip fst snd]. rewrite app_nil_r. apply (Inv_close run); [done|cbn; apply elem_of_jkeys_jset; auto|]. cbn [s2 set_runs runs]. intros x. rewrite jget_jset_eq. intros [= <-].
    destruct Hok. split; try done.
    + change (flight run s2) with (flight run s). lia.
    + cbn. rewrite Hp. intros E%awaits_flight. assert (awaits run s2 = false) by exact E. congruence.
  - cbn [negb]. apply awaits_flight in Ea. change (flight run s2) with (flight run s) in Ea. rewrite Ea in Hc'. cbn [length] in Hc'. rewrite Nat.add_0_r in Hc'.
    rewrite Hs, length_take in Hc'. destruct (batchStopRequested s2 || _) eqn:Eb.
    + destruct Hok. apply finish_ok; auto.
      * rewrite Hs. change (r_models r') with (r_models r). rewrite Hc', <- take_take, (take_ge (r_models r) (length (r_models r))); done.
      * change (r_models r') with (r_models r). lia.
      * intros b p Hin'. destruct (inv_ended _ _ _ H run b p Hin'). done.
      * apply orb_true_iff in Eb as [Eb|Eb%Nat.leb_le]; [by left|right]. change (r_models r') with (r_models r) in *. change (startIndex r') with (startIndex r) in Eb. lia.
    + apply orb_false_iff in Eb as [_ Eb%Nat.leb_gt]. change (r_models r') with (r_models r) in *. change (startIndex r') with (startIndex r) in Eb.
      cbn [upd fst snd]. rewrite app_nil_r. apply (Inv_close run).
      * apply Inv_set_run; [done|]. cbn. apply elem_of_jkeys_jset. auto.
      * cbn. apply elem_of_jkeys_jset. auto.
      * cbn [set_runs runs]. intros x. rewrite jget_jset_eq. intros [= <-]. destruct Hok. split; try done.
        -- change (flight run _) with (flight run s). rewrite Ea. cbn [length pause completedCount]. rewrite Hs, length_take. lia.
        -- change (flight run _) with (flight run s). rewrite Ea. cbn. lia.
Qed.

Lemma single_ok e b m os s : Inv os s → Inv (os ++ (start_test None e b m s).2) (start_test None e b m s).1.
Proof.
  intros H. pose proof (start_test_spec None e b m s) as Hsp. destruct (start_test None e b m s) as [s' o]. destruct Hsp as (T & R & N & _ & _ & ->).
  cbn [fst snd]. assert (∀ q, flight q s' = flight q s) as Hf.
  { intros q. unfold flight. rewrite T, fmap_app, filter_app, fmap_app. cbn. by rewrite app_nil_r. }
  assert (tests s' = tests s ++ imap (λ i m, (nextId s + i, mkTest m None)) [m]) as T' by (rewrite T; cbn; by rewrite Nat.add_0_r).
  destruct H. apply (Inv_quiet None os _ s'); [done|done|done|done|].
  split; rewrite ?R, ?N; try done.
  - rewrite T'. unfold jkeys in *. rewrite fmap_app, fmap_imap. rewrite <- Nat.add_1_r. by apply (new_ids_ok _ _ [m]).
  - destruct inv_runs0. split; [done|]. eapply Forall_impl; [done|]. cbn. lia.
  - destruct inv_started0. split; [done|]. eapply Forall_impl; [done|]. cbn. lia.
  - intros i t q Ht Eq. rewrite T in Ht. apply elem_of_app in Ht as [Ht|Ht]; [by eapply inv_owned0|]. apply list_elem_of_singleton in Ht as [= -> ->]. done.
  - intros q x Hx Hne. apply (run_ok_view os s); [done|]. by apply inv_alive0.
  - intros q Hq. specialize (inv_fresh0 q Hq). lia.
Qed.

Lemma slept_ok run os s : Inv os s → Inv (os ++ (slept run s).2) (slept run s).1.
Proof.
  intros H. unfold slept. destruct (jget run (runs s)) as [r|] eqn:Hg; [|by rewrite app_nil_r]. destruct (pausing r) eqn:Hp; [|by rewrite app_nil_r].
  pose proof (inv_alive _ _ _ H run r Hg) as Hok. specialize (Hok ltac:(done)). assert (run ∈ jkeys (runs s)) as Hin by (apply jget_is_Some; by eexists).
  pose proof (ok_pausing _ _ _ _ Hok) as Hpp. rewrite Hp in Hpp. destruct Hpp as [Hf Hlt]. destruct Hok. rewrite Hf in ok_count0. cbn [length] in ok_count0.
  rewrite ok_sent0, length_take in ok_count0. apply loop_ok; try done; cbn [next_batch r_models startIndex completedCount successCount]; try lia.
  - by apply Inv_weaken.
  - destruct (inv_runs _ _ _ H) as [_ H2]. rewrite Forall_forall in H2. by apply H2.
  - intros b p Hin'. destruct (inv_ended _ _ _ H run b p Hin'). done.
Qed.

Lemma test_answered_ok channel id a now os s : Inv os s → Inv (os ++ (answered channel id a now s).2) (answered channel id a now s).1.
Proof.
  intros H. unfold answered. destruct (jget id (tests s)) as [t|] eqn:Hg; [|by rewrite app_nil_r].
  destruct (t_run t) as [run|] eqn:Er.
  - rewrite !seq_fst, !seq_snd. cbn [upd skip markModelTesting updateTestResult fst snd app]. set (s1 := set_view _ _).
    pose proof (Inv_answered id t os s s1 H Hg eq_refl eq_refl eq_refl) as Ha. rewrite Er in Ha. destruct Ha as [H1 Hl].
    assert (run ∈ jkeys (runs s)) as [r Hr]%jget_is_Some by (eapply (inv_owned _ _ _ H); [by eapply jget_elem_of|done]).
    apply (batch_result_ok run _ os s s1 r); [done| |done|done]. by apply (inv_alive _ _ _ H).
  - rewrite !seq_fst, !seq_snd. cbn [upd skip emit refreshChannelLists markModelTesting updateTestResult fst snd app]. set (s1 := set_view _ _).
    apply (Inv_quiet None os _ s1); [done|done|done|done|]. pose proof (Inv_answered id t os s s1 H Hg eq_refl eq_refl eq_refl) as Ha. by rewrite Er in Ha.
Qed.

Lemma step_ok channel os s e o s' : Inv os s → step channel s (e, o) s' → Inv (os ++ o) s'.
Proof.
  intros H [_ Hh]. cbn [fst snd] in Hh. assert ((handle channel e s).1 = s' ∧ (handle channel e s).2 = o) as [<- <-] by by rewrite Hh. clear Hh.
  destruct e; cbn [handle].
  all: try (by apply handleBatchTest_ok); try (by apply single_ok); try (by apply test_answered_ok); try (by apply slept_ok).
  all: try (by apply (Inv_quiet None os _ s)).
  - destruct value; by apply (Inv_quiet None os _ s).
  - unfold handleStopBatchTest, when, ite. case_match; by apply (Inv_quiet None os _ s).
  - unfold handleDeleteFailedModels. case_match; apply (Inv_quiet None os _ s); try done. cbn. lia.
  - unfold delete_answered. case_match; [|by apply (Inv_quiet None os _ s)]. destruct a; by apply (Inv_quiet None os _ s).
Qed.

Lemma Inv_reached channel tr s : reaches (step channel) init tr s → Inv (outs tr) s.
Proof.
  induction 1 as [|tr s1 [e o] s2 _ IH Hs]; [apply Inv_init|]. rewrite outs_snoc. by eapply step_ok.
Qed.

(** ** What a batch does *)

(** C10: a batch tests its models exactly once each, in order and at most five at a time.
    When it ends it has counted every test that it sent, and it has sent them all unless
    it was stopped, when some are left. *)
Theorem batch_exact channel tr s : reaches (step channel) init tr s →
  (∀ r b p, Ended r b p ∈ outs tr → end_ok (outs tr) r b p ∧ flight r s = []) ∧
  (∀ r run, jget r (runs s) = Some run → ∃ ms, Started r ms ∈ outs tr ∧ NoDup ms ∧ sent_in r (outs tr) `prefix_of` ms) ∧
  (∀ r, length (flight r s) <= 5).
Proof.
  intros H%Inv_reached. split_and!.
  - intros r b p Hin. destruct (inv_ended _ _ _ H r b p Hin) as [Hk He]. split; [done|]. by eapply flight_owned.
  - intros r run Hg. destruct (inv_alive _ _ _ H r run Hg) as []; [done|]. exists (r_models run). rewrite ok_sent0. split_and!; [done|done|]. apply prefix_take.
  - intros r. destruct (jget r (runs s)) as [run|] eqn:Hg.
    + by apply (ok_window _ _ _ _ (inv_alive _ _ _ H r run Hg ltac:(done))).
    + apply jget_None in Hg. rewrite (flight_owned _ _ _ _ H Hg). cbn. lia.
Qed.

(** ** Every batch ends *)

(** What is still to come: the answers awaited, and two steps for each model that is left. *)
Definition left_of (r : Run) : nat := 2 * (length (r_models r) - startIndex r).
Definition pending (s : Dialog) : nat := length (tests s) + sum_list_with (λ p, left_of p.2) (runs s).
(** What happens without the user. *)
Definition awaited (e : Event) : bool := match e with Answered _ _ _ | Slept _ => true | _ => false end.

Section weights.
Context {V : Type} (w : V → nat).
Abbreviation weight l := (sum_list_with (λ p : nat * V, w p.2) l).

Lemma weight_jset k v v' (l : list (nat * V)) : jget k l = Some v → weight (jset k v' l) + w v = weight l + w v'.
Proof.
  induction l as [|[i x] l IH]; [done|]. cbn [jget jset]. destruct (decide (k = i)) as [->|Hk].
  - intros [= ->]. cbn. lia.
  - intros Hg. specialize (IH Hg). cbn. lia.
Qed.
Lemma weight_jdel k v (l : list (nat * V)) : NoDup (jkeys l) → jget k l = Some v → weight (jdel k l) + w v = weight l.
Proof.
  induction l as [|[i x] l IH]; [done|]. intros [Hn Hd]%NoDup_cons. rewrite jdel_cons. cbn [jget]. destruct (decide (k = i)) as [->|Hk].
  - intros [= ->]. rewrite decide_True, jdel_absent by done. cbn. lia.
  - intros Hg. specialize (IH Hd Hg). rewrite decide_False by congruence. cbn. lia.
Qed.
Lemma length_jdel k v (l : list (nat * V)) : NoDup (jkeys l) → jget k l = Some v → length l = S (length (jdel k l)).
Proof.
  induction l as [|[i x] l IH]; [done|]. intros [Hn Hd]%NoDup_cons. rewrite jdel_cons. cbn [jget]. destruct (decide (k = i)) as [->|Hk].
  - intros _. by rewrite decide_True, jdel_absent.
  - intros Hg. rewrite decide_False by congruence. cbn. by rewrite (IH Hd Hg).
Qed.
End weights.

Lemma pending_set_run run r r0 s : jget run (runs s) = Some r0 → pending (set_runs (jset run r (runs s)) s) + left_of r0 = pending s + left_of r.
Proof. intros Hg. unfold pending. cbn [set_runs tests runs]. pose proof (weight_jset left_of run r0 r _ Hg). lia. Qed.

Lemma finish_pending run r r0 s : NoDup (jkeys (runs s)) → jget run (runs s) = Some r0 → pending (finish run r s).1 + left_of r0 = pending s.
Proof.
  intros Hd Hg. unfold finish. rewrite !seq_fst. cbn [emit upd refreshChannelLists fst]. unfold pending. cbn [set_runs set_stop set_view tests runs].
  pose proof (weight_jdel left_of run r0 _ Hd Hg). lia.
Qed.

Lemma slept_pending run r os s : Inv os s → jget run (runs s) = Some r → pausing r = true → pending (slept run s).1 < pending s.
Proof.
  intros H Hg Hp. unfold slept. rewrite Hg, Hp. pose proof (inv_alive _ _ _ H run r Hg ltac:(done)) as Hok. pose proof (ok_pausing _ _ _ _ Hok) as Hpp.
  rewrite Hp in Hpp. destruct Hpp as [_ Hlt]. destruct (inv_runs _ _ _ H) as [Hd _]. assert (0 < left_of r) as Hpos by (unfold left_of; lia).
  unfold loop, ite. destruct (_ && _) eqn:E.
  - rewrite seq_fst. cbn [upd fst]. set (s1 := set_runs _ s). pose proof (start_tests_spec run (next_batch r) (batch (next_batch r)) s1) as Hsp.
    destruct (start_tests _ _ _ s1) as [s2 o]. destruct Hsp as (T & R & _). cbn [fst]. pose proof (pending_set_run run (next_batch r) r s Hg) as Hw. fold s1 in Hw.
    unfold pending in *. rewrite T, R, length_app. unfold new_tests. rewrite length_imap. unfold batch. rewrite length_take.
    assert (left_of r = left_of (next_batch r) + 10) by (unfold left_of; cbn [next_batch r_models startIndex]; unfold BATCH_TEST_CONCURRENCY in *; lia).
    unfold BATCH_TEST_CONCURRENCY in *. lia.
  - pose proof (finish_pending run (next_batch r) r s Hd Hg). lia.
Qed.

Lemma batch_result_pending run res s : NoDup (jkeys (runs s)) → pending (batch_result run res s).1 <= pending s.
Proof.
  intros Hd. unfold batch_result. destruct (jget run (runs s)) as [r|] eqn:Hg; [|done]. set (r' := recordBatchResult res r).
  rewrite !seq_fst. cbn [upd fst]. set (s1 := set_view _ s). set (s2 := set_runs _ s1). assert (pending s2 = pending s) as E2.
  { pose proof (pending_set_run run r' r s1 Hg) as E. change (left_of r') with (left_of r) in E. fold s2 in E. change (pending s1) with (pending s) in E. lia. }
  assert (jget run (runs s2) = Some r') as Hg2 by apply jget_jset_eq. unfold when, ite. destruct (negb (awaits run s2)); [|cbn [skip fst]; lia].
  destruct (_ || _).
  - assert (NoDup (jkeys (runs s2))) as Hd2 by by apply NoDup_jset. pose proof (finish_pending run r' r' s2 Hd2 Hg2). lia.
  - cbn [upd fst]. pose proof (pending_set_run run (pause r') r' s2 Hg2) as E. change (left_of (pause r')) with (left_of r') in E. lia.
Qed.

Lemma answered_pending channel id a now os s : Inv os s → is_Some (jget id (tests s)) → pending (answered channel id a now s).1 < pending s.
Proof.
  intros H [t Hg]. unfold answered. rewrite Hg. pose proof (length_jdel id t _ (proj1 (inv_tests _ _ _ H)) Hg) as Hl.
  destruct (t_run t) as [run|]; rewrite !seq_fst; cbn [upd skip emit refreshChannelLists markModelTesting updateTestResult fst]; set (s1 := set_view _ _).
  - pose proof (batch_result_pending run (answer_result a now) s1 (proj1 (inv_runs _ _ _ H))) as Hb. unfold pending in *. cbn [s1 set_view set_tests tests runs] in Hb. lia.
  - unfold pending. cbn [s1 set_view set_tests tests runs]. lia.
Qed.

Lemma awaited_pending channel os s e o s' : Inv os s → awaited e = true → step channel s (e, o) s' → pending s' < pending s.
Proof.
  intros H He [Hen Hh]. cbn [fst snd] in *. assert ((handle channel e s).1 = s') as <- by by rewrite Hh.
  destruct e; try done; cbn [handle enabled] in *; [by eapply answered_pending|].
  apply fmap_Some in Hen as (r & Hg & Hp). by eapply slept_pending.
Qed.

(** Something is awaited as long as a batch runs. *)
Lemma awaited_enabled channel os s : Inv os s → (∀ e, awaited e = true → ¬ enabled channel e s) → tests s = [] ∧ runs s = [].
Proof.
  intros H Hno. assert (tests s = []) as Ht.
  { destruct (tests s) as [|[i t] l] eqn:E; [done|]. destruct (Hno (Answered i (Rejected None) 0)); [done|]. cbn [enabled]. rewrite E. cbn. rewrite decide_True by done. by eexists. }
  split; [done|]. destruct (runs s) as [|[r run] l] eqn:E; [done|].
  assert (jget r (runs s) = Some run) as Hg by (rewrite E; cbn; by rewrite decide_True).
  pose proof (ok_pausing _ _ _ _ (inv_alive _ _ _ H r run Hg ltac:(done))) as Hp. unfold flight in Hp. rewrite Ht in Hp. cbn in Hp.
  destruct (pausing run) eqn:Ep; [|done]. destruct (Hno (Slept r)); [done|]. cbn [enabled]. rewrite Hg. cbn. by rewrite Ep.
Qed.

Lemma awaited_run channel os s tr s' : Inv os s → reaches (step channel) s tr s' → Forall (λ l, awaited l.1 = true) tr →
  Inv (os ++ outs tr) s' ∧ length tr + pending s' <= pending s.
Proof.
  intros H Hr. induction Hr as [|tr s1 [e o] s2 Hr IH Hs]; [intros _; cbn; by rewrite app_nil_r|].
  rewrite Forall_app, Forall_singleton. intros [Hf He]. destruct (IH Hf) as [H1 Hl]. rewrite outs_snoc, app_assoc. split; [by eapply step_ok|].
  pose proof (awaited_pending channel _ _ _ _ _ H1 He Hs). rewrite length_app. cbn. lia.
Qed.

(** C11: a batch always ends.  From any state that the dialog reaches, the answers and the
    pauses that are awaited are finitely many, and when they are over no test is in flight,
    no batch runs, and every batch that was started has told its end. *)
Theorem batch_settles channel tr s tr' s' : reaches (step channel) init tr s → reaches (step channel) s tr' s' → Forall (λ l, awaited l.1 = true) tr' →
  length tr' <= pending s ∧
  ((∀ e, awaited e = true → ¬ enabled channel e s') → tests s' = [] ∧ runs s' = [] ∧
    ∀ r ms, Started r ms ∈ outs (tr ++ tr') → ∃ b p, Ended r b p ∈ outs (tr ++ tr')).
Proof.
  intros H%Inv_reached Hr Hf. destruct (awaited_run channel _ s tr' s' H Hr Hf) as [H' Hl]. split; [lia|]. intros Hno.
  destruct (awaited_enabled channel _ s' H' Hno) as [Ht Hrun]. split_and!; [done|done|]. intros r ms Hst.
  replace (outs (tr ++ tr')) with (outs tr ++ outs tr') in * by (unfold outs; by rewrite fmap_app, concat_app).
  destruct (inv_told _ _ _ H' r (started_elem _ _ _ Hst)) as [Hk|[|He]]; [|done|done]. rewrite Hrun in Hk. by apply not_elem_of_nil in Hk.
Qed.

(** ** One batch at a time *)








(** ** Closing the dialog *)

(** What is awaited of one batch, and a run in which nothing else happens. *)
Definition of_batch (r : nat) (e : Event) (s : Dialog) : Prop :=
  match e with
  | Answered id _ _ => t_run <$> jget id (tests s) = Some (Some r)
  | Slept q => q = r
  | _ => False
  end.
Definition batch_step (channel : Channel) (r : nat) (s : Dialog) (l : Event * list Out) (s' : Dialog) : Prop :=
  of_batch r l.1 s ∧ step channel s l s'.

(** A batch that runs and is not asked to stop; one that has ended, of its own accord, and
    has cleared what is shown of a batch. *)
Definition goes_on (r : nat) (s : Dialog) : Prop := batchStopRequested s = false ∧ is_Some (jget r (runs s)).
Definition is_over (r : nat) (os : list Out) (s : Dialog) : Prop :=
  (∃ p, Ended r false p ∈ os) ∧ jget r (runs s) = None ∧ isBatchTesting (view s) = false ∧ batchProgress (view s) = None.
Definition same_batch (q : nat) (s s' : Dialog) : Prop := jget q (runs s') = jget q (runs s) ∧ flight q s' = flight q s.

Section resumed.
Context (r q : nat) (Hqr : q ≠ r).

Lemma finish_resumes x s : batchStopRequested s = false →
  same_batch q s (finish r x s).1 ∧ is_over r (finish r x s).2 (finish r x s).1.
Proof.
  intros Hs. unfold finish. rewrite !seq_fst, !seq_snd. cbn [emit upd refreshChannelLists fst snd]. rewrite Hs. cbn [andb]. split; [split; [|done]|].
  - cbn [set_runs runs]. by rewrite jget_jdel, decide_False.
  - split_and!; [exists (progress x); by left| |done|done]. cbn [set_runs runs]. by rewrite jget_jdel, decide_True.
Qed.

Lemma loop_resumes x s : batchStopRequested s = false →
  same_batch q s (loop r x s).1 ∧ (goes_on r (loop r x s).1 ∨ is_over r (loop r x s).2 (loop r x s).1).
Proof.
  intros Hs. unfold loop, ite. destruct (_ && _); [|destruct (finish_resumes x s Hs); by auto].
  rewrite seq_fst. cbn [upd fst]. set (s1 := set_runs _ s). pose proof (start_tests_spec r x (batch x) s1) as Hsp.
  destruct (start_tests r x (batch x) s1) as [s2 o]. destruct Hsp as (T & R & _ & B & _). cbn [fst]. split; [split|left; split].
  - rewrite R. cbn [s1 set_runs runs]. by rewrite jget_jset, decide_False.
  - rewrite (flight_new q r _ _ s1 s2 T), decide_False, app_nil_r by done. done.
  - by rewrite B.
  - rewrite R. cbn [s1 set_runs runs]. rewrite jget_jset_eq. by eexists.
Qed.

Lemma result_resumes res x s : jget r (runs s) = Some x → batchStopRequested s = false →
  same_batch q s (batch_result r res s).1 ∧
  (goes_on r (batch_result r res s).1 ∨ is_over r (batch_result r res s).2 (batch_result r res s).1).
Proof.
  intros Hg Hs. unfold batch_result. rewrite Hg. rewrite !seq_fst, !seq_snd. cbn [upd fst snd app]. set (x' := recordBatchResult res x). set (s2 := set_runs _ _).
  assert (same_batch q s s2) as [H1 H2] by (split; [cbn [s2 set_runs set_view runs]; by rewrite jget_jset, decide_False|done]).
  unfold when, ite. destruct (negb (awaits r s2)).
  2: { cbn [skip fst]. split; [done|]. left. split; [done|]. cbn [s2 set_runs runs]. rewrite jget_jset_eq. by eexists. }
  change (batchStopRequested s2) with (batchStopRequested s). rewrite Hs. cbn [orb]. destruct (_ <=? _).
  - destruct (finish_resumes x' s2 Hs) as [[H3 H4] Ho]. split; [split; congruence|by right].
  - cbn [upd fst]. split; [split; [cbn [set_runs runs]; by rewrite jget_jset, decide_False|done]|].
    left. split; [done|]. cbn [set_runs runs]. rewrite jget_jset_eq. by eexists.
Qed.

Lemma batch_step_resumes channel os s l s' : Inv os s → goes_on r s → batch_step channel r s l s' →
  same_batch q s s' ∧ (goes_on r s' ∨ is_over r l.2 s').
Proof.
  intros H [Hs [x Hx]] [Hof [_ Hh]]. assert ((handle channel l.1 s).1 = s' ∧ (handle channel l.1 s).2 = l.2) as [<- <-] by by rewrite Hh. clear Hh.
  destruct l.1; try done; cbn [handle of_batch] in *.
  - unfold answered. apply fmap_Some in Hof as (t & Hg & Ht). rewrite Hg, <- Ht. rewrite !seq_fst, !seq_snd.
    cbn [upd skip markModelTesting updateTestResult fst snd app]. set (s1 := set_view _ _).
    destruct (result_resumes (answer_result a now) x s1 Hx Hs) as [[H1 H2] Ho]. split; [|done]. split; [done|]. rewrite H2.
    unfold flight. pose proof (flight_jdel id t q _ (proj1 (inv_tests _ _ _ H)) Hg) as E. rewrite decide_False in E by congruence. cbn [s1 set_view set_tests tests]. by rewrite E.
  - subst run. unfold slept. rewrite Hx. destruct (pausing x); [by apply loop_resumes|]. split; [done|]. left. split; [done|by eexists].
Qed.

Lemma batch_step_over channel os s l s' : Inv os s → jget r (runs s) = None → ¬ batch_step channel r s l s'.
Proof.
  intros H Hn [Hof [Hen _]]. destruct l.1; try done; cbn [of_batch enabled] in *.
  - apply fmap_Some in Hof as (t & Hg & Ht). pose proof (inv_owned _ _ _ H id t r (jget_elem_of _ _ _ Hg) ltac:(done)) as [y Hy]%jget_is_Some. congruence.
  - subst. by rewrite Hn in Hen.
Qed.

Lemma batch_run_resumes channel os s tr s' : Inv os s → goes_on r s → reaches (batch_step channel r) s tr s' →
  reaches (step channel) s tr s' ∧ Forall (λ l, awaited l.1 = true) tr ∧ Inv (os ++ outs tr) s' ∧ same_batch q s s' ∧ (goes_on r s' ∨ is_over r (outs tr) s').
Proof.
  intros H Hgo. induction 1 as [|tr s1 [e o] s2 Hr IH Hs].
  { cbn. rewrite app_nil_r. split_and!; [constructor|constructor|done|done|by left]. }
  destruct IH as (R & F & I & [S1 S2] & [G|(_ & G & _)]); [|by destruct (batch_step_over channel _ _ _ _ I G Hs)].
  destruct (batch_step_resumes channel _ s1 _ s2 I G Hs) as [[S3 S4] Ho]. destruct Hs as [Hof Hst]. rewrite outs_snoc. split_and!.
  - by eapply reaches_snoc.
  - apply Forall_app. split; [done|]. constructor; [by destruct e|constructor].
  - rewrite app_assoc. by eapply step_ok.
  - split; congruence.
  - destruct Ho as [?|((p & Hp) & Ho)]; [by left|]. right. split; [exists p; apply elem_of_app; by right|done].
Qed.

(** As long as a batch runs, an answer or the end of its pause is awaited. *)
Lemma goes_on_awaited channel os s : Inv os s → is_Some (jget r (runs s)) → ∃ e, of_batch r e s ∧ enabled channel e s.
Proof.
  intros H [x Hx]. pose proof (ok_pausing _ _ _ _ (inv_alive _ _ _ H r x Hx ltac:(done))) as Hp. destruct (pausing x) eqn:E.
  - exists (Slept r). split; [done|]. cbn [enabled]. rewrite Hx. cbn. by rewrite E.
  - destruct (flight r s) as [|m l] eqn:Ef; [done|]. assert (m ∈ flight r s) as (i & t & Hin & Ht & _)%flight_elem by (rewrite Ef; by left).
    assert (jget i (tests s) = Some t) as Hg by (apply elem_of_jget; [apply H|done]).
    exists (Answered i (Rejected None) 0). cbn [of_batch enabled]. rewrite Hg. cbn. split; [by rewrite Ht|by eexists].
Qed.
End resumed.

Lemma Inv_run channel os s tr s' : Inv os s → reaches (step channel) s tr s' → Inv (os ++ outs tr) s'.
Proof.
  intros H. induction 1 as [|tr s1 [e o] s2 _ IH Hs]; [cbn; by rewrite app_nil_r|]. rewrite outs_snoc, app_assoc. by eapply step_ok.
Qed.

(** Closing the dialog and testing all models again. *)
Lemma closed_and_started channel os s : Inv os s → baseModels channel ≠ [] →
  ∃ o1 o2 s1, reaches (step channel) s [(Close, o1); (TestAll, o2)] s1 ∧ batchStopRequested s1 = false ∧ isBatchTesting (view s1) = true ∧
    (∀ r, is_Some (jget r (runs s)) → r ≠ nextId s ∧ same_batch r s s1) ∧
    (∃ ms, Started (nextId s) ms ∈ o2) ∧ is_Some (jget (nextId s) (runs s1)) ∧ flight (nextId s) s1 ≠ [].
Proof.
  intros H Hm. set (s0 := set_view (λ _, initial_view) (set_stop true s)).
  assert (filteredModels channel (view s0) = baseModels channel) as Ef.
  { change (filteredModels channel (view s0)) with (filter (λ m, m ∉ []) (baseModels channel)). apply filter_all, Forall_forall. intros m _. apply not_elem_of_nil. }
  destruct (set_of (filter (λ m, m ≠ []) (trim <$> baseModels channel))) as [|m l] eqn:Eu.
  { exfalso. apply set_of_nil_inv in Eu. destruct (baseModels channel) as [|y bs] eqn:Eb; [done|].
    assert (y ∈ baseModels channel) as Hy by (rewrite Eb; by left). unfold baseModels in Hy.
    apply list_elem_of_filter in Hy as [Hy (z & -> & _)%list_elem_of_fmap]. rewrite fmap_cons, filter_cons, trim_idemp, decide_True in Eu by done. done. }
  set (x := mkRun (m :: l) 0 false (endpointType (view s0)) (effectiveStreamTest (view s0)) [] 0 0).
  set (s2 := set_view (setBatch true false (Some (progress x))) (set_stop false (take_id s0))).
  set (s3 := set_runs (jset (nextId s) x (runs s)) s2).
  pose proof (start_tests_spec (nextId s) x (batch x) s3) as Hsp. destruct (start_tests (nextId s) x (batch x) s3) as [s1 o] eqn:Es.
  destruct Hsp as (T & R & _ & B & V & _).
  exists [Closed], (Started (nextId s) (m :: l) :: o), s1.
  assert (handle channel TestAll s0 = (s1, Started (nextId s) (m :: l) :: o)) as Hh.
  { cbn [handle]. rewrite Ef. unfold handleBatchTest. rewrite Eu. unfold seq_act, upd, emit. cbn [app]. fold x.
    change (nextId s0) with (nextId s). change (set_view _ (set_stop false (take_id s0))) with s2.
    unfold loop, ite. cbn [x startIndex r_models length]. change (0 <? S (length l)) with true. change (batchStopRequested s2) with false.
    cbn [andb negb]. unfold seq_act, upd. change (set_runs (jset (nextId s) x (runs s2)) s2) with s3. by rewrite Es. }
  split_and!.
  - eapply (reaches_cons _ _ _ s0); [by split|]. eapply (reaches_cons _ _ _ s1); [|constructor]. split; [|exact Hh]. cbn [fst enabled]. rewrite Ef. done.
  - by rewrite B.
  - by rewrite V.
  - intros r Hr. assert (r ≠ nextId s) as Hne.
    { intros ->. apply jget_is_Some in Hr. destruct (inv_runs _ _ _ H) as [_ Hlt]. rewrite Forall_forall in Hlt. specialize (Hlt _ Hr). cbn in Hlt. lia. }
    split; [done|]. split.
    + rewrite R. cbn [s3 set_runs runs]. by rewrite jget_jset, decide_False.
    + rewrite (flight_new r _ _ _ s3 s1 T), decide_False, app_nil_r by done. done.
  - exists (m :: l). by left.
  - rewrite R. cbn [s3 set_runs runs]. rewrite jget_jset_eq. by eexists.
  - rewrite (flight_new _ _ _ _ s3 s1 T), decide_True by done. cbn. intros E%(f_equal length). rewrite length_app in E. cbn in E. lia.
Qed.

(** C30: closing the dialog does not stop the batch that runs when the models are tested
    again at once.  The stop that closing asks for is taken back by the new batch, and the
    old one runs on beside it with the tests it awaits.  If then only the old batch receives
    its answers, it goes on, through all its slices and after finitely many of them, to its
    last model, reports an end that is no stop, and clears the state that is shown
    of a batch, while the new batch still runs and awaits its tests. *)
Theorem closed_batch_resumes channel tr s r run : reaches (step channel) init tr s → jget r (runs s) = Some run → baseModels channel ≠ [] →
  ∃ o1 o2 s1 q, reaches (step channel) s [(Close, o1); (TestAll, o2)] s1 ∧
    jget r (runs s1) = Some run ∧ flight r s1 = flight r s ∧
    q ≠ r ∧ (∃ ms, Started q ms ∈ o2) ∧ is_Some (jget q (runs s1)) ∧ flight q s1 ≠ [] ∧ isBatchTesting (view s1) = true ∧
    ∀ tr' s', reaches (batch_step channel r) s1 tr' s' → length tr' <= pending s1 ∧
      ((∀ e, of_batch r e s' → ¬ enabled channel e s') →
        (∃ p, Ended r false p ∈ outs tr' ∧ completed p = total p) ∧
        isBatchTesting (view s') = false ∧ batchProgress (view s') = None ∧
        jget q (runs s') = jget q (runs s1) ∧ flight q s' = flight q s1).
Proof.
  intros H%Inv_reached Hr Hm. destruct (closed_and_started channel _ s H Hm) as (o1 & o2 & s1 & R & Hst & Hb & Hold & Hstart & Hnew & Hf).
  destruct (Hold r) as [Hne [E1 E2]]; [by eexists|]. exists o1, o2, s1, (nextId s). split_and!; try done; [congruence|].
  pose proof (Inv_run channel _ s _ s1 H R) as H1.
  intros tr' s' Hrun. assert (goes_on r s1) as Hgo by (split; [done|rewrite E1; by eexists]).
  destruct (batch_run_resumes r (nextId s) ltac:(congruence) channel _ s1 tr' s' H1 Hgo Hrun) as (R' & F & I & [S1 S2] & Ho).
  split; [destruct (awaited_run channel _ s1 tr' s' H1 R' F); lia|]. intros Hno. destruct Ho as [[_ Hsome]|((p & Hp) & _ & O1 & O2)].
  { destruct (goes_on_awaited r channel _ s' I Hsome) as (e & He & Hen). by destruct (Hno e He). }
  split_and!; try done. exists p. split; [done|]. destruct (inv_ended _ _ _ I r false p) as [_ (ms & _ & _ & _ & _ & _ & E)]; [|done].
  apply elem_of_app. by right.
Qed.

(** ** Witnesses *)
Definition twelve : Channel :=
  mkChannel 1 (js "main") (js "a1,a2,a3,a4,a5,a6,a7,a8,b1,b2,b3,b4").
Definition fine : Answer := Replied (mkResponse true None None None None).
Definition replies (ids : list nat) : list Event := (λ i, Answered i fine 1000) <$> ids.

Ltac enabled_now := vm_compute; repeat split; try discriminate; try (eexists; reflexivity).

(** A batch of twelve models, the dialog closed after one answer, and another batch. *)
Lemma closed_batch_resumes_witness : ∃ tr s run o1 o2 s1 q, reaches (step twelve) init tr s ∧ jget 0 (runs s) = Some run ∧
  length (flight 0 s) = 4 ∧ reaches (step twelve) s [(Close, o1); (TestAll, o2)] s1 ∧ flight 0 s1 = flight 0 s ∧ q ≠ 0 ∧ flight q s1 ≠ [].
Proof.
  pose proof (run_reaches (enabled twelve) (handle twelve) ([TestAll] ++ replies [1]) init ltac:(enabled_now)) as H.
  destruct (jget 0 (runs (run_after (handle twelve) ([TestAll] ++ replies [1]) init))) as [run|] eqn:Hr; [|vm_compute in Hr; discriminate Hr].
  destruct (closed_batch_resumes twelve _ _ 0 run H Hr ltac:(vm_compute; discriminate)) as (o1 & o2 & s1 & q & H1 & _ & Hf & Hq & _ & _ & Hn & _).
  do 7 eexists. split; [exact H|]. split; [exact Hr|]. split; [vm_compute; reflexivity|]. split; [exact H1|]. split; [exact Hf|]. split; [exact Hq|exact Hn].
Defined.

Definition two : Channel := mkChannel 1 (js "main") (js "a1,a2").
Definition two_done : list Event := [TestAll] ++ replies [1; 2].

Lemma batch_exact_witness : ∃ tr s, reaches (step two) init tr s ∧ Ended 0 false (mkProgress 2 2 2 0) ∈ outs tr ∧
  end_ok (outs tr) 0 false (mkProgress 2 2 2 0) ∧ flight 0 s = [].
Proof.
  pose proof (run_reaches (enabled two) (handle two) two_done init ltac:(enabled_now)) as H.
  do 2 eexists. split; [exact H|]. assert (Ended 0 false (mkProgress 2 2 2 0) ∈ outs (run_trace (handle two) two_done init)) as He.
  { vm_compute. repeat first [left | right]. }
  split; [exact He|]. exact (proj1 (batch_exact two _ _ H) 0 false _ He).
Defined.

Lemma batch_settles_witness : ∃ tr s tr' s', reaches (step two) init tr s ∧ reaches (step two) s tr' s' ∧ length tr' = 2 ∧ length tr' <= pending s ∧ runs s ≠ [] ∧ runs s' = [].
Proof.
  pose proof (run_reaches (enabled two) (handle two) [TestAll] init ltac:(enabled_now)) as H1.
  pose proof (run_reaches (enabled two) (handle two) (replies [1; 2]) (run_after (handle two) [TestAll] init) ltac:(enabled_now)) as H2.
  do 4 eexists. split; [exact H1|]. split; [exact H2|]. split; [reflexivity|]. split; [|split].
  - apply (batch_settles two _ _ _ _ H1 H2). repeat (constructor; [reflexivity|]). constructor.
  - vm_compute. discriminate.
  - apply (batch_settles two _ _ _ _ H1 H2); [repeat (constructor; [reflexivity|]); constructor|].
    intros e He. destruct e; try discriminate He; vm_compute; [intros [? ?]; discriminate|discriminate].
Defined.

