(* ===== verification/TieredEditor.v ===== *)
(** The editor of tiered prices (web/src/features/system-settings/models/
    tiered-pricing-editor.tsx): its inputs of numbers, the cards of tiers and of request
    rules, the templates, and the editor as a state machine.

    The editor holds a visual configuration, a text and groups of rules, and the panel
    above it the two expressions that are saved.  After every render the effects of the
    component run in order on what was rendered; [flush] is one such round, and [settle]
    the rounds that follow a handler. *)
From S2P Require Import Prelude JsString JsValue Json JsPrint JsNumber RegExp BillingExpr TierExpr.
Local Open Scope nat_scope.

(** ** Inputs of numbers *)
Definition unitCostToPrice (uc : jsval) : jsnum := num_or_zero (to_number uc).
Definition priceToUnitCost (price : jsnum) : jsnum := num_or_zero price.

Inductive DraftValue := DraftNumber (n : jsnum) | DraftText (s : jsstring).
Definition formatNumberDraft (value : DraftValue) : jsstring :=
  match value with DraftText s => s | DraftNumber n => if is_finite n then show_num n else js "0" end.
Definition parseNumberDraft (value : jsstring) : jsnum :=
  match trim value with
  | [] => num0
  | _ => let next := string_to_number value in if is_finite next then next else num0
  end.
Definition isZeroDraft (value : jsstring) : bool := negb (bool_decide (trim value = [])) && num_eqb (parseNumberDraft value) num0.

Record DraftInput := mkDraft { draft : jsstring; focused : bool }.
Definition open_draft (value : DraftValue) : DraftInput := mkDraft (formatNumberDraft value) false.
(** The effect on the value or the focus. *)
Definition sync_draft (value : DraftValue) (d : DraftInput) : DraftInput := if focused d then d else mkDraft (formatNumberDraft value) false.
(** Typing, focus and blur, with the number that is reported. *)
Definition draftChange (next : jsstring) (d : DraftInput) : DraftInput * jsnum := (mkDraft next (focused d), parseNumberDraft next).
Definition draftFocus (d : DraftInput) : DraftInput := mkDraft (draft d) true.
Definition draftBlur (d : DraftInput) : DraftInput * jsnum :=
  let normalized := parseNumberDraft (draft d) in (mkDraft (show_num normalized) false, normalized).

(** ** The card of a tier *)

(** [{...object, [name]: value}] *)
Definition with_prop (name : string) (v : jsval) (o : jsval) : jsval :=
  match o with JObj ps => JObj (jset (js name) v ps) | _ => JObj [(js name, v)] end.
Definition tier_conditions (t : VisualTier) : list jsval := match tfield "conditions" t with JArr l => l | _ => [] end.

(** The inputs of a row of a condition. *)
Inductive ConditionEdit := SetVar (v : jsstring) | SetOp (o : jsstring) | SetLimit (text : jsstring).
Definition edit_condition (e : ConditionEdit) (c : jsval) : jsval :=
  match e with
  | SetVar v => with_prop "var" (JStr v) c
  | SetOp o => with_prop "op" (JStr o) c
  | SetLimit text => with_prop "value" (JNum (parseNumberDraft text)) c
  end.

Definition handleConditionChange (i : nat) (next : jsval) (t : VisualTier) : VisualTier :=
  tset "conditions" (JArr (<[i := next]> (tier_conditions t))) t.
(** [l.filter((_, i) => i !== index)] *)
Definition without {A} (i : nat) (l : list A) : list A := take i l ++ drop (S i) l.
Definition handleConditionRemove (i : nat) (t : VisualTier) : VisualTier :=
  tset "conditions" (JArr (without i (tier_conditions t))) t.
Definition handlePriceChange (field : jsstring) (value : jsnum) (t : VisualTier) : VisualTier := jset field (JNum value) t.
Definition handleCacheModeChange (mode : jsstring) (t : VisualTier) : VisualTier :=
  tset "cache_create_1h_unit_cost"
    (if decide (mode = CACHE_MODE_TIMED) then nullish (tfield "cache_create_1h_unit_cost" t) (JNum num0) else JNum num0)
    (tset "cache_mode" (JStr mode) t).

Inductive TierEdit :=
| SetLabel (s : jsstring) | EditCondition (i : nat) (e : ConditionEdit) | RemoveCondition (i : nat)
| SetPrice (field : jsstring) (text : jsstring) | SetCacheMode (mode : jsstring).
Definition edit_tier (e : TierEdit) (t : VisualTier) : VisualTier :=
  match e with
  | SetLabel s => tset "label" (JStr s) t
  | EditCondition i e => match tier_conditions t !! i with Some c => handleConditionChange i (edit_condition e c) t | None => t end
  | RemoveCondition i => handleConditionRemove i t
  | SetPrice field text => handlePriceChange field (priceToUnitCost (parseNumberDraft text)) t
  | SetCacheMode mode => handleCacheModeChange mode t
  end.

(** ** The list of tiers *)
Definition handleTierChange (index : nat) (next : VisualTier) (config : VisualConfig) : VisualConfig :=
  {| tiers := <[index := normalizeVisualTier next]> (tiers config) |}.

Definition limit_condition (v : jsstring) : jsval :=
  JObj [(js "var", JStr v); (js "op", JStr (js "<")); (js "value", JNum (num_of_Z 200000))].

(** The last tier gets a limit when it has none. *)
Definition limit_last (ts : list VisualTier) : list VisualTier :=
  match last ts with
  | Some t => match tier_conditions t with
              | [] => <[length ts - 1 := normalizeVisualTier (tset "conditions" (JArr [limit_condition (js "len")]) t)]> ts
              | _ => ts
              end
  | None => ts
  end.
Definition handleAddTier (config : VisualConfig) : VisualConfig :=
  let ts := limit_last (tiers config) in
  {| tiers := ts ++ [normalizeVisualTier
       [ (js "label", JStr (js "tier_" ++ show_N (N.of_nat (length ts + 1)))); (js "conditions", JArr []);
         (js "input_unit_cost", JNum num0); (js "output_unit_cost", JNum num0) ]] |}.
Definition handleRemoveTier (index : nat) (config : VisualConfig) : VisualConfig :=
  match without index (tiers config) with [] => config | ts => {| tiers := ts |} end.
Definition handleAddCondition (index : nat) (config : VisualConfig) : VisualConfig :=
  match tiers config !! index with
  | None => config
  | Some tier =>
      if 2 <=? length (tier_conditions tier) then config
      else
        let used := (λ c, prop "var" c) <$> tier_conditions tier in
        let nextVar := if existsb (λ v, is_lit v "len") used then js "c" else js "len" in
        {| tiers := <[index := tset "conditions" (JArr (tier_conditions tier ++ [limit_condition nextVar])) tier]> (tiers config) |}
  end.

(** ** The cards of request rules *)
Inductive RuleEdit :=
| SetSource (s : Source) | SetMode (m : jsstring) | SetTimeFunc (f : jsstring) | SetTimezone (z : jsstring)
| SetRangeStart (text : jsstring) | SetRangeEnd (text : jsstring) | SetValue (text : jsstring) | SetPath (p : jsstring).

Definition handleSourceChange (s : Source) : RequestCondition :=
  match s with
  | SOURCE_TIME => createEmptyTimeCondition
  | _ => match createEmptyCondition with
         | ParamHeaderCondition _ p m v => ParamHeaderCondition (bool_decide (source_name s = source_name SOURCE_HEADER)) p m v
         | c => c
         end
  end.
Definition number_text (text : jsstring) : jsstring := show_num (parseNumberDraft text).
Definition edit_rule (e : RuleEdit) (c : RequestCondition) : RequestCondition :=
  match e, c with
  | SetSource s, _ => handleSourceChange s
  | SetMode m, TimeCondition f z _ v a b => TimeCondition f z m v a b
  | SetMode m, ParamHeaderCondition h p _ v => ParamHeaderCondition h p m v
  | SetTimeFunc f, TimeCondition _ z m v a b => TimeCondition f z m v a b
  | SetTimezone z, TimeCondition f _ m v a b => TimeCondition f z m v a b
  | SetRangeStart t, TimeCondition f z m v _ b => TimeCondition f z m v (number_text t) b
  | SetRangeEnd t, TimeCondition f z m v a _ => TimeCondition f z m v a (number_text t)
  | SetValue t, TimeCondition f z m _ a b => TimeCondition f z m (number_text t) a b
  | SetValue t, ParamHeaderCondition h p m _ => ParamHeaderCondition h p m t
  | SetPath p, ParamHeaderCondition h _ m v => ParamHeaderCondition h p m v
  | _, _ => c
  end.

Inductive GroupEdit := EditRule (i : nat) (e : RuleEdit) | AddRule (timeMode : bool) | RemoveRule (i : nat) | SetMultiplier (text : jsstring).
Definition with_conditions (cs : list RequestCondition) (g : RequestRuleGroup) : RequestRuleGroup :=
  {| conditions := cs; multiplier := multiplier g |}.
Definition edit_group (e : GroupEdit) (g : RequestRuleGroup) : RequestRuleGroup :=
  match e with
  | EditRule i e => match conditions g !! i with Some c => with_conditions (<[i := edit_rule e c]> (conditions g)) g | None => g end
  | AddRule timeMode => with_conditions (conditions g ++ [if timeMode then createEmptyTimeCondition else createEmptyCondition]) g
  | RemoveRule i => with_conditions (without i (conditions g)) g
  | SetMultiplier text => {| conditions := conditions g; multiplier := number_text text |}
  end.

(** ** Templates *)
Record Preset := mkPreset { preset_key : jsstring; preset_label : jsstring; expr : jsstring; requestRules : list RequestRuleGroup }.
(** A text in which double quotes are written as backquotes. *)
Definition jq (s : string) : jsstring := (λ c, if decide (c = 96%N) then 34%N else c) <$> js s.
Definition PRESET_GROUPS : list (jsstring * list Preset) := [
  (js "Fixed price", [
    mkPreset (js "flat") (js "Flat")
      (jq "tier(`base`, p * 2 + c * 4)")
      [];
    mkPreset (js "claude-opus") (js "Claude Opus 4.6")
      (jq "tier(`base`, p * 5 + c * 25 + cr * 0.5 + cc * 6.25 + cc1h * 10)")
      [];
    mkPreset (js "gpt-5.4") (js "GPT-5.4")
      (jq "len <= 272000 ? tier(`standard`, p * 2.5 + c * 15 + cr * 0.25) : tier(`long_context`, p * 5 + c * 22.5 + cr * 0.5)")
      []]);
  (js "Tiered", [
    mkPreset (js "claude-sonnet") (js "Claude Sonnet 4.5")
      (jq "len <= 200000 ? tier(`standard`, p * 3 + c * 15 + cr * 0.3 + cc * 3.75 + cc1h * 6) : tier(`long_context`, p * 6 + c * 22.5 + cr * 0.6 + cc * 7.5 + cc1h * 12)")
      [];
    mkPreset (js "qwen3-max") (js "Qwen3 Max")
      (jq "len <= 32000 ? tier(`short`, p * 1.2 + c * 6 + cr * 0.24 + cc * 1.5) : len <= 128000 ? tier(`mid`, p * 2.4 + c * 12 + cr * 0.48 + cc * 3) : tier(`long`, p * 3 + c * 15 + cr * 0.6 + cc * 3.75)")
      [];
    mkPreset (js "glm-4.5-air") (js "GLM-4.5 Air")
      (jq "len < 32000 && c < 200 ? tier(`short_output`, p * 0.8 + c * 2 + cr * 0.16) : len < 32000 && c >= 200 ? tier(`long_output`, p * 0.8 + c * 6 + cr * 0.16) : tier(`mid_context`, p * 1.2 + c * 8 + cr * 0.24)")
      [];
    mkPreset (js "doubao-seed-1.8") (js "Doubao Seed 1.8")
      (jq "len <= 32000 && c <= 200 ? tier(`discount`, p * 0.8 + c * 2 + cr * 0.16 + cc * 0.17) : len <= 32000 ? tier(`short`, p * 0.8 + c * 8 + cr * 0.16 + cc * 0.17) : len <= 128000 ? tier(`mid`, p * 1.2 + c * 16 + cr * 0.16 + cc * 0.17) : tier(`long`, p * 2.4 + c * 24 + cr * 0.16 + cc * 0.17)")
      []]);
  (js "Multimodal", [
    mkPreset (js "gpt-image-1-mini") (js "GPT Image 1 Mini")
      (jq "tier(`base`, p * 2 + c * 8 + img * 2.5)")
      [];
    mkPreset (js "gemini-2.5-flash") (js "Gemini 2.5 Flash")
      (jq "tier(`base`, p * 0.3 + c * 2.5 + cr * 0.03 + ai * 1.0)")
      [];
    mkPreset (js "gemini-3-pro-image") (js "Gemini 3 Pro Image")
      (jq "tier(`base`, p * 2 + c * 12 + img_o * 120)")
      [];
    mkPreset (js "qwen3-omni-flash") (js "Qwen3 Omni Flash")
      (jq "tier(`base`, p * 0.43 + c * 3.06 + img * 0.78 + ai * 3.81 + ao * 15.11)")
      []]);
  (js "Request rule", [
    mkPreset (js "claude-opus-fast") (js "Claude Opus 4.6 Fast")
      (jq "tier(`base`, p * 5 + c * 25 + cr * 0.5 + cc * 6.25 + cc1h * 10)")
      [{| conditions := [ParamHeaderCondition true (js "anthropic-beta") MATCH_CONTAINS (js "fast-mode-2026-02-01")]; multiplier := js "6" |}];
    mkPreset (js "gpt-5.4-tiers") (js "GPT-5.4 Priority/Flex")
      (jq "len <= 272000 ? tier(`standard`, p * 2.5 + c * 15 + cr * 0.25) : tier(`long_context`, p * 5 + c * 22.5 + cr * 0.5)")
      [{| conditions := [ParamHeaderCondition false (js "service_tier") MATCH_EQ (js "priority")]; multiplier := js "2" |};
       {| conditions := [ParamHeaderCondition false (js "service_tier") MATCH_EQ (js "flex")]; multiplier := js "0.5" |}]]);
  (js "Time-based", [
    mkPreset (js "night-discount") (js "Night discount (50%)")
      (jq "tier(`base`, p * 3 + c * 15)")
      [{| conditions := [TimeCondition (js "hour") (js "Asia/Shanghai") MATCH_RANGE (js "") (js "21") (js "6")]; multiplier := js "0.5" |}];
    mkPreset (js "weekend-discount") (js "Weekend discount (80%)")
      (jq "tier(`base`, p * 3 + c * 15)")
      [{| conditions := [TimeCondition (js "weekday") (js "Asia/Shanghai") MATCH_EQ (js "0") (js "") (js "")]; multiplier := js "0.8" |};
       {| conditions := [TimeCondition (js "weekday") (js "Asia/Shanghai") MATCH_EQ (js "6") (js "") (js "")]; multiplier := js "0.8" |}]])].
Definition PRESETS : list Preset := concat (snd <$> PRESET_GROUPS).

(** ** The editor *)
Inductive EditorMode := visual | raw.
#[export] Instance EditorMode_eq_dec : EqDecision EditorMode.
Proof. solve_decision. Defined.

Record Props := mkProps { modelName : jsstring; currentExpr : jsstring; currentRequestRuleExpr : jsstring }.
Record Editor := mkEditor { editorMode : EditorMode; visualConfig : option VisualConfig; rawExpr : jsstring; requestRuleGroups : list RequestRuleGroup }.
(** The editor under its panel; [seen] and [seenModel] are the values that the first two
    effects last ran on. *)
Record Page := mkPage {
  props : Props; editor : Editor; initRef : bool; seen : option (jsstring * jsstring); seenModel : option jsstring }.

(** An error thrown while rendering. *)
Definition or_type_error {A} (o : option A) : res js_error A := match o with Some a => Ok a | None => Throw TypeError end.

Definition effectiveExpr (ed : Editor) : res js_error jsstring :=
  match editorMode ed with
  | visual => or_type_error (generateExprFromVisualConfig (visualConfig ed))
  | raw => s ← splitBillingExprAndRequestRules (rawExpr ed); Ok (billingExpr s)
  end.

Definition canUseVisualRules (p : Page) : res js_error bool :=
  match currentRequestRuleExpr (props p) with
  | [] => Ok true
  | r => g ← tryParseRequestRuleExpr r; Ok (bool_decide (is_Some g))
  end.

Definition mount (ps : Props) : res js_error Page :=
  groups ← tryParseRequestRuleExpr (currentRequestRuleExpr ps);
  Ok (mkPage ps (mkEditor visual (tryParseVisualConfig (Some (currentExpr ps)))
                   (combineBillingExpr (currentExpr ps) (currentRequestRuleExpr ps)) (default [] groups)) false None None).

(** The first effect, when it is to read the expressions again. *)
Definition reinit (e r : jsstring) (ed : Editor) : res js_error Editor :=
  groups ← tryParseRequestRuleExpr r;
  let '(mode, config) :=
    match tryParseVisualConfig (Some e), e with
    | Some c, _ => (visual, Some c)
    | None, _ :: _ => (raw, None)
    | None, [] => (editorMode ed, Some createDefaultVisualConfig)
    end in
  Ok (mkEditor mode config (combineBillingExpr e r) (default [] groups)).

(** One round of effects: the first two, then those that report to the panel, all on what
    was rendered. *)
Definition flush (p : Page) : res js_error Page :=
  let ps := props p in
  let ed := editor p in
  let deps := (currentExpr ps, currentRequestRuleExpr ps) in
  e ← effectiveExpr ed;
  inited ← (if decide (seen p = Some deps) then Ok (ed, initRef p)
            else if initRef p then Ok (ed, true)
            else ed' ← reinit deps.1 deps.2 ed; Ok (ed', true));
  Ok (mkPage (mkProps (modelName ps) e (match editorMode ed with visual => buildRequestRuleExpr (requestRuleGroups ed) | raw => deps.2 end))
        inited.1 (if decide (seenModel p = Some (modelName ps)) then inited.2 else false) (Some deps) (Some (modelName ps))).

Fixpoint flushes (n : nat) (p : Page) : res js_error Page :=
  match n with O => Ok p | S n => p' ← flush p; flushes n p' end.
(** The rounds until nothing changes. *)
Definition ROUNDS : nat := 5.
Definition settle : Page → res js_error Page := flushes ROUNDS.

(** ** Handlers *)
Definition with_editor (f : Editor → Editor) (p : Page) : Page := mkPage (props p) (f (editor p)) (initRef p) (seen p) (seenModel p).
Definition with_props (f : Props → Props) (p : Page) : Page := mkPage (f (props p)) (editor p) (initRef p) (seen p) (seenModel p).
Definition onRequestRuleExprChange (r : jsstring) (p : Page) : Page := with_props (λ ps, mkProps (modelName ps) (currentExpr ps) r) p.

Definition handleVisualChange (next : VisualConfig) (p : Page) : Page :=
  with_editor (λ ed, mkEditor (editorMode ed) (Some next) (rawExpr ed) (requestRuleGroups ed)) p.
Definition handleRuleGroupsChange (next : list RequestRuleGroup) (p : Page) : Page :=
  with_editor (λ ed, mkEditor (editorMode ed) (visualConfig ed) (rawExpr ed) next) p.
Definition handleRawChange (value : jsstring) (p : Page) : res js_error Page :=
  s ← splitBillingExprAndRequestRules value;
  Ok (onRequestRuleExprChange (requestRuleExpr s)
        (with_editor (λ ed, mkEditor (editorMode ed) (visualConfig ed) value (requestRuleGroups ed)) p)).
(** [a || b] *)
Definition or_text (a b : jsstring) : jsstring := match a with [] => b | _ => a end.
Definition handleModeChange (next : EditorMode) (p : Page) : res js_error Page :=
  let ed := editor p in
  match next with
  | visual =>
      s ← splitBillingExprAndRequestRules (rawExpr ed);
      groups ← tryParseRequestRuleExpr (requestRuleExpr s);
      let config := default createDefaultVisualConfig (tryParseVisualConfig (Some (billingExpr s))) in
      Ok (onRequestRuleExprChange (requestRuleExpr s) (with_editor (λ ed, mkEditor visual (Some config) (rawExpr ed) (default [] groups)) p))
  | raw =>
      e ← or_type_error (generateExprFromVisualConfig (visualConfig ed));
      Ok (with_editor (λ ed, mkEditor raw (visualConfig ed) (or_text (combineBillingExpr e (buildRequestRuleExpr (requestRuleGroups ed))) e) (requestRuleGroups ed)) p)
  end.
Definition applyPreset (preset : Preset) (p : Page) : Page :=
  let ruleExpr := buildRequestRuleExpr (requestRules preset) in
  let combined := or_text (combineBillingExpr (expr preset) ruleExpr) (expr preset) in
  let '(mode, config) := match tryParseVisualConfig (Some (expr preset)) with Some c => (visual, Some c) | None => (raw, None) end in
  onRequestRuleExprChange ruleExpr (with_editor (λ _, mkEditor mode config combined (requestRules preset)) p).

(** ** Events *)
Inductive Event :=
| OfTier (i : nat) (e : TierEdit) | AddTier | RemoveTier (i : nat) | AddCondition (i : nat)
| OfGroup (i : nat) (e : GroupEdit) | AddGroup | RemoveGroup (i : nat)
| RawText (s : jsstring) | Mode (m : EditorMode) | Apply (preset : Preset) | Rename (name : jsstring).

(** The visual editor works on its normalised configuration. *)
Definition config_of (p : Page) : VisualConfig := normalizeVisualConfig (visualConfig (editor p)).

Definition handle (e : Event) (p : Page) : res js_error Page :=
  let groups := requestRuleGroups (editor p) in
  match e with
  | OfTier i e => Ok (match tiers (config_of p) !! i with
                      | Some t => handleVisualChange (handleTierChange i (edit_tier e t) (config_of p)) p
                      | None => p
                      end)
  | AddTier => Ok (handleVisualChange (handleAddTier (config_of p)) p)
  | RemoveTier i => Ok (handleVisualChange (handleRemoveTier i (config_of p)) p)
  | AddCondition i => Ok (handleVisualChange (handleAddCondition i (config_of p)) p)
  | OfGroup i e => Ok (match groups !! i with Some g => handleRuleGroupsChange (<[i := edit_group e g]> groups) p | None => p end)
  | AddGroup => Ok (handleRuleGroupsChange (groups ++ [createEmptyRuleGroup]) p)
  | RemoveGroup i => Ok (handleRuleGroupsChange (without i groups) p)
  | RawText s => handleRawChange s p
  | Mode m => handleModeChange m p
  | Apply preset => Ok (applyPreset preset p)
  | Rename name => Ok (with_props (λ ps, mkProps name (currentExpr ps) (currentRequestRuleExpr ps)) p)
  end.

(** The prices that a card has inputs for. *)
Definition PRICE_FIELDS : list jsstring := [js "input_unit_cost"; js "output_unit_cost"] ++ BILLING_CACHE_VAR_MAP.*1.

(** What the mode that is shown offers. *)
Definition enabled (e : Event) (p : Page) : bool :=
  match e with
  | OfTier _ (SetPrice field _) => bool_decide (editorMode (editor p) = visual) && bool_decide (field ∈ PRICE_FIELDS)
  | OfTier _ _ | AddTier | AddCondition _ | OfGroup _ _ | AddGroup | RemoveGroup _ => bool_decide (editorMode (editor p) = visual)
  | RemoveTier _ => bool_decide (editorMode (editor p) = visual) && (1 <? length (tiers (config_of p)))
  | RawText _ => bool_decide (editorMode (editor p) = raw)
  | _ => true
  end.

(** An event and the renders that follow it; opening the editor. *)
Definition event (e : Event) (p : Page) : res js_error Page := p ← handle e p; settle p.
Definition open_tiered (ps : Props) : res js_error Page := p ← mount ps; settle p.
