(* ===== verification/TieredEditorFacts.v ===== *)
(** Facts of the editor of tiered prices: its renders settle, what is saved is what is shown,
    and what the first change after opening it does. *)
From S2P Require Import Prelude JsString JsValue Json JsPrint JsNumber RegExp BillingExpr TierExpr TieredEditor.
Local Open Scope nat_scope.

(** ** Rounds of effects *)
Definition deps (p : Page) : jsstring * jsstring := (currentExpr (props p), currentRequestRuleExpr (props p)).
(** The rules that the editor reports, when the panel has [r]. *)
Definition reported (ed : Editor) (r : jsstring) : jsstring :=
  match editorMode ed with visual => buildRequestRuleExpr (requestRuleGroups ed) | raw => r end.
Definition known (p : Page) : Prop := seenModel p = Some (modelName (props p)).

Lemma flush_inv p p' : flush p = Ok p' → ∃ e, effectiveExpr (editor p) = Ok e ∧
  props p' = mkProps (modelName (props p)) e (reported (editor p) (deps p).2) ∧ seen p' = Some (deps p) ∧ known p' ∧
  ((seen p = Some (deps p) ∨ initRef p = true) ∧ editor p' = editor p ∧ (known p → initRef p' = initRef p) ∨
   seen p ≠ Some (deps p) ∧ initRef p = false ∧ reinit (deps p).1 (deps p).2 (editor p) = Ok (editor p') ∧ (known p → initRef p' = true)).
Proof.
  unfold flush. destruct (effectiveExpr (editor p)) as [e|]; [|done]. unfold mbind, res_bind. intros H. exists e. split; [done|].
  fold (deps p) in H. change (currentExpr (props p), currentRequestRuleExpr (props p)) with (deps p) in H.
  destruct (decide (seen p = Some (deps p))) as [Hs|Hs]; [|destruct (initRef p) eqn:Hi; [|destruct (reinit _ _ _) as [ed|] eqn:Hr; [|done]]];
    injection H as <-; cbn [props seen seenModel editor initRef fst snd modelName]; unfold known; cbn [seenModel props modelName];
    (split_and!; [done|done|done|]); [left|left|right]; split_and!; auto; by intros Hk; rewrite decide_True.
Qed.

Lemma flush_stable p : effectiveExpr (editor p) = Ok (currentExpr (props p)) → reported (editor p) (deps p).2 = (deps p).2 →
  seen p = Some (deps p) → known p → flush p = Ok p.
Proof.
  intros He Hr Hs Hk. unfold flush. rewrite He. unfold mbind, res_bind. change (currentExpr (props p), currentRequestRuleExpr (props p)) with (deps p).
  rewrite decide_True by done. unfold known in Hk. cbn [fst snd]. rewrite decide_True by done.
  change (match editorMode (editor p) with visual => _ | raw => (deps p).2 end) with (reported (editor p) (deps p).2). rewrite Hr.
  rewrite <- Hs, <- Hk. destruct p as [[m e r] ed i s sm]. done.
Qed.

Lemma flush_fixed p : flush p = Ok p → effectiveExpr (editor p) = Ok (currentExpr (props p)) ∧ reported (editor p) (deps p).2 = (deps p).2 ∧
  seen p = Some (deps p) ∧ known p.
Proof.
  intros (e & He & Hp & Hs & Hk & _)%flush_inv. destruct p as [[m e' r] ed i s sm].
  unfold deps in *. cbn [props currentExpr currentRequestRuleExpr modelName fst snd editor] in *. injection Hp as -> Hr. by split_and!.
Qed.

Lemma flushes_stable n p : flush p = Ok p → flushes n p = Ok p.
Proof. intros H. induction n as [|n IH]; [done|]. cbn. by rewrite H. Qed.

Lemma reported_twice ed r : reported ed (reported ed r) = reported ed r.
Proof. unfold reported. by destruct (editorMode ed). Qed.

(** The editor keeps its state: two rounds bring what it shows to the panel. *)
Lemma kept_settles p p1 p2 : known p → initRef p = true ∨ seen p = Some (deps p) ∧ (∀ e, effectiveExpr (editor p) = Ok e → (e, reported (editor p) (deps p).2) = deps p) →
  flush p = Ok p1 → flush p1 = Ok p2 → flush p2 = Ok p2 ∧ editor p2 = editor p.
Proof.
  intros Hk Hor (e & He & Hp1 & Hs1 & Hk1 & Hc)%flush_inv Hf2.
  assert (editor p1 = editor p ∧ initRef p1 = initRef p) as [Ed1 Hi1].
  { destruct Hc as [(_ & H1 & H2)|(Hs & Hi & _)]; [split; [done|by apply H2]|]. destruct Hor as [|[Hs' _]]; [congruence|done]. }
  assert (deps p1 = (e, reported (editor p) (deps p).2)) as Hd1 by (unfold deps at 1; by rewrite Hp1).
  apply flush_inv in Hf2 as (e' & He' & Hp2 & Hs2 & Hk2 & Hc2). rewrite Ed1 in He'. assert (e' = e) as -> by congruence.
  assert (editor p2 = editor p) as Ed2.
  { destruct Hc2 as [(_ & H1 & _)|(Hs & Hi & _)]; [congruence|]. destruct Hor as [Hi'|[Hs' Hd]]; [congruence|].
    destruct Hs. rewrite Hs1, Hd1. f_equal. symmetry. by apply Hd. }
  assert (deps p2 = deps p1) as Hd2.
  { unfold deps at 1. rewrite Hp2. cbn [currentExpr currentRequestRuleExpr]. rewrite Ed1, Hd1. cbn [snd]. by rewrite reported_twice. }
  split; [|done]. apply flush_stable; [| |by rewrite Hs2, Hd2|done].
  - rewrite Ed2. change (currentExpr (props p2)) with (deps p2).1. by rewrite Hd2, Hd1.
  - by rewrite Ed2, Hd2, Hd1; cbn [snd]; rewrite reported_twice.
Qed.

Lemma flushes_app n m p : flushes (n + m) p = (q ← flushes n p; flushes m q).
Proof. revert p. induction n as [|n IH]; intros p; [done|]. cbn. destruct (flush p) as [q|]; [apply IH|done]. Qed.

Lemma kept_flushes n p p' : known p → initRef p = true → flushes (2 + n) p = Ok p' → flush p' = Ok p' ∧ editor p' = editor p.
Proof.
  intros Hk Hi. cbn [Nat.add flushes]. unfold mbind, res_bind. destruct (flush p) as [p1|] eqn:H1; [|done]. destruct (flush p1) as [p2|] eqn:H2; [|done].
  destruct (kept_settles p p1 p2 Hk (or_introl Hi) H1 H2) as [Hs He]. rewrite (flushes_stable n p2 Hs). intros [= <-]. done.
Qed.

Lemma settle_stable p p' : settle p = Ok p' → flush p' = Ok p'.
Proof.
  intros H. change (flushes (1 + 4) p = Ok p') in H.
  rewrite flushes_app in H. unfold mbind, res_bind in H. destruct (flushes 1 p) as [p1|] eqn:E1; [|done].
  assert (known p1 ∧ ∃ d, seen p1 = Some d) as [Hk1 [d Hs1]].
  { cbn in E1. destruct (flush p) as [q|] eqn:Ef; [|done]. injection E1 as <-. apply flush_inv in Ef as (e & _ & _ & Hs & Hk & _). eauto. }
  destruct (initRef p1) eqn:Hi1; [by apply (kept_flushes 2 p1)|].
  change (flushes (1 + 3) p1 = Ok p') in H. rewrite flushes_app in H. unfold mbind, res_bind in H. destruct (flushes 1 p1) as [p2|] eqn:E2; [|done].
  cbn in E2. destruct (flush p1) as [q|] eqn:Ef; [|done]. injection E2 as ->. pose proof (flush_inv _ _ Ef) as (e & He & Hp2 & Hs2 & Hk2 & Hc).
  destruct (initRef p2) eqn:Hi2; [by apply (kept_flushes 1 p2)|].
  destruct Hc as [(_ & Ed2 & _)|(_ & _ & _ & Hi)]; [|specialize (Hi Hk1); congruence].
  change (flushes (1 + 2) p2 = Ok p') in H. rewrite flushes_app in H. unfold mbind, res_bind in H. destruct (flushes 1 p2) as [p3|] eqn:E3; [|done].
  cbn in E3. destruct (flush p2) as [q|] eqn:Ef2; [|done]. injection E3 as ->. pose proof (flush_inv _ _ Ef2) as (e2 & He2 & Hp3 & Hs3 & Hk3 & Hc2).
  destruct (initRef p3) eqn:Hi3; [by apply (kept_flushes 0 p3)|].
  assert (flush p3 = Ok p3) as Hst; [|rewrite (flushes_stable 2 p3 Hst) in H; by injection H as <-].
  destruct Hc2 as [([Hs|Hi] & Ed3 & _)|(_ & _ & _ & Hi)]; [|congruence|specialize (Hi Hk2); congruence].
  rewrite Ed2 in He2. assert (e2 = e) as -> by congruence.
  assert (deps p2 = (e, reported (editor p1) (deps p1).2)) as Hd2 by (unfold deps at 1; by rewrite Hp2).
  assert (deps p3 = deps p2) as Hd3.
  { unfold deps at 1. rewrite Hp3. cbn [currentExpr currentRequestRuleExpr]. rewrite Ed2, Hd2. cbn [snd]. by rewrite reported_twice. }
  apply flush_stable; [| |by rewrite Hs3, Hd3|done].
  - rewrite Ed3, Ed2. change (currentExpr (props p3)) with (deps p3).1. by rewrite Hd3, Hd2.
  - by rewrite Ed3, Ed2, Hd3, Hd2; cbn [snd]; rewrite reported_twice.
Qed.

(** C39: the renders of the editor settle: after a handler, and after opening it, at most five
    rounds of its effects reach a state that another round leaves as it is. *)
Theorem editor_settles p : match settle p with Ok p' => flush p' = Ok p' | Throw _ => True end.
Proof. destruct (settle p) as [p'|] eqn:H; [by apply (settle_stable p)|done]. Qed.

(** ** What is saved *)
(** A run of the editor: opening it, and events that it offers. *)
Inductive run_to (ps : Props) : Page → Prop :=
| run_open p : open_tiered ps = Ok p → run_to ps p
| run_event e p p' : run_to ps p → enabled e p = true → event e p = Ok p' → run_to ps p'.

Lemma run_stable ps p : run_to ps p → flush p = Ok p.
Proof.
  intros [p0 H|e p0 p1 _ _ H].
  - unfold open_tiered in H. destruct (mount ps) as [q|]; [|done]. by apply (settle_stable q).
  - unfold event in H. destruct (handle e p0) as [q|]; [|done]. by apply (settle_stable q).
Qed.

(** C12: what is saved is what is shown.  Whatever is done in the editor, the panel holds the
    expression of the tiers or of the text that is shown, and in the visual editor the rules of
    the groups that are shown. *)
Theorem shown_is_saved ps p : run_to ps p →
  match editorMode (editor p) with
  | visual => generateExprFromVisualConfig (visualConfig (editor p)) = Some (currentExpr (props p)) ∧
              buildRequestRuleExpr (requestRuleGroups (editor p)) = currentRequestRuleExpr (props p)
  | raw => billingExpr <$> (match splitBillingExprAndRequestRules (rawExpr (editor p)) with Ok s => Some s | Throw _ => None end) = Some (currentExpr (props p))
  end.
Proof.
  intros (He & Hr & _)%run_stable%flush_fixed. unfold effectiveExpr in He. unfold reported in Hr. destruct (editorMode (editor p)).
  - split; [|done]. destruct (generateExprFromVisualConfig _); [by injection He as ->|done].
  - destruct (splitBillingExprAndRequestRules _) as [s|]; [injection He as He; by rewrite <- He|done].
Qed.

(** ** The first change after opening *)

(** A change of the expression before the editor has read its values again makes it read them. *)
Lemma reread p ed e p' : flush p = Ok p → initRef p = false → effectiveExpr ed = Ok e → e ≠ currentExpr (props p) → reported ed (deps p).2 = (deps p).2 →
  settle (with_editor (λ _, ed) p) = Ok p' → reinit e (deps p).2 ed = Ok (editor p').
Proof.
  intros (_ & _ & Hs & Hk)%flush_fixed Hi He Hne Hrep H. set (q := with_editor _ p) in *. change (flushes (2 + 3) q = Ok p') in H.
  rewrite flushes_app in H. cbn [flushes] in H. unfold mbind, res_bind in H.
  destruct (flush q) as [q1|] eqn:E1; [|done]. destruct (flush q1) as [q2|] eqn:E2; [|done].
  apply flush_inv in E1 as (e' & He' & Hp1 & Hs1 & Hk1 & Hc1). cbn [q with_editor editor] in He'. assert (e' = e) as -> by congruence.
  assert (editor q1 = ed ∧ initRef q1 = false) as [Ed1 Hi1].
  { destruct Hc1 as [(_ & H1 & H2)|(Hn & _)]; [|by destruct Hn]. split; [done|]. rewrite (H2 Hk). done. }
  assert (deps q1 = (e, (deps p).2)) as Hd1 by (unfold deps at 1; rewrite Hp1; exact (f_equal (pair e) Hrep)).
  apply flush_inv in E2 as (e2 & _ & _ & _ & Hk2 & Hc2). destruct Hc2 as [([Hs'|Hi'] & _)|(_ & _ & Hre & Hi2)].
  - rewrite Hs1, Hd1 in Hs'. injection Hs' as Heq. by destruct Hne.
  - congruence.
  - specialize (Hi2 Hk1). rewrite Hd1, Ed1 in Hre. destruct (kept_flushes 1 q2 p' Hk2 Hi2 H) as [_ ->]. done.
Qed.

(** The first change of the text brings the visual editor back.  When the editor was
    opened on an expression of its own and is switched to the text, the first change of the
    base expression that the visual editor can show leaves the text editor. *)
Theorem text_edit_leaves ps p s sp c p' : run_to ps p → initRef p = false → editorMode (editor p) = raw →
  splitBillingExprAndRequestRules s = Ok sp → requestRuleExpr sp = currentRequestRuleExpr (props p) →
  billingExpr sp ≠ currentExpr (props p) → tryParseVisualConfig (Some (billingExpr sp)) = Some c →
  event (RawText s) p = Ok p' → editorMode (editor p') = visual ∧ visualConfig (editor p') = Some c.
Proof.
  intros Hst%run_stable Hi Hm Hs Hr Hne Hc H. unfold event, handle, handleRawChange in H. rewrite Hs in H. unfold mbind, res_bind in H.
  set (ed := mkEditor (editorMode (editor p)) (visualConfig (editor p)) s (requestRuleGroups (editor p))).
  assert (onRequestRuleExprChange (requestRuleExpr sp) (with_editor (λ ed, mkEditor (editorMode ed) (visualConfig ed) s (requestRuleGroups ed)) p)
          = with_editor (λ _, ed) p) as E by (rewrite Hr; destruct p as [[] ? ? ? ?]; done).
  rewrite E in H. assert (effectiveExpr ed = Ok (billingExpr sp)) as He by (unfold effectiveExpr, ed; cbn [editorMode rawExpr]; rewrite Hm, Hs; done).
  pose proof (reread p ed _ p' Hst Hi He Hne) as Hre. unfold reported in Hre. cbn [ed editorMode] in Hre. rewrite Hm in Hre. specialize (Hre eq_refl H).
  unfold reinit in Hre. rewrite Hc in Hre. destruct (tryParseRequestRuleExpr _); [|done]. by injection Hre as <-.
Qed.

(** ** Templates *)
Lemma flush_kept p e : known p → initRef p = true → effectiveExpr (editor p) = Ok e →
  flush p = Ok (mkPage (mkProps (modelName (props p)) e (reported (editor p) (deps p).2)) (editor p) true (Some (deps p)) (Some (modelName (props p)))).
Proof.
  intros Hk Hi He. unfold flush. rewrite He. unfold mbind, res_bind. rewrite Hi. unfold known in Hk. rewrite Hk.
  by destruct (decide (seen p = _)); cbn [fst snd]; rewrite decide_True by done.
Qed.

Lemma flushes_keep_editor n p e : known p → initRef p = true → effectiveExpr (editor p) = Ok e →
  ∃ p', flushes (2 + n) p = Ok p' ∧ editor p' = editor p ∧ initRef p' = true ∧ props p' = mkProps (modelName (props p)) e (reported (editor p) (deps p).2).
Proof.
  intros Hk Hi He. set (p1 := mkPage (mkProps (modelName (props p)) e (reported (editor p) (deps p).2)) (editor p) true (Some (deps p)) (Some (modelName (props p)))).
  set (p2 := mkPage (props p1) (editor p) true (Some (deps p1)) (Some (modelName (props p)))).
  assert (flush p = Ok p1) as H1 by by apply flush_kept.
  assert (flush p1 = Ok p2) as H2.
  { rewrite (flush_kept p1 e) by done. f_equal. unfold p2, p1. cbn [props modelName editor]. f_equal. unfold deps at 1. cbn [snd props currentRequestRuleExpr].
    by rewrite reported_twice. }
  assert (flush p2 = Ok p2) as H3.
  { apply flush_stable; [done| |done|done]. unfold p2, deps. cbn [snd props p1 currentRequestRuleExpr editor]. by rewrite reported_twice. }
  exists p2. split; [|done]. rewrite flushes_app. cbn [flushes]. unfold mbind, res_bind. rewrite H1, H2. by apply flushes_stable.
Qed.

(** The tiers of a template generate its expression, up to the text of numbers, and read back. *)
Definition preset_ok (preset : Preset) : bool :=
  match tryParseVisualConfig (Some (expr preset)) with
  | Some c => match generateExprFromVisualConfig (Some c) with
              | Some e => bool_decide (generateExprFromVisualConfig (tryParseVisualConfig (Some e)) = Some e)
              | None => false
              end
  | None => false
  end.
Lemma presets_ok : forallb preset_ok PRESETS = true.
Proof. vm_compute. reflexivity. Qed.

(** Once the editor has read its values again, every template can be applied: the visual
    editor shows its tiers and its rules, and the panel gets the expressions of both. *)
Theorem presets_apply ps p preset : run_to ps p → initRef p = true → preset ∈ PRESETS →
  ∃ p' c, event (Apply preset) p = Ok p' ∧ tryParseVisualConfig (Some (expr preset)) = Some c ∧
    editorMode (editor p') = visual ∧ visualConfig (editor p') = Some c ∧ requestRuleGroups (editor p') = requestRules preset ∧
    generateExprFromVisualConfig (Some c) = Some (currentExpr (props p')) ∧
    currentRequestRuleExpr (props p') = buildRequestRuleExpr (requestRules preset).
Proof.
  intros (_ & _ & _ & Hk)%run_stable%flush_fixed Hi Hin. pose proof presets_ok as Hok. apply forallb_Forall in Hok. rewrite Forall_forall in Hok.
  specialize (Hok preset Hin). cbn beta in Hok. unfold preset_ok in Hok. destruct (tryParseVisualConfig (Some (expr preset))) as [c|] eqn:Hc; [|done].
  destruct (generateExprFromVisualConfig (Some c)) as [e|] eqn:Hg; [|done]. set (q := applyPreset preset p).
  assert (known q ∧ initRef q = true ∧ editorMode (editor q) = visual ∧ visualConfig (editor q) = Some c ∧ requestRuleGroups (editor q) = requestRules preset) as (Hkq & Hiq & Hm & Hv & Hr).
  { unfold q, applyPreset. rewrite Hc. done. }
  destruct (flushes_keep_editor 3 q e Hkq Hiq) as (p' & Hs & Ed & _ & Hp); [unfold effectiveExpr; by rewrite Hm, Hv, Hg|].
  exists p', c. unfold event, handle. fold q. cbn. split; [done|]. rewrite Ed, Hp, Hm, Hv, Hr. cbn [currentExpr currentRequestRuleExpr].
  split_and!; try done. unfold reported. by rewrite Hm, Hr.
Qed.

(** An expression that the tiers generate, with rules that the groups build, opens in the
    visual editor as those tiers and groups, and opening it changes nothing of the panel. *)
Theorem saved_opens m e r c gs : tryParseVisualConfig (Some e) = Some c → generateExprFromVisualConfig (Some c) = Some e →
  tryParseRequestRuleExpr r = Ok (Some gs) → buildRequestRuleExpr gs = r →
  ∃ p, open_tiered (mkProps m e r) = Ok p ∧ props p = mkProps m e r ∧ editorMode (editor p) = visual ∧
    visualConfig (editor p) = Some c ∧ requestRuleGroups (editor p) = gs ∧ initRef p = false.
Proof.
  intros Hc Hg Hr Hb. set (ed := mkEditor visual (Some c) (combineBillingExpr e r) gs).
  set (p1 := mkPage (mkProps m e r) ed false (Some (e, r)) (Some m)).
  assert (flush p1 = Ok p1) as Hst.
  { apply flush_stable; [|exact Hb|done|done]. change (or_type_error (generateExprFromVisualConfig (Some c)) = Ok e). by rewrite Hg. }
  exists p1. split; [|done]. unfold open_tiered, mount. cbn [currentExpr currentRequestRuleExpr]. rewrite Hr, Hc.
  unfold mbind, res_bind. cbn [default]. change (settle _) with (flushes (1 + 4) (mkPage (mkProps m e r) ed false None None)). rewrite flushes_app. cbn [flushes].
  unfold mbind, res_bind. assert (flush (mkPage (mkProps m e r) ed false None None) = Ok p1) as ->; [|by apply (flushes_stable 4)].
  unfold flush. cbn [editor props currentExpr currentRequestRuleExpr seen initRef fst snd]. unfold effectiveExpr, reinit. cbn [ed editorMode visualConfig].
  rewrite Hg, Hr, Hc. unfold or_type_error, mbind, res_bind. change (requestRuleGroups ed) with gs. rewrite Hb. done.
Qed.

(** ** Tiers *)

(** The rules of a template build an expression that reads back as rules with that text. *)
Definition preset_rules_ok (preset : Preset) : bool :=
  match tryParseRequestRuleExpr (buildRequestRuleExpr (requestRules preset)) with
  | Ok (Some gs) => bool_decide (buildRequestRuleExpr gs = buildRequestRuleExpr (requestRules preset))
  | _ => false
  end.
Lemma presets_rules_ok : forallb preset_rules_ok PRESETS = true.
Proof. vm_compute. reflexivity. Qed.

(** C29: a template loses its prices when it is the first thing that is applied.  Let the
    editor be opened on a stored expression that is exactly the text its tiers generate, with
    rules that are exactly the text their groups build.  Then applying any of the templates
    whose rules build another text than the stored one, before anything else is changed, gives
    the panel the rules of the template and keeps the stored base expression and its tiers. *)
Theorem preset_prices_lost m e r c gs preset : preset ∈ PRESETS →
  tryParseVisualConfig (Some e) = Some c → generateExprFromVisualConfig (Some c) = Some e →
  tryParseRequestRuleExpr r = Ok (Some gs) → buildRequestRuleExpr gs = r → buildRequestRuleExpr (requestRules preset) ≠ r →
  ∃ p p', open_tiered (mkProps m e r) = Ok p ∧ event (Apply preset) p = Ok p' ∧
    props p' = mkProps m e (buildRequestRuleExpr (requestRules preset)) ∧
    editorMode (editor p') = visual ∧ visualConfig (editor p') = Some c.
Proof.
  intros Hin Hc Hg Hr Hb Hne. destruct (saved_opens m e r c gs Hc Hg Hr Hb) as (p & Ho & Hp & Hm & Hv & _ & Hi).
  assert (run_to (mkProps m e r) p) as (_ & _ & Hs & Hk)%run_stable%flush_fixed by by constructor.
  pose proof presets_ok as Hok. pose proof presets_rules_ok as Hrok. rewrite forallb_Forall, Forall_forall in Hok, Hrok.
  specialize (Hok preset Hin). specialize (Hrok preset Hin). cbn beta in Hok, Hrok. unfold preset_ok in Hok. unfold preset_rules_ok in Hrok.
  destruct (tryParseVisualConfig (Some (expr preset))) as [cp|] eqn:Hcp; [|done].
  destruct (generateExprFromVisualConfig (Some cp)) as [ep|] eqn:Hgp; [|done].
  set (R := buildRequestRuleExpr (requestRules preset)) in *.
  destruct (tryParseRequestRuleExpr R) as [[gs'|]|] eqn:HR; [|done..]. apply bool_decide_eq_true in Hrok.
  set (q := applyPreset preset p). set (ed1 := mkEditor visual (Some c) (combineBillingExpr e R) gs').
  set (q1 := mkPage (mkProps m ep R) ed1 true (Some (e, R)) (Some m)).
  assert (flush q = Ok q1) as Hf.
  { unfold q, applyPreset. rewrite Hcp. unfold deps in Hs. unfold known in Hk. rewrite Hp in Hs, Hk. cbn [currentExpr currentRequestRuleExpr modelName] in Hs, Hk.
    unfold flush, onRequestRuleExprChange, with_props, with_editor. cbn [props editor seen seenModel initRef editorMode visualConfig requestRuleGroups].
    rewrite Hp. cbn [currentExpr currentRequestRuleExpr modelName fst snd]. unfold effectiveExpr. cbn [editorMode visualConfig].
    rewrite Hgp. unfold or_type_error, mbind, res_bind. fold R. rewrite Hs, Hi, Hk. rewrite decide_False by congruence. unfold reinit. rewrite HR, Hc.
    unfold mbind, res_bind. cbn [default fst snd]. by rewrite decide_True. }
  destruct (flushes_keep_editor 2 q1 e) as (p' & Hs' & Ed & _ & Hp'); [done|done|unfold effectiveExpr; cbn [q1 ed1 editor editorMode visualConfig]; by rewrite Hg|].
  exists p, p'. split; [done|]. split.
  { unfold event, handle. unfold mbind, res_bind. fold q. change (settle q) with (flushes (1 + 4) q). rewrite flushes_app. cbn [flushes].
    unfold mbind, res_bind. rewrite Hf. exact Hs'. }
  rewrite Hp', Ed. split_and!; try done. unfold reported. cbn [q1 ed1 editor editorMode requestRuleGroups]. by rewrite Hrok.
Qed.

(** An object with each property once, whose conditions are a list of objects. *)
Definition tier_ok (t : VisualTier) : Prop :=
  NoDup (jkeys t) ∧ ∃ l, jget (js "conditions") t = Some (JArr l) ∧ Forall (λ c, ∃ ps, c = JObj ps) l.
Definition config_ok (c : VisualConfig) : Prop := tiers c ≠ [] ∧ Forall tier_ok (tiers c).

Lemma tier_ok_conditions t l : NoDup (jkeys t) → Forall (λ c, ∃ ps, c = JObj ps) l → tier_ok (tset "conditions" (JArr l) t).
Proof. intros Hd Hl. split; [by apply NoDup_jset|]. exists l. split; [apply jget_jset_eq|done]. Qed.

Lemma tier_ok_field k v t : k ≠ js "conditions" → tier_ok t → tier_ok (jset k v t).
Proof.
  intros Hk (Hd & l & Hl & Ho). split; [by apply NoDup_jset|]. exists l. split; [|done]. by rewrite jget_jset_ne.
Qed.

Lemma NoDup_spread b a : NoDup (jkeys a) → NoDup (jkeys (spread b a)).
Proof. unfold spread. revert a. induction b as [|[k v] b IH]; intros a Ha; [done|]. cbn [foldl]. apply IH. by apply NoDup_jset. Qed.

Lemma NoDup_costs fs tier t : NoDup (jkeys t) → NoDup (jkeys (foldl (λ t f, tset f (JNum (cost_of (tfield f tier))) t) t fs)).
Proof. revert t. induction fs as [|f fs IH]; intros t Ht; [done|]. cbn [foldl]. apply IH. by apply NoDup_jset. Qed.

Lemma normalize_keeps_ok t : NoDup (jkeys t) → (∀ v, jget (js "conditions") t = Some v → ∃ l, v = JArr l ∧ Forall (λ c, ∃ ps, c = JObj ps) l) → tier_ok (normalizeVisualTier t).
Proof.
  intros Hd Hc. unfold normalizeVisualTier. cbv zeta. split.
  - apply NoDup_costs, NoDup_spread. eapply bool_decide_unpack. vm_compute. exact I.
  - rewrite jget_costs by (eapply bool_decide_unpack; vm_compute; exact I). rewrite decide_False by (eapply bool_decide_unpack; vm_compute; exact I).
    rewrite jget_spread, jget_reverse by done. destruct (jget (js "conditions") t) as [v|] eqn:E.
    + destruct (Hc v eq_refl) as (l & -> & Hl). by exists l.
    + exists []. split; [|constructor]. unfold tfield, tprop. rewrite E. reflexivity.
Qed.

Lemma normalize_ok t : tier_ok t → tier_ok (normalizeVisualTier t).
Proof. intros (Hd & l & Hl & Ho). apply normalize_keeps_ok; [done|]. intros v. rewrite Hl. intros [= <-]. by exists l. Qed.

Lemma default_ok : config_ok createDefaultVisualConfig.
Proof.
  split; [done|]. cbn [createDefaultVisualConfig tiers]. constructor; [|constructor]. apply normalize_ok. split.
  - eapply bool_decide_unpack. vm_compute. exact I.
  - exists []. split; [reflexivity|constructor].
Qed.

Lemma normalize_config_ok c : match c with Some c => Forall tier_ok (tiers c) | None => True end → config_ok (normalizeVisualConfig c).
Proof.
  intros H. destruct c as [[[|t ts]]|]; [apply default_ok| |apply default_ok]. split; [done|]. cbn [normalizeVisualConfig tiers] in *.
  apply Forall_fmap. eapply Forall_impl; [exact H|]. intros x Hx. by apply normalize_ok.
Qed.

(** Reading an expression. *)
Lemma matched_costs_keys m n : jkeys (matched_costs m n) `sublist_of` BILLING_CACHE_VAR_MAP.*1.
Proof.
  unfold matched_costs. generalize BILLING_CACHE_VAR_MAP. intros l.
  assert (∀ j, jkeys (omap (λ '(i, (field, _)), t ← cap m (n + i); Some (field, JNum (string_to_number t))) (imap (λ i x, (j + i, x)) l)) `sublist_of` l.*1) as H.
  { induction l as [|[f v] l IH]; intros j; [constructor|]. cbn [imap fmap list_fmap fst]. cbn [omap list_omap].
    assert (imap ((λ i x, (j + i, x)) ∘ S) l = imap (λ i x, (S j + i, x)) l) as E by (apply imap_ext; intros i x _; cbn; f_equal; lia).
    rewrite E. destruct (cap m (n + (j + 0))); cbn; [apply sublist_skip|apply sublist_cons]; exact (IH (S j)). }
  exact (H 0).
Qed.

Lemma matched_tier_ok conds m n : tier_ok (normalizeVisualTier (matched_tier conds m n)).
Proof.
  apply normalize_keeps_ok.
  - eapply (sublist_NoDup _ ([js "conditions"; js "input_unit_cost"; js "output_unit_cost"; js "label"] ++ BILLING_CACHE_VAR_MAP.*1)).
    + eapply bool_decide_unpack. vm_compute. exact I.
    + unfold matched_tier, jkeys. rewrite fmap_app. apply sublist_app; [done|]. apply matched_costs_keys.
  - intros v [= <-]. exists (condition_obj <$> conds). split; [done|]. apply Forall_fmap, Forall_forall. intros x _. by eexists.
Qed.

Lemma parsed_ok e c : tryParseVisualConfig e = Some c → config_ok c.
Proof.
  unfold tryParseVisualConfig. destruct e as [[|u e]|]; [done| |done]. destruct (re_match singleRe _) as [m|].
  - intros [= <-]. apply (normalize_config_ok (Some {| tiers := [normalizeVisualTier (matched_tier [] m 1)] |})). cbn [tiers]. constructor; [apply matched_tier_ok|constructor].
  - destruct (matched_tiers _) as [|t ts] eqn:E; [done|]. destruct (generateExprFromVisualConfig _); [|done]. cbn. case_bool_decide; [|done].
    intros [= <-]. apply (normalize_config_ok (Some {| tiers := t :: ts |})). cbn [tiers]. rewrite <- E. apply Forall_fmap, Forall_forall. intros x _. apply matched_tier_ok.
Qed.

(** Generating an expression. *)
Lemma condition_str_total t : tier_ok t → is_Some (buildConditionStr (tfield "conditions" t)).
Proof.
  intros (_ & l & Hl & Ho). unfold tfield, tprop. rewrite Hl. change (default JUndef (Some (JArr l))) with (JArr l). unfold buildConditionStr. cbn [truthy negb].
  assert (existsb (λ c, match c with JUndef | JNull => true | _ => false end) l = false) as ->; [|by eexists].
  clear Hl. induction Ho as [|c l (ps & ->) _ IH]; [done|exact IH].
Qed.

Lemma tier_parts_total i ts : Forall tier_ok ts → is_Some (tier_parts i ts).
Proof.
  intros H. revert i. induction H as [|t ts Ht _ IH]; intros i; [by eexists|]. cbn [tier_parts].
  destruct (condition_str_total t Ht) as [s ->]. destruct (IH (S i)) as [l ->]. by eexists.
Qed.

Lemma generate_total c : config_ok c → is_Some (generateExprFromVisualConfig (Some c)).
Proof.
  destruct c as [[|t [|t' ts]]]; intros [Hne H]; [done| |].
  - apply (Forall_inv (P := tier_ok)) in H. unfold generateExprFromVisualConfig. destruct (condition_str_total t H) as [s ->]. by destruct s; eexists.
  - unfold generateExprFromVisualConfig. destruct (tier_parts_total 0 _ H) as [l Hl]. cbn [tiers] in Hl. rewrite Hl. by eexists.
Qed.

(** The inputs of a card keep the form of a tier. *)
Lemma tier_conditions_eq t l : jget (js "conditions") t = Some (JArr l) → tier_conditions t = l.
Proof. intros H. unfold tier_conditions, tfield, tprop. by rewrite H. Qed.

Lemma Forall_without {A} (P : A → Prop) i (l : list A) : Forall P l → Forall P (without i l).
Proof. intros H. unfold without. apply Forall_app. split; [by apply Forall_take|by apply Forall_drop]. Qed.

Lemma edit_tier_ok e t : (∀ f x, e = SetPrice f x → f ∈ PRICE_FIELDS) → tier_ok t → tier_ok (edit_tier e t).
Proof.
  intros He Ht. pose proof Ht as (Hd & l & Hl & Ho). pose proof (tier_conditions_eq t l Hl) as El. destruct e as [s|i ce|i|f x|m]; cbn [edit_tier].
  - by apply tier_ok_field.
  - rewrite El. destruct (l !! i) eqn:Ei; [|done]. unfold handleConditionChange. rewrite El. apply tier_ok_conditions; [done|]. apply Forall_insert; [done|].
    destruct ce; unfold edit_condition, with_prop; case_match; by eexists.
  - unfold handleConditionRemove. rewrite El. apply tier_ok_conditions; [done|]. by apply Forall_without.
  - apply tier_ok_field; [|done]. intros ->. specialize (He _ _ eq_refl). revert He. eapply bool_decide_unpack. vm_compute. exact I.
  - unfold handleCacheModeChange. apply tier_ok_field; [done|]. by apply tier_ok_field.
Qed.

(** The tiers of the editor, if it has any. *)
Definition tiers_ok (p : Page) : Prop := match visualConfig (editor p) with Some c => config_ok c | None => True end.

Lemma reinit_tiers e r ed ed' : reinit e r ed = Ok ed' → match visualConfig ed' with Some c => config_ok c | None => True end.
Proof.
  unfold reinit. destruct (tryParseRequestRuleExpr r); [|done]. unfold mbind, res_bind. destruct (tryParseVisualConfig (Some e)) as [c|] eqn:Hc.
  - intros [= <-]. cbn [visualConfig]. by eapply parsed_ok.
  - destruct e; intros [= <-]; cbn [visualConfig]; [apply default_ok|done].
Qed.

Lemma flushes_tiers n p p' : tiers_ok p → flushes n p = Ok p' → tiers_ok p'.
Proof.
  revert p. induction n as [|n IH]; intros p Hp; cbn [flushes]; [by intros [= <-]|]. unfold mbind, res_bind. destruct (flush p) as [q|] eqn:E; [|done].
  apply IH. unfold tiers_ok. apply flush_inv in E as (e & _ & _ & _ & _ & [(_ & -> & _)|(_ & _ & Hr & _)]); [exact Hp|by eapply reinit_tiers].
Qed.

Lemma config_of_ok p : tiers_ok p → config_ok (config_of p).
Proof. intros H. apply normalize_config_ok. unfold tiers_ok in H. destruct (visualConfig (editor p)); [apply H|done]. Qed.

Lemma limit_last_ok ts : Forall tier_ok ts → Forall tier_ok (limit_last ts).
Proof.
  intros H. unfold limit_last. destruct (last ts) as [t|] eqn:E; [|done]. destruct (tier_conditions t); [|done]. apply Forall_insert; [done|]. apply normalize_ok.
  apply last_Some_elem_of in E. rewrite Forall_forall in H. destruct (H t E) as [Hd _]. apply tier_ok_conditions; [done|]. constructor; [by eexists|constructor].
Qed.

Lemma fresh_tier_ok label :
  tier_ok (normalizeVisualTier [(js "label", JStr label); (js "conditions", JArr []); (js "input_unit_cost", JNum num0); (js "output_unit_cost", JNum num0)]).
Proof.
  apply normalize_ok. split; [|exists []; split; [reflexivity|constructor]]. unfold jkeys. cbn [fmap list_fmap fst]. eapply bool_decide_unpack. vm_compute. exact I.
Qed.

Lemma insert_ok i t c : config_ok c → tier_ok t → config_ok {| tiers := <[i := t]> (tiers c) |}.
Proof.
  intros [Hne H] Ht. split; cbn [tiers]; [|by apply Forall_insert]. intros E%(f_equal length). rewrite length_insert in E. by destruct (tiers c).
Qed.

Lemma add_condition_ok i c : config_ok c → config_ok (handleAddCondition i c).
Proof.
  intros Hc. unfold handleAddCondition. destruct (tiers c !! i) as [t|] eqn:Ei; [|done]. destruct (2 <=? _); [done|]. apply insert_ok; [done|].
  destruct (Forall_lookup_1 _ _ _ _ (proj2 Hc) Ei) as (Hd & l & Hl & Ho). rewrite (tier_conditions_eq t l Hl).
  apply tier_ok_conditions; [done|]. apply Forall_app. split; [done|]. constructor; [by eexists|constructor].
Qed.

Lemma remove_tier_ok i c : config_ok c → config_ok (handleRemoveTier i c).
Proof.
  intros Hc. unfold handleRemoveTier. destruct (without i (tiers c)) as [|t ts] eqn:E; [done|]. split; [done|]. cbn [tiers]. rewrite <- E. apply Forall_without, Hc.
Qed.

Lemma add_tier_ok c : config_ok c → config_ok (handleAddTier c).
Proof.
  intros Hc. unfold handleAddTier. cbv zeta. split; cbn [tiers]; [by destruct (limit_last _)|]. apply Forall_app. split; [apply limit_last_ok, Hc|].
  constructor; [apply fresh_tier_ok|constructor].
Qed.

Lemma handle_tiers e p p' : tiers_ok p → enabled e p = true → handle e p = Ok p' → tiers_ok p'.
Proof.
  intros Hp He. pose proof (config_of_ok p Hp) as Hc. destruct e; cbn [handle] in *.
  - intros [= <-]. destruct (tiers (config_of p) !! i) as [t|] eqn:Ei; [|done]. apply (insert_ok i _ _ Hc), normalize_ok, edit_tier_ok; [|by eapply Forall_lookup_1; [apply Hc|]].
    intros f x ->. cbn [enabled] in He. apply andb_true_iff in He as [_ He]. by apply bool_decide_eq_true in He.
  - intros [= <-]. by apply add_tier_ok.
  - intros [= <-]. by apply remove_tier_ok.
  - intros [= <-]. by apply add_condition_ok.
  - intros [= <-]. by destruct (requestRuleGroups (editor p) !! i).
  - by intros [= <-].
  - by intros [= <-].
  - unfold handleRawChange. destruct (splitBillingExprAndRequestRules s); [|done]. by intros [= <-].
  - unfold handleModeChange. destruct m.
    + destruct (splitBillingExprAndRequestRules _) as [sp|]; [|done]. unfold mbind, res_bind. destruct (tryParseRequestRuleExpr _); [|done].
      destruct (tryParseVisualConfig _) as [c|] eqn:Hcc; intros [= <-]; [by eapply parsed_ok|apply default_ok].
    + destruct (or_type_error _); [|done]. by intros [= <-].
  - intros [= <-]. unfold applyPreset. destruct (tryParseVisualConfig _) as [c|] eqn:Hcc; [|done]. by eapply parsed_ok.
  - by intros [= <-].
Qed.

(** C33: whatever is done in the editor, it has a tier, the conditions of each are a list of
    objects, and so the expression of the tiers can always be generated. *)
Theorem tiers_well_formed ps p c : run_to ps p → visualConfig (editor p) = Some c →
  tiers c ≠ [] ∧ Forall tier_ok (tiers c) ∧ ∃ e, generateExprFromVisualConfig (Some c) = Some e.
Proof.
  intros H Hc. assert (tiers_ok p) as Hp.
  { clear c Hc. induction H as [p H|e p p' _ IH He H].
    - unfold open_tiered, mount in H. destruct (tryParseRequestRuleExpr _); [|done]. unfold mbind, res_bind in H. eapply flushes_tiers; [|exact H].
      unfold tiers_ok. cbn [editor visualConfig]. destruct (tryParseVisualConfig _) as [c|] eqn:Hc; [by eapply parsed_ok|done].
    - unfold event in H. destruct (handle e p) as [q|] eqn:Hq; [|done]. eapply flushes_tiers; [|exact H]. by eapply handle_tiers. }
  unfold tiers_ok in Hp. rewrite Hc in Hp. destruct (generate_total c Hp) as [e He]. destruct Hp. eauto.
Qed.

(** ** Witnesses *)
Definition sample : Props := mkProps (js "m") (jq "tier(`base`, p * 0 + c * 0)") [].
Definition no_page : Page := mkPage sample (mkEditor raw None [] []) false None None.
Definition page_of (r : res js_error Page) : Page := match r with Ok p => p | Throw _ => no_page end.
Definition opened : Page := page_of (open_tiered sample).
Definition in_text : Page := page_of (event (Mode raw) opened).
Definition edited : Page := page_of (event AddTier opened).
Definition fast : Preset := nth 11 PRESETS (mkPreset [] [] [] []).

Lemma opened_run : run_to sample opened.
Proof. apply run_open. vm_compute. reflexivity. Qed.
Lemma in_text_run : run_to sample in_text.
Proof. apply (run_event _ (Mode raw) opened); [apply opened_run|reflexivity|vm_compute; reflexivity]. Qed.
Lemma edited_run : run_to sample edited.
Proof. apply (run_event _ AddTier opened); [apply opened_run|vm_compute; reflexivity|vm_compute; reflexivity]. Qed.

Lemma shown_is_saved_witness :
  generateExprFromVisualConfig (visualConfig (editor edited)) = Some (jq "len < 200000 ? tier(`base`, p * 0 + c * 0) : tier(`tier_2`, p * 0 + c * 0)") ∧
  currentExpr (props edited) = jq "len < 200000 ? tier(`base`, p * 0 + c * 0) : tier(`tier_2`, p * 0 + c * 0)".
Proof.
  assert (generateExprFromVisualConfig (visualConfig (editor edited)) = Some (jq "len < 200000 ? tier(`base`, p * 0 + c * 0) : tier(`tier_2`, p * 0 + c * 0)")) as Hg
    by (vm_compute; reflexivity).
  split; [exact Hg|]. pose proof (shown_is_saved sample edited edited_run) as H.
  assert (editorMode (editor edited) = visual) as Hm by (vm_compute; reflexivity). rewrite Hm in H. destruct H as [H _]. congruence.
Defined.

Lemma text_edit_leaves_witness : ∃ p', event (RawText (jq "tier(`base`, p * 2 + c * 0)")) in_text = Ok p' ∧ editorMode (editor in_text) = raw ∧ editorMode (editor p') = visual.
Proof.
  exists (page_of (event (RawText (jq "tier(`base`, p * 2 + c * 0)")) in_text)).
  assert (event (RawText (jq "tier(`base`, p * 2 + c * 0)")) in_text = Ok (page_of (event (RawText (jq "tier(`base`, p * 2 + c * 0)")) in_text))) as He by (vm_compute; reflexivity).
  split; [exact He|]. split; [vm_compute; reflexivity|].
  destruct (tryParseVisualConfig (Some (jq "tier(`base`, p * 2 + c * 0)"))) as [c|] eqn:Hc; [|vm_compute in Hc; discriminate].
  apply (text_edit_leaves sample in_text (jq "tier(`base`, p * 2 + c * 0)") {| billingExpr := jq "tier(`base`, p * 2 + c * 0)"; requestRuleExpr := [] |} c).
  - apply in_text_run.
  - vm_compute. reflexivity.
  - vm_compute. reflexivity.
  - vm_compute. reflexivity.
  - vm_compute. reflexivity.
  - vm_compute. discriminate.
  - exact Hc.
  - exact He.
Defined.

Lemma preset_prices_lost_witness : ∃ p p', open_tiered sample = Ok p ∧ event (Apply fast) p = Ok p' ∧
  currentExpr (props p') = jq "tier(`base`, p * 0 + c * 0)" ∧
  expr fast = jq "tier(`base`, p * 5 + c * 25 + cr * 0.5 + cc * 6.25 + cc1h * 10)".
Proof.
  destruct (tryParseVisualConfig (Some (currentExpr sample))) as [c|] eqn:Hc; [|vm_compute in Hc; discriminate].
  destruct (preset_prices_lost (js "m") (jq "tier(`base`, p * 0 + c * 0)") [] c [] fast) as (p & p' & Ho & He & Hp & _).
  - apply (list_elem_of_lookup_2 _ 11). reflexivity.
  - exact Hc.
  - rewrite <- Hc. vm_compute. reflexivity.
  - reflexivity.
  - reflexivity.
  - vm_compute. discriminate.
  - exists p, p'. split; [exact Ho|]. split; [exact He|]. rewrite Hp. split; [reflexivity|vm_compute; reflexivity].
Defined.

Lemma presets_apply_witness : ∃ p', event (Apply fast) edited = Ok p' ∧ requestRuleGroups (editor p') = requestRules fast.
Proof.
  destruct (presets_apply sample edited fast) as (p' & c & He & _ & _ & _ & Hr & _).
  - apply edited_run.
  - vm_compute. reflexivity.
  - apply (list_elem_of_lookup_2 _ 11). reflexivity.
  - exists p'. split; [exact He|exact Hr].
Defined.

Lemma saved_opens_witness : ∃ p, open_tiered sample = Ok p ∧ props p = sample ∧ editorMode (editor p) = visual.
Proof.
  destruct (tryParseVisualConfig (Some (currentExpr sample))) as [c|] eqn:Hc; [|vm_compute in Hc; discriminate].
  destruct (saved_opens (js "m") (jq "tier(`base`, p * 0 + c * 0)") [] c []) as (p & Ho & Hp & Hm & _).
  - exact Hc.
  - rewrite <- Hc. vm_compute. reflexivity.
  - reflexivity.
  - reflexivity.
  - exists p. split; [exact Ho|]. split; [exact Hp|exact Hm].
Defined.

Lemma tiers_well_formed_witness : ∃ c, visualConfig (editor edited) = Some c ∧ tiers c ≠ [] ∧ length (tiers c) = 2.
Proof.
  destruct (visualConfig (editor edited)) as [c|] eqn:Hc; [|vm_compute in Hc; discriminate]. exists c. split; [reflexivity|].
  split; [exact (proj1 (tiers_well_formed sample edited c edited_run Hc))|]. vm_compute in Hc. injection Hc as <-. reflexivity.
Defined.
